(* ===== verification/_CoqProject ===== *)
-Q . S2P
Prelude.v
JsString.v
JsNumber.v
JsNumberOrder.v
JsValue.v
BillingTypes.v
BillingParser.v
BillingParserFacts.v
BillingGrammar.v
BillingCompile.v
BillingTyping.v
BillingCompileFacts.v
CompilerProps.v
BillingRuntime.v
BillingRuntimeFacts.v
BillingRuntimeTrace.v
RuntimeProps.v
BillingStructure.v
BillingDisplay.v
BillingDisplayFacts.v
TaskDisplayFacts.v
DisplayProps.v
ConditionalTaskDisplay.v
ConditionalTaskProps.v
ConditionDisplay.v
ConditionDisplayProps.v
JsRegExp.v
JsJson.v
BillingPrinting.v
BillingDenotation.v
RequestRules.v
RequestRuleFacts.v
RequestRuleGroups.v
BillingExpr.v
BillingExprFacts.v
RequestRuleProps.v
TaskMatrixDisplay.v
TaskExpr.v
TaskExprFacts.v
TaskExprPrinting.v
TaskExprRound.v
TaskExprPreview.v
TaskExprProps.v
TaskMatrixTable.v
JsPattern.v
TierExpr.v
TierExprFacts.v
TierExprRound.v
TierExprPrinting.v
TierExprProps.v
PricingModel.v
PricingModelProps.v
JsSort.v
Currency.v
DynamicPrice.v
PriceDisplay.v
CatalogFilters.v
PriceRangeProps.v
CatalogProps.v
StatusCodes.v
ModelMapping.v
AdvancedCustom.v
AdvancedCustomProps.v
RatioSync.v
RatioSyncProps.v
PricingSettings.v
PricingSettingsProps.v
PlaygroundMessage.v
PlaygroundConversation.v
PlaygroundSession.v
PlaygroundSessionFacts.v
PlaygroundStreamFacts.v
PlaygroundProps.v
PlaygroundStorage.v
PlaygroundStorageProps.v
DashboardFlow.v
DashboardFlowFacts.v
DashboardFlowProps.v
DashboardFlowMask.v
DashboardFlowLimit.v
