(* ===== verification/Prelude.v ===== *)
(** * Verification of the OmniRouters web client

    OmniRouters is a gateway for model APIs.  What a request costs is a
    _billing expression_: a small language in which administrators write
    tiers, request rules and fixed prices.  The web client compiles, simulates,
    explains and edits these expressions and shows the prices in a catalogue
    (src/web/default/src/features/pricing/lib); its playground holds conversations with
    the models over event streams (features/playground); its dashboard draws usage as a flow
    chart (features/dashboard); and its settings read lists of status codes, model
    redirects and routes, and edit and synchronise the prices of models
    (features/channels, features/system-settings).  This development models that code and proves what
    makes it correct.

    ** The program and its model

    Source text enters at [compileBillingExpression].  A compiled expression is
    either run by the simulator ([evaluateBillingExpression]), or read by
    display adapters that recognise restricted shapes (token tiers, time branches,
    task tiers, conditions) and show them as prices; the rule editor works on text
    and separates price factors from request rules.  Paths below are relative to
    features/pricing/lib, "be/" stands for its directory billing-expression.

    - [Prelude]: fallible computations ([result], the state-and-error monad [stM]),
      tactics, the hint database [billing], list lemmas.
    - [JsString], [JsNumber], [JsNumberOrder], [JsValue], [JsRegExp], [JsJson],
      [JsPattern], [JsSort]: the part of JavaScript the code uses.  A string is its list of
      UTF-16 code units; a number is
      an IEEE-754 double, computed with the standard library's specification floats;
      numeric literals are read and printed with correct rounding; the fixed regular
      expressions of the rule reader are data for a backtracking matcher ([JsRegExp]),
      those of the tier editor terms of [pattern] with capture groups, greedy repetition
      and backtracking ([JsPattern]).  The class [Host] holds what is data of the browser
      and not of the program: case mapping and the time zone database; the class
      [Collation] its string collation.
    - [BillingTypes] (be/types.ts): variables, functions, [node] = ExpressionNode,
      diagnostics, contexts and results, [visitExpression], [expressionDependencies].
    - [BillingParser] (be/parser.ts, class BillingParser): [pstate] holds its fields;
      [next], [expression], [primary], [binary_loop], [args_loop] are its methods.
    - [BillingCompile] (rest of be/parser.ts): [checkExpressionTypes], the fixed-price
      validation, the rule scan, [compileBillingExpression] with its cache as explicit
      state.
    - [BillingRuntime] (be/runtime.ts): [readRequestPath], [billingString],
      [timeInBillingZone], class BillingRuntime as [runtime_env] and [runtime_state],
      [evaluateBillingExpression], [evaluateBillingCondition].
    - [BillingStructure] (be/structure.ts): [splitExpressionAtTopLevel],
      [unwrapExpressionParens].
    - [BillingDisplay] (be/display.ts), [ConditionalTaskDisplay] (be/task-display.ts),
      [ConditionDisplay] (be/condition-display.ts, with i18n/languages.ts
      toIntlLocale): the display adapters.
    - [RequestRules] and [BillingExpr] (billing-expr.ts): the request-rule reader and
      writer, the variable registry, the tier readers, separating and combining price
      and rules.
    - [TaskExpr] (task-expr.ts): the task price editor: tiers and price matrix, their
      normal form and conversions, the expression writer and readers, the preview and
      the usage examples.
    - [TaskMatrixDisplay] and [TaskMatrixTable] (task-matrix-display.ts): the two task
      price tables.
    - [TierExpr] (tier-expr.ts): the visual tier editor: normal form, expression writer
      and the reader built from regular expressions.
    - [PricingModel] (model-helpers.ts, plugin-pricing.ts, task-plugin-usage.ts and the
      calculations of price.ts): models of the catalogue, their groups and ratios, names,
      token prices and plugin prices.
    - [Currency] (lib/currency.ts, with the configuration of stores/system-config-store.ts),
      [DynamicPrice] (dynamic-price.ts), [PriceDisplay] (the formatters of price.ts,
      tool-price.ts, task-price-display.ts, catalog-task-price.ts, lib/localized-text.ts):
      amounts and prices as texts, price summaries and ranges.  The number formats of Intl are
      the class [NumberFormat].
    - [CatalogFilters] (filters.ts): search, filters, tags and the order of the catalogue,
      over [JsSort], the stable sort of an array with a comparator.

    The playground (paths relative to features/playground):

    - [PlaygroundMessage] and [PlaygroundConversation] (lib/message, lib/input, lib/options,
      lib/streaming/payload-builder.ts): messages with their versions, thinking tags, streamed
      chunks, timing, errors; editing, regenerating and deleting; the request payload.
    - [PlaygroundSession] (hooks/use-chat-handler.ts, use-stream-request.ts,
      use-playground-conversation.ts, lib/streaming, lib/state): a [session] is the state of
      the hooks: messages, flush buffer with its timer, event source, requests.  An [event] is
      an action of the user, a message, error or state change of a source, the timer, or the
      settling of a request; [handle] is the listener that runs, [allowed] says which events
      the browser can deliver, and [reachable] the sessions they lead to.
    - [PlaygroundStorage] (lib/storage): trimming, collapsing and sanitising stored messages.

    The dashboard (paths relative to features/dashboard):

    - [DashboardFlow] (lib/flow.ts up to line 1004, types.ts): rows of usage data as paths
      through the visible stages, filters, colours, the limit on nodes, highlighting, masking,
      the graph of nodes and links, and the offered filters.  The colours of the chart library
      are the class [ChartColors].

    Settings:

    - [StatusCodes] (lib/http-status-code-rules.ts) and [ModelMapping]
      (features/channels/lib/model-mapping-validation.ts).
    - [AdvancedCustom] (features/channels/lib/advanced-custom.ts): the routes of a custom
      channel: converters, templates, normal form, validation, edits, statistics.  A
      configuration is a [jsval], since the code reads untyped JSON; URL parsing is the class
      [UrlParser].
    - [RatioSync] (features/system-settings/models, upstream-ratio-sync-helpers.ts,
      upstream-ratio-sync.tsx and upstream-ratio-sync-table.tsx): synchronisation of prices
      with other servers.  [sync_state] is the state of the hooks: differences, chosen
      resolutions, stored ratios, the dialog and the request; [sync_step] runs one
      [sync_event]: fetching, choosing and removing values, confirming, settling.
    - [PricingSettings] (features/system-settings/models, model-pricing-snapshots.ts,
      model-pricing-adapter.ts, pricing-format.ts, utils.ts, parts of model-pricing-core.ts and
      of model-ratio-visual-editor.tsx, and utils/json-parser.ts): snapshots of model prices
      read from the JSON options, the table of models with its drafts, and the writing and
      deleting of prices.

    Two reference definitions support the editors.  [BillingGrammar] is a declarative
    grammar of the language; [BillingPrinting] proves, against that grammar, that a
    printed text parses to the tree it was printed from.  [BillingDenotation] gives the
    expressions over task usage a value without interpreter state.

    Exceptions are values: a function that can throw returns [result exn], where
    [exn] distinguishes the program's BillingExpressionError, errors of the engine and
    exhaustion of fuel.  Node identity (===) is equality of nodes: a node carries its
    span, and [parse_total_well_formed] shows spans are properly nested, so equal nodes
    of one tree are the same node.  A call of the compiler from another component uses
    [compile_source], the uncached compilation; [cache_transparent] justifies this.
    An object used as a map is the list of its entries in insertion order.

    ** What the theorems show

    - Compiler ([CompilerProps]): parsing is total with well-formed spans and accepts
      exactly the grammar ([parse_iff_grammar]); the dependency sets are exact; the
      one-pass type checker agrees with a reference type system; [CompiledOk], the
      contract of a compiled expression, which the runtime theorems assume as a class;
      the cache is transparent and bounded.
    - Runtime ([RuntimeProps]): costs are finite and not negative; only diagnostics are
      thrown; static types are sound except for sums of dynamic values
      ([dynamic_sum_unsound] is the counterexample); an evaluation reads only its
      dependencies; rules reported as matched held, and apply their multiplier; fixed
      prices are reported exactly; paths round trip; the text of an object is
      independent of entry order; billing time is total and in range.
    - Structure ([BillingStructure]): splitting is lossless and complete, unwrapping
      removes exactly the enclosing parentheses.
    - Displays ([DisplayProps], [ConditionalTaskProps], [ConditionDisplayProps],
      [TaskMatrixDisplay], [TaskMatrixTable]): the displayed tier chains and the expanded
      table refine the interpreter; current time tiers, the rows below time conditions,
      described ranges and the conditions shown for a fallback row are exact; the number
      of rows is bounded; and where a display differs from what is charged
      ([request_condition_dropped], [scaled_free_quantity_display],
      [token_price_scale_mismatch]).
    - Rule editor ([RequestRuleProps]): written conditions and rule lists are read back
      unchanged, separating a combined expression returns its parts, every factor is
      sorted into exactly one side, normalisation is canonical, prices keep their
      registry fields; and [guarded_rule_unreadable], the written rules that are not
      read back.
    - Task price editor ([TaskExprProps]): written configurations and matrices are read
      back; the preview shows the tier and the cost that a simulation of the saved
      expression reports ([preview_exact]), and so do the usage examples.
    - Visual tier editor ([TierExprProps]): written tiers are read back through the
      regular expressions, and shown on the price page as they were configured.
    - Catalogue ([PricingModelProps]): the ratio shown for a model is that of the selected
      group or the least one offered; plugin keys split exactly where they were joined;
      comparing plugin expressions compares maps; and the compatibility check of a task
      expression decides the hypothesis under which the task displays are exact.
    - Prices ([PriceRangeProps], [CatalogProps], over [JsNumberOrder]): the range shown for a
      model bounds the prices of its tiers and is attained; the range shown for time rules
      covers the multiplier of any moment, because at most one rule holds; the catalogue page
      holds exactly the chosen models, in the order of their prices ([sort_by_price] rests on
      [sub_sign]: the rounded difference of two doubles has the sign of their comparison);
      the offered tags are those of the models.
    - Playground ([PlaygroundProps], [PlaygroundStorageProps], over the [Facts] files): in
      every reachable session no answer is left waiting ([session_never_stuck]) and every way
      of ending an answer settles it ([answer_settles]); the text of a stream is complete
      whenever the flush timer fires ([stream_text_exact]); thinking tags are read exactly; a
      request is the conversation; loaded messages are bounded and settled.  Examples show
      where the code loses or mixes text ([repeated_delta_lost], [stale_chunks_leak],
      [stale_response_overwrites]).
    - Dashboard ([DashboardFlowProps], [DashboardFlowLimit], [DashboardFlowMask],
      over [DashboardFlowFacts] and [JsNumberOrder]): the flow chart
      conserves its metric from stage to stage ([flow_conserved] rests on [add_exact]: sums of
      naturals below 2^53 are exact); a limit keeps the largest nodes; a masked chart shows no
      names and is otherwise the same; the number beside an offered filter is the summary of
      the chart once it is chosen.
    - Settings ([StatusCodes], [ModelMapping]): the normal form of status code rules
      denotes the codes that were typed and is read back; so are lists of models.
    - Custom routes ([AdvancedCustomProps], over the printing of JSON in [JsJson]): a written
      configuration is read back as its normal form; validation accepts exactly the
      configurations of a declarative specification; every choice the editor offers is valid;
      replacing management or forwarding routes leaves the others alone.
    - Price synchronisation ([RatioSyncProps]): in every reachable state the chosen values are
      consistent ([selections_consistent]); synchronising stores the chosen values and clears
      the displaced kinds of price, for the chosen models only ([sync_exact]); the
      administrator is asked exactly when synchronising removes a price; the check box of a
      column chooses every selectable value of it.
    - Price settings ([PricingSettingsProps]): saving writes exactly the edited prices to
      exactly the chosen models ([persist_exact]); saving an unchanged model changes nothing
      ([resave_unchanged]); the table has one row for each drafted model, marked changed
      exactly when its prices differ ([table_rows_exact]).  [plugin_key_misread] shows the
      plugin keys that the reader attributes to two models.

    ** Bounds and fuel

    The recursive-descent parser has fuel linear in the source ([parse_fuel]);
    [parse_total_well_formed] shows it is never exhausted.  [visit_loop] has fuel from
    the size of the tree ([visit_fuel]), [split_loop] and [unwrap_loop] from the length
    of the text, [json_value] from the length of the text ([JSON_parse_fuel]), and the
    condition descriptions from the depth of the tree ([format_condition_total]); each is
    shown to be enough.  A repetition of [JsPattern] runs at most as many rounds as the
    text has units, since a round that takes nothing ends it, and the search for all
    matches advances by at least one unit.  The scan for thinking tags has fuel from the
    length of the text, and [think_tags_exact] shows it is enough.  All other functions are structurally
    recursive.  The limits of the source (2^16 units, 10000 tokens, depths 256 and 128,
    128 cached sources, 128 display rows, 256 combinations) are those of the code.
    The round trips of the editors ask for at most a hundred tiers, fields and
    conditions, which keeps the printed trees inside those limits.

    ** What is not modelled

    Of the price settings, the form of one model (model-pricing-sheet.tsx: its fields, their
    schema and the preview) and the two other visual editors are user interface.
    Of the price synchronisation, the choice of channels and the request itself are not modelled:
    the answer of the server is the parameter of the event [Ev_fetched].
    The description of the flow chart for the chart library (the rest of lib/flow.ts) is
    presentation and not modelled.  The configuration
    hook of the playground (use-playground-state.ts) and the schemas of its stored values are
    not modelled.  The local estimator of tier-expr.ts runs its source with the
    JavaScript Function constructor and stays outside the model.  Not modelled: React
    components and other hooks, HTTP access, stores and styles (user interface and input or
    output), the Go server, the classic user interface, the desktop shell and the
    plugins (other languages).  The error messages of the engine, the texts of
    translations and the formatting of the Intl database are parameters. *)

From Stdlib Require Export ZArith Lia.
From stdpp Require Export base tactics option numbers countable gmap list.

(** * Fallible computations

    JavaScript [throw] as a value.  [result E A] is the outcome of a block that
    either returns or throws; [stM S E A] threads a mutable object of type [S]
    through a block that may throw. *)

Inductive result (E A : Type) : Type :=
| Ok (a : A)
| Throw (e : E).
Arguments Ok {E A} a.
Arguments Throw {E A} e.

#[export] Instance result_ret E : MRet (result E) := fun A a => Ok a.
#[export] Instance result_bind E : MBind (result E) := fun A B f m =>
  match m with Ok a => f a | Throw e => Throw e end.
#[export] Instance result_fmap E : FMap (result E) := fun A B f m =>
  match m with Ok a => Ok (f a) | Throw e => Throw e end.

#[export] Instance result_eq_dec E A `{EqDecision E, EqDecision A} :
  EqDecision (result E A).
Proof. solve_decision. Defined.

Definition stM (S E A : Type) : Type := S -> result E (A * S).

#[export] Instance stM_ret S E : MRet (stM S E) := fun A a s => Ok (a, s).
#[export] Instance stM_bind S E : MBind (stM S E) := fun A B f m s =>
  match m s with
  | Ok (a, s') => f a s'
  | Throw e => Throw e
  end.

Definition throw {S E A} (e : E) : stM S E A := fun _ => Throw e.
Definition lift {S E A} (r : result E A) : stM S E A := fun s =>
  match r with Ok a => Ok (a, s) | Throw e => Throw e end.
Definition gets {S E A} (f : S -> A) : stM S E A := fun s => Ok (f s, s).
Definition modify {S E} (f : S -> S) : stM S E unit := fun s => Ok (tt, f s).

Section result_lemmas.
Context {E A B : Type}.

Lemma bind_Ok_inv (m : result E A) (k : A -> result E B) b :
  (m ≫= k) = Ok b -> exists a, m = Ok a /\ k a = Ok b.
Proof. destruct m; simpl; [eauto | discriminate]. Qed.

Lemma bind_Throw_inv (m : result E A) (k : A -> result E B) e :
  (m ≫= k) = Throw e -> m = Throw e \/ exists a, m = Ok a /\ k a = Throw e.
Proof. destruct m; simpl; [eauto | intros [= ->]; eauto]. Qed.
End result_lemmas.

Section stM_lemmas.
Context {S E A B : Type}.
Implicit Types (m : stM S E A) (k : A -> stM S E B) (s : S).

Lemma stM_bind_Ok m k s a s' :
  m s = Ok (a, s') -> (m ≫= k) s = k a s'.
Proof. unfold mbind, stM_bind. by intros ->. Qed.

Lemma stM_bind_Throw m k s e :
  m s = Throw e -> (m ≫= k) s = Throw e.
Proof. unfold mbind, stM_bind. by intros ->. Qed.

Lemma stM_bind_Ok_inv m k s b s'' :
  (m ≫= k) s = Ok (b, s'') ->
  exists a s', m s = Ok (a, s') /\ k a s' = Ok (b, s'').
Proof.
  unfold mbind, stM_bind. destruct (m s) as [[a s']|]; [eauto | discriminate].
Qed.

Lemma stM_bind_Throw_inv m k s e :
  (m ≫= k) s = Throw e ->
  m s = Throw e \/ exists a s', m s = Ok (a, s') /\ k a s' = Throw e.
Proof.
  unfold mbind, stM_bind.
  destruct (m s) as [[a s']|]; [eauto | intros [= ->]; eauto].
Qed.
End stM_lemmas.

(** * Proof automation of the development *)

(** [inv_ok H] splits a sequence of fallible steps known to have succeeded. *)
Ltac inv_ok H :=
  lazymatch type of H with
  | (_ ≫= _) = Ok _ =>
      let a := fresh "a" in let H1 := fresh "H" in
      apply bind_Ok_inv in H; destruct H as (a & H1 & H)
  | (_ ≫= _) _ = Ok (_, _) =>
      let a := fresh "a" in let s := fresh "s" in let H1 := fresh "H" in
      apply stM_bind_Ok_inv in H; destruct H as (a & s & H1 & H)
  end; cbv beta in *.

(** Case analysis on the scrutinee of the outermost [match] in a hypothesis
    or in the goal, keeping the equation. *)
Ltac dmatch_in H :=
  match type of H with
  | context [match ?x with _ => _ end] =>
      lazymatch x with
      | context [match _ with _ => _ end] => fail
      | _ => let E := fresh "E" in destruct x eqn:E
      end
  end.
Ltac dmatch :=
  match goal with
  | |- context [match ?x with _ => _ end] =>
      lazymatch x with
      | context [match _ with _ => _ end] => fail
      | _ => let E := fresh "E" in destruct x eqn:E
      end
  end.

(** Turns boolean tests in the context into propositions. *)
Ltac breflect :=
  repeat match goal with
  | H : (_ && _)%bool = true |- _ => apply andb_true_iff in H as [? ?]
  | H : (_ || _)%bool = false |- _ => apply orb_false_iff in H as [? ?]
  | H : negb _ = true |- _ => apply negb_true_iff in H
  | H : negb _ = false |- _ => apply negb_false_iff in H
  | H : bool_decide _ = true |- _ => apply bool_decide_eq_true in H
  | H : bool_decide _ = false |- _ => apply bool_decide_eq_false in H
  | H : (_ <=? _)%Z = true |- _ => apply Z.leb_le in H
  | H : (_ <=? _)%Z = false |- _ => apply Z.leb_gt in H
  | H : (_ <? _)%Z = true |- _ => apply Z.ltb_lt in H
  | H : (_ <? _)%Z = false |- _ => apply Z.ltb_ge in H
  | H : (_ =? _)%Z = true |- _ => apply Z.eqb_eq in H
  | H : (_ =? _)%Z = false |- _ => apply Z.eqb_neq in H
  | H : (_ <=? _)%N = true |- _ => apply N.leb_le in H
  | H : (_ <=? _)%N = false |- _ => apply N.leb_gt in H
  | H : (_ =? _)%N = true |- _ => apply N.eqb_eq in H
  | H : (_ =? _)%N = false |- _ => apply N.eqb_neq in H
  end.

(** Decides a boolean equation between comparisons of integers, in the goal. *)
Ltac bool_lia :=
  repeat (match goal with
          | |- context [(?a <=? ?b)%N] => destruct (N.leb_spec a b)
          | |- context [(?a <? ?b)%N] => destruct (N.ltb_spec a b)
          | |- context [(?a =? ?b)%N] => destruct (N.eqb_spec a b)
          | |- context [(?a <=? ?b)%Z] => destruct (Z.leb_spec a b)
          | |- context [(?a <? ?b)%Z] => destruct (Z.ltb_spec a b)
          | |- context [(?a =? ?b)%Z] => destruct (Z.eqb_spec a b)
          end; try (exfalso; lia)); try reflexivity; try lia.

(** Lemmas that close the routine side conditions of the component files. *)
Create HintDb billing.

(** * Lists *)

Section lists.
Context {A : Type}.
Implicit Types (l : list A) (p : A -> bool).

Fixpoint take_while p l : list A :=
  match l with
  | [] => []
  | x :: l' => if p x then x :: take_while p l' else []
  end.

Fixpoint drop_while p l : list A :=
  match l with
  | [] => []
  | x :: l' => if p x then drop_while p l' else l
  end.

Lemma take_drop_while p l : take_while p l ++ drop_while p l = l.
Proof. induction l as [|x l IH]; simpl; [done|]. destruct (p x); simpl; congruence. Qed.

Lemma take_while_length p l : length (take_while p l) <= length l.
Proof. induction l as [|x l IH]; simpl; [lia|]. destruct (p x); simpl; lia. Qed.

Lemma drop_while_length p l : length (drop_while p l) <= length l.
Proof. induction l as [|x l IH]; simpl; [lia|]. destruct (p x); simpl; lia. Qed.

Lemma drop_while_drop p l : drop_while p l = drop (length (take_while p l)) l.
Proof. induction l as [|x l IH]; simpl; [done|]. by destruct (p x). Qed.

Lemma take_while_take p l : take_while p l = take (length (take_while p l)) l.
Proof. induction l as [|x l IH]; simpl; [done|]. destruct (p x); simpl; congruence. Qed.

Lemma take_while_all p l : Forall (fun x => p x = true) (take_while p l).
Proof.
  induction l as [|x l IH]; simpl; [constructor|].
  destruct (p x) eqn:E; constructor; auto.
Qed.

Lemma take_while_app p l1 l2 :
  Forall (fun x => p x = true) l1 ->
  match l2 with [] => True | y :: _ => p y = false end ->
  take_while p (l1 ++ l2) = l1.
Proof.
  intros H1 H2. induction H1 as [|x l1 Hx H1 IH]; simpl.
  - destruct l2; simpl; [done|]. by rewrite H2.
  - by rewrite Hx, IH.
Qed.

Lemma drop_while_app p l1 l2 :
  Forall (fun x => p x = true) l1 ->
  match l2 with [] => True | y :: _ => p y = false end ->
  drop_while p (l1 ++ l2) = l2.
Proof.
  intros H1 H2. induction H1 as [|x l1 Hx H1 IH]; simpl.
  - destruct l2; simpl; [done|]. by rewrite H2.
  - by rewrite Hx, IH.
Qed.
End lists.

(** Lookup in an association list: the first entry with the key. *)
Fixpoint obj_get {K V} `{EqDecision K} (k : K) (l : list (K * V)) : option V :=
  match l with
  | [] => None
  | (k', v) :: l' => if bool_decide (k = k') then Some v else obj_get k l'
  end.

(** [arr[i] !== undefined] scan used by [Array.prototype.findIndex]. *)
Fixpoint find_index {A} (p : A -> bool) (l : list A) : option nat :=
  match l with
  | [] => None
  | x :: l' => if p x then Some 0 else S <$> find_index p l'
  end.

Lemma find_index_Some {A} (p : A -> bool) l i :
  find_index p l = Some i -> exists x, l !! i = Some x /\ p x = true.
Proof.
  revert i. induction l as [|x l IH]; intros i; simpl; [discriminate|].
  destruct (p x) eqn:E.
  - intros [= <-]. simpl. eauto.
  - destruct (find_index p l) as [j|]; [|discriminate].
    intros [= <-]. simpl. auto.
Qed.

Lemma find_index_None {A} (p : A -> bool) l :
  find_index p l = None -> Forall (fun x => p x = false) l.
Proof.
  induction l as [|x l IH]; simpl; [constructor|].
  destruct (p x) eqn:E; [discriminate|].
  destruct (find_index p l); [discriminate|]. constructor; auto.
Qed.
