(* ===== verification/JsString.v ===== *)
(** JavaScript strings as the code uses them: sequences of UTF-16 code units,
    with the character classes of the regular expressions that occur in the
    billing code and the [String.prototype] methods it calls. *)

From S2P Require Import Prelude.
From Stdlib Require String Ascii.
Export String.StringSyntax Ascii.AsciiSyntax.

(** A string is its list of code units. *)
Abbreviation str := (list N).

Fixpoint units_of (s : String.string) : str :=
  match s with
  | String.EmptyString => []
  | String.String c s' => Ascii.N_of_ascii c :: units_of s'
  end.
(** [js "text"] is the ASCII literal ['text'] of the source. *)
Definition js (s : String.string) : str := units_of s.
Arguments js _%_string_scope : simpl never.

Definition code (c : Ascii.ascii) : N := Ascii.N_of_ascii c.
Arguments code _%_char_scope.

Definition dquote : N := 34.
Definition squote : N := 39.
Definition backslash : N := 92.
Definition newline : N := 10.
Definition carriage_return : N := 13.

(** ** Character classes *)

Definition in_range (lo hi c : N) : bool := ((lo <=? c) && (c <=? hi))%N.

(** [\d] *)
Definition is_digit (c : N) : bool := in_range 48 57 c.
(** [\s] (and what [trim] removes): ECMAScript WhiteSpace and LineTerminator. *)
Definition is_space (c : N) : bool :=
  in_range 9 13 c || (c =? 32)%N || (c =? 160)%N || (c =? 5760)%N ||
  in_range 8192 8202 c || in_range 8232 8233 c || (c =? 8239)%N ||
  (c =? 8287)%N || (c =? 12288)%N || (c =? 65279)%N.
(** [A-Z] and [A-Za-z_] *)
Definition is_upper (c : N) : bool := in_range 65 90 c.
Definition is_name_start (c : N) : bool :=
  is_upper c || in_range 97 122 c || (c =? 95)%N.
(** [\w] *)
Definition is_word (c : N) : bool := is_name_start c || is_digit c.
(** [[\da-f]] with the [i] flag *)
Definition is_hex (c : N) : bool :=
  is_digit c || in_range 65 70 c || in_range 97 102 c.

Definition hex_value (c : N) : N :=
  if is_digit c then c - 48 else if in_range 65 70 c then c - 55 else c - 87.
(** [Number.parseInt(hex, 16)] of a string of hexadecimal digits. *)
Definition parse_hex (s : str) : N := fold_left (fun v c => 16 * v + hex_value c)%N s 0%N.

(** ** Methods *)

(** [s.slice(a, b)] for [0 <= a]; [b <= a] gives the empty string. *)
Definition slice (s : str) (a b : nat) : str := take (b - a) (drop a s).

Definition trim_start (s : str) : str := drop_while is_space s.
Definition trim_end (s : str) : str := reverse (drop_while is_space (reverse s)).
Definition trim (s : str) : str := trim_end (trim_start s).

Fixpoint starts_with (s p : str) {struct p} : bool :=
  match p, s with
  | [], _ => true
  | c :: p', d :: s' => (c =? d)%N && starts_with s' p'
  | _ :: _, [] => false
  end.
Definition ends_with (s p : str) : bool := starts_with (reverse s) (reverse p).
(** [s.startsWith(p, i)] *)
Definition starts_with_at (s p : str) (i : nat) : bool := starts_with (drop i s) p.

(** [s.includes(p)] *)
Fixpoint includes (s p : str) : bool :=
  starts_with s p || match s with [] => false | _ :: s' => includes s' p end.

(** [text.indexOf(separator)]; [None] is -1. *)
Fixpoint index_of (text separator : str) : option nat :=
  if starts_with text separator then Some 0
  else match text with
       | [] => None
       | _ :: rest => S <$> index_of rest separator
       end.
(** [text.indexOf(separator, position)] *)
Definition index_of_from (text separator : str) (position : nat) : option nat :=
  (Nat.add position) <$> index_of (drop position text) separator.

(** [xs.join(sep)] *)
Fixpoint join (sep : str) (xs : list str) : str :=
  match xs with
  | [] => []
  | [x] => x
  | x :: xs' => x ++ sep ++ join sep xs'
  end.

(** [a < b] on strings: lexicographic order of code units. *)
Fixpoint str_ltb (a b : str) : bool :=
  match a, b with
  | [], [] => false
  | [], _ :: _ => true
  | _ :: _, [] => false
  | x :: a', y :: b' => (x <? y)%N || ((x =? y)%N && str_ltb a' b')
  end.
Definition str_leb (a b : str) : bool := negb (str_ltb b a).

(** [toLowerCase] of an ASCII code unit. *)
Definition lower_ascii (c : N) : N := if is_upper c then (c + 32)%N else c.
Definition is_ascii (c : N) : bool := (c <? 128)%N.

(** ** Lemmas *)

Lemma starts_with_spec s p : starts_with s p = true <-> exists t, s = p ++ t.
Proof.
  revert s. induction p as [|c p IH]; intros s; simpl.
  - split; [by exists s | done].
  - destruct s as [|d s]; simpl.
    + split; [discriminate | intros [t Ht]; discriminate].
    + rewrite andb_true_iff, N.eqb_eq, IH. split.
      * intros [-> [t ->]]. eauto.
      * intros [t [= -> ->]]. eauto.
Qed.

Lemma starts_with_app p t : starts_with (p ++ t) p = true.
Proof. apply starts_with_spec; eauto. Qed.

Lemma ends_with_spec s p : ends_with s p = true <-> exists t, s = t ++ p.
Proof.
  unfold ends_with. rewrite starts_with_spec. split; intros [t Ht].
  - exists (reverse t). rewrite <- (reverse_involutive s), Ht, reverse_app.
    by rewrite reverse_involutive.
  - exists (reverse t). by rewrite Ht, reverse_app.
Qed.

Lemma includes_spec s p : includes s p = true <-> exists a b, s = a ++ p ++ b.
Proof.
  induction s as [|c s IH]; simpl.
  - rewrite orb_false_r, starts_with_spec. split.
    + intros [t Ht]. exists [], t. done.
    + intros (a & b & H). destruct a; [|discriminate]. exists b. done.
  - rewrite orb_true_iff, starts_with_spec, IH. split.
    + intros [[t Ht] | (a & b & ->)]; [exists [], t; done | exists (c :: a), b; done].
    + intros (a & b & H). destruct a as [|d a]; simpl in H.
      * left. exists b. done.
      * injection H as -> ->. right. eauto.
Qed.

Lemma index_of_Some text separator i : index_of text separator = Some i ->
  exists before after, text = before ++ separator ++ after /\ length before = i.
Proof.
  revert i. induction text as [|c text IH]; intros i; cbn [index_of].
  - destruct (starts_with [] separator) eqn:E; [|done]. intros [= <-]. apply starts_with_spec in E as [r E]. by exists [], r.
  - destruct (starts_with (c :: text) separator) eqn:E.
    + intros [= <-]. apply starts_with_spec in E as [r E]. by exists [], r.
    + destruct (index_of text separator) as [j|]; [|done]. intros [= <-]. destruct (IH j eq_refl) as (b & a & -> & <-).
      by exists (c :: b), a.
Qed.

Lemma index_of_None text separator : index_of text separator = None <-> includes text separator = false.
Proof.
  induction text as [|c text IH]; cbn [index_of includes].
  - by destruct (starts_with [] separator).
  - destruct (starts_with (c :: text) separator); [done|]. simpl. rewrite <- IH.
    by destruct (index_of text separator).
Qed.

(** The first occurrence of a separator whose first unit does not occur in the rest of it: the
    text before it holds no occurrence, even across the border. *)
Lemma index_of_app before c separator after :
  (c ∉ separator) -> includes before (c :: separator) = false ->
  index_of (before ++ (c :: separator) ++ after) (c :: separator) = Some (length before).
Proof.
  intros Hc. induction before as [|d before IH]; intros Hb.
  - cbn [app index_of]. change (c :: separator ++ after) with ((c :: separator) ++ after).
    by rewrite starts_with_app.
  - change ((d :: before) ++ (c :: separator) ++ after) with (d :: (before ++ (c :: separator) ++ after)).
    cbn [includes index_of] in *. apply orb_false_iff in Hb as [Hs Hb].
    rewrite IH by done.
    assert (starts_with (d :: (before ++ (c :: separator) ++ after)) (c :: separator) = false) as ->; [|done].
    apply not_true_iff_false. intros [r Hr]%starts_with_spec. apply not_true_iff_false in Hs. apply Hs.
    apply starts_with_spec. injection Hr as -> Hr.
    destruct (decide (length separator <= length before)) as [Hl|Hl].
    + exists (drop (length separator) before). simpl. f_equal.
      rewrite <- (take_drop (length separator) before) at 1. f_equal.
      assert (take (length separator) (before ++ c :: separator ++ after) = separator) as He.
      { change (before ++ (c :: separator) ++ after) with (before ++ c :: separator ++ after) in Hr.
        rewrite Hr. by rewrite take_app_length. }
      by rewrite take_app_le in He by done.
    + exfalso. apply Hc.
      assert ((before ++ c :: separator ++ after) !! length before = Some c) as Hx.
      { by rewrite list_lookup_middle. }
      change (before ++ (c :: separator) ++ after) with (before ++ c :: separator ++ after) in Hr.
      rewrite Hr, lookup_app_l in Hx by lia. by apply list_elem_of_lookup_2 in Hx.
Qed.

Lemma slice_app s a b c : a <= b -> b <= c -> slice s a b ++ slice s b c = slice s a c.
Proof.
  intros Hab Hbc. unfold slice.
  rewrite <- (take_drop (b - a) (take (c - a) (drop a s))).
  rewrite take_take, Nat.min_l by lia. f_equal.
  rewrite skipn_firstn_comm, drop_drop. f_equal; [lia|]. f_equal. lia.
Qed.

Lemma slice_length s a b : length (slice s a b) = (b - a) `min` (length s - a).
Proof. unfold slice. by rewrite length_take, length_drop. Qed.

Lemma slice_full s : slice s 0 (length s) = s.
Proof. unfold slice. rewrite Nat.sub_0_r, drop_0. apply take_ge. lia. Qed.

Lemma str_ltb_irrefl a : str_ltb a a = false.
Proof. induction a; simpl; [done|]. by rewrite N.ltb_irrefl, IHa, andb_false_r. Qed.

Lemma str_ltb_trans a b c : str_ltb a b = true -> str_ltb b c = true -> str_ltb a c = true.
Proof.
  revert b c. induction a as [|x a IH]; intros [|y b] [|z c]; simpl; try done.
  rewrite !orb_true_iff, !andb_true_iff, !N.ltb_lt, !N.eqb_eq.
  intros [?|[-> ?]] [?|[-> ?]]; eauto with lia.
Qed.

Lemma str_ltb_total a b : str_ltb a b = false -> a <> b -> str_ltb b a = true.
Proof.
  revert b. induction a as [|x a IH]; intros [|y b]; simpl; try done.
  intros H Hne. apply orb_false_iff in H as [H1 H2]. apply N.ltb_ge in H1.
  rewrite orb_true_iff, andb_true_iff, N.ltb_lt, N.eqb_eq.
  destruct (decide (x = y)) as [->|]; [|left; lia].
  right. split; [done|]. rewrite N.eqb_refl in H2. simpl in H2.
  apply IH; [done|]. congruence.
Qed.

(** Trimming leaves a string that neither starts nor ends with whitespace. *)
Definition trimmed (s : str) : Prop :=
  match s with [] => True | c :: _ => is_space c = false end /\
  match reverse s with [] => True | c :: _ => is_space c = false end.

Lemma drop_while_head {A} p (l : list A) :
  match drop_while p l with [] => True | c :: _ => p c = false end.
Proof. induction l as [|x l IH]; simpl; [done|]. destruct (p x) eqn:E; [done|]. done. Qed.

Lemma drop_while_id {A} p (l : list A) :
  match l with [] => True | c :: _ => p c = false end -> drop_while p l = l.
Proof. destruct l; simpl; [done|]. by intros ->. Qed.

Lemma drop_while_suffix {A} p (l : list A) : exists k, l = k ++ drop_while p l.
Proof. exists (take_while p l). by rewrite take_drop_while. Qed.

Lemma trim_end_head s :
  match s with [] => True | c :: _ => is_space c = false end ->
  match trim_end s with [] => True | c :: _ => is_space c = false end.
Proof.
  intros H. unfold trim_end.
  destruct (drop_while_suffix is_space (reverse s)) as [k Hk].
  assert (Hs : s = reverse (drop_while is_space (reverse s)) ++ reverse k).
  { by rewrite <- reverse_app, <- Hk, reverse_involutive. }
  destruct (reverse (drop_while is_space (reverse s))) as [|c t]; [done|].
  rewrite Hs in H. exact H.
Qed.

Lemma trim_trimmed s : trimmed (trim s).
Proof.
  split.
  - apply trim_end_head, drop_while_head.
  - unfold trim, trim_end. rewrite reverse_involutive. apply drop_while_head.
Qed.

Lemma trimmed_trim s : trimmed s -> trim s = s.
Proof.
  intros [H1 H2]. unfold trim, trim_start. rewrite (drop_while_id _ s) by done.
  unfold trim_end. rewrite drop_while_id by done. apply reverse_involutive.
Qed.

Lemma trim_idemp s : trim (trim s) = trim s.
Proof. apply trimmed_trim, trim_trimmed. Qed.

Lemma trim_infix s : exists a b, s = a ++ trim s ++ b.
Proof.
  unfold trim.
  destruct (drop_while_suffix is_space s) as [k Hk].
  destruct (drop_while_suffix is_space (reverse (trim_start s))) as [k' Hk'].
  exists k, (reverse k'). rewrite Hk at 1. f_equal. unfold trim_end.
  by rewrite <- reverse_app, <- Hk', reverse_involutive.
Qed.

Lemma trim_length s : length (trim s) <= length s.
Proof.
  destruct (trim_infix s) as (a & b & H). rewrite H at 2. rewrite !length_app. lia.
Qed.

Lemma digit_not_space c : is_digit c = true -> is_space c = false.
Proof. unfold is_digit, is_space, in_range. intros H. breflect. bool_lia. Qed.

Lemma name_start_not_space c : is_name_start c = true -> is_space c = false.
Proof.
  unfold is_name_start, is_upper, is_space, in_range. intros H.
  repeat rewrite orb_true_iff in H. repeat rewrite andb_true_iff in H.
  rewrite !N.leb_le, N.eqb_eq in H. bool_lia.
Qed.

Lemma digit_not_name_start c : is_digit c = true -> is_name_start c = false.
Proof.
  unfold is_digit, is_name_start, is_upper, in_range. intros H. breflect. bool_lia.
Qed.

#[export] Hint Resolve digit_not_space name_start_not_space digit_not_name_start : billing.
