(* ===== verification/JsNumber.v ===== *)
(** JavaScript numbers: IEEE-754 binary64, computed with the specification
    floats of the standard library (round to nearest, ties to even), together
    with the [Number] and [Math] functions the billing code calls, the reading of
    decimal literals and the shortest round-trip printing of [String(x)]. *)

From S2P Require Import Prelude JsString.
From Stdlib Require Export SpecFloat.

Abbreviation number := spec_float.

#[export] Instance number_eq_dec : EqDecision number.
Proof. solve_decision. Defined.

Definition prec64 : Z := 53.
Definition emax64 : Z := 1024.

(** ** Arithmetic *)

Definition n_add : number -> number -> number := SFadd prec64 emax64.
Definition n_sub : number -> number -> number := SFsub prec64 emax64.
Definition n_mul : number -> number -> number := SFmul prec64 emax64.
Definition n_div : number -> number -> number := SFdiv prec64 emax64.
Definition n_neg : number -> number := SFopp.
Definition n_abs : number -> number := SFabs.

(** [a < b], [a <= b], [a === b]; every comparison with NaN is false. *)
Definition n_ltb : number -> number -> bool := SFltb.
Definition n_leb : number -> number -> bool := SFleb.
Definition n_eqb : number -> number -> bool := SFeqb.

(** The double nearest to an integer. *)
Definition n_of_Z (z : Z) : number := binary_normalize prec64 emax64 z 0 false.

Definition n_zero : number := S754_zero false.
Definition n_neg_zero : number := S754_zero true.
Definition n_one : number := n_of_Z 1.
Definition n_million : number := n_of_Z 1000000.
Definition n_nan : number := S754_nan.

(** [Number.isFinite], [Number.isInteger], [Number.isSafeInteger] *)
Definition is_finite (x : number) : bool :=
  match x with S754_zero _ | S754_finite _ _ _ => true | _ => false end.

Definition is_integer (x : number) : bool :=
  match x with
  | S754_zero _ => true
  | S754_finite _ m e =>
      if (0 <=? e)%Z then true else (Z.pos m mod 2 ^ (- e) =? 0)%Z
  | _ => false
  end.

Definition max_safe_integer : Z := 9007199254740991.
Definition is_safe_integer (x : number) : bool :=
  is_integer x && n_leb (n_abs x) (n_of_Z max_safe_integer).

(** The integer a finite number truncates to. *)
Definition trunc_Z (x : number) : Z :=
  match x with
  | S754_finite s m e =>
      let q := if (0 <=? e)%Z then (Z.pos m * 2 ^ e)%Z else (Z.pos m / 2 ^ (- e))%Z in
      if s then (- q)%Z else q
  | _ => 0%Z
  end.

(** An integer as a double, with the sign of a zero result given. *)
Definition signed_of_Z (s : bool) (z : Z) : number :=
  match z with Z0 => S754_zero s | _ => n_of_Z z end.

(** [Math.floor] and [Math.ceil] *)
Definition n_floor (x : number) : number :=
  match x with
  | S754_finite s m e =>
      if (0 <=? e)%Z then x
      else signed_of_Z s ((if s then Z.neg m else Z.pos m) / 2 ^ (- e))%Z
  | _ => x
  end.
Definition n_ceil (x : number) : number := n_neg (n_floor (n_neg x)).

(** [Math.min] and [Math.max] of two numbers: NaN is absorbing and [-0 < +0]. *)
Definition is_neg_zero (x : number) : bool :=
  match x with S754_zero true => true | _ => false end.
Definition n_min (a b : number) : number :=
  match a, b with
  | S754_nan, _ | _, S754_nan => S754_nan
  | _, _ => if n_ltb a b || is_neg_zero a then
              (if n_ltb b a then b else a)
            else b
  end.
Definition n_max (a b : number) : number :=
  match a, b with
  | S754_nan, _ | _, S754_nan => S754_nan
  | _, _ => if n_ltb b a || is_neg_zero b then
              (if n_ltb a b then b else a)
            else b
  end.

(** [a % b]: the exact remainder with the sign of the dividend. *)
Definition n_rem (a b : number) : number :=
  match a, b with
  | S754_nan, _ | _, S754_nan => S754_nan
  | S754_infinity _, _ => S754_nan
  | _, S754_zero _ => S754_nan
  | _, S754_infinity _ => a
  | S754_zero _, _ => a
  | S754_finite sa ma ea, S754_finite _ mb eb =>
      let e := Z.min ea eb in
      let r := ((Z.pos ma * 2 ^ (ea - e)) mod (Z.pos mb * 2 ^ (eb - e)))%Z in
      match r with
      | Zpos p => binary_round prec64 emax64 sa p e
      | _ => S754_zero sa
      end
  end.

(** ** Reading decimal literals *)

Definition digits_value (s : str) : Z :=
  fold_left (fun v c => 10 * v + (Z.of_N c - 48))%Z s 0%Z.

(** Number of decimal digits of a positive integer, bounded by [fuel]. *)
Fixpoint count_digits (fuel : nat) (z : Z) : Z :=
  match fuel with
  | O => 0
  | S f => if (z <=? 0)%Z then 0 else 1 + count_digits f (z / 10)
  end%Z.

(** The double nearest to [d * 10 ^ e].  Outside the tested range the value
    exceeds every double or is below half of the least one, so no power of ten
    has to be computed. *)
Definition scaled_decimal (d e : Z) (ndigits : Z) : number :=
  if (d <=? 0)%Z then n_zero
  else if (309 <=? ndigits - 1 + e)%Z then S754_infinity false
  else if (ndigits + e <=? -324)%Z then n_zero
  else if (0 <=? e)%Z then n_of_Z (d * 10 ^ e)
  else
    let '(q, ex, loc) := SFdiv_core_binary prec64 emax64 d 0 (10 ^ (- e)) 0 in
    binary_round_aux prec64 emax64 false q ex loc.

(** The parts of an unsigned decimal literal: integer digits, fraction digits
    and exponent, for text with an optional fraction and an optional exponent. *)
Definition split_decimal (s : str) : str * str * Z :=
  let int := take_while is_digit s in
  let r1 := drop_while is_digit s in
  let '(frac, r2) :=
    match r1 with
    | c :: r => if (c =? 46)%N then (take_while is_digit r, drop_while is_digit r) else ([], r1)
    | [] => ([], [])
    end in
  let ex :=
    match r2 with
    | c :: r =>
        if ((c =? 101) || (c =? 69))%N then
          match r with
          | g :: r' => if (g =? 45)%N then (- digits_value (take_while is_digit r'))%Z
                       else if (g =? 43)%N then digits_value (take_while is_digit r')
                       else digits_value (take_while is_digit r)
          | [] => 0%Z
          end
        else 0%Z
    | [] => 0%Z
    end in
  (int, frac, ex).

(** [Number(text)] for an unsigned decimal literal. *)
Definition number_of_literal (s : str) : number :=
  let '(int, frac, ex) := split_decimal s in
  let d := digits_value (int ++ frac) in
  scaled_decimal d (ex - Z.of_nat (length frac)) (count_digits (length int + length frac) d).

(** Length of the longest prefix accepted by the numeric token pattern: digits
    with an optional point and fraction digits, or a point and digits, then an
    optional exponent part that is taken only when it has digits. *)
Definition match_exponent (s : str) : nat :=
  match s with
  | c :: r =>
      if ((c =? 101) || (c =? 69))%N then
        let '(sign, r') :=
          match r with
          | g :: r' => if ((g =? 43) || (g =? 45))%N then (1, r') else (0, r)
          | [] => (0, [])
          end in
        let n := length (take_while is_digit r') in
        if bool_decide (n = 0) then 0 else 1 + sign + n
      else 0
  | [] => 0
  end.

Definition match_number (s : str) : option nat :=
  let n := length (take_while is_digit s) in
  let r := drop_while is_digit s in
  match bool_decide (n = 0), r with
  | true, c :: r' =>
      let m := length (take_while is_digit r') in
      if (c =? 46)%N && bool_decide (m <> 0) then
        Some (1 + m + match_exponent (drop_while is_digit r'))
      else None
  | true, [] => None
  | false, c :: r' =>
      if (c =? 46)%N then
        Some (n + 1 + length (take_while is_digit r') + match_exponent (drop_while is_digit r'))
      else Some (n + match_exponent r)
  | false, [] => Some n
  end.

(** Digits of a radix literal ([0x], [0o], [0b]). *)
Definition radix_value (radix : N) (s : str) : option Z :=
  fold_left (fun acc c =>
    v ← acc;
    if is_hex c && (hex_value c <? radix)%N
    then Some (Z.of_N radix * v + Z.of_N (hex_value c))%Z else None) s (Some 0%Z).

Definition number_of_radix (radix : N) (s : str) : number :=
  match s with
  | [] => n_nan
  | _ => match radix_value radix s with Some z => n_of_Z z | None => n_nan end
  end.

Definition number_of_unsigned (s : str) : number :=
  if bool_decide (s = js "Infinity") then S754_infinity false
  else if bool_decide (match_number s = Some (length s)) then number_of_literal s
  else n_nan.

(** [Number(s)] of a string. *)
Definition number_of_string (s : str) : number :=
  match trim s with
  | [] => n_zero
  | (c :: r) as t =>
      if (c =? 45)%N then n_neg (number_of_unsigned r)
      else if (c =? 43)%N then number_of_unsigned r
      else if bool_decide (c = 48%N) then
        match r with
        | x :: ds =>
            if ((x =? 120) || (x =? 88))%N then number_of_radix 16 ds
            else if ((x =? 111) || (x =? 79))%N then number_of_radix 8 ds
            else if ((x =? 98) || (x =? 66))%N then number_of_radix 2 ds
            else number_of_unsigned t
        | [] => n_zero
        end
      else number_of_unsigned t
  end.

(** ** Printing *)

(** Decimal digits of a non-negative integer, most significant first. *)
Fixpoint digits_of (fuel : nat) (z : Z) (acc : str) : str :=
  match fuel with
  | O => acc
  | S f =>
      let acc' := Z.to_N (48 + z mod 10) :: acc in
      if (z <? 10)%Z then acc' else digits_of f (z / 10) acc'
  end.
Definition string_of_Z (z : Z) : str :=
  let body := digits_of (S (Z.to_nat (Z.log2 (Z.abs z)))) (Z.abs z) [] in
  if (z <? 0)%Z then 45%N :: body else body.

(** [10 ^ n <= m * 2 ^ e] for the positive double [m * 2 ^ e]. *)
Definition pow10_le (n : Z) (m : positive) (e : Z) : bool :=
  (10 ^ Z.max n 0 * 2 ^ Z.max (- e) 0 <=? Z.pos m * 2 ^ Z.max e 0 * 10 ^ Z.max (- n) 0)%Z.

(** The [n] with [10 ^ (n - 1) <= m * 2 ^ e < 10 ^ n]. *)
Definition decimal_point (m : positive) (e : Z) : Z :=
  let est := ((Z.log2 (Z.pos m) + e) * 30103 / 100000)%Z in
  if pow10_le (est + 2) m e then (est + 3)%Z
  else if pow10_le (est + 1) m e then (est + 2)%Z
  else if pow10_le est m e then (est + 1)%Z
  else if pow10_le (est - 1) m e then est
  else (est - 1)%Z.

(** [floor (m * 2 ^ e * 10 ^ k)] *)
Definition scaled_floor (m : positive) (e k : Z) : Z :=
  (Z.pos m * 2 ^ Z.max e 0 * 10 ^ Z.max k 0 / (2 ^ Z.max (- e) 0 * 10 ^ Z.max (- k) 0))%Z.

(** Shortest digits: the least [k] for which a [k]-digit decimal reads back as
    the number, and among those the one closest to it. *)
Definition reads_back (x : number) (s n : Z) (k : Z) : bool :=
  bool_decide (scaled_decimal s (n - k) k = x).

Definition closer_up (m : positive) (e k s : Z) : bool :=
  (* s + 1 is strictly closer to m * 2^e * 10^k than s *)
  let den := (2 ^ Z.max (- e) 0 * 10 ^ Z.max (- k) 0)%Z in
  let num := (Z.pos m * 2 ^ Z.max e 0 * 10 ^ Z.max k 0)%Z in
  (den <? 2 * (num - s * den))%Z.

Fixpoint shortest_from (fuel : nat) (x : number) (m : positive) (e n k : Z) : Z * Z :=
  let s := scaled_floor m e (k - n) in
  match fuel with
  | O => (s, k)
  | S f =>
      let lo := reads_back x s n k in
      let hi := reads_back x (s + 1) n k in
      if lo && hi then (if closer_up m e (k - n) s then (s + 1, k) else (s, k))%Z
      else if lo then (s, k)
      else if hi then (s + 1, k)%Z
      else shortest_from f x m e n (k + 1)
  end.

Definition zeros (n : Z) : str := replicate (Z.to_nat n) 48%N.

(** The digits, their count [k] and the position [n] of ECMA-262 Number::toString. *)
Definition shortest (m : positive) (e : Z) : str * Z * Z :=
  let n := decimal_point m e in
  let '(s, k) := shortest_from 17 (S754_finite false m e) m e n 1 in
  (string_of_Z s, k, n).

Definition exponent_text (ex : Z) : str :=
  (if (ex <? 0)%Z then 45%N else 43%N) :: string_of_Z (Z.abs ex).

Definition mantissa_text (ds : str) : str :=
  match ds with
  | d :: ((_ :: _) as r) => d :: 46%N :: r
  | _ => ds
  end.

(** [String(x)] *)
Definition string_of_number (x : number) : str :=
  match x with
  | S754_nan => js "NaN"
  | S754_infinity s => if s then js "-Infinity" else js "Infinity"
  | S754_zero _ => js "0"
  | S754_finite s m e =>
      let '(ds, k, n) := shortest m e in
      let body :=
        if ((k <=? n) && (n <=? 21))%Z then ds ++ zeros (n - k)
        else if ((0 <? n) && (n <=? 21))%Z then
          take (Z.to_nat n) ds ++ 46%N :: drop (Z.to_nat n) ds
        else if ((-6 <? n) && (n <=? 0))%Z then js "0." ++ zeros (- n) ++ ds
        else mantissa_text ds ++ 101%N :: exponent_text (n - 1) in
      if s then 45%N :: body else body
  end.

(** [x.toExponential().split('e')] of a finite number: the mantissa text and the
    exponent. *)
Definition to_exponential (x : number) : str * Z :=
  match x with
  | S754_finite s m e =>
      let '(ds, k, n) := shortest m e in
      ((if s then [45%N] else []) ++ mantissa_text ds, n - 1)%Z
  | _ => (js "0", 0%Z)
  end.

Example string_of_number_tests :
  map string_of_number
    [n_of_Z 0; n_of_Z 1234567; n_div (n_of_Z 1) (n_of_Z 10); n_of_Z (10^21);
     n_neg (n_div (n_of_Z 15) (n_of_Z 100)); number_of_literal (js "1.5e-7");
     number_of_literal (js "2.220446049250313e-16"); number_of_literal (js "5e-324");
     number_of_literal (js "1.7976931348623157e308"); number_of_literal (js ".30000000000000004")]
  = [js "0"; js "1234567"; js "0.1"; js "1e+21"; js "-0.15"; js "1.5e-7";
     js "2.220446049250313e-16"; js "5e-324"; js "1.7976931348623157e+308";
     js "0.30000000000000004"].
Proof. vm_compute. reflexivity. Qed.

Example arithmetic_tests :
  map string_of_number
    [n_add (number_of_literal (js "0.1")) (number_of_literal (js "0.2"));
     n_floor (number_of_literal (js "2.7")); n_floor (n_neg (number_of_literal (js "2.2")));
     n_ceil (number_of_literal (js "2.2")); n_rem (n_of_Z (-7)) (n_of_Z 3);
     n_rem (number_of_literal (js "5.5")) (n_of_Z 2); n_max (n_of_Z 2) (n_of_Z 3);
     n_min (n_of_Z 2) (n_of_Z 3); number_of_literal (js "1e400"); number_of_literal (js "1e-400")]
  = [js "0.30000000000000004"; js "2"; js "-3"; js "3"; js "-1"; js "1.5"; js "3"; js "2";
     js "Infinity"; js "0"].
Proof. vm_compute. reflexivity. Qed.

Example number_of_string_tests :
  map (fun t => string_of_number (number_of_string t))
    [js " 12 "; []; js "-3.5"; js "0x1F"; js "1e"; js "abc"; js "007"; js "-Infinity"; js "1."; js "."]
  = [js "12"; js "0"; js "-3.5"; js "31"; js "NaN"; js "NaN"; js "7"; js "-Infinity"; js "1"; js "NaN"].
Proof. vm_compute. reflexivity. Qed.

Lemma match_number_length s n : match_number s = Some n -> 0 < n.
Proof.
  unfold match_number. intros H.
  repeat dmatch_in H; breflect; simplify_eq; lia.
Qed.
