(* ===== verification/JsNumberOrder.v ===== *)
(** The order of doubles: comparison is a total preorder on the numbers other than NaN; the
    difference of two doubles is positive, zero or negative exactly as they compare, since the
    rounding of a non-zero difference never gives zero; and sums of natural numbers below 2^53
    are exact. *)

From S2P Require Import Prelude JsNumber.

Definition is_nan (x : number) : bool := match x with S754_nan => true | _ => false end.

(** Numbers ordered by class, exponent and mantissa. *)
Definition rank (x : number) : Z * Z * Z :=
  match x with
  | S754_infinity false => (2, 0, 0)
  | S754_finite false m e => (1, e, Z.pos m)
  | S754_zero _ | S754_nan => (0, 0, 0)
  | S754_finite true m e => (-1, - e, Z.neg m)
  | S754_infinity true => (-2, 0, 0)
  end%Z.

Definition rank_lt (a b : Z * Z * Z) : Prop :=
  (a.1.1 < b.1.1 \/ (a.1.1 = b.1.1 /\ (a.1.2 < b.1.2 \/ (a.1.2 = b.1.2 /\ a.2 < b.2))))%Z.

Lemma compare_rank x y : is_nan x = false -> is_nan y = false ->
  match SFcompare x y with
  | Some Lt => rank_lt (rank x) (rank y)
  | Some Gt => rank_lt (rank y) (rank x)
  | Some Eq => rank x = rank y
  | None => False
  end.
Proof.
  destruct x as [sx|[]| |[] m e], y as [sy|[]| |[] m' e']; intros Hx Hy; try done;
    unfold rank_lt; cbn [SFcompare rank fst snd]; try lia.
  - destruct (Z.compare_spec e e'); [|lia|lia]. change (Pos.compare_cont Eq m m') with (Pos.compare m m').
    subst e'. destruct (Pos.compare_spec m m'); cbn [CompOpp]; [by subst | lia | lia].
  - destruct (Z.compare_spec e e'); [|lia|lia]. change (Pos.compare_cont Eq m m') with (Pos.compare m m').
    subst e'. destruct (Pos.compare_spec m m'); [by subst | lia | lia].
Qed.

Lemma ltb_rank x y : is_nan x = false -> is_nan y = false -> n_ltb x y = true <-> rank_lt (rank x) (rank y).
Proof.
  intros Hx Hy. pose proof (compare_rank x y Hx Hy) as H. unfold n_ltb, SFltb.
  destruct (SFcompare x y) as [[]|]; unfold rank_lt in *; [rewrite H in *|..]; split; try done; lia.
Qed.
Lemma leb_rank x y : is_nan x = false -> is_nan y = false -> n_leb x y = true <-> ~ rank_lt (rank y) (rank x).
Proof.
  intros Hx Hy. pose proof (compare_rank x y Hx Hy) as H. unfold n_leb, SFleb.
  destruct (SFcompare x y) as [[]|]; unfold rank_lt in *; [rewrite H in *|..]; split; try done; lia.
Qed.

Lemma finite_not_nan x : is_finite x = true -> is_nan x = false.
Proof. by destruct x. Qed.

Lemma leb_refl x : is_nan x = false -> n_leb x x = true.
Proof. intros H. apply leb_rank; [done..|]. unfold rank_lt. lia. Qed.
Lemma leb_trans x y z : is_nan x = false -> is_nan y = false -> is_nan z = false ->
  n_leb x y = true -> n_leb y z = true -> n_leb x z = true.
Proof. intros Hx Hy Hz. rewrite !leb_rank by done. unfold rank_lt. lia. Qed.
Lemma ltb_false_leb x y : is_nan x = false -> is_nan y = false -> n_ltb x y = false -> n_leb y x = true.
Proof. intros Hx Hy H. rewrite leb_rank by done. rewrite <- ltb_rank by done. by rewrite H. Qed.
Lemma ltb_true_leb x y : n_ltb x y = true -> n_leb x y = true.
Proof. unfold n_ltb, n_leb, SFltb, SFleb. by destruct (SFcompare x y) as [[]|]. Qed.

(** * The sign of a difference *)

#[local] Open Scope Z_scope.

(** * Equality and order *)

Lemma eqb_rank x y : is_nan x = false -> is_nan y = false -> n_eqb x y = true -> rank x = rank y.
Proof.
  intros Hx Hy. unfold n_eqb, SFeqb. pose proof (compare_rank x y Hx Hy) as Hc. by destruct (SFcompare x y) as [[]|].
Qed.
Lemma rank_eqb x y : is_nan x = false -> is_nan y = false -> rank x = rank y -> n_eqb x y = true.
Proof.
  intros Hx Hy Hr. unfold n_eqb, SFeqb. pose proof (compare_rank x y Hx Hy) as Hc. rewrite Hr in Hc.
  unfold rank_lt in Hc. destruct (SFcompare x y) as [[]|]; [done|lia|lia|done].
Qed.

Lemma leb_ltb_negb x y : is_nan x = false -> is_nan y = false -> n_leb x y = negb (n_ltb y x).
Proof.
  intros Hx Hy. destruct (n_ltb y x) eqn:E; cbn.
  - apply ltb_rank in E; [|done..]. destruct (n_leb x y) eqn:E'; [|done]. by apply leb_rank in E'.
  - by apply ltb_false_leb.
Qed.

(** * Differences *)

(** The doubles: mantissa and exponent in range. *)
Definition is_double (x : number) : bool := valid_binary prec64 emax64 x.

Definition least_exponent : Z := emin prec64 emax64.

Lemma digits_bounds m : 2 ^ (Zpos (digits2_pos m) - 1) <= Zpos m < 2 ^ Zpos (digits2_pos m).
Proof.
  assert (forall d, 2 ^ Zpos (Pos.succ d) = 2 * 2 ^ Zpos d) as Hs.
  { intros d. rewrite Pos2Z.inj_succ, Z.pow_succ_r by lia. done. }
  assert (forall d, 2 ^ (Zpos (Pos.succ d) - 1) = 2 * 2 ^ (Zpos d - 1)) as Hs'.
  { intros d. replace (Zpos (Pos.succ d) - 1) with (Z.succ (Zpos d - 1)) by lia. rewrite Z.pow_succ_r by lia. done. }
  induction m as [m IH|m IH|]; cbn [digits2_pos]; rewrite ?Hs, ?Hs'; [lia|lia|done].
Qed.

Lemma shr_1_half r : 0 <= shr_m r -> shr_m (shr_1 r) = shr_m r / 2.
Proof.
  destruct r as [[|[p|p|]|p] rr s]; cbn; intros H; try done.
  - symmetry. rewrite Pos2Z.inj_xI. replace (2 * Zpos p + 1) with (1 + Zpos p * 2) by lia.
    rewrite Z.div_add by lia. done.
  - symmetry. rewrite Pos2Z.inj_xO, Z.mul_comm. by apply Z.div_mul.
Qed.

Lemma shr_iter p r : 0 <= shr_m r -> shr_m (iter_pos shr_1 p r) = shr_m r / 2 ^ Zpos p.
Proof.
  revert r. induction p as [p IH|p IH|]; intros r Hr; cbn [iter_pos].
  - assert (0 <= shr_m (shr_1 r)) as H1 by (rewrite shr_1_half by done; by apply Z.div_pos).
    assert (0 <= shr_m (iter_pos shr_1 p (shr_1 r))) as H2 by (rewrite IH by done; by apply Z.div_pos; [|apply Z.pow_pos_nonneg]).
    rewrite IH, IH, shr_1_half by done. rewrite !Z.div_div by (try apply Z.pow_pos_nonneg; lia).
    f_equal. rewrite Pos2Z.inj_xI. replace (2 * Zpos p + 1) with (1 + Zpos p + Zpos p) by lia.
    rewrite !Z.pow_add_r by lia. lia.
  - assert (0 <= shr_m (iter_pos shr_1 p r)) as H2 by (rewrite IH by done; by apply Z.div_pos; [|apply Z.pow_pos_nonneg]).
    rewrite IH, IH by done. rewrite Z.div_div by (try apply Z.pow_pos_nonneg; lia). f_equal.
    rewrite <- Z.pow_add_r by lia. f_equal. lia.
  - by rewrite shr_1_half.
Qed.

(** Shifting to the exponent of a double keeps a mantissa positive unless it is below the
    least positive double. *)
Lemma shr_fexp_positive m e l : 2 ^ (least_exponent - e) <= Zpos m ->
  let '(r, e') := shr_fexp prec64 emax64 (Zpos m) e l in 0 < shr_m r /\ least_exponent <= e'.
Proof.
  intros He. unfold shr_fexp.
  assert (shr_m (shr_record_of_loc (Zpos m) l) = Zpos m) as Hm by by destruct l as [|[]].
  unfold shr. destruct (fexp prec64 emax64 (Zdigits2 (Zpos m) + e) - e) as [|k|k] eqn:Ek; rewrite ?Hm;
    unfold fexp in Ek; fold least_exponent in Ek; [lia| |lia].
  split; [|lia]. rewrite shr_iter by (rewrite Hm; lia). rewrite Hm.
  cbn [Zdigits2] in Ek. pose proof (digits_bounds m) as [Hd _].
  apply Z.div_str_pos. split; [by apply Z.pow_pos_nonneg|].
  destruct (Z.max_spec (Zpos (digits2_pos m) + e - prec64) least_exponent) as [[_ E]|[_ E]]; rewrite E in Ek.
  - by rewrite <- Ek.
  - etrans; [|exact Hd]. apply Z.pow_le_mono_r; unfold prec64 in *; lia.
Qed.

Lemma least_pow e m : least_exponent <= e -> 2 ^ (least_exponent - e) <= Zpos m.
Proof.
  intros He. destruct (Z.eq_dec e least_exponent) as [->|]; [rewrite Z.sub_diag; lia|].
  rewrite Z.pow_neg_r by lia. lia.
Qed.

Lemma round_positive m l : 0 < m -> 0 < round_nearest_even m l.
Proof. destruct l as [|[]]; cbn; try lia. destruct (Z.even m); lia. Qed.

(** A rounded number with the sign [s]: not zero, not NaN, and no smaller than the least
    positive double. *)
Definition signed_double (s : bool) (x : number) : Prop :=
  match x with
  | S754_finite s' _ e => s' = s /\ least_exponent <= e
  | S754_infinity s' => s' = s
  | _ => False
  end.

(** A rounded number that is not too small has the sign of the number. *)
Lemma round_aux_sign s m e : 2 ^ (least_exponent - e) <= Zpos m ->
  signed_double s (binary_round_aux prec64 emax64 s (Zpos m) e loc_Exact).
Proof.
  intros He. unfold binary_round_aux. pose proof (shr_fexp_positive m e loc_Exact He) as H1.
  destruct (shr_fexp prec64 emax64 (Zpos m) e loc_Exact) as [r e']. destruct H1 as [H1 He'].
  pose proof (round_positive (shr_m r) (loc_of_shr_record r) H1) as H2.
  destruct (round_nearest_even (shr_m r) (loc_of_shr_record r)) as [|m'|m']; [lia| |lia].
  pose proof (shr_fexp_positive m' e' loc_Exact (least_pow e' m' He')) as H3.
  destruct (shr_fexp prec64 emax64 (Zpos m') e' loc_Exact) as [r' e'']. destruct H3 as [H3 H4].
  destruct (shr_m r') as [|m''|m'']; [lia| |lia]. by destruct (e'' <=? emax64 - prec64).
Qed.

Lemma round_sign s m e : least_exponent <= e -> signed_double s (binary_round prec64 emax64 s m e).
Proof.
  intros He. unfold binary_round, shl_align.
  destruct (fexp prec64 emax64 (Zpos (digits2_pos m) + e) - e) as [|d|d] eqn:E;
    try by apply round_aux_sign, least_pow.
  apply round_aux_sign, least_pow. unfold fexp. fold least_exponent. lia.
Qed.

Lemma normalize_sign z e : least_exponent <= e ->
  let x := binary_normalize prec64 emax64 z e false in
  match z with Z0 => x = n_zero | Zpos _ => signed_double false x | Zneg _ => signed_double true x end.
Proof. intros He. destruct z as [|m|m]; cbn [binary_normalize]; [done|by apply round_sign..]. Qed.

Lemma normalize_compare z e : least_exponent <= e ->
  n_ltb n_zero (binary_normalize prec64 emax64 z e false) = (0 <? z) /\
  n_ltb (binary_normalize prec64 emax64 z e false) n_zero = (z <? 0).
Proof.
  intros He. pose proof (normalize_sign z e He) as H. cbv zeta in H. destruct z as [|m|m].
  - by rewrite H.
  - destruct (binary_normalize _ _ _ _ _) as [|[]| |[]]; try done; by destruct H.
  - destruct (binary_normalize _ _ _ _ _) as [|[]| |[]]; try done; by destruct H.
Qed.

(** * Comparison of scaled mantissas *)

Lemma shl_align_value m e e' : e' <= e -> Zpos (fst (shl_align m e e')) = Zpos m * 2 ^ (e - e').
Proof.
  intros He. unfold shl_align. destruct (e' - e) as [|d|d] eqn:E; cbn [fst].
  - replace (e - e') with 0 by lia. lia.
  - lia.
  - replace (e - e') with (Zpos d) by lia. rewrite Z.mul_comm.
    assert (forall d, Zpos (Pos.iter xO m d) = 2 ^ Zpos d * Zpos m) as Hi; [|apply Hi]. clear.
    induction d as [|d IH] using Pos.peano_ind; [done|].
    rewrite Pos.iter_succ, Pos2Z.inj_xO, IH, Pos2Z.inj_succ, Z.pow_succ_r by lia. lia.
Qed.

Lemma double_bounds m e : bounded prec64 emax64 m e = true ->
  least_exponent <= e /\ Zpos m < 2 ^ 53 /\ (least_exponent < e -> 2 ^ 52 <= Zpos m).
Proof.
  unfold bounded, canonical_mantissa. intros [H _]%andb_true_iff. apply Z.eqb_eq in H. unfold fexp in H.
  fold least_exponent in H. pose proof (digits_bounds m) as [H1 H2]. unfold prec64 in *.
  split; [lia|]. split.
  - eapply Z.lt_le_trans; [exact H2|]. apply Z.pow_le_mono_r; lia.
  - intros Hlt. etrans; [|exact H1]. apply Z.pow_le_mono_r; lia.
Qed.

(** Positive doubles compare as exponent and mantissa do. *)
Lemma magnitude_compare m e m' e' : bounded prec64 emax64 m e = true -> bounded prec64 emax64 m' e' = true ->
  match e ?= e' with Eq => Pos.compare_cont Eq m m' | c => c end =
  (Zpos m * 2 ^ (e - Z.min e e') ?= Zpos m' * 2 ^ (e' - Z.min e e')).
Proof.
  intros (H1 & H2 & H3)%double_bounds (H1' & H2' & H3')%double_bounds.
  assert (forall a ea b eb, Zpos a < 2 ^ 53 -> 2 ^ 52 <= Zpos b -> ea < eb ->
            Zpos a * 2 ^ (ea - Z.min ea eb) < Zpos b * 2 ^ (eb - Z.min ea eb)) as Hlt.
  { intros a ea b eb Ha Hb He. rewrite Z.min_l by lia. replace (ea - ea) with 0 by lia. rewrite Z.pow_0_r, Z.mul_1_r.
    eapply Z.lt_le_trans; [exact Ha|]. change (2 ^ 53) with (2 ^ 52 * 2 ^ 1). apply Z.mul_le_mono_nonneg; [done..|].
    apply Z.pow_le_mono_r; lia. }
  destruct (Z.compare_spec e e') as [->|He|He]; symmetry.
  - rewrite Z.min_id, Z.sub_diag, Z.pow_0_r, !Z.mul_1_r. done.
  - apply Z.compare_lt_iff. apply Hlt; [done|apply H3'; lia|done].
  - apply Z.compare_gt_iff. rewrite Z.min_comm. apply Hlt; [done|apply H3; lia|done].
Qed.

(** The sign of a difference of finite doubles. *)
Lemma sub_sign a b : is_double a = true -> is_double b = true -> is_finite a = true -> is_finite b = true ->
  n_ltb n_zero (n_sub a b) = n_ltb b a /\ n_ltb (n_sub a b) n_zero = n_ltb a b.
Proof.
  intros Da Db Fa Fb. destruct a as [sa| | |sa ma ea], b as [sb| | |sb mb eb]; try done.
  - by destruct sa, sb.
  - by destruct sb.
  - unfold n_sub, SFsub. cbv zeta. pose proof (double_bounds _ _ Da) as (La & _ & _). pose proof (double_bounds _ _ Db) as (Lb & _ & _).
    pose proof (magnitude_compare ma ea mb eb Da Db) as Hab. pose proof (magnitude_compare mb eb ma ea Db Da) as Hba.
    rewrite (Z.min_comm eb ea) in Hba.
    rewrite !shl_align_value by lia. set (A := Zpos ma * _) in *. set (B := Zpos mb * _) in *.
    assert (0 < A) as HA by (apply Z.mul_pos_pos; [done|apply Z.pow_pos_nonneg; lia]).
    assert (0 < B) as HB by (apply Z.mul_pos_pos; [done|apply Z.pow_pos_nonneg; lia]).
    destruct (normalize_compare (cond_Zopp sa A - cond_Zopp sb B) (Z.min ea eb)) as [-> ->]; [lia|].
    unfold n_ltb, SFltb, SFcompare. destruct sa, sb; cbn [cond_Zopp].
    + assert (match ea ?= eb with Eq => CompOpp (Pos.compare_cont Eq ma mb) | Lt => Gt | Gt => Lt end = CompOpp (A ?= B)) as ->
        by (rewrite <- Hab; by destruct (ea ?= eb)).
      assert (match eb ?= ea with Eq => CompOpp (Pos.compare_cont Eq mb ma) | Lt => Gt | Gt => Lt end = CompOpp (B ?= A)) as ->
        by (rewrite <- Hba; by destruct (eb ?= ea)).
      destruct (Z.compare_spec A B), (Z.compare_spec B A); cbn; lia.
    + lia.
    + lia.
    + rewrite Hab, Hba. destruct (Z.compare_spec A B), (Z.compare_spec B A); lia.
Qed.

(** A difference of finite doubles is zero or no smaller than the least positive double. *)
Lemma sub_graded a b : is_double a = true -> is_double b = true -> is_finite a = true -> is_finite b = true ->
  (exists s, n_sub a b = S754_zero s) \/ exists s, signed_double s (n_sub a b).
Proof.
  intros Da Db Fa Fb. destruct a as [sa| | |sa ma ea], b as [sb| | |sb mb eb]; try done.
  - left. by destruct sa, sb; eexists.
  - right. pose proof (double_bounds _ _ Db) as (Lb & _). exists (negb sb). done.
  - right. pose proof (double_bounds _ _ Da) as (La & _). exists sa. done.
  - unfold n_sub, SFsub. cbv zeta. pose proof (double_bounds _ _ Da) as (La & _ & _). pose proof (double_bounds _ _ Db) as (Lb & _ & _).
    set (z := _ - _). pose proof (normalize_sign z (Z.min ea eb)) as H. cbv zeta in H. destruct z as [|p|p].
    + left. exists false. apply H. lia.
    + right. exists false. apply H. lia.
    + right. exists true. apply H. lia.
Qed.

(** Multiplying by 1 or -1 keeps or flips the sign. *)
Lemma mul_unit_sign (s : bool) x : (exists s', x = S754_zero s') \/ (exists s', signed_double s' x) ->
  n_ltb n_zero (n_mul (if s then n_neg n_one else n_one) x) = if s then n_ltb x n_zero else n_ltb n_zero x.
Proof.
  intros [[s' ->]|[s' H]]; [by destruct s, s'|]. destruct x as [|s''| |s'' m e]; [done|by destruct s, s''|done|].
  destruct H as [-> He].
  assert (forall t, signed_double (xorb t s') (n_mul (S754_finite t 4503599627370496 (-52)) (S754_finite s' m e))) as Hm.
  { intros t. unfold n_mul, SFmul. apply round_aux_sign.
    destruct (Z.eq_dec e least_exponent) as [->|].
    - replace (least_exponent - _) with 52 by lia. change (2 ^ 52) with 4503599627370496. lia.
    - destruct (Z_le_gt_dec (least_exponent + 52) e).
      + apply least_pow. lia.
      + etrans; [apply (Z.pow_le_mono_r 2 _ 52); lia|]. change (2 ^ 52) with 4503599627370496. lia. }
  destruct s.
  - change (n_neg n_one) with (S754_finite true 4503599627370496 (-52)). specialize (Hm true).
    destruct (n_mul _ _) as [|[]| |[]]; destruct s'; try done; by destruct Hm.
  - change n_one with (S754_finite false 4503599627370496 (-52)). specialize (Hm false).
    destruct (n_mul _ _) as [|[]| |[]]; destruct s'; try done; by destruct Hm.
Qed.

(** * Exact sums *)

Lemma digits_shift m k : Zpos (digits2_pos (Pos.iter xO m k)) = Zpos (digits2_pos m) + Zpos k.
Proof.
  induction k as [|k IH] using Pos.peano_ind; [cbn [Pos.iter digits2_pos]; lia|].
  rewrite Pos.iter_succ. cbn [digits2_pos]. lia.
Qed.

(** A record without lost bits. *)
Definition exact_record (m : positive) : shr_record := Build_shr_record (Zpos m) false false.

Lemma iter_pos_nat {A} (f : A -> A) p x : iter_pos f p x = Nat.iter (Pos.to_nat p) f x.
Proof.
  revert x. induction p as [p IH|p IH|]; intros x; cbn [iter_pos].
  - rewrite !IH. change (f x) with (Nat.iter 1 f x). rewrite <- !Nat.iter_add, Pos2Nat.inj_xI. f_equal. lia.
  - rewrite !IH, <- Nat.iter_add, Pos2Nat.inj_xO. f_equal. lia.
  - done.
Qed.

Lemma iter_shr_succ k r : iter_pos shr_1 (Pos.succ k) r = iter_pos shr_1 k (shr_1 r).
Proof. rewrite !iter_pos_nat, Pos2Nat.inj_succ. apply Nat.iter_succ_r. Qed.

Lemma shr_iter_exact m k : iter_pos shr_1 k (exact_record (Pos.iter xO m k)) = exact_record m.
Proof.
  revert m. induction k as [|k IH] using Pos.peano_ind; intros m; [done|].
  rewrite iter_shr_succ, Pos.iter_succ. change (shr_1 (exact_record (xO (Pos.iter xO m k)))) with (exact_record (Pos.iter xO m k)).
  apply IH.
Qed.

(** Rounding a mantissa that fits after its trailing zeros are dropped changes nothing. *)
Lemma round_exact (s : bool) p e : Zpos (digits2_pos p) = prec64 -> least_exponent <= e <= emax64 - prec64 ->
  binary_round_aux prec64 emax64 s (Zpos p) e loc_Exact = S754_finite s p e.
Proof.
  intros Hd He. unfold binary_round_aux, shr_fexp. cbn [Zdigits2 shr_record_of_loc]. rewrite Hd.
  assert (fexp prec64 emax64 (prec64 + e) - e = 0) as Hf by (unfold fexp; fold least_exponent; lia).
  rewrite Hf. cbn [shr shr_m loc_of_shr_record round_nearest_even Zdigits2]. rewrite Hd, Hf. cbn [shr shr_m].
  destruct (Z.leb_spec e (emax64 - prec64)); [done|lia].
Qed.

Lemma round_exact_shift (s : bool) p e k : Zpos (digits2_pos p) = prec64 -> least_exponent <= e <= emax64 - prec64 ->
  binary_round_aux prec64 emax64 s (Zpos (Pos.iter xO p k)) (e - Zpos k) loc_Exact = S754_finite s p e.
Proof.
  intros Hd He. rewrite <- (round_exact s p e) by done. unfold binary_round_aux, shr_fexp. cbn [Zdigits2 shr_record_of_loc].
  rewrite digits_shift, Hd. replace (prec64 + Zpos k + (e - Zpos k)) with (prec64 + e) by lia.
  assert (fexp prec64 emax64 (prec64 + e) = e) as -> by (unfold fexp; fold least_exponent; lia).
  replace (e - (e - Zpos k)) with (Zpos k) by lia. rewrite Z.sub_diag. cbn [shr].
  fold (exact_record (Pos.iter xO p k)) (exact_record p). rewrite shr_iter_exact.
  by replace (e - Zpos k + Zpos k) with e by lia.
Qed.

(** * Shifted mantissas *)

Definition shifted (a : positive) (k : Z) : positive := match k with Zpos d => Pos.iter xO a d | _ => a end.

Lemma shifted_value a k : 0 <= k -> Zpos (shifted a k) = Zpos a * 2 ^ k.
Proof.
  intros Hk. destruct k as [|d|d]; [cbn; lia| |lia]. cbn [shifted].
  induction d as [|d IH] using Pos.peano_ind; [cbn; lia|].
  rewrite Pos.iter_succ, Pos2Z.inj_xO, IH, Pos2Z.inj_succ, Z.pow_succ_r by lia. lia.
Qed.

Lemma shifted_digits a k : 0 <= k -> Zpos (digits2_pos (shifted a k)) = Zpos (digits2_pos a) + k.
Proof. intros Hk. destruct k as [|d|d]; [cbn; lia|apply digits_shift|lia]. Qed.

Lemma shifted_add a i j : 0 <= i -> 0 <= j -> shifted (shifted a i) j = shifted a (i + j).
Proof.
  intros Hi Hj. apply (inj Zpos). rewrite !shifted_value by lia. rewrite Z.pow_add_r by lia. lia.
Qed.

Lemma digits_small a : Zpos a < 2 ^ 53 -> Zpos (digits2_pos a) <= 53.
Proof.
  intros Ha. pose proof (digits_bounds a) as [Hd _]. destruct (Z_le_gt_dec (Zpos (digits2_pos a)) 53); [done|]. exfalso.
  assert (2 ^ 53 <= 2 ^ (Zpos (digits2_pos a) - 1)) by (apply Z.pow_le_mono_r; lia). lia.
Qed.

(** The double of a natural number, whatever zeros its mantissa carries. *)
Lemma round_shifted a k : Zpos a < 2 ^ 53 -> 0 <= k ->
  let d := Zpos (digits2_pos a) in
  binary_round prec64 emax64 false (shifted a k) (- k) = S754_finite false (shifted a (53 - d)) (d - 53).
Proof.
  intros Ha Hk. cbv zeta. pose proof (digits_small a Ha) as Hd. set (d := Zpos (digits2_pos a)) in *.
  assert (0 < d) as Hd0 by lia.
  assert (Zpos (digits2_pos (shifted a (53 - d))) = prec64) as Hp by (rewrite shifted_digits by lia; unfold prec64; lia).
  assert (least_exponent <= d - 53 <= emax64 - prec64) as He by (unfold least_exponent, emin, emax64, prec64; lia).
  unfold binary_round. rewrite shifted_digits by done. fold d. replace (d + k + - k) with d by lia.
  assert (fexp prec64 emax64 d = d - 53) as -> by (unfold fexp; fold least_exponent; unfold prec64; lia).
  unfold shl_align. destruct (d - 53 - - k) as [|j|j] eqn:Ej.
  - replace k with (53 - d) by lia. replace (- (53 - d)) with (d - 53) by lia. by apply round_exact.
  - assert (shifted a k = Pos.iter xO (shifted a (53 - d)) j) as ->.
    { change (Pos.iter xO ?x j) with (shifted x (Zpos j)). rewrite shifted_add by lia. f_equal. lia. }
    replace (- k) with (d - 53 - Zpos j) by lia. by apply round_exact_shift.
  - change (Pos.iter xO (shifted a k) j) with (shifted (shifted a k) (Zpos j)). rewrite shifted_add by lia.
    replace (k + Zpos j) with (53 - d) by lia. by apply round_exact.
Qed.

Lemma of_Z_value a : Zpos a < 2 ^ 53 ->
  let d := Zpos (digits2_pos a) in n_of_Z (Zpos a) = S754_finite false (shifted a (53 - d)) (d - 53).
Proof. intros Ha. apply (round_shifted a 0 Ha). lia. Qed.

(** Sums of natural numbers below 2^53 are exact. *)
Lemma add_exact a b : 0 <= a -> 0 <= b -> a + b < 2 ^ 53 -> n_add (n_of_Z a) (n_of_Z b) = n_of_Z (a + b).
Proof.
  intros Ha Hb Hab. destruct a as [|a|a]; [|destruct b as [|b|b]|lia]; [| |..|lia].
  - rewrite Z.add_0_l. destruct b as [|b|b]; [done| |lia]. rewrite of_Z_value by lia. done.
  - rewrite Z.add_0_r. rewrite of_Z_value by lia. done.
  - rewrite (of_Z_value a), (of_Z_value b) by lia. set (da := Zpos (digits2_pos a)). set (db := Zpos (digits2_pos b)).
    pose proof (digits_small a ltac:(lia)). pose proof (digits_small b ltac:(lia)).
    unfold n_add, SFadd. cbv zeta. cbn [cond_Zopp]. set (ez := Z.min (da - 53) (db - 53)).
    rewrite !shl_align_value by lia. rewrite !shifted_value by lia.
    rewrite <- !Z.mul_assoc, <- !Z.pow_add_r by lia.
    replace (53 - da + (da - 53 - ez)) with (- ez) by lia. replace (53 - db + (db - 53 - ez)) with (- ez) by lia.
    rewrite <- Z.mul_add_distr_r. change (Zpos a + Zpos b) with (Zpos (a + b)).
    rewrite <- shifted_value by lia. cbn [binary_normalize]. replace ez with (- - ez) at 2 by lia.
    rewrite round_shifted by lia. by rewrite of_Z_value by lia.
Qed.
