(* ===== verification/JsValue.v ===== *)
(** JSON-like JavaScript values ([unknown] in the source), dates, and the part of
    the host environment that is data the program cannot see: Unicode case
    mapping and the [Intl] time zone database. *)

From S2P Require Import Prelude JsString JsNumber.

(** An object is the list of its own enumerable entries, in
    [Object.entries] order. *)
#[local] Unset Elimination Schemes.
Inductive jsval : Type :=
| VUndefined
| VNull
| VBool (b : bool)
| VNumber (n : number)
| VString (s : str)
| VArray (items : list jsval)
| VObject (entries : list (str * jsval)).
#[local] Set Elimination Schemes.

Section jsval_induction.
Variable P : jsval -> Prop.
Hypothesis Hundef : P VUndefined.
Hypothesis Hnull : P VNull.
Hypothesis Hbool : forall b, P (VBool b).
Hypothesis Hnum : forall n, P (VNumber n).
Hypothesis Hstr : forall s, P (VString s).
Hypothesis Harr : forall l, Forall P l -> P (VArray l).
Hypothesis Hobj : forall o, Forall (fun kv => P kv.2) o -> P (VObject o).

Fixpoint jsval_ind' (v : jsval) : P v :=
  match v with
  | VUndefined => Hundef
  | VNull => Hnull
  | VBool b => Hbool b
  | VNumber n => Hnum n
  | VString s => Hstr s
  | VArray l =>
      Harr l ((fix go l := match l return Forall P l with
               | [] => @List.Forall_nil _ P
               | x :: l' => @List.Forall_cons _ P x l' (jsval_ind' x) (go l')
               end) l)
  | VObject o =>
      Hobj o ((fix go o := match o return Forall (fun kv => P kv.2) o with
               | [] => @List.Forall_nil _ _
               | kv :: o' => @List.Forall_cons _ (fun kv => P kv.2) kv o' (jsval_ind' kv.2) (go o')
               end) o)
  end.
End jsval_induction.

(** [typeof v === 'object'] (true of null, as in JavaScript). *)
Definition typeof_object (v : jsval) : bool :=
  match v with VNull | VArray _ | VObject _ => true | _ => false end.

(** [v == null] *)
Definition is_nullish (v : jsval) : bool :=
  match v with VUndefined | VNull => true | _ => false end.

(** [a === b] for values that are not both objects; two distinct object
    references are never equal, and the callers reject that case. *)
Definition strict_equal (a b : jsval) : bool :=
  match a, b with
  | VUndefined, VUndefined => true
  | VNull, VNull => true
  | VBool x, VBool y => Bool.eqb x y
  | VNumber x, VNumber y => n_eqb x y
  | VString x, VString y => bool_decide (x = y)
  | _, _ => false
  end.

(** [Object.hasOwn(o, k)] and [o[k]] on the own properties of a plain object. *)
Definition has_own {V} (o : list (str * V)) (k : str) : bool :=
  match obj_get k o with Some _ => true | None => false end.

(** ** Dates *)

(** A [Date]: its time value in milliseconds, [None] for an invalid date. *)
Definition date : Type := option Z.

Definition ms_per_day : Z := 86400000.
Definition days_of (t : Z) : Z := t / ms_per_day.

(** Gregorian month (1-12) and day of month of a day number counted from
    1970-01-01, by 400-year eras starting on 1 March. *)
Definition civil_month_day (days : Z) : Z * Z :=
  let z := (days + 719468)%Z in
  let doe := (z mod 146097)%Z in
  let yoe := ((doe - doe / 1460 + doe / 36524 - doe / 146096) / 365)%Z in
  let doy := (doe - (365 * yoe + yoe / 4 - yoe / 100))%Z in
  let mp := ((5 * doy + 2) / 153)%Z in
  let d := (doy - (153 * mp + 2) / 5 + 1)%Z in
  ((if mp <? 10 then mp + 3 else mp - 9)%Z, d).

Definition getUTCHours (t : Z) : Z := (t / 3600000) mod 24.
Definition getUTCMinutes (t : Z) : Z := (t / 60000) mod 60.
Definition getUTCDay (t : Z) : Z := (4 + days_of t) mod 7.
Definition getUTCMonth (t : Z) : Z := (civil_month_day (days_of t)).1 - 1.
Definition getUTCDate (t : Z) : Z := (civil_month_day (days_of t)).2.

Example utc_tests :
  map (fun t => [getUTCMonth t + 1; getUTCDate t; getUTCDay t; getUTCHours t; getUTCMinutes t])%Z
    [0; 951782400000; 1767484800000; -1; 1709164799000]%Z
  = [[1; 1; 4; 0; 0]; [2; 29; 2; 0; 0]; [1; 4; 0; 0; 0]; [12; 31; 3; 23; 59]; [2; 28; 3; 23; 59]]%Z.
Proof. vm_compute. reflexivity. Qed.

(** ** Host environment *)

(** [new Intl.DateTimeFormat('en-US', { timeZone, hourCycle: 'h23', ... })]: the
    zone name [resolvedOptions] reports and the [(type, value)] pairs of
    [formatToParts]; [None] when the constructor throws [RangeError]. *)
Record zone_format := {
  resolved_zone : str;
  format_parts : Z -> list (str * str);
}.

Class Host := {
  to_lower_case : str -> str;
  date_time_format : str -> option zone_format;
}.

(** A host for ASCII text whose [Intl] knows one zone, used by the examples. *)
Definition two_digits (z : Z) : str := string_of_Z z.
Definition weekday_name (d : Z) : str :=
  default [] ([js "Sun"; js "Mon"; js "Tue"; js "Wed"; js "Thu"; js "Fri"; js "Sat"] !! Z.to_nat d).
Definition fixed_offset_zone (name : str) (offset_ms : Z) : zone_format := {|
  resolved_zone := name;
  format_parts := fun t =>
    let t := (t + offset_ms)%Z in
    [(js "weekday", weekday_name (getUTCDay t));
     (js "literal", js ", ");
     (js "month", string_of_Z (getUTCMonth t + 1));
     (js "literal", js "/");
     (js "day", string_of_Z (getUTCDate t));
     (js "literal", js ", ");
     (js "hour", string_of_Z (getUTCHours t));
     (js "literal", js ":");
     (js "minute", string_of_Z (getUTCMinutes t))]
|}.
Definition sample_host : Host := {|
  to_lower_case := map lower_ascii;
  date_time_format := fun z =>
    if bool_decide (z = js "UTC") then Some (fixed_offset_zone z 0)
    else if bool_decide (z = js "Asia/Shanghai") then Some (fixed_offset_zone z (8 * 3600000))
    else None
|}.
