(* ===== verification/BillingTypes.v ===== *)
(** The data model of the billing expression engine and its traversal
    (features/pricing/lib/billing-expression/types.ts): variables and functions
    of the language, the syntax tree, diagnostics, compilation results, the
    simulation context, and [visitExpression] with its explicit stack. *)

From S2P Require Import Prelude JsString JsNumber JsValue.

(** * Names of the language *)

Inductive billing_variable : Type :=
| V_p | V_c | V_len | V_cr | V_cc | V_cc1h | V_cc12h | V_img | V_img_cr | V_img_o
| V_ai | V_ao | V_image_count.

#[export] Instance billing_variable_eq_dec : EqDecision billing_variable.
Proof. solve_decision. Defined.

Definition variable_name (v : billing_variable) : str :=
  match v with
  | V_p => js "p" | V_c => js "c" | V_len => js "len" | V_cr => js "cr"
  | V_cc => js "cc" | V_cc1h => js "cc1h" | V_cc12h => js "cc12h"
  | V_img => js "img" | V_img_cr => js "img_cr" | V_img_o => js "img_o"
  | V_ai => js "ai" | V_ao => js "ao" | V_image_count => js "image_count"
  end.

Definition TOKEN_VARIABLES : list billing_variable :=
  [V_p; V_c; V_len; V_cr; V_cc; V_cc1h; V_cc12h; V_img; V_img_cr; V_img_o; V_ai; V_ao].
Definition BILLING_VARIABLES : list billing_variable := TOKEN_VARIABLES ++ [V_image_count].

Inductive time_function : Type := T_hour | T_minute | T_weekday | T_month | T_day.

#[export] Instance time_function_eq_dec : EqDecision time_function.
Proof. solve_decision. Defined.

Definition time_function_name (t : time_function) : str :=
  match t with
  | T_hour => js "hour" | T_minute => js "minute" | T_weekday => js "weekday"
  | T_month => js "month" | T_day => js "day"
  end.

Definition TIME_FUNCTIONS : list time_function := [T_hour; T_minute; T_weekday; T_month; T_day].

Inductive billing_function : Type :=
| F_tier | F_fixed | F_param | F_header | F_has | F_u
| F_time (t : time_function)
| F_min | F_max | F_abs | F_ceil | F_floor.

#[export] Instance billing_function_eq_dec : EqDecision billing_function.
Proof. solve_decision. Defined.

Definition function_name (f : billing_function) : str :=
  match f with
  | F_tier => js "tier" | F_fixed => js "fixed" | F_param => js "param"
  | F_header => js "header" | F_has => js "has" | F_u => js "u"
  | F_time t => time_function_name t
  | F_min => js "min" | F_max => js "max" | F_abs => js "abs"
  | F_ceil => js "ceil" | F_floor => js "floor"
  end.

(** The keys of [BILLING_FUNCTIONS], and the arity each one maps to. *)
Definition billing_function_keys : list billing_function :=
  [F_tier; F_fixed; F_param; F_header; F_has; F_u] ++ map F_time TIME_FUNCTIONS ++
  [F_min; F_max; F_abs; F_ceil; F_floor].
Definition BILLING_FUNCTIONS (f : billing_function) : nat :=
  match f with
  | F_tier | F_has | F_min | F_max => 2
  | _ => 1
  end.

Definition is_time_function (f : billing_function) : bool :=
  match f with F_time _ => true | _ => false end.

(** [BILLING_VARIABLES.includes(text)] and [Object.hasOwn(BILLING_FUNCTIONS, text)],
    returning the variable or function with that name. *)
Definition find_variable (text : str) : option billing_variable :=
  List.find (fun v => bool_decide (variable_name v = text)) BILLING_VARIABLES.
Definition find_function (text : str) : option billing_function :=
  List.find (fun f => bool_decide (function_name f = text)) billing_function_keys.

(** * Syntax tree *)

Inductive unary_operator : Type := U_not | U_plus | U_minus.
Inductive binary_operator : Type :=
| B_or | B_and | B_eq | B_ne | B_lt | B_le | B_gt | B_ge
| B_add | B_sub | B_mul | B_div | B_mod.

#[export] Instance unary_operator_eq_dec : EqDecision unary_operator.
Proof. solve_decision. Defined.
#[export] Instance binary_operator_eq_dec : EqDecision binary_operator.
Proof. solve_decision. Defined.

(** [value: string | number | boolean | null] of a literal node. *)
Inductive lit_value : Type :=
| LString (s : str)
| LNumber (n : number)
| LBoolean (b : bool)
| LNull.

#[export] Instance lit_value_eq_dec : EqDecision lit_value.
Proof. solve_decision. Defined.

(** [ExpressionNode].  The optional [integer] mark is only ever tested for
    truth, so its absence is [false]. *)
#[local] Unset Elimination Schemes.
Inductive node : Type :=
| NLiteral (value : lit_value) (integer : bool) (start stop : nat)
| NVariable (name : billing_variable) (start stop : nat)
| NCall (name : billing_function) (args : list node) (start stop : nat)
| NUnary (operator : unary_operator) (operand : node) (start stop : nat)
| NBinary (operator : binary_operator) (left right : node) (start stop : nat)
| NConditional (condition yes no : node) (start stop : nat).
#[local] Set Elimination Schemes.

Section node_induction.
Variable P : node -> Prop.
Hypothesis Hlit : forall v i a b, P (NLiteral v i a b).
Hypothesis Hvar : forall v a b, P (NVariable v a b).
Hypothesis Hcall : forall f args a b, Forall P args -> P (NCall f args a b).
Hypothesis Hun : forall o x a b, P x -> P (NUnary o x a b).
Hypothesis Hbin : forall o x y a b, P x -> P y -> P (NBinary o x y a b).
Hypothesis Hcond : forall c y n a b, P c -> P y -> P n -> P (NConditional c y n a b).

Fixpoint node_ind' (n : node) : P n :=
  match n with
  | NLiteral v i a b => Hlit v i a b
  | NVariable v a b => Hvar v a b
  | NCall f args a b =>
      Hcall f args a b
        ((fix go l := match l return Forall P l with
          | [] => @List.Forall_nil _ P
          | x :: l' => @List.Forall_cons _ P x l' (node_ind' x) (go l')
          end) args)
  | NUnary o x a b => Hun o x a b (node_ind' x)
  | NBinary o x y a b => Hbin o x y a b (node_ind' x) (node_ind' y)
  | NConditional c y n a b => Hcond c y n a b (node_ind' c) (node_ind' y) (node_ind' n)
  end.
End node_induction.

(** Decides one component of two constructor applications. *)
Ltac decide_part H :=
  let E := fresh in destruct H as [E|]; [subst | right; congruence].

#[export] Instance node_eq_dec : EqDecision node.
Proof.
  notypeclasses refine (fix go (x y : node) {struct x} : Decision (x = y) := _).
  destruct x as [v i a b|v a b|f l a b|o x a b|o x1 x2 a b|c y1 n a b],
           y as [v' i' a' b'|v' a' b'|f' l' a' b'|o' x' a' b'|o' x1' x2' a' b'|c' y1' n' a' b'];
    try (right; discriminate).
  all: decide_part (decide (a = a')).
  all: decide_part (decide (b = b')).
  - decide_part (decide (v = v')). decide_part (decide (i = i')). by left.
  - decide_part (decide (v = v')). by left.
  - decide_part (decide (f = f')). decide_part (@list_eq_dec node go l l'). by left.
  - decide_part (decide (o = o')). decide_part (go x x'). by left.
  - decide_part (decide (o = o')). decide_part (go x1 x1'). decide_part (go x2 x2'). by left.
  - decide_part (go c c'). decide_part (go y1 y1'). decide_part (go n n'). by left.
Defined.

Definition node_start (n : node) : nat :=
  match n with
  | NLiteral _ _ a _ | NVariable _ a _ | NCall _ _ a _ | NUnary _ _ a _
  | NBinary _ _ _ a _ | NConditional _ _ _ a _ => a
  end.
Definition node_stop (n : node) : nat :=
  match n with
  | NLiteral _ _ _ b | NVariable _ _ b | NCall _ _ _ b | NUnary _ _ _ b
  | NBinary _ _ _ _ b | NConditional _ _ _ _ b => b
  end.
(** [{ ...node, start, end }] *)
Definition with_span (n : node) (a b : nat) : node :=
  match n with
  | NLiteral v i _ _ => NLiteral v i a b
  | NVariable v _ _ => NVariable v a b
  | NCall f args _ _ => NCall f args a b
  | NUnary o x _ _ => NUnary o x a b
  | NBinary o x y _ _ => NBinary o x y a b
  | NConditional c y n _ _ => NConditional c y n a b
  end.

Definition children (n : node) : list node :=
  match n with
  | NLiteral _ _ _ _ | NVariable _ _ _ => []
  | NCall _ args _ _ => args
  | NUnary _ x _ _ => [x]
  | NBinary _ x y _ _ => [x; y]
  | NConditional c y n _ _ => [c; y; n]
  end.

(** * Diagnostics and results *)

Inductive diagnostic_code : Type :=
| C_syntax | C_unsupported | C_missing_context | C_type | C_number | C_limit.

#[export] Instance diagnostic_code_eq_dec : EqDecision diagnostic_code.
Proof. solve_decision. Defined.

Record diagnostic := Diag {
  d_code : diagnostic_code;
  d_detail : str;
  d_position : option nat;
}.

(** What can be thrown: a [BillingExpressionError], an error of the JavaScript
    engine, or exhaustion of the fuel that bounds a loop of the model. *)
Inductive exn : Type :=
| BillingExpressionError (d : diagnostic)
| NativeError (message : str)
| OutOfFuel.

Definition err (c : diagnostic_code) (detail : str) : exn :=
  BillingExpressionError (Diag c detail None).
Definition err_at (c : diagnostic_code) (detail : str) (position : nat) : exn :=
  BillingExpressionError (Diag c detail (Some position)).

(** [node.kind] of an absent argument. *)
Definition undefined_node : exn :=
  NativeError (js "Cannot read properties of undefined (reading 'kind')").

Inductive failure_status : Type := S_unsupported | S_invalid | S_missing_context.
Record expression_failure := Failure {
  f_status : failure_status;
  f_diagnostic : diagnostic;
}.

Definition expressionFailure (error : exn) : expression_failure :=
  let diag :=
    match error with
    | BillingExpressionError d => d
    | NativeError message => Diag C_syntax message None
    | OutOfFuel => Diag C_syntax [] None
    end in
  let status := if bool_decide (d_code diag = C_missing_context) then S_missing_context else S_invalid in
  let status :=
    if bool_decide (d_code diag = C_unsupported) || bool_decide (d_code diag = C_limit)
    then S_unsupported else status in
  Failure status diag.

(** [BillingRequestRule] and the entries of [CompiledBillingExpression.requestRules]. *)
Record billing_request_rule := RequestRule {
  r_cond : str;
  r_multiplier : number;
  r_matched : bool;
}.
Record compiled_rule := CompiledRule {
  cr_node : node;
  cr_condition : node;
  cr_multiplier : number;
  cr_cond : str;
}.

Record compiled_expression := Compiled {
  c_source : str;
  c_ast : node;
  c_variables : list billing_variable;
  c_functions : list billing_function;
  c_requestRules : list compiled_rule;
}.

Inductive compilation_result : Type :=
| Ready (c : compiled_expression)
| NotReady (f : expression_failure).

Record simulation_request := Request {
  req_body : jsval;
  req_headers : option (list (str * jsval));
}.
Record simulation_context := Context_ {
  ctx_imageCount : option number;
  ctx_tokens : option (list (str * jsval));
  ctx_request : option simulation_request;
  ctx_usage : option (list (str * jsval));
  ctx_now : option date;
}.
Definition empty_context : simulation_context := Context_ None None None None None.

Inductive billing_unit : Type := Unit_token | Unit_request.
Record evaluation_success := Success {
  e_cost : number;
  e_billingUnit : billing_unit;
  e_fixedPrice : option number;
  e_imageCount : option number;
  e_matchedTier : str;
  e_requestRules : list billing_request_rule;
}.
Inductive evaluation_result : Type :=
| EvalFailure (f : expression_failure)
| EvalSuccess (s : evaluation_success).

(** * Traversal *)

Definition max_visit_depth : Z := 256.

Record visit_entry := Entry { ve_node : node; ve_visited : bool; ve_depth : Z }.

(** The [while (stack.length > 0)] loop; the head of the list is the top of the
    stack, and the visitor threads the variables its closure assigns. *)
Fixpoint visit_loop {St} (visitor : St -> node -> result exn St) (fuel : nat)
    (stack : list visit_entry) (s : St) : result exn St :=
  match fuel with
  | O => Throw OutOfFuel
  | S f =>
      match stack with
      | [] => Ok s
      | entry :: stack' =>
          if (max_visit_depth <? ve_depth entry)%Z then
            Throw (err C_limit (js "expression depth"))
          else if ve_visited entry then
            s' ← visitor s (ve_node entry); visit_loop visitor f stack' s'
          else
            visit_loop visitor f
              (map (fun child => Entry child false (ve_depth entry + 1)) (children (ve_node entry))
               ++ Entry (ve_node entry) true (ve_depth entry) :: stack') s
      end
  end.

Fixpoint node_size (n : node) : nat :=
  match n with
  | NLiteral _ _ _ _ | NVariable _ _ _ => 1
  | NCall _ args _ _ => S (list_sum (map node_size args))
  | NUnary _ x _ _ => S (node_size x)
  | NBinary _ x y _ _ => S (node_size x + node_size y)
  | NConditional c y n _ _ => S (node_size c + node_size y + node_size n)
  end.

(** Each node is popped twice, and the loop ends on the empty stack. *)
Definition visit_fuel (n : node) : nat := S (2 * node_size n).

Definition visitExpression {St} (n : node) (visitor : St -> node -> result exn St) (s : St)
    : result exn St :=
  visit_loop visitor (visit_fuel n) [Entry n false 0] s.

(** [Set.prototype.add] *)
Definition set_add {A} `{EqDecision A} (x : A) (s : list A) : list A :=
  if bool_decide (x ∈ s) then s else s ++ [x].

Definition dependency_visitor (acc : list billing_variable * list billing_function) (part : node)
    : result exn (list billing_variable * list billing_function) :=
  let '(variables, functions) := acc in
  Ok (match part with NVariable v _ _ => set_add v variables | _ => variables end,
      match part with NCall f _ _ _ => set_add f functions | _ => functions end).

Definition expressionDependencies (n : node)
    : result exn (list billing_variable * list billing_function) :=
  visitExpression n dependency_visitor ([], []).

(** * The traversal is the bounded postorder traversal *)

Fixpoint fold_result {E St A} (f : St -> A -> result E St) (l : list A) (s : St) : result E St :=
  match l with
  | [] => Ok s
  | x :: l' => s' ← f s x; fold_result f l' s'
  end.

(** Reference: structural recursion, children before their parent. *)
Fixpoint visit_ref {St} (visitor : St -> node -> result exn St) (depth : Z) (n : node) (s : St)
    : result exn St :=
  if (max_visit_depth <? depth)%Z then Throw (err C_limit (js "expression depth"))
  else
    s' ← match n with
         | NLiteral _ _ _ _ | NVariable _ _ _ => Ok s
         | NCall _ args _ _ =>
             (fix go l s := match l with
               | [] => Ok s
               | x :: l' => s' ← visit_ref visitor (depth + 1) x s; go l' s'
               end) args s
         | NUnary _ x _ _ => visit_ref visitor (depth + 1) x s
         | NBinary _ x y _ _ =>
             s1 ← visit_ref visitor (depth + 1) x s; visit_ref visitor (depth + 1) y s1
         | NConditional c y n _ _ =>
             s1 ← visit_ref visitor (depth + 1) c s;
             s2 ← visit_ref visitor (depth + 1) y s1;
             visit_ref visitor (depth + 1) n s2
         end;
    visitor s' n.

Lemma fold_result_app {E St A} (f : St -> A -> result E St) l1 l2 s :
  fold_result f (l1 ++ l2) s = (s' ← fold_result f l1 s; fold_result f l2 s').
Proof. revert s. induction l1 as [|x l1 IH]; intros s; simpl; [done|]. destruct (f s x); simpl; auto. Qed.

Lemma fold_result_ext {E St A} (f g : St -> A -> result E St) l s :
  (forall s x, x ∈ l -> f s x = g s x) -> fold_result f l s = fold_result g l s.
Proof.
  revert s. induction l as [|x l IH]; intros s H; simpl; [done|].
  rewrite H by constructor. destruct (g s x); simpl; [|done]. apply IH.
  intros. apply H. by constructor.
Qed.

Lemma node_size_children n : node_size n = S (list_sum (map node_size (children n))).
Proof. destruct n; simpl; lia. Qed.

Lemma visit_ref_unfold {St} (visitor : St -> node -> result exn St) depth n s :
  visit_ref visitor depth n s =
  if (max_visit_depth <? depth)%Z then Throw (err C_limit (js "expression depth"))
  else s' ← fold_result (fun s x => visit_ref visitor (depth + 1) x s) (children n) s;
       visitor s' n.
Proof.
  destruct n as [| |f args a b| | |]; simpl; destruct (max_visit_depth <? depth)%Z; try done.
  - f_equal. revert s. induction args as [|x l IH]; intros s; simpl; [done|].
    destruct (visit_ref visitor (depth + 1) x s); simpl; auto.
  - by destruct (visit_ref visitor (depth + 1) n s).
  - destruct (visit_ref visitor (depth + 1) n1 s); simpl; [|done].
    by destruct (visit_ref visitor (depth + 1) n2 a).
  - destruct (visit_ref visitor (depth + 1) n1 s); simpl; [|done].
    destruct (visit_ref visitor (depth + 1) n2 a); simpl; [|done].
    by destruct (visit_ref visitor (depth + 1) n3 a0).
Qed.

Section visit_equivalence.
Context {St : Type} (visitor : St -> node -> result exn St).

Definition loop_visits (n : node) : Prop :=
  forall depth stack s f,
    visit_loop visitor (2 * node_size n + f) (Entry n false depth :: stack) s =
    (s' ← visit_ref visitor depth n s; visit_loop visitor f stack s').

Lemma loop_visits_list l depth stack s f :
  Forall loop_visits l ->
  visit_loop visitor (2 * list_sum (map node_size l) + f)
    (map (fun child => Entry child false depth) l ++ stack) s =
  (s' ← fold_result (fun s x => visit_ref visitor depth x s) l s;
   visit_loop visitor f stack s').
Proof.
  intros H. revert s. induction H as [|x l Hx H IH]; intros s; [done|]. simpl.
  replace (node_size x + list_sum (map node_size l) +
           (node_size x + list_sum (map node_size l) + 0) + f)
    with (2 * node_size x + (2 * list_sum (map node_size l) + f)) by lia.
  rewrite Hx. destruct (visit_ref visitor depth x s); simpl; [|done]. apply IH.
Qed.

Lemma loop_visits_children n : Forall loop_visits (children n) -> loop_visits n.
Proof.
  intros H depth stack s f. rewrite visit_ref_unfold, (node_size_children n).
  replace (2 * S (list_sum (map node_size (children n))) + f)
    with (S (2 * list_sum (map node_size (children n)) + S f)) by lia.
  cbn [visit_loop ve_node ve_visited ve_depth]. destruct (max_visit_depth <? depth)%Z eqn:Ed; [done|].
  rewrite loop_visits_list by done.
  destruct (fold_result _ _ s) as [s'|]; [|done]. simpl. by rewrite Ed.
Qed.

Lemma visit_loop_visits n : loop_visits n.
Proof.
  induction n using node_ind'; apply loop_visits_children; simpl; auto using List.Forall_cons, List.Forall_nil.
Qed.

(** The explicit-stack traversal is the recursive one, errors included. *)
Lemma visitExpression_ref n s : visitExpression n visitor s = visit_ref visitor 0 n s.
Proof.
  unfold visitExpression, visit_fuel.
  replace (S (2 * node_size n)) with (2 * node_size n + 1) by lia.
  rewrite visit_loop_visits. by destruct (visit_ref visitor 0 n s).
Qed.
End visit_equivalence.

(** ** Height and the depth limit *)

Fixpoint height (n : node) : Z :=
  match n with
  | NLiteral _ _ _ _ | NVariable _ _ _ => 0
  | NCall _ args _ _ => fold_right Z.max 0 (map (fun x => 1 + height x) args)
  | NUnary _ x _ _ => 1 + height x
  | NBinary _ x y _ _ => 1 + Z.max (height x) (height y)
  | NConditional c y n _ _ => 1 + Z.max (height c) (Z.max (height y) (height n))
  end%Z.

Fixpoint postorder (n : node) : list node :=
  match n with
  | NLiteral _ _ _ _ | NVariable _ _ _ => []
  | NCall _ args _ _ => concat (map postorder args)
  | NUnary _ x _ _ => postorder x
  | NBinary _ x y _ _ => postorder x ++ postorder y
  | NConditional c y n _ _ => postorder c ++ postorder y ++ postorder n
  end ++ [n].

Lemma postorder_unfold n : postorder n = concat (map postorder (children n)) ++ [n].
Proof. destruct n; simpl; by rewrite ?app_nil_r. Qed.

Lemma height_nonneg n : (0 <= height n)%Z.
Proof.
  induction n as [| |f args a b H| | |] using node_ind'; simpl; try lia.
  induction H; simpl; lia.
Qed.

Lemma height_child n x : x ∈ children n -> (1 + height x <= height n)%Z.
Proof.
  destruct n as [| |f args a b|o y a b|o y z a b|c y z a b]; simpl; intros H;
    try (by apply not_elem_of_nil in H).
  - induction args as [|y l IH]; [by apply not_elem_of_nil in H|].
    apply elem_of_cons in H as [->|H]; simpl; [lia|]. specialize (IH H). lia.
  - apply list_elem_of_singleton in H as ->. lia.
  - apply elem_of_cons in H as [->|H]; [lia|]. apply list_elem_of_singleton in H as ->. lia.
  - apply elem_of_cons in H as [->|H]; [lia|].
    apply elem_of_cons in H as [->|H]; [lia|]. apply list_elem_of_singleton in H as ->. lia.
Qed.

(** Induction over the children of a node. *)
Lemma node_children_ind (P : node -> Prop) :
  (forall n, (forall x, x ∈ children n -> P x) -> P n) -> forall n, P n.
Proof.
  intros H n. assert (forall m n, node_size n <= m -> P n) as HP; [|by eapply HP].
  clear n. intros m. induction m as [|m IH]; intros n Hn.
  - rewrite node_size_children in Hn. lia.
  - apply H. intros x Hx. apply IH. rewrite node_size_children in Hn.
    assert (node_size x <= list_sum (map node_size (children n))); [|lia].
    clear -Hx. induction Hx; simpl; lia.
Qed.

Lemma visit_ref_postorder {St} (visitor : St -> node -> result exn St) n depth s :
  (depth + height n <= max_visit_depth)%Z ->
  visit_ref visitor depth n s = fold_result visitor (postorder n) s.
Proof.
  revert depth s. induction n as [n IH] using node_children_ind. intros depth s Hd.
  pose proof (height_nonneg n). rewrite visit_ref_unfold, postorder_unfold, fold_result_app.
  destruct (Z.ltb_spec max_visit_depth depth); [lia|].
  enough (fold_result (fun s x => visit_ref visitor (depth + 1) x s) (children n) s =
          fold_result visitor (concat (map postorder (children n))) s) as ->.
  { destruct (fold_result _ _ s) as [s'|]; simpl; [|done]. by destruct (visitor s' n). }
  assert (Hc : forall x, x ∈ children n -> (depth + 1 + height x <= max_visit_depth)%Z).
  { intros x Hx. pose proof (height_child n x Hx). lia. }
  clear Hd. revert IH Hc s. generalize (children n) as l.
  induction l as [|x l IHl]; intros IH Hc s; simpl; [done|].
  rewrite fold_result_app, IH by (try apply Hc; constructor).
  destruct (fold_result visitor (postorder x) s); simpl; [|done].
  apply IHl; intros; [apply IH; [by constructor | done] | apply Hc; by constructor].
Qed.
