(* ===== verification/BillingParser.v ===== *)
(** The lexer and the precedence-climbing parser of billing expressions
    (class [BillingParser] of features/pricing/lib/billing-expression/parser.ts).
    The fields of the class are the record [pstate]; its methods are state
    passing functions that may throw. *)

From S2P Require Import Prelude JsString JsNumber JsValue BillingTypes.

(** * Lexemes *)

Inductive lex_kind : Type :=
| K_number (value : number) (integer : bool)
| K_string (value : str)
| K_symbol
| K_name
| K_end.

Record lexeme := Lexeme {
  lx_kind : lex_kind;
  lx_text : str;
  lx_start : nat;
  lx_stop : nat;
}.

Definition binary_operators : list binary_operator :=
  [B_or; B_and; B_eq; B_ne; B_lt; B_le; B_gt; B_ge; B_add; B_sub; B_mul; B_div; B_mod].

Definition operator_text (o : binary_operator) : str :=
  match o with
  | B_or => js "||" | B_and => js "&&" | B_eq => js "==" | B_ne => js "!="
  | B_lt => js "<" | B_le => js "<=" | B_gt => js ">" | B_ge => js ">="
  | B_add => js "+" | B_sub => js "-" | B_mul => js "*" | B_div => js "/" | B_mod => js "%"
  end.

Definition PRECEDENCE (o : binary_operator) : Z :=
  match o with
  | B_or => 1 | B_and => 2 | B_eq | B_ne => 3
  | B_lt | B_le | B_gt | B_ge => 4
  | B_add | B_sub => 5
  | B_mul | B_div | B_mod => 6
  end.

(** [Object.hasOwn(PRECEDENCE, text)], with the operator found. *)
Definition find_operator (text : str) : option binary_operator :=
  List.find (fun o => bool_decide (operator_text o = text)) binary_operators.

(** The keys of the [escapes] table and what they stand for. *)
Definition escape_value (c : N) : option N :=
  match c with
  | 110 => Some 10 | 114 => Some 13 | 116 => Some 9 | 98 => Some 8
  | 102 => Some 12 | 118 => Some 11 | 92 => Some 92 | 34 => Some 34
  | 39 => Some 39 | 47 => Some 47
  | _ => None
  end%N.

Definition max_source_length : Z := 65536.
Definition max_tokens : Z := 10000.
Definition max_parse_depth : Z := 128.

Definition unterminated (start : nat) : exn := err_at C_syntax (js "unterminated string") start.

(** The [while] loop that reads the rest of a string literal; returns the value
    and the cursor after the closing quote. *)
Fixpoint read_string (source : str) (quote : N) (start fuel cursor : nat) (value : str)
    : result exn (str * nat) :=
  match fuel with
  | O => Throw OutOfFuel
  | S f =>
      match source !! cursor with
      | None => Throw (unterminated start)
      | Some char =>
          let cursor := S cursor in
          if (char =? quote)%N then Ok (value, cursor)
          else if ((char =? newline) || (char =? carriage_return))%N then Throw (unterminated start)
          else if negb (char =? backslash)%N then
            read_string source quote start f cursor (value ++ [char])
          else
            let escaped := source !! cursor in
            let cursor := S cursor in
            match escaped ≫= escape_value with
            | Some c => read_string source quote start f cursor (value ++ [c])
            | None =>
                if bool_decide (escaped = Some 117%N) || bool_decide (escaped = Some 120%N) then
                  let len := if bool_decide (escaped = Some 117%N) then 4 else 2 in
                  let hex := slice source cursor (cursor + len) in
                  if negb (bool_decide (length hex = len)) || negb (forallb is_hex hex)
                  then Throw (unterminated start)
                  else read_string source quote start f (cursor + len) (value ++ [parse_hex hex])
                else Throw (err_at C_unsupported (js "string escape") (cursor - 1))
            end
      end
  end.

(** The two-character operators, then the one-character ones. *)
Definition match_operator (rest : str) : option nat :=
  if existsb (starts_with rest) [js "&&"; js "||"; js "=="; js "!="; js "<="; js ">="] then Some 2
  else match rest with
       | c :: _ => if bool_decide (c ∈ js "+-*/%<>()!?:,") then Some 1 else None
       | [] => None
       end.

(** [next]: the lexeme at the cursor and the cursor after it. *)
Definition next (source : str) (cursor : nat) : result exn (lexeme * nat) :=
  let start := cursor + length (take_while is_space (drop cursor source)) in
  let rest := drop start source in
  match rest with
  | [] => Ok (Lexeme K_end [] start start, start)
  | c :: _ =>
      match match_number rest with
      | Some n =>
          let text := take n rest in
          let value := number_of_literal text in
          let integer := negb (existsb (fun c => (c =? 46) || (c =? 101) || (c =? 69))%N text) in
          if negb (is_finite value) then Throw (err_at C_number text start)
          else if integer && negb (is_safe_integer value) then
            Throw (err_at C_unsupported (js "integer precision") start)
          else Ok (Lexeme (K_number value integer) text start (start + n), start + n)
      | None =>
          if ((c =? dquote) || (c =? squote))%N then
            '(value, stop) ← read_string source c start (S (length source)) (S start) [];
            Ok (Lexeme (K_string value) (slice source start stop) start stop, stop)
          else if is_name_start c then
            let n := length (take_while is_word rest) in
            Ok (Lexeme K_name (take n rest) start (start + n), start + n)
          else
            match match_operator rest with
            | None => Throw (err_at C_unsupported [c] start)
            | Some n => Ok (Lexeme K_symbol (take n rest) start (start + n), start + n)
            end
      end
  end.

(** * Parser state *)

Record pstate := PState {
  ps_cursor : nat;
  ps_count : Z;
  ps_depth : Z;
  ps_current : lexeme;
}.

Definition PM : Type -> Type := stM pstate exn.

(** The counted call of [next] every token goes through. *)
Definition counted_next (source : str) (cursor : nat) (count : Z) : result exn (lexeme * nat) :=
  if (max_tokens <? count + 1)%Z then Throw (err C_limit (js "expression tokens"))
  else next source cursor.

(** The version prefix [/^\s*v(\d+):/]: its length and the version digits. *)
Definition match_version (source : str) : option (nat * str) :=
  let sp := length (take_while is_space source) in
  match drop sp source with
  | v :: r =>
      let ds := take_while is_digit r in
      match drop_while is_digit r with
      | colon :: _ =>
          if (v =? 118)%N && (colon =? 58)%N && bool_decide (ds <> [])
          then Some (sp + 1 + length ds + 1, ds) else None
      | [] => None
      end
  | [] => None
  end.

(** The constructor. *)
Definition new_parser (source : str) : result exn pstate :=
  if (max_source_length <? Z.of_nat (length source))%Z then
    Throw (err C_limit (js "expression length"))
  else
    let start (cursor : nat) :=
      '(current, cursor') ← counted_next source cursor 0;
      Ok (PState cursor' 1 0 current) in
    match match_version source with
    | Some (n, version) =>
        if bool_decide (version <> js "1") then Throw (err C_unsupported (take n source))
        else start n
    | None => start 0
    end.

Section parser.
Variable source : str.

Definition current : PM lexeme := gets ps_current.

Definition take_token : PM lexeme := fun st =>
  match counted_next source (ps_cursor st) (ps_count st) with
  | Ok (nxt, cursor) =>
      Ok (ps_current st, PState cursor (ps_count st + 1) (ps_depth st) nxt)
  | Throw e => Throw e
  end.

Definition is_text (text : str) : PM bool :=
  gets (fun st => bool_decide (lx_text (ps_current st) = text)).

Definition expect (text : str) : PM lexeme :=
  cur ← current;
  if bool_decide (lx_text cur <> text) then
    throw (err_at C_syntax (js "expected " ++ text) (lx_start cur))
  else take_token.

Definition enter : PM unit := fun st =>
  if (max_parse_depth <? ps_depth st + 1)%Z then Throw (err C_limit (js "expression depth"))
  else Ok (tt, PState (ps_cursor st) (ps_count st) (ps_depth st + 1) (ps_current st)).
Definition leave : PM unit :=
  modify (fun st => PState (ps_cursor st) (ps_count st) (ps_depth st - 1) (ps_current st)).

Definition unary_of_text (text : str) : option unary_operator :=
  if bool_decide (text = js "!") then Some U_not
  else if bool_decide (text = js "+") then Some U_plus
  else if bool_decide (text = js "-") then Some U_minus
  else None.

(** [expression], the loop over binary operators, [primary] and the loop over
    call arguments, each call one unit of fuel. *)
Fixpoint expression (fuel : nat) (minimum : Z) {struct fuel} : PM node :=
  match fuel with
  | O => throw OutOfFuel
  | S f =>
      _ ← enter;
      left ← primary f;
      left ← binary_loop f minimum left;
      cur ← current;
      left ← (if (minimum =? 0)%Z && bool_decide (lx_text cur = js "?") then
                _ ← take_token;
                yes ← expression f 0;
                _ ← expect (js ":");
                no ← expression f 0;
                mret (NConditional left yes no (node_start left) (node_stop no))
              else mret left);
      _ ← leave;
      mret left
  end
with binary_loop (fuel : nat) (minimum : Z) (left : node) {struct fuel} : PM node :=
  match fuel with
  | O => throw OutOfFuel
  | S f =>
      cur ← current;
      match find_operator (lx_text cur) with
      | Some operator =>
          if (minimum <=? PRECEDENCE operator)%Z then
            _ ← take_token;
            right ← expression f (PRECEDENCE operator + 1);
            binary_loop f minimum
              (NBinary operator left right (node_start left) (node_stop right))
          else mret left
      | None => mret left
      end
  end
with primary (fuel : nat) {struct fuel} : PM node :=
  match fuel with
  | O => throw OutOfFuel
  | S f =>
      token ← take_token;
      let start := lx_start token in
      let stop := lx_stop token in
      let text := lx_text token in
      match lx_kind token with
      | K_number value integer => mret (NLiteral (LNumber value) integer start stop)
      | K_string value => mret (NLiteral (LString value) false start stop)
      | kind =>
          if bool_decide (text = js "(") then
            inner ← expression f 0;
            close ← expect (js ")");
            mret (with_span inner start (lx_stop close))
          else
            match unary_of_text text with
            | Some operator =>
                operand ← expression f 7;
                mret (NUnary operator operand start (node_stop operand))
            | None =>
                match kind with
                | K_name =>
                    if bool_decide (text = js "nil") then mret (NLiteral LNull false start stop)
                    else if bool_decide (text = js "true") || bool_decide (text = js "false") then
                      mret (NLiteral (LBoolean (bool_decide (text = js "true"))) false start stop)
                    else
                      cur ← current;
                      if bool_decide (lx_text cur <> js "(") then
                        match find_variable text with
                        | None => throw (err_at C_unsupported text start)
                        | Some v => mret (NVariable v start stop)
                        end
                      else
                        match find_function text with
                        | None => throw (err_at C_unsupported text start)
                        | Some fn =>
                            _ ← take_token;
                            args ← args_loop f [];
                            close ← expect (js ")");
                            if bool_decide (length args <> BILLING_FUNCTIONS fn)
                            then throw (err_at C_type text start)
                            else mret (NCall fn args start (lx_stop close))
                        end
                | _ => throw (err_at C_syntax text start)
                end
            end
      end
  end
with args_loop (fuel : nat) (args : list node) {struct fuel} : PM (list node) :=
  match fuel with
  | O => throw OutOfFuel
  | S f =>
      closed ← is_text (js ")");
      if (closed : bool) then mret args
      else
        arg ← expression f 0;
        comma ← is_text (js ",");
        if (comma : bool) then _ ← take_token; args_loop f (args ++ [arg])
        else mret (args ++ [arg])
  end.

(** [parse] *)
Definition parse_with (fuel : nat) : PM node :=
  n ← expression fuel 0;
  cur ← current;
  match lx_kind cur with
  | K_end => mret n
  | _ => throw (err_at C_unsupported (lx_text cur) (lx_start cur))
  end.
End parser.

(** Fuel for a source: three calls per token, and no more tokens than code units. *)
Definition parse_fuel (source : str) : nat := 3 * length source + 8.

(** [new BillingParser(source).parse()] *)
Definition parse_source (source : str) : result exn node :=
  st ← new_parser source;
  '(n, _) ← parse_with source (parse_fuel source) st;
  Ok n.

Example parse_example :
  parse_source (js "v1: tier('a', p * 2 + c*1.5) ") =
  Ok (NCall F_tier
       [NLiteral (LString (js "a")) false 9 12;
        NBinary B_add
          (NBinary B_mul (NVariable V_p 14 15) (NLiteral (LNumber (n_of_Z 2)) true 18 19) 14 19)
          (NBinary B_mul (NVariable V_c 22 23)
             (NLiteral (LNumber (number_of_literal (js "1.5"))) false 24 27) 22 27) 14 27] 4 28).
Proof. vm_compute. reflexivity. Qed.
