(* ===== verification/BillingParserFacts.v ===== *)
(** Facts about the parser: the fuel is always enough, tokens advance through the
    source, and the spans of a parsed tree are properly nested, so that a node of
    the tree is identified by its contents. *)

From S2P Require Import Prelude JsString JsNumber JsValue BillingTypes BillingParser.

(** * Lexer *)

Lemma read_string_bounds source quote start fuel cursor value v stop :
  read_string source quote start fuel cursor value = Ok (v, stop) ->
  cursor < stop /\ stop <= length source.
Proof.
  revert cursor value. induction fuel as [|f IH]; intros cursor value; simpl; [discriminate|].
  destruct (source !! cursor) as [char|] eqn:Hc; [|discriminate].
  apply lookup_lt_Some in Hc. intros H.
  repeat dmatch_in H; simplify_eq; try lia; try (apply IH in H; lia).
Qed.

Lemma read_string_fuel source quote start fuel cursor value :
  length source - cursor < fuel ->
  read_string source quote start fuel cursor value <> Throw OutOfFuel.
Proof.
  revert cursor value. induction fuel as [|f IH]; intros cursor value Hf; [lia|]. simpl.
  destruct (source !! cursor) as [char|] eqn:Hc; [|discriminate].
  apply lookup_lt_Some in Hc.
  repeat (dmatch; try discriminate); apply IH; lia.
Qed.

Lemma match_operator_pos rest n : match_operator rest = Some n -> 0 < n <= length rest.
Proof.
  unfold match_operator. destruct (existsb _ _) eqn:E.
  - intros [= <-]. apply existsb_exists in E as (t & Ht & Hp).
    apply starts_with_spec in Hp as [u ->]. rewrite length_app.
    repeat (destruct Ht as [<-|Ht]; [simpl; lia|]). done.
  - destruct rest; [discriminate|]. case_bool_decide; [|discriminate].
    intros [= <-]. simpl. lia.
Qed.

Lemma match_exponent_le s : match_exponent s <= length s.
Proof.
  unfold match_exponent. destruct s as [|c r]; simpl; [lia|].
  destruct (_ || _)%N; [|lia]. destruct r as [|g r']; simpl.
  - lia.
  - destruct ((g =? 43) || (g =? 45))%N;
      [pose proof (take_while_length is_digit r') | pose proof (take_while_length is_digit (g :: r'))];
      simpl in *; case_bool_decide; lia.
Qed.

Lemma while_length {A} p (l : list A) :
  length (take_while p l) + length (drop_while p l) = length l.
Proof. rewrite <- length_app. by rewrite take_drop_while. Qed.

Lemma match_number_le s n : match_number s = Some n -> 0 < n <= length s.
Proof.
  intros H. split; [by eapply match_number_length|]. revert H. unfold match_number.
  pose proof (while_length is_digit s) as Hs.
  destruct (drop_while is_digit s) as [|c r] eqn:Er; simpl in Hs;
    case_bool_decide; try discriminate.
  - intros [= <-]. lia.
  - pose proof (while_length is_digit r). pose proof (match_exponent_le (drop_while is_digit r)).
    destruct (_ && _); [|discriminate]. intros [= <-]. lia.
  - pose proof (while_length is_digit r). pose proof (match_exponent_le (drop_while is_digit r)).
    pose proof (match_exponent_le (c :: r)). simpl in *.
    destruct (c =? 46)%N; intros [= <-]; lia.
Qed.

(** A lexeme found at a cursor lies between it and the end of the source, and is
    empty only at the end. *)
Record lexeme_at (source : str) (cursor : nat) (lx : lexeme) : Prop := {
  la_start : cursor <= lx_start lx;
  la_order : lx_start lx <= lx_stop lx;
  la_stop : lx_stop lx <= length source;
  la_nonempty : lx_kind lx <> K_end -> lx_start lx < lx_stop lx;
  la_end : lx_kind lx = K_end -> lx_text lx = [];
}.

Lemma next_spec source cursor :
  cursor <= length source ->
  match next source cursor with
  | Ok (lx, cursor') => cursor' = lx_stop lx /\ lexeme_at source cursor lx
  | Throw e => e <> OutOfFuel
  end.
Proof.
  intros Hc. unfold next.
  set (start := cursor + length (take_while is_space (drop cursor source))).
  assert (Hstart : cursor <= start <= length source).
  { unfold start. pose proof (take_while_length is_space (drop cursor source)) as H.
    rewrite length_drop in H. lia. }
  clearbody start. pose proof (length_drop source start) as Hlen.
  destruct (drop start source) as [|c r] eqn:Hr.
  { split; [done|]. split; simpl; auto; lia || done. }
  rewrite <- Hr in *. destruct (match_number (drop start source)) as [n|] eqn:Hn.
  - apply match_number_le in Hn. repeat (dmatch; try discriminate).
    split; [done|]. split; simpl; try lia; done.
  - destruct (_ || _)%N.
    + destruct (read_string _ _ _ _ _ _) as [[v stop]|e] eqn:Hs; simpl.
      * apply read_string_bounds in Hs. split; [done|]. split; simpl; try lia; done.
      * intros ->. eapply read_string_fuel; [|exact Hs]. lia.
    + destruct (is_name_start c) eqn:Hname.
      * assert (length (take_while is_word (drop start source)) <= length (drop start source))
          by apply take_while_length.
        assert (0 < length (take_while is_word (drop start source))).
        { rewrite Hr. simpl. unfold is_word. rewrite Hname. simpl. lia. }
        split; [done|]. split; simpl; try lia; done.
      * destruct (match_operator _) as [n|] eqn:Ho; [|discriminate].
        apply match_operator_pos in Ho. split; [done|]. split; simpl; try lia; done.
Qed.

(** * Specifications of parser steps *)

(** The outcome satisfies [Q] or is an error other than fuel exhaustion. *)
Definition psafe {A} (r : result exn (A * pstate)) (Q : A -> pstate -> Prop) : Prop :=
  match r with
  | Ok (a, st) => Q a st
  | Throw e => e <> OutOfFuel
  end.

Lemma psafe_bind {A B} (m : PM A) (k : A -> PM B) st Q1 Q :
  psafe (m st) Q1 ->
  (forall a st', Q1 a st' -> psafe (k a st') Q) ->
  psafe ((m ≫= k) st) Q.
Proof.
  unfold psafe at 1, mbind, stM_bind. destruct (m st) as [[a st']|e]; intros H1 H2; [auto|done].
Qed.

Lemma psafe_mono {A} (r : result exn (A * pstate)) Q1 Q :
  psafe r Q1 -> (forall a st, Q1 a st -> Q a st) -> psafe r Q.
Proof. destruct r as [[a st]|e]; simpl; auto. Qed.

(** * Span nesting *)

(** The spans of a list of siblings follow each other inside [lo, hi]. *)
Fixpoint spans_ordered (lo : nat) (l : list node) (hi : nat) : Prop :=
  match l with
  | [] => lo <= hi
  | x :: l' => lo <= node_start x /\ spans_ordered (node_stop x) l' hi
  end.

(** A unary node or a call has its own token before its children. *)
Definition first_child_bound (n : node) : nat :=
  match n with
  | NUnary _ _ a _ | NCall _ _ a _ => S a
  | _ => node_start n
  end.

Definition arity_ok (n : node) : Prop :=
  match n with
  | NCall f args _ _ => length args = BILLING_FUNCTIONS f
  | _ => True
  end.

#[local] Unset Elimination Schemes.
Inductive wf_node (n : node) : Prop :=
| wf_node_intro :
    node_start n < node_stop n ->
    spans_ordered (first_child_bound n) (children n) (node_stop n) ->
    arity_ok n ->
    Forall wf_node (children n) ->
    wf_node n.
#[local] Set Elimination Schemes.

Lemma spans_ordered_widen lo lo' l hi hi' :
  lo' <= lo -> hi <= hi' -> spans_ordered lo l hi -> spans_ordered lo' l hi'.
Proof.
  revert lo lo'. induction l as [|x l IH]; intros lo lo' H1 H2; simpl; [lia|].
  intros [H3 H4]. split; [lia|]. eapply IH; [..|exact H4]; lia.
Qed.

Lemma spans_ordered_app lo l x mid hi :
  spans_ordered lo l mid -> mid <= node_start x -> node_stop x <= hi ->
  spans_ordered lo (l ++ [x]) hi.
Proof.
  revert lo. induction l as [|y l IH]; intros lo; simpl.
  - intros. split; lia.
  - intros [H1 H2] H3 H4. split; [done|]. auto.
Qed.

Lemma wf_with_span n a b :
  wf_node n -> a <= node_start n -> node_stop n <= b -> wf_node (with_span n a b).
Proof.
  intros [H1 H2 H3 H4] Ha Hb.
  assert (first_child_bound (with_span n a b) <= first_child_bound n) by (destruct n; simpl in *; lia).
  assert (children (with_span n a b) = children n) as Hc by (by destruct n).
  assert (node_start (with_span n a b) = a /\ node_stop (with_span n a b) = b) as [Hs He]
    by (by destruct n).
  split; rewrite ?Hc, ?Hs, ?He; [lia | by eapply spans_ordered_widen; [..|exact H2] | by destruct n | done].
Qed.

Lemma wf_span n : wf_node n -> node_start n < node_stop n.
Proof. by intros []. Qed.

Lemma wf_leaf n a b :
  children n = [] -> arity_ok n -> node_start n = a -> node_stop n = b -> a < b ->
  first_child_bound n <= b -> wf_node n.
Proof. intros Hc Ha <- <- Hab Hf. split; rewrite ?Hc; simpl; auto. Qed.

(** * Total correctness of the parser *)

Section parser_spec.
Variable source : str.

(** The look-ahead token was read up to the cursor. *)
Definition pwf (st : pstate) : Prop :=
  ps_cursor st = lx_stop (ps_current st) /\ lexeme_at source 0 (ps_current st).

(** Bound on the tokens still to be consumed. *)
Definition tokens_left (st : pstate) : nat :=
  length source - ps_cursor st +
  match lx_kind (ps_current st) with K_end => 0 | _ => 1 end.

(** [st'] is a later state, whose look-ahead token starts at or after [pos]. *)
Record advanced (st st' : pstate) (pos : nat) : Prop := {
  adv_pwf : pwf st';
  adv_left : tokens_left st' <= tokens_left st;
  adv_pos : pos <= lx_start (ps_current st');
}.

Lemma lexeme_at_0 cursor lx : lexeme_at source cursor lx -> lexeme_at source 0 lx.
Proof. intros []; split; auto; lia. Qed.

Lemma text_not_end lx text :
  lexeme_at source 0 lx -> lx_text lx = text -> text <> [] -> lx_kind lx <> K_end.
Proof. intros [] <- Ht Hk. auto. Qed.

Lemma take_token_spec st :
  pwf st ->
  psafe (take_token source st) (fun tk st' =>
    tk = ps_current st /\ advanced st st' (lx_stop tk) /\
    (lx_kind tk <> K_end -> tokens_left st' < tokens_left st)).
Proof.
  intros [Hcur Hlx]. unfold take_token, counted_next.
  destruct (max_tokens <? _)%Z; [done|].
  pose proof (next_spec source (ps_cursor st)) as Hn.
  destruct (next source (ps_cursor st)) as [[lx c]|e]; simpl.
  - destruct Hn as [-> Hat]; [rewrite Hcur; apply Hlx|].
    pose proof (lexeme_at_0 _ _ Hat) as Hat0. destruct Hat as [Hs Ho He Hne Hend].
    assert (tokens_left (PState (lx_stop lx) (ps_count st + 1) (ps_depth st) lx) <=
            length source - ps_cursor st) as Hle.
    { unfold tokens_left. simpl. destruct (lx_kind lx); simpl; try lia;
        (assert (lx_start lx < lx_stop lx) by (apply Hne; discriminate)); lia. }
    split; [done|]. split; [split|]; simpl.
    + split; [done|]. exact Hat0.
    + unfold tokens_left at 2. lia.
    + lia.
    + intros Hk. unfold tokens_left at 2. destruct (lx_kind (ps_current st)); try done; lia.
  - apply Hn. rewrite Hcur. apply Hlx.
Qed.

Lemma expect_spec st text :
  pwf st -> text <> [] ->
  psafe (expect source text st) (fun tk st' =>
    tk = ps_current st /\ lx_kind tk <> K_end /\ advanced st st' (lx_stop tk) /\
    tokens_left st' < tokens_left st).
Proof.
  intros Hwf Ht. unfold expect, current, gets, mbind, stM_bind.
  case_bool_decide as Heq; [done|].
  eapply psafe_mono; [by apply take_token_spec|]. simpl.
  intros tk st' (-> & Hadv & Hlt).
  assert (lx_kind (ps_current st) <> K_end) by (eapply text_not_end; [apply Hwf|..]; done).
  auto.
Qed.

(** A parsed node: well formed, from the look-ahead token of [st] up to the
    look-ahead token of [st']. *)
Definition parsed (st : pstate) (start : nat) (n : node) (st' : pstate) : Prop :=
  wf_node n /\ node_start n = start /\ advanced st st' (node_stop n).

Definition expression_ok (fuel : nat) : Prop := forall minimum st,
  pwf st -> 3 * tokens_left st + 2 <= fuel ->
  psafe (expression source fuel minimum st) (fun n st' =>
    parsed st (lx_start (ps_current st)) n st' /\ tokens_left st' < tokens_left st).
Definition primary_ok (fuel : nat) : Prop := forall st,
  pwf st -> 3 * tokens_left st + 1 <= fuel ->
  psafe (primary source fuel st) (fun n st' =>
    parsed st (lx_start (ps_current st)) n st' /\ tokens_left st' < tokens_left st).
Definition binary_loop_ok (fuel : nat) : Prop := forall minimum left st,
  pwf st -> 3 * tokens_left st + 1 <= fuel ->
  wf_node left -> node_stop left <= lx_start (ps_current st) ->
  psafe (binary_loop source fuel minimum left st) (parsed st (node_start left)).
Definition args_loop_ok (fuel : nat) : Prop := forall lo args st,
  pwf st -> 3 * tokens_left st + 3 <= fuel ->
  Forall wf_node args -> spans_ordered lo args (lx_start (ps_current st)) ->
  psafe (args_loop source fuel args st) (fun args' st' =>
    Forall wf_node args' /\ spans_ordered lo args' (lx_start (ps_current st')) /\
    advanced st st' 0).
End parser_spec.

Lemma advanced_trans source st1 st2 st3 p q :
  advanced source st1 st2 p -> advanced source st2 st3 q -> advanced source st1 st3 q.
Proof. intros [] []. split; auto; lia || congruence. Qed.

Lemma pwf_self source st : pwf source st -> advanced source st st (lx_start (ps_current st)).
Proof. intros H. split; auto. Qed.

Section parser_induction.
Variables (source : str) (f : nat).
Hypothesis IHe : expression_ok source f.
Hypothesis IHp : primary_ok source f.
Hypothesis IHb : binary_loop_ok source f.
Hypothesis IHa : args_loop_ok source f.


Lemma expression_step : expression_ok source (S f).
Proof.
  intros minimum st Hwf Hf. simpl.
  eapply psafe_bind with (Q1 := fun _ st1 => pwf source st1 /\
    ps_current st1 = ps_current st /\ tokens_left source st1 = tokens_left source st).
  { unfold enter. destruct (_ <? _)%Z; [done|]. simpl. done. }
  intros _ st1 (Hwf1 & Hcur1 & Hleft1).
  eapply psafe_bind; [apply IHp; [done|lia]|]. rewrite Hcur1.
  intros left st2 [(Hl & Hls & Ha2) Hlt2].
  eapply psafe_bind; [apply IHb; [apply Ha2 | lia | done | apply Ha2]|].
  intros left' st3 (Hl' & Hls' & Ha3).
  eapply psafe_bind with (Q1 := fun cur st4 => st4 = st3 /\ cur = ps_current st3); [done|].
  intros cur ? [-> ->].
  eapply psafe_bind with (Q1 := fun n st5 => wf_node n /\ node_start n = lx_start (ps_current st) /\
    advanced source st3 st5 (node_stop n)).
  - destruct (_ && _) eqn:Eq; [|split; [done|split; [congruence | split; [apply Ha3 | lia | apply Ha3]]]].
    apply andb_true_iff in Eq as [_ Eq]. apply bool_decide_eq_true in Eq.
    eapply psafe_bind; [apply take_token_spec, Ha3|].
    intros tk st4 (-> & Ha4 & Hlt4).
    assert (lx_kind (ps_current st3) <> K_end) as Hk
      by (eapply text_not_end; [apply Ha3 | exact Eq | done]). specialize (Hlt4 Hk).
    pose proof (adv_left _ _ _ _ Ha2). pose proof (adv_left _ _ _ _ Ha3).
    eapply psafe_bind; [apply IHe; [apply Ha4|lia]|].
    intros yes st5 [(Hy & Hys & Ha5) Hlt5].
    eapply psafe_bind; [apply expect_spec; [apply Ha5|done]|].
    intros colon st6 (-> & _ & Ha6 & Hlt6).
    eapply psafe_bind; [apply IHe; [apply Ha6|lia]|].
    intros no st7 [(Hn & Hns & Ha7) Hlt7]. simpl.
    split; [|split; [congruence|]].
    + pose proof (wf_span _ Hl'). pose proof (wf_span _ Hy). pose proof (wf_span _ Hn).
      pose proof (adv_pos _ _ _ _ Ha3). pose proof (adv_pos _ _ _ _ Ha4).
      pose proof (adv_pos _ _ _ _ Ha5). pose proof (adv_pos _ _ _ _ Ha6).
      pose proof (la_order _ _ _ (proj2 (adv_pwf _ _ _ _ Ha3))).
      pose proof (la_order _ _ _ (proj2 (adv_pwf _ _ _ _ Ha5))).
      split; simpl; [lia | repeat split; lia | done | auto using List.Forall_cons, List.Forall_nil].
    + split; [apply Ha7 | lia | apply Ha7].
  - intros n st5 (Hn & Hns & Ha5). simpl. unfold modify.
    pose proof (adv_left _ _ _ _ Ha3). pose proof (adv_left _ _ _ _ Ha5).
    split; [split; [done|split; [done|]]|].
    + destruct Ha5 as [Hp Hq Hr]. split; [exact Hp | unfold tokens_left in *; simpl in *; lia | exact Hr].
    + unfold tokens_left in *; simpl in *; lia.
Qed.

Lemma binary_loop_step : binary_loop_ok source (S f).
Proof.
  intros minimum left st Hwf Hf Hl Hls. simpl. unfold current.
  eapply psafe_bind with (Q1 := fun cur st4 => st4 = st /\ cur = ps_current st); [done|].
  intros cur ? [-> ->].
  assert (parsed source st (node_start left) left st) as Hstop
    by (split; [done|split; [done|split; [done | lia | done]]]).
  destruct (find_operator _) as [o|] eqn:Ho; [|exact Hstop].
  destruct (_ <=? _)%Z; [|exact Hstop]. clear Hstop.
  apply List.find_some in Ho as [_ Ho]. apply bool_decide_eq_true in Ho.
  eapply psafe_bind; [by apply take_token_spec|].
  intros tk st1 (-> & Ha1 & Hlt1).
  assert (lx_kind (ps_current st) <> K_end) as Hk
    by (eapply text_not_end; [apply Hwf | symmetry; exact Ho | by destruct o]).
  specialize (Hlt1 Hk).
  eapply psafe_bind; [apply IHe; [apply Ha1|lia]|].
  intros right st2 [(Hr & Hrs & Ha2) Hlt2].
  pose proof (wf_span _ Hl). pose proof (wf_span _ Hr).
  pose proof (adv_pos _ _ _ _ Ha1). pose proof (la_order _ _ _ (proj2 Hwf)).
  eapply psafe_mono; [apply IHb; [apply Ha2 | lia | | apply Ha2]|].
  - split; simpl; [lia | repeat split; lia | done | auto using List.Forall_cons, List.Forall_nil].
  - intros n st3 (Hn & Hns & Ha3). split; [done|]. split; [done|].
    eapply advanced_trans; [|exact Ha3]. eapply advanced_trans; [exact Ha1 | exact Ha2].
Qed.

Lemma args_loop_step : args_loop_ok source (S f).
Proof.
  intros lo args st Hwf Hf Hargs Hord. simpl. unfold is_text.
  eapply psafe_bind with (Q1 := fun _ st4 => st4 = st); [done|].
  intros closed ? ->. destruct closed.
  { split; [done|]. split; [done|]. split; [done | lia | lia]. }
  eapply psafe_bind; [apply IHe; [done|lia]|].
  intros arg st1 [(Harg & Hargs1 & Ha1) Hlt1].
  assert (Forall wf_node (args ++ [arg])) as Hall by (apply Forall_app; auto).
  assert (forall hi, node_stop arg <= hi -> spans_ordered lo (args ++ [arg]) hi) as Hord1
    by (intros; eapply spans_ordered_app; [exact Hord | lia | lia]).
  eapply psafe_bind with (Q1 := fun _ st4 => st4 = st1); [done|].
  intros comma ? ->. destruct comma.
  - eapply psafe_bind; [apply take_token_spec, Ha1|].
    intros tk st2 (-> & Ha2 & _).
    pose proof (adv_pos _ _ _ _ Ha1). pose proof (adv_pos _ _ _ _ Ha2).
    pose proof (la_order _ _ _ (proj2 (adv_pwf _ _ _ _ Ha1))).
    pose proof (adv_left _ _ _ _ Ha2).
    eapply psafe_mono; [apply (IHa lo); [apply Ha2 | lia | done | apply Hord1; lia]|].
    intros args' st3 (Hw3 & Ho3 & Ha3). split; [done|]. split; [done|].
    eapply advanced_trans; [|exact Ha3]. eapply advanced_trans; [exact Ha1 | exact Ha2].
  - split; [done|]. split; [apply Hord1, Ha1|]. destruct Ha1. split; auto; lia.
Qed.

(** A node made of the token just taken. *)
Lemma token_node st st1 n :
  advanced source st st1 (lx_stop (ps_current st)) ->
  lexeme_at source 0 (ps_current st) ->
  lx_kind (ps_current st) <> K_end ->
  children n = [] -> arity_ok n -> first_child_bound n = node_start n ->
  node_start n = lx_start (ps_current st) -> node_stop n = lx_stop (ps_current st) ->
  parsed source st (lx_start (ps_current st)) n st1.
Proof.
  intros Ha Hlx Hk Hc Har Hf Hs He.
  pose proof (la_nonempty _ _ _ Hlx Hk).
  split; [|split; [done|by rewrite He]].
  split; rewrite ?Hc; simpl; auto; lia.
Qed.

Lemma primary_parens st st1 :
  pwf source st1 -> advanced source st st1 (lx_stop (ps_current st)) ->
  lexeme_at source 0 (ps_current st) ->
  tokens_left source st1 < tokens_left source st -> 3 * tokens_left source st <= f ->
  psafe ((inner ← expression source f 0;
          close ← expect source (js ")");
          mret (with_span inner (lx_start (ps_current st)) (lx_stop close))) st1)
    (fun n st' => parsed source st (lx_start (ps_current st)) n st' /\
                  tokens_left source st' < tokens_left source st).
Proof.
  intros Hwf1 Ha1 Hlx Hlt1 Hf.
  eapply psafe_bind; [apply IHe; [done|lia]|].
  intros inner st2 [(Hin & His & Ha2) Hlt2].
  eapply psafe_bind; [apply expect_spec; [apply Ha2|done]|].
  intros close st3 (-> & _ & Ha3 & Hlt3). simpl.
  pose proof (adv_pos _ _ _ _ Ha1). pose proof (adv_pos _ _ _ _ Ha2).
  pose proof (la_order _ _ _ Hlx).
  pose proof (la_order _ _ _ (proj2 (adv_pwf _ _ _ _ Ha2))).
  split; [|lia]. split; [apply wf_with_span; [done | lia | lia]|].
  split; [by destruct inner|]. replace (node_stop _) with (lx_stop (ps_current st2)) by (by destruct inner).
  eapply advanced_trans; [|exact Ha3]. eapply advanced_trans; eauto.
Qed.

Lemma primary_unary st st1 o :
  pwf source st1 -> advanced source st st1 (lx_stop (ps_current st)) ->
  lexeme_at source 0 (ps_current st) -> lx_kind (ps_current st) <> K_end ->
  tokens_left source st1 < tokens_left source st -> 3 * tokens_left source st <= f ->
  psafe ((operand ← expression source f 7;
          mret (NUnary o operand (lx_start (ps_current st)) (node_stop operand))) st1)
    (fun n st' => parsed source st (lx_start (ps_current st)) n st' /\
                  tokens_left source st' < tokens_left source st).
Proof.
  intros Hwf1 Ha1 Hlx Hk Hlt1 Hf.
  eapply psafe_bind; [apply IHe; [done|lia]|].
  intros operand st2 [(Hop & Hos & Ha2) Hlt2]. simpl.
  pose proof (adv_pos _ _ _ _ Ha1). pose proof (la_nonempty _ _ _ Hlx Hk).
  pose proof (wf_span _ Hop).
  split; [|lia]. split; [|split; [done|]; eapply advanced_trans; eauto].
  split; simpl; [lia | split; lia | done | auto using List.Forall_cons, List.Forall_nil].
Qed.

Lemma primary_call st st1 fn text start :
  pwf source st1 -> advanced source st st1 (lx_stop (ps_current st)) ->
  lexeme_at source 0 (ps_current st) -> lx_kind (ps_current st) <> K_end ->
  tokens_left source st1 < tokens_left source st -> 3 * tokens_left source st <= f ->
  lx_text (ps_current st1) = js "(" -> start = lx_start (ps_current st) ->
  psafe ((_ ← take_token source;
          args ← args_loop source f [];
          close ← expect source (js ")");
          if bool_decide (length args <> BILLING_FUNCTIONS fn)
          then throw (err_at C_type text start)
          else mret (NCall fn args start (lx_stop close))) st1)
    (fun n st' => parsed source st (lx_start (ps_current st)) n st' /\
                  tokens_left source st' < tokens_left source st).
Proof.
  intros Hwf1 Ha1 Hlx Hk Hlt1 Hf Hopen ->.
  eapply psafe_bind; [by apply take_token_spec|].
  intros tk st2 (-> & Ha2 & Hlt2).
  assert (lx_kind (ps_current st1) <> K_end) as Hk1
    by (eapply text_not_end; [apply Hwf1 | exact Hopen | done]). specialize (Hlt2 Hk1).
  pose proof (adv_pos _ _ _ _ Ha1). pose proof (adv_pos _ _ _ _ Ha2).
  pose proof (la_nonempty _ _ _ Hlx Hk). pose proof (la_order _ _ _ (proj2 Hwf1)).
  eapply psafe_bind; [apply (IHa (S (lx_start (ps_current st))));
    [apply Ha2 | lia | constructor | simpl; lia]|].
  intros args st3 (Hw3 & Ho3 & Ha3).
  eapply psafe_bind; [apply expect_spec; [apply Ha3|done]|].
  intros close st4 (-> & Hk4 & Ha4 & Hlt4).
  pose proof (adv_left _ _ _ _ Ha3).
  case_bool_decide as Hlen; [done|]. simpl.
  pose proof (la_order _ _ _ (proj2 (adv_pwf _ _ _ _ Ha3))) as Ho.
  assert (spans_ordered (S (lx_start (ps_current st))) args (lx_stop (ps_current st3))) as Hord
    by (eapply spans_ordered_widen; [..|exact Ho3]; lia).
  assert (S (lx_start (ps_current st)) <= lx_stop (ps_current st3)) as Hle.
  { clear -Hord Hw3. revert Hord. generalize (S (lx_start (ps_current st))) as lo.
    induction Hw3 as [|x l Hx Hw IH]; simpl; [done|].
    intros lo [? ?]. pose proof (wf_span _ Hx). pose proof (IH _ H0). lia. }
  split; [|lia]. split; [split; simpl; [lia | done | lia | done]|].
  split; [done|]. eapply advanced_trans; [|exact Ha4]. eapply advanced_trans; [|exact Ha3].
  eapply advanced_trans; eauto.
Qed.

Lemma primary_step : primary_ok source (S f).
Proof.
  intros st Hwf Hf. simpl.
  eapply psafe_bind; [by apply take_token_spec|].
  intros tk st1 (-> & Ha1 & Hlt1). pose proof (proj2 Hwf) as Hlx.
  assert (lx_kind (ps_current st) = K_end -> lx_text (ps_current st) = []) as Hend by apply Hlx.
  destruct (lx_kind (ps_current st)) as [v i|v| | |] eqn:Hk.
  1, 2: split; [|apply Hlt1; discriminate];
    apply token_node; [done | done | rewrite Hk; discriminate | done..].
  - case_bool_decide; [apply primary_parens; [apply Ha1 | done | done | apply Hlt1; discriminate | lia]|].
    destruct (unary_of_text _) as [o|]; [|done].
    apply primary_unary; [apply Ha1 | done | done | rewrite Hk; discriminate | apply Hlt1; discriminate | lia].
  - case_bool_decide; [apply primary_parens; [apply Ha1 | done | done | apply Hlt1; discriminate | lia]|].
    destruct (unary_of_text _) as [o|].
    { apply primary_unary; [apply Ha1 | done | done | rewrite Hk; discriminate | apply Hlt1; discriminate | lia]. }
    assert (lx_kind (ps_current st) <> K_end) as Hk' by (rewrite Hk; discriminate).
    specialize (Hlt1 ltac:(discriminate)).
    assert (forall n, children n = [] -> arity_ok n -> first_child_bound n = node_start n ->
      node_start n = lx_start (ps_current st) -> node_stop n = lx_stop (ps_current st) ->
      parsed source st (lx_start (ps_current st)) n st1 /\
      tokens_left source st1 < tokens_left source st) as Hleaf
      by (intros; split; [by apply token_node | done]).
    case_bool_decide; [by apply Hleaf|]. destruct (_ || _); [by apply Hleaf|].
    eapply psafe_bind with (Q1 := fun cur st4 => st4 = st1 /\ cur = ps_current st1); [done|].
    intros cur ? [-> ->]. case_bool_decide as Hopen.
    + destruct (find_variable _); [by apply Hleaf | done].
    + destruct (find_function _) as [fn|]; [|done].
      apply primary_call; [apply Ha1 | done | done | done | lia | lia | done | done].
  - rewrite (Hend eq_refl). case_bool_decide; [done|].
    unfold unary_of_text. by repeat case_bool_decide.
Qed.
End parser_induction.

Lemma parser_ok source fuel :
  expression_ok source fuel /\ primary_ok source fuel /\
  binary_loop_ok source fuel /\ args_loop_ok source fuel.
Proof.
  induction fuel as [|f (He & Hp & Hb & Ha)].
  - repeat split; intros ?; intros; lia.
  - auto using expression_step, primary_step, binary_loop_step, args_loop_step.
Qed.

(** The constructor leaves the parser in a well-formed state. *)
Lemma new_parser_spec source :
  match new_parser source with
  | Ok st => pwf source st /\ tokens_left source st <= S (length source)
  | Throw e => e <> OutOfFuel
  end.
Proof.
  unfold new_parser. destruct (_ <? _)%Z; [done|].
  assert (forall n, n <= length source ->
    match ('(current, cursor') ← counted_next source n 0; Ok (PState cursor' 1 0 current))
    with
    | Ok st => pwf source st /\ tokens_left source st <= S (length source)
    | Throw e => e <> OutOfFuel
    end) as Hs.
  { intros n Hn. unfold counted_next. destruct (_ <? _)%Z; [done|].
    pose proof (next_spec source n Hn) as H. destruct (next source n) as [[lx c]|e]; simpl; [|done].
    destruct H as [-> Hat]. split; [split; [done|by eapply lexeme_at_0]|].
    unfold tokens_left. simpl. destruct (lx_kind lx); lia. }
  destruct (match_version source) as [[n v]|] eqn:Hv; [|apply Hs; lia].
  case_bool_decide; [done|]. apply Hs.
  revert Hv. unfold match_version. set (sp := length (take_while is_space source)).
  pose proof (take_while_length is_space source). pose proof (length_drop source sp) as Hd.
  destruct (drop sp source) as [|v' r] eqn:Er; [discriminate|]. simpl in Hd.
  pose proof (while_length is_digit r) as Hw.
  destruct (drop_while is_digit r) as [|colon r']; [discriminate|].
  destruct (_ && _); [|discriminate]. intros [= <- <-]. simpl in *. unfold sp in *. lia.
Qed.

(** Parsing a source ends with a well-formed tree or a reported error. *)
Lemma parse_source_spec source :
  match parse_source source with
  | Ok n => wf_node n
  | Throw e => e <> OutOfFuel
  end.
Proof.
  unfold parse_source. pose proof (new_parser_spec source) as Hn.
  destruct (new_parser source) as [st|e]; simpl; [|done]. destruct Hn as [Hwf Hleft].
  assert (psafe (parse_with source (parse_fuel source) st) (fun n _ => wf_node n)) as H.
  { unfold parse_with. eapply psafe_bind.
    - apply (proj1 (parser_ok source (parse_fuel source))); [done|]. unfold parse_fuel. lia.
    - intros n st1 [(Hn & _) _]. unfold current, gets, mbind, stM_bind.
      by destruct (lx_kind (ps_current st1)). }
  destruct (parse_with _ _ _) as [[n st']|e]; simpl in *; done.
Qed.

(** * Node identity

    The compiler and the runtime compare nodes by reference
    ([rule.node === node], the key of the [types] map).  In a well-formed tree no
    two nodes have the same span, so comparing contents is comparing references. *)

Definition span (n : node) : nat * nat := (node_start n, node_stop n).

Lemma wf_node_inv n :
  wf_node n ->
  node_start n < node_stop n /\
  spans_ordered (first_child_bound n) (children n) (node_stop n) /\
  arity_ok n /\ Forall wf_node (children n).
Proof. intros []; auto. Qed.

Lemma first_child_bound_le n : node_start n <= first_child_bound n.
Proof. destruct n; simpl; lia. Qed.

Lemma spans_inside_list l lo hi :
  Forall (fun n => forall x, x ∈ postorder n -> node_start n <= node_start x < node_stop x /\ node_stop x <= node_stop n) l ->
  Forall wf_node l -> spans_ordered lo l hi ->
  forall x, x ∈ concat (map postorder l) ->
  lo <= node_start x < node_stop x /\ node_stop x <= hi.
Proof.
  intros Hin Hwf. revert lo Hin. induction Hwf as [|n l Hn Hwf IH]; intros lo Hin Hord x Hx; simpl in *.
  - by apply not_elem_of_nil in Hx.
  - apply List.Forall_cons_iff in Hin as [Hin1 Hin2]. destruct Hord as [Hlo Hord].
    apply elem_of_app in Hx as [Hx|Hx].
    + specialize (Hin1 x Hx). split; [lia|].
      assert (node_stop n <= hi); [|lia]. clear -Hord Hwf.
      revert Hord. generalize (node_stop n). induction Hwf as [|m l Hm Hwf IH]; simpl; [done|].
      intros k [H1 H2]. pose proof (wf_span _ Hm). pose proof (IH _ H2). lia.
    + specialize (IH _ Hin2 Hord x Hx). pose proof (wf_span _ Hn). lia.
Qed.

(** Every node below a node lies inside its span. *)
Lemma spans_inside n :
  wf_node n -> forall x, x ∈ postorder n ->
  node_start n <= node_start x < node_stop x /\ node_stop x <= node_stop n.
Proof.
  induction n as [n IH] using node_children_ind. intros Hwf x Hx.
  apply wf_node_inv in Hwf as (Hs & Hord & Har & Hch).
  rewrite postorder_unfold in Hx. apply elem_of_app in Hx as [Hx|Hx].
  - pose proof (first_child_bound_le n).
    assert (Forall (fun n => forall x, x ∈ postorder n ->
      node_start n <= node_start x < node_stop x /\ node_stop x <= node_stop n) (children n)) as Hin.
    { apply Forall_forall. intros m Hm. apply IH; [done|]. rewrite Forall_forall in Hch. auto. }
    pose proof (spans_inside_list _ _ _ Hin Hch Hord x Hx). lia.
  - apply list_elem_of_singleton in Hx as ->. lia.
Qed.

Lemma wf_children_inside l :
  Forall wf_node l ->
  Forall (fun n => forall x, x ∈ postorder n ->
    node_start n <= node_start x < node_stop x /\ node_stop x <= node_stop n) l.
Proof. intros H. eapply Forall_impl; [exact H|]. intros. by apply spans_inside. Qed.

(** A proper descendant has a smaller span. *)
Lemma span_proper n x :
  wf_node n -> x ∈ concat (map postorder (children n)) -> span x <> span n.
Proof.
  intros Hwf Hx [= Hstart Hstop]. apply wf_node_inv in Hwf as (Hs & Hord & Har & Hch).
  pose proof (spans_inside_list _ _ _ (wf_children_inside _ Hch) Hch Hord x Hx) as Hall.
  destruct n as [| |f args a b|o y a b|o y z a b|c y z a b]; simpl in *; try lia;
    try (by apply not_elem_of_nil in Hx).
  - apply List.Forall_cons_iff in Hch as [Hy Hch]. apply List.Forall_cons_iff in Hch as [Hz _].
    pose proof (wf_span _ Hy). pose proof (wf_span _ Hz).
    rewrite app_nil_r in Hx. apply elem_of_app in Hx as [Hx|Hx];
      [pose proof (spans_inside _ Hy _ Hx) | pose proof (spans_inside _ Hz _ Hx)]; lia.
  - apply List.Forall_cons_iff in Hch as [Hc Hch]. apply List.Forall_cons_iff in Hch as [Hy Hch].
    apply List.Forall_cons_iff in Hch as [Hz _].
    pose proof (wf_span _ Hc). pose proof (wf_span _ Hy). pose proof (wf_span _ Hz).
    rewrite app_nil_r, !elem_of_app in Hx. destruct Hx as [Hx|[Hx|Hx]];
      [pose proof (spans_inside _ Hc _ Hx) | pose proof (spans_inside _ Hy _ Hx)
      | pose proof (spans_inside _ Hz _ Hx)]; lia.
Qed.

Lemma spans_nodup_list l lo hi :
  Forall (fun n => NoDup (map span (postorder n))) l ->
  Forall wf_node l -> spans_ordered lo l hi ->
  NoDup (map span (concat (map postorder l))).
Proof.
  intros Hnd Hwf. revert lo Hnd. induction Hwf as [|n l Hn Hwf IH]; intros lo Hnd Hord; simpl.
  - constructor.
  - apply List.Forall_cons_iff in Hnd as [H1 H2]. destruct Hord as [Hlo Hord].
    rewrite map_app. apply NoDup_app. split; [done|]. split; [|by eapply IH].
    intros s Hs Hs'. apply list_elem_of_fmap in Hs as (x & -> & Hx).
    apply list_elem_of_fmap in Hs' as (y & Heq & Hy).
    pose proof (spans_inside _ Hn _ Hx).
    pose proof (spans_inside_list _ _ _ (wf_children_inside _ Hwf) Hwf Hord _ Hy).
    injection Heq as ? ?. lia.
Qed.

Lemma spans_nodup n : wf_node n -> NoDup (map span (postorder n)).
Proof.
  induction n as [n IH] using node_children_ind. intros Hwf.
  pose proof (wf_node_inv _ Hwf) as (_ & Hord & _ & Hch).
  rewrite postorder_unfold, map_app. apply NoDup_app. split; [|split].
  - eapply spans_nodup_list; [|exact Hch|exact Hord].
    apply Forall_forall. intros m Hm. rewrite Forall_forall in Hch. auto.
  - intros s Hs Hs'. apply list_elem_of_fmap in Hs as (x & -> & Hx).
    simpl in Hs'. apply list_elem_of_singleton in Hs'. by eapply span_proper.
  - apply NoDup_singleton.
Qed.
