(* ===== verification/BillingGrammar.v ===== *)
(** The grammar of billing expressions, stated on tokens without a parser: six
    levels of left-associative binary operators above the primaries, conditionals
    below them, and the nesting each production uses.  The precedence-climbing
    parser accepts exactly the sources whose tokens the grammar derives, and returns
    the derived tree. *)

From S2P Require Import Prelude JsString JsNumber JsValue BillingTypes BillingParser BillingParserFacts.

(** * The grammar *)

(** A token that is neither a number nor a string. *)
Definition plain (t : lexeme) (text : str) : Prop :=
  lx_text t = text /\ match lx_kind t with K_number _ _ | K_string _ => False | _ => True end.
Definition named (t : lexeme) (text : str) : Prop := lx_text t = text /\ lx_kind t = K_name.

(** [derives k d ts n]: the tokens [ts] are an expression whose binary operators
    outside brackets bind at least as tightly as [k], nested at most [d] deep, and
    [n] is its tree.  [derives_primary] and [derives_args] are the operands and the
    argument lists (a trailing comma is allowed). *)
Inductive derives : Z -> nat -> list lexeme -> node -> Prop :=
| D_primary k d ts n : derives_primary d ts n -> derives k (S d) ts n
| D_binary k d o op ts1 ts2 l r :
    (k <= PRECEDENCE o)%Z ->
    derives (PRECEDENCE o) (S d) ts1 l ->
    find_operator (lx_text op) = Some o ->
    derives (PRECEDENCE o + 1) d ts2 r ->
    derives k (S d) (ts1 ++ op :: ts2) (NBinary o l r (node_start l) (node_stop r))
| D_conditional d ts1 ts2 ts3 mark colon c yes no :
    derives 1 (S d) ts1 c ->
    lx_text mark = js "?" ->
    derives 0 d ts2 yes ->
    lx_text colon = js ":" ->
    derives 0 d ts3 no ->
    derives 0 (S d) (ts1 ++ mark :: ts2 ++ colon :: ts3)
      (NConditional c yes no (node_start c) (node_stop no))
with derives_primary : nat -> list lexeme -> node -> Prop :=
| P_number d t v i :
    lx_kind t = K_number v i ->
    derives_primary d [t] (NLiteral (LNumber v) i (lx_start t) (lx_stop t))
| P_string d t v :
    lx_kind t = K_string v ->
    derives_primary d [t] (NLiteral (LString v) false (lx_start t) (lx_stop t))
| P_parens d opening closing ts n :
    plain opening (js "(") ->
    derives 0 d ts n ->
    lx_text closing = js ")" ->
    derives_primary d (opening :: ts ++ [closing]) (with_span n (lx_start opening) (lx_stop closing))
| P_unary d t o ts n :
    plain t (lx_text t) ->
    unary_of_text (lx_text t) = Some o ->
    derives 7 d ts n ->
    derives_primary d (t :: ts) (NUnary o n (lx_start t) (node_stop n))
| P_nil d t :
    named t (js "nil") -> derives_primary d [t] (NLiteral LNull false (lx_start t) (lx_stop t))
| P_true d t :
    named t (js "true") -> derives_primary d [t] (NLiteral (LBoolean true) false (lx_start t) (lx_stop t))
| P_false d t :
    named t (js "false") -> derives_primary d [t] (NLiteral (LBoolean false) false (lx_start t) (lx_stop t))
| P_variable d t v :
    named t (lx_text t) -> find_variable (lx_text t) = Some v ->
    derives_primary d [t] (NVariable v (lx_start t) (lx_stop t))
| P_call d t opening closing fn ts args :
    named t (lx_text t) -> find_function (lx_text t) = Some fn ->
    lx_text opening = js "(" ->
    derives_args d ts args ->
    lx_text closing = js ")" ->
    length args = BILLING_FUNCTIONS fn ->
    derives_primary d (t :: opening :: ts ++ [closing]) (NCall fn args (lx_start t) (lx_stop closing))
with derives_args : nat -> list lexeme -> list node -> Prop :=
| A_none d : derives_args d [] []
| A_last d ts n : derives 0 d ts n -> derives_args d ts [n]
| A_more d ts comma ts' n args :
    derives 0 d ts n ->
    lx_text comma = js "," ->
    derives_args d ts' args ->
    derives_args d (ts ++ comma :: ts') (n :: args).

Scheme derives_mind := Minimality for derives Sort Prop
with primary_mind := Minimality for derives_primary Sort Prop
with args_mind := Minimality for derives_args Sort Prop.
Combined Scheme grammar_mind from derives_mind, primary_mind, args_mind.

(** The tokens from a cursor to the end of the source. *)
Inductive lexes (source : str) : nat -> list lexeme -> Prop :=
| lexes_end c t c' : next source c = Ok (t, c') -> lx_kind t = K_end -> lexes source c []
| lexes_token c t c' ts :
    next source c = Ok (t, c') -> lx_kind t <> K_end -> lexes source c' ts -> lexes source c (t :: ts).

(** Where the expression starts, after a version prefix; no version but 1 is known. *)
Definition body_start (source : str) : option nat :=
  match match_version source with
  | Some (n, version) => if bool_decide (version = js "1") then Some n else None
  | None => Some 0
  end.

Definition grammatical (source : str) (ast : node) : Prop :=
  (Z.of_nat (length source) <= max_source_length)%Z /\
  exists c ts, body_start source = Some c /\ lexes source c ts /\
    (Z.of_nat (length ts) < max_tokens)%Z /\ derives 0 (Z.to_nat max_parse_depth) ts ast.

(** * Shared facts *)

Lemma PRECEDENCE_bounds o : (1 <= PRECEDENCE o <= 6)%Z.
Proof. destruct o; simpl; lia. Qed.

Lemma derives_weaken k d ts n :
  derives k d ts n -> forall k', (0 <= k' <= k)%Z -> derives k' d ts n.
Proof.
  intros H. destruct H as [k d ts n H|k d o op ts1 ts2 l r Hk Hl Ho Hr|d ts1 ts2 ts3 mark colon c yes no Hc Hm Hy Hcol Hn];
    intros k' Hk'.
  - by apply D_primary.
  - eapply D_binary; eauto. lia.
  - replace k' with 0%Z by lia. by eapply D_conditional.
Qed.

(** Taking the tokens [ts] one after the other leads from one state to another. *)
Inductive reads (source : str) : pstate -> list lexeme -> pstate -> Prop :=
| reads_nil st : reads source st [] st
| reads_cons st t st1 ts st' :
    take_token source st = Ok (t, st1) -> reads source st1 ts st' -> reads source st (t :: ts) st'.

Definition at_depth (d : Z) (st : pstate) : pstate :=
  PState (ps_cursor st) (ps_count st) d (ps_current st).

Lemma at_depth_self st : at_depth (ps_depth st) st = st.
Proof. by destruct st. Qed.

Section reading.
Variable source : str.

Lemma reads_app st ts1 st1 ts2 st2 :
  reads source st ts1 st1 -> reads source st1 ts2 st2 -> reads source st (ts1 ++ ts2) st2.
Proof. induction 1; intros; simpl; [done|]. econstructor; eauto. Qed.

Lemma reads_app_inv st ts1 ts2 st2 :
  reads source st (ts1 ++ ts2) st2 -> exists st1, reads source st ts1 st1 /\ reads source st1 ts2 st2.
Proof.
  revert st. induction ts1 as [|t ts1 IH]; intros st H; simpl in H.
  - exists st. split; [constructor|done].
  - inversion H as [|? ? st' ? ? Ht Hr]; subst. apply IH in Hr as (st1 & H1 & H2).
    exists st1. split; [|done]. econstructor; eauto.
Qed.

Lemma reads_one st t st' : take_token source st = Ok (t, st') -> reads source st [t] st'.
Proof. intros H. econstructor; [exact H | constructor]. Qed.

Lemma reads_cons_inv st t ts st' :
  reads source st (t :: ts) st' -> exists st1, take_token source st = Ok (t, st1) /\ reads source st1 ts st'.
Proof. inversion 1; subst; eauto. Qed.

Lemma reads_nil_inv st st' : reads source st [] st' -> st = st'.
Proof. by inversion 1. Qed.

Lemma take_token_inv st t st' :
  take_token source st = Ok (t, st') ->
  t = ps_current st /\ ps_depth st' = ps_depth st /\
  (forall d, take_token source (at_depth d st) = Ok (t, at_depth d st')).
Proof.
  unfold take_token. destruct (counted_next source (ps_cursor st) (ps_count st)) as [[nxt c]|] eqn:E; [|discriminate].
  intros [= <- <-]. split; [done|]. split; [done|]. intros d. simpl. by rewrite E.
Qed.

Lemma reads_depth st ts st' :
  reads source st ts st' ->
  ps_depth st' = ps_depth st /\ forall d, reads source (at_depth d st) ts (at_depth d st').
Proof.
  induction 1 as [st|st t st1 ts st' Ht _ [IH1 IH2]].
  - split; [done|]. intros. constructor.
  - apply take_token_inv in Ht as (_ & Hd & Hat). split; [congruence|]. intros d.
    econstructor; eauto.
Qed.
End reading.

(** * Soundness *)

(** The nesting still allowed below a state. *)
Definition room (st : pstate) : nat := Z.to_nat (max_parse_depth - ps_depth st).

(** The look-ahead token is no operator an expression of level [k] goes on with. *)
Definition stops (k : Z) (st : pstate) : Prop :=
  forall o, find_operator (lx_text (ps_current st)) = Some o -> (PRECEDENCE o < k)%Z.

Section soundness.
Variable source : str.

Definition expression_sound (fuel : nat) : Prop := forall k st n st',
  (0 <= k)%Z -> expression source fuel k st = Ok (n, st') ->
  exists ts, reads source st ts st' /\ derives k (room st) ts n /\ stops k st'.
Definition primary_sound (fuel : nat) : Prop := forall st n st',
  primary source fuel st = Ok (n, st') ->
  exists ts, reads source st ts st' /\ derives_primary (room st) ts n.
(** The operand read so far can be the left operand of the operator that follows. *)
Definition binary_loop_sound (fuel : nat) : Prop := forall k st n st' left ts0,
  (0 <= k)%Z -> binary_loop source fuel k left st = Ok (n, st') ->
  derives (Z.max k 1) (S (room st)) ts0 left ->
  (forall o, find_operator (lx_text (ps_current st)) = Some o -> (k <= PRECEDENCE o)%Z ->
     derives (PRECEDENCE o) (S (room st)) ts0 left) ->
  exists ts, reads source st ts st' /\ derives (Z.max k 1) (S (room st)) (ts0 ++ ts) n /\ stops k st'.
Definition args_loop_sound (fuel : nat) : Prop := forall st args args' st',
  args_loop source fuel args st = Ok (args', st') ->
  exists ts more, reads source st ts st' /\ args' = args ++ more /\ derives_args (room st) ts more.

Lemma expect_inv st text t st' :
  expect source text st = Ok (t, st') -> take_token source st = Ok (t, st') /\ lx_text t = text.
Proof.
  unfold expect, current, gets, mbind, stM_bind. case_bool_decide as Ht; [discriminate|].
  intros H. split; [done|]. apply take_token_inv in H as (-> & _). exact Ht.
Qed.

Lemma room_reads st ts st' : reads source st ts st' -> room st' = room st.
Proof. intros H. apply reads_depth in H as [H _]. unfold room. by rewrite H. Qed.

Lemma enter_inv st st' :
  enter st = Ok (tt, st') -> st' = at_depth (ps_depth st + 1) st /\ room st = S (room st').
Proof.
  unfold enter. destruct (_ <? _)%Z eqn:E; [discriminate|]. intros [= <-]. breflect. split; [done|].
  unfold room. simpl. unfold max_parse_depth in *. lia.
Qed.

Lemma leave_reads st ts st' :
  reads source (at_depth (ps_depth st + 1) st) ts st' ->
  reads source st ts (at_depth (ps_depth st' - 1) st').
Proof.
  intros H. apply reads_depth in H as [Hd H]. specialize (H (ps_depth st)). cbn in Hd.
  rewrite Hd. replace (ps_depth st + 1 - 1)%Z with (ps_depth st) by lia.
  unfold at_depth in H at 1. cbn in H. fold (at_depth (ps_depth st) st) in H. by rewrite at_depth_self in H.
Qed.

Section induction.
Variable f : nat.
Hypothesis IHe : expression_sound f.
Hypothesis IHp : primary_sound f.
Hypothesis IHb : binary_loop_sound f.
Hypothesis IHa : args_loop_sound f.

Lemma binary_loop_sound_step : binary_loop_sound (S f).
Proof.
  intros k st n st' left ts0 Hk H Hleft Hop. cbn [binary_loop] in H. inv_ok H. injection H0 as <- <-.
  assert (forall n, Ok (n, st) = Ok (left, st) :> result exn _ -> stops k st ->
    exists ts, reads source st ts st /\ derives (Z.max k 1) (S (room st)) (ts0 ++ ts) left /\ stops k st) as Hdone.
  { intros _ _ Hs. exists []. rewrite app_nil_r. split; [constructor|done]. }
  destruct (find_operator (lx_text (ps_current st))) as [o|] eqn:Ho.
  - destruct (k <=? PRECEDENCE o)%Z eqn:Hle; breflect.
    + inv_ok H. rename a into op, s into st1. inv_ok H. rename a into right, s into st2.
      apply take_token_inv in H0 as Hcur. destruct Hcur as (-> & _).
      apply reads_one in H0. pose proof (PRECEDENCE_bounds o).
      apply IHe in H1 as (ts1 & Hr1 & Hd1 & Hs1); [|lia].
      pose proof (reads_app _ _ _ _ _ _ H0 Hr1) as Hr. pose proof (room_reads _ _ _ Hr) as Hroom.
      rewrite (room_reads _ _ _ H0) in Hd1.
      assert (forall k', (k' <= PRECEDENCE o)%Z -> derives k' (S (room st)) (ts0 ++ ps_current st :: ts1)
        (NBinary o left right (node_start left) (node_stop right))) as Hnew
        by (intros; eapply D_binary; eauto).
      apply (IHb _ _ _ _ _ (ts0 ++ ps_current st :: ts1)) in H as (ts2 & Hr2 & Hd2 & Hs2); [|done|..]; rewrite ?Hroom.
      * exists ((ps_current st :: ts1) ++ ts2). split; [by eapply reads_app|].
        split; [|done]. rewrite Hroom in Hd2. by rewrite app_assoc.
      * apply Hnew. lia.
      * intros o' Ho' _. apply Hnew. apply Hs1 in Ho'. lia.
    + injection H as <- <-. apply (Hdone left); [done|]. intros o' [= <-]%(eq_trans (eq_sym Ho)). done.
  - injection H as <- <-. apply (Hdone left); [done|]. intros o'. by rewrite Ho.
Qed.

Lemma expression_sound_step : expression_sound (S f).
Proof.
  intros k st n st' Hk H. cbn [expression] in H.
  inv_ok H. destruct a. apply enter_inv in H0 as [-> Hroom].
  inv_ok H. rename a into l0, s into st2. apply IHp in H0 as (ts1 & Hr1 & Hd1).
  inv_ok H. rename a into l1, s into st3.
  pose proof (room_reads _ _ _ Hr1) as Hroom2.
  apply (IHb _ _ _ _ _ ts1) in H0 as (ts2 & Hr2 & Hd2 & Hs2); [|done|..]; rewrite ?Hroom2;
    [|by apply D_primary | intros; by apply D_primary].
  rewrite Hroom2, <- Hroom in Hd2.
  pose proof (reads_app _ _ _ _ _ _ Hr1 Hr2) as Hr. pose proof (room_reads _ _ _ Hr) as Hroom3.
  inv_ok H. injection H0 as <- <-. inv_ok H. rename a into n', s into st4.
  inv_ok H. injection H1 as _ <-. injection H as <- <-.
  destruct ((k =? 0)%Z && _) eqn:Hq.
  - apply andb_true_iff in Hq as [Hk0 Hq]. apply Z.eqb_eq in Hk0 as ->. apply bool_decide_eq_true in Hq.
    inv_ok H0. rename a into mark, s into st5. inv_ok H0. rename a into yes, s into st6.
    inv_ok H0. rename a into colon, s into st7. inv_ok H0. rename a into no, s into st8. injection H0 as <- <-.
    apply take_token_inv in H as Hcur. destruct Hcur as (-> & _). apply reads_one in H.
    apply IHe in H1 as (ts3 & Hr3 & Hd3 & _); [|done].
    apply expect_inv in H2 as [H2 Hcol]. apply reads_one in H2.
    apply IHe in H3 as (ts4 & Hr4 & Hd4 & Hs4); [|done].
    pose proof (reads_app _ _ _ _ _ _ Hr H) as Ha. pose proof (reads_app _ _ _ _ _ _ Ha Hr3) as Hb.
    pose proof (reads_app _ _ _ _ _ _ Hb H2) as Hc. pose proof (reads_app _ _ _ _ _ _ Hc Hr4) as Hd.
    rewrite (room_reads _ _ _ Ha) in Hd3. rewrite (room_reads _ _ _ Hc) in Hd4.
    exists ((ts1 ++ ts2) ++ ps_current st3 :: ts3 ++ colon :: ts4).
    split; [apply leave_reads; rewrite <- !app_assoc in *; exact Hd|]. split; [|exact Hs4].
    rewrite Hroom. apply D_conditional; [rewrite <- Hroom; exact Hd2 | done | done | done | done].
  - injection H0 as <- <-. exists (ts1 ++ ts2). split; [by apply leave_reads|].
    split; [|exact Hs2]. eapply derives_weaken; [exact Hd2|lia].
Qed.

Lemma args_loop_sound_step : args_loop_sound (S f).
Proof.
  intros st args args' st' H. cbn [args_loop] in H. inv_ok H. injection H0 as <- <-.
  case_bool_decide as Hc.
  { injection H as <- <-. exists [], []. rewrite app_nil_r. repeat constructor. }
  inv_ok H. rename a into arg, s into st1. apply IHe in H0 as (ts & Hr & Hd & _); [|done].
  inv_ok H. injection H0 as <- <-. case_bool_decide as Hcomma.
  - inv_ok H. rename a into comma, s into st2. apply take_token_inv in H0 as Hcur. destruct Hcur as (-> & _).
    apply reads_one in H0. apply IHa in H as (ts' & more & Hr' & -> & Hd').
    pose proof (reads_app _ _ _ _ _ _ Hr H0) as Ha. rewrite (room_reads _ _ _ Ha) in Hd'.
    exists (ts ++ ps_current st1 :: ts'), (arg :: more). split; [|split; [by rewrite <- app_assoc | by apply A_more]].
    pose proof (reads_app _ _ _ _ _ _ Ha Hr') as Hb. by rewrite <- app_assoc in Hb.
  - injection H as <- <-. exists ts, [arg]. split; [done|]. split; [done|]. by apply A_last.
Qed.
Lemma primary_parens_sound t st st1 n st' :
  take_token source st = Ok (t, st1) -> plain t (js "(") ->
  (inner ← expression source f 0;
   close ← expect source (js ")");
   mret (with_span inner (lx_start t) (lx_stop close))) st1 = Ok (n, st') ->
  exists ts, reads source st ts st' /\ derives_primary (room st) ts n.
Proof.
  intros Ht Hplain H. apply reads_one in Ht. inv_ok H. rename a into inner, s into st2.
  apply IHe in H0 as (ts & Hr & Hd & _); [|done]. inv_ok H. rename a into close, s into st3.
  injection H as <- <-. apply expect_inv in H0 as [H0 Hclose]. apply reads_one in H0.
  rewrite (room_reads _ _ _ Ht) in Hd. exists (t :: ts ++ [close]). split; [|by apply P_parens].
  apply (reads_app _ _ [t] _ _ _ Ht). by eapply reads_app.
Qed.

Lemma primary_unary_sound t o st st1 n st' :
  take_token source st = Ok (t, st1) -> plain t (lx_text t) -> unary_of_text (lx_text t) = Some o ->
  (operand ← expression source f 7;
   mret (NUnary o operand (lx_start t) (node_stop operand))) st1 = Ok (n, st') ->
  exists ts, reads source st ts st' /\ derives_primary (room st) ts n.
Proof.
  intros Ht Hplain Ho H. apply reads_one in Ht. inv_ok H. rename a into operand, s into st2.
  apply IHe in H0 as (ts & Hr & Hd & _); [|done]. injection H as <- <-.
  rewrite (room_reads _ _ _ Ht) in Hd. exists (t :: ts). split; [|by apply P_unary].
  apply (reads_app _ _ [t] _ _ _ Ht Hr).
Qed.

Lemma primary_call_sound t fn st st1 n st' :
  take_token source st = Ok (t, st1) -> named t (lx_text t) -> find_function (lx_text t) = Some fn ->
  lx_text (ps_current st1) = js "(" ->
  (_ ← take_token source;
   args ← args_loop source f [];
   close ← expect source (js ")");
   if bool_decide (length args <> BILLING_FUNCTIONS fn)
   then throw (err_at C_type (lx_text t) (lx_start t))
   else mret (NCall fn args (lx_start t) (lx_stop close))) st1 = Ok (n, st') ->
  exists ts, reads source st ts st' /\ derives_primary (room st) ts n.
Proof.
  intros Ht Hn Hf Hopen H. apply reads_one in Ht. inv_ok H. rename a into opening, s into st2.
  apply take_token_inv in H0 as Hcur. destruct Hcur as (-> & _). apply reads_one in H0.
  inv_ok H. rename a into args, s into st3. apply IHa in H1 as (ts & more & Hr & -> & Hd). cbn [app] in *.
  inv_ok H. rename a into close, s into st4. apply expect_inv in H1 as [H1 Hclose]. apply reads_one in H1.
  case_bool_decide as Hlen; [discriminate|]. injection H as <- <-.
  pose proof (reads_app _ _ _ _ _ _ Ht H0) as Ha. rewrite (room_reads _ _ _ Ha) in Hd.
  pose proof (reads_app _ _ _ _ _ _ Ha (reads_app _ _ _ _ _ _ Hr H1)) as Hall.
  exists (t :: ps_current st1 :: ts ++ [close]). split; [exact Hall|].
  by apply P_call.
Qed.

Lemma primary_sound_step : primary_sound (S f).
Proof.
  intros st n st' H. cbn [primary] in H. inv_ok H. rename a into t, s into st1. rename H0 into Ht.
  assert (forall n, derives_primary (room st) [t] n -> Ok (n, st1) = Ok (n, st1) :> result exn _ ->
    exists ts, reads source st ts st1 /\ derives_primary (room st) ts n) as Hleaf
    by (intros; exists [t]; split; [by apply reads_one | done]).
  destruct (lx_kind t) as [v i|v| | |] eqn:Hk.
  1, 2: injection H as <- <-; apply Hleaf; [by constructor|done].
  all: assert (plain t (lx_text t)) as Hplain by (split; [done | by rewrite Hk]).
  all: case_bool_decide as Hopen;
    [eapply primary_parens_sound; [exact Ht | rewrite <- Hopen; exact Hplain | exact H]|].
  all: destruct (unary_of_text (lx_text t)) as [o|] eqn:Ho;
    [by eapply primary_unary_sound|].
  1, 3: discriminate.
  assert (named t (lx_text t)) as Hnamed by done.
  case_bool_decide as Hnil; [injection H as <- <-; apply Hleaf; [apply P_nil; by rewrite <- Hnil|done]|].
  destruct (bool_decide (lx_text t = js "true") || _) eqn:Hb.
  { injection H as <- <-. apply Hleaf; [|done]. case_bool_decide as Htrue; [apply P_true; by rewrite <- Htrue|].
    case_bool_decide as Hfalse; [apply P_false; by rewrite <- Hfalse | discriminate]. }
  inv_ok H. injection H0 as <- <-. case_bool_decide as Hcall.
  - destruct (find_variable (lx_text t)) as [v|] eqn:Hv; [|discriminate]. injection H as <- <-.
    apply Hleaf; [by apply P_variable|done].
  - destruct (find_function (lx_text t)) as [fn|] eqn:Hf; [|discriminate].
    eapply primary_call_sound; [exact Ht | exact Hnamed | exact Hf | exact Hcall | exact H].
Qed.
End induction.

Lemma parser_sound fuel :
  expression_sound fuel /\ primary_sound fuel /\ binary_loop_sound fuel /\ args_loop_sound fuel.
Proof.
  induction fuel as [|f (He & Hp & Hb & Ha)].
  - repeat split; intros ?; intros; discriminate.
  - auto using expression_sound_step, primary_sound_step, binary_loop_sound_step, args_loop_sound_step.
Qed.
End soundness.

(** * Completeness *)

Lemma pm_bind {A B} (m : PM A) (k : A -> PM B) st a st' : m st = Ok (a, st') -> (m ≫= k) st = k a st'.
Proof. apply stM_bind_Ok. Qed.

Lemma pm_bind_pair {A B C} (p : PM A) (b : A -> PM B) (k : B -> PM C) s x s' :
  (p ≫= b) s = Ok (x, s') -> (a ← p; y ← b a; k y) s = k x s'.
Proof. unfold mbind, stM_bind. destruct (p s) as [[a s1]|]; [|discriminate]. by intros ->. Qed.

Lemma find_operator_text text o : find_operator text = Some o -> text = operator_text o.
Proof. intros H. apply find_some in H as [_ H]. by apply bool_decide_eq_true in H. Qed.
Lemma find_variable_text text v : find_variable text = Some v -> text = variable_name v.
Proof. intros H. apply find_some in H as [_ H]. by apply bool_decide_eq_true in H. Qed.
Lemma find_function_text text fn : find_function text = Some fn -> text = function_name fn.
Proof. intros H. apply find_some in H as [_ H]. by apply bool_decide_eq_true in H. Qed.

(** A name that is a variable or a function is read as such. *)
Definition ordinary_name (text : str) : Prop :=
  bool_decide (text = js "(") = false /\ unary_of_text text = None /\
  bool_decide (text = js "nil") = false /\
  bool_decide (text = js "true") || bool_decide (text = js "false") = false.

Lemma variable_ordinary text v : find_variable text = Some v -> ordinary_name text.
Proof. intros ->%find_variable_text. destruct v; vm_compute; auto. Qed.
Lemma function_ordinary text fn : find_function text = Some fn -> ordinary_name text.
Proof. intros ->%find_function_text. destruct fn as [| | | | | |t| | | | |]; try destruct t; vm_compute; auto. Qed.

Section completeness.
Variable source : str.

(** The look-ahead token was produced by the lexer. *)
Definition genuine (st : pstate) : Prop := exists c c', next source c = Ok (ps_current st, c').

Lemma take_genuine st t st' : take_token source st = Ok (t, st') -> genuine st'.
Proof.
  unfold take_token, counted_next. destruct (_ <? _)%Z; [discriminate|].
  destruct (next source (ps_cursor st)) as [[nxt c]|] eqn:E; [|discriminate]. intros [= _ <-]. red. eauto.
Qed.

Lemma reads_genuine st ts st' : reads source st ts st' -> genuine st -> genuine st'.
Proof. induction 1; eauto using take_genuine. Qed.

Lemma reads_head st t ts st' : reads source st (t :: ts) st' -> ps_current st = t.
Proof. intros H. apply reads_cons_inv in H as (st1 & H & _). by apply take_token_inv in H as (-> & _). Qed.

(** No number and no string begins with a closing parenthesis. *)
Lemma literal_not_closing t c c' :
  next source c = Ok (t, c') ->
  match lx_kind t with K_number _ _ | K_string _ => lx_text t <> js ")" | _ => True end.
Proof.
  unfold next. set (start := c + _). clearbody start.
  destruct (drop start source) as [|ch rest] eqn:Hr; [by intros [= <- <-]|].
  destruct (match_number (ch :: rest)) as [n|] eqn:Hn.
  - destruct (negb _); [discriminate|]. destruct (_ && _); [discriminate|]. intros [= <- <-].
    cbn [lx_kind lx_text]. intros Htext. pose proof (match_number_le _ _ Hn). destruct n as [|n]; [lia|].
    injection Htext as -> _. by vm_compute in Hn.
  - destruct (_ || _)%N eqn:Hq.
    + destruct (read_string _ _ _ _ _ _) as [[v stop]|] eqn:Hs; [|discriminate]. intros [= <- <-].
      cbn [lx_kind lx_text]. apply read_string_bounds in Hs. intros Htext. unfold slice in Htext.
      rewrite Hr in Htext. destruct (stop - start) as [|k] eqn:Hk; [lia|].
      injection Htext as -> _. discriminate Hq.
    + destruct (is_name_start ch); [by intros [= <- <-]|]. destruct (match_operator _); [|discriminate].
      by intros [= <- <-].
Qed.

(** What may come after an expression of level [k]. *)
Record follows (k : Z) (st : pstate) : Prop := {
  follows_stops : stops k st;
  follows_no_mark : k = 0%Z -> lx_text (ps_current st) <> js "?";
  follows_no_call : lx_text (ps_current st) <> js "(";
}.

Definition expression_complete (k : Z) (d : nat) (ts : list lexeme) (n : node) : Prop :=
  forall f st st', reads source st ts st' -> genuine st -> d <= room st -> follows k st' ->
  3 * length ts + 2 <= f -> expression source f k st = Ok (n, st').
(** Reading the first operand and then operators reaches the tree [n], whatever
    operators that bind no tighter follow. *)
Definition spine_complete (k : Z) (d : nat) (ts : list lexeme) (n : node) : Prop :=
  forall f m st st', reads source st ts st' -> genuine st -> d <= S (room st) -> (m <= k)%Z ->
  (forall o, find_operator (lx_text (ps_current st')) = Some o -> (PRECEDENCE o <= k)%Z) ->
  lx_text (ps_current st') <> js "(" -> 3 * length ts + 1 <= f ->
  exists f1, f <= f1 + length ts /\
    (primary source f ≫= binary_loop source f m) st = binary_loop source f1 m n st'.
Definition primary_complete (d : nat) (ts : list lexeme) (n : node) : Prop :=
  forall f st st', reads source st ts st' -> genuine st -> d <= room st ->
  lx_text (ps_current st') <> js "(" -> 3 * length ts + 1 <= f -> primary source f st = Ok (n, st').
Definition args_complete (d : nat) (ts : list lexeme) (args : list node) : Prop :=
  forall f st st' done, reads source st ts st' -> genuine st -> d <= room st ->
  lx_text (ps_current st') = js ")" -> 3 * length ts + 3 <= f ->
  args_loop source f done st = Ok (done ++ args, st').

Lemma take_expect st t st' text :
  take_token source st = Ok (t, st') -> lx_text t = text -> expect source text st = Ok (t, st').
Proof.
  intros H Ht. apply take_token_inv in H as Hcur. destruct Hcur as (-> & _).
  unfold expect, current, gets, mbind, stM_bind. case_bool_decide; [done|exact H].
Qed.

Lemma binary_loop_stop f k n st :
  1 <= f -> stops k st -> binary_loop source f k n st = Ok (n, st).
Proof.
  intros Hf Hs. destruct f as [|f]; [lia|]. cbn [binary_loop]. unfold current, gets.
  erewrite pm_bind by reflexivity. destruct (find_operator _) as [o|] eqn:Ho; [|done].
  apply Hs in Ho. by rewrite (proj2 (Z.leb_gt _ _) Ho).
Qed.

Lemma enter_room st : 1 <= room st -> enter st = Ok (tt, at_depth (ps_depth st + 1) st).
Proof. intros H. unfold enter. destruct (_ <? _)%Z eqn:E; [|done]. breflect. unfold room in H. lia. Qed.

Lemma leave_depth st st' :
  ps_depth st' = ps_depth st -> leave (at_depth (ps_depth st + 1) st') = Ok (tt, st').
Proof.
  intros H. unfold leave, modify. cbn. replace (ps_depth st + 1 - 1)%Z with (ps_depth st') by lia. by destruct st'.
Qed.

Lemma room_entered st : 1 <= room st -> room st = S (room (at_depth (ps_depth st + 1) st)).
Proof. unfold room. cbn. lia. Qed.

(** An expression without a conditional. *)
Lemma spine_expression k d ts n :
  spine_complete k d ts n -> 1 <= d -> expression_complete k d ts n.
Proof.
  intros Hspine Hd f st st' Hr Hg Hroom [Hstop Hmark Hcall] Hf. destruct f as [|f]; [lia|].
  cbn [expression]. rewrite (pm_bind _ _ _ _ _ (enter_room st ltac:(lia))).
  pose proof (room_entered st ltac:(lia)). apply reads_depth in Hr as [Hdepth Hr].
  destruct (Hspine f k _ _ (Hr (ps_depth st + 1)%Z) Hg) as (f1 & Hf1 & Hrun); [lia | done | | done | lia |].
  { intros o Ho. apply Hstop in Ho. lia. }
  rewrite binary_loop_stop in Hrun by (done || lia). rewrite (pm_bind_pair _ _ _ _ _ _ Hrun).
  unfold current, gets. erewrite pm_bind by reflexivity.
  erewrite pm_bind; [erewrite pm_bind by (by apply leave_depth); reflexivity|].
  destruct ((k =? 0)%Z && _) eqn:Hq; [|done]. apply andb_true_iff in Hq as [Hk Hq].
  apply bool_decide_eq_true in Hq. apply Z.eqb_eq in Hk. by destruct (Hmark Hk).
Qed.

Lemma spine_primary k d ts n : primary_complete d ts n -> spine_complete k (S d) ts n.
Proof.
  intros Hp f m st st' Hr Hg Hroom Hm Hops Hcall Hf. exists f. split; [lia|].
  apply pm_bind. apply Hp; try done. lia.
Qed.

Lemma operator_not_call text o : find_operator text = Some o -> text <> js "(" /\ text <> js "?" /\ text <> js ")".
Proof. intros ->%find_operator_text. by destruct o. Qed.

Lemma spine_binary k d o op ts1 ts2 l r :
  (k <= PRECEDENCE o)%Z -> spine_complete (PRECEDENCE o) (S d) ts1 l ->
  find_operator (lx_text op) = Some o -> expression_complete (PRECEDENCE o + 1) d ts2 r ->
  spine_complete k (S d) (ts1 ++ op :: ts2) (NBinary o l r (node_start l) (node_stop r)).
Proof.
  intros Hk Hl Ho Hr f m st st' Hread Hg Hroom Hm Hops Hcall Hf.
  apply reads_app_inv in Hread as (st1 & H1 & H2). pose proof (reads_head _ _ _ _ H2) as Hcur.
  rewrite length_app in Hf |- *. cbn [length] in Hf |- *.
  destruct (Hl f m st st1 H1 Hg) as (f1 & Hf1 & Hrun); [done | lia | | | lia |]; rewrite ?Hcur.
  { rewrite Ho. intros ? [= <-]. lia. }
  { by eapply operator_not_call. }
  apply reads_cons_inv in H2 as (st2 & Ht & H2). destruct f1 as [|f1]; [lia|].
  exists f1. split; [lia|]. rewrite Hrun. cbn [binary_loop]. unfold current, gets.
  erewrite pm_bind by reflexivity. rewrite Hcur, Ho, (proj2 (Z.leb_le m (PRECEDENCE o))) by lia.
  rewrite (pm_bind _ _ _ _ _ Ht).
  rewrite (pm_bind _ _ _ r st'); [done|]. apply Hr; [done | by eapply take_genuine | | | lia].
  - rewrite (room_reads _ _ _ _ (reads_one _ _ _ _ Ht)), (room_reads _ _ _ _ H1). lia.
  - pose proof (PRECEDENCE_bounds o). split; [|lia|done]. intros o' Ho'. apply Hops in Ho'. lia.
Qed.

Lemma conditional_complete d ts1 ts2 ts3 mark colon c yes no :
  spine_complete 1 (S d) ts1 c -> lx_text mark = js "?" -> expression_complete 0 d ts2 yes ->
  lx_text colon = js ":" -> expression_complete 0 d ts3 no ->
  expression_complete 0 (S d) (ts1 ++ mark :: ts2 ++ colon :: ts3)
    (NConditional c yes no (node_start c) (node_stop no)).
Proof.
  intros Hc Hmark Hyes Hcolon Hno f st st' Hread Hg Hroom Hfollow Hf. destruct f as [|f]; [lia|].
  rewrite length_app in Hf. cbn [length] in Hf. rewrite length_app in Hf. cbn [length] in Hf.
  cbn [expression]. rewrite (pm_bind _ _ _ _ _ (enter_room st ltac:(lia))).
  pose proof (room_entered st ltac:(lia)) as Hr0. apply reads_depth in Hread as [Hdepth Hread].
  specialize (Hread (ps_depth st + 1)%Z). set (st0 := at_depth (ps_depth st + 1) st) in *.
  apply reads_app_inv in Hread as (st1 & H1 & Hread). pose proof (reads_head _ _ _ _ Hread) as Hcur1.
  pose proof (reads_genuine _ _ _ H1 Hg) as Hg1. pose proof (room_reads _ _ _ _ H1) as Hr1.
  destruct (Hc f 0%Z st0 st1 H1 Hg) as (f1 & Hf1 & Hrun); [lia | lia | by rewrite Hcur1, Hmark | by rewrite Hcur1, Hmark | lia |].
  rewrite binary_loop_stop in Hrun; [|lia | intros o; by rewrite Hcur1, Hmark].
  rewrite (pm_bind_pair _ _ _ _ _ _ Hrun). unfold current, gets. erewrite pm_bind by reflexivity.
  apply reads_cons_inv in Hread as (st2 & Ht2 & Hread). apply reads_app_inv in Hread as (st3 & H3 & Hread).
  pose proof (reads_head _ _ _ _ Hread) as Hcur3. apply reads_cons_inv in Hread as (st4 & Ht4 & H4).
  pose proof (room_reads _ _ _ _ (reads_one _ _ _ _ Ht2)) as Hr2. pose proof (room_reads _ _ _ _ H3) as Hr3.
  pose proof (room_reads _ _ _ _ (reads_one _ _ _ _ Ht4)) as Hr4.
  erewrite pm_bind; [erewrite pm_bind by (by apply leave_depth); reflexivity|].
  rewrite Hcur1, Hmark. cbn [Z.eqb]. rewrite bool_decide_eq_true_2 by done. cbn [andb].
  rewrite (pm_bind _ _ _ _ _ Ht2).
  rewrite (pm_bind _ _ _ yes st3) by (apply Hyes; [done | by eapply take_genuine | lia | | lia];
    split; [intros o | intros _ |]; by rewrite Hcur3, Hcolon).
  rewrite (pm_bind _ _ _ _ _ (take_expect _ _ _ _ Ht4 Hcolon)).
  rewrite (pm_bind _ _ _ no (at_depth (ps_depth st + 1) st')); [done|].
  apply Hno; [done | by eapply take_genuine | lia | | lia]. destruct Hfollow. by split.
Qed.

(** The first step of [primary] on a token that is no number and no string. *)
Lemma primary_plain f st t st1 text :
  take_token source st = Ok (t, st1) -> plain t text ->
  primary source (S f) st =
  (if bool_decide (text = js "(") then
     inner ← expression source f 0;
     close ← expect source (js ")");
     mret (with_span inner (lx_start t) (lx_stop close))
   else
     match unary_of_text text with
     | Some o =>
         operand ← expression source f 7;
         mret (NUnary o operand (lx_start t) (node_stop operand))
     | None => fun st1 => primary source (S f) st
     end) st1.
Proof.
  intros Ht [Htext Hk]. cbn [primary]. rewrite (pm_bind _ _ _ _ _ Ht), Htext. cbv zeta.
  destruct (lx_kind t); try done; by destruct (bool_decide _), (unary_of_text text).
Qed.

Lemma parens_complete d opening closing ts n :
  plain opening (js "(") -> expression_complete 0 d ts n -> lx_text closing = js ")" ->
  primary_complete d (opening :: ts ++ [closing]) (with_span n (lx_start opening) (lx_stop closing)).
Proof.
  intros Hopen Hn Hclose f st st' Hread Hg Hroom Hcall Hf. cbn [length] in Hf. rewrite length_app in Hf.
  cbn [length] in Hf. destruct f as [|f]; [lia|].
  apply reads_cons_inv in Hread as (st1 & Ht & Hread). apply reads_app_inv in Hread as (st2 & H2 & Hread).
  pose proof (reads_head _ _ _ _ Hread) as Hcur. apply reads_cons_inv in Hread as (st3 & Ht3 & Hread).
  apply reads_nil_inv in Hread as ->. rewrite (primary_plain _ _ _ _ _ Ht Hopen).
  rewrite bool_decide_eq_true_2 by done. pose proof (room_reads _ _ _ _ (reads_one _ _ _ _ Ht)).
  rewrite (pm_bind _ _ _ n st2) by (apply Hn; [done | by eapply take_genuine | lia | | lia];
    split; [intros o | intros _ |]; by rewrite Hcur, Hclose).
  by rewrite (pm_bind _ _ _ _ _ (take_expect _ _ _ _ Ht3 Hclose)).
Qed.

Lemma unary_complete d t o ts n :
  plain t (lx_text t) -> unary_of_text (lx_text t) = Some o -> expression_complete 7 d ts n ->
  primary_complete d (t :: ts) (NUnary o n (lx_start t) (node_stop n)).
Proof.
  intros Ht Ho Hn f st st' Hread Hg Hroom Hcall Hf. cbn [length] in Hf. destruct f as [|f]; [lia|].
  apply reads_cons_inv in Hread as (st1 & Htake & Hread).
  rewrite (primary_plain _ _ _ _ _ Htake Ht), Ho. rewrite bool_decide_eq_false_2 by (intros E; by rewrite E in Ho).
  pose proof (room_reads _ _ _ _ (reads_one _ _ _ _ Htake)).
  rewrite (pm_bind _ _ _ n st'); [done|]. apply Hn; [done | by eapply take_genuine | lia | | lia].
  split; [|done|done]. intros o' _. pose proof (PRECEDENCE_bounds o'). lia.
Qed.

(** The step of [primary] on a variable or function name. *)
Lemma primary_name f st t st1 :
  take_token source st = Ok (t, st1) -> named t (lx_text t) -> ordinary_name (lx_text t) ->
  primary source (S f) st =
  (if bool_decide (lx_text (ps_current st1) <> js "(") then
     match find_variable (lx_text t) with
     | None => throw (err_at C_unsupported (lx_text t) (lx_start t))
     | Some v => mret (NVariable v (lx_start t) (lx_stop t))
     end
   else
     match find_function (lx_text t) with
     | None => throw (err_at C_unsupported (lx_text t) (lx_start t))
     | Some fn =>
         _ ← take_token source;
         args ← args_loop source f [];
         close ← expect source (js ")");
         if bool_decide (length args <> BILLING_FUNCTIONS fn)
         then throw (err_at C_type (lx_text t) (lx_start t))
         else mret (NCall fn args (lx_start t) (lx_stop close))
     end) st1.
Proof.
  intros Ht [_ Hk] (H1 & H2 & H3 & H4). cbn [primary]. rewrite (pm_bind _ _ _ _ _ Ht). cbv zeta.
  by rewrite Hk, H1, H2, H3, H4.
Qed.

Lemma call_complete d t opening closing fn ts args :
  named t (lx_text t) -> find_function (lx_text t) = Some fn -> lx_text opening = js "(" ->
  args_complete d ts args -> lx_text closing = js ")" -> length args = BILLING_FUNCTIONS fn ->
  primary_complete d (t :: opening :: ts ++ [closing]) (NCall fn args (lx_start t) (lx_stop closing)).
Proof.
  intros Hn Hf Hopen Hargs Hclose Hlen f st st' Hread Hg Hroom Hcall Hfuel. cbn [length] in Hfuel.
  rewrite length_app in Hfuel. cbn [length] in Hfuel. destruct f as [|f]; [lia|].
  apply reads_cons_inv in Hread as (st1 & Ht & Hread). pose proof (reads_head _ _ _ _ Hread) as Hcur1.
  apply reads_cons_inv in Hread as (st2 & Ht2 & Hread). apply reads_app_inv in Hread as (st3 & H3 & Hread).
  pose proof (reads_head _ _ _ _ Hread) as Hcur3. apply reads_cons_inv in Hread as (st4 & Ht4 & Hread).
  apply reads_nil_inv in Hread as ->. rewrite (primary_name _ _ _ _ Ht Hn (function_ordinary _ _ Hf)), Hcur1, Hf.
  rewrite bool_decide_eq_false_2 by (intros E; by apply E). rewrite (pm_bind _ _ _ _ _ Ht2).
  pose proof (room_reads _ _ _ _ (reads_one _ _ _ _ Ht)). pose proof (room_reads _ _ _ _ (reads_one _ _ _ _ Ht2)).
  rewrite (pm_bind _ _ _ args st3) by (apply (Hargs f st2 st3 []); [done | by eapply take_genuine | lia | by rewrite Hcur3 | lia]).
  rewrite (pm_bind _ _ _ _ _ (take_expect _ _ _ _ Ht4 Hclose)).
  by rewrite bool_decide_eq_false_2 by (intros E; by apply E).
Qed.

Lemma leaf_complete d t n :
  (forall f st st', take_token source st = Ok (t, st') -> lx_text (ps_current st') <> js "(" ->
     primary source (S f) st = Ok (n, st')) ->
  primary_complete d [t] n.
Proof.
  intros H f st st' Hread Hg Hroom Hcall Hf. destruct f as [|f]; [simpl in Hf; lia|].
  apply reads_cons_inv in Hread as (st1 & Ht & Hread). apply reads_nil_inv in Hread as ->. auto.
Qed.

Lemma keyword_complete d t n text :
  named t text ->
  (text = js "nil" /\ n = NLiteral LNull false (lx_start t) (lx_stop t) \/
   text = js "true" /\ n = NLiteral (LBoolean true) false (lx_start t) (lx_stop t) \/
   text = js "false" /\ n = NLiteral (LBoolean false) false (lx_start t) (lx_stop t)) ->
  primary_complete d [t] n.
Proof.
  intros [Ht Hk] Hn. apply leaf_complete. intros f st st' Htake _. cbn [primary].
  rewrite (pm_bind _ _ _ _ _ Htake), Hk, Ht. by destruct Hn as [[-> ->]|[[-> ->]|[-> ->]]].
Qed.

Lemma variable_complete d t v :
  named t (lx_text t) -> find_variable (lx_text t) = Some v ->
  primary_complete d [t] (NVariable v (lx_start t) (lx_stop t)).
Proof.
  intros Hn Hv. apply leaf_complete. intros f st st' Ht Hcall.
  rewrite (primary_name _ _ _ _ Ht Hn (variable_ordinary _ _ Hv)), Hv. by rewrite bool_decide_eq_true_2.
Qed.

Lemma literal_complete d t n :
  match lx_kind t with
  | K_number v i => n = NLiteral (LNumber v) i (lx_start t) (lx_stop t)
  | K_string v => n = NLiteral (LString v) false (lx_start t) (lx_stop t)
  | _ => False
  end -> primary_complete d [t] n.
Proof.
  intros Hn. apply leaf_complete. intros f st st' Ht _. cbn [primary]. rewrite (pm_bind _ _ _ _ _ Ht).
  destruct (lx_kind t); try done; by rewrite Hn.
Qed.

(** An argument does not begin with a closing parenthesis. *)
Definition opens (ts : list lexeme) : Prop := exists t ts', ts = t :: ts' /\
  (lx_text t <> js ")" \/ match lx_kind t with K_number _ _ | K_string _ => True | _ => False end).

Lemma opens_app ts ts' : opens ts -> opens (ts ++ ts').
Proof. intros (t & u & -> & H). exists t, (u ++ ts'). auto. Qed.

Lemma plain_opens t ts : lx_text t <> js ")" -> opens (t :: ts).
Proof. intros. exists t, ts. auto. Qed.

Lemma derives_opens :
  (forall k d ts n, derives k d ts n -> opens ts) /\
  (forall d ts n, derives_primary d ts n -> opens ts) /\
  (forall d ts args, derives_args d ts args -> True).
Proof.
  apply grammar_mind; intros; try done; try (by apply opens_app).
  - exists t, []. by rewrite H; auto.
  - exists t, []. by rewrite H; auto.
  - destruct H as [H _]. apply plain_opens. by rewrite H.
  - apply plain_opens. intros E. by rewrite E in H0.
  - destruct H as [H _]. apply plain_opens. by rewrite H.
  - destruct H as [H _]. apply plain_opens. by rewrite H.
  - destruct H as [H _]. apply plain_opens. by rewrite H.
  - apply plain_opens. intros E. by rewrite E in H0.
  - apply plain_opens. intros E. by rewrite E in H0.
Qed.

Lemma opens_current st ts st' :
  reads source st ts st' -> genuine st -> opens ts -> lx_text (ps_current st) <> js ")".
Proof.
  intros Hr (c & c' & Hnext) (t & u & -> & Ht). rewrite (reads_head _ _ _ _ Hr) in *.
  apply literal_not_closing in Hnext. by destruct Ht as [Ht|Ht]; [|destruct (lx_kind t)].
Qed.

Lemma args_step d ts n f st st1 l :
  expression_complete 0 d ts n -> opens ts -> reads source st ts st1 -> genuine st -> d <= room st ->
  (lx_text (ps_current st1) = js ")" \/ lx_text (ps_current st1) = js ",") -> 3 * length ts + 2 <= f ->
  args_loop source (S f) l st =
  (if bool_decide (lx_text (ps_current st1) = js ",")
   then _ ← take_token source; args_loop source f (l ++ [n]) else mret (l ++ [n])) st1.
Proof.
  intros Hn Hopens Hr Hg Hroom Hnext Hf. cbn [args_loop]. unfold is_text, gets.
  erewrite pm_bind by reflexivity. rewrite bool_decide_eq_false_2 by (by eapply opens_current).
  rewrite (pm_bind _ _ _ n st1) by (apply Hn; try done;
    split; [intros o | intros _ |]; by destruct Hnext as [-> | ->]).
  by erewrite pm_bind by reflexivity.
Qed.

Lemma args_last_complete d ts n : expression_complete 0 d ts n -> opens ts -> args_complete d ts [n].
Proof.
  intros Hn Ho f st st' l Hr Hg Hroom Hclose Hf. destruct f as [|f]; [lia|].
  rewrite (args_step _ _ _ _ _ _ _ Hn Ho Hr) by (auto || lia). by rewrite Hclose.
Qed.

Lemma args_more_complete d ts comma ts' n args :
  expression_complete 0 d ts n -> opens ts -> lx_text comma = js "," -> args_complete d ts' args ->
  args_complete d (ts ++ comma :: ts') (n :: args).
Proof.
  intros Hn Ho Hcomma Hargs f st st' l Hr Hg Hroom Hclose Hf. rewrite length_app in Hf. cbn [length] in Hf.
  destruct f as [|f]; [lia|]. apply reads_app_inv in Hr as (st1 & H1 & Hr).
  pose proof (reads_head _ _ _ _ Hr) as Hcur. apply reads_cons_inv in Hr as (st2 & Ht & Hr).
  rewrite (args_step _ _ _ _ _ _ _ Hn Ho H1) by (rewrite ?Hcur; auto || lia).
  rewrite Hcur, bool_decide_eq_true_2, (pm_bind _ _ _ _ _ Ht) by done.
  rewrite (Hargs f st2 st'); [by rewrite <- app_assoc | done | by eapply take_genuine | | done | lia].
  rewrite (room_reads _ _ _ _ (reads_one _ _ _ _ Ht)), (room_reads _ _ _ _ H1). done.
Qed.

Lemma args_none_complete d : args_complete d [] [].
Proof.
  intros f st st' l Hr Hg Hroom Hclose Hf. destruct f as [|f]; [simpl in Hf; lia|].
  apply reads_nil_inv in Hr as ->. cbn [args_loop]. unfold is_text, gets. erewrite pm_bind by reflexivity.
  by rewrite bool_decide_eq_true_2, app_nil_r by done.
Qed.

Lemma derives_positive k d ts n : derives k d ts n -> 1 <= d.
Proof. destruct 1; lia. Qed.

Lemma grammar_complete :
  (forall k d ts n, derives k d ts n ->
     expression_complete k d ts n /\ ((1 <= k)%Z -> spine_complete k d ts n)) /\
  (forall d ts n, derives_primary d ts n -> primary_complete d ts n) /\
  (forall d ts args, derives_args d ts args -> args_complete d ts args).
Proof.
  apply grammar_mind.
  - intros k d ts n _ Hp. pose proof (spine_primary k _ _ _ Hp) as Hs. split; [|done].
    apply spine_expression; [done|lia].
  - intros k d o op ts1 ts2 l r Hk _ [_ Hl] Ho _ [Hr _]. pose proof (PRECEDENCE_bounds o).
    pose proof (spine_binary k d o op ts1 ts2 l r Hk (Hl ltac:(lia)) Ho Hr) as Hs. split; [|done].
    apply spine_expression; [done|lia].
  - intros d ts1 ts2 ts3 mark colon c yes no _ [_ Hc] Hm _ [Hy _] Hcol _ [Hn _]. split; [|lia].
    apply conditional_complete; auto. apply Hc. lia.
  - intros d t v i Hk. apply literal_complete. by rewrite Hk.
  - intros d t v Hk. apply literal_complete. by rewrite Hk.
  - intros d opening closing ts n Ho _ [Hn _] Hc. by apply parens_complete.
  - intros d t o ts n Ht Ho _ [Hn _]. by apply unary_complete.
  - intros d t H. by eapply keyword_complete; [exact H|auto].
  - intros d t H. by eapply keyword_complete; [exact H|auto].
  - intros d t H. by eapply keyword_complete; [exact H|auto].
  - intros. by apply variable_complete.
  - intros. by apply call_complete.
  - apply args_none_complete.
  - intros d ts n Hd [Hn _]. apply args_last_complete; [done | by eapply (proj1 derives_opens)].
  - intros d ts comma ts' n args Hd [Hn _] Hc _ Hargs. apply args_more_complete; try done. by eapply (proj1 derives_opens).
Qed.
End completeness.

(** * Sources *)

Section sources.
Variable source : str.

(** The state of a parser that has read the token at [c]. *)
Definition started (c : nat) (st : pstate) : Prop :=
  exists t c', next source c = Ok (t, c') /\ st = PState c' 1 0 t.

Lemma new_parser_started st :
  new_parser source = Ok st <->
  (Z.of_nat (length source) <= max_source_length)%Z /\
  exists c, body_start source = Some c /\ started c st.
Proof.
  assert (forall c, ('(current, cursor') ← counted_next source c 0; Ok (PState cursor' 1 0 current)) = Ok st <->
    started c st) as Hstart.
  { intros c. unfold counted_next, started. change (max_tokens <? 0 + 1)%Z with false. cbv match.
    destruct (next source c) as [[t c']|e]; cbn; split; [intros [= <-]; eauto | by intros (? & ? & [= <- <-] & ->)
      | discriminate | by intros (? & ? & ? & _)]. }
  unfold new_parser, body_start. destruct (_ <? _)%Z eqn:Hlen; breflect.
  { split; [discriminate|]. intros [? _]. lia. }
  destruct (match_version source) as [[n v]|].
  - case_bool_decide as Hv.
    + rewrite bool_decide_eq_false_2 by done. split; [discriminate|]. by intros (_ & c & ? & _).
    + rewrite bool_decide_eq_true_2 by done. rewrite Hstart. split; [eauto|]. by intros (_ & c & [= <-] & ?).
  - rewrite Hstart. split; [eauto|]. by intros (_ & c & [= <-] & ?).
Qed.

Lemma next_end_text c t c' : next source c = Ok (t, c') -> lx_kind t = K_end -> lx_text t = [].
Proof.
  unfold next. set (start := c + _). clearbody start.
  destruct (drop start source) as [|ch rest]; [by intros [= <- <-]|]. intros H Hk.
  repeat dmatch_in H; simplify_eq; try done.
  destruct (read_string _ _ _ _ _ _) as [[v stop]|]; [|discriminate]. by injection H as <- <-.
Qed.

(** Tokens the grammar uses are not the end token. *)
Definition texted (t : lexeme) : Prop :=
  lx_text t <> [] \/ match lx_kind t with K_number _ _ | K_string _ => True | _ => False end.

Lemma derives_texted :
  (forall k d ts n, derives k d ts n -> Forall texted ts) /\
  (forall d ts n, derives_primary d ts n -> Forall texted ts) /\
  (forall d ts args, derives_args d ts args -> Forall texted ts).
Proof.
  assert (forall t, lx_text t <> [] -> texted t) as Ht by (by left).
  assert (forall t o, find_operator (lx_text t) = Some o -> texted t) as Hop
    by (intros t o H; left; intros E; by rewrite E in H).
  apply grammar_mind; intros; unfold plain, named in *; destruct_and?; try done;
    rewrite ?Forall_cons, ?Forall_app, ?Forall_cons, ?Forall_app, ?Forall_cons, ?Forall_nil;
    repeat split; eauto using Forall_nil_2;
    try (right; match goal with H : lx_kind _ = _ |- _ => by rewrite H end);
    try (left; match goal with H : lx_text ?t = _ |- lx_text ?t <> _ => by rewrite H end);
    try (left; intros E; match goal with H : _ = Some _ |- _ => by rewrite E in H end).
Qed.

Lemma texted_not_end c t c' : next source c = Ok (t, c') -> texted t -> lx_kind t <> K_end.
Proof. intros Hn [Ht|Ht] Hk; [|by rewrite Hk in Ht]. by apply Ht, (next_end_text c t c'). Qed.

(** The states reached from [st] by reading tokens are those the lexer goes through. *)
Lemma reads_lexes st ts st' :
  reads source st ts st' -> forall c, next source c = Ok (ps_current st, ps_cursor st) ->
  Forall texted ts -> lx_kind (ps_current st') = K_end -> (ps_count st <= max_tokens)%Z ->
  lexes source c ts /\ (ps_count st + Z.of_nat (length ts) <= max_tokens)%Z.
Proof.
  induction 1 as [st|st t st1 ts st' Ht _ IH]; intros c Hc Htext Hend Hcount.
  - split; [by eapply lexes_end|]. simpl. lia.
  - apply Forall_cons in Htext as [Htext Htexts]. apply take_token_inv in Ht as Hcur. destruct Hcur as (-> & _).
    revert Ht. unfold take_token, counted_next. destruct (_ <? _)%Z eqn:Hmax; [discriminate|]. breflect.
    destruct (next source (ps_cursor st)) as [[nxt c']|] eqn:Hnext; [|discriminate]. intros [= <-].
    destruct (IH (ps_cursor st)) as [Hl Hn]; try done. cbn [ps_count length] in *. split; [|lia].
    eapply lexes_token; [exact Hc | by eapply texted_not_end | exact Hl].
Qed.

Lemma lexes_reads c ts :
  lexes source c ts -> forall st, next source c = Ok (ps_current st, ps_cursor st) ->
  (ps_count st + Z.of_nat (length ts) <= max_tokens)%Z ->
  exists st', reads source st ts st' /\ lx_kind (ps_current st') = K_end.
Proof.
  induction 1 as [c t c' Hnext Hk|c t c' ts Hnext Hk Hl IH]; intros st Hst Hcount;
    rewrite Hst in Hnext; injection Hnext as <- <-.
  - exists st. split; [constructor|done].
  - cbn [length] in Hcount.
    assert (exists t c'', next source (ps_cursor st) = Ok (t, c'')) as (t & c'' & Ht)
      by (destruct Hl; eauto).
    destruct (IH (PState c'' (ps_count st + 1) (ps_depth st) t)) as (st' & Hr & Hend); [done | cbn; lia|].
    exists st'. split; [|done]. econstructor; [|exact Hr]. unfold take_token, counted_next.
    rewrite (proj2 (Z.ltb_ge max_tokens (ps_count st + 1))) by lia. by rewrite Ht.
Qed.

Lemma room_started c st : started c st -> room st = Z.to_nat max_parse_depth.
Proof. by intros (t & c' & _ & ->). Qed.

Lemma end_follows st : genuine source st -> lx_kind (ps_current st) = K_end -> follows 0 st.
Proof.
  intros (c & c' & Hn) Hk. pose proof (next_end_text _ _ _ Hn Hk) as Ht.
  split; [intros o | intros _ |]; by rewrite Ht.
Qed.

(** Every token takes at least one code unit. *)
Lemma lexes_length c ts : lexes source c ts -> length ts <= length source.
Proof.
  assert (forall c ts, lexes source c ts -> c <= length source -> c + length ts <= length source) as H.
  { clear. induction 1 as [c t c' Hnext Hk|c t c' ts Hnext Hk Hl IH]; intros Hc; cbn [length]; [lia|].
    pose proof (next_spec source c Hc) as Hs. rewrite Hnext in Hs. destruct Hs as [-> Hat].
    destruct Hat as [Ha Ho Hb Hne Hend]. specialize (Hne Hk). specialize (IH ltac:(lia)). lia. }
  intros Hl. destruct (decide (c <= length source)) as [Hc|Hc]; [pose proof (H _ _ Hl Hc); lia|].
  assert (ts = []) as ->; [|simpl; lia]. destruct Hl as [|c t c' ts Hnext Hk _]; [done|]. exfalso. apply Hk.
  revert Hnext. unfold next. rewrite (drop_ge source c), (drop_ge source) by lia. by intros [= <- <-].
Qed.

(** The parser accepts exactly the grammatical sources. *)
Lemma parse_source_grammatical ast : parse_source source = Ok ast <-> grammatical source ast.
Proof.
  unfold parse_source, grammatical, parse_with. split.
  - intros H. inv_ok H. rename a into st. apply new_parser_started in H0 as (Hlen & c & Hc & Hst).
    inv_ok H. destruct a as [n st']. injection H as <-. inv_ok H0.
    rename a into n', s into st1. apply (parser_sound source) in H as (ts & Hr & Hd & _); [|done].
    unfold current, gets in H0. erewrite pm_bind in H0 by reflexivity.
    destruct (lx_kind (ps_current st1)) eqn:Hk; try discriminate. injection H0 as <- <-.
    rewrite (room_started _ _ Hst) in Hd. split; [done|]. exists c, ts. split; [done|].
    destruct Hst as (t & c' & Hnext & ->).
    eapply reads_lexes in Hr as [Hl Hn]; [|exact Hnext | by eapply (proj1 derives_texted) | done | vm_compute; discriminate].
    cbn [ps_count] in Hn. split; [done|]. split; [lia | exact Hd].
  - intros (Hlen & c & ts & Hc & Hl & Hcount & Hd).
    assert (exists st, started c st) as [st Hst] by (destruct Hl; eexists; eexists; eexists; split; eauto).
    rewrite (proj2 (new_parser_started st)) by eauto. unfold mbind at 1, result_bind.
    pose proof (room_started _ _ Hst) as Hroom. destruct Hst as (t & c' & Hnext & ->).
    destruct (lexes_reads _ _ Hl (PState c' 1 0 t) Hnext) as (st' & Hr & Hend); [cbn; lia|].
    assert (genuine source (PState c' 1 0 t)) as Hg by (red; eauto).
    pose proof (reads_genuine _ _ _ _ Hr Hg) as Hg'.
    rewrite (pm_bind _ _ _ ast st').
    + unfold current, gets. erewrite pm_bind by reflexivity. by rewrite Hend.
    + apply (proj1 (grammar_complete source) _ _ _ _ Hd); [done | done | by rewrite Hroom | by apply end_follows|].
      pose proof (lexes_length _ _ Hl). unfold parse_fuel. lia.
Qed.
End sources.
