(* ===== verification/BillingCompile.v ===== *)
(** Compilation of billing expressions: the static type check, the fixed-price
    validation, the request-rule scan and [compileBillingExpression] with its
    bounded cache (the rest of
    features/pricing/lib/billing-expression/parser.ts). *)

From S2P Require Import Prelude JsString JsNumber JsValue BillingTypes BillingParser BillingParserFacts.

(** * Static types *)

Inductive expression_type : Type := Ty_number | Ty_string | Ty_boolean | Ty_nil | Ty_dynamic.

#[export] Instance expression_type_eq_dec : EqDecision expression_type.
Proof. solve_decision. Defined.

Definition type_name (t : expression_type) : str :=
  match t with
  | Ty_number => js "number" | Ty_string => js "string" | Ty_boolean => js "boolean"
  | Ty_nil => js "nil" | Ty_dynamic => js "dynamic"
  end.

(** [Map<ExpressionNode, ExpressionType>], latest entry first. *)
Definition type_map : Type := list (node * expression_type).
Definition types_get (m : type_map) (n : node) : option expression_type := obj_get n m.
Definition types_set (m : type_map) (n : node) (t : expression_type) : type_map := (n, t) :: m.

(** [requireType(child, expected)] *)
Definition require_type (m : type_map) (child : option node) (expected : expression_type)
    : result exn unit :=
  match child with
  | None => Throw (NativeError (js "Cannot read properties of undefined (reading 'start')"))
  | Some child =>
      let actual := types_get m child in
      if bool_decide (actual <> Some expected) && bool_decide (actual <> Some Ty_dynamic)
      then Throw (err_at C_type (type_name expected ++ js " operand") (node_start child))
      else Ok tt
  end.

Definition literal_type (v : lit_value) : expression_type :=
  match v with
  | LNull => Ty_nil
  | LNumber _ => Ty_number
  | LString _ => Ty_string
  | LBoolean _ => Ty_boolean
  end.

(** Functions whose first argument must be a string. *)
Definition takes_string (f : billing_function) : bool :=
  match f with F_param | F_header | F_u | F_time _ => true | _ => false end.
Definition is_comparison (o : binary_operator) : bool :=
  match o with B_eq | B_ne | B_lt | B_le | B_gt | B_ge => true | _ => false end.
Definition is_logical (o : binary_operator) : bool :=
  match o with B_and | B_or => true | _ => false end.

(** The visitor of [checkExpressionTypes]: the type of a node whose children
    already have one. *)
Definition node_type (m : type_map) (n : node) : result exn expression_type :=
  match n with
  | NLiteral v _ _ _ => Ok (literal_type v)
  | NVariable _ _ _ => Ok Ty_number
  | NUnary o x _ _ =>
      let t := match o with U_not => Ty_boolean | _ => Ty_number end in
      _ ← require_type m (Some x) t; Ok t
  | NConditional c yes no _ _ =>
      _ ← require_type m (Some c) Ty_boolean;
      Ok (if bool_decide (types_get m yes = types_get m no)
          then default Ty_dynamic (types_get m yes) else Ty_dynamic)
  | NBinary o x y _ _ =>
      if is_logical o then
        _ ← require_type m (Some x) Ty_boolean;
        _ ← require_type m (Some y) Ty_boolean;
        Ok Ty_boolean
      else if is_comparison o then Ok Ty_boolean
      else if bool_decide (o = B_add) && bool_decide (types_get m x = Some Ty_string) &&
              bool_decide (types_get m y = Some Ty_string) then Ok Ty_string
      else
        _ ← require_type m (Some x) Ty_number;
        _ ← require_type m (Some y) Ty_number;
        Ok Ty_number
  | NCall f args _ _ =>
      _ ← (if takes_string f then require_type m (args !! 0) Ty_string else Ok tt);
      match f with
      | F_header => Ok Ty_string
      | F_has => _ ← require_type m (args !! 1) Ty_string; Ok Ty_boolean
      | F_tier =>
          _ ← require_type m (args !! 0) Ty_string;
          _ ← require_type m (args !! 1) Ty_number;
          Ok Ty_number
      | F_time _ => Ok Ty_number
      | F_fixed | F_min | F_max | F_abs | F_ceil | F_floor =>
          _ ← fold_result (fun _ arg => require_type m (Some arg) Ty_number) args tt;
          Ok Ty_number
      | F_param | F_u => Ok Ty_dynamic
      end
  end.

Definition type_visitor (m : type_map) (n : node) : result exn type_map :=
  t ← node_type m n; Ok (types_set m n t).

Definition checkExpressionTypes (ast : node) : result exn type_map :=
  visitExpression ast type_visitor [].

(** * Fixed prices and request rules *)

Definition containsPricingMarker (n : node) : result exn bool :=
  '(_, calls) ← expressionDependencies n;
  Ok (bool_decide (F_tier ∈ calls) || bool_decide (F_fixed ∈ calls)).

Definition fixed_price_detail : str :=
  js "Use tier(name, fixed(amount)) with a finite, non-negative numeric literal; combine pricing branches only with conditions and request multipliers.".

Definition is_image_count (n : node) : bool :=
  match n with NVariable V_image_count _ _ => true | _ => false end.

(** [rules.find((candidate) => candidate.node === factor)] is a multiplier that
    may scale a fixed price. *)
Definition multiplier_rule (rules : list compiled_rule) (factor : node) : result exn bool :=
  match List.find (fun rule => bool_decide (cr_node rule = factor)) rules with
  | None => Ok false
  | Some rule =>
      if n_leb n_zero (cr_multiplier rule) then
        marked ← containsPricingMarker (cr_condition rule); Ok (negb marked)
      else Ok false
  end.

(** The literal amounts [fixed] accepts. *)
Definition fixed_amount_ok (amount : node) : bool :=
  match amount with
  | NLiteral (LNumber v) _ _ _ => n_leb n_zero v && is_finite (n_mul v n_million)
  | _ => false
  end.

(** The [tier(name, ...)] leaf accepted by the validation. *)
Definition fixed_leaf_ok (n : node) : result exn bool :=
  match n with
  | NCall F_tier (name :: rest) _ _ =>
      marked ← containsPricingMarker name;
      if (marked : bool) then Ok false
      else
        match rest with
        | NCall F_fixed (amount :: _) _ _ :: _ => Ok (fixed_amount_ok amount)
        | NCall F_fixed [] _ _ :: _ => Throw undefined_node
        | price :: _ => m ← containsPricingMarker price; Ok (negb m)
        | [] => Throw undefined_node
        end
  | NCall F_tier [] _ _ => Throw undefined_node
  | _ => Ok false
  end.

Fixpoint validateFixedPricingTree (rules : list compiled_rule) (n : node) : result exn unit :=
  let leaf :=
    ok ← fixed_leaf_ok n;
    if (ok : bool) then Ok tt else Throw (err_at C_type fixed_price_detail (node_start n)) in
  match n with
  | NConditional c yes no _ _ =>
      marked ← containsPricingMarker c;
      if (marked : bool) then leaf
      else _ ← validateFixedPricingTree rules yes; validateFixedPricingTree rules no
  | NBinary B_mul lhs rhs _ _ =>
      if is_image_count rhs then validateFixedPricingTree rules lhs
      else
        scaled ← multiplier_rule rules rhs;
        if (scaled : bool) then validateFixedPricingTree rules lhs
        else if is_image_count lhs then validateFixedPricingTree rules rhs
        else
          scaled ← multiplier_rule rules lhs;
          if (scaled : bool) then validateFixedPricingTree rules rhs else leaf
  | _ => leaf
  end.

(** A probe of the request or of the clock. *)
Definition is_probe (f : billing_function) : bool :=
  match f with F_param | F_header | F_time _ => true | _ => false end.

Definition rule_visitor (source : str) (rules : list compiled_rule) (n : node)
    : result exn (list compiled_rule) :=
  match n with
  | NConditional c (NLiteral (LNumber multiplier) _ _ _) (NLiteral (LNumber one) _ _ _) _ _ =>
      if negb (n_eqb one n_one) then Ok rules
      else
        '(_, calls) ← expressionDependencies c;
        if negb (existsb is_probe calls) then Ok rules
        else Ok (rules ++ [CompiledRule n c multiplier (slice source (node_start c) (node_stop c))])
  | _ => Ok rules
  end.

(** * Compilation *)

(** The body of the [try] block. *)
Definition compile_ast (source : str) : result exn compiled_expression :=
  ast ← parse_source source;
  _ ← checkExpressionTypes ast;
  '(variables, functions) ← expressionDependencies ast;
  requestRules ← visitExpression ast (rule_visitor source) [];
  _ ← (if bool_decide (F_fixed ∈ functions) then validateFixedPricingTree requestRules ast else Ok tt);
  Ok (Compiled source ast variables functions requestRules).

(** A compilation that does not consult the cache. *)
Definition compile_source (source : str) : compilation_result :=
  match compile_ast source with
  | Ok c => Ready c
  | Throw error => NotReady (expressionFailure error)
  end.

(** [compiledCache]: entries in insertion order. *)
Definition compiled_cache : Type := list (str * compilation_result).
Definition max_cache_size : nat := 128.

Definition compileBillingExpression (source : str) (cache : compiled_cache)
    : compilation_result * compiled_cache :=
  match obj_get source cache with
  | Some cached => (cached, cache)
  | None =>
      let result := compile_source source in
      let cache :=
        match cache with
        | (oldest, _) :: _ =>
            if bool_decide (max_cache_size <= length cache)
            then filter (fun entry => entry.1 <> oldest) cache else cache
        | [] => cache
        end in
      (result, cache ++ [(source, result)])
  end.

Example compile_rule :
  match compile_source (js "tier('a', p * 2) * (hour('UTC') >= 9 ? 1.5 : 1)") with
  | Ready c => map cr_cond (c_requestRules c) = [js "hour('UTC') >= 9"] /\
               c_variables c = [V_p] /\ c_functions c = [F_tier; F_time T_hour]
  | NotReady _ => False
  end.
Proof. vm_compute. auto. Qed.

Example compile_fixed_misuse :
  match compile_source (js "fixed(2) + p") with
  | Ready _ => False
  | NotReady f => d_code (f_diagnostic f) = C_type
  end.
Proof. vm_compute. auto. Qed.
