(* ===== verification/BillingTyping.v ===== *)
(** The static type check of compiled expressions against a reference type
    system, given by structural recursion on the tree. *)

From S2P Require Import Prelude JsString JsNumber JsValue BillingTypes BillingParser BillingParserFacts BillingCompile.

(** * Reference type inference *)

(** An operand of type [actual] is accepted where [expected] is required. *)
Definition accepts (actual expected : expression_type) : bool :=
  bool_decide (actual = expected) || bool_decide (actual = Ty_dynamic).

Definition guard_type (actual expected result : expression_type) : option expression_type :=
  if accepts actual expected then Some result else None.

Definition unary_type (o : unary_operator) (t : expression_type) : option expression_type :=
  match o with U_not => guard_type t Ty_boolean Ty_boolean | _ => guard_type t Ty_number Ty_number end.

Definition binary_type (o : binary_operator) (t1 t2 : expression_type) : option expression_type :=
  if is_logical o then
    if accepts t1 Ty_boolean && accepts t2 Ty_boolean then Some Ty_boolean else None
  else if is_comparison o then Some Ty_boolean
  else if bool_decide (o = B_add) && bool_decide (t1 = Ty_string) && bool_decide (t2 = Ty_string)
       then Some Ty_string
  else if accepts t1 Ty_number && accepts t2 Ty_number then Some Ty_number else None.

Definition conditional_type (tc ty tn : expression_type) : option expression_type :=
  if accepts tc Ty_boolean then Some (if bool_decide (ty = tn) then ty else Ty_dynamic) else None.

Definition call_type (f : billing_function) (ts : list expression_type) : option expression_type :=
  match f, ts with
  | F_param, t :: _ | F_u, t :: _ => guard_type t Ty_string Ty_dynamic
  | F_header, t :: _ => guard_type t Ty_string Ty_string
  | F_time _, t :: _ => guard_type t Ty_string Ty_number
  | F_has, _ :: t :: _ => guard_type t Ty_string Ty_boolean
  | F_tier, t1 :: t2 :: _ =>
      if accepts t1 Ty_string && accepts t2 Ty_number then Some Ty_number else None
  | F_fixed, _ | F_min, _ | F_max, _ | F_abs, _ | F_ceil, _ | F_floor, _ =>
      if forallb (fun t => accepts t Ty_number) ts then Some Ty_number else None
  | _, _ => None
  end.

Fixpoint all_some {A} (l : list (option A)) : option (list A) :=
  match l with
  | [] => Some []
  | o :: l' => a ← o; r ← all_some l'; Some (a :: r)
  end.

Fixpoint type_of (n : node) : option expression_type :=
  match n with
  | NLiteral v _ _ _ => Some (literal_type v)
  | NVariable _ _ _ => Some Ty_number
  | NUnary o x _ _ => t ← type_of x; unary_type o t
  | NBinary o x y _ _ => t1 ← type_of x; t2 ← type_of y; binary_type o t1 t2
  | NConditional c y n _ _ => tc ← type_of c; ty ← type_of y; tn ← type_of n; conditional_type tc ty tn
  | NCall f args _ _ => ts ← all_some (map type_of args); call_type f ts
  end.

Lemma all_some_lookup {A B} (g : A -> option B) l ts i x :
  all_some (map g l) = Some ts -> l !! i = Some x -> exists t, g x = Some t /\ ts !! i = Some t.
Proof.
  revert ts i. induction l as [|y l IH]; intros ts i; [done|]. simpl.
  destruct (g y) as [t|] eqn:Hy; [|done]. simpl.
  destruct (all_some (map g l)) as [r|] eqn:Hr; [|done]. simpl. intros [= <-].
  destruct i as [|i]; simpl; [intros [= ->]; eauto | eauto].
Qed.

Lemma all_some_length {A} (l : list (option A)) ts : all_some l = Some ts -> length ts = length l.
Proof.
  revert ts. induction l as [|o l IH]; intros ts; simpl; [by intros [= <-]|].
  destruct o; [|done]. simpl. destruct (all_some l); [|done]. simpl. intros [= <-]. simpl. auto.
Qed.

Lemma all_some_In {A} (l : list (option A)) ts o :
  all_some l = Some ts -> o ∈ l -> is_Some o.
Proof.
  revert ts. induction l as [|o' l IH]; intros ts H Hin; [by apply not_elem_of_nil in Hin|].
  simpl in H. destruct o' as [a|]; [|done]. simpl in H.
  destruct (all_some l) as [r|]; [|done]. apply elem_of_cons in Hin as [->|Hin]; eauto.
Qed.

Lemma type_of_child n t x : type_of n = Some t -> x ∈ children n -> is_Some (type_of x).
Proof.
  destruct n as [| |f args a b|o y a b|o y z a b|c y z a b]; simpl; intros H Hx;
    try (by apply not_elem_of_nil in Hx).
  - destruct (all_some _) as [ts|] eqn:E; [|done]. eapply all_some_In; [exact E|].
    by apply list_elem_of_fmap_2.
  - apply list_elem_of_singleton in Hx as ->. by destruct (type_of y).
  - rewrite !elem_of_cons in Hx. destruct (type_of y) eqn:E1, (type_of z) eqn:E2; try done.
    destruct Hx as [->|[->|Hx]]; [rewrite E1; eauto | rewrite E2; eauto | by apply not_elem_of_nil in Hx].
  - rewrite !elem_of_cons in Hx.
    destruct (type_of c) eqn:E1, (type_of y) eqn:E2, (type_of z) eqn:E3; try done.
    destruct Hx as [->|[->|[->|Hx]]];
      [rewrite E1; eauto | rewrite E2; eauto | rewrite E3; eauto | by apply not_elem_of_nil in Hx].
Qed.

(** * The checker computes the reference types *)

(** Every type recorded so far is the reference type. *)
Definition consistent (m : type_map) : Prop :=
  forall x t, types_get m x = Some t -> type_of x = Some t.

Lemma types_get_set m n t x :
  types_get (types_set m n t) x = if bool_decide (x = n) then Some t else types_get m x.
Proof. done. Qed.

Lemma require_type_spec m x t expected :
  types_get m x = Some t ->
  require_type m (Some x) expected =
  if accepts t expected then Ok tt
  else Throw (err_at C_type (type_name expected ++ js " operand") (node_start x)).
Proof.
  intros Hx. unfold require_type, accepts. rewrite Hx.
  repeat case_bool_decide; simplify_eq; done.
Qed.

#[local] Arguments require_type : simpl never.

(** Introduces the recorded type of a child. *)
Ltac child_type Hm x :=
  let t := fresh "t" in let H1 := fresh "Hg" in let H2 := fresh "Ht" in
  destruct (Hm x) as [H1 [t H2]]; [rewrite !elem_of_cons; tauto|]; rewrite H2 in H1;
  rewrite ?H1, ?H2, ?(require_type_spec _ x t _ H1); simpl.

(** One step of the visitor agrees with one step of the reference. *)
Lemma node_type_spec m n :
  arity_ok n -> (forall x, x ∈ children n -> types_get m x = type_of x /\ is_Some (type_of x)) ->
  match node_type m n with
  | Ok t => type_of n = Some t
  | Throw _ => type_of n = None
  end.
Proof.
  intros Har Hm. destruct n as [v i a b|v a b|f args a b|o y a b|o y z a b|c y z a b].
  - done.
  - done.
  - simpl in Har, Hm. destruct args as [|x [|y [|? ?]]]; destruct f; try discriminate Har; simpl;
      child_type Hm x; try child_type Hm y; unfold guard_type;
      repeat (match goal with |- context [accepts ?t ?u] => destruct (accepts t u) end; simpl); try done.
  - simpl in *. child_type Hm y. unfold unary_type, guard_type.
    destruct o; simpl; by destruct (accepts _ _).
  - simpl in *. child_type Hm y. child_type Hm z. unfold binary_type.
    destruct (is_logical o); simpl.
    { destruct (accepts t Ty_boolean); simpl; [|done]. by destruct (accepts t0 Ty_boolean). }
    destruct (is_comparison o); [done|].
    assert (forall (t : expression_type) u, bool_decide (Some t = Some u) = bool_decide (t = u)) as Hb
      by (intros; repeat case_bool_decide; congruence).
    rewrite !Hb. destruct (bool_decide (o = B_add) && _ && _); [done|].
    destruct (accepts t Ty_number); simpl; [|done]. by destruct (accepts t0 Ty_number).
  - simpl in *. child_type Hm c. child_type Hm y. child_type Hm z. unfold conditional_type.
    destruct (accepts t Ty_boolean); simpl; [|done]. f_equal. repeat case_bool_decide; congruence.
Qed.

Lemma arity_of_wf n x : wf_node n -> x ∈ children n -> wf_node x.
Proof. intros [_ _ _ H] Hx. rewrite Forall_forall in H. auto. Qed.

Section checker.
(** What visiting a subtree does to the recorded types. *)
Definition visited_types (n : node) (m : type_map) (r : result exn type_map) : Prop :=
  match r with
  | Ok m' => consistent m' /\ (forall x, is_Some (types_get m x) -> is_Some (types_get m' x)) /\
             is_Some (types_get m' n)
  | Throw e => type_of n = None \/ e = err C_limit (js "expression depth")
  end.

Lemma visit_types_list depth l m :
  (forall x m, x ∈ l -> consistent m -> visited_types x m (visit_ref type_visitor depth x m)) ->
  consistent m ->
  match fold_result (fun s x => visit_ref type_visitor depth x s) l m with
  | Ok m' => consistent m' /\ (forall x, is_Some (types_get m x) -> is_Some (types_get m' x)) /\
             (forall x, x ∈ l -> is_Some (types_get m' x))
  | Throw e => (exists x, x ∈ l /\ type_of x = None) \/ e = err C_limit (js "expression depth")
  end.
Proof.
  revert m. induction l as [|x l IH]; intros m Hl Hm; simpl.
  { split; [done|]. split; [done|]. intros x Hx. by apply not_elem_of_nil in Hx. }
  pose proof (Hl x m ltac:(constructor) Hm) as Hx. unfold visited_types in Hx.
  destruct (visit_ref type_visitor depth x m) as [m1|e]; simpl.
  - destruct Hx as (Hm1 & Hmono & Hget).
    specialize (IH m1 ltac:(intros; apply Hl; [by constructor | done]) Hm1).
    destruct (fold_result _ l m1) as [m2|e].
    + destruct IH as (Hm2 & Hmono2 & Hget2). split; [done|]. split; [auto|].
      intros y Hy. apply elem_of_cons in Hy as [->|Hy]; auto.
    + destruct IH as [(y & Hy & Ht)| ->]; [left; exists y; split; [by constructor | done] | by right].
  - destruct Hx as [Hx| ->]; [left; exists x; split; [constructor | done] | by right].
Qed.

Lemma visit_types depth n m :
  wf_node n -> consistent m -> visited_types n m (visit_ref type_visitor depth n m).
Proof.
  revert depth m. induction n as [n IH] using node_children_ind. intros depth m Hwf Hm.
  rewrite visit_ref_unfold. destruct (_ <? _)%Z; [by right|].
  pose proof (visit_types_list (depth + 1) (children n) m) as Hl.
  specialize (Hl ltac:(intros; apply IH; [done | by eapply arity_of_wf | done]) Hm).
  destruct (fold_result _ _ m) as [m1|e]; simpl.
  - destruct Hl as (Hm1 & Hmono & Hget). unfold type_visitor.
    pose proof (node_type_spec m1 n ltac:(by destruct Hwf)) as Hn.
    assert (forall x, x ∈ children n -> types_get m1 x = type_of x /\ is_Some (type_of x)) as Hch.
    { intros x Hx. destruct (Hget x Hx) as [t Ht]. pose proof (Hm1 _ _ Ht) as Ht'.
      rewrite Ht, Ht'. eauto. }
    specialize (Hn Hch). destruct (node_type m1 n) as [t|e]; simpl; [|by left].
    split; [|split].
    + intros x t'. rewrite types_get_set. case_bool_decide; [|apply Hm1]. intros [= <-]. by subst.
    + intros x Hx. rewrite types_get_set. case_bool_decide; eauto.
    + rewrite types_get_set, bool_decide_true by done. eauto.
  - destruct Hl as [(x & Hx & Ht)| ->]; [left|by right].
    destruct (type_of n) as [t|] eqn:E; [|done]. apply (type_of_child _ _ _ E) in Hx.
    rewrite Ht in Hx. by destruct Hx.
Qed.
End checker.

(** The checker accepts exactly the trees within the depth limit that have a
    reference type, and records that type. *)
Lemma checkExpressionTypes_sound ast m :
  wf_node ast -> checkExpressionTypes ast = Ok m -> is_Some (type_of ast).
Proof.
  intros Hwf H. unfold checkExpressionTypes in H. rewrite visitExpression_ref in H.
  pose proof (visit_types 0 ast [] Hwf ltac:(done)) as Hv. rewrite H in Hv.
  destruct Hv as (Hm & _ & [t Ht]). apply Hm in Ht. eauto.
Qed.

Lemma visit_ref_limit {St} (visitor : St -> node -> result exn St) n depth s s' :
  visit_ref visitor depth n s = Ok s' -> (depth + height n <= max_visit_depth)%Z.
Proof.
  revert depth s s'. induction n as [n IH] using node_children_ind. intros depth s s'.
  rewrite visit_ref_unfold. destruct (Z.ltb_spec max_visit_depth depth); [done|]. intros H1.
  inv_ok H1. clear H1.
  assert (forall x, x ∈ children n -> (depth + 1 + height x <= max_visit_depth)%Z) as Hc.
  { clear s'. revert s a H0. generalize (children n) as l, IH. clear IH.
    induction l as [|y l IHl]; intros IH s a Hs x Hx; [by apply not_elem_of_nil in Hx|].
    simpl in Hs. inv_ok Hs. apply elem_of_cons in Hx as [->|Hx].
    - eapply IH; [constructor | exact H0].
    - eapply IHl; [|exact Hs|exact Hx]. intros. eapply IH; [by constructor | done]. }
  assert (height n <= Z.max 0 (max_visit_depth - depth))%Z; [|lia].
  clear -Hc. destruct n as [| |f args a b|o y a b|o y z a b|c y z a b]; simpl in *; try lia.
  - induction args as [|x l IHl]; simpl; [lia|]. pose proof (Hc x ltac:(constructor)).
    specialize (IHl ltac:(intros; apply Hc; by constructor)). lia.
  - pose proof (Hc y ltac:(set_solver)). lia.
  - pose proof (Hc y ltac:(set_solver)). pose proof (Hc z ltac:(set_solver)). lia.
  - pose proof (Hc c ltac:(set_solver)). pose proof (Hc y ltac:(set_solver)).
    pose proof (Hc z ltac:(set_solver)). lia.
Qed.

Lemma visit_types_no_limit n m depth :
  (depth + height n <= max_visit_depth)%Z -> wf_node n -> consistent m -> is_Some (type_of n) ->
  exists m', visit_ref type_visitor depth n m = Ok m'.
Proof.
  revert m depth. induction n as [n IH] using node_children_ind. intros m depth Hd Hwf Hm Ht.
  rewrite visit_ref_unfold. pose proof (height_nonneg n).
  destruct (Z.ltb_spec max_visit_depth depth); [lia|].
  assert (exists m', fold_result (fun s x => visit_ref type_visitor (depth + 1) x s) (children n) m = Ok m')
    as [m1 Hm1].
  { assert (forall x, x ∈ children n -> is_Some (type_of x)) as Htc
      by (destruct Ht as [t Ht]; intros; by eapply type_of_child).
    assert (forall x, x ∈ children n -> (depth + 1 + height x <= max_visit_depth)%Z) as Hh
      by (intros x Hx; pose proof (height_child n x Hx); lia).
    assert (forall x, x ∈ children n -> wf_node x) as Hw by (intros; by eapply arity_of_wf).
    clear Ht Hwf Hd H. revert m Hm Htc Hh Hw IH. generalize (children n) as l.
    induction l as [|x l IHl]; intros m Hm Htc Hh Hw IH; [by exists m|]. simpl.
    destruct (IH x ltac:(constructor) m (depth + 1)%Z) as [m1 H1];
      [apply Hh; constructor | apply Hw; constructor | done | apply Htc; constructor|].
    rewrite H1. simpl. pose proof (visit_types (depth + 1) x m ltac:(apply Hw; constructor) Hm) as Hv.
    rewrite H1 in Hv. destruct Hv as (Hc1 & _).
    apply IHl; [done | intros; first [apply Htc | apply Hh | apply Hw]; by constructor ..|].
    intros; eapply IH; [by constructor | done..]. }
  pose proof (visit_types_list (depth + 1) (children n) m
    ltac:(intros; apply visit_types; [by eapply arity_of_wf | done]) Hm) as Hl.
  rewrite Hm1 in Hl |- *. destruct Hl as (Hc & _ & Hg). simpl. unfold type_visitor.
  pose proof (node_type_spec m1 n ltac:(by destruct Hwf)) as Hn.
  destruct (node_type m1 n) as [t|e]; simpl; [eauto|].
  destruct Ht as [t Ht]. rewrite Hn in Ht; [done|].
  intros x Hx. destruct (Hg x Hx) as [t' Ht']. pose proof (Hc _ _ Ht') as Ht''.
  rewrite Ht', Ht''. eauto.
Qed.

Lemma checkExpressionTypes_complete ast :
  wf_node ast -> (height ast <= max_visit_depth)%Z -> is_Some (type_of ast) ->
  exists m, checkExpressionTypes ast = Ok m.
Proof.
  intros Hwf Hh Ht. unfold checkExpressionTypes. rewrite visitExpression_ref.
  by apply visit_types_no_limit.
Qed.

Lemma checkExpressionTypes_height ast m :
  checkExpressionTypes ast = Ok m -> (height ast <= max_visit_depth)%Z.
Proof.
  unfold checkExpressionTypes. rewrite visitExpression_ref. intros H.
  apply visit_ref_limit in H. lia.
Qed.
