(* ===== verification/BillingCompileFacts.v ===== *)
(** Facts about compilation: the dependency sets are exact, the scanned request
    rules are conditional nodes of the tree, the fixed-price validation accepts
    exactly trees of a known shape, and [CompiledOk], the interface the runtime
    and the display adapters rely on. *)

From S2P Require Import Prelude JsString JsNumber JsValue BillingTypes BillingParser BillingParserFacts BillingCompile BillingTyping.

(** * Descendants *)

Lemma children_postorder n x y : x ∈ children n -> y ∈ postorder x -> y ∈ postorder n.
Proof.
  intros Hx Hy. rewrite postorder_unfold. apply elem_of_app. left. apply list_elem_of_In, in_concat.
  exists (postorder x). split; [apply in_map; by apply list_elem_of_In | by apply list_elem_of_In].
Qed.

Lemma postorder_self n : n ∈ postorder n.
Proof. rewrite postorder_unfold. set_solver. Qed.

(** * Traversals that only accumulate *)

(** A successful traversal of a tree is a fold over its postorder. *)
Lemma visitExpression_Ok {St} n (visitor : St -> node -> result exn St) s s' :
  visitExpression n visitor s = Ok s' ->
  (height n <= max_visit_depth)%Z /\ fold_result visitor (postorder n) s = Ok s'.
Proof.
  rewrite visitExpression_ref. intros H. pose proof (visit_ref_limit _ _ _ _ _ H) as Hh.
  rewrite <- (visit_ref_postorder visitor n 0 s) by lia. split; [lia | done].
Qed.

Lemma visitExpression_within {St} n (visitor : St -> node -> result exn St) s :
  (height n <= max_visit_depth)%Z ->
  visitExpression n visitor s = fold_result visitor (postorder n) s.
Proof. intros Hh. rewrite visitExpression_ref. apply visit_ref_postorder. lia. Qed.

Lemma fold_result_invariant {E St A} (f : St -> A -> result E St) (P : list A -> St -> Prop) l s s' :
  P [] s ->
  (forall done x s s', P done s -> f s x = Ok s' -> P (done ++ [x]) s') ->
  fold_result f l s = Ok s' -> P l s'.
Proof.
  intros H0 Hstep. assert (forall pre s, P pre s -> fold_result f l s = Ok s' -> P (pre ++ l) s') as H.
  { induction l as [|x l IH]; intros pre t Hp H; simpl in H.
    - injection H as <-. by rewrite app_nil_r.
    - inv_ok H. rewrite cons_middle, (assoc_L (++)). eapply IH; [by eapply Hstep | done]. }
  by apply (H []).
Qed.

(** * Dependencies *)

Lemma set_add_elem {A} `{EqDecision A} (x y : A) s : y ∈ set_add x s <-> y = x \/ y ∈ s.
Proof.
  unfold set_add. case_bool_decide as Hx; [|rewrite elem_of_app, list_elem_of_singleton; tauto].
  split; [tauto|]. by intros [->|].
Qed.

Lemma set_add_NoDup {A} `{EqDecision A} (x : A) s : NoDup s -> NoDup (set_add x s).
Proof.
  unfold set_add. case_bool_decide; [done|]. intros Hs. apply NoDup_app.
  split; [done|]. split; [|apply NoDup_singleton]. intros y Hy Hx.
  apply list_elem_of_singleton in Hx as ->. done.
Qed.

(** The variables and functions that occur in a list of nodes. *)
Definition uses_variable (l : list node) (v : billing_variable) : Prop :=
  exists a b, NVariable v a b ∈ l.
Definition uses_function (l : list node) (f : billing_function) : Prop :=
  exists args a b, NCall f args a b ∈ l.

Definition dependencies_of (l : list node)
    (d : list billing_variable * list billing_function) : Prop :=
  (forall v, v ∈ d.1 <-> uses_variable l v) /\ (forall f, f ∈ d.2 <-> uses_function l f) /\
  NoDup d.1 /\ NoDup d.2.

Lemma uses_variable_snoc l x v :
  uses_variable (l ++ [x]) v <-> uses_variable l v \/ exists a b, x = NVariable v a b.
Proof.
  unfold uses_variable. setoid_rewrite elem_of_app. setoid_rewrite list_elem_of_singleton.
  naive_solver.
Qed.
Lemma uses_function_snoc l x f :
  uses_function (l ++ [x]) f <-> uses_function l f \/ exists args a b, x = NCall f args a b.
Proof.
  unfold uses_function. setoid_rewrite elem_of_app. setoid_rewrite list_elem_of_singleton.
  naive_solver.
Qed.

Lemma dependency_visitor_step l x d d' :
  dependencies_of l d -> dependency_visitor d x = Ok d' -> dependencies_of (l ++ [x]) d'.
Proof.
  destruct d as [vs fs]. intros (Hv & Hf & Hn1 & Hn2) [= <-]. unfold dependencies_of. simpl in *.
  setoid_rewrite uses_variable_snoc. setoid_rewrite uses_function_snoc.
  split; [|split; [|split]].
  - intros v. destruct x; rewrite ?set_add_elem, Hv; naive_solver.
  - intros f. destruct x; rewrite ?set_add_elem, Hf; naive_solver.
  - destruct x; auto using set_add_NoDup.
  - destruct x; auto using set_add_NoDup.
Qed.

Lemma dependencies_of_nil : dependencies_of [] ([], []).
Proof.
  repeat split; simpl; try constructor; try (intros H; by apply not_elem_of_nil in H);
    try (intros (? & ? & H); by apply not_elem_of_nil in H);
    intros (? & ? & ? & H); by apply not_elem_of_nil in H.
Qed.

Lemma expressionDependencies_Ok n d :
  expressionDependencies n = Ok d -> dependencies_of (postorder n) d.
Proof.
  unfold expressionDependencies. intros H. apply visitExpression_Ok in H as [_ H].
  eapply (fold_result_invariant _ dependencies_of); [apply dependencies_of_nil | | exact H].
  intros. by eapply dependency_visitor_step.
Qed.

Lemma expressionDependencies_total n :
  (height n <= max_visit_depth)%Z -> exists d, expressionDependencies n = Ok d.
Proof.
  intros Hh. unfold expressionDependencies. rewrite visitExpression_within by done.
  generalize (@nil billing_variable, @nil billing_function).
  induction (postorder n) as [|x l IH]; intros [vs fs]; simpl; eauto.
Qed.

(** A traversal whose visitor never throws only fails on the depth limit. *)
Lemma visit_ref_throws {St} (visitor : St -> node -> result exn St) n depth s e :
  (forall s x, exists s', visitor s x = Ok s') ->
  visit_ref visitor depth n s = Throw e -> e = err C_limit (js "expression depth").
Proof.
  intros Hv. revert depth s. induction n as [n IH] using node_children_ind. intros depth s.
  rewrite visit_ref_unfold. destruct (_ <? _)%Z; [by intros [= <-]|].
  destruct (fold_result _ _ s) as [s1|e1] eqn:Hf; simpl.
  - destruct (Hv s1 n) as [s2 ->]. done.
  - intros [= <-]. revert s Hf IH. induction (children n) as [|x l IHl]; intros s; simpl; [done|].
    destruct (visit_ref visitor (depth + 1) x s) as [s1|e2] eqn:Hx; simpl.
    + intros Hf IH. eapply IHl; [exact Hf|]. intros y Hy. apply IH. by constructor.
    + intros [= <-] IH. eapply IH; [|exact Hx]. constructor.
Qed.

Lemma expressionDependencies_spec n :
  match expressionDependencies n with
  | Ok d => (height n <= max_visit_depth)%Z /\ dependencies_of (postorder n) d
  | Throw e => (max_visit_depth < height n)%Z /\ e = err C_limit (js "expression depth")
  end.
Proof.
  destruct (expressionDependencies n) as [d|e] eqn:H.
  - split; [|by apply expressionDependencies_Ok]. by apply visitExpression_Ok in H as [? _].
  - split.
    + destruct (Z.lt_ge_cases max_visit_depth (height n)) as [|Hle]; [done|].
      apply expressionDependencies_total in Hle as [d Hd]. congruence.
    + unfold expressionDependencies in H. rewrite visitExpression_ref in H.
      eapply visit_ref_throws; [|exact H]. intros [vs fs] x. eexists. reflexivity.
Qed.

Lemma containsPricingMarker_false n :
  containsPricingMarker n = Ok false ->
  ~ uses_function (postorder n) F_tier /\ ~ uses_function (postorder n) F_fixed.
Proof.
  unfold containsPricingMarker. intros H. inv_ok H. destruct a as [vs fs]. injection H as H.
  apply expressionDependencies_Ok in H0 as (_ & Hf & _). simpl in Hf. rewrite <- !Hf.
  apply orb_false_iff in H as [H1 H2]. by breflect.
Qed.

(** * Request rules *)

(** What the scan records about a node of the tree. *)
Record rule_ok (source : str) (l : list node) (r : compiled_rule) : Prop := {
  rule_in_tree : cr_node r ∈ l;
  rule_cond : cr_cond r = slice source (node_start (cr_condition r)) (node_stop (cr_condition r));
  rule_shape : exists one i1 a1 b1 i2 a2 b2 a b,
    cr_node r = NConditional (cr_condition r) (NLiteral (LNumber (cr_multiplier r)) i1 a1 b1)
                  (NLiteral (LNumber one) i2 a2 b2) a b /\ n_eqb one n_one = true;
  rule_probe : exists f, is_probe f = true /\ uses_function (postorder (cr_condition r)) f;
}.

(** Whether a node is one the scan records. *)
Definition is_rule_node (n : node) : Prop :=
  exists c m one i1 a1 b1 i2 a2 b2 a b f,
    n = NConditional c (NLiteral (LNumber m) i1 a1 b1) (NLiteral (LNumber one) i2 a2 b2) a b /\
    n_eqb one n_one = true /\ is_probe f = true /\ uses_function (postorder c) f.

Lemma rule_ok_mono source l l' r : l ⊆ l' -> rule_ok source l r -> rule_ok source l' r.
Proof. intros Hl []. split; auto. Qed.

Ltac not_a_rule :=
  intros [= <-]; left; split; [done|];
  intros (? & ? & ? & ? & ? & ? & ? & ? & ? & ? & ? & ? & ? & ? & _); simplify_eq; congruence.

Lemma rule_visitor_step source done x rules rules' :
  rule_visitor source rules x = Ok rules' ->
  (rules' = rules /\ ~ is_rule_node x) \/
  exists r, rules' = rules ++ [r] /\ cr_node r = x /\ rule_ok source (done ++ [x]) r.
Proof.
  destruct x as [| | | | |c y z a b]; simpl; try not_a_rule.
  destruct y as [v1 i1 a1 b1| | | | |]; try not_a_rule.
  destruct v1 as [|m| |]; try not_a_rule.
  destruct z as [v2 i2 a2 b2| | | | |]; try not_a_rule.
  destruct v2 as [|one| |]; try not_a_rule.
  destruct (n_eqb one n_one) eqn:Hone; simpl;
    [|not_a_rule].
  intros H. inv_ok H. destruct a0 as [vs calls]. apply expressionDependencies_Ok in H0 as (_ & Hf & _).
  simpl in Hf. destruct (existsb is_probe calls) eqn:Hp; simpl in H; injection H as <-.
  - right. apply existsb_exists in Hp as (f & Hin & Hp). apply list_elem_of_In in Hin.
    eexists. split; [done|]. split; [done|]. split; simpl; [set_solver | done | by repeat eexists |].
    exists f. split; [done|]. by apply Hf.
  - left. split; [done|]. intros (c' & m' & one' & j1 & c1 & d1 & j2 & c2 & d2 & a' & b' & f & [= <- <- <- <- <- <- <- <- <- <- <-] & _ & Hpf & Hu).
    apply Hf in Hu. assert (existsb is_probe calls = true); [|congruence].
    apply existsb_exists. exists f. split; [by apply list_elem_of_In | done].
Qed.

Definition rules_of (source : str) (l : list node) (rules : list compiled_rule) : Prop :=
  Forall (rule_ok source l) rules /\ map cr_node rules `sublist_of` l /\
  forall n, n ∈ l -> is_rule_node n -> n ∈ map cr_node rules.

Lemma scan_rules source n rules :
  visitExpression n (rule_visitor source) [] = Ok rules -> rules_of source (postorder n) rules.
Proof.
  intros H. apply visitExpression_Ok in H as [_ H].
  eapply (fold_result_invariant _ (rules_of source)); [| | exact H].
  { split; [constructor|]. split; [constructor|]. intros m Hm. by apply not_elem_of_nil in Hm. }
  intros pre x s s' (Hall & Hsub & Hcomp) Hstep.
  apply (rule_visitor_step source pre) in Hstep as [[-> Hno]|(r & -> & Hr & Hok)].
  - split; [|split].
    + eapply Forall_impl; [exact Hall|]. intros r. apply rule_ok_mono. set_solver.
    + by apply sublist_inserts_r.
    + intros n' Hn' Hrule. apply elem_of_app in Hn' as [Hn'|Hn']; [auto|].
      apply list_elem_of_singleton in Hn' as ->. done.
  - split; [|split].
    + apply Forall_app. split; [|by constructor; [|constructor]].
      eapply Forall_impl; [exact Hall|]. intros r'. apply rule_ok_mono. set_solver.
    + rewrite map_app. simpl. rewrite Hr. by apply sublist_app.
    + intros n' Hn' Hrule. rewrite map_app. simpl. rewrite Hr. set_solver.
Qed.

(** * Fixed prices *)

(** No [tier] and no [fixed] below the node. *)
Definition unmarked (n : node) : Prop :=
  ~ uses_function (postorder n) F_tier /\ ~ uses_function (postorder n) F_fixed.

(** A factor that may scale a priced branch. *)
Definition scale_factor (rules : list compiled_rule) (n : node) : Prop :=
  is_image_count n = true \/
  exists r, r ∈ rules /\ cr_node r = n /\ n_leb n_zero (cr_multiplier r) = true /\
    unmarked (cr_condition r).

(** The shape of an expression that uses [fixed]: pricing leaves below
    conditions and multipliers. *)
Inductive fixed_tree (rules : list compiled_rule) : node -> Prop :=
| FT_fixed name v i a1 b1 rest1 a2 b2 rest2 a b :
    unmarked name -> n_leb n_zero v = true -> is_finite (n_mul v n_million) = true ->
    fixed_tree rules (NCall F_tier (name :: NCall F_fixed (NLiteral (LNumber v) i a1 b1 :: rest1) a2 b2 :: rest2) a b)
| FT_metered name price rest a b :
    unmarked name -> unmarked price ->
    fixed_tree rules (NCall F_tier (name :: price :: rest) a b)
| FT_cond c yes no a b :
    unmarked c -> fixed_tree rules yes -> fixed_tree rules no ->
    fixed_tree rules (NConditional c yes no a b)
| FT_scale_r l r a b :
    scale_factor rules r -> fixed_tree rules l -> fixed_tree rules (NBinary B_mul l r a b)
| FT_scale_l l r a b :
    scale_factor rules l -> fixed_tree rules r -> fixed_tree rules (NBinary B_mul l r a b).

Lemma multiplier_rule_true rules f : multiplier_rule rules f = Ok true -> scale_factor rules f.
Proof.
  unfold multiplier_rule. destruct (List.find _ rules) as [r|] eqn:Hf; [|done].
  apply List.find_some in Hf as [Hin Hr]. breflect.
  destruct (n_leb n_zero (cr_multiplier r)) eqn:Hm; [|done]. intros H. inv_ok H.
  destruct a; [done|]. right. exists r. apply list_elem_of_In in Hin.
  apply containsPricingMarker_false in H0. eauto.
Qed.

Lemma fixed_leaf_tree rules n : fixed_leaf_ok n = Ok true -> fixed_tree rules n.
Proof.
  destruct n as [| |f args a b| | |]; simpl; try done. destruct f; try done.
  destruct args as [|name rest]; [done|]. intros H. inv_ok H. destruct a0; [done|].
  apply containsPricingMarker_false in H0.
  destruct rest as [|price rest]; [done|].
  assert (forall m, containsPricingMarker price = Ok m -> negb m = true ->
            fixed_tree rules (NCall F_tier (name :: price :: rest) a b)) as Hplain.
  { intros m Hm Hn. destruct m; [done|]. apply FT_metered; [done|].
    by apply containsPricingMarker_false. }
  destruct price as [| |g gargs a2 b2| | |];
    try (inv_ok H; injection H as H; by eapply Hplain).
  destruct g; try (inv_ok H; injection H as H; by eapply Hplain).
  destruct gargs as [|amount gargs]; [done|]. injection H as H.
  destruct amount as [v i a1 b1| | | | |]; try done. destruct v as [|v| |]; try done.
  simpl in H. apply andb_true_iff in H as [H1 H2]. by apply FT_fixed.
Qed.

Lemma leaf_guard_tree rules n e :
  (ok ← fixed_leaf_ok n; if (ok : bool) then Ok tt else Throw e) = Ok tt -> fixed_tree rules n.
Proof. intros H. inv_ok H. destruct a; [by apply fixed_leaf_tree | done]. Qed.

Lemma validateFixedPricingTree_Ok rules n :
  validateFixedPricingTree rules n = Ok tt -> fixed_tree rules n.
Proof.
  induction n as [| |f args a b IHargs| |o l r a b IHl IHr|c y z a b IHc IHy IHz] using node_ind'; intros H;
    cbn [validateFixedPricingTree] in H; try (by eapply leaf_guard_tree).
  - destruct o; try (by eapply leaf_guard_tree).
    destruct (is_image_count r) eqn:Hr; [apply FT_scale_r; [by left | auto]|].
    inv_ok H. destruct a0; [apply FT_scale_r; [by apply multiplier_rule_true | auto]|].
    destruct (is_image_count l) eqn:Hl; [apply FT_scale_l; [by left | auto]|].
    inv_ok H. destruct a0; [apply FT_scale_l; [by apply multiplier_rule_true | auto]|].
    by eapply leaf_guard_tree.
  - inv_ok H. destruct a0; [by eapply leaf_guard_tree|].
    inv_ok H. destruct a0. apply FT_cond; auto. by apply containsPricingMarker_false.
Qed.

(** * The contract of a compiled expression *)

Class CompiledOk (c : compiled_expression) : Prop := {
  compiled_wf : wf_node (c_ast c);
  compiled_height : (height (c_ast c) <= max_visit_depth)%Z;
  compiled_typed : is_Some (type_of (c_ast c));
  compiled_dependencies : dependencies_of (postorder (c_ast c)) (c_variables c, c_functions c);
  compiled_rules : rules_of (c_source c) (postorder (c_ast c)) (c_requestRules c);
  compiled_fixed : F_fixed ∈ c_functions c -> fixed_tree (c_requestRules c) (c_ast c);
}.

Lemma compile_ast_Ok source c : compile_ast source = Ok c -> c_source c = source /\ CompiledOk c.
Proof.
  unfold compile_ast. intros H. inv_ok H. rename a into ast.
  pose proof (parse_source_spec source) as Hwf. rewrite H0 in Hwf.
  inv_ok H. rename H1 into Ht. inv_ok H. destruct a0 as [vs fs]. inv_ok H. inv_ok H.
  injection H as <-. split; [done|]. split; simpl.
  - done.
  - by eapply checkExpressionTypes_height.
  - by eapply checkExpressionTypes_sound.
  - by apply expressionDependencies_Ok.
  - by apply scan_rules.
  - intros Hf. rewrite bool_decide_true in H3 by done. destruct a1.
    by apply validateFixedPricingTree_Ok.
Qed.

Lemma compile_source_Ready source c :
  compile_source source = Ready c -> c_source c = source /\ CompiledOk c.
Proof.
  unfold compile_source. destruct (compile_ast source) eqn:H; [|done]. intros [= <-].
  by apply compile_ast_Ok.
Qed.

(** ** Rules of a compiled expression are told apart by their node *)

Lemma postorder_NoDup n : wf_node n -> NoDup (postorder n).
Proof. intros H. eapply NoDup_fmap_1, spans_nodup, H. Qed.

Lemma compiled_rule_nodes_NoDup c : CompiledOk c -> NoDup (map cr_node (c_requestRules c)).
Proof.
  intros Hc. destruct compiled_rules as (_ & Hsub & _).
  eapply sublist_NoDup; [|exact Hsub]. apply postorder_NoDup, compiled_wf.
Qed.

(** * The cache *)

(** Every entry is the compilation of its key, keys are distinct, and the size
    is bounded. *)
Record cache_ok (cache : compiled_cache) : Prop := {
  cache_correct : Forall (fun e => e.2 = compile_source e.1) cache;
  cache_keys : NoDup (map fst cache);
  cache_size : length cache <= max_cache_size;
}.

Lemma cache_ok_empty : cache_ok [].
Proof. split; simpl; [constructor | constructor | unfold max_cache_size; lia]. Qed.

Lemma obj_get_Some {K V} `{EqDecision K} (k : K) (l : list (K * V)) v :
  obj_get k l = Some v -> (k, v) ∈ l.
Proof.
  induction l as [|[k' v'] l IH]; simpl; [done|]. case_bool_decide.
  - intros [= <-]. subst. constructor.
  - intros H1. constructor. auto.
Qed.

Lemma obj_get_None {K V} `{EqDecision K} (k : K) (l : list (K * V)) :
  obj_get k l = None -> k ∉ map fst l.
Proof.
  induction l as [|[k' v'] l IH]; simpl; [intros _ Hin; by apply not_elem_of_nil in Hin|].
  case_bool_decide; [done|]. intros H1 Hin. apply elem_of_cons in Hin as [->|Hin]; [done|]. by apply IH.
Qed.

Lemma filter_all {A} (P : A -> Prop) `{forall x, Decision (P x)} (l : list A) :
  (forall x, x ∈ l -> P x) -> filter P l = l.
Proof.
  induction l as [|x l IH]; intros HP; [done|]. rewrite filter_cons_True by (apply HP; constructor).
  f_equal. apply IH. intros y Hy. apply HP. by constructor.
Qed.

Lemma sublist_map {A B} (f : A -> B) l l' : l `sublist_of` l' -> map f l `sublist_of` map f l'.
Proof. induction 1; simpl; by constructor. Qed.

Lemma sublist_elem {A} (l l' : list A) x : l `sublist_of` l' -> x ∈ l -> x ∈ l'.
Proof. induction 1; set_solver. Qed.

(** Evicting the oldest entry leaves the rest as it was. *)
Lemma evict_oldest (oldest : str) (v : compilation_result) (cache : compiled_cache) :
  NoDup (map fst ((oldest, v) :: cache)) ->
  filter (fun entry => entry.1 <> oldest) ((oldest, v) :: cache : compiled_cache) = cache.
Proof.
  unfold compiled_cache in *.
  simpl. intros Hn. apply NoDup_cons in Hn as [Hnot _].
  rewrite filter_cons_False by (simpl; by intros Hne).
  apply filter_all. intros [k w] Hin. simpl. intros ->. apply Hnot.
  apply list_elem_of_fmap. by exists (oldest, w).
Qed.

Lemma compileBillingExpression_ok source cache :
  cache_ok cache ->
  let '(result, cache') := compileBillingExpression source cache in
  result = compile_source source /\ cache_ok cache' /\ (source, result) ∈ cache'.
Proof.
  intros [Hc Hk Hs]. unfold compileBillingExpression.
  destruct (obj_get source cache) as [r|] eqn:Hg.
  - apply obj_get_Some in Hg. split; [|split; [by split | done]].
    rewrite Forall_forall in Hc. by apply (Hc (source, r)).
  - apply obj_get_None in Hg. split; [done|].
    assert (forall cache', cache' `sublist_of` cache -> length cache' < max_cache_size ->
      cache_ok (cache' ++ [(source, compile_source source)]) /\
      (source, compile_source source) ∈ cache' ++ [(source, compile_source source)]) as Hadd.
    { intros cache' Hsub Hlen. split; [|set_solver]. split.
      - apply Forall_app. split; [|by constructor; [|constructor]].
        rewrite Forall_forall in Hc |- *. intros e He. apply Hc. by eapply sublist_elem.
      - rewrite map_app. apply NoDup_app. split; [|split; [|apply NoDup_singleton]].
        + eapply sublist_NoDup; [exact Hk | by apply sublist_map].
        + simpl. intros x Hx Hx'. apply list_elem_of_singleton in Hx' as ->. apply Hg.
          eapply sublist_elem; [by apply sublist_map | exact Hx].
      - rewrite length_app. simpl. unfold max_cache_size in *. lia. }
    destruct cache as [|[oldest v] rest]; [apply Hadd; [done | unfold max_cache_size; simpl; lia]|].
    case_bool_decide as Hfull; [|apply Hadd; [done|]; unfold max_cache_size in *; lia].
    rewrite (evict_oldest oldest v rest) by done. apply Hadd; [by apply sublist_cons|].
    simpl in *. lia.
Qed.
