(* ===== verification/CompilerProps.v ===== *)
(** The correctness properties of the expression compiler: parsing, traversal,
    static types, the contract of a compiled expression and the cache. *)

From S2P Require Import Prelude JsString JsNumber JsValue BillingTypes BillingParser BillingParserFacts BillingGrammar BillingCompile BillingTyping BillingCompileFacts.

(** A tree used by the witnesses: [p <= 5 ? tier('a', p) : tier('b', fixed(2))]. *)
Definition sample_source : str := js "p <= 5 ? tier('a', p) : tier('b', fixed(2))".
Definition sample_ast : node :=
  match parse_source sample_source with Ok n => n | Throw _ => NLiteral LNull false 0 0 end.

Lemma sample_ast_parsed : parse_source sample_source = Ok sample_ast.
Proof. vm_compute. reflexivity. Qed.

Lemma sample_ast_wf : wf_node sample_ast.
Proof. pose proof (parse_source_spec sample_source) as H. by rewrite sample_ast_parsed in H. Qed.


(** C1: The precedence-climbing parser accepts exactly the sources whose tokens the
    grammar of billing expressions derives within the limits (65536 code units,
    fewer than 10000 tokens, 128 nested levels), and returns the tree of the
    derivation: operators of one precedence associate to the left, tighter ones
    bind first, unary operators bind tightest and conditionals loosest. *)
Theorem parse_iff_grammar (source : str) (ast : node) :
  parse_source source = Ok ast <-> grammatical source ast.
Proof. apply parse_source_grammatical. Qed.

(** [expressionDependencies] fails exactly on trees deeper than 256, and
    otherwise returns, each once, exactly the variables and the functions that
    occur in the tree. *)
Theorem dependencies_exact (n : node) :
  match expressionDependencies n with
  | Ok (variables, functions) =>
      (height n <= 256)%Z /\ NoDup variables /\ NoDup functions /\
      (forall v, v ∈ variables <-> exists a b, NVariable v a b ∈ postorder n) /\
      (forall f, f ∈ functions <-> exists args a b, NCall f args a b ∈ postorder n)
  | Throw e => (256 < height n)%Z /\ e = err C_limit (js "expression depth")
  end.
Proof.
  pose proof (expressionDependencies_spec n) as H. destruct (expressionDependencies n) as [[vs fs]|e]; [|done].
  destruct H as (Hh & Hv & Hf & Hn1 & Hn2). auto.
Qed.



(** C4: A source that compiles gives an expression that satisfies the contract
    of the runtime and the displays: the tree is well formed, typed and within the
    depth limit, the dependency sets are exact, the recorded rules are exactly the
    probing [cond ? number : 1] nodes of the tree in source order with their
    condition text, and a tree that calls [fixed] has the fixed-price shape. *)
Theorem compile_contract (source : str) (c : compiled_expression)
    (Hc : compile_source source = Ready c) :
  c_source c = source /\ CompiledOk c /\ parse_source source = Ok (c_ast c).
Proof.
  pose proof (compile_source_Ready _ _ Hc) as [? ?]. split; [done|]. split; [done|].
  unfold compile_source, compile_ast in Hc. destruct (parse_source source) as [ast|]; simpl in Hc; [|done].
  destruct (checkExpressionTypes ast); simpl in Hc; [|done].
  destruct (expressionDependencies ast) as [[vs fs]|]; simpl in Hc; [|done].
  destruct (visitExpression _ _ _); simpl in Hc; [|done].
  destruct (if bool_decide _ then _ else _); simpl in Hc; [|done]. injection Hc as <-. done.
Qed.

Lemma compile_contract_witness :
  exists c, compile_source sample_source = Ready c /\ c_source c = sample_source.
Proof.
  destruct (compile_source sample_source) as [c|f] eqn:E.
  - exists c. split; [reflexivity|]. exact (proj1 (compile_contract sample_source c E)).
  - exfalso. vm_compute in E. discriminate E.
Defined.

(** A sequence of calls of [compileBillingExpression] sharing the module's cache. *)
Fixpoint compile_all (sources : list str) (cache : compiled_cache)
    : list compilation_result * compiled_cache :=
  match sources with
  | [] => ([], cache)
  | source :: rest =>
      let '(result, cache) := compileBillingExpression source cache in
      let '(results, cache) := compile_all rest cache in
      (result :: results, cache)
  end.

Lemma compile_all_ok sources cache :
  cache_ok cache ->
  (compile_all sources cache).1 = map compile_source sources /\ cache_ok (compile_all sources cache).2.
Proof.
  revert cache. induction sources as [|source rest IH]; intros cache Hc; [done|]. simpl.
  pose proof (compileBillingExpression_ok source cache Hc) as H.
  destruct (compileBillingExpression source cache) as [r cache1]. destruct H as (-> & H1 & _).
  specialize (IH cache1 H1). destruct (compile_all rest cache1) as [rs cache2]. simpl in *.
  destruct IH as [-> ?]. done.
Qed.

(** Caching is transparent and bounded: any sequence of compilations that
    starts with an empty cache returns what uncached compilation returns for each
    source, and leaves at most 128 entries with distinct keys, each of them the
    compilation of its key. *)
Theorem cache_transparent (sources : list str) :
  let '(results, cache) := compile_all sources [] in
  results = map compile_source sources /\ length cache <= 128 /\ NoDup (map fst cache) /\
  Forall (fun entry => entry.2 = compile_source entry.1) cache.
Proof.
  pose proof (compile_all_ok sources [] cache_ok_empty) as H.
  destruct (compile_all sources []) as [results cache]. destruct H as [H1 [H2 H3 H4]]. auto.
Qed.
