(* ===== verification/BillingRuntime.v ===== *)
(** The interpreter of compiled billing expressions
    (features/pricing/lib/billing-expression/runtime.ts): request paths, the
    textual form of request values, billing time zones, the class
    [BillingRuntime] and the two entry points. *)

From S2P Require Import Prelude JsString JsNumber JsValue BillingTypes BillingCompile.

(** * Request paths *)

(** The loop that splits a path at unescaped dots. *)
Fixpoint split_path (path rest part : str) (parts : list str) : result exn (list str) :=
  match rest with
  | [] => Ok (parts ++ [part])
  | char :: rest' =>
      if (char =? backslash)%N then
        match rest' with
        | [] => Throw (err C_unsupported path)
        | escaped :: rest'' => split_path path rest'' (part ++ [escaped]) parts
        end
      else if (char =? 46)%N then split_path path rest' [] (parts ++ [part])
      else if bool_decide (char ∈ js "*?[]()|@!") then Throw (err C_unsupported path)
      else split_path path rest' (part ++ [char]) parts
  end.

(** The loop that follows the parts into the value. *)
Fixpoint walk_path (path : str) (value : jsval) (parts : list str) : result exn jsval :=
  match parts with
  | [] => Ok (match value with VUndefined => VNull | v => v end)
  | key :: parts' =>
      match value with
      | VArray items =>
          if bool_decide (key = js "#") then
            match parts' with
            | [] => Ok (VNumber (n_of_Z (Z.of_nat (length items))))
            | _ => Throw (err C_unsupported path)
            end
          else if negb (forallb is_digit key && bool_decide (key <> [])) then Ok VNull
          else
            let index := number_of_string key in
            walk_path path
              (if is_safe_integer index
               then default VUndefined (items !! Z.to_nat (trunc_Z index)) else VUndefined) parts'
      | VObject entries =>
          match obj_get key entries with
          | Some v => walk_path path v parts'
          | None => Ok VNull
          end
      | _ => Ok VNull
      end
  end.

Definition readRequestPath (body : jsval) (rawPath : str) : result exn jsval :=
  let path := trim rawPath in
  match path with
  | [] => Ok VNull
  | _ => parts ← split_path path path [] []; walk_path path body parts
  end.

(** * Textual form of request values *)

Definition max_value_depth : Z := 128.

(** [Object.entries(value).sort(([a], [b]) => (a < b ? -1 : Number(a > b)))] *)
Fixpoint insert_entry {A} (e : str * A) (l : list (str * A)) : list (str * A) :=
  match l with
  | [] => [e]
  | e' :: l' => if str_ltb e.1 e'.1 then e :: l else e' :: insert_entry e l'
  end.
Definition sort_entries {A} (l : list (str * A)) : list (str * A) :=
  fold_left (fun acc e => insert_entry e acc) l [].

Fixpoint sequence {E A} (l : list (result E A)) : result E (list A) :=
  match l with
  | [] => Ok []
  | r :: l' => a ← r; rest ← sequence l'; Ok (a :: rest)
  end.

Definition pad2 (s : str) : str := match s with [c] => [48%N; c] | _ => s end.

Definition number_text (x : number) : result exn str :=
  if negb (is_finite x) then Throw (err C_number (js "request number"))
  else if is_neg_zero x then Ok (js "-0")
  else
    let '(mantissa, exponent) := to_exponential x in
    if ((6 <=? exponent) || (exponent <? -4))%Z then
      Ok (mantissa ++ js "e" ++ (if (exponent <? 0)%Z then js "-" else js "+") ++
          pad2 (string_of_Z (Z.abs exponent)))
    else Ok (string_of_number x).

Fixpoint billingString (value : jsval) (depth : Z) : result exn str :=
  if (max_value_depth <? depth)%Z then Throw (err C_limit (js "request value depth"))
  else
    match value with
    | VUndefined | VNull => Ok (js "<nil>")
    | VArray items =>
        texts ← sequence (map (fun item => billingString item (depth + 1)) items);
        Ok (js "[" ++ join (js " ") texts ++ js "]")
    | VObject entries =>
        texts ← sequence (map (fun e => text ← e.2; Ok (e.1 ++ js ":" ++ text))
                   (sort_entries (map (fun e => (e.1, billingString e.2 (depth + 1))) entries)));
        Ok (js "map[" ++ join (js " ") texts ++ js "]")
    | VNumber x => number_text x
    | VString s => Ok s
    | VBool b => Ok (if b then js "true" else js "false")
    end.

(** * Time zones *)

Record time_values := TimeValues {
  tv_hour : number; tv_minute : number; tv_weekday : number; tv_month : number; tv_day : number;
}.
Definition time_value (tv : time_values) (f : time_function) : number :=
  match f with
  | T_hour => tv_hour tv | T_minute => tv_minute tv | T_weekday => tv_weekday tv
  | T_month => tv_month tv | T_day => tv_day tv
  end.

(** The zone name pattern: segments that start with an upper case letter,
    separated by slashes. *)
Definition is_zone_char (c : N) : bool := is_word c || (c =? 43)%N || (c =? 45)%N.
Fixpoint zone_pattern (segment_start : bool) (s : str) : bool :=
  match s with
  | [] => negb segment_start
  | c :: s' =>
      if segment_start then is_upper c && zone_pattern false s'
      else if (c =? 47)%N then zone_pattern true s'
      else is_zone_char c && zone_pattern false s'
  end.

Definition weekday_names : list str :=
  [js "Sun"; js "Mon"; js "Tue"; js "Wed"; js "Thu"; js "Fri"; js "Sat"].

(** [Number(parts[type])] and [['Sun', ...].indexOf(parts.weekday)]; in
    [Object.fromEntries] the last pair with a key wins. *)
Definition part_text (type : str) (parts : list (str * str)) : option str :=
  obj_get type (reverse parts).
Definition part_number (type : str) (parts : list (str * str)) : number :=
  match part_text type parts with Some t => number_of_string t | None => n_nan end.
Definition part_weekday (parts : list (str * str)) : number :=
  match find_index (fun name => bool_decide (part_text (js "weekday") parts = Some name)) weekday_names with
  | Some i => n_of_Z (Z.of_nat i)
  | None => n_of_Z (-1)
  end.

Definition utc_values (t : Z) : time_values :=
  TimeValues (n_of_Z (getUTCHours t)) (n_of_Z (getUTCMinutes t)) (n_of_Z (getUTCDay t))
    (n_of_Z (getUTCMonth t + 1)) (n_of_Z (getUTCDate t)).

Section runtime.
Context {host : Host}.

(** The formatter, or nothing when the [try] block throws. *)
Definition zone_formatter (timezone : str) : option zone_format :=
  if negb (zone_pattern true timezone) then None
  else
    formatter ← date_time_format timezone;
    let resolved := resolved_zone formatter in
    if bool_decide (to_lower_case resolved = to_lower_case timezone) &&
       bool_decide (resolved <> timezone)
    then None else Some formatter.

Definition timeInBillingZone (now : date) (zone : str) : result exn time_values :=
  match now with
  | None => Throw (err C_type (js "simulation time"))
  | Some t =>
      let timezone := match trim zone with [] => js "UTC" | z => z end in
      if bool_decide (timezone = js "Local") then
        Throw (err C_unsupported (js "server Local timezone"))
      else
        match zone_formatter timezone with
        | None => Ok (utc_values t)
        | Some formatter =>
            let parts := format_parts formatter t in
            Ok (TimeValues (part_number (js "hour") parts) (part_number (js "minute") parts)
                  (part_weekday parts) (part_number (js "month") parts)
                  (part_number (js "day") parts))
        end
  end.

(** * The class BillingRuntime *)

(** Fields that do not change after construction. *)
Record runtime_env := RuntimeEnv {
  re_compiled : compiled_expression;
  re_context : simulation_context;
  re_now : date;
  re_headers : gmap str str;
}.
(** Fields assigned during evaluation. *)
Record runtime_state := RuntimeState {
  rs_requestRules : list billing_request_rule;
  rs_matchedTier : str;
  rs_billingUnit : billing_unit;
  rs_fixedPrice : option number;
  rs_timeValues : gmap str time_values;
  rs_depth : Z;
}.
Definition RM : Type -> Type := stM runtime_state exn.

Record runtime_value := RV { rv_value : jsval; rv_integer : bool }.

Definition add_header (headers : gmap str str) (entry : str * jsval) : result exn (gmap str str) :=
  match entry.2 with
  | VString rawValue =>
      let key := to_lower_case (trim entry.1) in
      let value := trim rawValue in
      Ok (if bool_decide (key <> []) && bool_decide (value <> [])
          then <[key := value]> headers else headers)
  | _ => Throw (err C_type (js "request header"))
  end.

(** The constructor; [clock] is the value of [new Date()]. *)
Definition new_runtime (compiled : compiled_expression) (context : simulation_context) (clock : date)
    : result exn (runtime_env * runtime_state) :=
  let now := default clock (ctx_now context) in
  let requestRules :=
    map (fun rule => RequestRule (cr_cond rule) (cr_multiplier rule) false) (c_requestRules compiled) in
  let entries := default [] (ctx_request context ≫= req_headers) in
  headers ← fold_result add_header entries ∅;
  Ok (RuntimeEnv compiled context now headers,
      RuntimeState requestRules [] Unit_token None ∅ 0).

Definition max_eval_depth : Z := 256.

Definition set_depth (d : Z) (s : runtime_state) : runtime_state :=
  RuntimeState (rs_requestRules s) (rs_matchedTier s) (rs_billingUnit s) (rs_fixedPrice s)
    (rs_timeValues s) d.
Definition set_tier (name : str) (s : runtime_state) : runtime_state :=
  RuntimeState (rs_requestRules s) name (rs_billingUnit s) (rs_fixedPrice s)
    (rs_timeValues s) (rs_depth s).
Definition set_fixed (amount : number) (s : runtime_state) : runtime_state :=
  RuntimeState (rs_requestRules s) (rs_matchedTier s) Unit_request (Some amount)
    (rs_timeValues s) (rs_depth s).
Definition set_times (zone : str) (tv : time_values) (s : runtime_state) : runtime_state :=
  RuntimeState (rs_requestRules s) (rs_matchedTier s) (rs_billingUnit s) (rs_fixedPrice s)
    (<[zone := tv]> (rs_timeValues s)) (rs_depth s).
Definition match_rule (i : nat) (s : runtime_state) : runtime_state :=
  RuntimeState
    (alter (fun r => RequestRule (r_cond r) (r_multiplier r) true) i (rs_requestRules s))
    (rs_matchedTier s) (rs_billingUnit s) (rs_fixedPrice s) (rs_timeValues s) (rs_depth s).

Definition enter_eval : RM unit := fun s =>
  if (max_eval_depth <? rs_depth s + 1)%Z then Throw (err C_limit (js "evaluation depth"))
  else Ok (tt, set_depth (rs_depth s + 1) s).
Definition leave_eval : RM unit := modify (fun s => set_depth (rs_depth s - 1) s).

Definition of_literal (v : lit_value) : jsval :=
  match v with
  | LString s => VString s | LNumber n => VNumber n | LBoolean b => VBool b | LNull => VNull
  end.

Section evaluation.
Variable env : runtime_env.
(** The recursive call [this.evaluate]. *)
Variable ev : node -> RM runtime_value.

Definition eval_boolean (n : node) : RM bool :=
  r ← ev n;
  match rv_value r with
  | VBool b => mret b
  | _ => throw (err_at C_type (js "boolean condition") (node_start n))
  end.

Definition eval_numeric (n : node) : RM (number * bool) :=
  r ← ev n;
  match rv_value r with
  | VNumber x => mret (x, rv_integer r)
  | _ => throw (err_at C_type (js "numeric operand") (node_start n))
  end.

Definition eval_string (n : node) : RM str :=
  r ← ev n;
  match rv_value r with
  | VString s => mret s
  | _ => throw (err_at C_type (js "string argument") (node_start n))
  end.

Definition eval_variable (v : billing_variable) (start : nat) : RM runtime_value :=
  if bool_decide (v = V_image_count) then
    let value := default n_one (ctx_imageCount (re_context env)) in
    if negb (is_integer value) || n_ltb value n_one || n_ltb (n_of_Z 128) value then
      throw (err_at C_number (js "image_count must be between 1 and 128") start)
    else mret (RV (VNumber value) false)
  else
    match ctx_tokens (re_context env) ≫= obj_get (variable_name v) with
    | None | Some VUndefined => throw (err_at C_missing_context (variable_name v) start)
    | Some (VNumber x) =>
        if n_ltb x n_zero then throw (err_at C_number (variable_name v) start)
        else mret (RV (VNumber x) false)
    | Some _ => throw (err_at C_number (variable_name v) start)
    end.

(** The comparison and arithmetic part of [binary], on evaluated operands. *)
Definition apply_binary (o : binary_operator) (l r : runtime_value) (start : nat)
    : result exn runtime_value :=
  let a := rv_value l in
  let b := rv_value r in
  let integer := rv_integer l && rv_integer r in
  let type_error := Throw (err_at C_type (BillingParser.operator_text o) start) in
  let arith (k : number -> number -> result exn runtime_value) :=
    match a, b with VNumber x, VNumber y => k x y | _, _ => type_error end in
  let compare (kn : number -> number -> bool) (ks : str -> str -> bool) :=
    match a, b with
    | VNumber x, VNumber y => Ok (RV (VBool (kn x y)) false)
    | VString x, VString y => Ok (RV (VBool (ks x y)) false)
    | _, _ => type_error
    end in
  match o with
  | B_eq | B_ne =>
      let is_null v := match v with VNull => true | _ => false end in
      if negb (is_null a) && negb (is_null b) && (typeof_object a || typeof_object b) then
        Throw (err_at C_unsupported (js "object comparison") start)
      else
        let equal := strict_equal a b in
        Ok (RV (VBool (if bool_decide (o = B_eq) then equal else negb equal)) false)
  | B_lt => compare n_ltb str_ltb
  | B_le => compare n_leb str_leb
  | B_gt => compare (fun x y => n_ltb y x) (fun x y => str_ltb y x)
  | B_ge => compare (fun x y => n_leb y x) (fun x y => str_leb y x)
  | B_add =>
      match a, b with
      | VString x, VString y => Ok (RV (VString (x ++ y)) false)
      | _, _ => arith (fun x y => Ok (RV (VNumber (n_add x y)) integer))
      end
  | B_sub => arith (fun x y => Ok (RV (VNumber (n_sub x y)) integer))
  | B_mul => arith (fun x y => Ok (RV (VNumber (n_mul x y)) integer))
  | B_div => arith (fun x y => Ok (RV (VNumber (n_div x y)) false))
  | B_mod =>
      arith (fun x y =>
        if negb integer then Throw (err_at C_type (js "integer modulo") start)
        else Ok (RV (VNumber (n_rem x y)) true))
  | B_and | B_or => type_error
  end.

Definition eval_binary (o : binary_operator) (x y : node) (start : nat) : RM runtime_value :=
  match o with
  | B_and =>
      a ← eval_boolean x;
      if (a : bool) then b ← eval_boolean y; mret (RV (VBool b) false)
      else mret (RV (VBool false) false)
  | B_or =>
      a ← eval_boolean x;
      if (a : bool) then mret (RV (VBool true) false)
      else b ← eval_boolean y; mret (RV (VBool b) false)
  | _ =>
      l ← ev x;
      r ← ev y;
      lift (apply_binary o l r start)
  end.

(** [args[0]] and [args[1]] *)
Definition first {A} (args : list node) (k : node -> RM A) : RM A :=
  match args with a :: _ => k a | [] => throw undefined_node end.
Definition second {A} (args : list node) (k : node -> RM A) : RM A :=
  match args with _ :: b :: _ => k b | _ => throw undefined_node end.

Definition request_of (detail : str) (start : nat) : RM simulation_request :=
  match ctx_request (re_context env) with
  | None => throw (err_at C_missing_context detail start)
  | Some request => mret request
  end.

Definition eval_time (f : time_function) (args : list node) : RM runtime_value :=
  raw ← first args eval_string;
  let zone := trim raw in
  cached ← gets (fun s => rs_timeValues s !! zone);
  match cached with
  | Some values => mret (RV (VNumber (time_value values f)) true)
  | None =>
      values ← lift (timeInBillingZone (re_now env) zone);
      _ ← modify (set_times zone values);
      mret (RV (VNumber (time_value values f)) true)
  end.

Definition eval_has (args : list node) : RM runtime_value :=
  source ← first args ev;
  substring ← second args eval_string;
  if negb (is_nullish (rv_value source)) && bool_decide (substring <> []) then
    text ← lift (billingString (rv_value source) 0);
    mret (RV (VBool (includes text substring)) false)
  else mret (RV (VBool false) false).

Definition eval_math1 (k : number -> number) (args : list node) : RM runtime_value :=
  a ← first args eval_numeric;
  mret (RV (VNumber (k a.1)) false).
Definition eval_math2 (k : number -> number -> number) (args : list node) : RM runtime_value :=
  a ← first args eval_numeric;
  b ← second args eval_numeric;
  mret (RV (VNumber (k a.1 b.1)) false).

Definition eval_call (f : billing_function) (args : list node) (start : nat) : RM runtime_value :=
  match f with
  | F_fixed =>
      amount ← first args eval_numeric;
      _ ← modify (set_fixed amount.1);
      mret (RV (VNumber (n_mul amount.1 n_million)) false)
  | F_tier =>
      name ← first args eval_string;
      value ← second args eval_numeric;
      _ ← modify (set_tier name);
      mret (RV (VNumber value.1) false)
  | F_param =>
      path ← first args eval_string;
      request ← request_of (js "request body") start;
      v ← lift (readRequestPath (req_body request) path);
      mret (RV v false)
  | F_header =>
      raw ← first args eval_string;
      _ ← request_of (js "request headers") start;
      mret (RV (VString (default [] (re_headers env !! to_lower_case (trim raw)))) false)
  | F_u =>
      name ← first args eval_string;
      match ctx_usage (re_context env) with
      | None => throw (err_at C_missing_context (js "task usage") start)
      | Some usage => mret (RV (default VNull (obj_get name usage)) false)
      end
  | F_has => eval_has args
  | F_min => eval_math2 n_min args
  | F_max => eval_math2 n_max args
  | F_abs => eval_math1 n_abs args
  | F_floor => eval_math1 n_floor args
  | F_ceil => eval_math1 n_ceil args
  | F_time f => eval_time f args
  end.

Definition eval_conditional (n c yes no : node) : RM runtime_value :=
  condition ← eval_boolean c;
  let ruleIndex :=
    find_index (fun rule => bool_decide (cr_node rule = n)) (c_requestRules (re_compiled env)) in
  _ ← (match ruleIndex with
       | Some i => if (condition : bool) then modify (match_rule i) else mret tt
       | None => mret tt
       end);
  if (condition : bool) then ev yes else ev no.

Definition eval_unary (o : unary_operator) (x : node) : RM runtime_value :=
  match o with
  | U_not => b ← eval_boolean x; mret (RV (VBool (negb b)) false)
  | U_minus => a ← eval_numeric x; mret (RV (VNumber (n_neg a.1)) a.2)
  | U_plus => a ← eval_numeric x; mret (RV (VNumber a.1) a.2)
  end.

Definition evaluateNode (n : node) : RM runtime_value :=
  match n with
  | NLiteral v integer _ _ => mret (RV (of_literal v) integer)
  | NVariable v start _ => eval_variable v start
  | NConditional c yes no _ _ => eval_conditional n c yes no
  | NUnary o x _ _ => eval_unary o x
  | NBinary o x y start _ => eval_binary o x y start
  | NCall f args start _ => eval_call f args start
  end.
End evaluation.

(** The checks [evaluate] makes on the value of a node. *)
Definition check_value (n : node) (r : runtime_value) : result exn runtime_value :=
  match rv_value r with
  | VNumber x =>
      if negb (is_finite x) then Throw (err_at C_number (js "non-finite result") (node_start n))
      else if rv_integer r && negb (is_safe_integer x) then
        Throw (err_at C_unsupported (js "integer precision") (node_start n))
      else Ok r
  | _ => Ok r
  end.

Fixpoint evaluate (env : runtime_env) (n : node) {struct n} : RM runtime_value :=
  _ ← enter_eval;
  value ← evaluateNode env (evaluate env) n;
  value ← lift (check_value n value);
  _ ← leave_eval;
  mret value.

(** * Entry points *)

Definition evaluateBillingCondition (compiled : compiled_expression) (n : node) (now : date)
    : option bool :=
  match new_runtime compiled (Context_ None None None None (Some now)) now with
  | Ok (env, s) =>
      match evaluate env n s with
      | Ok (r, _) => match rv_value r with VBool b => Some b | _ => None end
      | Throw _ => None
      end
  | Throw _ => None
  end.

(** The validation loop over [Object.entries(context.tokens)]. *)
Definition check_token (_ : unit) (entry : str * jsval) : result exn unit :=
  match entry.2 with
  | VNumber x => if negb (is_finite x) || n_ltb x n_zero then Throw (err C_number entry.1) else Ok tt
  | _ => Throw (err C_number entry.1)
  end.

Definition run_compiled (compiled : compiled_expression) (context : simulation_context) (clock : date)
    : result exn evaluation_success :=
  _ ← fold_result check_token (default [] (ctx_tokens context)) tt;
  '(env, s0) ← new_runtime compiled context clock;
  '(r, s) ← evaluate env (c_ast compiled) s0;
  match rv_value r with
  | VNumber x =>
      if negb (is_finite x) || n_ltb x n_zero then Throw (err C_number (js "billing result"))
      else Ok (Success x (rs_billingUnit s) (rs_fixedPrice s)
                 (if bool_decide (V_image_count ∈ c_variables compiled)
                  then Some (default n_one (ctx_imageCount context)) else None)
                 (rs_matchedTier s) (rs_requestRules s))
  | _ => Throw (err C_number (js "billing result"))
  end.

(** [evaluateBillingExpression] of a compiled expression, and of a source. *)
Definition evaluate_compiled (compiled : compilation_result) (context : simulation_context)
    (clock : date) : evaluation_result :=
  match compiled with
  | NotReady f => EvalFailure f
  | Ready c =>
      match run_compiled c context clock with
      | Ok s => EvalSuccess s
      | Throw error => EvalFailure (expressionFailure error)
      end
  end.
Definition evaluateBillingExpression (source : str) (context : simulation_context) (clock : date)
    : evaluation_result :=
  evaluate_compiled (compile_source source) context clock.
End runtime.

Definition sample_context (p c : Z) : simulation_context :=
  Context_ None (Some [(js "p", VNumber (n_of_Z p)); (js "c", VNumber (n_of_Z c))])
    (Some (Request (VObject [(js "stream", VBool true); (js "n", VNumber (n_of_Z 3))])
       (Some [(js " X-Kind ", VString (js " fast "))])))
    None (Some (Some 1767484800000%Z)).

Definition shown (r : evaluation_result) : option (str * str * list bool) :=
  match r with
  | EvalSuccess s => Some (string_of_number (e_cost s), e_matchedTier s, map r_matched (e_requestRules s))
  | EvalFailure _ => None
  end.

Example evaluate_example :
  map (fun src => shown (evaluateBillingExpression (host := sample_host) src (sample_context 1000 200) None))
    [js "p <= 500 ? tier('small', p * 1) : tier('large', p * 2 + c * 0.5)";
     js "tier('x', p) * (param('stream') == true ? 2 : 1) * (header('x-kind') == 'slow' ? 3 : 1)";
     js "tier('t', p * (hour('Asia/Shanghai') >= 8 && weekday('UTC') == 0 ? 10 : 1))";
     js "has(param('n'), '3') ? 1 : 0";
     js "tier('bad', 0 - p)"; js "u('seconds') * 2"]
  = [Some (js "2100", js "large", []);
     Some (js "2000", js "x", [true; false]);
     Some (js "10000", js "t", [true]);
     Some (js "1", [], []);
     None; None].
Proof. vm_compute. reflexivity. Qed.
