(* ===== verification/BillingRuntimeFacts.v ===== *)
(** General facts about the interpreter: how a successful or failed evaluation
    decomposes, which exceptions can occur, and what the checks guarantee about
    every value an evaluation returns. *)

From S2P Require Import Prelude JsString JsNumber JsValue BillingTypes BillingParser BillingParserFacts BillingCompile BillingTyping BillingRuntime.

Section facts.
Context {host : Host}.
Implicit Types (env : runtime_env) (s : runtime_state) (n : node) (r : runtime_value).

Lemma evaluate_unfold env n :
  evaluate env n =
  (_ ← enter_eval;
   value ← evaluateNode env (evaluate env) n;
   value ← lift (check_value n value);
   _ ← leave_eval;
   mret value).
Proof. by destruct n. Qed.

Lemma check_value_inv n r r' :
  check_value n r = Ok r' ->
  r' = r /\ forall x, rv_value r = VNumber x ->
    is_finite x = true /\ (rv_integer r = true -> is_safe_integer x = true).
Proof.
  unfold check_value. destruct (rv_value r) as [| | |x| | |] eqn:Hv; try (intros [= <-]; done).
  destruct (is_finite x) eqn:Hf; simpl; [|done].
  destruct (rv_integer r && negb (is_safe_integer x)) eqn:Hi; [done|].
  intros [= <-]. split; [done|]. intros y [= <-]. split; [done|]. intros Ht.
  rewrite Ht in Hi. simpl in Hi. by apply negb_false_iff in Hi.
Qed.

(** A successful evaluation is a successful [evaluateNode] whose value passed
    the checks; the depth counter is restored. *)
Lemma evaluate_Ok_inv env n s r s' :
  evaluate env n s = Ok (r, s') ->
  exists s1, (rs_depth s + 1 <= max_eval_depth)%Z /\
    evaluateNode env (evaluate env) n (set_depth (rs_depth s + 1) s) = Ok (r, s1) /\
    check_value n r = Ok r /\ s' = set_depth (rs_depth s1 - 1) s1.
Proof.
  rewrite evaluate_unfold. intros H. inv_ok H.
  unfold enter_eval in H0. destruct (Z.ltb_spec max_eval_depth (rs_depth s + 1)); [done|].
  injection H0 as <- <-. inv_ok H. inv_ok H.
  unfold lift in H2. destruct (check_value n a) as [a'|] eqn:Hc; [|done].
  injection H2 as <- <-. pose proof (check_value_inv _ _ _ Hc) as [-> _].
  inv_ok H. injection H2 as <- <-. injection H as <- <-. eauto 10.
Qed.

Lemma evaluate_Throw_inv env n s e :
  evaluate env n s = Throw e ->
  e = err C_limit (js "evaluation depth") \/
  evaluateNode env (evaluate env) n (set_depth (rs_depth s + 1) s) = Throw e \/
  e = err_at C_number (js "non-finite result") (node_start n) \/
  e = err_at C_unsupported (js "integer precision") (node_start n).
Proof.
  rewrite evaluate_unfold. intros H.
  apply stM_bind_Throw_inv in H as [H|(a & s1 & H1 & H)].
  { unfold enter_eval in H. destruct (_ <? _)%Z; [|done]. injection H as <-. auto. }
  unfold enter_eval in H1. destruct (_ <? _)%Z; [done|]. injection H1 as <- <-.
  apply stM_bind_Throw_inv in H as [H|(b & s2 & H2 & H)]; [auto|].
  apply stM_bind_Throw_inv in H as [H|(c & s3 & H3 & H)]; [|done].
  unfold lift in H. destruct (check_value n b) eqn:Hc; [done|]. injection H as <-.
  unfold check_value in Hc. repeat dmatch_in Hc; simplify_eq; auto.
Qed.

(** Every number an evaluation returns is finite, and a value marked as an
    integer is a safe integer. *)
Lemma evaluate_number_ok env n s r s' x :
  evaluate env n s = Ok (r, s') -> rv_value r = VNumber x ->
  is_finite x = true /\ (rv_integer r = true -> is_safe_integer x = true).
Proof.
  intros H Hx. apply evaluate_Ok_inv in H as (s1 & _ & _ & Hc & _).
  apply check_value_inv in Hc as [_ Hc]. auto.
Qed.

(** ** Inversion of the typed accessors *)

Lemma eval_boolean_Ok ev n s b s' :
  eval_boolean ev n s = Ok (b, s') -> exists r, ev n s = Ok (r, s') /\ rv_value r = VBool b.
Proof.
  unfold eval_boolean. intros H. inv_ok H. destruct (rv_value a) eqn:Hv; try done.
  injection H as <- <-. eauto.
Qed.

Lemma eval_numeric_Ok ev n s a s' :
  eval_numeric ev n s = Ok (a, s') ->
  exists r, ev n s = Ok (r, s') /\ rv_value r = VNumber a.1 /\ rv_integer r = a.2.
Proof.
  unfold eval_numeric. intros H. inv_ok H. destruct (rv_value a0) eqn:Hv; try done.
  injection H as <- <-. eauto.
Qed.

Lemma eval_string_Ok ev n s t s' :
  eval_string ev n s = Ok (t, s') -> exists r, ev n s = Ok (r, s') /\ rv_value r = VString t.
Proof.
  unfold eval_string. intros H. inv_ok H. destruct (rv_value a) eqn:Hv; try done.
  injection H as <- <-. eauto.
Qed.
End facts.

(** * Exceptions

    [throws_only P m]: every exception of [m] satisfies [P]. *)
Definition throws_only {S A} (P : exn -> Prop) (m : stM S exn A) : Prop :=
  forall s e, m s = Throw e -> P e.

Section throws.
Context {S A B : Type} (P : exn -> Prop).

Lemma throws_ret (a : A) : throws_only (S := S) P (mret a).
Proof. by intros s e [=]. Qed.
Lemma throws_throw e : P e -> throws_only (S := S) (A := A) P (throw e).
Proof. by intros He s e' [= <-]. Qed.
Lemma throws_bind (m : stM S exn A) (k : A -> stM S exn B) :
  throws_only P m -> (forall a, throws_only P (k a)) -> throws_only P (m ≫= k).
Proof.
  intros Hm Hk s e H. apply stM_bind_Throw_inv in H as [H|(a & s' & _ & H)]; [by eapply Hm | by eapply Hk].
Qed.
Lemma throws_lift (r : result exn A) :
  (forall e, r = Throw e -> P e) -> throws_only (S := S) P (lift r).
Proof. intros H s e. unfold lift. destruct r; [done|]. intros [= <-]. auto. Qed.
Lemma throws_gets (f : S -> A) : throws_only P (gets f).
Proof. by intros s e [=]. Qed.
Lemma throws_modify (f : S -> S) : throws_only P (modify f).
Proof. by intros s e [=]. Qed.
End throws.

#[export] Hint Resolve throws_ret throws_throw throws_bind throws_lift throws_gets throws_modify : billing.

(** A diagnostic of the engine, as opposed to an internal JavaScript error. *)
Definition is_billing_error (e : exn) : Prop := exists d, e = BillingExpressionError d.

Lemma err_billing c t : is_billing_error (err c t).
Proof. by eexists. Qed.
Lemma err_at_billing c t p : is_billing_error (err_at c t p).
Proof. by eexists. Qed.
#[export] Hint Resolve err_billing err_at_billing : billing.

Lemma split_path_billing path rest part parts e :
  split_path path rest part parts = Throw e -> is_billing_error e.
Proof.
  remember (length rest) as k eqn:Hk. revert rest part parts Hk.
  induction k as [k IH] using lt_wf_ind. intros [|c rest] part parts ->; simpl; [done|].
  destruct (c =? backslash)%N; [destruct rest as [|d rest]|destruct (c =? 46)%N].
  - intros [= <-]. auto with billing.
  - apply (IH (length rest)); simpl; auto; lia.
  - apply (IH (length rest)); simpl; auto; lia.
  - case_bool_decide; [intros [= <-]; auto with billing|].
    apply (IH (length rest)); simpl; auto; lia.
Qed.

Lemma walk_path_billing path value parts e :
  walk_path path value parts = Throw e -> is_billing_error e.
Proof.
  revert value. induction parts as [|k parts IH]; intros value; simpl; [done|].
  intros H. repeat dmatch_in H; simplify_eq; eauto with billing.
Qed.

Lemma readRequestPath_billing body path e :
  readRequestPath body path = Throw e -> is_billing_error e.
Proof.
  unfold readRequestPath. destruct (trim path); [done|]. intros H.
  apply bind_Throw_inv in H as [H|(parts & _ & H)];
    eauto using split_path_billing, walk_path_billing.
Qed.

Lemma sequence_Throw {E A} (l : list (result E A)) e :
  sequence l = Throw e -> Throw e ∈ l.
Proof.
  induction l as [|r l IH]; simpl; [done|]. destruct r as [a|e']; simpl.
  - intros H. destruct (sequence l); simpl in H; [done|]. injection H as ->. right. auto.
  - intros [= ->]. left.
Qed.

Lemma insert_entry_perm {A} (e : str * A) l : insert_entry e l ≡ₚ e :: l.
Proof.
  induction l as [|e' l IH]; simpl; [done|]. destruct (str_ltb e.1 e'.1); [done|].
  rewrite IH. apply Permutation_swap.
Qed.

Lemma sort_entries_perm {A} (l : list (str * A)) : sort_entries l ≡ₚ l.
Proof.
  unfold sort_entries. assert (forall acc, fold_left (fun acc e => insert_entry e acc) l acc ≡ₚ l ++ acc) as H.
  { induction l as [|e l IH]; intros acc; simpl; [done|]. rewrite IH, insert_entry_perm.
    by rewrite Permutation_middle. }
  rewrite H. by rewrite app_nil_r.
Qed.

Lemma number_text_billing x e : number_text x = Throw e -> is_billing_error e.
Proof. unfold number_text. intros H. repeat dmatch_in H; simplify_eq; auto with billing. Qed.

Lemma billingString_billing v depth e : billingString v depth = Throw e -> is_billing_error e.
Proof.
  revert depth e. induction v as [| |b|x|t|items IH|entries IH] using jsval_ind'; intros depth e; simpl;
    destruct (_ <? _)%Z; try (intros [= <-]; auto with billing; fail); try done.
  - apply number_text_billing.
  - intros H. apply bind_Throw_inv in H as [H|(? & _ & H)]; [|done].
    apply sequence_Throw in H. apply list_elem_of_fmap in H as (v & Hv & Hin).
    rewrite Forall_forall in IH. by eapply IH.
  - intros H. apply bind_Throw_inv in H as [H|(? & _ & H)]; [|done].
    apply sequence_Throw in H. apply list_elem_of_fmap in H as (en & Hv & Hin).
    rewrite sort_entries_perm in Hin. apply list_elem_of_fmap in Hin as (kv & -> & Hin).
    simpl in Hv. destruct (billingString kv.2 (depth + 1)) eqn:E; simpl in Hv; [done|].
    injection Hv as ->. rewrite Forall_forall in IH. by eapply (IH kv).
Qed.

Section throws_runtime.
Context {host : Host}.

Lemma timeInBillingZone_billing now zone e :
  timeInBillingZone now zone = Throw e -> is_billing_error e.
Proof. unfold timeInBillingZone. intros H. repeat dmatch_in H; simplify_eq; auto with billing. Qed.

Lemma apply_binary_billing o l r start e :
  apply_binary o l r start = Throw e -> is_billing_error e.
Proof.
  unfold apply_binary. intros H. destruct o; repeat dmatch_in H; simplify_eq; auto with billing.
Qed.

Variable env : runtime_env.
Variable ev : node -> RM runtime_value.

Lemma eval_boolean_billing n :
  throws_only is_billing_error (ev n) -> throws_only is_billing_error (eval_boolean ev n).
Proof. intros H. apply throws_bind; [done|]. intros r. destruct (rv_value r); auto with billing. Qed.
Lemma eval_numeric_billing n :
  throws_only is_billing_error (ev n) -> throws_only is_billing_error (eval_numeric ev n).
Proof. intros H. apply throws_bind; [done|]. intros r. destruct (rv_value r); auto with billing. Qed.
Lemma eval_string_billing n :
  throws_only is_billing_error (ev n) -> throws_only is_billing_error (eval_string ev n).
Proof. intros H. apply throws_bind; [done|]. intros r. destruct (rv_value r); auto with billing. Qed.
Lemma eval_variable_billing v start : throws_only is_billing_error (eval_variable env v start).
Proof. unfold eval_variable. repeat (dmatch; auto with billing). Qed.
Lemma request_of_billing detail start : throws_only is_billing_error (request_of env detail start).
Proof. unfold request_of. dmatch; auto with billing. Qed.

Lemma eval_call_billing f args start :
  length args = BILLING_FUNCTIONS f ->
  (forall x, x ∈ args -> throws_only is_billing_error (ev x)) ->
  throws_only is_billing_error (eval_call env ev f args start).
Proof.
  intros Har Hargs.
  assert (Hb : forall x, x ∈ args -> throws_only is_billing_error (eval_numeric ev x))
    by (intros; apply eval_numeric_billing; auto).
  assert (Hs : forall x, x ∈ args -> throws_only is_billing_error (eval_string ev x))
    by (intros; apply eval_string_billing; auto).
  destruct args as [|x [|y [|? ?]]]; destruct f; try discriminate Har;
    unfold eval_call, eval_has, eval_math1, eval_math2, eval_time, first, second;
    repeat (apply throws_bind; [first [apply Hb | apply Hs | apply Hargs]; set_solver | intros ?]);
    eauto using throws_bind, request_of_billing with billing.
  - apply throws_bind; [apply request_of_billing|]. intros request.
    apply throws_bind; [|auto with billing]. apply throws_lift. intros e. apply readRequestPath_billing.
  - destruct (ctx_usage _); auto with billing.
  - apply throws_bind; [auto with billing|]. intros [tv|]; [auto with billing|].
    apply throws_bind; [|auto with billing]. apply throws_lift. intros e. apply timeInBillingZone_billing.
  - destruct (_ && _); [|auto with billing]. apply throws_bind; [|auto with billing].
    apply throws_lift. intros e. apply billingString_billing.
Qed.

Lemma evaluateNode_billing n :
  arity_ok n -> (forall x, x ∈ children n -> throws_only is_billing_error (ev x)) ->
  throws_only is_billing_error (evaluateNode env ev n).
Proof.
  intros Har Hc.
  destruct n as [v i a b|v a b|f args a b|o y a b|o y z a b|c y z a b]; simpl in *.
  - auto with billing.
  - apply eval_variable_billing.
  - by apply eval_call_billing.
  - destruct o; (apply throws_bind; [first [apply eval_boolean_billing | apply eval_numeric_billing];
      apply Hc; set_solver | auto with billing]).
  - assert (forall x, x ∈ [y; z] -> throws_only is_billing_error (eval_boolean ev x)) as Hb
      by (intros; apply eval_boolean_billing; auto).
    unfold eval_binary.
    destruct o; try (apply throws_bind; [apply Hc; set_solver|]; intros l;
      apply throws_bind; [apply Hc; set_solver|]; intros r; apply throws_lift; intros e;
      apply apply_binary_billing);
      (apply throws_bind; [apply Hb; set_solver|]; intros []; auto with billing;
       apply throws_bind; [apply Hb; set_solver | auto with billing]).
  - unfold eval_conditional. apply throws_bind; [apply eval_boolean_billing, Hc; set_solver|].
    intros b0. apply throws_bind; [dmatch; [destruct b0|]; auto with billing|].
    intros _. destruct b0; apply Hc; set_solver.
Qed.
End throws_runtime.

(** Evaluating a well-formed tree only ever throws diagnostics of the engine: no
    JavaScript [TypeError] escapes from a missing argument. *)
Lemma evaluate_billing `{Host} env n : wf_node n -> throws_only is_billing_error (evaluate env n).
Proof.
  induction n as [n IH] using node_children_ind. intros Hwf s e He.
  apply evaluate_Throw_inv in He as [->|[He|[->| ->]]]; auto with billing.
  eapply evaluateNode_billing in He; [done | by destruct Hwf |].
  intros x Hx. apply IH; [done|]. by eapply arity_of_wf.
Qed.

(** * Static types are sound *)

Definition value_has_type (v : jsval) (t : expression_type) : Prop :=
  match t with
  | Ty_number => exists x, v = VNumber x
  | Ty_string => exists x, v = VString x
  | Ty_boolean => exists b, v = VBool b
  | Ty_nil => v = VNull
  | Ty_dynamic => True
  end.

(** Every addition has an operand whose type is known.  (An addition of two
    dynamic operands is typed as a number although it concatenates strings.) *)
Fixpoint sums_static (n : node) : Prop :=
  match n with
  | NLiteral _ _ _ _ | NVariable _ _ _ => True
  | NCall _ args _ _ => fold_right and True (map sums_static args)
  | NUnary _ x _ _ => sums_static x
  | NBinary o x y _ _ =>
      sums_static x /\ sums_static y /\
      (o = B_add -> type_of x <> Some Ty_dynamic \/ type_of y <> Some Ty_dynamic)
  | NConditional c y n _ _ => sums_static c /\ sums_static y /\ sums_static n
  end.

Lemma sums_static_children n x : sums_static n -> x ∈ children n -> sums_static x.
Proof.
  destruct n as [| |f args a b|o y a b|o y z a b|c y z a b]; simpl; intros Hs Hx;
    try (by apply not_elem_of_nil in Hx).
  - induction args as [|y l IH]; [by apply not_elem_of_nil in Hx|]. simpl in Hs.
    apply elem_of_cons in Hx as [->|Hx]; [tauto | apply IH; tauto].
  - apply list_elem_of_singleton in Hx as ->. done.
  - rewrite !elem_of_cons in Hx. destruct Hx as [->|[->|Hx]]; [tauto | tauto | by apply not_elem_of_nil in Hx].
  - rewrite !elem_of_cons in Hx.
    destruct Hx as [->|[->|[->|Hx]]]; [tauto | tauto | tauto | by apply not_elem_of_nil in Hx].
Qed.

Lemma apply_binary_type o l r start v t1 t2 t :
  apply_binary o l r start = Ok v -> is_logical o = false ->
  value_has_type (rv_value l) t1 -> value_has_type (rv_value r) t2 ->
  (o = B_add -> t1 <> Ty_dynamic \/ t2 <> Ty_dynamic) ->
  binary_type o t1 t2 = Some t -> value_has_type (rv_value v) t.
Proof.
  intros H Hlog Ht1 Ht2 Hsum Ht. unfold binary_type in Ht. rewrite Hlog in Ht.
  destruct (is_comparison o) eqn:Hcmp.
  { injection Ht as <-. destruct o; try discriminate; simpl in H;
      repeat dmatch_in H; simplify_eq; simpl; eauto. }
  destruct (decide (o = B_add)) as [->|Hadd].
  - specialize (Hsum eq_refl). simpl in H.
    destruct t1, t2; simpl in Ht; simplify_eq; simpl in *; destruct_and?;
      repeat match goal with H : exists _, _ |- _ => destruct H as [? ->] end; simpl in *;
      repeat dmatch_in H; simplify_eq; simpl; eauto; naive_solver.
  - rewrite bool_decide_false in Ht by done. simpl in Ht.
    destruct (_ && _) in Ht; [|done]. injection Ht as <-.
    destruct o; try discriminate; try done; simpl in H; repeat dmatch_in H; simplify_eq; simpl; eauto.
Qed.

Section type_soundness.
Context {host : Host} (env : runtime_env).

Lemma eval_call_type ev f args start s r s' ts t :
  eval_call env ev f args start s = Ok (r, s') -> call_type f ts = Some t ->
  value_has_type (rv_value r) t.
Proof.
  intros H Ht.
  destruct f; simpl in H, Ht; unfold eval_has, eval_math1, eval_math2, eval_time in H;
    repeat match type of H with
    | (_ ≫= _) _ = Ok _ => inv_ok H
    | (match ?x with _ => _ end) _ = Ok _ => destruct x eqn:?
    end; simplify_eq; unfold mret, stM_ret in *; simplify_eq;
    unfold guard_type in Ht; repeat dmatch_in Ht; simplify_eq; simpl; eauto.
Qed.

Lemma evaluate_type_sound n s r s' t :
  wf_node n -> sums_static n -> type_of n = Some t ->
  evaluate env n s = Ok (r, s') -> value_has_type (rv_value r) t.
Proof.
  revert s r s' t. induction n as [n IH] using node_children_ind.
  intros s r s' t Hwf Hs Ht H. apply evaluate_Ok_inv in H as (s1 & _ & H & _ & _).
  assert (forall x, x ∈ children n -> forall s r s' t, type_of x = Some t ->
    evaluate env x s = Ok (r, s') -> value_has_type (rv_value r) t) as IH'.
  { intros x Hx s2 r2 s2' t' Htx Hev. eapply IH; [exact Hx | by eapply arity_of_wf |
      by eapply sums_static_children | exact Htx | exact Hev]. }
  clear IH. destruct n as [v i a b|v a b|f args a b|o y a b|o y z a b|c y z a b]; simpl in H, Ht.
  - injection H as <- <-. injection Ht as <-. destruct v; simpl; eauto.
  - injection Ht as <-. unfold eval_variable in H. repeat dmatch_in H; simplify_eq;
      unfold mret, stM_ret, throw in *; simplify_eq; simpl; eauto.
  - destruct (all_some _) as [ts|]; [|done]. by eapply eval_call_type.
  - destruct (type_of y) as [ty|]; [|done]. simpl in Ht. unfold unary_type, guard_type in Ht.
    destruct o; simpl in H; inv_ok H; injection H as <- <-;
      destruct (accepts _ _); simplify_eq; simpl; eauto.
  - destruct (type_of y) as [ty|] eqn:Ey; [|done]. destruct (type_of z) as [tz|] eqn:Ez; [|done].
    simpl in Ht. destruct (is_logical o) eqn:Hlog.
    + unfold binary_type in Ht. rewrite Hlog in Ht. destruct (_ && _); simplify_eq.
      destruct o; try discriminate; simpl in H; inv_ok H;
        (destruct a0; [try (injection H as <- <-; simpl; eauto; fail)|try (injection H as <- <-; simpl; eauto; fail)]);
        try (inv_ok H); injection H as <- <-; simpl; eauto.
    + assert ((l ← evaluate env y; r ← evaluate env z; lift (apply_binary o l r a))
                (set_depth (rs_depth s + 1) s) = Ok (r, s1)) as H'
        by (destruct o; try discriminate; exact H).
      clear H. inv_ok H'. inv_ok H'. unfold lift in H'.
      destruct (apply_binary o a0 a1 a) as [v|] eqn:Hb; [|done]. injection H' as <- <-.
      eapply apply_binary_type; [exact Hb | exact Hlog | eapply (IH' y); [set_solver|exact Ey|eassumption]
        | eapply (IH' z); [set_solver|exact Ez|eassumption] | | exact Ht].
      intros ->. destruct Hs as (_ & _ & Hs). destruct (Hs eq_refl); [left|right]; congruence.
  - destruct (type_of c) as [tc|]; [|done]. destruct (type_of y) as [ty|] eqn:Ey; [|done].
    destruct (type_of z) as [tz|] eqn:Ez; [|done]. simpl in Ht. unfold conditional_type in Ht.
    destruct (accepts tc Ty_boolean); [|done]. injection Ht as <-.
    case_bool_decide as Heq; [subst tz | done].
    unfold eval_conditional in H. inv_ok H. inv_ok H.
    destruct a0; [eapply (IH' y) | eapply (IH' z)]; try exact H; eauto; set_solver.
Qed.
End type_soundness.

(** * Running a compiled expression *)

(** What a successful run is: the tokens are valid, the constructor succeeds, and
    the value of the tree is a finite non-negative number. *)
Lemma run_compiled_Ok `{Host} c ctx clock r :
  run_compiled c ctx clock = Ok r ->
  exists env s0 v s x,
    fold_result check_token (default [] (ctx_tokens ctx)) tt = Ok tt /\
    new_runtime c ctx clock = Ok (env, s0) /\ evaluate env (c_ast c) s0 = Ok (v, s) /\
    rv_value v = VNumber x /\ is_finite x = true /\ n_ltb x n_zero = false /\
    r = Success x (rs_billingUnit s) (rs_fixedPrice s)
          (if bool_decide (V_image_count ∈ c_variables c)
           then Some (default n_one (ctx_imageCount ctx)) else None)
          (rs_matchedTier s) (rs_requestRules s).
Proof.
  unfold run_compiled. intros Hr. inv_ok Hr. inv_ok Hr. destruct a0 as [env s0]. inv_ok Hr.
  destruct a0 as [v s]. destruct (rv_value v) as [| | |x| | |] eqn:Hv; try done.
  destruct (negb (is_finite x) || n_ltb x n_zero) eqn:Hx; [done|]. injection Hr as <-.
  apply orb_false_iff in Hx as [Hx1 Hx2]. apply negb_false_iff in Hx1. destruct a.
  eauto 20.
Qed.

Lemma new_runtime_Ok `{Host} c ctx clock env s :
  new_runtime c ctx clock = Ok (env, s) ->
  re_compiled env = c /\ re_context env = ctx /\ re_now env = default clock (ctx_now ctx) /\
  fold_result add_header (default [] (ctx_request ctx ≫= req_headers)) ∅ = Ok (re_headers env) /\
  s = RuntimeState
        (map (fun rule => RequestRule (cr_cond rule) (cr_multiplier rule) false) (c_requestRules c))
        [] Unit_token None ∅ 0.
Proof. unfold new_runtime. intros Hn. inv_ok Hn. injection Hn as <- <-. auto. Qed.

(** * Requests *)

(** * Escaped paths *)

(** Characters a path gives a meaning to. *)
Definition path_special (c : N) : bool :=
  (c =? backslash)%N || (c =? 46)%N || bool_decide (c ∈ js "*?[]()|@!").

(** The path text of a key: every special character escaped. *)
Fixpoint escape_key (key : str) : str :=
  match key with
  | [] => []
  | c :: key' => (if path_special c then [backslash; c] else [c]) ++ escape_key key'
  end.
Definition escape_path (keys : list str) : str := join (js ".") (map escape_key keys).

Lemma split_path_key path key rest part parts :
  split_path path (escape_key key ++ rest) part parts = split_path path rest (part ++ key) parts.
Proof.
  revert part. induction key as [|c key IH]; intros part; cbn [escape_key].
  { by rewrite app_nil_r. }
  destruct (path_special c) eqn:Hc.
  - cbn. rewrite IH. by rewrite <- (assoc_L (++)).
  - unfold path_special in Hc. apply orb_false_iff in Hc as [Hc H3]. apply orb_false_iff in Hc as [H1 H2].
    cbn [app split_path]. rewrite H1, H2, H3, IH. by rewrite <- (assoc_L (++)).
Qed.

Lemma split_path_escape path keys part parts :
  keys <> [] ->
  split_path path (escape_path keys) part parts =
  Ok (parts ++ match keys with [] => [] | k :: ks => (part ++ k) :: ks end).
Proof.
  unfold escape_path. revert part parts. induction keys as [|k keys IH]; intros part parts Hk; [done|].
  destruct keys as [|k' keys].
  - simpl. rewrite <- (app_nil_r (escape_key k)), split_path_key. by simpl.
  - change (join (js ".") (map escape_key (k :: k' :: keys)))
      with (escape_key k ++ js "." ++ join (js ".") (map escape_key (k' :: keys))).
    rewrite split_path_key. change (js "." ++ ?x) with (46%N :: x). cbn [split_path].
    change ((46 =? backslash)%N) with false. cbn [N.eqb Pos.eqb]. rewrite IH by done.
    by rewrite <- (assoc_L (++)).
Qed.

(** Reading an escaped path follows exactly its keys. *)
Lemma readRequestPath_escape body keys :
  keys <> [] -> escape_path keys <> [] -> trimmed (escape_path keys) ->
  readRequestPath body (escape_path keys) = walk_path (escape_path keys) body keys.
Proof.
  intros Hk Hne Ht. unfold readRequestPath. rewrite trimmed_trim by done.
  rewrite split_path_escape by done.
  destruct (escape_path keys) eqn:E; [done|]. simpl. by destruct keys.
Qed.

(** An object whose nesting follows the keys. *)
Fixpoint nested (keys : list str) (v : jsval) : jsval :=
  match keys with
  | [] => v
  | k :: keys' => VObject [(k, nested keys' v)]
  end.

Lemma walk_nested path keys v :
  v <> VUndefined -> walk_path path (nested keys v) keys = Ok v.
Proof.
  intros Hv. induction keys as [|k keys IH]; simpl; [by destruct v|].
  by rewrite bool_decide_true.
Qed.

(** * Textual form of objects *)

Section sorting.
Context {A : Type}.
Implicit Types (l : list (str * A)) (e : str * A).

Fixpoint key_sorted l : Prop :=
  match l with
  | e :: l' => Forall (fun e' => str_ltb e'.1 e.1 = false) l' /\ key_sorted l'
  | [] => True
  end.

Lemma insert_entry_sorted e l : key_sorted l -> key_sorted (insert_entry e l).
Proof.
  induction l as [|e' l IH]; simpl; [by repeat constructor|]. intros [Hf Hs].
  destruct (str_ltb e.1 e'.1) eqn:Hlt; simpl.
  - split; [|done]. constructor.
    + destruct (str_ltb e'.1 e.1) eqn:E; [|done].
      pose proof (str_ltb_trans _ _ _ E Hlt). by rewrite str_ltb_irrefl in *.
    + eapply Forall_impl; [exact Hf|]. intros e'' He''. simpl in *.
      destruct (str_ltb e''.1 e.1) eqn:E; [|done]. pose proof (str_ltb_trans _ _ _ E Hlt). congruence.
  - split; [|auto]. rewrite Forall_forall. intros x Hx. rewrite insert_entry_perm in Hx.
    apply elem_of_cons in Hx as [->|Hx]; [done|]. rewrite Forall_forall in Hf. auto.
Qed.

Lemma sort_entries_sorted l : key_sorted (sort_entries l).
Proof.
  unfold sort_entries. assert (forall acc, key_sorted acc ->
    key_sorted (fold_left (fun acc e => insert_entry e acc) l acc)) as H; [|by apply H].
  induction l as [|e l IH]; intros acc Hacc; simpl; auto using insert_entry_sorted.
Qed.

(** A sorted arrangement of entries with distinct keys is unique. *)
Lemma key_sorted_unique l1 l2 :
  NoDup (map fst l1) -> key_sorted l1 -> key_sorted l2 -> l1 ≡ₚ l2 -> l1 = l2.
Proof.
  revert l2. induction l1 as [|e1 l1 IH]; intros l2 Hnd Hs1 Hs2 Hp.
  - by apply Permutation_nil in Hp.
  - destruct l2 as [|e2 l2]; [by symmetry in Hp; apply Permutation_nil_cons in Hp|].
    simpl in Hnd, Hs1, Hs2. apply NoDup_cons in Hnd as [Hn1 Hnd]. destruct Hs1 as [Hf1 Hs1], Hs2 as [Hf2 Hs2].
    destruct (decide (e1.1 = e2.1)) as [Heq|Hne].
    + assert (e1 = e2) as ->.
      { assert (e2 ∈ e1 :: l1) as H2 by (rewrite Hp; constructor).
        apply elem_of_cons in H2 as [->|H2]; [done|]. destruct Hn1. rewrite Heq. by apply list_elem_of_fmap_2. }
      f_equal. apply IH; auto. by apply Permutation_cons_inv in Hp.
    + assert (e1 ∈ l2) as H1.
      { assert (e1 ∈ e2 :: l2) as H1 by (rewrite <- Hp; constructor). apply elem_of_cons in H1 as [->|]; done. }
      assert (e2 ∈ l1) as H2.
      { assert (e2 ∈ e1 :: l1) as H2 by (rewrite Hp; constructor). apply elem_of_cons in H2 as [->|]; done. }
      rewrite Forall_forall in Hf1, Hf2. pose proof (Hf1 _ H2) as L1. pose proof (Hf2 _ H1) as L2.
      pose proof (str_ltb_total _ _ L1 ltac:(done)). congruence.
Qed.

Lemma sort_entries_permutation l1 l2 :
  NoDup (map fst l1) -> l1 ≡ₚ l2 -> sort_entries l1 = sort_entries l2.
Proof.
  intros Hnd Hp. apply key_sorted_unique; auto using sort_entries_sorted.
  - by rewrite sort_entries_perm.
  - by rewrite !sort_entries_perm.
Qed.
End sorting.

(** * UTC values *)

(** The day of the year of a day of a 400-year era. *)
Lemma day_of_year_range doe :
  (0 <= doe < 146097)%Z ->
  let yoe := ((doe - doe / 1460 + doe / 36524 - doe / 146096) / 365)%Z in
  (0 <= doe - (365 * yoe + yoe / 4 - yoe / 100) <= 365)%Z.
Proof.
  intros H. cbv zeta.
  pose proof (Z.div_mod doe 36524 ltac:(lia)). pose proof (Z.mod_pos_bound doe 36524 ltac:(lia)).
  assert (((doe / 146096 = 0 /\ doe < 146096) \/ doe = 146096)%Z) as [[E E']|E];
    [ | |subst doe; vm_compute; split; discriminate].
  { destruct (Z.eq_dec doe 146096%Z); [auto | left; split; [apply Z.div_small; lia | lia]]. }
  rewrite E. set (q := (doe / 36524)%Z) in *. set (r := (doe mod 36524)%Z) in *.
  assert (Hq : (q = 0 \/ q = 1 \/ q = 2 \/ q = 3)%Z) by lia. clear E. clearbody q r.
  destruct Hq as [Hq|[Hq|[Hq|Hq]]]; subst q; Z.to_euclidean_division_equations; lia.
Qed.

Lemma civil_month_day_range days :
  (1 <= (civil_month_day days).1 <= 12 /\ 1 <= (civil_month_day days).2 <= 31)%Z.
Proof.
  pose proof (Z.mod_pos_bound (days + 719468) 146097 ltac:(lia)) as Hb.
  pose proof (day_of_year_range _ Hb) as Hd. cbv zeta in Hd. unfold civil_month_day. cbv zeta.
  set (doe := ((days + 719468) mod 146097)%Z) in *.
  set (yoe := ((doe - doe / 1460 + doe / 36524 - doe / 146096) / 365)%Z) in *.
  revert Hd. generalize (doe - (365 * yoe + yoe / 4 - yoe / 100))%Z as doy.
  clear. intros doy Hd. simpl. destruct (Z.ltb_spec ((5 * doy + 2) / 153) 10);
    Z.to_euclidean_division_equations; lia.
Qed.
