(* ===== verification/BillingRuntimeTrace.v ===== *)
(** What an evaluation does to the fields of [BillingRuntime], and what it reads
    of its context: frame conditions, the request-rule trace, fixed prices, and
    independence from everything the expression does not mention. *)

From S2P Require Import Prelude JsString JsNumber JsValue BillingTypes BillingParserFacts BillingCompile BillingTyping BillingCompileFacts BillingRuntime BillingRuntimeFacts.

(** * Frame conditions *)

(** Every successful run of [m] relates its initial and final state by [R]. *)
Definition keeps {S A} (R : relation S) (m : stM S exn A) : Prop :=
  forall s a s', m s = Ok (a, s') -> R s s'.

Section keeps_rules.
Context {S A B : Type} (R : relation S) `{!PreOrder R}.

Lemma keeps_ret (a : A) : keeps R (mret a).
Proof. by intros s a' s' [= _ <-]. Qed.
Lemma keeps_throw e : keeps (A := A) R (throw e).
Proof. by intros s a' s' [=]. Qed.
Lemma keeps_bind (m : stM S exn A) (k : A -> stM S exn B) :
  keeps R m -> (forall a, keeps R (k a)) -> keeps R (m ≫= k).
Proof. intros Hm Hk s b s' H. inv_ok H. etrans; [by eapply Hm | by eapply Hk]. Qed.
Lemma keeps_lift (r : result exn A) : keeps R (lift r).
Proof. intros s a s'. unfold lift. by destruct r; [intros [= _ <-]|]. Qed.
Lemma keeps_gets (f : S -> A) : keeps R (gets f).
Proof. by intros s a s' [= _ <-]. Qed.
Lemma keeps_modify (f : S -> S) : (forall s, R s (f s)) -> keeps R (modify f).
Proof. by intros Hf s a s' [= _ <-]. Qed.
End keeps_rules.

(** Decomposes a block into its steps, closing those that leave the state alone. *)
Ltac keeps_steps :=
  repeat first [ assumption | apply keeps_throw | apply keeps_ret; apply _ | apply keeps_lift; apply _
               | apply keeps_gets; apply _ | apply keeps_bind; [apply _ | | intros ?] | dmatch ].

(** A relation that is kept by the state updates an evaluation may make; the
    updates of [tier] and [fixed] only where those functions may be called, the
    marking of a rule only where its condition held. *)
Class FrameRelation {host : Host} (R : relation runtime_state) (may_tier may_fix : Prop)
    (may_match : nat -> Prop) : Prop := {
  frame_preorder :: PreOrder R;
  frame_depth s s' :
    R (set_depth (rs_depth s + 1) s) s' -> R s (set_depth (rs_depth s' - 1) s');
  frame_times zone tv s : R s (set_times zone tv s);
  frame_match i s : may_match i -> R s (match_rule i s);
  frame_tier name s : may_tier -> R s (set_tier name s);
  frame_fixed amount s : may_fix -> R s (set_fixed amount s);
}.

Section frame.
Context {host : Host} (R : relation runtime_state) (may_tier may_fix : Prop)
  (may_match : nat -> Prop) `{!FrameRelation R may_tier may_fix may_match} (env : runtime_env).

(** The position of the rule recorded for a node. *)
Definition rule_index (n : node) : option nat :=
  find_index (fun rule => bool_decide (cr_node rule = n)) (c_requestRules (re_compiled env)).

Section node.
Variable ev : node -> RM runtime_value.

Lemma eval_boolean_keeps x : keeps R (ev x) -> keeps R (eval_boolean ev x).
Proof. intros H. unfold eval_boolean, eval_numeric, eval_string. keeps_steps. Qed.
Lemma eval_numeric_keeps x : keeps R (ev x) -> keeps R (eval_numeric ev x).
Proof. intros H. unfold eval_boolean, eval_numeric, eval_string. keeps_steps. Qed.
Lemma eval_string_keeps x : keeps R (ev x) -> keeps R (eval_string ev x).
Proof. intros H. unfold eval_boolean, eval_numeric, eval_string. keeps_steps. Qed.

Lemma first_keeps {A} args (k : node -> RM A) :
  (forall x, x ∈ args -> keeps R (k x)) -> keeps R (first args k).
Proof. destruct args; simpl; intros H; [apply keeps_throw | apply H; constructor]. Qed.
Lemma second_keeps {A} args (k : node -> RM A) :
  (forall x, x ∈ args -> keeps R (k x)) -> keeps R (second args k).
Proof.
  destruct args as [|x [|y l]]; simpl; intros H; [apply keeps_throw | apply keeps_throw |].
  apply H. repeat constructor.
Qed.

Lemma eval_call_keeps f args start :
  (f = F_tier -> may_tier) -> (f = F_fixed -> may_fix) ->
  (forall x, x ∈ args -> keeps R (ev x)) -> keeps R (eval_call env ev f args start).
Proof.
  intros Ht Hf Hargs.
  assert (Hn : keeps R (first args (eval_numeric ev))) by (apply first_keeps; auto using eval_numeric_keeps).
  assert (Hn2 : keeps R (second args (eval_numeric ev))) by (apply second_keeps; auto using eval_numeric_keeps).
  assert (Hs : keeps R (first args (eval_string ev))) by (apply first_keeps; auto using eval_string_keeps).
  assert (Hs2 : keeps R (second args (eval_string ev))) by (apply second_keeps; auto using eval_string_keeps).
  assert (He : keeps R (first args ev)) by (by apply first_keeps).
  assert (Hr : forall d st, keeps R (request_of env d st))
    by (intros; unfold request_of; keeps_steps).
  destruct f; simpl; unfold eval_has, eval_math1, eval_math2, eval_time;
    keeps_steps; try apply Hr; apply keeps_modify; intros s;
    first [apply frame_tier; auto | apply frame_fixed; auto | apply frame_times].
Qed.

Lemma evaluateNode_keeps n :
  (forall args a b, n = NCall F_tier args a b -> may_tier) ->
  (forall args a b, n = NCall F_fixed args a b -> may_fix) ->
  (forall c y z a b i s s', n = NConditional c y z a b -> rule_index n = Some i ->
     eval_boolean ev c s = Ok (true, s') -> may_match i) ->
  (forall x, x ∈ children n -> keeps R (ev x)) -> keeps R (evaluateNode env ev n).
Proof.
  intros Ht Hf Hm Hc.
  assert (Hb : forall x, x ∈ children n -> keeps R (eval_boolean ev x)) by auto using eval_boolean_keeps.
  assert (Hn : forall x, x ∈ children n -> keeps R (eval_numeric ev x)) by auto using eval_numeric_keeps.
  destruct n as [v i a b|v a b|f args a b|o y a b|o y z a b|c y z a b]; simpl in *.
  - apply keeps_ret, _.
  - unfold eval_variable. keeps_steps.
  - apply eval_call_keeps; [intros ->; by eapply Ht | intros ->; by eapply Hf | done].
  - destruct o; (apply keeps_bind; [apply _ | first [apply Hb | apply Hn]; set_solver | intros ?; apply keeps_ret, _]).
  - destruct o; simpl;
      repeat first [ apply keeps_bind; [apply _ | first [apply Hb; set_solver | apply Hc; set_solver] | intros ?]
                   | apply keeps_lift, _ | apply keeps_ret, _ | dmatch ].
  - intros s r s' H. unfold eval_conditional in H. inv_ok H. rename H0 into Hcond.
    etrans; [eapply Hb; [|exact Hcond]; set_solver|]. inv_ok H. etrans; [|destruct a0; eapply Hc; try exact H; set_solver].
    fold (rule_index (NConditional c y z a b)) in H0.
    destruct (rule_index (NConditional c y z a b)) as [i|] eqn:Hi; [|by injection H0 as _ <-].
    destruct a0; [|by injection H0 as _ <-]. injection H0 as _ <-. apply frame_match. by eapply Hm.
Qed.
End node.

Lemma evaluate_keeps n :
  (uses_function (postorder n) F_tier -> may_tier) ->
  (uses_function (postorder n) F_fixed -> may_fix) ->
  (forall c y z a b i s s', NConditional c y z a b ∈ postorder n ->
     rule_index (NConditional c y z a b) = Some i ->
     eval_boolean (evaluate env) c s = Ok (true, s') -> may_match i) ->
  keeps R (evaluate env n).
Proof.
  induction n as [n IH] using node_children_ind. intros Ht Hf Hm s r s' H.
  apply evaluate_Ok_inv in H as (s1 & _ & H & _ & ->). apply frame_depth.
  pose proof (postorder_self n) as Hself.
  eapply evaluateNode_keeps in H; [exact H | | | |].
  - intros args a b ->. apply Ht. by exists args, a, b.
  - intros args a b ->. apply Hf. by exists args, a, b.
  - intros c y z a b i s2 s2' -> Hi. by eapply Hm.
  - intros x Hx. apply IH; [done | | |].
    + intros (args & a & b & Hin). apply Ht. exists args, a, b. by eapply children_postorder.
    + intros (args & a & b & Hin). apply Hf. exists args, a, b. by eapply children_postorder.
    + intros c y z a b i s2 s2' Hin. eapply Hm. by eapply children_postorder.
Qed.
End frame.

(** ** Pricing fields *)

(** The tier, unit and fixed price, which only [tier] and [fixed] assign. *)
Definition pricing_of {host : Host} (s : runtime_state) : str * billing_unit * option number :=
  (rs_matchedTier s, rs_billingUnit s, rs_fixedPrice s).

#[export] Instance same_pricing_frame {host : Host} :
  FrameRelation (fun s s' => pricing_of s = pricing_of s') False False (fun _ => True).
Proof. split; try done; [split; [by intros ? | by intros ??? -> ->]]. Qed.

Lemma evaluate_unmarked `{Host} env n s r s' :
  unmarked n -> evaluate env n s = Ok (r, s') -> pricing_of s' = pricing_of s.
Proof.
  intros [Ht Hf] He. symmetry. revert He.
  apply (evaluate_keeps (fun s s' => pricing_of s = pricing_of s') False False (fun _ => True) env n); auto.
Qed.

(** ** The depth counter *)

#[export] Instance depth_frame {host : Host} :
  FrameRelation (fun s s' => rs_depth s = rs_depth s') True True (fun _ => True).
Proof.
  split; try done; [split; [by intros ? | by intros ??? -> ->]|].
  intros s s'. simpl. lia.
Qed.

Lemma evaluate_depth `{Host} env n s r s' :
  evaluate env n s = Ok (r, s') -> rs_depth s' = rs_depth s.
Proof.
  intros He. symmetry. revert He.
  apply (evaluate_keeps (fun s s' => rs_depth s = rs_depth s') True True (fun _ => True) env n); auto.
Qed.

(** ** The request-rule trace *)

(** [holds i] says that the condition of rule [i] was evaluated to true. *)
Definition trace_step {host : Host} (holds : nat -> Prop) (s s' : runtime_state) : Prop :=
  map r_cond (rs_requestRules s') = map r_cond (rs_requestRules s) /\
  map r_multiplier (rs_requestRules s') = map r_multiplier (rs_requestRules s) /\
  forall i r', rs_requestRules s' !! i = Some r' -> exists r, rs_requestRules s !! i = Some r /\
    (r_matched r = true -> r_matched r' = true) /\
    (r_matched r' = true -> r_matched r = true \/ holds i).

Lemma map_alter_same {A B} (g : A -> B) (f : A -> A) i (l : list A) :
  (forall x, g (f x) = g x) -> map g (alter f i l) = map g l.
Proof.
  intros Hg. revert i. induction l as [|x l IH]; intros [|i]; simpl; try done; [by rewrite Hg|].
  f_equal. apply IH.
Qed.

#[export] Instance trace_frame {host : Host} holds :
  FrameRelation (trace_step holds) True True holds.
Proof.
  assert (Hrefl : forall s s', rs_requestRules s' = rs_requestRules s -> trace_step holds s s').
  { intros s s' E. unfold trace_step. rewrite E. naive_solver. }
  split.
  - split; [intros s; by apply Hrefl|]. intros s1 s2 s3 (H1 & H2 & H3) (H4 & H5 & H6).
    split; [congruence|]. split; [congruence|]. intros i r3 Hr3.
    destruct (H6 _ _ Hr3) as (r2 & Hr2 & Ha & Hb). destruct (H3 _ _ Hr2) as (r1 & Hr1 & Hc & Hd).
    exists r1. naive_solver.
  - intros s s' (H1 & H2 & H3). split; [done|]. split; done.
  - intros. by apply Hrefl.
  - intros i s Hi. split; [by apply map_alter_same|]. split; [by apply map_alter_same|]. simpl.
    intros j r'. rewrite list_lookup_alter. case_decide; subst;
      [|intros ->; exists r'; naive_solver].
    destruct (rs_requestRules s !! _) as [r|]; simpl; [|done]. intros [= <-]. exists r. naive_solver.
  - intros. by apply Hrefl.
  - intros. by apply Hrefl.
Qed.

Section rule_trace.
Context {host : Host} (env : runtime_env) `{!CompiledOk (re_compiled env)}.
Abbreviation rules := (c_requestRules (re_compiled env)).

(** The condition of rule [i] was evaluated to true from some state. *)
Definition condition_held (i : nat) : Prop :=
  exists r s s', rules !! i = Some r /\
    eval_boolean (evaluate env) (cr_condition r) s = Ok (true, s').

Lemma rule_index_Some n i : rule_index env n = Some i ->
  exists r, rules !! i = Some r /\ cr_node r = n.
Proof.
  unfold rule_index. intros H. apply find_index_Some in H as (r & Hr & Hn). breflect. eauto.
Qed.

Lemma rule_shape_at i r : rules !! i = Some r -> rule_ok (c_source (re_compiled env)) (postorder (c_ast (re_compiled env))) r.
Proof.
  intros Hr. destruct (compiled_rules (c := re_compiled env)) as (H & _). rewrite Forall_forall in H.
  apply H. by eapply list_elem_of_lookup_2.
Qed.

Lemma evaluate_trace n s v s' : evaluate env n s = Ok (v, s') -> trace_step condition_held s s'.
Proof.
  apply (evaluate_keeps (trace_step condition_held) True True condition_held env n); auto.
  intros c y z a b i s1 s1' _ Hi Hc. apply rule_index_Some in Hi as (r & Hr & Hn).
  exists r, s1, s1'. split; [done|]. pose proof (rule_shape_at _ _ Hr) as [_ _ Hs _].
  destruct Hs as (one & i1 & a1 & b1 & i2 & a2 & b2 & a3 & b3 & Hs & _). rewrite Hs in Hn.
  by injection Hn as -> _.
Qed.

Lemma rule_index_of i r : rules !! i = Some r -> rule_index env (cr_node r) = Some i.
Proof.
  intros Hr. unfold rule_index. destruct (find_index _ rules) as [j|] eqn:Hj.
  - apply find_index_Some in Hj as (r' & Hr' & Hn). breflect. f_equal.
    eapply (NoDup_lookup (map cr_node rules)); [by apply compiled_rule_nodes_NoDup | |].
    + rewrite list_lookup_fmap, Hr'. simpl. reflexivity.
    + rewrite list_lookup_fmap, Hr. simpl. by rewrite Hn.
  - apply find_index_None in Hj. rewrite Forall_forall in Hj.
    specialize (Hj r (list_elem_of_lookup_2 _ _ _ Hr)). by breflect.
Qed.

(** Evaluating the node of a rule multiplies by its multiplier and marks it
    exactly when its condition holds. *)
Lemma evaluate_rule_node i r s v s' :
  rules !! i = Some r -> evaluate env (cr_node r) s = Ok (v, s') ->
  exists b s1 one, eval_boolean (evaluate env) (cr_condition r) (set_depth (rs_depth s + 1) s) = Ok (b, s1) /\
    n_eqb one n_one = true /\
    rv_value v = VNumber (if b : bool then cr_multiplier r else one) /\
    rs_requestRules s' =
      (if b then alter (fun q => RequestRule (r_cond q) (r_multiplier q) true) i (rs_requestRules s1)
       else rs_requestRules s1).
Proof.
  intros Hr He. pose proof (rule_index_of _ _ Hr) as Hi.
  pose proof (rule_shape_at _ _ Hr) as [_ _ Hs _].
  destruct Hs as (one & i1 & a1 & b1 & i2 & a2 & b2 & a3 & b3 & Hs & Hone).
  apply evaluate_Ok_inv in He as (s1 & _ & He & _ & ->). rewrite Hs in He, Hi. simpl in He.
  unfold eval_conditional in He. fold (rule_index env (NConditional (cr_condition r)
    (NLiteral (LNumber (cr_multiplier r)) i1 a1 b1) (NLiteral (LNumber one) i2 a2 b2) a3 b3)) in He.
  rewrite Hi in He. inv_ok He. exists a, s0, one. split; [done|]. split; [done|].
  inv_ok He. destruct a; injection H0 as _ <-;
    apply evaluate_Ok_inv in He as (s3 & _ & He & _ & ->); injection He as <- <-; done.
Qed.
End rule_trace.

(** * Fixed prices *)

(** The literal amount of a [fixed(amount)] price. *)
Definition fixed_amount (price : node) : option number :=
  match price with
  | NCall F_fixed (NLiteral (LNumber v) _ _ _ :: _) _ _ => Some v
  | _ => None
  end.

Lemma unmarked_leaf n : children n = [] -> (forall f args a b, n <> NCall f args a b) -> unmarked n.
Proof.
  intros Hc Hn. unfold unmarked, uses_function. rewrite postorder_unfold, Hc. simpl.
  split; intros (args & a & b & Hin); apply list_elem_of_singleton in Hin; by eapply Hn.
Qed.

Lemma unmarked_conditional c y z a b :
  unmarked c -> unmarked y -> unmarked z -> unmarked (NConditional c y z a b).
Proof.
  unfold unmarked, uses_function. rewrite (postorder_unfold (NConditional _ _ _ _ _)). simpl.
  rewrite app_nil_r. intros [Hc1 Hc2] [Hy1 Hy2] [Hz1 Hz2].
  split; intros (args & a' & b' & Hin); rewrite !elem_of_app, list_elem_of_singleton in Hin;
    destruct Hin as [[Hin|[Hin|Hin]]|Hin]; eauto 10; discriminate.
Qed.

Section fixed_prices.
Context {host : Host} (env : runtime_env) `{!CompiledOk (re_compiled env)}.
Abbreviation rules := (c_requestRules (re_compiled env)).

Lemma scale_factor_unmarked n : scale_factor rules n -> unmarked n.
Proof.
  intros [Hi|(r & Hr & <- & _ & Hu)].
  - destruct n; try done. apply unmarked_leaf; done.
  - apply list_elem_of_lookup in Hr as [i Hr]. pose proof (rule_shape_at env _ _ Hr) as [_ _ Hs _].
    destruct Hs as (one & i1 & a1 & b1 & i2 & a2 & b2 & a3 & b3 & -> & _).
    by apply unmarked_conditional; [done | apply unmarked_leaf | apply unmarked_leaf].
Qed.

(** The state after pricing by the leaf [tier(name, price)]. *)
Definition priced_by (n : node) (s s' : runtime_state) : Prop :=
  exists name price rest a b label st st',
    NCall F_tier (name :: price :: rest) a b ∈ postorder n /\
    eval_string (evaluate env) name st = Ok (label, st') /\
    pricing_of s' =
      match fixed_amount price with
      | Some v => (label, Unit_request, Some v)
      | None => (label, rs_billingUnit s, rs_fixedPrice s)
      end.

Lemma priced_by_pricing n s1 s1' s2 s2' :
  pricing_of s1 = pricing_of s2 -> pricing_of s1' = pricing_of s2' ->
  priced_by n s1 s1' -> priced_by n s2 s2'.
Proof.
  intros [= _ E1 E2] E3 (name & price & rest & a & b & label & st & st' & Hin & Hs & Hp).
  exists name, price, rest, a, b, label, st, st'. split; [done|]. split; [done|].
  by rewrite <- E3, Hp, E1, E2.
Qed.

Lemma priced_by_child n x s s' : x ∈ children n -> priced_by x s s' -> priced_by n s s'.
Proof.
  intros Hx (name & price & rest & a & b & label & st & st' & Hin & H).
  exists name, price, rest, a, b, label, st, st'. split; [|done]. by eapply children_postorder.
Qed.

Lemma eval_tier_leaf name price rest start s r s' :
  eval_call env (evaluate env) F_tier (name :: price :: rest) start s = Ok (r, s') ->
  exists label s1 amount s2, eval_string (evaluate env) name s = Ok (label, s1) /\
    eval_numeric (evaluate env) price s1 = Ok (amount, s2) /\ s' = set_tier label s2 /\
    rv_value r = VNumber amount.1.
Proof.
  simpl. intros H. inv_ok H. inv_ok H. inv_ok H. injection H2 as <- <-. injection H as <- <-.
  eauto 10.
Qed.

Lemma eval_fixed_price v i a1 b1 rest a b s r s' :
  evaluate env (NCall F_fixed (NLiteral (LNumber v) i a1 b1 :: rest) a b) s = Ok (r, s') ->
  pricing_of s' = (rs_matchedTier s, Unit_request, Some v) /\ rv_value r = VNumber (n_mul v n_million).
Proof.
  intros H. apply evaluate_Ok_inv in H as (s1 & _ & H & _ & ->). simpl in H.
  inv_ok H. apply eval_numeric_Ok in H0 as (r0 & H0 & Hv & _).
  apply evaluate_Ok_inv in H0 as (s2 & _ & H0 & _ & ->). injection H0 as <- <-. simpl in Hv.
  injection Hv as Hv. inv_ok H. injection H0 as <- <-. injection H as <- <-. by rewrite <- Hv.
Qed.

Lemma evaluate_fixed_tree n s r s' :
  fixed_tree rules n -> evaluate env n s = Ok (r, s') -> priced_by n s s'.
Proof.
  intros Ht. revert s r s'. induction Ht as
    [name v i a1 b1 rest1 a2 b2 rest2 a b Hn Hv Hm|name price rest a b Hn Hp|c y z a b Hc Hy IHy Hz IHz
    |x y a b Hf Hx IH|x y a b Hf Hx IH]; intros s r s' H;
    pose proof H as H0; apply evaluate_Ok_inv in H0 as (s1 & _ & H0 & _ & ->).
  - cbn [evaluateNode] in H0. apply eval_tier_leaf in H0 as (label & s2 & amount & s3 & Hs & Hm' & -> & _).
    eexists name, _, rest2, a, b, label, _, _. split; [apply postorder_self|]. split; [exact Hs|]. simpl.
    apply eval_numeric_Ok in Hm' as (r1 & Hm' & _). apply eval_fixed_price in Hm' as [Hp _].
    unfold pricing_of in *. simpl. congruence.
  - cbn [evaluateNode] in H0. apply eval_tier_leaf in H0 as (label & s2 & amount & s3 & Hs & Hm' & -> & _).
    eexists name, price, rest, a, b, label, _, _. split; [apply postorder_self|]. split; [exact Hs|].
    assert (fixed_amount price = None) as ->.
    { destruct Hp as [_ Hp]. destruct (fixed_amount price) eqn:Ea; [|done]. exfalso. apply Hp.
      destruct price as [| |[] args a' b'| | |]; try done. do 3 eexists. apply postorder_self. }
    apply eval_string_Ok in Hs as (r1 & Hs & _). apply evaluate_unmarked in Hs; [|done].
    apply eval_numeric_Ok in Hm' as (r2 & Hm' & _). apply evaluate_unmarked in Hm'; [|done].
    unfold pricing_of in *. simpl in *. congruence.
  - simpl in H0. unfold eval_conditional in H0. inv_ok H0.
    apply eval_boolean_Ok in H1 as (r0 & H1 & _). apply evaluate_unmarked in H1; [|done].
    inv_ok H0. assert (pricing_of s2 = pricing_of s0) as E.
    { destruct (find_index _ _), a0; by injection H2 as _ <-. }
    assert (priced_by (NConditional c y z a b) s2 s1) as HP.
    { destruct a0; [apply (priced_by_child _ y) | apply (priced_by_child _ z)]; simpl; eauto; set_solver. }
    eapply priced_by_pricing; [| |exact HP]; [|done]. by rewrite E, H1.
  - simpl in H0. inv_ok H0. inv_ok H0. assert (s2 = s1) as -> by (unfold lift in H0; repeat dmatch_in H0; congruence).
    apply evaluate_unmarked in H2; [|by apply scale_factor_unmarked].
    eapply priced_by_pricing; [| |eapply (priced_by_child _ x); [simpl; set_solver | eapply IH, H1]]; done.
  - simpl in H0. inv_ok H0. inv_ok H0. assert (s2 = s1) as -> by (unfold lift in H0; repeat dmatch_in H0; congruence).
    apply evaluate_unmarked in H1; [|by apply scale_factor_unmarked].
    eapply priced_by_pricing; [| |eapply (priced_by_child _ y); [simpl; set_solver | eapply IH, H2]]; done.
Qed.
End fixed_prices.

(** * Independence from what the expression does not mention *)

(** Two blocks with the same outcome from every state. *)
Definition same {S A} (m1 m2 : stM S exn A) : Prop := forall s, m1 s = m2 s.

#[export] Instance same_equivalence {S A} : Equivalence (@same S A).
Proof. split; [by intros m s | by intros m1 m2 H s | intros m1 m2 m3 H1 H2 s; by rewrite H1, H2]. Qed.

Lemma same_bind {S A B} (m1 m2 : stM S exn A) (k1 k2 : A -> stM S exn B) :
  same m1 m2 -> (forall a, same (k1 a) (k2 a)) -> same (m1 ≫= k1) (m2 ≫= k2).
Proof.
  intros Hm Hk s. unfold mbind, stM_bind. rewrite Hm. destruct (m2 s) as [[a s']|]; [apply Hk | done].
Qed.

(** What a variable reads. *)
Definition variable_input (ctx : simulation_context) (v : billing_variable) : option jsval :=
  if bool_decide (v = V_image_count) then VNumber <$> ctx_imageCount ctx
  else ctx_tokens ctx ≫= obj_get (variable_name v).

(** Two environments agree on the inputs of the nodes in a list. *)
Record inputs_agree {host : Host} (env1 env2 : runtime_env) (l : list node) : Prop := {
  agree_rules : c_requestRules (re_compiled env1) = c_requestRules (re_compiled env2);
  agree_variables v : uses_variable l v ->
    variable_input (re_context env1) v = variable_input (re_context env2) v;
  agree_body : uses_function l F_param ->
    req_body <$> ctx_request (re_context env1) = req_body <$> ctx_request (re_context env2);
  agree_headers : uses_function l F_header ->
    re_headers env1 = re_headers env2 /\
    (ctx_request (re_context env1) = None <-> ctx_request (re_context env2) = None);
  agree_usage : uses_function l F_u -> ctx_usage (re_context env1) = ctx_usage (re_context env2);
  agree_now t : uses_function l (F_time t) -> re_now env1 = re_now env2;
}.

Lemma inputs_agree_sub {host : Host} env1 env2 l l' :
  (forall x, x ∈ l' -> x ∈ l) -> inputs_agree env1 env2 l -> inputs_agree env1 env2 l'.
Proof.
  intros Hsub [H1 H2 H3 H4 H5 H6].
  assert (forall f, uses_function l' f -> uses_function l f) as Hf.
  { intros f (args & a & b & Hin). exists args, a, b. auto. }
  split; auto.
  - intros v (a & b & Hin). apply H2. exists a, b. auto.
  - intros t Ht. eapply H6. eauto.
Qed.

Section independence.
Context {host : Host} (env1 env2 : runtime_env).

Section node.
Variables ev1 ev2 : node -> RM runtime_value.

Lemma eval_boolean_same x : same (ev1 x) (ev2 x) -> same (eval_boolean ev1 x) (eval_boolean ev2 x).
Proof. intros H. by apply same_bind. Qed.
Lemma eval_numeric_same x : same (ev1 x) (ev2 x) -> same (eval_numeric ev1 x) (eval_numeric ev2 x).
Proof. intros H. by apply same_bind. Qed.
Lemma eval_string_same x : same (ev1 x) (ev2 x) -> same (eval_string ev1 x) (eval_string ev2 x).
Proof. intros H. by apply same_bind. Qed.
Lemma first_same {A} args (k1 k2 : node -> RM A) :
  (forall x, x ∈ args -> same (k1 x) (k2 x)) -> same (first args k1) (first args k2).
Proof. destruct args; simpl; intros H; [done | apply H; constructor]. Qed.
Lemma second_same {A} args (k1 k2 : node -> RM A) :
  (forall x, x ∈ args -> same (k1 x) (k2 x)) -> same (second args k1) (second args k2).
Proof. destruct args as [|x [|y l]]; simpl; intros H; [done | done | apply H; repeat constructor]. Qed.

Lemma eval_variable_same v start :
  variable_input (re_context env1) v = variable_input (re_context env2) v ->
  same (eval_variable env1 v start) (eval_variable env2 v start).
Proof.
  unfold variable_input, eval_variable. case_bool_decide; [|by intros ->].
  intros H1. assert (ctx_imageCount (re_context env1) = ctx_imageCount (re_context env2)) as ->; [|done].
  destruct (ctx_imageCount (re_context env1)), (ctx_imageCount (re_context env2)); simpl in H1; congruence.
Qed.

Lemma eval_call_same f args a b :
  inputs_agree env1 env2 [NCall f args a b] ->
  (forall x, x ∈ args -> same (ev1 x) (ev2 x)) ->
  same (eval_call env1 ev1 f args a) (eval_call env2 ev2 f args a).
Proof.
  intros Hag Hargs.
  assert (Hu : uses_function [NCall f args a b] f) by (exists args, a, b; constructor).
  assert (Hn : same (first args (eval_numeric ev1)) (first args (eval_numeric ev2)))
    by (apply first_same; auto using eval_numeric_same).
  assert (Hn2 : same (second args (eval_numeric ev1)) (second args (eval_numeric ev2)))
    by (apply second_same; auto using eval_numeric_same).
  assert (Hs : same (first args (eval_string ev1)) (first args (eval_string ev2)))
    by (apply first_same; auto using eval_string_same).
  assert (Hs2 : same (second args (eval_string ev1)) (second args (eval_string ev2)))
    by (apply second_same; auto using eval_string_same).
  assert (He : same (first args ev1) (first args ev2)) by (by apply first_same).
  destruct Hag as [_ _ Hbody Hheaders Husage Hnow].
  destruct f; simpl; unfold eval_has, eval_math1, eval_math2, eval_time;
    try (repeat (apply same_bind; [done | intros ?]); done).
  - specialize (Hbody Hu). apply same_bind; [done | intros path]. unfold request_of.
    destruct (ctx_request (re_context env1)), (ctx_request (re_context env2)); simpl in Hbody; try done.
    injection Hbody as Hbody. intros st.
    unfold mbind, stM_bind, mret, stM_ret. by rewrite Hbody.
  - destruct (Hheaders Hu) as [-> Hr]. apply same_bind; [done | intros path]. unfold request_of.
    destruct (ctx_request (re_context env1)), (ctx_request (re_context env2)); naive_solver.
  - rewrite (Husage Hu). by apply same_bind.
  - rewrite (Hnow _ Hu). by apply same_bind.
Qed.

Lemma evaluateNode_same n :
  inputs_agree env1 env2 [n] -> (forall x, x ∈ children n -> same (ev1 x) (ev2 x)) ->
  same (evaluateNode env1 ev1 n) (evaluateNode env2 ev2 n).
Proof.
  intros Hag Hc.
  assert (Hb : forall x, x ∈ children n -> same (eval_boolean ev1 x) (eval_boolean ev2 x)) by auto using eval_boolean_same.
  assert (Hn : forall x, x ∈ children n -> same (eval_numeric ev1 x) (eval_numeric ev2 x)) by auto using eval_numeric_same.
  destruct n as [v i a b|v a b|f args a b|o y a b|o y z a b|c y z a b]; simpl in *.
  - done.
  - apply eval_variable_same, (agree_variables _ _ _ Hag). exists a, b. constructor.
  - by eapply eval_call_same.
  - destruct o; (apply same_bind; [first [apply Hb | apply Hn]; set_solver | done]).
  - destruct o; simpl;
      repeat first [ apply same_bind; [first [apply Hb; set_solver | apply Hc; set_solver] | intros ?]
                   | done | dmatch ].
  - unfold eval_conditional. rewrite (agree_rules _ _ _ Hag).
    apply same_bind; [apply Hb; set_solver | intros cond]. apply same_bind; [done|]. intros _.
    destruct cond; apply Hc; set_solver.
Qed.
End node.

Lemma evaluate_same n :
  inputs_agree env1 env2 (postorder n) -> same (evaluate env1 n) (evaluate env2 n).
Proof.
  induction n as [n IH] using node_children_ind. intros Hag. rewrite !evaluate_unfold.
  apply same_bind; [done | intros _]. apply same_bind; [|done]. apply evaluateNode_same.
  - eapply inputs_agree_sub; [|exact Hag]. intros x Hx. apply list_elem_of_singleton in Hx as ->.
    apply postorder_self.
  - intros x Hx. apply IH; [done|]. eapply inputs_agree_sub; [|exact Hag].
    intros y Hy. by eapply children_postorder.
Qed.
End independence.
