(* ===== verification/RuntimeProps.v ===== *)
(** The correctness properties of the interpreter: results, errors, static types,
    independence from unused inputs, the request-rule trace, fixed prices, request
    paths, textual forms and time zones. *)

From S2P Require Import Prelude JsString JsNumber JsValue BillingTypes BillingParser BillingParserFacts BillingCompile BillingTyping BillingCompileFacts BillingRuntime BillingRuntimeFacts BillingRuntimeTrace.

(** * Running a compiled expression *)

Lemma fold_check_token_Ok l :
  fold_result check_token l tt = Ok tt ->
  Forall (fun e => exists x, e.2 = VNumber x /\ is_finite x = true /\ n_ltb x n_zero = false) l.
Proof.
  induction l as [|e l IH]; simpl; [constructor|]. intros H. inv_ok H.
  destruct a. constructor; [|auto]. unfold check_token in H0.
  destruct e.2 as [| | |x| | |]; try done. exists x.
  destruct (is_finite x), (n_ltb x n_zero); try done.
Qed.


Definition priced_source : str :=
  js "(p <= 5 ? tier('a', p * 2) : tier('b', fixed(2))) * (param('fast') == true ? 3 : 1)".
Definition priced : compiled_expression :=
  match compile_source priced_source with
  | Ready c => c
  | NotReady _ => Compiled [] (NLiteral LNull false 0 0) [] [] []
  end.
Lemma priced_ready : compile_source priced_source = Ready priced.
Proof. vm_compute. reflexivity. Qed.
Lemma priced_ok : CompiledOk priced.
Proof. exact (proj2 (compile_source_Ready _ _ priced_ready)). Qed.

(** A request with a token count and a boolean body field. *)
Definition priced_context (tokens : Z) (fast : bool) : simulation_context :=
  Context_ None (Some [(js "p", VNumber (n_of_Z tokens))])
    (Some (Request (VObject [(js "fast", VBool fast)]) None)) None (Some (Some 0%Z)).


Lemma add_header_billing `{Host} l headers e :
  fold_result add_header l headers = Throw e -> is_billing_error e.
Proof.
  revert headers. induction l as [|x l IH]; intros headers; simpl; [done|].
  unfold add_header. destruct x.2; simpl; try (intros [= <-]; auto with billing; fail).
  apply IH.
Qed.

Lemma check_token_billing l e : fold_result check_token l tt = Throw e -> is_billing_error e.
Proof.
  induction l as [|x l IH]; simpl; [done|]. intros Hx.
  apply bind_Throw_inv in Hx as [Hx|([] & _ & Hx)]; [|auto].
  unfold check_token in Hx. repeat dmatch_in Hx; simplify_eq; apply err_billing.
Qed.

(** C5: Running a compiled expression on any context either succeeds or throws
    a diagnostic of the engine; it never fails with a JavaScript error such as
    reading a property of a missing argument. *)
Theorem failures_are_diagnostics `{Host} (c : compiled_expression) (ctx : simulation_context) (clock : date)
    (Hc : CompiledOk c) :
  match run_compiled c ctx clock with
  | Ok _ => True
  | Throw e => exists d, e = BillingExpressionError d
  end.
Proof.
  destruct (run_compiled c ctx clock) as [|e] eqn:E; [done|]. unfold run_compiled in E.
  apply bind_Throw_inv in E as [E|([] & _ & E)]; [by eapply check_token_billing|].
  apply bind_Throw_inv in E as [E|([env s0] & Hn & E)].
  { unfold new_runtime in E. apply bind_Throw_inv in E as [E|(? & _ & E)]; [by eapply add_header_billing | done]. }
  apply bind_Throw_inv in E as [E|([v s] & _ & E)].
  { eapply evaluate_billing; [|exact E]. apply compiled_wf. }
  destruct (rv_value v); try (injection E as <-; apply err_billing).
  destruct (_ || _); [injection E as <-; apply err_billing | done].
Qed.

Lemma failures_are_diagnostics_witness :
  match run_compiled (host := sample_host) priced empty_context None with
  | Ok _ => True
  | Throw e => exists d, e = BillingExpressionError d
  end.
Proof. exact (failures_are_diagnostics (H := sample_host) priced empty_context None priced_ok). Defined.

(** * Static types *)


Definition runtime_of (c : compiled_expression) (ctx : simulation_context) : runtime_env * runtime_state :=
  match new_runtime (host := sample_host) c ctx None with
  | Ok r => r
  | Throw _ => (RuntimeEnv c ctx None ∅, RuntimeState [] [] Unit_token None ∅ 0)
  end.
Definition priced_env : runtime_env := (runtime_of priced (priced_context 4 true)).1.
Definition priced_state : runtime_state := (runtime_of priced (priced_context 4 true)).2.


(** The restriction on additions in the soundness of static types is
    necessary: the sum of two request parameters is typed as a number, yet on a
    request whose fields are strings it evaluates to a string. *)
Theorem dynamic_sum_unsound :
  exists ast r s', parse_source (js "param('a') + param('b')") = Ok ast /\ type_of ast = Some Ty_number /\
    let '(env, s) := runtime_of (Compiled (js "param('a') + param('b')") ast [] [F_param] [])
      (Context_ None None (Some (Request (VObject [(js "a", VString (js "x")); (js "b", VString (js "y"))]) None))
         None (Some (Some 0%Z))) in
    evaluate (host := sample_host) env ast s = Ok (r, s') /\ rv_value r = VString (js "xy").
Proof.
  destruct (parse_source (js "param('a') + param('b')")) as [ast|] eqn:E; [|vm_compute in E; discriminate].
  vm_compute in E. injection E as <-. eexists _, _, _. split; [reflexivity|].
  split; [vm_compute; reflexivity|]. vm_compute. split; reflexivity.
Qed.

(** * Independence, trace and fixed prices *)



(** A rule reported as matched had its condition evaluated to true during
    the simulation; rules skipped by short-circuiting or whose condition was false
    are reported as unmatched. *)
Theorem matched_rules_held `{Host} (c : compiled_expression) (ctx : simulation_context) (clock : date)
    (env : runtime_env) (s0 : runtime_state) (r : evaluation_success) (i : nat) (rule : billing_request_rule)
    (Hc : CompiledOk c) (Hn : new_runtime c ctx clock = Ok (env, s0))
    (Hr : run_compiled c ctx clock = Ok r)
    (Hi : e_requestRules r !! i = Some rule) (Hm : r_matched rule = true) :
  exists cr s s' v, c_requestRules c !! i = Some cr /\
    evaluate env (cr_condition cr) s = Ok (v, s') /\ rv_value v = VBool true.
Proof.
  apply run_compiled_Ok in Hr as (env' & s0' & v & s & x & _ & Hn' & He & _ & _ & _ & ->).
  rewrite Hn in Hn'. injection Hn' as <- <-. apply new_runtime_Ok in Hn as (<- & _ & _ & _ & ->).
  simpl in Hi. apply evaluate_trace in He as (_ & _ & Hall); [|done].
  destruct (Hall _ _ Hi) as (q & Hq & _ & Hheld). simpl in Hq. rewrite list_lookup_fmap in Hq.
  destruct (Hheld Hm) as [Hq'|(cr & s1 & s1' & Hcr & Hb)].
  - destruct (c_requestRules _ !! i); simplify_eq/=.
  - apply eval_boolean_Ok in Hb as (w & Hw & Hv). eauto 10.
Qed.

Lemma matched_rules_held_witness :
  exists r rule, run_compiled (host := sample_host) priced (priced_context 4 true) None = Ok r /\
    e_requestRules r !! 0 = Some rule /\ r_matched rule = true /\
    exists cr s s' v, c_requestRules priced !! 0 = Some cr /\
      evaluate (host := sample_host) priced_env (cr_condition cr) s = Ok (v, s') /\ rv_value v = VBool true.
Proof.
  destruct (run_compiled (host := sample_host) priced (priced_context 4 true) None) as [r|e] eqn:E;
    [|exfalso; vm_compute in E; discriminate E].
  assert (exists rule, e_requestRules r !! 0 = Some rule /\ r_matched rule = true) as (rule & Hi & Hm).
  { vm_compute in E. injection E as <-. eexists. split; reflexivity. }
  exists r, rule. split; [reflexivity|]. split; [exact Hi|]. split; [exact Hm|].
  apply (matched_rules_held (H := sample_host) priced (priced_context 4 true) None priced_env priced_state
           r 0 rule priced_ok); [vm_compute; reflexivity | exact E | exact Hi | exact Hm].
Defined.

(** Evaluating the node of a recorded rule yields its multiplier and marks
    the rule exactly when its condition holds, and yields one and marks nothing
    otherwise; later evaluation never unmarks a rule. *)
Theorem rule_node_applies `{Host} (env : runtime_env) (i : nat) (cr : compiled_rule)
    (s s' : runtime_state) (v : runtime_value)
    (Hc : CompiledOk (re_compiled env)) (Hi : c_requestRules (re_compiled env) !! i = Some cr)
    (He : evaluate env (cr_node cr) s = Ok (v, s')) :
  exists b s1 one, eval_boolean (evaluate env) (cr_condition cr) (set_depth (rs_depth s + 1) s) = Ok (b, s1) /\
    n_eqb one n_one = true /\ rv_value v = VNumber (if b : bool then cr_multiplier cr else one) /\
    (forall rule, rs_requestRules s1 !! i = Some rule ->
       exists rule', rs_requestRules s' !! i = Some rule' /\ r_matched rule' = r_matched rule || b) /\
    (forall j rule, rs_requestRules s1 !! j = Some rule -> j <> i -> rs_requestRules s' !! j = Some rule) /\
    (forall n w s2 rule, evaluate env n s' = Ok (w, s2) -> rs_requestRules s2 !! i = Some rule ->
       b = true -> i < length (rs_requestRules s') -> r_matched rule = true).
Proof.
  eapply evaluate_rule_node in He as (b & s1 & one & Hb & Hone & Hv & Hs); [|done|exact Hi].
  exists b, s1, one. rewrite Hs. split; [done|]. split; [done|]. split; [done|]. split; [|split].
  - intros rule Hrule. destruct b.
    + rewrite list_lookup_alter_eq, Hrule. simpl. eexists. split; [done|]. simpl. by rewrite orb_true_r.
    + exists rule. by rewrite orb_false_r.
  - intros j rule Hrule Hj. destruct b; [|done]. by rewrite list_lookup_alter_ne.
  - intros n w s2 rule Hn Hrule -> Hlen. apply evaluate_trace in Hn as (_ & _ & Hall); [|done].
    destruct (Hall _ _ Hrule) as (q & Hq & Hmono & _). apply Hmono.
    rewrite Hs, list_lookup_alter_eq in Hq. destruct (rs_requestRules s1 !! i); by simplify_eq/=.
Qed.

Lemma rule_node_applies_witness :
  exists cr v s', c_requestRules (re_compiled priced_env) !! 0 = Some cr /\
    evaluate (host := sample_host) priced_env (cr_node cr) priced_state = Ok (v, s') /\
    exists b s1 one, eval_boolean (evaluate (host := sample_host) priced_env)
      (cr_condition cr) (set_depth (rs_depth priced_state + 1) priced_state) = Ok (b, s1) /\
      n_eqb one n_one = true.
Proof.
  destruct (c_requestRules (re_compiled priced_env) !! 0) as [cr|] eqn:Hi; [|exfalso; vm_compute in Hi; discriminate Hi].
  exists cr.
  destruct (evaluate (host := sample_host) priced_env (cr_node cr) priced_state) as [[v s']|e] eqn:E;
    [|exfalso; vm_compute in Hi; injection Hi as <-; vm_compute in E; discriminate E].
  exists v, s'. split; [reflexivity|]. split; [reflexivity|].
  destruct (rule_node_applies (H := sample_host) priced_env 0 cr priced_state s' v priced_ok Hi E)
    as (b & s1 & one & Hb & Ho & _).
  exists b, s1, one. split; [exact Hb | exact Ho].
Defined.

(** Fixed prices are reported exactly: when an expression that calls
    [fixed] is simulated successfully, one [tier(name, price)] leaf of its tree
    priced the request, the reported tier is the value of its name, and the
    billing unit is "request" with the literal amount as fixed price if the leaf is
    [tier(name, fixed(amount))], "token" with no fixed price otherwise. *)
Theorem fixed_price_reported `{Host} (c : compiled_expression) (ctx : simulation_context) (clock : date)
    (env : runtime_env) (s0 : runtime_state) (r : evaluation_success)
    (Hc : CompiledOk c) (Hfix : F_fixed ∈ c_functions c)
    (Hn : new_runtime c ctx clock = Ok (env, s0)) (Hr : run_compiled c ctx clock = Ok r) :
  exists name price rest a b s s',
    NCall F_tier (name :: price :: rest) a b ∈ postorder (c_ast c) /\
    eval_string (evaluate env) name s = Ok (e_matchedTier r, s') /\
    (e_billingUnit r, e_fixedPrice r) =
      match fixed_amount price with
      | Some amount => (Unit_request, Some amount)
      | None => (Unit_token, None)
      end.
Proof.
  apply run_compiled_Ok in Hr as (env' & s0' & v & s & x & _ & Hn' & He & _ & _ & _ & ->).
  rewrite Hn in Hn'. injection Hn' as <- <-. apply new_runtime_Ok in Hn as (<- & _ & _ & _ & ->).
  pose proof (compiled_fixed Hfix) as Ht. simpl.
  apply (evaluate_fixed_tree env _ _ _ _ Ht) in He as (name & price & rest & a & b & label & st & st' & Hin & Hs & Hp).
  exists name, price, rest, a, b, st, st'. split; [done|]. unfold pricing_of in Hp. simpl in Hp.
  destruct (fixed_amount price); injection Hp as -> -> ->; done.
Qed.

Lemma fixed_price_reported_witness :
  exists r, run_compiled (host := sample_host) priced (priced_context 9 false) None = Ok r /\
    exists name price rest a b s s',
      NCall F_tier (name :: price :: rest) a b ∈ postorder (c_ast priced) /\
      eval_string (evaluate (host := sample_host)
        (runtime_of priced (priced_context 9 false)).1) name s = Ok (e_matchedTier r, s') /\
      (e_billingUnit r, e_fixedPrice r) =
        match fixed_amount price with
        | Some amount => (Unit_request, Some amount)
        | None => (Unit_token, None)
        end.
Proof.
  destruct (run_compiled (host := sample_host) priced (priced_context 9 false) None) as [r|e] eqn:E;
    [|exfalso; vm_compute in E; discriminate E].
  exists r. split; [reflexivity|].
  apply (fixed_price_reported (H := sample_host) priced (priced_context 9 false) None
           (runtime_of priced (priced_context 9 false)).1 (runtime_of priced (priced_context 9 false)).2 r priced_ok);
    [|vm_compute; reflexivity | exact E].
  apply list_elem_of_In. vm_compute. auto 10.
Defined.

(** * Requests and time zones *)

(** A path made by escaping the special characters of its keys and joining
    them with dots reads back exactly the value stored under those keys, whatever
    characters the keys contain, as long as trimming leaves the path alone. *)
Theorem path_round_trip (keys : list str) (v : jsval)
    (Hk : keys <> []) (Hne : escape_path keys <> []) (Ht : trimmed (escape_path keys))
    (Hv : v <> VUndefined) :
  readRequestPath (nested keys v) (escape_path keys) = Ok v.
Proof. rewrite readRequestPath_escape by done. by apply walk_nested. Qed.

Lemma path_round_trip_witness :
  readRequestPath (nested [js "a.b"; js "c*"; js "#"] (VBool true)) (js "a\.b.c\*.#") = Ok (VBool true).
Proof.
  apply (path_round_trip [js "a.b"; js "c*"; js "#"] (VBool true)); [done | done | | done].
  vm_compute. auto.
Defined.

(** The text [has] searches does not depend on the order in which a request
    object lists its fields. *)
Theorem object_text_order_independent (entries entries' : list (str * jsval)) (depth : Z)
    (Hn : NoDup (map fst entries)) (Hp : entries ≡ₚ entries') :
  billingString (VObject entries) depth = billingString (VObject entries') depth.
Proof.
  cbn [billingString]. destruct (_ <? _)%Z; [done|].
  set (f := fun e : str * jsval => (e.1, billingString e.2 (depth + 1))).
  rewrite (sort_entries_permutation (map f entries) (map f entries')); [done | | by rewrite Hp].
  by rewrite map_map.
Qed.

Lemma object_text_order_independent_witness :
  billingString (VObject [(js "b", VNull); (js "a", VBool true)]) 0 = Ok (js "map[a:true b:<nil>]") /\
  billingString (VObject [(js "b", VNull); (js "a", VBool true)]) 0 =
  billingString (VObject [(js "a", VBool true); (js "b", VNull)]) 0.
Proof.
  split; [vm_compute; reflexivity|].
  apply (object_text_order_independent [(js "b", VNull); (js "a", VBool true)]).
  - apply (bool_decide_unpack _). vm_compute. exact I.
  - apply Permutation_swap.
Defined.

Lemma getUTC_ranges t :
  (0 <= getUTCHours t <= 23 /\ 0 <= getUTCMinutes t <= 59 /\ 0 <= getUTCDay t <= 6 /\
   0 <= getUTCMonth t <= 11 /\ 1 <= getUTCDate t <= 31)%Z.
Proof.
  unfold getUTCHours, getUTCMinutes, getUTCDay, getUTCMonth, getUTCDate.
  pose proof (Z.mod_pos_bound (t / 3600000) 24 ltac:(lia)).
  pose proof (Z.mod_pos_bound (t / 60000) 60 ltac:(lia)).
  pose proof (Z.mod_pos_bound (4 + days_of t) 7 ltac:(lia)).
  pose proof (civil_month_day_range (days_of t)). lia.
Qed.

(** Billing time is total on valid dates except for the server's Local zone:
    an empty or unresolvable zone falls back to UTC with hour 0-23, minute 0-59,
    weekday 0-6, month 1-12 and day 1-31; "Local" and an invalid date are
    diagnostics. *)
Theorem billing_time `{Host} (now : date) (zone : str) :
  match timeInBillingZone now zone with
  | Ok tv =>
      exists t, now = Some t /\ trim zone <> js "Local" /\
        (zone_formatter (match trim zone with [] => js "UTC" | z => z end) = None ->
         exists h mi w mo d, tv = TimeValues (n_of_Z h) (n_of_Z mi) (n_of_Z w) (n_of_Z mo) (n_of_Z d) /\
           (0 <= h <= 23 /\ 0 <= mi <= 59 /\ 0 <= w <= 6 /\ 1 <= mo <= 12 /\ 1 <= d <= 31)%Z)
  | Throw e =>
      (now = None /\ e = err C_type (js "simulation time")) \/
      (trim zone = js "Local" /\ e = err C_unsupported (js "server Local timezone"))
  end.
Proof.
  unfold timeInBillingZone. destruct now as [t|]; [|by left].
  destruct (bool_decide _) eqn:Hloc; breflect.
  { right. split; [by destruct (trim zone) | done]. }
  assert (trim zone <> js "Local") by (by intros E; rewrite E in Hloc).
  destruct (zone_formatter _) as [fmt|]; exists t; (split; [done|]); (split; [done|]); [done|]. intros _.
  do 5 eexists. split; [reflexivity|]. pose proof (getUTC_ranges t). lia.
Qed.
