(* ===== verification/BillingStructure.v ===== *)
(** Lossless structural helpers on source text
    (features/pricing/lib/billing-expression/structure.ts): splitting at a
    top-level operator and removing enclosing parentheses. *)

From S2P Require Import Prelude JsString.

Definition is_quote (c : N) : bool := (c =? dquote)%N || (c =? squote)%N.
Definition is_opening (c : N) : bool := (c =? 40)%N || (c =? 91)%N || (c =? 123)%N.
Definition is_closing (c : N) : bool := (c =? 41)%N || (c =? 93)%N || (c =? 125)%N.
Definition question_mark : N := 63.

(** [parts.filter(Boolean)] *)
Definition non_empty (s : str) : bool := match s with [] => false | _ => true end.

(** * splitExpressionAtTopLevel *)

(** The [for] loop: [i], [start], [depth], [quote] and [parts] are its variables;
    [None] stands for running out of fuel. *)
Fixpoint split_loop (source operator : str) (fuel i start : nat) (depth : Z) (quote : option N)
    (parts : list str) : option (list str) :=
  match fuel with
  | O => None
  | S f =>
      match source !! i with
      | None => Some (List.filter non_empty (parts ++ [trim (drop start source)]))
      | Some char =>
          match quote with
          | Some q =>
              if (char =? backslash)%N then
                split_loop source operator f (i + 2) start depth quote parts
              else split_loop source operator f (i + 1) start depth
                     (if (char =? q)%N then None else quote) parts
          | None =>
              if is_quote char then split_loop source operator f (i + 1) start depth (Some char) parts
              else
                let depth := if is_opening char then (depth + 1)%Z else depth in
                let depth := if is_closing char then (depth - 1)%Z else depth in
                if negb (depth =? 0)%Z then split_loop source operator f (i + 1) start depth None parts
                else if (char =? question_mark)%N then Some [trim source]
                else if starts_with_at source operator i then
                  split_loop source operator f (i + length operator) (i + length operator) depth None
                    (parts ++ [trim (slice source start i)])
                else split_loop source operator f (i + 1) start depth None parts
          end
      end
  end.

Definition splitExpressionAtTopLevel (source operator : str) : option (list str) :=
  split_loop source operator (S (length source)) 0 0 0 None [].

(** * unwrapExpressionParens *)

(** The inner [for] loop: the position at which the depth first returns to zero. *)
Fixpoint closing_at (expression : str) (i : nat) (depth : Z) (quote : option N) (escaped : bool)
    : option nat :=
  match expression with
  | [] => None
  | char :: rest =>
      match quote with
      | Some q =>
          if escaped then closing_at rest (i + 1) depth quote false
          else if (char =? backslash)%N then closing_at rest (i + 1) depth quote true
          else closing_at rest (i + 1) depth (if (char =? q)%N then None else quote) false
      | None =>
          if is_quote char then closing_at rest (i + 1) depth (Some char) false
          else
            let depth := if (char =? 40)%N then (depth + 1)%Z else depth in
            let depth := if (char =? 41)%N then (depth - 1)%Z else depth in
            if (depth =? 0)%Z then Some i else closing_at rest (i + 1) depth None false
      end
  end.

(** One round of the [while] loop, when it does not stop. *)
Definition unwrap_once (expression : str) : option str :=
  if starts_with expression (js "(") && ends_with expression (js ")") &&
     bool_decide (closing_at expression 0 0 None false = Some (length expression - 1))
  then Some (trim (slice expression 1 (length expression - 1))) else None.

Fixpoint unwrap_loop (fuel : nat) (expression : str) : option str :=
  match fuel with
  | O => None
  | S f => match unwrap_once expression with
           | Some inner => unwrap_loop f inner
           | None => Some expression
           end
  end.

Definition unwrapExpressionParens (source : str) : option str :=
  unwrap_loop (S (length (trim source))) (trim source).

Example split_tests :
  map (fun s => splitExpressionAtTopLevel s (js "&&"))
    [js "a && (b && c) &&d"; js "f('&&') && x"; js "a && b ? 1 : 2"; js " && a"]
  = [Some [js "a"; js "(b && c)"; js "d"]; Some [js "f('&&')"; js "x"];
     Some [js "a && b ? 1 : 2"]; Some [js "a"]].
Proof. vm_compute. reflexivity. Qed.

Example unwrap_tests :
  map unwrapExpressionParens [js " ((a + b)) "; js "(a) + (b)"; js "(')' + a)"; js "()"]
  = [Some (js "a + b"); Some (js "(a) + (b)"); Some (js "')' + a"); Some []].
Proof. vm_compute. reflexivity. Qed.

(** * Splitting as an automaton *)

(** Where the scanner is: in code at a depth, inside a quoted string, after a
    backslash of one, or in the rest of an operator it has just matched. *)
Inductive scan_mode : Type :=
| InCode (depth : Z)
| Quoted (q : N) (depth : Z)
| Escaped (q : N) (depth : Z)
| InOperator (count : nat) (depth : Z).

(** Reference: the raw pieces between the top-level operators; [None] when a
    top-level question mark is met. *)
Fixpoint pieces (operator : str) (m : scan_mode) (piece rest : str) : option (list str) :=
  match rest with
  | [] => Some [piece]
  | char :: rest' =>
      match m with
      | InOperator (S count) depth => pieces operator (InOperator count depth) piece rest'
      | Escaped q depth => pieces operator (Quoted q depth) (piece ++ [char]) rest'
      | Quoted q depth =>
          let m' := if (char =? backslash)%N then Escaped q depth
                    else if (char =? q)%N then InCode depth else Quoted q depth in
          pieces operator m' (piece ++ [char]) rest'
      | InCode depth | InOperator O depth =>
          if is_quote char then pieces operator (Quoted char depth) (piece ++ [char]) rest'
          else
            let depth := if is_opening char then (depth + 1)%Z else depth in
            let depth := if is_closing char then (depth - 1)%Z else depth in
            if negb (depth =? 0)%Z then pieces operator (InCode depth) (piece ++ [char]) rest'
            else if (char =? question_mark)%N then None
            else if starts_with rest operator then
              l ← pieces operator (InOperator (length operator - 1) depth) [] rest';
              Some (piece :: l)
            else pieces operator (InCode depth) (piece ++ [char]) rest'
      end
  end.

Definition split_result (source : str) (parts : list str) (o : option (list str)) : list str :=
  match o with
  | None => [trim source]
  | Some l => List.filter non_empty (parts ++ map trim l)
  end.

Lemma pieces_skip operator k d p a t :
  length a = k -> pieces operator (InOperator k d) p (a ++ t) = pieces operator (InCode d) p t.
Proof.
  revert k. induction a as [|c a IH]; intros k <-; simpl; [by destruct t|]. by apply IH.
Qed.

Lemma slice_snoc s start i c :
  start <= i -> s !! i = Some c -> slice s start (i + 1) = slice s start i ++ [c].
Proof.
  intros Hs Hc. unfold slice. replace (i + 1 - start) with (S (i - start)) by lia.
  apply take_S_r. rewrite lookup_drop. by replace (start + (i - start)) with i by lia.
Qed.

Lemma slice_to_end s start : slice s start (length s) = drop start s.
Proof. unfold slice. apply take_ge. rewrite length_drop. lia. Qed.

Lemma slice_past_end s start i : length s <= i -> slice s start i = drop start s.
Proof. intros H. unfold slice. apply take_ge. rewrite length_drop. lia. Qed.

Lemma slice_self s i : slice s i i = [].
Proof. unfold slice. by rewrite Nat.sub_diag. Qed.

Definition mode_of (quote : option N) (depth : Z) : scan_mode :=
  match quote with None => InCode depth | Some q => Quoted q depth end.

Lemma split_loop_pieces source operator fuel i start depth quote parts :
  operator <> [] -> start <= i -> 0 < fuel -> length source < i + fuel ->
  split_loop source operator fuel i start depth quote parts =
  Some (split_result source parts
    (pieces operator (mode_of quote depth) (slice source start i) (drop i source))).
Proof.
  intros Hop. revert i start depth quote parts.
  induction fuel as [|fuel IH]; intros i start depth quote parts Hs Hf0 Hf; [lia|]. cbn [split_loop].
  destruct (source !! i) as [c|] eqn:Hc.
  2: { apply lookup_ge_None_1 in Hc. rewrite (drop_ge source i) by done. simpl.
       by rewrite slice_past_end by done. }
  pose proof (lookup_lt_Some _ _ _ Hc) as Hi. rewrite (drop_S _ c i) by done.
  pose proof (slice_snoc _ _ _ _ Hs Hc) as Hsn. replace (S i) with (i + 1) by lia.
  destruct quote as [q|]; cbn [mode_of pieces].
  - destruct (c =? backslash)%N eqn:Hb.
    + rewrite IH by lia. cbn [mode_of]. rewrite <- Hsn. f_equal. f_equal.
      destruct (source !! (i + 1)) as [e|] eqn:He.
      * rewrite (drop_S _ e (i + 1)) by done. cbn [pieces].
        rewrite <- (slice_snoc source start (i + 1) e) by (done || lia).
        by replace (S (i + 1)) with (i + 2) by lia; replace (i + 1 + 1) with (i + 2) by lia.
      * apply lookup_ge_None_1 in He. rewrite !drop_ge by lia. simpl. by rewrite !slice_past_end by lia.
    + rewrite IH by lia. rewrite <- Hsn. by destruct (c =? q)%N.
  - destruct (is_quote c); [rewrite IH by lia; by rewrite <- Hsn|].
    set (d1 := if is_opening c then (depth + 1)%Z else depth).
    set (d2 := if is_closing c then (d1 - 1)%Z else d1).
    destruct (negb (d2 =? 0)%Z); [rewrite IH by lia; by rewrite <- Hsn|].
    destruct (c =? question_mark)%N; [done|].
    unfold starts_with_at. rewrite (drop_S _ c i) by done. replace (S i) with (i + 1) by lia.
    destruct (starts_with (c :: drop (i + 1) source) operator) eqn:Hst; [|rewrite IH by lia; by rewrite <- Hsn].
    apply starts_with_spec in Hst as [t Ht]. destruct operator as [|o operator]; [done|].
    injection Ht as <- Ht. rewrite IH by (simpl; lia). cbn [length mode_of].
    rewrite slice_self. rewrite Ht. rewrite pieces_skip by (simpl; lia).
    replace (i + S (length operator)) with (i + 1 + length operator) by lia.
    rewrite <- drop_drop, Ht, drop_app_length. destruct (pieces _ _ _ t); simpl; [|done].
    by rewrite <- (assoc_L (++)).
Qed.

Lemma split_pieces source operator :
  operator <> [] ->
  splitExpressionAtTopLevel source operator =
  Some (split_result source [] (pieces operator (InCode 0) [] source)).
Proof.
  intros Hop. unfold splitExpressionAtTopLevel. rewrite split_loop_pieces by (done || lia).
  by rewrite slice_self.
Qed.

(** ** The pieces are the source, and cannot be split further *)

Definition operator_left (m : scan_mode) : nat :=
  match m with InOperator k _ => k | _ => 0 end.
(** The mode once the operator has been passed. *)
Definition settled (m : scan_mode) : scan_mode :=
  match m with InOperator _ d => InCode d | _ => m end.

(** What scanning one character of code does, outside an operator. *)
Lemma pieces_code operator m piece c rest depth :
  (m = InCode depth \/ m = InOperator 0 depth) ->
  pieces operator m piece (c :: rest) =
  if is_quote c then pieces operator (Quoted c depth) (piece ++ [c]) rest
  else
    let depth := if is_opening c then (depth + 1)%Z else depth in
    let depth := if is_closing c then (depth - 1)%Z else depth in
    if negb (depth =? 0)%Z then pieces operator (InCode depth) (piece ++ [c]) rest
    else if (c =? question_mark)%N then None
    else if starts_with (c :: rest) operator then
      l ← pieces operator (InOperator (length operator - 1) depth) [] rest; Some (piece :: l)
    else pieces operator (InCode depth) (piece ++ [c]) rest.
Proof. by intros [-> | ->]. Qed.

Lemma pieces_not_nil operator m piece rest : pieces operator m piece rest <> Some [].
Proof.
  revert m piece. induction rest as [|c rest IH]; intros m piece; [done|].
  destruct m as [d|q d|q d|[|k] d]; try (rewrite (pieces_code _ _ _ _ _ d) by auto; cbv zeta;
    repeat (case_match; auto); destruct (pieces _ _ [] rest); done); simpl; auto.
Qed.

Lemma pieces_join operator m piece rest l :
  operator <> [] -> pieces operator m piece rest = Some l ->
  join operator l = piece ++ drop (operator_left m) rest.
Proof.
  intros Hop. revert m piece l. induction rest as [|c rest IH]; intros m piece l.
  { intros [= <-]. by rewrite drop_nil, app_nil_r. }
  assert (Hcode : forall m d, (m = InCode d \/ m = InOperator 0 d) ->
    pieces operator m piece (c :: rest) = Some l -> join operator l = piece ++ c :: rest).
  { intros m' d Hm. rewrite (pieces_code _ _ _ _ _ d) by done. cbv zeta. intros H.
    set (d2 := if is_closing c then _ else _) in H.
    destruct (is_quote c); [apply IH in H; rewrite H; simpl; by rewrite <- (assoc_L (++))|].
    destruct (negb (d2 =? 0)%Z); [apply IH in H; rewrite H; simpl; by rewrite <- (assoc_L (++))|].
    destruct (c =? question_mark)%N; [done|].
    destruct (starts_with (c :: rest) operator) eqn:Hs;
      [|apply IH in H; rewrite H; simpl; by rewrite <- (assoc_L (++))].
    destruct (pieces operator _ [] rest) as [l'|] eqn:Hp; [|done]. injection H as <-.
    destruct l' as [|x l']; [by apply pieces_not_nil in Hp|]. apply IH in Hp. cbn [operator_left app] in Hp.
    change (join operator (piece :: x :: l')) with (piece ++ operator ++ join operator (x :: l')).
    rewrite Hp. f_equal. apply starts_with_spec in Hs as [t Ht].
    rewrite Ht. destruct operator as [|o operator]; [done|]. injection Ht as -> ->. simpl.
    f_equal. f_equal. rewrite Nat.sub_0_r. by rewrite drop_app_length. }
  destruct m as [d|q d|q d|[|k] d]; simpl operator_left.
  - by eapply Hcode; left.
  - cbn [pieces]. intros H. apply IH in H. rewrite H. repeat case_match; simpl; by rewrite <- (assoc_L (++)).
  - cbn [pieces]. intros H. apply IH in H. rewrite H. simpl. by rewrite <- (assoc_L (++)).
  - by eapply Hcode; right.
  - cbn [pieces]. intros H. by apply IH in H.
Qed.

Lemma starts_with_prefix s t p : starts_with (s ++ t) p = false -> starts_with s p = false.
Proof.
  intros H. destruct (starts_with s p) eqn:E; [|done]. apply starts_with_spec in E as [u ->].
  by rewrite <- (assoc_L (++)), starts_with_app in H.
Qed.

(** A piece that contains no top-level operator. *)
Definition unsplittable (operator piece : str) : Prop :=
  pieces operator (InCode 0) [] piece = Some [piece].

(** The first piece is found by scanning its own text only, and the others are
    unsplittable. *)
Lemma pieces_unsplittable operator m piece rest l :
  operator <> [] -> (forall k d, m = InOperator k d -> d = 0%Z) ->
  pieces operator m piece rest = Some l ->
  exists y t l', l = (piece ++ y) :: l' /\ drop (operator_left m) rest = y ++ t /\
    pieces operator (settled m) piece y = Some [piece ++ y] /\ Forall (unsplittable operator) l'.
Proof.
  intros Hop. revert m piece l. induction rest as [|c rest IH]; intros m piece l Hd.
  { intros [= <-]. exists [], [], []. rewrite drop_nil, app_nil_r. done. }
  assert (Hstep : forall m1 m2 cur l, (forall k d, m1 = InOperator k d -> d = 0%Z) ->
    operator_left m1 = 0 -> cur = piece ++ [c] ->
    (forall y t, rest = y ++ t -> pieces operator (settled m1) cur y = Some [cur ++ y] ->
       pieces operator m2 piece (c :: y) = Some [cur ++ y]) ->
    pieces operator m1 cur rest = Some l ->
    exists y t l', l = (piece ++ y) :: l' /\ c :: rest = y ++ t /\
      pieces operator m2 piece y = Some [piece ++ y] /\ Forall (unsplittable operator) l').
  { intros m1 m2 cur l1 Hd1 Hk -> Hrel H. apply IH in H as (y & t & l' & -> & Hy & Hp & Hall); [|done].
    rewrite Hk, drop_0 in Hy. exists (c :: y), t, l'. rewrite <- !(assoc_L (++)). cbn [app].
    split; [done|]. split; [by rewrite Hy|]. split; [|done].
    rewrite (Hrel y t Hy Hp). by rewrite <- (assoc_L (++)). }
  assert (Hcode : forall m d, (m = InCode d \/ (m = InOperator 0 d /\ d = 0%Z)) ->
    pieces operator m piece (c :: rest) = Some l ->
    exists y t l', l = (piece ++ y) :: l' /\ c :: rest = y ++ t /\
      pieces operator (InCode d) piece y = Some [piece ++ y] /\ Forall (unsplittable operator) l').
  { intros m' d Hm. rewrite (pieces_code _ _ _ _ _ d) by tauto. cbv zeta. intros H.
    destruct (is_quote c) eqn:Hq.
    { eapply Hstep; [| | | |exact H]; [done | done | done |].
      intros y t Hy Hp. rewrite (pieces_code _ _ _ _ _ d) by auto. by rewrite Hq. }
    set (d2 := if is_closing c then _ else _) in H.
    destruct (negb (d2 =? 0)%Z) eqn:Hd2.
    { eapply Hstep; [| | | |exact H]; [done | done | done |].
      intros y t Hy Hp. rewrite (pieces_code _ _ _ _ _ d) by auto. cbv zeta. rewrite Hq. fold d2. by rewrite Hd2. }
    destruct (c =? question_mark)%N eqn:Hqm; [done|].
    destruct (starts_with (c :: rest) operator) eqn:Hst.
    - destruct (pieces operator (InOperator _ _) [] rest) as [l1|] eqn:H1; [|done]. injection H as <-.
      apply IH in H1 as (y & t & l' & -> & Hy & Hp & Hall).
      2: { intros k d' [= _ <-]. apply negb_false_iff, Z.eqb_eq in Hd2. done. }
      exists [], (c :: rest), (y :: l'). rewrite app_nil_r. split; [done|]. split; [done|]. split; [done|].
      apply negb_false_iff, Z.eqb_eq in Hd2. simpl in Hp. rewrite Hd2 in Hp. by constructor.
    - eapply Hstep; [| | | |exact H]; [done | done | done |].
      intros y t Hy Hp. rewrite (pieces_code _ _ _ _ _ d) by auto. cbv zeta. rewrite Hq. fold d2.
      rewrite Hd2, Hqm. rewrite (starts_with_prefix (c :: y) t operator); [done|]. simpl. by rewrite <- Hy. }
  destruct m as [d|q d|q d|[|k] d]; cbn [operator_left settled].
  - intros H. apply (Hcode (InCode d) d); auto.
  - cbn [pieces]. intros H. eapply Hstep; [| | | |exact H]; [repeat case_match; done | repeat case_match; done | done |].
    intros y t Hy Hp. cbn [pieces]. by repeat case_match.
  - cbn [pieces]. intros H. by eapply Hstep; [| | | |exact H].
  - intros H. apply (Hcode (InOperator 0 d) d); [|done]. right. split; [done|]. by eapply Hd.
  - cbn [pieces]. intros H. apply IH in H; [done|]. intros k' d' [= _ <-]. by eapply Hd.
Qed.

(** ** Trimmed pieces *)

Lemma space_inert c : is_space c = true ->
  is_quote c = false /\ is_opening c = false /\ is_closing c = false /\ (c =? question_mark)%N = false.
Proof.
  unfold is_space, is_quote, is_opening, is_closing, question_mark, in_range, dquote, squote. intros H.
  repeat rewrite orb_true_iff in H. repeat rewrite andb_true_iff in H. rewrite ?N.leb_le, ?N.eqb_eq in H.
  repeat split; bool_lia.
Qed.

Lemma pieces_piece operator m piece rest :
  pieces operator m piece rest =
  match pieces operator m [] rest with
  | Some (x :: l) => Some ((piece ++ x) :: l)
  | o => o
  end.
Proof.
  revert m piece. induction rest as [|c rest IH]; intros m piece; [by simpl; rewrite app_nil_r|].
  assert (Hs : forall m, pieces operator m (piece ++ [c]) rest =
    match pieces operator m [c] rest with Some (x :: l) => Some ((piece ++ x) :: l) | o => o end).
  { intros m'. rewrite (IH m' (piece ++ [c])), (IH m' [c]).
    destruct (pieces operator m' [] rest) as [[|x l]|]; [done| |done]. by rewrite <- (assoc_L (++)). }
  destruct m as [d|q d|q d|[|k] d]; cbn [pieces app]; rewrite ?Hs; auto.
  - repeat case_match; rewrite ?Hs; try done; simplify_option_eq; by rewrite ?app_nil_r.
  - repeat case_match; rewrite ?Hs; try done; simplify_option_eq; by rewrite ?app_nil_r.
Qed.

Lemma pieces_prefix operator m piece y b x :
  operator_left m = 0 -> pieces operator m piece (y ++ b) = Some [x] ->
  pieces operator m piece y = Some [piece ++ y].
Proof.
  revert m piece. induction y as [|c y IH]; intros m piece Hm; [by simpl; rewrite app_nil_r|].
  cbn [app]. rewrite cons_middle, (assoc_L (++)).
  assert (Hcode : forall m d, (m = InCode d \/ m = InOperator 0 d) ->
    pieces operator m piece (c :: y ++ b) = Some [x] ->
    pieces operator m piece (c :: y) = Some [(piece ++ [c]) ++ y]).
  { intros m' d Hd. rewrite !(pieces_code _ m' _ _ _ d) by done. cbv zeta.
    set (d2 := if is_closing c then _ else _).
    destruct (is_quote c); [by apply IH|]. destruct (negb (d2 =? 0)%Z); [by apply IH|].
    destruct (c =? question_mark)%N; [done|].
    destruct (starts_with (c :: y ++ b) operator) eqn:Hs.
    - destruct (pieces _ _ [] (y ++ b)) as [l|] eqn:Hp; [|done]. intros [= _ ->].
      by apply pieces_not_nil in Hp.
    - rewrite (starts_with_prefix (c :: y) b operator) by done. by apply IH. }
  destruct m as [d|q d|q d|[|k] d]; try done.
  - apply (Hcode _ d); auto.
  - cbn [pieces]. apply IH. by repeat case_match.
  - cbn [pieces]. by apply IH.
  - apply (Hcode _ d); auto.
Qed.

(** The operators the program splits at start with a symbol. *)
Definition plain_operator (operator : str) : Prop :=
  match operator with [] => False | o :: _ => is_space o = false end.

Lemma unsplittable_trim_start operator p :
  plain_operator operator -> unsplittable operator p -> unsplittable operator (trim_start p).
Proof.
  intros Hop. unfold trim_start. induction p as [|c p IH]; intros Hp; cbn [drop_while]; [done|].
  destruct (is_space c) eqn:Hc; [|done]. apply IH. unfold unsplittable in *.
  destruct (space_inert c Hc) as (H1 & H2 & H3 & H4).
  rewrite (pieces_code _ _ _ _ _ 0) in Hp by auto. cbv zeta in Hp. rewrite H1, H2, H3, H4 in Hp.
  simpl negb in Hp. cbn [Z.eqb] in Hp.
  assert (starts_with (c :: p) operator = false) as Hs.
  { destruct operator as [|o operator]; [done|]. simpl in *. destruct (N.eqb_spec o c); [congruence | done]. }
  rewrite Hs, pieces_piece in Hp.
  destruct (pieces operator (InCode 0) [] p) as [[|x l]|]; try done. injection Hp as -> ->. done.
Qed.

Lemma unsplittable_trim operator p :
  plain_operator operator -> unsplittable operator p -> unsplittable operator (trim p).
Proof.
  intros Hop Hp. apply (unsplittable_trim_start operator p Hop) in Hp. unfold trim.
  destruct (drop_while_suffix is_space (reverse (trim_start p))) as [k Hk].
  assert (Hs : trim_start p = trim_end (trim_start p) ++ reverse k).
  { unfold trim_end. by rewrite <- reverse_app, <- Hk, reverse_involutive. }
  unfold unsplittable in *. apply (pieces_prefix operator (InCode 0) [] _ (reverse k) (trim_start p)); [done|].
  by rewrite <- Hs.
Qed.

Lemma split_unsplittable operator p :
  plain_operator operator -> unsplittable operator p -> trim p = p -> p <> [] ->
  splitExpressionAtTopLevel p operator = Some [p].
Proof.
  intros Hop Hp Ht Hne. rewrite split_pieces by (intros ->; exact Hop). unfold unsplittable in Hp.
  rewrite Hp. simpl. rewrite Ht. by destruct p.
Qed.

(** * Removing parentheses *)

(** [text] is [inner] in any number of parentheses and surrounding whitespace. *)
Inductive wraps (inner : str) : str -> Prop :=
| wraps_self text : inner = trim text -> wraps inner text
| wraps_parens text body : trim text = js "(" ++ body ++ js ")" -> wraps inner body -> wraps inner text.

Lemma parens_split expression :
  starts_with expression (js "(") = true -> ends_with expression (js ")") = true ->
  1 < length expression ->
  expression = js "(" ++ slice expression 1 (length expression - 1) ++ js ")".
Proof.
  intros H1 H2 Hlen. apply starts_with_spec in H1 as [t ->]. apply ends_with_spec in H2 as [u Hu].
  change (js "(" ++ t) with (40%N :: t) in *. change (js ")") with [41%N] in *.
  destruct u as [|c u]; simpl in Hu; [injection Hu as ? ?; done|]; injection Hu as <- ->.
  change (js "(") with [40%N]. unfold slice. simpl. rewrite length_app. simpl.
  replace (length u + 1 - 0 - 1) with (length u) by lia. by rewrite drop_0, take_app_length.
Qed.

Lemma closing_at_ge expression i depth quote escaped j :
  closing_at expression i depth quote escaped = Some j -> i <= j.
Proof.
  revert i depth quote escaped. induction expression as [|c e IH]; intros i depth quote escaped; simpl; [done|].
  destruct quote as [q|]; repeat case_match; intros H'; simplify_eq; try lia; apply IH in H'; lia.
Qed.

Lemma unwrap_once_Some expression inner :
  unwrap_once expression = Some inner ->
  exists body, expression = js "(" ++ body ++ js ")" /\ inner = trim body /\ length inner < length expression.
Proof.
  unfold unwrap_once. destruct (_ && _) eqn:E; [|done]. intros [= <-].
  apply andb_true_iff in E as [E H3]. apply andb_true_iff in E as [H1 H2]. breflect.
  assert (1 < length expression) as Hlen.
  { apply starts_with_spec in H1 as [t ->]. change (js "(" ++ t) with (40%N :: t) in *.
    change (closing_at (40%N :: t) 0 0 None false) with (closing_at t 1 1 None false) in H3.
    apply closing_at_ge in H3. simpl in *. lia. }
  eexists. split; [by apply parens_split|]. split; [done|].
  pose proof (trim_length (slice expression 1 (length expression - 1))).
  rewrite slice_length in *. lia.
Qed.

Lemma unwrap_loop_spec fuel expression :
  length expression < fuel -> trim expression = expression ->
  exists r, unwrap_loop fuel expression = Some r /\ trim r = r /\ unwrap_once r = None /\ wraps r expression.
Proof.
  revert expression. induction fuel as [|fuel IH]; intros e Hf Ht; [lia|]. simpl.
  destruct (unwrap_once e) as [inner|] eqn:Hu.
  - apply unwrap_once_Some in Hu as (body & He & -> & Hlen).
    destruct (IH (trim body)) as (r & Hr & Htr & Hn & Hw); [lia | apply trim_idemp|].
    exists r. split; [done|]. split; [done|]. split; [done|].
    eapply wraps_parens; [by rewrite Ht|]. inversion Hw as [text Hi|text b Hb Hw']; subst.
    + apply wraps_self. by rewrite trim_idemp.
    + eapply wraps_parens; [|exact Hw']. by rewrite <- Hb, trim_idemp.
  - exists e. split; [done|]. split; [done|]. split; [done|]. by apply wraps_self.
Qed.

(** * Correctness *)

(** Splitting at a top-level operator always returns. Either the source has
    a top-level ternary and comes back whole, trimmed; or it is exactly the join of
    its raw pieces with the operator, the parts are the non-empty trimmed pieces, and
    no part can be split any further. *)
Theorem split_lossless (source operator : str) (Hop : plain_operator operator) :
  exists parts, splitExpressionAtTopLevel source operator = Some parts /\
    (parts = [trim source] \/
     exists raw, join operator raw = source /\ parts = List.filter non_empty (map trim raw) /\
       forall p, p ∈ parts -> splitExpressionAtTopLevel p operator = Some [p]).
Proof.
  assert (operator <> []) as Hne by (intros ->; exact Hop).
  rewrite split_pieces by done. eexists. split; [reflexivity|].
  destruct (pieces operator (InCode 0) [] source) as [raw|] eqn:Hp; [|by left]. right. exists raw.
  pose proof (pieces_join _ _ _ _ _ Hne Hp) as Hj. split; [done|]. split; [done|].
  apply pieces_unsplittable in Hp as (y & t & l & -> & _ & Hy & Hall); [|done|done].
  assert (Forall (unsplittable operator) (([] ++ y) :: l)) as Hun by (by constructor).
  intros p Hin. apply list_elem_of_In, List.filter_In in Hin as [Hin Hb].
  apply in_map_iff in Hin as (q & <- & Hq). rewrite Forall_forall in Hun.
  apply split_unsplittable; [done | | apply trim_idemp | by destruct (trim q)].
  apply unsplittable_trim, Hun; [done|]. by apply list_elem_of_In.
Qed.

Lemma split_lossless_witness :
  exists parts, splitExpressionAtTopLevel (js "a && f('&&') && (b && c)") (js "&&") = Some parts /\
    parts = [js "a"; js "f('&&')"; js "(b && c)"].
Proof.
  destruct (split_lossless (js "a && f('&&') && (b && c)") (js "&&")) as (parts & Hp & _); [reflexivity|].
  exists parts. split; [exact Hp|]. vm_compute in Hp. by injection Hp as <-.
Defined.

(** Removing enclosing parentheses always returns a trimmed text that is the
    source inside some number of matching outer parentheses and whitespace, and
    from which no further pair can be removed. *)
Theorem unwrap_correct (source : str) :
  exists r, unwrapExpressionParens source = Some r /\ trim r = r /\ wraps r source /\
    unwrapExpressionParens r = Some r.
Proof.
  destruct (unwrap_loop_spec (S (length (trim source))) (trim source)) as (r & Hr & Ht & Hn & Hw);
    [lia | apply trim_idemp|].
  exists r. split; [done|]. split; [done|]. split.
  - inversion Hw as [text Hi|text b Hb Hw']; subst.
    + apply wraps_self. by rewrite trim_idemp.
    + eapply wraps_parens; [|exact Hw']. by rewrite <- Hb, trim_idemp.
  - unfold unwrapExpressionParens. rewrite Ht. simpl. by rewrite Hn.
Qed.
