(* ===== verification/BillingDisplay.v ===== *)
(** The structured price displays of compiled expressions
    (features/pricing/lib/billing-expression/display.ts): token tier chains, time
    branches and task tier chains.

    The source reads [args[0]] and [args[1]] of calls of known arity; the parser
    guarantees the arity, and a call without them is read as an unrecognised
    shape here. *)

From S2P Require Import Prelude JsString JsNumber JsValue BillingTypes BillingParser BillingCompile BillingRuntime.

(** * Data *)

Record token_condition := TokenCondition {
  tc_var : billing_variable;
  tc_op : binary_operator;
  tc_value : number;
}.

Record token_tier := TokenTier {
  tt_conditionText : option str;
  tt_imageCount : bool;
  tt_billingUnit : option billing_unit;
  tt_fixedPrice : option number;
  tt_label : str;
  tt_conditions : list token_condition;
  tt_prices : list (billing_variable * number);
}.

Record time_condition := TimeCondition { tm_condition : node; tm_matches : bool }.
Record time_token_tier := TimeTokenTier {
  tk_tier : token_tier;
  tk_conditionText : str;
  tk_timeConditions : list time_condition;
}.

(** [BillingUsageFieldSchema]: the attributes the readers look at. *)
Inductive usage_unit : Type := Unit_second | Unit_count | Unit_tokens | Unit_credit.
#[export] Instance usage_unit_eq_dec : EqDecision usage_unit.
Proof. solve_decision. Defined.
Inductive usage_type : Type := Usage_number | Usage_boolean.
#[export] Instance usage_type_eq_dec : EqDecision usage_type.
Proof. solve_decision. Defined.
Record usage_field := UsageField {
  uf_type : option usage_type;
  uf_unit : option usage_unit;
  uf_enum : option (list str);
  uf_freeQuantity : option number;
}.
Definition usage_schema : Type := list (str * usage_field).

Record task_condition := TaskCondition { kc_field : str; kc_value : str }.
#[export] Instance task_condition_eq_dec : EqDecision task_condition.
Proof. solve_decision. Defined.
Record task_tier := TaskTier {
  kt_conditionText : option str;
  kt_label : str;
  kt_conditions : list task_condition;
  kt_constant : number;
  kt_unitPrices : list (str * number);
  kt_freeQuantities : list (str * number);
}.

(** * Token tiers *)

Fixpoint flattenBinary (n : node) (operator : binary_operator) : list node :=
  match n with
  | NBinary o l r _ _ =>
      if bool_decide (o = operator) then flattenBinary l operator ++ flattenBinary r operator else [n]
  | _ => [n]
  end.

Definition is_token_operator (o : binary_operator) : bool :=
  match o with B_lt | B_le | B_gt | B_ge => true | _ => false end.
Definition is_condition_variable (v : billing_variable) : bool :=
  match v with V_p | V_c | V_len => true | _ => false end.

Definition tokenCondition (part : node) : option token_condition :=
  match part with
  | NBinary o (NVariable v _ _) (NLiteral (LNumber value) _ _ _) _ _ =>
      if is_token_operator o && is_condition_variable v && negb (n_ltb value n_zero)
      then Some (TokenCondition v o value) else None
  | _ => None
  end.

Fixpoint map_option {A B} (f : A -> option B) (l : list A) : option (list B) :=
  match l with
  | [] => Some []
  | x :: l' => y ← f x; r ← map_option f l'; Some (y :: r)
  end.

Definition tokenConditions (n : node) : option (list token_condition) :=
  map_option tokenCondition (flattenBinary n B_and).

Definition is_zero_literal (n : node) : bool :=
  match n with NLiteral (LNumber v) _ _ _ => n_eqb v n_zero | _ => false end.

Definition nonnegativePriceLiteral (n : node) : option number :=
  match n with
  | NLiteral (LNumber v) _ _ _ => if n_leb n_zero v then Some v else None
  | NUnary U_minus operand _ _ => if is_zero_literal operand then Some n_neg_zero else None
  | _ => None
  end.

(** The remainder [len - ai] that stands for text input. *)
Definition is_text_remainder (n : node) : bool :=
  match n with
  | NBinary B_sub (NVariable V_len _ _) (NVariable V_ai _ _) _ _ => true
  | _ => false
  end.

(** The variable a priced quantity is displayed under. *)
Definition priced_variable (input : node) : option billing_variable :=
  match input with
  | NVariable v _ _ =>
      if bool_decide (v = V_len) || bool_decide (v = V_image_count) then None else Some v
  | NCall F_max [x; y] _ _ =>
      if is_zero_literal x then if is_text_remainder y then Some V_p else None
      else if is_zero_literal y then if is_text_remainder x then Some V_p else None
      else None
  | _ => None
  end.

(** One term [variable * price] of a tier body. *)
Definition priced_term (term : node) : option (billing_variable * number) :=
  match term with
  | NBinary B_mul l r _ _ =>
      match nonnegativePriceLiteral r with
      | Some price => v ← priced_variable l; Some (v, price)
      | None =>
          match nonnegativePriceLiteral l with
          | Some price => v ← priced_variable r; Some (v, price)
          | None => None
          end
      end
  | _ => None
  end.

(** [prices[variable] = price], rejecting a variable that is already priced. *)
Definition add_price (prices : option (list (billing_variable * number))) (term : node)
    : option (list (billing_variable * number)) :=
  prices ← prices;
  '(v, price) ← priced_term term;
  match obj_get v prices with
  | Some _ => None
  | None => Some (prices ++ [(v, price)])
  end.

Definition fixed_tier (label : str) (conditions : list token_condition) (conditionText : option str)
    (price : number) : token_tier :=
  TokenTier conditionText false (Some Unit_request) (Some price) label conditions [].

Definition tokenTier (n : node) (conditions : list token_condition) (conditionText : option str)
    : option token_tier :=
  match n with
  | NCall F_tier (NLiteral (LString label) _ _ _ :: body :: _) _ _ =>
      let metered :=
        prices ← fold_left add_price (flattenBinary body B_add) (Some []);
        match prices with
        | [] => None
        | _ => Some (TokenTier None false None None label conditions prices)
        end in
      match body with
      | NCall F_fixed (NLiteral (LNumber v) _ _ _ :: _) _ _ =>
          Some (fixed_tier label conditions conditionText v)
      | NLiteral (LNumber v) _ _ _ =>
          if n_leb n_zero v then Some (fixed_tier label conditions conditionText v) else metered
      | _ => metered
      end
  | _ => None
  end.

Definition is_request_probe (n : node) : bool :=
  match n with
  | NCall F_param [NLiteral (LString _) _ _ _] _ _ | NCall F_header [NLiteral (LString _) _ _ _] _ _ => true
  | _ => false
  end.
Definition is_literal (n : node) : bool :=
  match n with NLiteral _ _ _ _ => true | _ => false end.

Fixpoint isDisplayRequestCondition (n : node) : bool :=
  match n with
  | NBinary B_and l r _ _ | NBinary B_or l r _ _ =>
      isDisplayRequestCondition l && isDisplayRequestCondition r
  | NBinary B_eq l r _ _ | NBinary B_ne l r _ _ =>
      (is_request_probe l && is_literal r) || (is_literal l && is_request_probe r)
  | _ => false
  end.

(** [ai > 0] or [ao > 0] *)
Definition audio_presence (n : node) : option billing_variable :=
  match n with
  | NBinary B_gt (NVariable v _ _) zero _ _ =>
      if (bool_decide (v = V_ai) || bool_decide (v = V_ao)) && is_zero_literal zero then Some v else None
  | _ => None
  end.
Definition both_audio (l r : node) : bool :=
  match audio_presence l, audio_presence r with
  | Some v, Some w => bool_decide (v <> w)
  | _, _ => false
  end.

Definition with_text (tier : token_tier) (text : str) : token_tier :=
  TokenTier (Some text) (tt_imageCount tier) (tt_billingUnit tier) (tt_fixedPrice tier) (tt_label tier)
    (tt_conditions tier) (tt_prices tier).
Definition with_image_count (tier : token_tier) : token_tier :=
  TokenTier (tt_conditionText tier) true (tt_billingUnit tier) (tt_fixedPrice tier) (tt_label tier)
    (tt_conditions tier) (tt_prices tier).

(** The special form [ai > 0 || ao > 0 ? audio tier : text tier]. *)
Definition audio_tiers (n : node) : option (list token_tier) :=
  match n with
  | NConditional (NBinary B_or l r _ _) yes no _ _ =>
      if both_audio l r then
        match tokenTier yes [] None, tokenTier no [] None with
        | Some audio, Some text => Some [with_text audio (js "Audio requests"); with_text text (js "Text-only requests")]
        | _, _ => None
        end
      else None
  | _ => None
  end.

(** The [while] loop over the chain of conditionals. *)
Fixpoint tier_loop (source : str) (remaining : node) (tiers : list token_tier) : option (list token_tier) :=
  match remaining with
  | NConditional c yes no _ _ =>
      let conditions := tokenConditions c in
      let conditionText :=
        if bool_decide (source <> []) && isDisplayRequestCondition c
        then match slice source (node_start c) (node_stop c) with [] => None | text => Some text end
        else None in
      match conditions, conditionText with
      | None, None => None
      | _, _ =>
          tier ← tokenTier yes (default [] conditions) conditionText;
          tier_loop source no (tiers ++ [tier])
      end
  | _ => fallback ← tokenTier remaining [] None; Some (tiers ++ [fallback])
  end.

Fixpoint readTokenTierChain (n : node) (source : str) : option (list token_tier) :=
  match audio_tiers n with
  | Some tiers => Some tiers
  | None =>
      match n with
      | NBinary B_mul l r _ _ =>
          if is_image_count l then map with_image_count <$> readTokenTierChain r source
          else if is_image_count r then map with_image_count <$> readTokenTierChain l source
          else tier_loop source n []
      | _ => tier_loop source n []
      end
  end.

(** * Time branches *)

Definition is_time_or_math (f : billing_function) : bool :=
  match f with F_time _ | F_min | F_max | F_abs | F_ceil | F_floor => true | _ => false end.

Definition isTimeCondition (n : node) : result exn bool :=
  '(variables, functions) ← expressionDependencies n;
  Ok (bool_decide (variables = []) && existsb is_time_function functions && forallb is_time_or_math functions).

Definition time_condition_text (source : str) (t : time_condition) : str :=
  let text := slice source (node_start (tm_condition t)) (node_stop (tm_condition t)) in
  if tm_matches t then js "(" ++ text ++ js ")" else js "!(" ++ text ++ js ")".
Definition token_condition_text (c : token_condition) : str :=
  variable_name (tc_var c) ++ js " " ++ operator_text (tc_op c) ++ js " " ++ string_of_number (tc_value c).

Definition time_tier (source : str) (path : list time_condition) (tier : token_tier) : time_token_tier :=
  TimeTokenTier tier
    (join (js " && ") (join (js " && ") (map (time_condition_text source) path)
       :: map token_condition_text (tt_conditions tier)))
    path.

Fixpoint timeTierBranches (compiled : compiled_expression) (n : node) (path : list time_condition)
    : result exn (option (list time_token_tier)) :=
  let leaf :=
    match readTokenTierChain n [], path with
    | Some tiers, _ :: _ => Ok (Some (map (time_tier (c_source compiled) path) tiers))
    | _, _ => Ok None
    end in
  match n with
  | NConditional c yes no _ _ =>
      time ← isTimeCondition c;
      if (time : bool) then
        yes ← timeTierBranches compiled yes (path ++ [TimeCondition c true]);
        no ← timeTierBranches compiled no (path ++ [TimeCondition c false]);
        Ok (match yes, no with Some yes, Some no => Some (yes ++ no) | _, _ => None end)
      else leaf
  | _ => leaf
  end.

Section time_pricing.
Context {host : Host}.

Definition tier_is_current (compiled : compiled_expression) (now : date) (tier : time_token_tier) : bool :=
  forallb (fun t => bool_decide (evaluateBillingCondition compiled (tm_condition t) now = Some (tm_matches t)))
    (tk_timeConditions tier).

Definition readTimeTokenPricing (source : str) (now : option date)
    : result exn (option (list time_token_tier * list time_token_tier)) :=
  match compile_source source with
  | NotReady _ => Ok None
  | Ready compiled =>
      tiers ← timeTierBranches compiled (c_ast compiled) [];
      Ok (match tiers with
          | None => None
          | Some tiers =>
              Some (tiers, match now with
                           | Some now => List.filter (tier_is_current compiled now) tiers
                           | None => []
                           end)
          end)
  end.
End time_pricing.

(** * Task tiers *)

(** [taskConditions]: [TC_null] for an unrecognised condition. *)
Inductive task_conditions : Type :=
| TC_null
| TC_unreachable
| TC_conditions (l : list task_condition).

(** [u("field") == literal] *)
Definition usage_comparison (term : node) : option (str * lit_value) :=
  match term with
  | NBinary B_eq (NCall F_u (NLiteral (LString field) _ _ _ :: _) _ _) (NLiteral value _ _ _) _ _ =>
      Some (field, value)
  | _ => None
  end.

(** [String(value)] of a literal. *)
Definition literal_text (v : lit_value) : str :=
  match v with
  | LString s => s
  | LNumber n => string_of_number n
  | LBoolean b => if b then js "true" else js "false"
  | LNull => js "null"
  end.

(** What one term adds: nothing recognised, or the flag [reachable] and the
    condition to record, if any. *)
Definition task_condition_of (schema : usage_schema) (includeBoolean : bool) (term : node)
    : option (bool * option task_condition) :=
  '(field, value) ← usage_comparison term;
  match obj_get field schema with
  | None =>
      match value with
      | LBoolean true => Some (false, None)
      | LBoolean false | LString _ => Some (true, None)
      | _ => None
      end
  | Some definition =>
      let recorded := Some (TaskCondition field (literal_text value)) in
      if bool_decide (uf_type definition = Some Usage_boolean) then
        match value with
        | LBoolean _ => if includeBoolean then Some (true, recorded) else None
        | _ => None
        end
      else
        match value, uf_enum definition with
        | LString s, Some values => Some (bool_decide (s ∈ values), recorded)
        | _, _ => None
        end
  end.

Definition taskConditions (n : node) (schema : usage_schema) (includeBoolean : bool) : task_conditions :=
  match map_option (task_condition_of schema includeBoolean) (flattenBinary n B_and) with
  | None => TC_null
  | Some l =>
      if forallb fst l then TC_conditions (omap snd l) else TC_unreachable
  end.

(** [u("field")] with a literal field. *)
Definition usage_read (n : node) : option str :=
  match n with
  | NCall F_u (NLiteral (LString field) _ _ _ :: _) _ _ => Some field
  | _ => None
  end.

(** [max(u("field") - N, 0)]: the field and the free quantity. *)
Definition free_quantity_read (n : node) : option (str * number) :=
  match n with
  | NCall F_max [NBinary B_sub read free _ _; zero] _ _ =>
      field ← usage_read read;
      quantity ← nonnegativePriceLiteral free;
      z ← nonnegativePriceLiteral zero;
      if n_eqb z n_zero then Some (field, quantity) else None
  | _ => None
  end.

Record task_prices := TaskPrices {
  kp_constant : option number;
  kp_unitPrices : list (str * number);
  kp_freeQuantities : list (str * number);
}.

Definition add_unit_price (field : str) (price : number) (free : option number) (p : task_prices)
    : option task_prices :=
  match obj_get field (kp_unitPrices p) with
  | Some _ => None
  | None => Some (TaskPrices (kp_constant p) (kp_unitPrices p ++ [(field, price)])
                    (match free with Some q => kp_freeQuantities p ++ [(field, q)] | None => kp_freeQuantities p end))
  end.

(** [/ 1000000] around a term: whether it is there, and the term inside. *)
Definition unscaled (term : node) : option (bool * node) :=
  match term with
  | NBinary B_div l r _ _ =>
      match r with
      | NLiteral (LNumber v) _ _ _ => if n_eqb v n_million then Some (true, l) else None
      | _ => None
      end
  | _ => Some (false, term)
  end.

(** One term of the body of a task tier. *)
Definition task_term (schema : usage_schema) (acc : option task_prices) (term : node)
    : option task_prices :=
  p ← acc;
  match nonnegativePriceLiteral term with
  | Some literal =>
      match kp_constant p with
      | Some _ => None
      | None => Some (TaskPrices (Some literal) (kp_unitPrices p) (kp_freeQuantities p))
      end
  | None =>
      '(scaled, term) ← unscaled term;
      match term with
      | NBinary B_mul l r _ _ =>
          price ← nonnegativePriceLiteral r;
          match usage_read l with
          | Some field =>
              match obj_get field schema with
              | None => Some p
              | Some definition =>
                  if bool_decide (uf_type definition = Some Usage_number) then
                    match uf_unit definition with
                    | None => None
                    | Some unit =>
                        match obj_get field (kp_unitPrices p) with
                        | Some _ => None
                        | None =>
                            if Bool.eqb (bool_decide (unit = Unit_tokens)) scaled
                            then add_unit_price field price None p else None
                        end
                    end
                  else None
              end
          | None =>
              '(field, quantity) ← free_quantity_read l;
              definition ← obj_get field schema;
              if bool_decide (uf_type definition = Some Usage_number) &&
                 bool_decide (uf_unit definition = Some Unit_count)
              then
                match obj_get field (kp_unitPrices p) with
                | Some _ => None
                | None => if is_integer quantity then add_unit_price field price (Some quantity) p else None
                end
              else None
          end
      | _ => None
      end
  end.

Definition taskTier (n : node) (conditions : list task_condition) (schema : usage_schema)
    : option task_tier :=
  match n with
  | NCall F_tier (NLiteral (LString label) _ _ _ :: body :: _) _ _ =>
      p ← fold_left (task_term schema) (flattenBinary body B_add) (Some (TaskPrices None [] []));
      match kp_unitPrices p with
      | [] => None
      | _ => Some (TaskTier None label conditions (default n_zero (kp_constant p)) (kp_unitPrices p)
                     (kp_freeQuantities p))
      end
  | _ => None
  end.

(** An earlier tier applies whenever these conditions hold. *)
Definition shadowed (tiers : list task_tier) (conditions : list task_condition) : bool :=
  existsb (fun earlier => forallb (fun c => bool_decide (c ∈ conditions)) (kt_conditions earlier)) tiers.

Fixpoint task_tier_loop (remaining : node) (schema : usage_schema) (includeBoolean : bool)
    (tiers : list task_tier) : option (list task_tier) :=
  match remaining with
  | NConditional c yes no _ _ =>
      match taskConditions c schema includeBoolean with
      | TC_null => None
      | TC_unreachable => task_tier_loop no schema includeBoolean tiers
      | TC_conditions conditions =>
          if shadowed tiers conditions then task_tier_loop no schema includeBoolean tiers
          else
            tier ← taskTier yes conditions schema;
            match conditions with
            | [] => Some (tiers ++ [tier])
            | _ => task_tier_loop no schema includeBoolean (tiers ++ [tier])
            end
      end
  | _ => fallback ← taskTier remaining [] schema; Some (tiers ++ [fallback])
  end.

Definition readTaskTierChain (n : node) (schema : usage_schema) (includeBoolean : bool)
    : option (list task_tier) :=
  task_tier_loop n schema includeBoolean [].
