(* ===== verification/BillingDisplayFacts.v ===== *)
(** The token tier chain shows what the interpreter charges: evaluating an
    expression that is displayed as a tier chain selects the first displayed tier
    whose conditions hold and charges its displayed prices. *)

From S2P Require Import Prelude JsString JsNumber JsValue BillingTypes BillingParserFacts BillingCompile BillingTyping BillingCompileFacts BillingRuntime BillingRuntimeFacts BillingRuntimeTrace BillingDisplay.

#[local] Arguments evaluate : simpl never.

(** * What a displayed tier means *)

(** The number of tokens of a variable. *)
Definition token_value (ctx : simulation_context) (v : billing_variable) : option number :=
  match ctx_tokens ctx ≫= obj_get (variable_name v) with
  | Some (VNumber x) => Some x
  | _ => None
  end.

Definition compare_numbers (o : binary_operator) (x y : number) : bool :=
  match o with
  | B_lt => n_ltb x y
  | B_le => n_leb x y
  | B_gt => n_ltb y x
  | B_ge => n_leb y x
  | _ => false
  end.

(** A displayed condition, and all conditions of a tier, hold in a context. *)
Definition condition_holds (ctx : simulation_context) (c : token_condition) : bool :=
  match token_value ctx (tc_var c) with
  | Some x => compare_numbers (tc_op c) x (tc_value c)
  | None => false
  end.
Definition tier_applies (ctx : simulation_context) (tier : token_tier) : bool :=
  forallb (condition_holds ctx) (tt_conditions tier).

(** Equal up to the sign of zero. *)
Definition same_price (p p' : number) : Prop :=
  p = p' \/ (n_eqb p n_zero = true /\ n_eqb p' n_zero = true).

(** The quantity displayed under a variable: its token count or, for [p], the
    text remainder [max(len - ai, 0)]. *)
Definition quantity (ctx : simulation_context) (v : billing_variable) (x : number) : Prop :=
  token_value ctx v = Some x \/
  (v = V_p /\ exists len ai zero, token_value ctx V_len = Some len /\ token_value ctx V_ai = Some ai /\
     n_eqb zero n_zero = true /\ (x = n_max zero (n_sub len ai) \/ x = n_max (n_sub len ai) zero)).

(** The charge of one displayed price. *)
Definition charge (ctx : simulation_context) (entry : billing_variable * number) (y : number) : Prop :=
  exists x p, quantity ctx entry.1 x /\ same_price entry.2 p /\ (y = n_mul x p \/ y = n_mul p x).

(** [x] is a sum of the numbers of the list, in order, in some bracketing. *)
Inductive sums_to : list number -> number -> Prop :=
| sums_one y : sums_to [y] y
| sums_add l r x y : sums_to l x -> sums_to r y -> sums_to (l ++ r) (n_add x y).

Section display.
Context {host : Host} (env : runtime_env).
Abbreviation ctx := (re_context env).

Lemma eval_literal v i a b s r s' :
  evaluate env (NLiteral v i a b) s = Ok (r, s') -> rv_value r = of_literal v.
Proof. intros H. apply evaluate_Ok_inv in H as (s1 & _ & H & _). by injection H as <- _. Qed.

Lemma eval_token_variable v a b s r s' :
  v <> V_image_count -> evaluate env (NVariable v a b) s = Ok (r, s') ->
  exists x, token_value ctx v = Some x /\ rv_value r = VNumber x.
Proof.
  intros Hv H. apply evaluate_Ok_inv in H as (s1 & _ & H & _). simpl in H. unfold eval_variable in H.
  rewrite bool_decide_false in H by done. unfold token_value.
  destruct (ctx_tokens ctx ≫= obj_get (variable_name v)) as [[| | |x| | |]|]; try done.
  destruct (n_ltb x n_zero); [done|]. injection H as <- _. eauto.
Qed.

(** Both operands of a strict operator are evaluated and combined. *)
Lemma eval_strict_binary o l r a b s v s' :
  is_logical o = false -> evaluate env (NBinary o l r a b) s = Ok (v, s') ->
  exists s0 vl s1 vr s2, evaluate env l s0 = Ok (vl, s1) /\ evaluate env r s1 = Ok (vr, s2) /\
    apply_binary o vl vr a = Ok v.
Proof.
  intros Ho H. apply evaluate_Ok_inv in H as (s1 & _ & H & _).
  assert ((l ← evaluate env l; r ← evaluate env r; lift (apply_binary o l r a))
            (set_depth (rs_depth s + 1) s) = Ok (v, s1)) as H' by (destruct o; try discriminate; exact H).
  inv_ok H'. inv_ok H'. unfold lift in H'. destruct (apply_binary o a0 a1 a) eqn:E; [|done].
  injection H' as <- <-. eauto 10.
Qed.

Lemma tokenCondition_eval part c s r s' :
  tokenCondition part = Some c -> evaluate env part s = Ok (r, s') ->
  rv_value r = VBool (condition_holds ctx c).
Proof.
  destruct part as [| | | |o l q a b|]; try done. destruct l as [|v a1 b1| | | |]; try done.
  destruct q as [[|value| |] i a2 b2| | | | |]; try done. simpl.
  destruct (is_token_operator o) eqn:Ho; [|done]. destruct (is_condition_variable v) eqn:Hv; [|done].
  destruct (n_ltb value n_zero); [done|]. simpl. intros [= <-] H.
  apply eval_strict_binary in H as (s0 & vl & s1 & vr & s2 & Hl & Hr & Hb); [|by destruct o].
  apply eval_token_variable in Hl as (x & Hx & Hvl); [|by destruct v].
  apply eval_literal in Hr. unfold condition_holds. simpl. rewrite Hx.
  unfold apply_binary in Hb. rewrite Hvl, Hr in Hb. destruct o; try discriminate; by injection Hb as <-.
Qed.

Lemma map_option_app {A B} (f : A -> option B) l1 l2 l :
  map_option f (l1 ++ l2) = Some l ->
  exists r1 r2, l = r1 ++ r2 /\ map_option f l1 = Some r1 /\ map_option f l2 = Some r2.
Proof.
  revert l. induction l1 as [|x l1 IH]; intros l; simpl; [exists [], l; done|].
  destruct (f x) as [y|]; [|done]. simpl. destruct (map_option f (l1 ++ l2)) as [r|]; [|done].
  simpl. intros [= <-]. destruct (IH r) as (r1 & r2 & -> & -> & ->); [done|].
  exists (y :: r1), r2. done.
Qed.

Lemma map_option_single {A B} (f : A -> option B) x l :
  map_option f [x] = Some l -> exists y, l = [y] /\ f x = Some y.
Proof. simpl. destruct (f x); [|done]. simpl. intros [= <-]. eauto. Qed.

(** A conjunction of token conditions evaluates to whether they all hold. *)
Lemma tokenConditions_eval n cs s r s' :
  tokenConditions n = Some cs -> evaluate env n s = Ok (r, s') ->
  rv_value r = VBool (forallb (condition_holds ctx) cs).
Proof.
  unfold tokenConditions. revert cs s r s'.
  induction n as [| |f args a b IH| |o l q a b IHl IHq|] using node_ind'; intros cs s r s' Hc He;
    try (apply map_option_single in Hc as (c & -> & Hc); simpl; rewrite andb_true_r;
         by eapply tokenCondition_eval).
  cbn [flattenBinary] in Hc. case_bool_decide as Ho.
  - subst o. apply map_option_app in Hc as (r1 & r2 & -> & Hl & Hr). rewrite forallb_app.
    apply evaluate_Ok_inv in He as (s1 & _ & He & _). simpl in He.
    inv_ok He. apply eval_boolean_Ok in H as (v & Hv & Hb).
    pose proof (IHl _ _ _ _ Hl Hv) as Hv'. rewrite Hb in Hv'. injection Hv' as ->.
    destruct (forallb (condition_holds ctx) r1).
    + inv_ok He. injection He as <- _. apply eval_boolean_Ok in H as (w & Hw & Hbw).
      rewrite (IHq _ _ _ _ Hr Hw) in Hbw. injection Hbw as <-. done.
    + by injection He as <- _.
  - apply map_option_single in Hc as (c & -> & Hc). simpl. rewrite andb_true_r. by eapply tokenCondition_eval.
Qed.

(** ** Priced terms *)

Lemma eqb_zero v : n_eqb v n_zero = true -> exists b, v = SpecFloat.S754_zero b.
Proof. destruct v as [b|b| |b m e]; [eauto | by destruct b | done | by destruct b]. Qed.

Lemma price_literal_eval n p s r s' :
  nonnegativePriceLiteral n = Some p -> evaluate env n s = Ok (r, s') ->
  exists p', rv_value r = VNumber p' /\ same_price p p'.
Proof.
  destruct n as [[|v| |] i a b| | |o x a b| |]; try done; simpl.
  - destruct (n_leb n_zero v); [|done]. intros [= <-] H. apply eval_literal in H.
    exists v. split; [done | by left].
  - destruct o; try done. destruct (is_zero_literal x) eqn:Hz; [|done]. intros [= <-] H.
    apply evaluate_Ok_inv in H as (s1 & _ & H & _). simpl in H. inv_ok H.
    apply eval_numeric_Ok in H0 as (r0 & H0 & Hv & _). injection H as <- _.
    destruct x as [[|v| |] i a1 b1| | | | |]; try done. apply eval_literal in H0. rewrite H0 in Hv.
    injection Hv as Hv. simpl in Hz. exists (n_neg a0.1). split; [done|]. right. rewrite <- Hv.
    apply eqb_zero in Hz as [z ->]. by destruct z.
Qed.

Lemma text_remainder_eval n s r s' :
  is_text_remainder n = true -> evaluate env n s = Ok (r, s') ->
  exists len ai, token_value ctx V_len = Some len /\ token_value ctx V_ai = Some ai /\
    rv_value r = VNumber (n_sub len ai).
Proof.
  destruct n as [| | | |o l q a b|]; try done. destruct o; try done.
  destruct l as [|[] a1 b1| | | |]; try done. destruct q as [|[] a2 b2| | | |]; try done. intros _ H.
  apply eval_strict_binary in H as (s0 & vl & s1 & vr & s2 & Hl & Hr & Hb); [|done].
  apply eval_token_variable in Hl as (x & Hx & Hvl); [|done].
  apply eval_token_variable in Hr as (y & Hy & Hvr); [|done].
  simpl in Hb. rewrite Hvl, Hvr in Hb. injection Hb as <-. eauto.
Qed.

Lemma zero_literal_eval n s r s' :
  is_zero_literal n = true -> evaluate env n s = Ok (r, s') ->
  exists z, rv_value r = VNumber z /\ n_eqb z n_zero = true.
Proof.
  destruct n as [[|v| |] i a b| | | | |]; try done. simpl. intros Hz H. apply eval_literal in H. eauto.
Qed.

Lemma priced_variable_eval input v s r s' :
  priced_variable input = Some v -> evaluate env input s = Ok (r, s') ->
  exists x, rv_value r = VNumber x /\ quantity ctx v x.
Proof.
  destruct input as [|w a b|f args a b| | |]; try done; simpl.
  - destruct (bool_decide (w = V_len) || bool_decide (w = V_image_count)) eqn:Hw; [done|].
    intros [= <-] H. apply orb_false_iff in Hw as [_ Hw]. breflect.
    apply eval_token_variable in H as (x & Hx & Hv); [|done]. exists x. split; [done | by left].
  - destruct f; try done. destruct args as [|x [|y [|? ?]]]; try done. intros Hp H.
    apply evaluate_Ok_inv in H as (s1 & _ & H & _). cbn [evaluateNode] in H. simpl in H.
    unfold eval_math2 in H. simpl in H.
    inv_ok H. inv_ok H. injection H as <- _.
    apply eval_numeric_Ok in H0 as (rx & Hx & Hvx & _). apply eval_numeric_Ok in H1 as (ry & Hy & Hvy & _).
    destruct (is_zero_literal x) eqn:Hzx; [|destruct (is_zero_literal y) eqn:Hzy; [|done]].
    + destruct (is_text_remainder y) eqn:Hr; [|done]. injection Hp as <-.
      eapply zero_literal_eval in Hx as (z & Hz & Hz0); [|done].
      eapply text_remainder_eval in Hy as (len & ai & Hlen & Hai & Hd); [|done].
      rewrite Hz in Hvx. injection Hvx as <-. rewrite Hd in Hvy. injection Hvy as <-.
      eexists. split; [done|]. right. split; [done|]. exists len, ai, z. auto.
    + destruct (is_text_remainder x) eqn:Hr; [|done]. injection Hp as <-.
      eapply zero_literal_eval in Hy as (z & Hz & Hz0); [|done].
      eapply text_remainder_eval in Hx as (len & ai & Hlen & Hai & Hd); [|done].
      rewrite Hz in Hvy. injection Hvy as <-. rewrite Hd in Hvx. injection Hvx as <-.
      eexists. split; [done|]. right. split; [done|]. exists len, ai, z. auto.
Qed.

Lemma priced_term_eval term entry s r s' :
  priced_term term = Some entry -> evaluate env term s = Ok (r, s') ->
  exists y, rv_value r = VNumber y /\ charge ctx entry y.
Proof.
  destruct term as [| | | |o l q a b|]; try done. destruct o; try done. intros Hp H. cbn [priced_term] in Hp.
  apply eval_strict_binary in H as (s0 & vl & s1 & vr & s2 & Hl & Hr & Hb); [|done].
  destruct (nonnegativePriceLiteral q) as [p|] eqn:Hq.
  - destruct (priced_variable l) as [v|] eqn:Hv; [|done]. injection Hp as <-.
    eapply priced_variable_eval in Hl as (x & Hx & Hqx); [|done].
    eapply price_literal_eval in Hr as (p' & Hp' & Hsame); [|done].
    simpl in Hb. rewrite Hx, Hp' in Hb. injection Hb as <-. eexists. split; [done|].
    exists x, p'. simpl. auto.
  - destruct (nonnegativePriceLiteral l) as [p|] eqn:Hpl; [|done].
    destruct (priced_variable q) as [v|] eqn:Hv; [|done]. injection Hp as <-.
    eapply priced_variable_eval in Hr as (x & Hx & Hqx); [|done].
    eapply price_literal_eval in Hl as (p' & Hp' & Hsame); [|done].
    simpl in Hb. rewrite Hx, Hp' in Hb. injection Hb as <-. eexists. split; [done|].
    exists x, p'. simpl. auto.
Qed.

Lemma fold_add_price terms acc prices :
  fold_left add_price terms (Some acc) = Some prices ->
  exists es, map_option priced_term terms = Some es /\ prices = acc ++ es.
Proof.
  assert (Hnone : forall l, fold_left add_price l None = None) by (intros l; by induction l).
  revert acc. induction terms as [|t terms IH]; intros acc; simpl.
  - intros [= <-]. exists []. by rewrite app_nil_r.
  - destruct (priced_term t) as [[v p]|]; simpl; [|by rewrite Hnone].
    destruct (obj_get v acc); [by rewrite Hnone|]. intros H. apply IH in H as (es & -> & ->).
    exists ((v, p) :: es). simpl. by rewrite <- (assoc_L (++)).
Qed.

(** The body of a metered tier evaluates to a sum of its displayed charges. *)
Lemma sum_eval body es s r s' :
  map_option priced_term (flattenBinary body B_add) = Some es -> evaluate env body s = Ok (r, s') ->
  exists x ys, rv_value r = VNumber x /\ Forall2 (charge ctx) es ys /\ sums_to ys x.
Proof.
  revert es s r s'.
  assert (Hterm : forall t es s r s', map_option priced_term [t] = Some es ->
    evaluate env t s = Ok (r, s') ->
    exists x ys, rv_value r = VNumber x /\ Forall2 (charge ctx) es ys /\ sums_to ys x).
  { intros t es s r s' Ht He. apply map_option_single in Ht as (e & -> & Ht).
    eapply priced_term_eval in He as (y & Hy & Hc); [|done]. exists y, [y].
    split; [done|]. split; [by repeat constructor | constructor]. }
  induction body as [| |f args a b IH| |o l q a b IHl IHq|] using node_ind'; intros es s r s' Hp He;
    try (by eapply Hterm).
  cbn [flattenBinary] in Hp. case_bool_decide as Ho; [|by eapply Hterm]. subst o.
  apply map_option_app in Hp as (e1 & e2 & -> & H1 & H2).
  apply eval_strict_binary in He as (s0 & vl & s1 & vr & s2 & Hl & Hr & Hb); [|done].
  destruct (IHl _ _ _ _ H1 Hl) as (x & ys & Hx & Hys & Hsx).
  destruct (IHq _ _ _ _ H2 Hr) as (y & zs & Hy & Hzs & Hsy).
  simpl in Hb. rewrite Hx, Hy in Hb. injection Hb as <-. eexists _, (ys ++ zs). split; [done|].
  split; [by apply Forall2_app | by constructor].
Qed.

Lemma unmarked_binary o l r a b : unmarked l -> unmarked r -> unmarked (NBinary o l r a b).
Proof.
  unfold unmarked, uses_function. rewrite (postorder_unfold (NBinary _ _ _ _ _)). simpl.
  rewrite app_nil_r. intros [Hl1 Hl2] [Hr1 Hr2].
  split; intros (args & a' & b' & Hin); rewrite !elem_of_app, list_elem_of_singleton in Hin;
    destruct Hin as [[Hin|Hin]|Hin]; eauto 10; discriminate.
Qed.

Lemma tokenConditions_unmarked n cs : tokenConditions n = Some cs -> unmarked n.
Proof.
  unfold tokenConditions. revert cs.
  assert (Hone : forall n cs, map_option tokenCondition [n] = Some cs -> unmarked n).
  { intros m cs Hc. apply map_option_single in Hc as (c & _ & Hc).
    destruct m as [| | | |o l r a b|]; try done. destruct l; try done. destruct r as [[]| | | | |]; try done.
    apply unmarked_binary; by apply unmarked_leaf. }
  induction n as [| |f args a b IH| |o l q a b IHl IHq|] using node_ind'; intros cs Hc; try (by eapply Hone).
  cbn [flattenBinary] in Hc. case_bool_decide; [|by eapply Hone].
  apply map_option_app in Hc as (r1 & r2 & _ & H1 & H2). apply unmarked_binary; eauto.
Qed.

(** ** Tiers *)

(** The state and value after charging by a displayed tier. *)
Definition tier_charged (tier : token_tier) (s s' : runtime_state) (x : number) : Prop :=
  rs_matchedTier s' = tt_label tier /\
  match tt_fixedPrice tier with
  | Some p =>
      (x = n_mul p n_million /\ rs_billingUnit s' = Unit_request /\ rs_fixedPrice s' = Some p) \/
      (x = p /\ rs_billingUnit s' = rs_billingUnit s /\ rs_fixedPrice s' = rs_fixedPrice s)
  | None => exists ys, Forall2 (charge ctx) (tt_prices tier) ys /\ sums_to ys x
  end.

Lemma tokenTier_eval n cs text tier s r s' :
  tokenTier n cs text = Some tier -> evaluate env n s = Ok (r, s') ->
  tt_conditions tier = cs /\ exists x, rv_value r = VNumber x /\ tier_charged tier s s' x.
Proof.
  intros Ht H. destruct n as [| |f args a b| | |]; try done. destruct f; try done.
  destruct args as [|name [|body rest]]; try done.
  { destruct name as [[| | |]| | | | |]; done. }
  destruct name as [[label| | |] i a1 b1| | | | |]; try done. cbn [tokenTier] in Ht.
  apply evaluate_Ok_inv in H as (s1 & _ & H & _ & ->). cbn [evaluateNode] in H.
  apply eval_tier_leaf in H as (label' & s2 & amount & s3 & Hs & Hn & -> & Hr).
  apply eval_string_Ok in Hs as (rl & Hs & Hl). pose proof Hs as Hs0.
  apply evaluate_unmarked in Hs0; [|by apply unmarked_leaf].
  apply eval_literal in Hs. rewrite Hs in Hl. injection Hl as <-.
  apply eval_numeric_Ok in Hn as (rb & Hb & Hv & _).
  assert (Hmetered : (prices ← fold_left add_price (flattenBinary body B_add) (Some []);
      match prices with [] => None | _ => Some (TokenTier None false None None label cs prices) end) = Some tier ->
    tt_conditions tier = cs /\ exists x, rv_value r = VNumber x /\
      tier_charged tier s (set_depth (rs_depth (set_tier label s3) - 1) (set_tier label s3)) x).
  { destruct (fold_left _ _ _) as [prices|] eqn:Hp; [|done]. simpl.
    apply fold_add_price in Hp as (es & Hp & ->). simpl. destruct es as [|e es]; [done|]. intros [= <-].
    eapply sum_eval in Hb as (x & ys & Hx & Hys & Hsx); [|done]. rewrite Hx in Hv. injection Hv as Hv.
    split; [done|]. exists x. split; [congruence|]. split; [done|]. simpl. eauto. }
  destruct body as [[|v| |] i2 a2 b2| |f args a2 b2| | |]; try (by apply Hmetered).
  - destruct (n_leb n_zero v); [|by apply Hmetered]. injection Ht as <-. split; [done|].
    pose proof Hb as Hb0. apply evaluate_unmarked in Hb0; [|by apply unmarked_leaf].
    apply eval_literal in Hb. rewrite Hb in Hv. injection Hv as Hv. exists v. rewrite Hr, <- Hv.
    split; [done|]. split; [done|]. right. unfold pricing_of in *. simpl in *. split; [done|].
    split; congruence.
  - destruct f; try (by apply Hmetered). destruct args as [|[[|v| |] i3 a3 b3| | | | |] args]; try (by apply Hmetered).
    injection Ht as <-. split; [done|]. apply eval_fixed_price in Hb as [Hp Hb]. rewrite Hb in Hv.
    injection Hv as Hv. exists (n_mul v n_million). rewrite Hr, <- Hv. split; [done|]. split; [done|].
    left. unfold pricing_of in Hp. simpl. split; [done|]. split; congruence.
Qed.

Lemma tier_loop_prefix n tiers0 tiers :
  tier_loop [] n tiers0 = Some tiers -> exists ts, tiers = tiers0 ++ ts.
Proof.
  revert tiers0. assert (Hleaf : forall n tiers0, (fallback ← tokenTier n [] None; Some (tiers0 ++ [fallback])) = Some tiers ->
    exists ts, tiers = tiers0 ++ ts).
  { intros m tiers0. destruct (tokenTier m [] None); [|done]. intros [= <-]. eauto. }
  induction n as [| |f args a b IH| | |c y z a b IHc IHy IHz] using node_ind'; intros tiers0 Ht;
    try (by eapply Hleaf).
  cbn [tier_loop] in Ht. rewrite bool_decide_false in Ht by tauto. cbn [andb] in Ht.
  destruct (tokenConditions c) as [cs|]; [|done]. simpl in Ht.
  destruct (tokenTier y cs None) as [tier|]; [|done]. simpl in Ht.
  apply IHz in Ht as [ts ->]. exists (tier :: ts). by rewrite <- (assoc_L (++)).
Qed.

Lemma tokenTier_conditions n cs text tier : tokenTier n cs text = Some tier -> tt_conditions tier = cs.
Proof.
  intros Ht. destruct n as [| |f args a b| | |]; try done. destruct f; try done.
  destruct args as [|[[label| | |] i a1 b1| | | | |] [|body rest]]; try done. cbn [tokenTier] in Ht.
  assert (Hmetered : (prices ← fold_left add_price (flattenBinary body B_add) (Some []);
      match prices with [] => None | _ => Some (TokenTier None false None None label cs prices) end) = Some tier ->
    tt_conditions tier = cs).
  { destruct (fold_left _ _ _) as [[|e es]|]; [done | by intros [= <-] | done]. }
  destruct body as [[|v| |] i2 a2 b2| |f args a2 b2| | |]; try (by apply Hmetered).
  - destruct (n_leb n_zero v); [by injection Ht as <- | by apply Hmetered].
  - destruct f; try (by apply Hmetered). destruct args as [|[[|v| |] i3 a3 b3| | | | |] args]; try (by apply Hmetered).
    by injection Ht as <-.
Qed.

(** Evaluating a chain charges by the first tier that applies. *)
Lemma tier_loop_eval n tiers0 tiers s r s' :
  tier_loop [] n tiers0 = Some tiers -> evaluate env n s = Ok (r, s') ->
  exists ts tier x, tiers = tiers0 ++ ts /\ List.find (tier_applies ctx) ts = Some tier /\
    rv_value r = VNumber x /\ tier_charged tier s s' x.
Proof.
  revert tiers0 s r s'.
  assert (Hleaf : forall n tiers0 s r s', (fallback ← tokenTier n [] None; Some (tiers0 ++ [fallback])) = Some tiers ->
    evaluate env n s = Ok (r, s') ->
    exists ts tier x, tiers = tiers0 ++ ts /\ List.find (tier_applies ctx) ts = Some tier /\
      rv_value r = VNumber x /\ tier_charged tier s s' x).
  { intros m tiers0 s r s' Ht He. destruct (tokenTier m [] None) as [tier|] eqn:E; [|done].
    injection Ht as <-. eapply tokenTier_eval in He as (Hc & x & Hx & Hch); [|done].
    exists [tier], tier, x. split; [done|]. split; [|done]. simpl. unfold tier_applies. by rewrite Hc. }
  induction n as [| |f args a b IH| | |c y z a b IHc IHy IHz] using node_ind'; intros tiers0 s r s' Ht He;
    try (by eapply Hleaf).
  cbn [tier_loop] in Ht. rewrite bool_decide_false in Ht by tauto. cbn [andb] in Ht.
  destruct (tokenConditions c) as [cs|] eqn:Hcs; [|done]. cbn [default from_option] in Ht. simpl in Ht.
  destruct (tokenTier y cs None) as [tier|] eqn:Hy; [|done]. simpl in Ht.
  apply evaluate_Ok_inv in He as (s1 & _ & He & _ & ->). cbn [evaluateNode] in He.
  unfold eval_conditional in He. inv_ok He. apply eval_boolean_Ok in H as (rc & Hc & Hb).
  pose proof Hc as Hp. apply evaluate_unmarked in Hp; [|by eapply tokenConditions_unmarked].
  eapply tokenConditions_eval in Hc; [|exact Hcs]. rewrite Hb in Hc. injection Hc as ->.
  inv_ok He. assert (pricing_of s2 = pricing_of s) as E.
  { transitivity (pricing_of s0); [|exact Hp]. destruct (find_index _ _), (forallb _ cs); by injection H as _ <-. }
  assert (Hsame : forall tier x, tier_charged tier s2 s1 x ->
    tier_charged tier s (set_depth (rs_depth s1 - 1) s1) x).
  { intros t x [Hl Hf]. split; [done|]. injection E as _ E1 E2. simpl. rewrite <- E1, <- E2. exact Hf. }
  destruct (forallb (condition_holds ctx) cs) eqn:Hall.
  - eapply tokenTier_eval in He as (Hct & x & Hx & Hch); [|exact Hy].
    assert (exists ts, tiers = tiers0 ++ tier :: ts) as [ts ->].
    { apply tier_loop_prefix in Ht as [ts ->]. exists ts. by rewrite <- (assoc_L (++)). }
    exists (tier :: ts), tier, x. split; [done|]. split; [|auto]. simpl. unfold tier_applies at 1.
    by rewrite Hct, Hall.
  - eapply IHz in He as (ts & t & x & -> & Hf & Hx & Hch); [|exact Ht].
    exists (tier :: ts), t, x. split; [by rewrite <- (assoc_L (++))|]. split; [|auto]. simpl.
    assert (tt_conditions tier = cs) as Hct by (by eapply tokenTier_conditions).
    unfold tier_applies at 1. by rewrite Hct, Hall.
Qed.
End display.

(** * The chain as a whole *)

Lemma tier_loop_nonempty source n tiers0 tiers : tier_loop source n tiers0 = Some tiers -> tiers <> [].
Proof.
  revert tiers0. assert (Hleaf : forall n tiers0, (fallback ← tokenTier n [] None; Some (tiers0 ++ [fallback])) = Some tiers ->
    tiers <> []).
  { intros m tiers0. destruct (tokenTier m [] None); [|done]. intros [= <-]. by destruct tiers0. }
  induction n as [| |f args a b IH| | |c y z a b IHc IHy IHz] using node_ind'; intros tiers0 Ht;
    try (by eapply Hleaf).
  cbn [tier_loop] in Ht. repeat (case_match; try done); destruct (tokenTier y _ _); try done; by eapply IHz.
Qed.

Lemma readTokenTierChain_nonempty n source tiers : readTokenTierChain n source = Some tiers -> tiers <> [].
Proof.
  revert tiers. induction n as [| |f args a b IH| |o l r a b IHl IHr|c y z a b IHc IHy IHz] using node_ind';
    intros tiers H; cbn [readTokenTierChain] in H.
  1-4: exact (tier_loop_nonempty _ _ _ _ H).
  - cbn [audio_tiers] in H. destruct o; try (exact (tier_loop_nonempty _ _ _ _ H)).
    destruct (is_image_count l); [|destruct (is_image_count r); [|exact (tier_loop_nonempty _ _ _ _ H)]].
    + destruct (readTokenTierChain r source) as [ts|]; [|done]. injection H as <-.
      specialize (IHr _ eq_refl). by destruct ts.
    + destruct (readTokenTierChain l source) as [ts|]; [|done]. injection H as <-.
      specialize (IHl _ eq_refl). by destruct ts.
  - destruct (audio_tiers _) as [ts|] eqn:Ha; [|exact (tier_loop_nonempty _ _ _ _ H)]. injection H as <-.
    cbn [audio_tiers] in Ha. repeat (case_match; try done). by injection Ha as <-.
Qed.

(** Without request probes no condition is shown as text. *)
Definition no_probes (l : list node) : Prop := ~ uses_function l F_param /\ ~ uses_function l F_header.

Lemma no_probes_child n x : x ∈ children n -> no_probes (postorder n) -> no_probes (postorder x).
Proof.
  intros Hx [H1 H2]. split; intros (args & a & b & Hin); [apply H1 | apply H2];
    exists args, a, b; by eapply children_postorder.
Qed.

Lemma no_probes_condition c : no_probes (postorder c) -> isDisplayRequestCondition c = false.
Proof.
  assert (Hprobe : forall x, no_probes (postorder x) -> is_request_probe x = false).
  { intros x [H1 H2]. destruct x as [| |f args a b| | |]; try done.
    destruct f; try done; destruct args as [|[[]| | | | |] [|? ?]]; try done; exfalso;
      [apply H1 | apply H2]; do 3 eexists; apply postorder_self. }
  induction c as [| |f args a b IH| |o l r a b IHl IHr|] using node_ind'; intros Hn; try done.
  assert (no_probes (postorder l)) as Hl by (eapply no_probes_child; [|exact Hn]; simpl; set_solver).
  assert (no_probes (postorder r)) as Hr by (eapply no_probes_child; [|exact Hn]; simpl; set_solver).
  destruct o; try done; simpl; rewrite ?IHl by done; rewrite ?(Hprobe l), ?(Hprobe r) by done; try done;
    by rewrite andb_false_r.
Qed.

Lemma tier_loop_source source n tiers :
  no_probes (postorder n) -> tier_loop source n tiers = tier_loop [] n tiers.
Proof.
  revert tiers. induction n as [| |f args a b IH| | |c y z a b IHc IHy IHz] using node_ind'; intros tiers Hn; try done.
  cbn [tier_loop]. rewrite no_probes_condition; [|eapply no_probes_child; [|exact Hn]; simpl; set_solver].
  rewrite !andb_false_r. destruct (tokenConditions c); [|done]. destruct (tokenTier y _ None); [|done]. simpl.
  apply IHz. eapply no_probes_child; [|exact Hn]; simpl; set_solver.
Qed.

(** ** Time branches *)

Section time_branches.
Context {host : Host} (compiled : compiled_expression) (now : date).

Definition time_holds (t : time_condition) : bool :=
  bool_decide (evaluateBillingCondition compiled (tm_condition t) now = Some (tm_matches t)).

(** The branch the clock selects, following the time conditions from the root. *)
Fixpoint selected_branch (n : node) (path : list time_condition) : option (node * list time_condition) :=
  match n with
  | NConditional c yes no _ _ =>
      match isTimeCondition c with
      | Ok true =>
          match evaluateBillingCondition compiled c now with
          | Some true => selected_branch yes (path ++ [TimeCondition c true])
          | Some false => selected_branch no (path ++ [TimeCondition c false])
          | None => None
          end
      | Ok false => Some (n, path)
      | Throw _ => None
      end
  | _ => Some (n, path)
  end.

Lemma timeTierBranches_path n path tiers :
  timeTierBranches compiled n path = Ok (Some tiers) ->
  Forall (fun t => exists more, tk_timeConditions t = path ++ more) tiers.
Proof.
  revert path tiers.
  assert (Hleaf : forall n path tiers,
    match readTokenTierChain n [], path with
    | Some ts, _ :: _ => Ok (E := exn) (Some (map (time_tier (c_source compiled) path) ts))
    | _, _ => Ok None
    end = Ok (Some tiers) -> Forall (fun t => exists more, tk_timeConditions t = path ++ more) tiers).
  { intros m path tiers. destruct (readTokenTierChain m []) as [ts|]; [|done].
    destruct path as [|p path]; [done|]. intros [= <-]. apply Forall_forall. intros t Ht.
    apply list_elem_of_fmap in Ht as (tt & -> & _). exists []. by rewrite app_nil_r. }
  induction n as [| |f args a b IH| | |c y z a b IHc IHy IHz] using node_ind'; intros path tiers H;
    cbn [timeTierBranches] in H; try (by eapply Hleaf).
  destruct (isTimeCondition c) as [[]|]; cbn [mbind result_bind] in H; [|by eapply Hleaf|done].
  inv_ok H. inv_ok H. destruct a0 as [t1|], a1 as [t2|]; try done. injection H as <-.
  apply Forall_app. split.
  - eapply Forall_impl; [by eapply IHy|]. intros t [more ->]. rewrite <- (assoc_L (++)). eauto.
  - eapply Forall_impl; [by eapply IHz|]. intros t [more ->]. rewrite <- (assoc_L (++)). eauto.
Qed.

Lemma filter_stale n path p tiers :
  timeTierBranches compiled n (path ++ [p]) = Ok (Some tiers) -> time_holds p = false ->
  List.filter (tier_is_current compiled now) tiers = [].
Proof.
  intros H Hp. apply timeTierBranches_path in H. induction H as [|t tiers [more Ht] _ IH]; [done|]. simpl.
  enough (tier_is_current compiled now t = false) as -> by done.
  unfold tier_is_current. rewrite Ht, !forallb_app. simpl. unfold time_holds in Hp. rewrite Hp.
  by rewrite andb_false_r.
Qed.

(** Selecting by the clock keeps exactly the tiers of the selected branch. *)
Lemma current_tiers n path tiers leaf path' :
  timeTierBranches compiled n path = Ok (Some tiers) -> forallb time_holds path = true ->
  selected_branch n path = Some (leaf, path') ->
  List.filter (tier_is_current compiled now) tiers =
    map (time_tier (c_source compiled) path') (default [] (readTokenTierChain leaf [])).
Proof.
  revert path tiers.
  assert (Hleaf : forall n path tiers,
    match readTokenTierChain n [], path with
    | Some ts, _ :: _ => Ok (E := exn) (Some (map (time_tier (c_source compiled) path) ts))
    | _, _ => Ok None
    end = Ok (Some tiers) -> forallb time_holds path = true ->
    List.filter (tier_is_current compiled now) tiers =
      map (time_tier (c_source compiled) path) (default [] (readTokenTierChain n []))).
  { intros m path tiers H Hp. destruct (readTokenTierChain m []) as [ts|]; [|done].
    destruct path as [|p path]; [done|]. injection H as <-. simpl.
    generalize dependent ts. induction ts as [|t ts IH]; [done|]. cbn [map List.filter].
    assert (tier_is_current compiled now (time_tier (c_source compiled) (p :: path) t) = true) as -> by exact Hp.
    by rewrite IH. }
  induction n as [| |f args a b IH| | |c y z a b IHc IHy IHz] using node_ind'; intros path tiers H Hp Hs;
    cbn [timeTierBranches selected_branch] in H, Hs; try (injection Hs as <- <-; by eapply Hleaf).
  destruct (isTimeCondition c) as [[]|]; cbn [mbind result_bind] in H; [|injection Hs as <- <-; by eapply Hleaf|done].
  inv_ok H. inv_ok H. destruct a0 as [t1|], a1 as [t2|]; try done. injection H as <-.
  rewrite List.filter_app.
  destruct (evaluateBillingCondition compiled c now) as [[]|] eqn:Hc; [| |done].
  - rewrite (filter_stale z path (TimeCondition c false) t2), app_nil_r; [|done|].
    + eapply IHy; [exact H0 | | exact Hs]. rewrite forallb_app, Hp. simpl. unfold time_holds. simpl.
      by rewrite Hc, bool_decide_true.
    + unfold time_holds. simpl. rewrite Hc. by apply bool_decide_false.
  - rewrite (filter_stale y path (TimeCondition c true) t1); [|done|].
    + simpl. eapply IHz; [exact H1 | | exact Hs]. rewrite forallb_app, Hp. simpl. unfold time_holds. simpl.
      by rewrite Hc, bool_decide_true.
    + unfold time_holds. simpl. rewrite Hc. by apply bool_decide_false.
Qed.
End time_branches.
