(* ===== verification/TaskDisplayFacts.v ===== *)
(** The task tier chain shows what the interpreter charges: on usage facts that
    conform to the schema, evaluation selects the first displayed tier whose
    conditions match and charges its constant and unit prices. *)

From S2P Require Import Prelude JsString JsNumber JsValue BillingTypes BillingParserFacts BillingCompile BillingTyping BillingCompileFacts BillingRuntime BillingRuntimeFacts BillingRuntimeTrace BillingDisplay BillingDisplayFacts.

#[local] Arguments evaluate : simpl never.

(** * Facts and conditions *)

Definition usage_facts : Type := list (str * jsval).

(** Every declared boolean is reported as a boolean, every declared enum as one
    of its values. *)
Definition conforms (schema : usage_schema) (usage : usage_facts) : Prop :=
  forall field def, obj_get field schema = Some def ->
    (uf_type def = Some Usage_boolean -> exists b, obj_get field usage = Some (VBool b)) /\
    (uf_type def <> Some Usage_boolean -> forall values, uf_enum def = Some values ->
       exists s, obj_get field usage = Some (VString s) /\ s ∈ values).

(** Every usage field the expression reads is declared. *)
Definition fields_declared (schema : usage_schema) (l : list node) : Prop :=
  forall field i a b rest a' b', NCall F_u (NLiteral (LString field) i a b :: rest) a' b' ∈ l ->
    is_Some (obj_get field schema).

Definition fact_text (v : jsval) : option str :=
  match v with
  | VString s => Some s
  | VBool b => Some (if b then js "true" else js "false")
  | _ => None
  end.
Definition task_holds (usage : usage_facts) (c : task_condition) : bool :=
  bool_decide (obj_get (kc_field c) usage ≫= fact_text = Some (kc_value c)).
Definition task_applies (usage : usage_facts) (tier : task_tier) : bool :=
  forallb (task_holds usage) (kt_conditions tier).

Lemma fields_declared_child schema n x :
  x ∈ children n -> fields_declared schema (postorder n) -> fields_declared schema (postorder x).
Proof.
  intros Hx H field i a b rest a' b' Hin. eapply H. by eapply children_postorder.
Qed.

Section task_chain.
Context {host : Host} (env : runtime_env) (schema : usage_schema) (usage : usage_facts).
Hypothesis Husage : ctx_usage (re_context env) = Some usage.
Hypothesis Hconf : conforms schema usage.

Lemma eval_usage field i a b rest a' b' s r s' :
  evaluate env (NCall F_u (NLiteral (LString field) i a b :: rest) a' b') s = Ok (r, s') ->
  rv_value r = default VNull (obj_get field usage).
Proof.
  intros H. apply evaluate_Ok_inv in H as (s1 & _ & H & _). simpl in H. inv_ok H.
  apply eval_string_Ok in H0 as (r0 & H0 & Hv). apply eval_literal in H0. rewrite H0 in Hv.
  injection Hv as <-. rewrite Husage in H. by injection H as <- _.
Qed.

(** A recognised term evaluates to whether it is reachable and holds. *)
Lemma task_condition_eval inc term reach cond s r s' :
  fields_declared schema (postorder term) ->
  task_condition_of schema inc term = Some (reach, cond) -> evaluate env term s = Ok (r, s') ->
  exists c, cond = Some c /\ rv_value r = VBool (reach && task_holds usage c).
Proof.
  intros Hd Ht He. unfold task_condition_of in Ht.
  destruct (usage_comparison term) as [[field value]|] eqn:Hc; [|done]. simpl in Ht.
  destruct term as [| | | |o l q a b|]; try done. destruct o; try done.
  destruct l as [| |f args a1 b1| | |]; try done. destruct f; try done.
  destruct args as [|[[fld| | |] i a2 b2| | | | |] rest]; try done.
  destruct q as [v i3 a3 b3| | | | |]; try done. simpl in Hc. injection Hc as -> ->.
  assert (is_Some (obj_get field schema)) as [def Hdef].
  { eapply Hd. eapply (children_postorder _ (NCall F_u (NLiteral (LString field) i a2 b2 :: rest) a1 b1));
      [simpl; set_solver | apply postorder_self]. }
  rewrite Hdef in Ht. destruct (Hconf _ _ Hdef) as [Hbool Henum].
  apply eval_strict_binary in He as (s0 & vl & s1 & vr & s2 & Hl & Hr & Hb); [|done].
  apply eval_usage in Hl. apply eval_literal in Hr. unfold apply_binary in Hb. rewrite Hl, Hr in Hb.
  destruct (bool_decide (uf_type def = Some Usage_boolean)) eqn:Hty; breflect.
  - destruct value as [| |lb|]; try done. destruct inc; [|done]. injection Ht as <- <-.
    destruct (Hbool Hty) as [ub Hub]. rewrite Hub in Hb. simpl in Hb. injection Hb as <-.
    eexists. split; [done|]. simpl. unfold task_holds. simpl. rewrite Hub. simpl.
    by destruct ub, lb.
  - destruct value as [lit| | |]; try done. destruct (uf_enum def) as [values|] eqn:Hen; [|done].
    injection Ht as <- <-. destruct (Henum Hty _ eq_refl) as (us & Hus & Hin). rewrite Hus in Hb.
    simpl in Hb. injection Hb as <-. eexists. split; [done|]. simpl. unfold task_holds. simpl. rewrite Hus.
    simpl. f_equal. destruct (decide (us = lit)) as [->|Hne].
    + by rewrite !bool_decide_true.
    + rewrite (bool_decide_false (us = lit)) by done. rewrite (bool_decide_false (Some us = Some lit)) by congruence.
      by rewrite andb_false_r.
Qed.

Lemma task_conditions_eval inc n l s r s' :
  fields_declared schema (postorder n) ->
  map_option (task_condition_of schema inc) (flattenBinary n B_and) = Some l ->
  evaluate env n s = Ok (r, s') ->
  rv_value r = VBool (forallb fst l && forallb (task_holds usage) (omap snd l)).
Proof.
  revert l s r s'.
  assert (Hone : forall n l s r s', fields_declared schema (postorder n) ->
    map_option (task_condition_of schema inc) [n] = Some l -> evaluate env n s = Ok (r, s') ->
    rv_value r = VBool (forallb fst l && forallb (task_holds usage) (omap snd l))).
  { intros m l s r s' Hd Hl He. apply map_option_single in Hl as ([reach cond] & -> & Hl).
    eapply task_condition_eval in He as (c & -> & ->); [|done|done]. simpl. by rewrite !andb_true_r. }
  induction n as [| |f args a b IH| |o x y a b IHx IHy|] using node_ind'; intros l s r s' Hd Hl He;
    try (by eapply Hone).
  cbn [flattenBinary] in Hl. case_bool_decide as Ho; [|by eapply Hone]. subst o.
  apply map_option_app in Hl as (r1 & r2 & -> & H1 & H2). rewrite forallb_app, omap_app, forallb_app.
  assert (fields_declared schema (postorder x)) as Hdx by (eapply fields_declared_child; [|exact Hd]; simpl; set_solver).
  assert (fields_declared schema (postorder y)) as Hdy by (eapply fields_declared_child; [|exact Hd]; simpl; set_solver).
  apply evaluate_Ok_inv in He as (s1 & _ & He & _). simpl in He. inv_ok He.
  apply eval_boolean_Ok in H as (v & Hv & Hb). rewrite (IHx _ _ _ _ Hdx H1 Hv) in Hb. injection Hb as <-.
  destruct (forallb fst r1), (forallb (task_holds usage) (omap snd r1)); simpl in He |- *;
    try (injection He as <- _; simpl; by rewrite ?andb_false_r).
  inv_ok He. injection He as <- _. apply eval_boolean_Ok in H as (w & Hw & Hbw).
  rewrite (IHy _ _ _ _ Hdy H2 Hw) in Hbw. by injection Hbw as <-.
Qed.

(** ** Tiers *)

Lemma taskTier_eval n cs tier s r s' :
  taskTier n cs schema = Some tier -> evaluate env n s = Ok (r, s') ->
  kt_conditions tier = cs /\ rs_matchedTier s' = kt_label tier.
Proof.
  intros Ht H. destruct n as [| |f args a b| | |]; try done. destruct f; try done.
  destruct args as [|[[label| | |] i a1 b1| | | | |] [|body rest]]; try done. cbn [taskTier] in Ht.
  destruct (fold_left _ _ _) as [p|]; [|done]. simpl in Ht.
  assert (kt_conditions tier = cs /\ kt_label tier = label) as [Hc ->].
  { destruct (kp_unitPrices p); [done|]. by injection Ht as <-. }
  split; [done|]. apply evaluate_Ok_inv in H as (s1 & _ & H & _ & ->). cbn [evaluateNode] in H.
  apply eval_tier_leaf in H as (label' & s2 & amount & s3 & Hs & _ & -> & _).
  apply eval_string_Ok in Hs as (rl & Hs & Hl). apply eval_literal in Hs. rewrite Hs in Hl.
  by injection Hl as <-.
Qed.

Lemma taskTier_conditions n cs tier : taskTier n cs schema = Some tier -> kt_conditions tier = cs.
Proof.
  intros Ht. destruct n as [| |f args a b| | |]; try done. destruct f; try done.
  destruct args as [|[[label| | |] i a1 b1| | | | |] [|body rest]]; try done. cbn [taskTier] in Ht.
  destruct (fold_left _ _ _) as [p|]; [|done]. simpl in Ht.
  destruct (kp_unitPrices p); [done|]. by injection Ht as <-.
Qed.

Lemma shadowed_applies tiers cs :
  shadowed tiers cs = true -> forallb (task_holds usage) cs = true ->
  exists t, t ∈ tiers /\ task_applies usage t = true.
Proof.
  unfold shadowed. rewrite existsb_exists. intros (t & Hin & Hsub) Hcs. exists t.
  split; [by apply list_elem_of_In|]. unfold task_applies. rewrite forallb_forall in Hsub, Hcs |- *.
  intros c Hc. specialize (Hsub c Hc). breflect. apply Hcs. by apply list_elem_of_In.
Qed.

Lemma find_none_app (f : task_tier -> bool) l1 l2 :
  Forall (fun t => f t = false) l1 -> List.find f (l1 ++ l2) = List.find f l2.
Proof. induction 1 as [|t l Ht _ IH]; simpl; [done|]. by rewrite Ht. Qed.

Lemma task_loop_prefix n inc tiers0 tiers :
  task_tier_loop n schema inc tiers0 = Some tiers -> exists ts, tiers = tiers0 ++ ts.
Proof.
  revert tiers0.
  assert (Hleaf : forall n tiers0, (fallback ← taskTier n [] schema; Some (tiers0 ++ [fallback])) = Some tiers ->
    exists ts, tiers = tiers0 ++ ts).
  { intros m tiers0. destruct (taskTier m [] schema); [|done]. intros [= <-]. eauto. }
  induction n as [| |f args a b IH| | |c y z a b IHc IHy IHz] using node_ind'; intros tiers0 Ht;
    try (by eapply Hleaf).
  cbn [task_tier_loop] in Ht. destruct (taskConditions c schema inc) as [| |cs]; [done | by apply IHz |].
  destruct (shadowed tiers0 cs); [by apply IHz|]. destruct (taskTier y cs schema) as [tier|]; [|done].
  simpl in Ht. destruct cs as [|? ?]; [injection Ht as <-; eauto|].
  apply IHz in Ht as [ts ->]. exists (tier :: ts). by rewrite <- (assoc_L (++)).
Qed.

(** ** Prices *)

(** The charge of a displayed unit price: the quantity times the price, per
    million for token fields. *)
Definition unit_charge (entry : str * number) (y : number) : Prop :=
  exists u p def unit, obj_get entry.1 usage = Some (VNumber u) /\ same_price entry.2 p /\
    obj_get entry.1 schema = Some def /\ uf_unit def = Some unit /\
    if bool_decide (unit = Unit_tokens)
    then exists million, n_eqb million n_million = true /\ y = n_div (n_mul u p) million
    else y = n_mul u p.

(** A sum of terms that each evaluate to numbers. *)
Definition evaluates_to (t : node) (y : number) : Prop :=
  exists s r s', evaluate env t s = Ok (r, s') /\ rv_value r = VNumber y.

Lemma flatten_sum_eval body s r s' :
  (forall t s r s', t ∈ flattenBinary body B_add -> evaluate env t s = Ok (r, s') ->
     exists y, rv_value r = VNumber y) ->
  evaluate env body s = Ok (r, s') ->
  exists x ys, rv_value r = VNumber x /\ Forall2 evaluates_to (flattenBinary body B_add) ys /\ sums_to ys x.
Proof.
  revert s r s'.
  assert (Hone : forall t s r s', evaluate env t s = Ok (r, s') -> (exists y, rv_value r = VNumber y) ->
    exists x ys, rv_value r = VNumber x /\ Forall2 evaluates_to [t] ys /\ sums_to ys x).
  { intros t s r s' He [y Hy]. exists y, [y]. split; [done|]. split; [|constructor].
    constructor; [|constructor]. unfold evaluates_to. eauto. }
  induction body as [| |f args a b IH| |o l q a b IHl IHq|] using node_ind'; intros s r s' Hnum He;
    try (eapply Hone; [exact He|]; eapply Hnum; [|exact He]; simpl; set_solver).
  cbn [flattenBinary] in Hnum |- *. destruct (bool_decide (o = B_add)) eqn:Ho;
    [|eapply Hone; [exact He|]; eapply Hnum; [|exact He]; simpl; set_solver].
  breflect. subst o. apply eval_strict_binary in He as (s0 & vl & s1 & vr & s2 & Hl & Hr & Hb); [|done].
  destruct (IHl s0 vl s1) as (x & ys & Hx & Hys & Hsx); [|done|].
  { intros t ? ? ? Ht. apply Hnum. set_solver. }
  destruct (IHq s1 vr s2) as (y & zs & Hy & Hzs & Hsy); [|done|].
  { intros t ? ? ? Ht. apply Hnum. set_solver. }
  simpl in Hb. rewrite Hx, Hy in Hb. injection Hb as <-. eexists _, (ys ++ zs). split; [done|].
  split; [by apply Forall2_app | by constructor].
Qed.

(** What one step of the term loop recognised. *)
Inductive term_kind (t : node) (p p' : task_prices) : Prop :=
| TK_constant c :
    nonnegativePriceLiteral t = Some c -> kp_constant p = None ->
    p' = TaskPrices (Some c) (kp_unitPrices p) (kp_freeQuantities p) -> term_kind t p p'
| TK_price field price :
    p' = TaskPrices (kp_constant p) (kp_unitPrices p ++ [(field, price)]) (kp_freeQuantities p) ->
    (forall s r s', evaluate env t s = Ok (r, s') ->
       exists y, rv_value r = VNumber y /\ unit_charge (field, price) y) -> term_kind t p p'
| TK_dropped field : obj_get field schema = None -> (exists i a b rest a' b',
      NCall F_u (NLiteral (LString field) i a b :: rest) a' b' ∈ postorder t) -> p' = p -> term_kind t p p'
| TK_free : kp_freeQuantities p' <> [] -> term_kind t p p'.

Lemma unscaled_inv t scaled t' :
  unscaled t = Some (scaled, t') ->
  if scaled then exists m i a1 b1 a b, t = NBinary B_div t' (NLiteral (LNumber m) i a1 b1) a b /\ n_eqb m n_million = true
  else t = t'.
Proof.
  destruct t as [| | | |o l r a b|]; simpl; try (by intros [= <- <-]).
  destruct o; try (by intros [= <- <-]). destruct r as [[|m| |] i a1 b1| | | | |]; try done.
  destruct (n_eqb m n_million) eqn:Hm; [|done]. intros [= <- <-]. eauto 10.
Qed.

Lemma product_eval x field p a b s r s' :
  usage_read x.1 = Some field -> nonnegativePriceLiteral x.2 = Some p ->
  evaluate env (NBinary B_mul x.1 x.2 a b) s = Ok (r, s') ->
  exists u p', obj_get field usage = Some (VNumber u) /\ same_price p p' /\ rv_value r = VNumber (n_mul u p').
Proof.
  intros Hf Hp He. apply eval_strict_binary in He as (s0 & vl & s1 & vr & s2 & Hl & Hr & Hb); [|done].
  eapply price_literal_eval in Hr as (p' & Hp' & Hsame); [|exact Hp].
  destruct x as [l q]. simpl in *. destruct l as [| |f args a1 b1| | |]; try done. destruct f; try done.
  destruct args as [|[[fld| | |] i a2 b2| | | | |] rest]; try done. injection Hf as ->.
  apply eval_usage in Hl. rewrite Hl, Hp' in Hb.
  destruct (obj_get field usage) as [[| | |u| | |]|]; try done. simpl in Hb. injection Hb as <-. eauto 10.
Qed.

Lemma task_term_kind t p p' : task_term schema (Some p) t = Some p' -> term_kind t p p'.
Proof.
  unfold task_term. cbn [mbind option_bind]. destruct (nonnegativePriceLiteral t) as [c|] eqn:Hlit.
  { destruct (kp_constant p) eqn:Hk; [done|]. intros [= <-]. by eapply TK_constant. }
  destruct (unscaled t) as [[scaled t']|] eqn:Hsc; [|done]. cbn [mbind option_bind].
  destruct t' as [| | | |o l q a b|]; try done. destruct o; try done.
  destruct (nonnegativePriceLiteral q) as [price|] eqn:Hq; [|done]. cbn [mbind option_bind].
  pose proof (unscaled_inv _ _ _ Hsc) as Hinv.
  destruct (usage_read l) as [field|] eqn:Hl.
  - destruct (obj_get field schema) as [def|] eqn:Hdef.
    2: { intros [= <-]. eapply TK_dropped; [exact Hdef| |done].
         destruct l as [| |f args a1 b1| | |]; try done. destruct f; try done.
         destruct args as [|[[fld| | |] i a2 b2| | | | |] rest]; try done. injection Hl as ->.
         exists i, a2, b2, rest, a1, b1.
         assert (NCall F_u (NLiteral (LString field) i a2 b2 :: rest) a1 b1 ∈
           postorder (NBinary B_mul (NCall F_u (NLiteral (LString field) i a2 b2 :: rest) a1 b1) q a b)) as Hin.
         { eapply children_postorder; [|apply postorder_self]. simpl. set_solver. }
         destruct scaled; [|by subst t]. destruct Hinv as (m & i3 & a3 & b3 & a4 & b4 & -> & _).
         eapply children_postorder; [|exact Hin]. simpl. set_solver. }
    destruct (bool_decide (uf_type def = Some Usage_number)); [|done].
    destruct (uf_unit def) as [unit|] eqn:Hu; [|done]. destruct (obj_get field (kp_unitPrices p)) eqn:Hnew; [done|].
    destruct (Bool.eqb _ scaled) eqn:Hs; [|done]. apply Bool.eqb_prop in Hs.
    unfold add_unit_price. rewrite Hnew. intros [= <-]. eapply TK_price; [done|]. intros s r s' He.
    destruct scaled.
    + destruct Hinv as (m & i3 & a3 & b3 & a4 & b4 & -> & Hm).
      apply eval_strict_binary in He as (s0 & vl & s1 & vr & s2 & Hel & Her & Hb); [|done].
      eapply (product_eval (l, q)) in Hel as (u & p' & Hu' & Hsame & Hv); [|done|done].
      apply eval_literal in Her. simpl in Hb. rewrite Hv, Her in Hb. injection Hb as <-.
      eexists. split; [done|]. exists u, p', def, unit. simpl. rewrite Hs. eauto 10.
    + subst t. eapply (product_eval (l, q)) in He as (u & p' & Hu' & Hsame & Hv); [|done|done].
      eexists. split; [done|]. exists u, p', def, unit. simpl. rewrite Hs. auto.
  - destruct (free_quantity_read l) as [[field quantity]|]; [|done]. cbn [mbind option_bind].
    destruct (obj_get field schema) as [def|]; [|done]. cbn [mbind option_bind].
    destruct (_ && _); [|done]. destruct (obj_get field (kp_unitPrices p)) eqn:Hnew; [done|].
    destruct (is_integer quantity); [|done]. unfold add_unit_price. rewrite Hnew. intros [= <-].
    apply TK_free. simpl. by destruct (kp_freeQuantities p).
Qed.

(** A step of the loop on a sum whose fields are declared, without free
    quantities. *)
Lemma term_kind_number t p p' s r s' :
  fields_declared schema (postorder t) -> kp_freeQuantities p' = [] -> term_kind t p p' ->
  evaluate env t s = Ok (r, s') -> exists y, rv_value r = VNumber y.
Proof.
  intros Hd Hfree [c Hc _ _|field price _ Hp|field Hn (i & a & b & rest & a' & b' & Hin) _|Hf] He; [| | |done].
  - eapply price_literal_eval in He as (y & Hy & _); eauto.
  - apply Hp in He as (y & Hy & _). eauto.
  - apply Hd in Hin as [? ?]. congruence.
Qed.

Lemma fold_terms_none l : fold_left (task_term schema) l None = None.
Proof. by induction l. Qed.

Lemma term_kind_free t p p' : term_kind t p p' -> kp_freeQuantities p' = [] -> kp_freeQuantities p = [].
Proof. intros [c _ _ -> |field price -> _|field _ _ -> |Hf] H; done. Qed.

Lemma fold_terms_kinds terms p0 p :
  fold_left (task_term schema) terms (Some p0) = Some p -> kp_freeQuantities p = [] ->
  kp_freeQuantities p0 = [] /\
  Forall (fun t => exists p1 p2, term_kind t p1 p2 /\ kp_freeQuantities p2 = []) terms.
Proof.
  revert p0. induction terms as [|t terms IH]; intros p0 Hf Hfree; cbn [fold_left] in Hf.
  { injection Hf as ->. split; [done | constructor]. }
  destruct (task_term schema (Some p0) t) as [p1|] eqn:Ht; [|by rewrite fold_terms_none in Hf].
  apply task_term_kind in Ht. destruct (IH _ Hf Hfree) as [H1 Hall].
  split; [by eapply term_kind_free|]. constructor; eauto.
Qed.

(** The constant of a tier as a list of charges. *)
Definition constant_charges (c : option number) (l : list number) : Prop :=
  match c with
  | None => l = []
  | Some c => exists c', same_price c c' /\ l = [c']
  end.

Lemma fold_terms_charges terms p0 p ys pre :
  fold_left (task_term schema) terms (Some p0) = Some p -> kp_freeQuantities p = [] ->
  Forall (fun t => fields_declared schema (postorder t)) terms ->
  Forall2 evaluates_to terms ys -> constant_charges (kp_constant p0) pre ->
  exists cs new zs, kp_unitPrices p = kp_unitPrices p0 ++ new /\ Forall2 unit_charge new zs /\
    constant_charges (kp_constant p) cs /\ pre ++ ys ≡ₚ cs ++ zs.
Proof.
  intros Hf Hfree Hd Hys. revert p0 pre Hf. induction Hys as [|t y terms ys Hy Hys IH]; intros p0 pre Hf Hpre;
    cbn [fold_left] in Hf.
  { injection Hf as ->. exists pre, [], []. rewrite !app_nil_r. auto. }
  apply List.Forall_cons_iff in Hd as [Hdt Hd]. specialize (IH Hd).
  destruct (task_term schema (Some p0) t) as [p1|] eqn:Ht; [|by rewrite fold_terms_none in Hf].
  apply task_term_kind in Ht. pose proof (fold_terms_kinds _ _ _ Hf Hfree) as [Hf1 _].
  destruct Hy as (s & r & s' & He & Hy).
  destruct Ht as [c Hc Hk ->|field price -> Hp|field Hn (i & a & b & rest & a' & b' & Hin) _|Hbad]; [| | |done].
  - eapply price_literal_eval in He as (y' & Hy' & Hsame); [|exact Hc]. rewrite Hy in Hy'. injection Hy' as <-.
    rewrite Hk in Hpre. simpl in Hpre. subst pre.
    destruct (IH _ [y] Hf) as (cs & new & zs & H1 & H2 & H3 & H4); [by exists y|].
    exists cs, new, zs. auto.
  - apply Hp in He as (y' & Hy' & Hch). rewrite Hy in Hy'. injection Hy' as <-.
    destruct (IH _ pre Hf Hpre) as (cs & new & zs & H1 & H2 & H3 & H4).
    exists cs, ((field, price) :: new), (y :: zs). simpl in H1. rewrite H1, <- (assoc_L (++)).
    split; [done|]. split; [by constructor|]. split; [done|].
    rewrite <- !Permutation_middle. by constructor.
  - apply Hdt in Hin as [? ?]. congruence.
Qed.

Definition task_charged (tier : task_tier) (x : number) : Prop :=
  exists ys consts zs, sums_to ys x /\ ys ≡ₚ consts ++ zs /\
    Forall2 unit_charge (kt_unitPrices tier) zs /\
    (consts = [] \/ exists c, same_price (kt_constant tier) c /\ consts = [c]).

(** The value of a tier is a sum of its constant and its unit charges, in some
    order and bracketing. *)
Lemma taskTier_charges n cs tier s r s' :
  fields_declared schema (postorder n) ->
  taskTier n cs schema = Some tier -> kt_freeQuantities tier = [] -> evaluate env n s = Ok (r, s') ->
  exists x, rv_value r = VNumber x /\ task_charged tier x.
Proof.
  intros Hd Ht Hfree H. destruct n as [| |f args a b| | |]; try done. destruct f; try done.
  destruct args as [|[[label| | |] i a1 b1| | | | |] [|body rest]]; try done. cbn [taskTier] in Ht.
  destruct (fold_left _ _ _) as [p|] eqn:Hf; [|done]. cbn [mbind option_bind] in Ht.
  assert (kt_unitPrices tier = kp_unitPrices p /\ kt_freeQuantities tier = kp_freeQuantities p /\
    kt_constant tier = default n_zero (kp_constant p)) as (Hu & Hq & Hk).
  { destruct (kp_unitPrices p) eqn:E; [done|]. injection Ht as <-. by rewrite <- E. }
  rewrite Hq in Hfree. apply evaluate_Ok_inv in H as (s1 & _ & H & _ & ->). cbn [evaluateNode] in H.
  apply eval_tier_leaf in H as (label' & s2 & amount & s3 & _ & Hn & _ & Hr).
  apply eval_numeric_Ok in Hn as (rb & Hb & Hv & _).
  assert (forall t, t ∈ flattenBinary body B_add -> fields_declared schema (postorder t)) as Hdt.
  { assert (fields_declared schema (postorder body)) as Hdb by (eapply fields_declared_child; [|exact Hd]; simpl; set_solver).
    clear -Hdb. intros t Ht. induction body as [| |f args a b IH| |o l q a b IHl IHq|] using node_ind';
      try (apply list_elem_of_singleton in Ht as ->; exact Hdb).
    cbn [flattenBinary] in Ht. destruct (bool_decide (o = B_add)); [|apply list_elem_of_singleton in Ht as ->; exact Hdb].
    apply elem_of_app in Ht as [Ht|Ht]; [apply IHl | apply IHq]; try done;
      (eapply fields_declared_child; [|exact Hdb]; simpl; set_solver). }
  destruct (fold_terms_kinds _ _ _ Hf Hfree) as [_ Hkinds].
  apply flatten_sum_eval in Hb as (x & ys & Hx & Hys & Hsum).
  2: { intros t ? ? ? Hin He. rewrite Forall_forall in Hkinds. destruct (Hkinds t Hin) as (p1 & p2 & Hkt & Hp2).
       eapply term_kind_number; [by apply Hdt | exact Hp2 | exact Hkt | exact He]. }
  rewrite Hx in Hv. injection Hv as Hv.
  destruct (fold_terms_charges _ _ _ ys [] Hf Hfree) as (consts & new & zs & H1 & H2 & H3 & H4);
    [by apply Forall_forall | done | done|].
  exists x. split; [congruence|]. exists ys, consts, zs. rewrite Hu, H1, Hk. simpl. split; [done|]. split; [done|].
  split; [done|]. destruct (kp_constant p); simpl in H3; [right|left]; naive_solver.
Qed.
(** Evaluating a chain selects the first displayed tier whose conditions match. *)
Lemma task_loop_eval n inc tiers0 tiers s r s' :
  fields_declared schema (postorder n) ->
  task_tier_loop n schema inc tiers0 = Some tiers -> Forall (fun t => task_applies usage t = false) tiers0 ->
  evaluate env n s = Ok (r, s') ->
  exists tier, List.find (task_applies usage) tiers = Some tier /\ rs_matchedTier s' = kt_label tier /\
      (kt_freeQuantities tier = [] -> exists x, rv_value r = VNumber x /\ task_charged tier x).
Proof.
  revert tiers0 s r s'.
  assert (Hleaf : forall n tiers0 s r s', fields_declared schema (postorder n) -> (fallback ← taskTier n [] schema; Some (tiers0 ++ [fallback])) = Some tiers ->
    Forall (fun t => task_applies usage t = false) tiers0 -> evaluate env n s = Ok (r, s') ->
    exists tier, List.find (task_applies usage) tiers = Some tier /\ rs_matchedTier s' = kt_label tier /\
      (kt_freeQuantities tier = [] -> exists x, rv_value r = VNumber x /\ task_charged tier x)).
  { intros m tiers0 s r s' Hd Ht Hn He. destruct (taskTier m [] schema) as [tier|] eqn:E; [|done].
    injection Ht as <-. pose proof (taskTier_eval _ _ _ _ _ _ E He) as [Hc Hl]. exists tier.
    rewrite find_none_app by done. simpl. unfold task_applies. rewrite Hc. split; [done|]. split; [done|].
    intros Hfree. by eapply taskTier_charges. }
  induction n as [| |f args a b IH| | |c y z a b IHc IHy IHz] using node_ind'; intros tiers0 s r s' Hd Ht Hn He;
    try (by eapply Hleaf).
  cbn [task_tier_loop] in Ht. unfold taskConditions in Ht.
  destruct (map_option _ _) as [l|] eqn:Hl; [|done].
  apply evaluate_Ok_inv in He as (s1 & _ & He & _ & ->). cbn [evaluateNode] in He.
  change (rs_matchedTier (set_depth (rs_depth s1 - 1) s1)) with (rs_matchedTier s1).
  unfold eval_conditional in He. inv_ok He. apply eval_boolean_Ok in H as (rc & Hc & Hb).
  eapply task_conditions_eval in Hc; [|eapply fields_declared_child; [|exact Hd]; simpl; set_solver|exact Hl].
  rewrite Hb in Hc. injection Hc as ->. inv_ok He. clear H.
  assert (fields_declared schema (postorder z)) as Hdz by (eapply fields_declared_child; [|exact Hd]; simpl; set_solver).
  destruct (forallb fst l); simpl in He; [|exact (IHz tiers0 _ _ _ Hdz Ht Hn He)].
  destruct (shadowed tiers0 (omap snd l)) eqn:Hsh.
  { destruct (forallb (task_holds usage) (omap snd l)) eqn:Hall; [|exact (IHz tiers0 _ _ _ Hdz Ht Hn He)].
    destruct (shadowed_applies _ _ Hsh Hall) as (t & Hin & Happ). rewrite Forall_forall in Hn.
    specialize (Hn t Hin). congruence. }
  destruct (taskTier y (omap snd l) schema) as [tier|] eqn:Hy; [|done]. simpl in Ht.
  pose proof (taskTier_conditions _ _ _ Hy) as Hct.
  assert (exists ts, tiers = tiers0 ++ tier :: ts) as [ts Hts].
  { destruct (omap snd l) as [|? ?]; [injection Ht as <-; by exists []|].
    apply task_loop_prefix in Ht as [ts ->]. exists ts. by rewrite <- (assoc_L (++)). }
  destruct (forallb (task_holds usage) (omap snd l)) eqn:Hall.
  - pose proof (taskTier_eval _ _ _ _ _ _ Hy He) as [_ Hlabel]. exists tier. rewrite Hts, find_none_app by done.
    simpl. unfold task_applies at 1. rewrite Hct, Hall. split; [done|]. split; [done|]. intros Hfree.
    eapply taskTier_charges; [|exact Hy|exact Hfree|exact He].
    eapply fields_declared_child; [|exact Hd]; simpl; set_solver.
  - destruct (omap snd l) as [|? ?] eqn:Ho; [done|]. eapply IHz; [done | exact Ht | | exact He].
    apply Forall_app. split; [done|]. constructor; [|constructor]. unfold task_applies. by rewrite Hct.
Qed.

End task_chain.

(** A simulation reports the first tier of the chain that applies to the facts. *)
Lemma chain_matches `{Host} (c : compiled_expression) (ctx : simulation_context) (clock : date)
    (schema : usage_schema) (usage : usage_facts) (includeBoolean : bool)
    (tiers : list task_tier) (r : evaluation_success) :
  ctx_usage ctx = Some usage -> conforms schema usage ->
  fields_declared schema (postorder (c_ast c)) ->
  readTaskTierChain (c_ast c) schema includeBoolean = Some tiers ->
  run_compiled c ctx clock = Ok r ->
  exists tier, List.find (task_applies usage) tiers = Some tier /\ e_matchedTier r = kt_label tier /\
    (kt_freeQuantities tier = [] -> task_charged schema usage tier (e_cost r)).
Proof.
  intros Hu Hconf Hdecl Hd Hr.
apply run_compiled_Ok in Hr as (env & s0 & v & s & x & _ & Hn & He & Hx & _ & _ & ->).
  apply new_runtime_Ok in Hn as (_ & <- & _ & _ & _). simpl.
  pose proof (task_loop_eval env schema usage Hu Hconf (c_ast c) includeBoolean [] tiers _ _ _ Hdecl Hd
    (List.Forall_nil _) He) as (tier & Hf & Hl & Hch).
  exists tier. split; [done|]. split; [done|]. intros Hfree.
  destruct (Hch Hfree) as (x' & Hx' & Hc). rewrite Hx in Hx'. by injection Hx' as <-.
Qed.
