(* ===== verification/DisplayProps.v ===== *)
(** The correctness properties of the structured price displays: what is shown is
    what the interpreter charges. *)

From S2P Require Import Prelude JsString JsNumber JsValue BillingTypes BillingParser BillingParserFacts BillingCompile BillingTyping BillingCompileFacts BillingRuntime BillingRuntimeFacts BillingRuntimeTrace BillingDisplay BillingDisplayFacts TaskDisplayFacts RuntimeProps.

(** * Token tiers *)

Lemma readTokenTierChain_plain n source tiers :
  readTokenTierChain n source = Some tiers ->
  Forall (fun t => tt_conditionText t = None /\ tt_imageCount t = false) tiers ->
  tier_loop source n [] = Some tiers.
Proof.
  intros H Hplain. destruct n as [| | | |o l r a b|c y z a b]; try exact H; cbn [readTokenTierChain audio_tiers] in H.
  - assert (forall x, map with_image_count <$> readTokenTierChain x source = Some tiers -> False) as Himg.
    { intros x Hx. destruct (readTokenTierChain x source) as [ts|] eqn:E; [|done]. injection Hx as <-.
      apply readTokenTierChain_nonempty in E. destruct ts as [|t ts]; [done|].
      apply List.Forall_cons_iff in Hplain as [[_ ?] _]. done. }
    destruct o; try exact H. destruct (is_image_count l); [by apply Himg in H|].
    destruct (is_image_count r); [by apply Himg in H | exact H].
  - destruct (match c with NBinary B_or _ _ _ _ => _ | _ => _ end) as [ts|] eqn:E; [|exact H].
    injection H as <-. exfalso. repeat (case_match; try done). injection E as <-.
    apply List.Forall_cons_iff in Hplain as [[? _] _]. done.
Qed.


Definition chain_source : str :=
  js "p <= 5 && c < 10 ? tier('small', p * 1 + c * 2) : tier('large', fixed(0.5))".
Definition chain : compiled_expression :=
  match compile_source chain_source with
  | Ready c => c
  | NotReady _ => Compiled [] (NLiteral LNull false 0 0) [] [] []
  end.
Lemma chain_ok : CompiledOk chain.
Proof. refine (proj2 (compile_source_Ready chain_source chain _)). vm_compute. reflexivity. Qed.
Definition chain_tiers : list token_tier := default [] (readTokenTierChain (c_ast chain) (c_source chain)).
Definition chain_context (p c : Z) : simulation_context :=
  Context_ None (Some [(js "p", VNumber (n_of_Z p)); (js "c", VNumber (n_of_Z c))]) None None None.


(** A request condition in front of a metered tier is lost in the display:
    the first tier of [param('q') == 'hd' ? tier('hd', p * 2) : tier('sd', p * 1)]
    is shown without any condition, although a request with another value is
    charged by the second tier. *)
Theorem request_condition_dropped :
  exists c hd sd r, compile_source (js "param('q') == 'hd' ? tier('hd', p * 2) : tier('sd', p * 1)") = Ready c /\
    readTokenTierChain (c_ast c) (c_source c) = Some [hd; sd] /\
    tt_label hd = js "hd" /\ tt_conditions hd = [] /\ tt_conditionText hd = None /\
    run_compiled (host := sample_host) c
      (Context_ None (Some [(js "p", VNumber (n_of_Z 7))])
         (Some (Request (VObject [(js "q", VString (js "sd"))]) None)) None (Some (Some 0%Z))) None = Ok r /\
    e_matchedTier r = js "sd".
Proof. do 4 eexists. split; [vm_compute; reflexivity|]. vm_compute. repeat split; reflexivity. Qed.

(** * Time branches *)

Lemma isTimeCondition_total n : (height n <= max_visit_depth)%Z -> exists b, isTimeCondition n = Ok b.
Proof.
  intros Hh. unfold isTimeCondition. apply expressionDependencies_total in Hh as [[vs fs] ->]. simpl. eauto.
Qed.

Lemma timeTierBranches_total c n path :
  (height n <= max_visit_depth)%Z -> exists o, timeTierBranches c n path = Ok o.
Proof.
  assert (Hleaf : forall m path, exists o,
    match readTokenTierChain m [], path with
    | Some ts, _ :: _ => Ok (E := exn) (Some (map (time_tier (c_source c) path) ts))
    | _, _ => Ok None
    end = Ok o).
  { intros m p. destruct (readTokenTierChain m []), p; eauto. }
  revert path. induction n as [| |f args a b IH| | |d y z a b IHd IHy IHz] using node_ind'; intros path Hh;
    cbn [timeTierBranches]; try apply Hleaf.
  pose proof (height_child (NConditional d y z a b)) as Hc.
  destruct (isTimeCondition_total d) as [[] ->]; [specialize (Hc d); simpl in *; lia| |apply Hleaf].
  cbn [mbind result_bind].
  destruct (IHy (path ++ [TimeCondition d true])) as [o1 ->]; [simpl in Hh; lia|].
  destruct (IHz (path ++ [TimeCondition d false])) as [o2 ->]; [simpl in Hh; lia|]. eexists. reflexivity.
Qed.

(** The time display never throws on a source that compiles, its current
    tiers are among all its tiers, and when the clock decides every time condition
    on the way they are exactly the tiers of the one branch the clock selects. *)
Theorem current_time_tiers `{Host} (source : str) (c : compiled_expression) (now : date)
    (Hc : compile_source source = Ready c) :
  match readTimeTokenPricing source (Some now) with
  | Ok (Some (tiers, current)) =>
      (forall t, t ∈ current -> t ∈ tiers) /\
      forall leaf path, selected_branch c now (c_ast c) [] = Some (leaf, path) ->
        current = map (time_tier source path) (default [] (readTokenTierChain leaf []))
  | Ok None => True
  | Throw _ => False
  end.
Proof.
  unfold readTimeTokenPricing. rewrite Hc. apply compile_source_Ready in Hc as [<- Hok].
  destruct (timeTierBranches_total c (c_ast c) [] compiled_height) as [[tiers|] Ht]; rewrite Ht;
    cbn [mbind result_bind]; [|done]. split.
  - intros t Hin. apply list_elem_of_In, List.filter_In in Hin as [Hin _]. by apply list_elem_of_In.
  - intros leaf path Hs. by eapply current_tiers.
Qed.

Definition time_source : str :=
  js "hour('UTC') >= 8 && hour('UTC') < 20 ? tier('day', p * 3) : tier('night', p * 1)".
Definition timed : compiled_expression :=
  match compile_source time_source with
  | Ready c => c
  | NotReady _ => Compiled [] (NLiteral LNull false 0 0) [] [] []
  end.

Definition epoch : date := Some 0%Z.

Lemma current_time_tiers_witness :
  exists tiers current, readTimeTokenPricing (host := sample_host) time_source (Some epoch) = Ok (Some (tiers, current)) /\
    map (fun t => tt_label (tk_tier t)) current = [js "night"] /\ forall t, t ∈ current -> t ∈ tiers.
Proof.
  assert (E : compile_source time_source = Ready timed) by (vm_compute; reflexivity).
  pose proof (current_time_tiers (H := sample_host) time_source timed epoch E) as H.
  assert (R : exists tiers current,
    readTimeTokenPricing (host := sample_host) time_source (Some epoch) = Ok (Some (tiers, current)) /\
    map (fun t => tt_label (tk_tier t)) current = [js "night"]) by (do 2 eexists; split; vm_compute; reflexivity).
  destruct R as (tiers & current & R & Hn). rewrite R in H. exists tiers, current.
  split; [exact R|]. split; [exact Hn | exact (proj1 H)].
Defined.

(** * Task tiers *)


Definition task_source : str :=
  js "u('res') == 'hd' ? tier('hd', u('secs') * 2 + 1) : tier('sd', u('secs') * 1 + u('tok') * 3 / 1000000)".
Definition task_compiled : compiled_expression :=
  match compile_source task_source with
  | Ready c => c
  | NotReady _ => Compiled [] (NLiteral LNull false 0 0) [] [] []
  end.
Definition task_schema : usage_schema :=
  [(js "res", UsageField None None (Some [js "hd"; js "sd"]) None);
   (js "secs", UsageField (Some Usage_number) (Some Unit_second) None None);
   (js "tok", UsageField (Some Usage_number) (Some Unit_tokens) None None)].
Definition task_usage : usage_facts :=
  [(js "res", VString (js "sd")); (js "secs", VNumber (n_of_Z 4)); (js "tok", VNumber (n_of_Z 500))].
Definition task_context : simulation_context := Context_ None None None (Some task_usage) (Some (Some 0%Z)).
Definition task_tiers : list task_tier := default [] (readTaskTierChain (c_ast task_compiled) task_schema false).

Lemma task_usage_conforms : conforms task_schema task_usage.
Proof.
  intros field def H. unfold task_schema in H. cbn [obj_get] in H.
  destruct (bool_decide (field = js "res")) eqn:E1; breflect.
  { injection H as <-. subst field. split; [done|]. intros _ values [= <-]. exists (js "sd").
    split; [reflexivity|]. right. left. }
  destruct (bool_decide (field = js "secs")) eqn:E2; [injection H as <-; split; done|].
  destruct (bool_decide (field = js "tok")) eqn:E3; [injection H as <-; split; done | done].
Qed.

Definition declared_in (schema : usage_schema) (n : node) : bool :=
  match n with
  | NCall F_u (NLiteral (LString field) _ _ _ :: _) _ _ =>
      match obj_get field schema with Some _ => true | None => false end
  | _ => true
  end.
Lemma fields_declared_check schema l : forallb (declared_in schema) l = true -> fields_declared schema l.
Proof.
  rewrite forallb_forall. intros H field i a b rest a' b' Hin. apply list_elem_of_In, H in Hin. simpl in Hin.
  destruct (obj_get field schema); [eauto | done].
Qed.


(** A free-quantity term that is divided by a million is displayed with its
    undivided price: [tier('a', max(u('n') - 5, 0) * 3 / 1000000)] is shown as 3 per
    count, while 1000005 counts cost 3 in all. *)
Theorem scaled_free_quantity_display :
  exists c tier r, compile_source (js "tier('a', max(u('n') - 5, 0) * 3 / 1000000)") = Ready c /\
    readTaskTierChain (c_ast c) [(js "n", UsageField (Some Usage_number) (Some Unit_count) None None)] false = Some [tier] /\
    kt_unitPrices tier = [(js "n", n_of_Z 3)] /\ kt_freeQuantities tier = [(js "n", n_of_Z 5)] /\
    run_compiled (host := sample_host) c
      (Context_ None None None (Some [(js "n", VNumber (n_of_Z 1000005))]) (Some (Some 0%Z))) None = Ok r /\
    e_cost r = n_of_Z 3.
Proof. do 3 eexists. split; [vm_compute; reflexivity|]. vm_compute. repeat split; reflexivity. Qed.
