(* ===== verification/ConditionalTaskDisplay.v ===== *)
(** The display-only adapter for task prices below time conditions
    (features/pricing/lib/billing-expression/task-display.ts).

    The source returns null from every function as soon as one part is not
    recognised, and never looks at [context.remaining] after that; null is
    [Throw tt] in the monad that threads the counter. *)

From S2P Require Import Prelude JsString JsNumber JsValue BillingTypes BillingCompile BillingRuntime BillingDisplay BillingCompileFacts BillingDisplayFacts.

(** * Data *)

(** A value of [context.facts]. *)
Inductive fact : Type := FactString (s : str) | FactBool (b : bool).
#[export] Instance fact_eq_dec : EqDecision fact.
Proof. solve_decision. Defined.

Record price_branch := PriceBranch {
  pb_label : option str;
  pb_constant : number;
  pb_prices : list (str * number);
  pb_times : list (str * bool);
}.

Definition MAX_DISPLAY_ROWS : nat := 128.

(** [context.remaining], threaded. *)
Definition DM : Type -> Type := stM Z unit.
Definition null {A} : DM A := throw tt.
(** [if (--context.remaining < 0) return null] *)
Definition spend : DM unit := fun remaining =>
  if (remaining - 1 <? 0)%Z then Throw tt else Ok (tt, remaining - 1)%Z.

(** [boolean | string] *)
Inductive decided : Type := Known (b : bool) | Predicate (text : str).
#[export] Instance decided_eq_dec : EqDecision decided.
Proof. solve_decision. Defined.

Section task_display.
Context (source : str) (schema : usage_schema) (facts : list (str * fact)).

(** * Conditions *)

(** [u("key")] compared with a literal. *)
Definition fact_probe (probe literal : node) : option (str * lit_value) :=
  match usage_read probe, literal with
  | Some key, NLiteral value _ _ _ => Some (key, value)
  | _, _ => None
  end.

(** The comparison of a declared fact; [None] is null.  The keys of [facts] are
    declared in the schema. *)
Definition fact_comparison (operator : binary_operator) (key : str) (value : lit_value) : option bool :=
  match obj_get key facts, obj_get key schema with
  | Some fact, Some definition =>
      let equal b := if bool_decide (operator = B_eq) then b else negb b in
      if bool_decide (uf_type definition = Some Usage_boolean) then
        match value with
        | LBoolean b => Some (equal (bool_decide (fact = FactBool b)))
        | _ => None
        end
      else
        match value with
        | LString s =>
            if match uf_enum definition with Some values => bool_decide (s ∈ values) | None => false end
            then Some (equal (bool_decide (fact = FactString s)))
            else Some (bool_decide (operator = B_ne))
        | _ => None
        end
  | _, _ => None
  end.

(** An operand of a time comparison. *)
Definition time_operand (part : node) : bool :=
  match part with
  | NLiteral (LNumber _) _ _ _ => true
  | NCall (F_time _) (NLiteral (LString zone) _ _ _ :: _) _ _ => negb (bool_decide (trim zone = js "Local"))
  | _ => false
  end.
Definition is_call (part : node) : bool := match part with NCall _ _ _ _ => true | _ => false end.

Definition combine_decided (o : binary_operator) (l r : decided) : decided :=
  let shortCircuit := bool_decide (o = B_or) in
  if bool_decide (l = Known shortCircuit) || bool_decide (r = Known shortCircuit) then Known shortCircuit
  else
    match l, r with
    | Known _, _ => r
    | _, Known _ => l
    | Predicate a, Predicate b =>
        Predicate (js "(" ++ a ++ js ") " ++ BillingParser.operator_text o ++ js " (" ++ b ++ js ")")
    end.

Definition negate_decided (d : decided) : decided :=
  match d with Known b => Known (negb b) | Predicate t => Predicate (js "!(" ++ t ++ js ")") end.

Definition time_predicate (n l r : node) : DM decided :=
  if (is_call l || is_call r) && time_operand l && time_operand r
  then mret (Predicate (slice source (node_start n) (node_stop n))) else null.

Fixpoint taskDisplayCondition (n : node) : DM decided :=
  _ ← spend;
  match n with
  | NLiteral (LBoolean b) _ _ _ => mret (Known b)
  | NUnary U_not operand _ _ => d ← taskDisplayCondition operand; mret (negate_decided d)
  | NBinary o l r _ _ =>
      if is_logical o then
        a ← taskDisplayCondition l; b ← taskDisplayCondition r; mret (combine_decided o a b)
      else if is_comparison o then
        let probe :=
          if bool_decide (o = B_eq) || bool_decide (o = B_ne) then
            match fact_probe l r with Some p => Some p | None => fact_probe r l end
          else None in
        match probe with
        | Some (key, value) =>
            match fact_comparison o key value with Some b => mret (Known b) | None => null end
        | None => time_predicate n l r
        end
      else null
  | _ => null
  end.

(** * Linear prices *)

(** [new Map([...a, ...b])] when the maps do not disagree. *)
Definition merge_times (a b : list (str * bool)) : list (str * bool) :=
  a ++ List.filter (fun e => negb (has_own a e.1)) b.
(** A key of [a] has another value in [b]. *)
Definition times_conflict (a b : list (str * bool)) : bool :=
  existsb (fun e => match obj_get e.1 b with Some v => negb (Bool.eqb v e.2) | None => false end) a.

Definition price_of (field : str) (prices : list (str * number)) : number :=
  default n_zero (obj_get field prices).
Definition sum_prices (a b : list (str * number)) : list (str * number) :=
  map (fun field => (field, n_add (price_of field a) (price_of field b)))
    (map fst a ++ List.filter (fun field => negb (has_own a field)) (map fst b)).

Definition acceptable (x : number) : bool := is_finite x && n_leb n_zero x.

(** The product, quotient or sum of two branches; [None] is null. *)
Definition combine_branches (o : binary_operator) (a b : price_branch) : option price_branch :=
  let aQuantity := bool_decide (pb_prices a <> []) in
  let bQuantity := bool_decide (pb_prices b <> []) in
  let label := match pb_label a with Some l => Some l | None => pb_label b end in
  let checked constant prices :=
    if acceptable constant && forallb (fun e => acceptable e.2) prices
    then Some (PriceBranch label constant prices (merge_times (pb_times a) (pb_times b))) else None in
  if bool_decide (o = B_add) then
    checked (n_add (pb_constant a) (pb_constant b)) (sum_prices (pb_prices a) (pb_prices b))
  else if (aQuantity && bQuantity) ||
          (bool_decide (o = B_div) && (bQuantity || n_leb (pb_constant b) n_zero)) then None
  else
    let quantity := if aQuantity then a else b in
    let factor := if aQuantity then pb_constant b else pb_constant a in
    let factor := if bool_decide (o = B_div) then n_div n_one (pb_constant b) else factor in
    let constant :=
      if bool_decide (o = B_div) then n_div (pb_constant a) (pb_constant b)
      else n_mul (pb_constant a) (pb_constant b) in
    checked constant (map (fun e => (e.1, n_mul e.2 factor)) (pb_prices quantity)).

(** The double loop over the branches of both operands. *)
Definition pair_step (o : binary_operator) (acc : option (list price_branch)) (p : price_branch * price_branch)
    : option (list price_branch) :=
  branches ← acc;
  let '(a, b) := p in
  match pb_label a, pb_label b with
  | Some _, Some _ => None
  | _, _ =>
      if times_conflict (pb_times a) (pb_times b) then Some branches
      else branch ← combine_branches o a b; Some (branches ++ [branch])
  end.
Definition combine_all (o : binary_operator) (l r : list price_branch) : option (list price_branch) :=
  fold_left (pair_step o) (list_prod l r) (Some []).

(** The rows of one side of a conditional, marked with its predicate. *)
Definition side_branches (condition : str) (matches : bool) (children : list price_branch) : list price_branch :=
  map (fun child => PriceBranch (pb_label child) (pb_constant child) (pb_prices child)
                      (merge_times [(condition, matches)] (pb_times child)))
    (List.filter (fun child => negb (times_conflict [(condition, matches)] (pb_times child))) children).

Fixpoint taskPriceBranches (n : node) : DM (list price_branch) :=
  _ ← spend;
  match n with
  | NLiteral (LNumber v) _ _ _ =>
      if n_leb n_zero v then mret [PriceBranch None v [] []] else null
  | NCall F_u (NLiteral (LString field) _ _ _ :: _) _ _ =>
      match obj_get field schema with
      | Some definition =>
          if bool_decide (uf_type definition = Some Usage_number) && bool_decide (uf_unit definition <> None)
          then mret [PriceBranch None n_zero [(field, n_one)] []] else null
      | None => null
      end
  | NCall F_tier (NLiteral (LString label) _ _ _ :: body :: _) _ _ =>
      branches ← taskPriceBranches body;
      if existsb (fun b => bool_decide (pb_label b <> None)) branches then null
      else mret (map (fun b => PriceBranch (Some label) (pb_constant b) (pb_prices b) (pb_times b)) branches)
  | NConditional c yes no _ _ =>
      condition ← taskDisplayCondition c;
      match condition with
      | Known b => if b then taskPriceBranches yes else taskPriceBranches no
      | Predicate text =>
          matching ← taskPriceBranches yes;
          other ← taskPriceBranches no;
          let branches := side_branches text true matching ++ side_branches text false other in
          if bool_decide (length branches <= MAX_DISPLAY_ROWS) then mret branches else null
      end
  | NBinary o l r _ _ =>
      match o with
      | B_add | B_mul | B_div =>
          left ← taskPriceBranches l;
          right ← taskPriceBranches r;
          if bool_decide (MAX_DISPLAY_ROWS < length left * length right) then null
          else match combine_all o left right with Some branches => mret branches | None => null end
      | _ => null
      end
  | _ => null
  end.
End task_display.

(** * readConditionalTaskPricing *)

(** The fields read with [u], in visiting order; [None] when one is not a
    declared literal. *)
Definition field_visitor (schema : usage_schema) (acc : option (list str)) (n : node)
    : result exn (option (list str)) :=
  Ok (match n with
      | NCall F_u args _ _ =>
          match args with
          | NLiteral (LString key) _ _ _ :: _ =>
              if has_own schema key then set_add key <$> acc else None
          | _ => None
          end
      | _ => acc
      end).

Definition field_values (definition : usage_field) : option (list fact) :=
  if bool_decide (uf_type definition = Some Usage_boolean) then Some [FactBool false; FactBool true]
  else map FactString <$> uf_enum definition.

(** All assignments of the categorical fields; [None] beyond the row limit. *)
Definition expand_field (schema : usage_schema) (acc : option (list (list (str * fact)))) (field : str)
    : option (list (list (str * fact))) :=
  combinations ← acc;
  match obj_get field schema with
  | None => None
  | Some definition =>
      if bool_decide (uf_type definition = Some Usage_number) then Some combinations
      else
        match field_values definition with
        | None | Some [] => None
        | Some values =>
            if bool_decide (MAX_DISPLAY_ROWS < length combinations * length values) then None
            else Some (flat_map (fun facts => map (fun value => facts ++ [(field, value)]) values) combinations)
        end
  end.

Definition unit_field (schema : usage_schema) (field : str) : bool :=
  match obj_get field schema with
  | Some d => bool_decide (uf_type d = Some Usage_number) && bool_decide (uf_unit d <> None)
  | None => false
  end.

Definition time_text (times : list (str * bool)) : option str :=
  match join (js " && ") (map (fun e : str * bool => if e.2 then js "(" ++ e.1 ++ js ")" else js "!(" ++ e.1 ++ js ")") times) with
  | [] => None
  | text => Some text
  end.

Definition fact_string (f : fact) : str :=
  match f with FactString s => s | FactBool b => if b then js "true" else js "false" end.

Definition branch_tier (schema : usage_schema) (fields : list str) (facts : list (str * fact))
    (branch : price_branch) : option task_tier :=
  label ← pb_label branch;
  let unitPrices := map (fun f => (f, price_of f (pb_prices branch))) (List.filter (unit_field schema) fields) in
  if bool_decide (unitPrices = []) || negb (forallb (fun e => is_finite e.2) unitPrices) then None
  else Some (TaskTier (time_text (pb_times branch)) label
               (map (fun e => TaskCondition e.1 (fact_string e.2)) facts)
               (pb_constant branch) unitPrices []).

Fixpoint display_rows (source : str) (schema : usage_schema) (ast : node) (fields : list str)
    (combinations : list (list (str * fact))) (tiers : list task_tier) : DM (list task_tier) :=
  match combinations with
  | [] => mret tiers
  | facts :: rest =>
      branches ← taskPriceBranches source schema facts ast;
      if bool_decide (MAX_DISPLAY_ROWS < length tiers + length branches) then null
      else
        match map_option (branch_tier schema fields facts) branches with
        | None => null
        | Some rows => display_rows source schema ast fields rest (tiers ++ rows)
        end
  end.

Definition display_budget : Z := 20000.

Definition readConditionalTaskPricing (source : str) (schema : usage_schema) : option (list task_tier) :=
  match compile_source source with
  | NotReady _ => None
  | Ready compiled =>
      match visitExpression (c_ast compiled) (field_visitor schema) (Some []) with
      | Ok (Some fields) =>
          combinations ← fold_left (expand_field schema) fields (Some [[]]);
          match display_rows source schema (c_ast compiled) fields combinations [] display_budget with
          | Ok (tiers, _) => Some tiers
          | Throw _ => None
          end
      | _ => None
      end
  end.

(** * Facts *)

(** * Rows and truth assignments *)

(** A truth assignment of the time predicates agrees with a row. *)
Definition agrees (rho : str -> bool) (times : list (str * bool)) : bool :=
  forallb (fun e => Bool.eqb (rho e.1) e.2) times.
Definition row_agrees (rho : str -> bool) (b : price_branch) : bool := agrees rho (pb_times b).

Lemma obj_get_elem {V} (k : str) (v : V) l : NoDup (map fst l) -> (k, v) ∈ l -> obj_get k l = Some v.
Proof.
  induction l as [|[k' v'] l IH]; simpl; intros Hn Hin; [by apply not_elem_of_nil in Hin|].
  apply NoDup_cons in Hn as [Hnot Hn]. apply elem_of_cons in Hin as [[= <- <-]|Hin].
  - by rewrite bool_decide_true.
  - rewrite bool_decide_false; [auto|]. intros ->. apply Hnot. apply list_elem_of_fmap. by exists (k', v).
Qed.

Lemma agrees_spec rho times :
  agrees rho times = true <-> forall e, e ∈ times -> rho e.1 = e.2.
Proof.
  unfold agrees. rewrite forallb_forall. setoid_rewrite list_elem_of_In. split; intros H e He.
  - apply Bool.eqb_prop. auto.
  - rewrite H by done. apply Bool.eqb_reflx.
Qed.

Lemma merge_times_agrees rho a b :
  NoDup (map fst b) -> times_conflict a b = false ->
  agrees rho (merge_times a b) = agrees rho a && agrees rho b.
Proof.
  intros Hn Hc. apply Bool.eq_iff_eq_true. rewrite andb_true_iff, !agrees_spec. unfold merge_times.
  split.
  - intros H. split; [intros e He; apply H; set_solver|]. intros e He.
    destruct (has_own a e.1) eqn:Ho; [|apply H, elem_of_app; right; apply list_elem_of_In, List.filter_In;
      split; [by apply list_elem_of_In | by rewrite Ho]].
    unfold has_own in Ho. destruct (obj_get e.1 a) as [v|] eqn:Hg; [|done]. apply obj_get_Some in Hg.
    assert (rho e.1 = v) as -> by (apply (H (e.1, v)); set_solver).
    destruct (Bool.eqb v e.2) eqn:E; [by apply Bool.eqb_prop|]. exfalso.
    assert (times_conflict a b = true); [|congruence]. unfold times_conflict. apply existsb_exists.
    exists (e.1, v). split; [by apply list_elem_of_In|]. simpl.
    rewrite (obj_get_elem e.1 e.2 b); [|done|by destruct e]. by destruct v, e.2.
  - intros [H1 H2] e He. apply elem_of_app in He as [He|He]; [auto|].
    apply list_elem_of_In, List.filter_In in He as [He _]. apply H2. by apply list_elem_of_In.
Qed.

Lemma conflict_disagree rho a b :
  times_conflict a b = true -> agrees rho a && agrees rho b = false.
Proof.
  intros H. apply existsb_exists in H as (e & He & Hv). apply list_elem_of_In in He.
  destruct (obj_get e.1 b) as [v|] eqn:Hg; [|done]. apply obj_get_Some in Hg.
  destruct (agrees rho a && agrees rho b) eqn:E; [|done]. apply andb_true_iff in E as [E1 E2].
  rewrite agrees_spec in E1, E2. specialize (E1 e He). specialize (E2 (e.1, v) Hg). simpl in E2.
  rewrite <- E1, E2 in Hv. by destruct v.
Qed.

Lemma merge_times_NoDup a b :
  NoDup (map fst a) -> NoDup (map fst b) -> NoDup (map fst (merge_times a b)).
Proof.
  intros Ha Hb. unfold merge_times. rewrite map_app. apply NoDup_app. split; [done|]. split.
  - intros k Hk Hk'. apply list_elem_of_fmap in Hk' as (e & -> & He).
    apply list_elem_of_In, List.filter_In in He as [_ He]. unfold has_own in He.
    destruct (obj_get e.1 a) eqn:Hg; [done|]. by apply obj_get_None in Hg.
  - clear Ha. induction b as [|e b IH]; simpl; [constructor|]. simpl in Hb. apply NoDup_cons in Hb as [Hnot Hb].
    destruct (negb (has_own a e.1)); [|auto]. simpl. apply NoDup_cons. split; [|auto].
    intros Hin. apply Hnot. apply list_elem_of_fmap in Hin as (e' & -> & He').
    apply list_elem_of_In, List.filter_In in He' as [He' _]. apply list_elem_of_fmap. exists e'.
    split; [done|]. by apply list_elem_of_In.
Qed.

(** * Counting *)

Definition count {A} (p : A -> bool) (l : list A) : nat := length (List.filter p l).

Lemma count_app {A} (p : A -> bool) l1 l2 : count p (l1 ++ l2) = count p l1 + count p l2.
Proof. unfold count. by rewrite List.filter_app, length_app. Qed.

Lemma count_cons {A} (p : A -> bool) x l : count p (x :: l) = (if p x then 1 else 0) + count p l.
Proof. unfold count. simpl. by destruct (p x). Qed.

Lemma count_map {A B} (p : B -> bool) (f : A -> B) l : count p (map f l) = count (fun x => p (f x)) l.
Proof. induction l as [|x l IH]; [done|]. simpl. by rewrite !count_cons, IH. Qed.

Lemma count_ext {A} (p q : A -> bool) l : (forall x, x ∈ l -> p x = q x) -> count p l = count q l.
Proof.
  induction l as [|x l IH]; intros H; [done|]. rewrite !count_cons, H by constructor. f_equal.
  apply IH. intros y Hy. apply H. by constructor.
Qed.

Lemma count_false {A} (p : A -> bool) l : (forall x, x ∈ l -> p x = false) -> count p l = 0.
Proof.
  induction l as [|x l IH]; intros H; [done|]. rewrite count_cons, H by constructor.
  apply IH. intros y Hy. apply H. by constructor.
Qed.

(** Rows that [p] rejects may be filtered out before counting. *)
Lemma count_filter {A} (p q : A -> bool) l :
  (forall x, x ∈ l -> q x = false -> p x = false) -> count p (List.filter q l) = count p l.
Proof.
  induction l as [|x l IH]; intros H; [done|]. simpl. rewrite count_cons.
  destruct (q x) eqn:Hq; [rewrite count_cons|rewrite (H x) by (done || constructor)];
    rewrite IH; auto; intros y Hy; apply H; by constructor.
Qed.

Lemma count_prod {A B} (p : A -> bool) (q : B -> bool) l r :
  count (fun x => p x.1 && q x.2) (list_prod l r) = count p l * count q r.
Proof.
  induction l as [|a l IH]; [done|]. simpl. rewrite count_app, IH, count_cons, count_map. simpl.
  destruct (p a); simpl; [done|]. by rewrite count_false.
Qed.

(** * Branches are exclusive, exhaustive and well priced *)

Definition branch_ok (b : price_branch) : Prop :=
  NoDup (map fst (pb_times b)) /\ n_leb n_zero (pb_constant b) = true /\
  Forall (fun e => acceptable e.2 = true) (pb_prices b).

(** Exactly one row agrees with every truth assignment, and every row is well
    formed. *)
Definition rows_ok (bs : list price_branch) : Prop :=
  Forall branch_ok bs /\ forall rho, count (row_agrees rho) bs = 1.

Lemma combine_branches_inv o a b c :
  combine_branches o a b = Some c ->
  pb_times c = merge_times (pb_times a) (pb_times b) /\ acceptable (pb_constant c) = true /\
  forallb (fun e => acceptable e.2) (pb_prices c) = true.
Proof.
  unfold combine_branches. intros H.
  repeat match type of H with
  | (if ?x then _ else _) = Some _ => let E := fresh "E" in destruct x eqn:E; try discriminate
  end; injection H as <-; simpl;
    match goal with E : acceptable _ && forallb _ _ = true |- _ => apply andb_true_iff in E as [? ?] end; auto.
Qed.

Lemma acceptable_nonneg x : acceptable x = true -> n_leb n_zero x = true.
Proof. unfold acceptable. intros H. by apply andb_true_iff in H as [_ H]. Qed.

Lemma pair_steps o pairs acc bs :
  fold_left (pair_step o) pairs (Some acc) = Some bs ->
  Forall (fun p => branch_ok p.1 /\ branch_ok p.2) pairs -> Forall branch_ok acc ->
  Forall branch_ok bs /\
  forall rho, count (row_agrees rho) bs =
    count (row_agrees rho) acc + count (fun p => row_agrees rho p.1 && row_agrees rho p.2) pairs.
Proof.
  assert (Hnone : forall l, fold_left (pair_step o) l None = None) by (intros l; by induction l).
  revert acc. induction pairs as [|[a b] pairs IH]; intros acc H Hp Hacc; cbn [fold_left] in H.
  { injection H as <-. split; [done|]. intros rho. unfold count at 3. simpl. lia. }
  apply List.Forall_cons_iff in Hp as [[[Ha1 Ha2] [Hb1 Hb2]] Hp]. simpl in *.
  assert (Hskip : fold_left (pair_step o) pairs
      (if times_conflict (pb_times a) (pb_times b) then Some acc
       else branch ← combine_branches o a b; Some (acc ++ [branch])) = Some bs ->
    Forall branch_ok bs /\ forall rho, count (row_agrees rho) bs =
      count (row_agrees rho) acc + count (fun p => row_agrees rho p.1 && row_agrees rho p.2) ((a, b) :: pairs)).
  { destruct (times_conflict (pb_times a) (pb_times b)) eqn:Hc.
    - intros H1. apply IH in H1 as [H1 H2]; [|done|done]. split; [done|]. intros rho.
      rewrite H2, (count_cons _ (a, b)). simpl.
      assert (row_agrees rho a && row_agrees rho b = false) as -> by (by apply conflict_disagree). done.
    - destruct (combine_branches o a b) as [c|] eqn:E; [|by rewrite Hnone]. simpl. intros H1.
      pose proof (combine_branches_inv _ _ _ _ E) as (Ht & Hk & Hpr).
      assert (branch_ok c) as Hok.
      { split; [rewrite Ht; by apply merge_times_NoDup|]. split; [by apply acceptable_nonneg|].
        rewrite forallb_forall in Hpr. apply Forall_forall. intros e He. apply Hpr. by apply list_elem_of_In. }
      apply IH in H1 as [H1 H2]; [|done|apply Forall_app; by split; [|constructor; [|constructor]]].
      split; [done|]. intros rho.
      assert (row_agrees rho c = row_agrees rho a && row_agrees rho b) as Hc'
        by (unfold row_agrees; rewrite Ht; by apply merge_times_agrees).
      rewrite H2, count_app, !count_cons. simpl. rewrite Hc'. change (count (row_agrees rho) []) with 0. lia. }
  destruct (pb_label a), (pb_label b); try (by rewrite Hnone in H); by apply Hskip.
Qed.

Lemma combine_all_ok o l r bs :
  combine_all o l r = Some bs -> rows_ok l -> rows_ok r -> rows_ok bs.
Proof.
  intros H [Hl1 Hl2] [Hr1 Hr2]. unfold combine_all in H. apply pair_steps in H as [H1 H2]; [| |constructor].
  - split; [done|]. intros rho. rewrite H2, count_prod, Hl2, Hr2. done.
  - apply Forall_forall. intros [a b] Hin. apply list_elem_of_In, in_prod_iff in Hin as [Ha Hb].
    rewrite Forall_forall in Hl1, Hr1. split; [apply Hl1 | apply Hr1]; by apply list_elem_of_In.
Qed.

Lemma side_branches_ok text m bs :
  rows_ok bs ->
  Forall branch_ok (side_branches text m bs) /\
  forall rho, count (row_agrees rho) (side_branches text m bs) = if Bool.eqb (rho text) m then 1 else 0.
Proof.
  intros [H1 H2]. unfold side_branches. split.
  - apply Forall_forall. intros c Hc. apply list_elem_of_fmap in Hc as (b & -> & Hb).
    apply list_elem_of_In, List.filter_In in Hb as [Hb _]. rewrite Forall_forall in H1.
    destruct (H1 b) as (Hn & Hk & Hp); [by apply list_elem_of_In|]. split; [|done]. cbn [pb_times].
    apply merge_times_NoDup; [apply NoDup_singleton | done].
  - intros rho. rewrite count_map.
    rewrite (count_ext _ (fun b => Bool.eqb (rho text) m && row_agrees rho b)).
    2: { intros b Hb. apply list_elem_of_In, List.filter_In in Hb as [Hb Hc]. apply negb_true_iff in Hc.
         rewrite Forall_forall in H1. destruct (H1 b) as (Hn & _); [by apply list_elem_of_In|].
         unfold row_agrees. cbn [pb_times]. rewrite merge_times_agrees by done. simpl. by rewrite andb_true_r. }
    destruct (Bool.eqb (rho text) m) eqn:Hm; cbn [andb]; [|by apply count_false].
    change (fun b => row_agrees rho b) with (row_agrees rho).
    rewrite count_filter; [apply H2|]. intros b Hb Hc. apply negb_false_iff in Hc.
    apply (conflict_disagree rho) in Hc. simpl in Hc. rewrite Hm in Hc. done.
Qed.

Lemma rows_ok_single b : pb_times b = [] -> branch_ok b -> rows_ok [b].
Proof.
  intros Ht Hb. split; [by constructor; [|constructor]|]. intros rho. rewrite count_cons. unfold row_agrees.
  by rewrite Ht.
Qed.

Section branches.
Context (source : str) (schema : usage_schema) (facts : list (str * fact)).
Abbreviation branches_of := (taskPriceBranches source schema facts).

Lemma spend_Ok rem u rem' : spend rem = Ok (u, rem') -> (rem' = rem - 1 /\ 0 <= rem')%Z.
Proof. unfold spend. destruct (Z.ltb_spec (rem - 1) 0); [done|]. intros [= _ <-]. lia. Qed.

(** The rows of an expression are exclusive, exhaustive and well priced. *)
Lemma taskPriceBranches_ok n rem bs rem' : branches_of n rem = Ok (bs, rem') -> rows_ok bs.
Proof.
  revert rem bs rem'. induction n as [n IH] using node_children_ind. intros rem bs rem' H.
  destruct n as [v i a b|v a b|f args a b|o x a b|o l r a b|c y z a b];
    cbn [taskPriceBranches] in H; inv_ok H; clear H0; try done.
  - destruct v as [|v| |]; try done. destruct (n_leb n_zero v) eqn:Hv; [|done]. injection H as <- _.
    apply rows_ok_single; [done|]. split; [constructor|]. split; [done | constructor].
  - destruct f; try done; destruct args as [|[[t| | |] i1 a1 b1| | | | |] args]; try done.
    + destruct args as [|body rest]; [done|]. inv_ok H.
      assert (rows_ok a2) as [H1 H2] by (eapply IH; [|exact H0]; simpl; set_solver).
      destruct (existsb _ _); [done|]. injection H as <- _. split.
      * apply Forall_forall. intros b' Hb'. apply list_elem_of_fmap in Hb' as (b0 & -> & Hb0).
        rewrite Forall_forall in H1. exact (H1 b0 Hb0).
      * intros rho. rewrite count_map. apply H2.
    + destruct (obj_get t schema) as [def|]; [|done]. destruct (_ && _); [|done]. injection H as <- _.
      apply rows_ok_single; [done|]. split; [constructor|]. split; [done|]. by repeat constructor.
  - destruct o; try done; inv_ok H; inv_ok H;
      (destruct (bool_decide _); [done|]; destruct (combine_all _ _ _) as [cs|] eqn:E; [|done]; injection H as <- _;
       eapply combine_all_ok; [exact E | |]; eapply IH; try eassumption; simpl; set_solver).
  - inv_ok H. destruct a1 as [b1|text].
    + destruct b1; eapply IH; try exact H; simpl; set_solver.
    + inv_ok H. inv_ok H. destruct (bool_decide _); [|done]. injection H as <- _.
      assert (rows_ok a1) as Hy by (eapply IH; [|exact H1]; simpl; set_solver).
      assert (rows_ok a2) as Hz by (eapply IH; [|exact H2]; simpl; set_solver).
      apply (side_branches_ok text true) in Hy as [Hy1 Hy2]. apply (side_branches_ok text false) in Hz as [Hz1 Hz2].
      split; [by apply Forall_app|]. intros rho. rewrite count_app, Hy2, Hz2. by destruct (rho text).
Qed.
End branches.
