(* ===== verification/ConditionalTaskProps.v ===== *)
(** The correctness properties of the conditional task display. *)

From S2P Require Import Prelude JsString JsNumber JsValue BillingTypes BillingParser BillingCompile BillingCompileFacts BillingRuntime BillingDisplay BillingDisplayFacts ConditionalTaskDisplay.

(** The rows derived for one assignment of the categorical facts partition
    the time predicates: whatever truth values the predicates have, exactly one row
    has time conditions that agree with them. *)
Theorem rows_partition_time (source : str) (schema : usage_schema) (facts : list (str * fact))
    (n : node) (budget budget' : Z) (rows : list price_branch) (rho : str -> bool)
    (H : taskPriceBranches source schema facts n budget = Ok (rows, budget')) :
  length (List.filter (row_agrees rho) rows) = 1.
Proof. apply taskPriceBranches_ok in H as [_ H]. apply H. Qed.

Definition night_source : str :=
  js "(hour('UTC') < 8 ? 2 : 1) * tier('a', hour('UTC') < 8 ? u('n') * 3 : u('n') * 4)".
Definition night_ast : node :=
  match parse_source night_source with Ok n => n | Throw _ => NLiteral LNull false 0 0 end.
Definition count_schema : usage_schema := [(js "n", UsageField (Some Usage_number) (Some Unit_count) None None)].

Lemma rows_partition_time_witness :
  exists rows budget, taskPriceBranches night_source count_schema [] night_ast display_budget = Ok (rows, budget) /\
    length rows = 2 /\ length (List.filter (row_agrees (fun _ => true)) rows) = 1.
Proof.
  destruct (taskPriceBranches night_source count_schema [] night_ast display_budget) as [[rows budget]|e] eqn:E.
  - exists rows, budget. split; [reflexivity|]. split.
    + vm_compute in E. injection E as <- _. reflexivity.
    + exact (rows_partition_time night_source count_schema [] night_ast display_budget budget rows (fun _ => true) E).
  - exfalso. vm_compute in E. discriminate E.
Defined.

(** A displayed tier has finite prices that are not negative. *)
Definition tier_ok (t : task_tier) : Prop :=
  Forall (fun e => acceptable e.2 = true) (kt_unitPrices t) /\ n_leb n_zero (kt_constant t) = true /\
  kt_unitPrices t <> [].

Lemma branch_tier_ok schema fields facts b t :
  branch_ok b -> branch_tier schema fields facts b = Some t ->
  tier_ok t /\ map fst (kt_unitPrices t) = List.filter (unit_field schema) fields.
Proof.
  intros (_ & Hk & Hp) H. unfold branch_tier in H. destruct (pb_label b) as [label|]; [|done]. simpl in H.
  destruct (_ || _) eqn:E; [done|]. injection H as <-. apply orb_false_iff in E as [E1 E2]. breflect.
  unfold tier_ok. simpl. split; [split; [|done]|by rewrite map_map, map_id].
  apply Forall_forall. intros e He. apply list_elem_of_fmap in He as (f & -> & _). simpl. unfold price_of.
  destruct (obj_get f (pb_prices b)) as [p|] eqn:Hg; [|done]. apply obj_get_Some in Hg.
  rewrite Forall_forall in Hp. exact (Hp _ Hg).
Qed.

Lemma map_option_Forall {A B} (f : A -> option B) (P : A -> Prop) (Q : B -> Prop) l r :
  (forall a b, P a -> f a = Some b -> Q b) -> map_option f l = Some r -> Forall P l ->
  Forall Q r /\ length r = length l.
Proof.
  intros Hf. revert r. induction l as [|a l IH]; intros r H HP; simpl in H.
  - injection H as <-. done.
  - apply List.Forall_cons_iff in HP as [Ha HP]. destruct (f a) as [b|] eqn:Hb; [|done]. simpl in H.
    destruct (map_option f l) as [r'|]; [|done]. simpl in H. injection H as <-.
    destruct (IH r' eq_refl HP) as [H1 H2]. split; [constructor; eauto | simpl; lia].
Qed.

Definition row_ok (schema : usage_schema) (fields : list str) (t : task_tier) : Prop :=
  tier_ok t /\ map fst (kt_unitPrices t) = List.filter (unit_field schema) fields.

Lemma display_rows_ok source schema ast fields combinations tiers rem rows rem' :
  display_rows source schema ast fields combinations tiers rem = Ok (rows, rem') ->
  Forall (row_ok schema fields) tiers -> length tiers <= MAX_DISPLAY_ROWS ->
  Forall (row_ok schema fields) rows /\ length rows <= MAX_DISPLAY_ROWS.
Proof.
  revert tiers rem. induction combinations as [|facts rest IH]; intros tiers rem H Ht Hl; simpl in H.
  { by injection H as <- _. }
  inv_ok H. apply taskPriceBranches_ok in H0 as [Hok _].
  destruct (bool_decide _) eqn:Hlen; [done|]. breflect.
  destruct (map_option _ a) as [new|] eqn:Hm; [|done].
  eapply (map_option_Forall _ branch_ok (row_ok schema fields)) in Hm as [Hnew Hn]; [| |exact Hok].
  - eapply IH; [exact H | by apply Forall_app | rewrite length_app; lia].
  - intros b t Hb Hbt. by eapply branch_tier_ok.
Qed.

(** The conditional display shows at most 128 rows; every row prices
    exactly the declared quantity fields the expression reads, with finite prices
    that are not negative, and a constant that is not negative. *)
Theorem conditional_rows_bounded (source : str) (schema : usage_schema) (tiers : list task_tier)
    (H : readConditionalTaskPricing source schema = Some tiers) :
  length tiers <= 128 /\
  exists fields, Forall (fun t =>
    map fst (kt_unitPrices t) = List.filter (unit_field schema) fields /\ kt_unitPrices t <> [] /\
    Forall (fun e => is_finite e.2 = true /\ n_leb n_zero e.2 = true) (kt_unitPrices t) /\
    n_leb n_zero (kt_constant t) = true) tiers.
Proof.
  unfold readConditionalTaskPricing in H. destruct (compile_source source) as [c|]; [|done].
  destruct (visitExpression _ _ _) as [[fields|]|]; [|done|done].
  destruct (fold_left _ _ _) as [combinations|]; [|done]. simpl in H.
  destruct (display_rows _ _ _ _ _ _ _) as [[rows rem]|] eqn:E; [|done]. injection H as <-.
  apply display_rows_ok in E as [Hrows Hlen]; [|constructor|unfold MAX_DISPLAY_ROWS; simpl; lia].
  split; [exact Hlen|]. exists fields. eapply Forall_impl; [exact Hrows|].
  intros t [(Hp & Hk & Hne) Hf]. split; [done|]. split; [done|]. split; [|done].
  eapply Forall_impl; [exact Hp|]. intros e He. unfold acceptable in He. by apply andb_true_iff in He.
Qed.

Lemma conditional_rows_bounded_witness :
  exists tiers, readConditionalTaskPricing night_source count_schema = Some tiers /\ length tiers = 2 /\
    length tiers <= 128.
Proof.
  destruct (readConditionalTaskPricing night_source count_schema) as [tiers|] eqn:E.
  - exists tiers. split; [reflexivity|]. split.
    + vm_compute in E. injection E as <-. reflexivity.
    + exact (proj1 (conditional_rows_bounded night_source count_schema tiers E)).
  - exfalso. vm_compute in E. discriminate E.
Defined.

(** The two task displays disagree on the unit of token prices: the
    canonical chain shows [u('tok') * 3 / 1000000] as 3 per million tokens, the
    conditional display shows the same price below a time condition as 0.000003. *)
Theorem token_price_scale_mismatch :
  let schema := [(js "tok", UsageField (Some Usage_number) (Some Unit_tokens) None None)] in
  exists ast canonical day night,
    parse_source (js "tier('a', u('tok') * 3 / 1000000)") = Ok ast /\
    readTaskTierChain ast schema false = Some [canonical] /\ kt_unitPrices canonical = [(js "tok", n_of_Z 3)] /\
    readConditionalTaskPricing
      (js "hour('UTC') < 8 ? tier('a', u('tok') * 3 / 1000000) : tier('b', u('tok') * 3 / 1000000)") schema
      = Some [night; day] /\
    kt_unitPrices night = [(js "tok", n_mul (n_of_Z 3) (n_div n_one n_million))] /\
    string_of_number (n_mul (n_of_Z 3) (n_div n_one n_million)) = js "0.000003".
Proof. cbv zeta. do 4 eexists. split; [vm_compute; reflexivity|]. vm_compute. repeat split; reflexivity. Qed.
