(* ===== verification/ConditionDisplay.v ===== *)
(** Localised descriptions of billing conditions
    (features/pricing/lib/billing-expression/condition-display.ts).

    Translation and the [Intl] formatters are the host's: [DisplayHost] collects
    them.  The bounds of a time range are integers ([Number.isInteger] is checked)
    and are kept as such; [value + 1] is exact up to 2^53, and beyond that both it
    and its rounding are cut off by the end of the domain. *)

From S2P Require Import Prelude JsString JsNumber JsValue BillingTypes BillingParser BillingCompile BillingDisplay.

(** An option of a translation. *)
Inductive translate_option : Type :=
| OText (s : str)
| OInteger (z : Z)
| OEscapeValue (b : bool).

Class DisplayHost := {
  translate : str -> list (str * translate_option) -> str;
  getCanonicalLocales : str -> option str;
  (** [new Intl.DateTimeFormat(locale, { weekday: 'short', timeZone: 'UTC' }).format] *)
  format_weekday : option str -> Z -> str;
  (** [value.toLocaleString(locale)] *)
  to_locale_string : option str -> number -> str;
}.

(** * Data *)

Inductive description_kind : Type := K_calendar | K_clock | K_combined.
#[export] Instance description_kind_eq_dec : EqDecision description_kind.
Proof. solve_decision. Defined.

Record description := Description {
  ds_text : str;
  ds_kind : description_kind;
  ds_timezone : str;
  ds_disjunction : bool;
}.

Record time_comparison := TimeComparison {
  cmp_name : time_function;
  cmp_timezone : str;
  cmp_operator : binary_operator;
  cmp_value : Z;
}.

Definition DOMAINS (f : time_function) : Z * Z :=
  match f with
  | T_hour => (0, 24)
  | T_minute => (0, 60)
  | T_weekday => (0, 7)
  | T_month => (1, 13)
  | T_day => (1, 32)
  end%Z.

Definition is_range_operator (o : binary_operator) : bool :=
  match o with B_eq | B_ge | B_gt | B_le | B_lt => true | _ => false end.

Definition timeComparison (n : node) : option time_comparison :=
  match n with
  | NBinary o (NCall (F_time f) (NLiteral (LString zone) _ _ _ :: _) _ _) (NLiteral (LNumber v) _ _ _) _ _ =>
      if is_range_operator o && is_integer v
      then Some (TimeComparison f (match trim zone with [] => js "UTC" | z => z end) o (trunc_Z v)) else None
  | _ => None
  end.

(** * Ranges *)

Definition narrow (range : Z * Z) (c : time_comparison) : Z * Z :=
  let '(start, stop) := range in
  match cmp_operator c with
  | B_ge => (Z.max start (cmp_value c), stop)
  | B_gt => (Z.max start (cmp_value c + 1), stop)
  | B_lt => (start, Z.min stop (cmp_value c))
  | B_le => (start, Z.min stop (cmp_value c + 1))
  | B_eq => (Z.max start (cmp_value c), Z.min stop (cmp_value c + 1))
  | _ => range
  end%Z.

(** The half-open interval of the values that satisfy all comparisons. *)
Definition time_range (first : time_comparison) (comparisons : list time_comparison) : option (Z * Z) :=
  let '(start, stop) := fold_left narrow comparisons (DOMAINS (cmp_name first)) in
  if (stop <=? start)%Z then None else Some (start, stop).

(** The template ['{{start}}–{{end}}'], with an en dash. *)
Definition range_template : str := js "{{start}}" ++ [8211%N] ++ js "{{end}}".

Definition clock_text (z : Z) : str :=
  (match string_of_Z z with [c] => [48%N; c] | t => t end) ++ js ":00".

(** [Date.UTC(2026, 0, 4 + z)]: 4 January 2026 is a Sunday. *)
Definition sunday_2026 : Z := 1767484800000.
Definition weekday_date (z : Z) : Z := sunday_2026 + z * ms_per_day.

Section display.
Context {dh : DisplayHost}.

Definition toIntlLocale (value : str) : option str :=
  match value with
  | [] => None
  | _ =>
      if bool_decide (value = js "zhCN") then Some (js "zh-CN")
      else if bool_decide (value = js "zhTW") then Some (js "zh-TW")
      else getCanonicalLocales value
  end.

(** The translation function passed down: [t] with escaping switched off. *)
Definition t (key : str) (options : list (str * translate_option)) : str :=
  translate key (options ++ [(js "escapeValue", OEscapeValue false)]).

Definition range_text (start stop : str) : str :=
  t range_template [(js "start", OText start); (js "end", OText stop)].

Definition describeTimeRange (first : time_comparison) (comparisons : list time_comparison) (locale : str)
    : option description :=
  '(start, stop) ← time_range first comparisons;
  let '(text, kind) :=
    match cmp_name first with
    | T_hour => (range_text (clock_text start) (clock_text stop), K_clock)
    | T_weekday =>
        let from := format_weekday (toIntlLocale locale) (weekday_date start) in
        let to := format_weekday (toIntlLocale locale) (weekday_date (stop - 1)) in
        (if (start =? stop - 1)%Z then from else range_text from to, K_calendar)
    | f =>
        let label := match f with T_minute => js "Minute" | T_month => js "Month" | _ => js "Day" end in
        let values :=
          if (start =? stop - 1)%Z then string_of_Z start
          else t range_template [(js "start", OInteger start); (js "end", OInteger (stop - 1))] in
        (t label [] ++ js ": " ++ values, K_calendar)
    end in
  Some (Description text kind (cmp_timezone first) false).

(** * Conditions *)

Definition variable_label (v : billing_variable) : option str :=
  match v with
  | V_p => Some (js "Input")
  | V_c => Some (js "Output")
  | V_len => Some (js "Full input length")
  | _ => None
  end.

(** The key [`${name}:${timezone}`] under which comparisons are grouped. *)
Definition range_key (c : time_comparison) : str :=
  time_function_name (cmp_name c) ++ js ":" ++ cmp_timezone c.

(** [ranges.get(key) ?? []], then push and set. *)
Fixpoint add_range (c : time_comparison) (ranges : list (str * list time_comparison))
    : list (str * list time_comparison) :=
  match ranges with
  | [] => [(range_key c, [c])]
  | (key, l) :: rest =>
      if bool_decide (key = range_key c) then (key, l ++ [c]) :: rest else (key, l) :: add_range c rest
  end.

Definition describe_ranges (ranges : list (str * list time_comparison)) (locale : str)
    : option (list description) :=
  map_option (fun r => match r.2 with c :: _ => describeTimeRange c r.2 locale | [] => None end) ranges.

Definition with_parens (d : description) : str :=
  if ds_disjunction d then js "(" ++ ds_text d ++ js ")" else ds_text d.

(** The text of the parts joined by the translated conjunction. *)
Definition join_parts (conjunction : bool) (first : description) (rest : list description) : str :=
  let separator := if conjunction then js "{{first}} and {{second}}" else js "{{first}} or {{second}}" in
  let shown d := if conjunction then with_parens d else ds_text d in
  fold_left (fun text part => t separator [(js "first", OText text); (js "second", OText (shown part))])
    rest (shown first).

Definition combine_parts (conjunction : bool) (parts : list description) : option description :=
  let zones := fold_left (fun acc d => match ds_timezone d with [] => acc | z => set_add z acc end) parts [] in
  match parts with
  | [] => None
  | first :: rest =>
      if bool_decide (1 < length zones) then None
      else
        match rest with
        | [] => Some first
        | _ =>
            let calendars := List.filter (fun d => bool_decide (ds_kind d = K_calendar)) parts in
            let clocks := List.filter (fun d => bool_decide (ds_kind d = K_clock)) parts in
            match conjunction, rest, calendars, clocks with
            | true, [_], [calendar], [clock] =>
                Some (Description (ds_text calendar ++ js " " ++ ds_text clock) K_combined (ds_timezone first) false)
            | _, _, _, _ =>
                Some (Description (join_parts conjunction first rest)
                        (if bool_decide (length clocks = length parts) then K_clock else K_combined)
                        (match zones with z :: _ => z | [] => [] end) (negb conjunction))
            end
        end
  end.

(** The loop over the conjuncts: comparisons are grouped, the others kept. *)
Fixpoint split_conjuncts (nodes others : list node) (ranges : list (str * list time_comparison))
    : list node * list (str * list time_comparison) :=
  match nodes with
  | [] => (others, ranges)
  | n :: rest =>
      match timeComparison n with
      | Some c => split_conjuncts rest others (add_range c ranges)
      | None => split_conjuncts rest (others ++ [n]) ranges
      end
  end.

(** [describeBillingCondition]; the outer [None] is exhaustion of the fuel that
    bounds the recursion through flattened operators. *)
Fixpoint describeBillingCondition (fuel : nat) (n : node) (locale : str) : option (option description) :=
  match fuel with
  | O => None
  | S f =>
      match n with
      | NUnary U_not operand _ _ =>
          d ← describeBillingCondition f operand locale;
          Some (match d with
                | None => None
                | Some d =>
                    Some (Description (t (js "Outside these times: {{condition}}") [(js "condition", OText (ds_text d))])
                            K_combined (ds_timezone d) (ds_disjunction d))
                end)
      | NBinary o (NVariable v _ _) (NLiteral (LNumber x) _ _ _) _ _ =>
          if is_comparison o then
            Some (label ← variable_label v;
                  Some (Description (t label [] ++ js " " ++ operator_text o ++ js " " ++
                          to_locale_string (toIntlLocale locale) x) K_combined [] false))
          else Some None
      | NBinary o _ _ _ _ =>
          match timeComparison n with
          | Some single => Some (describeTimeRange single [single] locale)
          | None =>
              match o with
              | B_and =>
                  let '(others, ranges) := split_conjuncts (flattenBinary n B_and) [] [] in
                  parts ← map_option (fun part => describeBillingCondition f part locale) others;
                  Some (parts ← map_option id parts;
                        grouped ← describe_ranges ranges locale;
                        combine_parts true (parts ++ grouped))
              | B_or =>
                  parts ← map_option (fun part => describeBillingCondition f part locale) (flattenBinary n B_or);
                  Some (parts ← map_option id parts; combine_parts false parts)
              | _ => Some None
              end
          end
      | _ => Some None
      end
  end.

Definition formatBillingCondition (source locale : str) : option (option str) :=
  match compile_source source with
  | NotReady _ => Some None
  | Ready compiled =>
      d ← describeBillingCondition (node_size (c_ast compiled)) (c_ast compiled) locale;
      Some (match d with
            | None => None
            | Some d =>
                match ds_timezone d with
                | [] => Some (ds_text d)
                | zone => Some (t (js "{{condition}} ({{timezone}})")
                                  [(js "condition", OText (ds_text d)); (js "timezone", OText zone)])
                end
            end)
  end.
End display.
