(* ===== verification/ConditionDisplayProps.v ===== *)
(** The correctness properties of condition descriptions. *)

From S2P Require Import Prelude JsString JsNumber JsValue BillingTypes BillingParser BillingCompile BillingCompileFacts BillingDisplay BillingDisplayFacts ConditionDisplay.

(** * Ranges *)

(** The comparison holds for a value of its time function. *)
Definition comparison_holds (v : Z) (c : time_comparison) : bool :=
  match cmp_operator c with
  | B_ge => (cmp_value c <=? v)%Z
  | B_gt => (cmp_value c <? v)%Z
  | B_lt => (v <? cmp_value c)%Z
  | B_le => (v <=? cmp_value c)%Z
  | B_eq => (v =? cmp_value c)%Z
  | _ => true
  end.

Lemma narrow_spec range c v :
  let '(lo, hi) := narrow range c in
  (lo <= v < hi)%Z <-> (range.1 <= v < range.2)%Z /\ comparison_holds v c = true.
Proof.
  destruct range as [lo hi]. unfold narrow, comparison_holds. simpl.
  destruct (cmp_operator c); rewrite ?Z.leb_le, ?Z.ltb_lt, ?Z.eqb_eq; split; intros; try done; try tauto; lia.
Qed.

Lemma fold_narrow comparisons range v :
  let '(lo, hi) := fold_left narrow comparisons range in
  (lo <= v < hi)%Z <-> (range.1 <= v < range.2)%Z /\ forallb (comparison_holds v) comparisons = true.
Proof.
  revert range. induction comparisons as [|c l IH]; intros range; simpl.
  - destruct range as [lo hi]. simpl. tauto.
  - specialize (IH (narrow range c)). pose proof (narrow_spec range c v) as Hn.
    destruct (narrow range c) as [lo1 hi1]. destruct (fold_left narrow l (lo1, hi1)) as [lo hi].
    rewrite IH, andb_true_iff. simpl. tauto.
Qed.

(** ** Groups *)

(** All comparisons of a group test one function in one zone. *)
Definition group_ok (group : str * list time_comparison) : Prop :=
  group.2 <> [] /\ Forall (fun c => range_key c = group.1) group.2.

Lemma add_range_ok c ranges :
  Forall group_ok ranges ->
  Forall group_ok (add_range c ranges) /\ concat (map snd (add_range c ranges)) ≡ₚ c :: concat (map snd ranges).
Proof.
  induction 1 as [|[key l] ranges [Hne Hall] Hr [IH1 IH2]]; simpl.
  - split; [|done]. repeat constructor. done.
  - destruct (bool_decide (key = range_key c)) eqn:E; breflect; simpl.
    + split; [|rewrite <- (assoc_L (++)); simpl; by rewrite <- Permutation_middle].
      constructor; [|done]. split; simpl; [by destruct l|]. apply Forall_app. split; [done|]. by repeat constructor.
    + split; [by constructor|]. rewrite IH2. by rewrite <- Permutation_middle.
Qed.

Lemma split_conjuncts_ok nodes others ranges :
  Forall group_ok ranges ->
  let '(others', ranges') := split_conjuncts nodes others ranges in
  Forall group_ok ranges' /\ others' = others ++ List.filter (fun n => bool_decide (timeComparison n = None)) nodes /\
  concat (map snd ranges') ≡ₚ concat (map snd ranges) ++ omap timeComparison nodes.
Proof.
  revert others ranges. induction nodes as [|n nodes IH]; intros others ranges Hr; simpl.
  - by rewrite !app_nil_r.
  - destruct (timeComparison n) as [c|] eqn:Hc; simpl.
    + destruct (add_range_ok c ranges Hr) as [Hr1 Hr2]. specialize (IH others _ Hr1).
      destruct (split_conjuncts _ _ _) as [o r]. destruct IH as (IH1 & IH2 & IH3).
      split; [done|]. split; [done|]. rewrite IH3, Hr2. by rewrite <- Permutation_middle.
    + specialize (IH (others ++ [n]) ranges Hr).
      destruct (split_conjuncts _ _ _) as [o r]. destruct IH as (IH1 & -> & IH3).
      split; [done|]. split; [|done]. by rewrite <- (assoc_L (++)).
Qed.

Lemma names_prefix_free f g z z' :
  time_function_name f ++ js ":" ++ z = time_function_name g ++ js ":" ++ z' -> f = g /\ z = z'.
Proof.
  destruct f, g; intros H; vm_compute in H; try discriminate; split; try reflexivity; by injection H.
Qed.

(** A described time range is exact: the comparisons of a conjunction are
    grouped, without loss, by time function and zone, and the interval shown for a
    group contains a value of the function's domain exactly when the value
    satisfies every comparison of the group; no interval is shown exactly when no
    value does. *)
Theorem described_range_exact (nodes : list node) :
  let '(_, ranges) := split_conjuncts nodes [] [] in
  concat (map snd ranges) ≡ₚ omap timeComparison nodes /\
  Forall (fun group => exists first rest, group.2 = first :: rest /\
    Forall (fun c => cmp_name c = cmp_name first /\ cmp_timezone c = cmp_timezone first) group.2 /\
    forall v, ((DOMAINS (cmp_name first)).1 <= v < (DOMAINS (cmp_name first)).2)%Z ->
      forallb (comparison_holds v) group.2 = true <->
      exists lo hi, time_range first group.2 = Some (lo, hi) /\ (lo <= v < hi)%Z) ranges.
Proof.
  pose proof (split_conjuncts_ok nodes [] [] (List.Forall_nil _)) as H.
  destruct (split_conjuncts nodes [] []) as [others ranges]. destruct H as (Hg & _ & Hp).
  split; [done|]. eapply Forall_impl; [exact Hg|]. intros [key l] [Hne Hall]. simpl in *.
  destruct l as [|first rest]; [done|]. exists first, rest. split; [done|]. split.
  - pose proof Hall as Hall'. apply List.Forall_cons_iff in Hall' as [<- _].
    eapply Forall_impl; [exact Hall|]. intros c Hc. unfold range_key in Hc.
    by apply names_prefix_free in Hc.
  - intros v Hv. pose proof (fold_narrow (first :: rest) (DOMAINS (cmp_name first)) v) as Hn.
    unfold time_range. destruct (fold_left narrow (first :: rest) (DOMAINS (cmp_name first))) as [lo hi].
    destruct (Z.leb_spec hi lo).
    + split; [intros Hh; exfalso; assert (lo <= v < hi)%Z; [tauto|lia] | by intros (? & ? & ? & _)].
    + split.
      * intros Hh. exists lo, hi. split; [done|]. tauto.
      * intros (lo' & hi' & [= <- <-] & Hin). tauto.
Qed.

(** * Termination *)

Lemma flatten_size n o p : p ∈ flattenBinary n o -> node_size p <= node_size n.
Proof.
  revert p. induction n as [| |f args a b IH| |o' l r a b IHl IHr|] using node_ind'; intros p Hp;
    try (apply list_elem_of_singleton in Hp as ->; done).
  cbn [flattenBinary] in Hp. destruct (bool_decide (o' = o)); [|apply list_elem_of_singleton in Hp as ->; done].
  simpl. apply elem_of_app in Hp as [Hp|Hp]; [apply IHl in Hp | apply IHr in Hp]; lia.
Qed.

Lemma flatten_size_lt o l r a b p :
  p ∈ flattenBinary (NBinary o l r a b) o -> node_size p < node_size (NBinary o l r a b).
Proof.
  cbn [flattenBinary]. rewrite bool_decide_true by done. simpl. intros Hp.
  apply elem_of_app in Hp as [Hp|Hp]; apply flatten_size in Hp; lia.
Qed.

Lemma map_option_total {A B} (f : A -> option B) l :
  (forall x, x ∈ l -> exists y, f x = Some y) -> exists r, map_option f l = Some r.
Proof.
  induction l as [|x l IH]; intros H; simpl; [eauto|]. destruct (H x) as [y ->]; [constructor|].
  destruct IH as [r ->]; [intros z Hz; apply H; by constructor|]. simpl. eauto.
Qed.

Lemma describe_total `{DisplayHost} fuel n locale :
  node_size n <= fuel -> exists d, describeBillingCondition fuel n locale = Some d.
Proof.
  revert n. induction fuel as [|fuel IH]; intros n Hf; [rewrite node_size_children in Hf; lia|].
  assert (Hbin : forall o l r a b, n = NBinary o l r a b -> exists d,
    match timeComparison n with
    | Some single => Some (describeTimeRange single [single] locale)
    | None =>
        match o with
        | B_and =>
            let '(others, ranges) := split_conjuncts (flattenBinary n B_and) [] [] in
            parts ← map_option (fun part => describeBillingCondition fuel part locale) others;
            Some (parts ← map_option id parts; grouped ← describe_ranges ranges locale;
                  combine_parts true (parts ++ grouped))
        | B_or =>
            parts ← map_option (fun part => describeBillingCondition fuel part locale) (flattenBinary n B_or);
            Some (parts ← map_option id parts; combine_parts false parts)
        | _ => Some None
        end
    end = Some d).
  { intros o l r a b ->. destruct (timeComparison _); [eauto|]. destruct o; eauto.
    - destruct (map_option_total (fun part => describeBillingCondition fuel part locale)
        (flattenBinary (NBinary B_or l r a b) B_or)) as [parts ->]; [|simpl; eauto].
      intros x Hx. apply IH. apply flatten_size_lt in Hx. lia.
    - pose proof (split_conjuncts_ok (flattenBinary (NBinary B_and l r a b) B_and) [] [] (List.Forall_nil _)) as Hs.
      destruct (split_conjuncts _ _ _) as [others ranges]. destruct Hs as (_ & -> & _).
      destruct (map_option_total (fun part => describeBillingCondition fuel part locale)
        ([] ++ List.filter (fun n => bool_decide (timeComparison n = None)) (flattenBinary (NBinary B_and l r a b) B_and)))
        as [parts ->]; [|simpl; eauto].
      intros x Hx. apply list_elem_of_In, List.filter_In in Hx as [Hx _]. apply list_elem_of_In in Hx.
      apply IH. apply flatten_size_lt in Hx. lia. }
  destruct n as [v i a b|v a b|f args a b|o x a b|o l r a b|c y z a b];
    try (eexists; reflexivity); cbn [describeBillingCondition].
  - destruct o; eauto. destruct (IH x) as [d ->]; [simpl in Hf; lia|]. simpl. eauto.
  - destruct l as [| | | | |]; try (by eapply Hbin). destruct r as [[]| | | | |]; try (by eapply Hbin).
    destruct (is_comparison o); eauto.
Qed.

(** Describing a condition always returns within the model's fuel, the
    number of nodes of the tree. *)
Theorem format_condition_total `{DisplayHost} (source locale : str) :
  exists text, formatBillingCondition source locale = Some text.
Proof.
  unfold formatBillingCondition. destruct (compile_source source) as [c|]; [|eauto].
  destruct (describe_total (node_size (c_ast c)) (c_ast c) locale) as [d ->]; [done|]. simpl. eauto.
Qed.

(** A host that substitutes nothing and shows the weekday number. *)
Definition plain_display : DisplayHost := {|
  translate := fun key options =>
    match options with
    | [(_, OText a); (_, OText b); _] => a ++ js "-" ++ b
    | [(_, OInteger a); (_, OInteger b); _] => string_of_Z a ++ js "-" ++ string_of_Z b
    | [(_, OText a); _] => js "not " ++ a
    | _ => key
    end;
  getCanonicalLocales := fun value => Some value;
  format_weekday := fun _ time => weekday_name (getUTCDay time);
  to_locale_string := fun _ x => string_of_number x;
|}.

Example format_tests :
  map (fun s => formatBillingCondition (dh := plain_display) s (js "en"))
    [js "hour('Asia/Shanghai') >= 8 && hour('Asia/Shanghai') < 20 && weekday('Asia/Shanghai') <= 5";
     js "hour('UTC') >= 22 || hour('UTC') < 6"; js "!(day('') == 3)"; js "hour('UTC') > 30"; js "p > 1000"]
  = [Some (Some (js "Sun-Fri 08:00-20:00-Asia/Shanghai")); Some (Some (js "22:00-24:00-00:00-06:00-UTC"));
     Some (Some (js "not Day: 3-UTC")); Some None; Some (Some (js "Input > 1000"))].
Proof. vm_compute. reflexivity. Qed.
