(* ===== verification/JsRegExp.v ===== *)
(** Anchored regular expressions of the request-rule reader
    (features/pricing/lib/billing-expr.ts), as data for a backtracking matcher with
    captures.  The source's patterns are sequences of literals, captured character
    classes, alternatives of literals, back references and one quoted-string token,
    between [^] and [$]. *)

From S2P Require Import Prelude JsString.

Inductive item : Type :=
| Lit (text : str)              (* the characters themselves *)
| Some1 (p : N -> bool)         (* a captured class, one or more, greedy *)
| OneOf (texts : list str)      (* captured alternatives, tried in order *)
| OneOf_ (texts : list str)     (* the same without capture *)
| Back (group : nat)            (* back reference, groups counted from 0 *)
| QuotedText.                   (* a captured quoted string with escapes *)

(** [.] without the [s] flag. *)
Definition not_line_end (c : N) : bool :=
  negb ((c =? newline) || (c =? carriage_return) || (c =? 8232) || (c =? 8233))%N.
(** Anything but a double quote, and the characters of number literals. *)
Definition not_dquote (c : N) : bool := negb (c =? dquote)%N.
Definition is_numeric_char (c : N) : bool :=
  is_digit c || (c =? 46)%N || (c =? 101)%N || (c =? 69)%N || (c =? 43)%N || (c =? 45)%N.
Definition any_char (c : N) : bool := true.

Fixpoint strip (p s : str) : option str :=
  match p, s with
  | [], _ => Some s
  | c :: p', d :: s' => if (c =? d)%N then strip p' s' else None
  | _ :: _, [] => None
  end.

(** The rest of a quoted string after its opening quote: each step takes a
    character that is neither quote nor backslash, or a backslash and a character
    that is not a line end; it can only stop at a quote. *)
Fixpoint quoted_length (s : str) : option nat :=
  match s with
  | [] => None
  | c :: r =>
      if (c =? dquote)%N then Some 1
      else if (c =? backslash)%N then
        match r with
        | d :: r' => if not_line_end d then n ← quoted_length r'; Some (S (S n)) else None
        | [] => None
        end
      else n ← quoted_length r; Some (S n)
  end.

(** Longest first, down to one character. *)
Fixpoint longest_first {A} (attempt : nat -> option A) (k : nat) : option A :=
  match k with
  | O => None
  | S k' => match attempt k with Some x => Some x | None => longest_first attempt k' end
  end.
Fixpoint first_of {A B} (attempt : A -> option B) (l : list A) : option B :=
  match l with
  | [] => None
  | x :: l' => match attempt x with Some y => Some y | None => first_of attempt l' end
  end.

(** [exec]: the captures of the first match in priority order. *)
Fixpoint matches (items : list item) (s : str) (caps : list str) : option (list str) :=
  match items with
  | [] => match s with [] => Some caps | _ => None end
  | Lit text :: r => s' ← strip text s; matches r s' caps
  | Some1 p :: r =>
      longest_first (fun k => matches r (drop k s) (caps ++ [take k s])) (length (take_while p s))
  | OneOf texts :: r =>
      first_of (fun t => s' ← strip t s; matches r s' (caps ++ [t])) texts
  | OneOf_ texts :: r => first_of (fun t => s' ← strip t s; matches r s' caps) texts
  | Back g :: r => t ← caps !! g; s' ← strip t s; matches r s' caps
  | QuotedText :: r =>
      match s with
      | c :: s' =>
          if (c =? dquote)%N then
            n ← quoted_length s'; matches r (drop (S n) s) (caps ++ [take (S n) s])
          else None
      | [] => None
      end
  end.

(** [text.match(/^ ... $/)] *)
Definition exec (items : list item) (s : str) : option (list str) := matches items s [].

(** * Lemmas *)

Lemma strip_spec p s t : strip p s = Some t <-> s = p ++ t.
Proof.
  revert s. induction p as [|c p IH]; intros s; simpl; [naive_solver|].
  destruct s as [|d s]; simpl; [naive_solver|].
  destruct (N.eqb_spec c d) as [->|Hne]; rewrite ?IH; naive_solver.
Qed.

Lemma strip_app p t : strip p (p ++ t) = Some t.
Proof. by apply strip_spec. Qed.

Lemma strip_cons c p d s : strip (c :: p) (d :: s) = if (c =? d)%N then strip p s else None.
Proof. done. Qed.

Lemma longest_first_Some {A} (attempt : nat -> option A) k x :
  longest_first attempt k = Some x -> exists j, 0 < j <= k /\ attempt j = Some x.
Proof.
  induction k as [|k IH]; simpl; [done|]. destruct (attempt (S k)) eqn:E; intros H.
  - injection H as ->. exists (S k). split; [lia | done].
  - destruct (IH H) as (j & ? & ?). exists j. split; [lia | done].
Qed.

(** The answer of a greedy repetition with only one successful length. *)
Lemma longest_first_unique {A} (attempt : nat -> option A) k j x :
  0 < j <= k -> attempt j = Some x ->
  (forall i, 0 < i <= k -> i <> j -> attempt i = None) ->
  longest_first attempt k = Some x.
Proof.
  intros Hj Hx Hne. induction k as [|k IH]; [lia|]. simpl.
  destruct (decide (S k = j)) as [<-|Hn]; [by rewrite Hx|].
  rewrite Hne by lia. apply IH; [lia|]. intros i Hi Hij. apply Hne; lia.
Qed.

Lemma longest_first_None {A} (attempt : nat -> option A) k :
  (forall i, 0 < i <= k -> attempt i = None) -> longest_first attempt k = None.
Proof.
  intros H. induction k as [|k IH]; [done|]. simpl. rewrite H by lia.
  apply IH. intros i Hi. apply H. lia.
Qed.

(** [rejects p r]: what follows a class cannot start inside it, so the class
    never gives characters back. *)
Definition rejects (p : N -> bool) (r : list item) : Prop :=
  forall c s caps, p c = true -> matches r (c :: s) caps = None.

Lemma rejects_nil p : rejects p [].
Proof. done. Qed.
Lemma rejects_lit p d text r : p d = false -> rejects p (Lit (d :: text) :: r).
Proof.
  intros Hd c s caps Hc. cbn [matches strip]. destruct (N.eqb_spec d c) as [->|]; [congruence | done].
Qed.
#[export] Hint Resolve rejects_nil : billing.

Lemma matches_some1 p r s caps :
  rejects p r ->
  matches (Some1 p :: r) s caps =
  match take_while p s with
  | [] => None
  | w => matches r (drop_while p s) (caps ++ [w])
  end.
Proof.
  intros Hr. cbn [matches]. destruct (take_while p s) as [|c0 w] eqn:Hw; [done|].
  rewrite drop_while_drop, Hw. set (k := length (c0 :: w)).
  assert (take k s = c0 :: w) as Ht.
  { pose proof (take_while_take p s) as H. rewrite Hw in H. by symmetry. }
  change (longest_first _ k) with (longest_first (fun k => matches r (drop k s) (caps ++ [take k s])) (S (length w))).
  cbn [longest_first]. change (S (length w)) with k. rewrite Ht.
  destruct (matches r (drop k s) _) eqn:E; [done|].
  apply longest_first_None. intros i Hi.
  assert (i < k) as Hik by (subst k; simpl; lia).
  destruct (drop i s) as [|c t] eqn:Hd.
  - exfalso. apply (f_equal length) in Hd, Ht. rewrite length_drop in Hd. rewrite length_take in Ht.
    fold k in Ht. simpl in Hd. lia.
  - apply Hr. pose proof (take_while_all p s) as Hall. rewrite Hw, <- Ht in Hall.
    rewrite Forall_forall in Hall. apply Hall, list_elem_of_lookup. exists i.
    rewrite lookup_take_lt by done.
    rewrite <- (Nat.add_0_r i), <- lookup_drop, Hd. done.
Qed.

(** A class between its text and a character outside the class. *)
Lemma matches_some1_app p r w rest caps :
  rejects p r -> w <> [] -> Forall (fun c => p c = true) w ->
  match rest with [] => True | y :: _ => p y = false end ->
  matches (Some1 p :: r) (w ++ rest) caps = matches r rest (caps ++ [w]).
Proof.
  intros Hr Hw Hall Hrest. rewrite matches_some1 by done.
  rewrite take_while_app, drop_while_app by done. by destruct w.
Qed.

Lemma matches_lit text r s caps : matches (Lit text :: r) (text ++ s) caps = matches r s caps.
Proof. cbn [matches]. by rewrite strip_app. Qed.

Lemma matches_back g t r s caps :
  caps !! g = Some t -> matches (Back g :: r) (t ++ s) caps = matches r s caps.
Proof. intros H. cbn [matches]. rewrite H. cbn. by rewrite strip_app. Qed.
