(* ===== verification/JsJson.v ===== *)
(** JSON and conversions as the code uses them: [JSON.parse], [JSON.stringify] with and without
    indentation, [Boolean(value)] and [String(value)].  The name of the error class stands for the
    message of the engine.  Printed data without numbers is read back. *)

From S2P Require Import Prelude JsString JsNumber JsNumberOrder JsValue BillingTypes.

Definition syntax_error : exn := NativeError (js "SyntaxError").
Definition type_error : exn := NativeError (js "TypeError").

(** * JSON.stringify of a string *)

Definition hex_digit (v : N) : N := if (v <? 10)%N then (48 + v)%N else (87 + v)%N.
Definition unicode_escape (c : N) : str :=
  [backslash; 117%N; hex_digit (c / 4096); hex_digit (c / 256 mod 16);
   hex_digit (c / 16 mod 16); hex_digit (c mod 16)].
Definition is_high_surrogate (c : N) : bool := in_range 55296 56319 c.
Definition is_low_surrogate (c : N) : bool := in_range 56320 57343 c.

(** The escape letters shared by both directions. *)
Definition json_escapes : list (N * N) :=
  [(34, 34); (92, 92); (98, 8); (102, 12); (110, 10); (114, 13); (116, 9)]%N.
Definition escape_letter (c : N) : option N :=
  fst <$> List.find (fun e => (e.2 =? c)%N) json_escapes.
Definition escaped_unit (letter : N) : option N :=
  if (letter =? 47)%N then Some 47%N
  else snd <$> List.find (fun e => (e.1 =? letter)%N) json_escapes.

(** One code unit; surrogates are handled by the caller. *)
Definition quote_unit (c : N) : str :=
  match escape_letter c with
  | Some letter => [backslash; letter]
  | None => if (c <? 32)%N then unicode_escape c else [c]
  end.

(** Surrogate pairs stand for themselves, lone surrogates are escaped. *)
Fixpoint quote_units (s : str) : str :=
  match s with
  | [] => []
  | c :: r =>
      if is_high_surrogate c then
        match r with
        | d :: r' =>
            if is_low_surrogate d then c :: d :: quote_units r' else unicode_escape c ++ quote_units r
        | [] => unicode_escape c
        end
      else if is_low_surrogate c then unicode_escape c ++ quote_units r
      else quote_unit c ++ quote_units r
  end.
Definition JSON_stringify (s : str) : str := dquote :: quote_units s ++ [dquote].

(** * JSON.parse *)

Definition is_json_space (c : N) : bool := (c =? 32)%N || (c =? 9)%N || (c =? 10)%N || (c =? 13)%N.
Definition skip_space (s : str) : str := drop_while is_json_space s.

(** The text of a string after its opening quote, and what follows it. *)
Fixpoint json_chars (s : str) : option (str * str) :=
  match s with
  | [] => None
  | c :: r =>
      if (c =? dquote)%N then Some ([], r)
      else if (c =? backslash)%N then
        match r with
        | e :: r' =>
            if (e =? 117)%N then
              match r' with
              | h1 :: h2 :: h3 :: h4 :: r'' =>
                  if forallb is_hex [h1; h2; h3; h4] then
                    '(text, rest) ← json_chars r''; Some (parse_hex [h1; h2; h3; h4] :: text, rest)
                  else None
              | _ => None
              end
            else
              u ← escaped_unit e; '(text, rest) ← json_chars r'; Some (u :: text, rest)
        | [] => None
        end
      else if (c <? 32)%N then None
      else '(text, rest) ← json_chars r; Some (c :: text, rest)
  end.

(** The number token at the start of the text: its length. *)
Definition json_number (s : str) : option nat :=
  let '(sign, r) := match s with c :: r => if (c =? 45)%N then (1, r) else (0, s) | [] => (0, []) end in
  let int := take_while is_digit r in
  match int with
  | [] => None
  | d :: rest =>
      let n := if (d =? 48)%N then 1 else length int in
      let r := drop n r in
      let frac :=
        match r with
        | c :: r' => if (c =? 46)%N then
                       match length (take_while is_digit r') with O => 0 | k => 1 + k end
                     else 0
        | [] => 0
        end in
      Some (sign + n + frac + match_exponent (drop frac r))
  end.

(** [o[k] = v] on an object literal under construction. *)
Fixpoint obj_set {V} (k : str) (v : V) (o : list (str * V)) : list (str * V) :=
  match o with
  | [] => [(k, v)]
  | (k', v') :: o' => if bool_decide (k = k') then (k', v) :: o' else (k', v') :: obj_set k v o'
  end.

Lemma obj_get_set {V} (k k' : str) (v : V) o :
  obj_get k (obj_set k' v o) = if bool_decide (k = k') then Some v else obj_get k o.
Proof.
  induction o as [|[k0 v0] o IH]; cbn [obj_set obj_get]; [by repeat case_bool_decide|].
  destruct (bool_decide (k' = k0)) eqn:E0; breflect; cbn [obj_get].
  - subst k0. by repeat case_bool_decide.
  - rewrite IH. repeat case_bool_decide; congruence.
Qed.

(** [delete o[k]] *)
Definition obj_delete {V} (k : str) (o : list (str * V)) : list (str * V) :=
  List.filter (fun e : str * V => negb (bool_decide (e.1 = k))) o.

Lemma obj_get_delete {V} (k k' : str) (o : list (str * V)) :
  obj_get k (obj_delete k' o) = if bool_decide (k = k') then None else obj_get k o.
Proof.
  induction o as [|[k0 v0] o IH]; cbn [obj_delete List.filter obj_get fst]; [by case_bool_decide|].
  unfold obj_delete in IH. destruct (bool_decide_reflect (k0 = k')) as [E|E]; cbn [negb obj_get fst].
  - rewrite IH. repeat case_bool_decide; congruence.
  - rewrite IH. repeat case_bool_decide; congruence.
Qed.

Lemma obj_delete_keys {V} (k : str) (o : list (str * V)) :
  map fst (obj_delete k o) = List.filter (fun k' => negb (bool_decide (k' = k))) (map fst o).
Proof.
  unfold obj_delete. induction o as [|[k0 v0] o IH]; [done|]. cbn [List.filter map fst]. case_bool_decide; cbn [negb map fst]; by rewrite IH.
Qed.

Lemma obj_set_fst {V} k (v : V) o : map fst (obj_set k v o) = if bool_decide (k ∈ map fst o) then map fst o else map fst o ++ [k].
Proof.
  induction o as [|[k' v'] o IH]; [done|]. cbn [obj_set map fst]. destruct (bool_decide (k = k')) eqn:E; breflect.
  - subst k'. rewrite bool_decide_eq_true_2 by by left. done.
  - cbn [map fst]. rewrite IH. repeat case_bool_decide; try done; set_solver.
Qed.

Lemma obj_get_fst {V} k (o : list (str * V)) : is_Some (obj_get k o) <-> k ∈ map fst o.
Proof.
  induction o as [|[k' v'] o IH]; cbn [obj_get map fst]; [split; [by intros []|by intros ?%not_elem_of_nil]|].
  case_bool_decide; [subst; split; [left|by eauto]|]. rewrite IH, elem_of_cons. naive_solver.
Qed.

Lemma obj_get_value {K V} `{EqDecision K} (k : K) (v : V) o : NoDup (map fst o) -> (obj_get k o = Some v <-> (k, v) ∈ o).
Proof.
  induction o as [|[k' v'] o IH]; cbn [obj_get map fst]; [intros _; split; [done|by intros ?%not_elem_of_nil]|].
  intros [Hk Hn]%NoDup_cons. rewrite elem_of_cons. case_bool_decide as E.
  - subst k'. split; [intros [= ->]; by left|]. intros [[= ->]|Hin]; [done|]. exfalso. apply Hk.
    apply list_elem_of_fmap. by exists (k, v).
  - rewrite IH by done. naive_solver.
Qed.

Lemma obj_set_keys {V} (k : str) (v : V) o : NoDup (map fst o) -> NoDup (map fst (obj_set k v o)).
Proof.
  intros Hn. rewrite obj_set_fst. case_bool_decide; [done|]. apply NoDup_app. split; [done|]. split; [set_solver|]. apply NoDup_singleton.
Qed.

Lemma elem_of_obj_set {V} (k k' : str) (v : V) o : k ∈ map fst (obj_set k' v o) <-> k = k' \/ k ∈ map fst o.
Proof. rewrite obj_set_fst. case_bool_decide; set_solver. Qed.

Lemma elem_of_obj_delete {V} (k k' : str) (o : list (str * V)) : k ∈ map fst (obj_delete k' o) <-> k <> k' /\ k ∈ map fst o.
Proof. rewrite obj_delete_keys, !list_elem_of_In, filter_In, negb_true_iff, bool_decide_eq_false. tauto. Qed.

Lemma filter_keys {V} (p : str * V -> bool) (o : list (str * V)) : NoDup (map fst o) -> NoDup (map fst (List.filter p o)).
Proof.
  induction o as [|[k v] o IH]; [done|]. cbn [map fst List.filter]. intros [Hk Hn]%NoDup_cons. destruct (p (k, v)); [|by apply IH].
  cbn [map fst]. apply NoDup_cons. split; [|by apply IH]. intros Hin. apply Hk. apply list_elem_of_In, in_map_iff in Hin as (e & <- & He).
  apply filter_In in He as [He _]. by apply list_elem_of_In, in_map.
Qed.

Lemma obj_delete_nodup {V} (k : str) (o : list (str * V)) : NoDup (map fst o) -> NoDup (map fst (obj_delete k o)).
Proof. apply filter_keys. Qed.

Lemma obj_set_fresh {V} (k : str) (v : V) o : k ∉ map fst o -> obj_set k v o = o ++ [(k, v)].
Proof.
  induction o as [|[k' v'] o IH]; [done|]. cbn [obj_set map fst app]. intros [Hk Ho]%not_elem_of_cons.
  rewrite bool_decide_eq_false_2 by done. by rewrite IH.
Qed.

Definition json_keywords : list (str * jsval) :=
  [(js "true", VBool true); (js "false", VBool false); (js "null", VNull)].

Definition json_atom (s : str) : result exn (jsval * str) :=
  match List.find (fun kw => starts_with s kw.1) json_keywords with
  | Some (text, v) => Ok (v, drop (length text) s)
  | None =>
      match json_number s with
      | Some n => Ok (VNumber (number_of_string (take n s)), drop n s)
      | None => Throw syntax_error
      end
  end.

Definition json_text (s : str) : result exn (str * str) :=
  match s with
  | c :: r => if (c =? dquote)%N then
                match json_chars r with Some x => Ok x | None => Throw syntax_error end
              else Throw syntax_error
  | [] => Throw syntax_error
  end.

(** A value, the elements of an array and the members of an object, each with the
    text after it.  Every second step consumes a character. *)
Fixpoint json_value (fuel : nat) (s : str) : result exn (jsval * str) :=
  match fuel with
  | O => Throw OutOfFuel
  | S f =>
      match skip_space s with
      | c :: r =>
          if (c =? dquote)%N then '(text, rest) ← json_text (c :: r); Ok (VString text, rest)
          else if (c =? 91)%N then
            match skip_space r with
            | d :: rest => if (d =? 93)%N then Ok (VArray [], rest) else json_elements f r []
            | [] => Throw syntax_error
            end
          else if (c =? 123)%N then
            match skip_space r with
            | d :: rest => if (d =? 125)%N then Ok (VObject [], rest) else json_members f r []
            | [] => Throw syntax_error
            end
          else json_atom (c :: r)
      | [] => Throw syntax_error
      end
  end
with json_elements (fuel : nat) (s : str) (items : list jsval) : result exn (jsval * str) :=
  match fuel with
  | O => Throw OutOfFuel
  | S f =>
      '(v, r) ← json_value f s;
      match skip_space r with
      | c :: r' => if (c =? 44)%N then json_elements f r' (items ++ [v])
                   else if (c =? 93)%N then Ok (VArray (items ++ [v]), r')
                   else Throw syntax_error
      | [] => Throw syntax_error
      end
  end
with json_members (fuel : nat) (s : str) (entries : list (str * jsval)) : result exn (jsval * str) :=
  match fuel with
  | O => Throw OutOfFuel
  | S f =>
      '(key, r) ← json_text (skip_space s);
      match skip_space r with
      | c :: r1 =>
          if (c =? 58)%N then
            '(v, r2) ← json_value f r1;
            match skip_space r2 with
            | d :: r' => if (d =? 44)%N then json_members f r' (obj_set key v entries)
                         else if (d =? 125)%N then Ok (VObject (obj_set key v entries), r')
                         else Throw syntax_error
            | [] => Throw syntax_error
            end
          else Throw syntax_error
      | [] => Throw syntax_error
      end
  end.

Definition JSON_parse (s : str) : result exn jsval :=
  '(v, rest) ← json_value (2 * length s + 2) s;
  match skip_space rest with [] => Ok v | _ => Throw syntax_error end.

(** [JSON.stringify] of data: undefined entries are left out, numbers that are not finite
    become null. *)
Fixpoint JSON_stringify_value (v : jsval) : str :=
  match v with
  | VUndefined | VNull => js "null"
  | VBool b => if b then js "true" else js "false"
  | VNumber n => if is_finite n then string_of_number n else js "null"
  | VString s => JSON_stringify s
  | VArray items => js "[" ++ join (js ",") (map JSON_stringify_value items) ++ js "]"
  | VObject entries =>
      js "{" ++ join (js ",")
        ((fix go entries := match entries with
          | [] => []
          | (_, VUndefined) :: rest => go rest
          | (k, x) :: rest => (JSON_stringify k ++ js ":" ++ JSON_stringify_value x) :: go rest
          end) entries) ++ js "}"
  end.

(** * Boolean(value) *)

Definition truthy (v : jsval) : bool :=
  match v with
  | VUndefined | VNull => false
  | VBool b => b
  | VNumber n => negb (n_eqb n n_zero || is_nan n)
  | VString s => negb (bool_decide (s = []))
  | VArray _ | VObject _ => true
  end.
(** [a || b] *)
Definition or_value (a b : jsval) : jsval := if truthy a then a else b.

(** [v[k]] on own properties. *)
Definition get_prop (v : jsval) (k : str) : result exn jsval :=
  match v with
  | VUndefined | VNull => Throw type_error
  | VObject entries => Ok (default VUndefined (obj_get k entries))
  | _ => Ok VUndefined
  end.

(** * String(value) *)

(** Of JSON data: an own [toString] is never callable, so converting such an
    object throws. *)
Fixpoint to_string (v : jsval) : result exn str :=
  match v with
  | VUndefined => Ok (js "undefined")
  | VNull => Ok (js "null")
  | VBool b => Ok (if b then js "true" else js "false")
  | VNumber n => Ok (string_of_number n)
  | VString s => Ok s
  | VArray items =>
      texts ← (fix go items := match items with
               | [] => Ok []
               | x :: rest =>
                   t ← (if is_nullish x then Ok [] else to_string x);
                   ts ← go rest;
                   Ok (t :: ts)
               end) items;
      Ok (join (js ",") texts)
  | VObject entries => if has_own entries (js "toString") then Throw type_error else Ok (js "[object Object]")
  end.

Example json_examples :
  map (fun s => v ← JSON_parse s; to_string v)
    [js "[1, [2.50, null], {}]"; js " -0 "; js "01"; js "{'a': 1}"; [34; 92; 117; 48; 48; 52; 49; 34]%N;
     js "[true,]"; [123; 34; 97; 34; 58; 49; 125]%N]
  = [Ok (js "1,2.5,,[object Object]"); Ok (js "0"); Throw syntax_error; Throw syntax_error; Ok (js "A");
     Throw syntax_error; Ok (js "[object Object]")].
Proof. vm_compute. reflexivity. Qed.

(** * Lemmas *)

Definition utf16 (s : str) : Prop := Forall (fun c => (c < 65536)%N) s.

Lemma hex_digit_spec v : (v < 16)%N -> is_hex (hex_digit v) = true /\ hex_value (hex_digit v) = v.
Proof.
  intros Hv. destruct v as [|p]; [done|].
  do 4 (destruct p as [p|p|]; try (split; reflexivity); try (exfalso; lia)).
Qed.

Lemma hex_digit_hex v : (v < 16)%N -> is_hex (hex_digit v) = true.
Proof. apply hex_digit_spec. Qed.
Lemma hex_digit_value v : (v < 16)%N -> hex_value (hex_digit v) = v.
Proof. apply hex_digit_spec. Qed.

Lemma parse_unicode_escape c :
  (c < 65536)%N -> parse_hex [hex_digit (c / 4096); hex_digit (c / 256 mod 16);
    hex_digit (c / 16 mod 16); hex_digit (c mod 16)] = c.
Proof.
  intros Hc. unfold parse_hex. cbn [fold_left].
  assert (c / 4096 < 16)%N by (apply N.Div0.div_lt_upper_bound; lia).
  rewrite !hex_digit_value by (done || (apply N.mod_lt; lia)).
  pose proof (N.div_mod c 16). pose proof (N.div_mod (c / 16) 16). pose proof (N.div_mod (c / 256) 16).
  rewrite N.Div0.div_div in *. change (16 * 16)%N with 256%N in *. change (256 * 16)%N with 4096%N in *. lia.
Qed.

Lemma json_chars_escape c rest :
  (c < 65536)%N ->
  json_chars (unicode_escape c ++ rest) = ('(text, r) ← json_chars rest; Some (c :: text, r)).
Proof.
  intros Hc. unfold unicode_escape. cbn [app json_chars]. cbn [N.eqb Pos.eqb dquote backslash].
  assert (c / 4096 < 16)%N by (apply N.Div0.div_lt_upper_bound; lia).
  cbn [forallb]. rewrite !hex_digit_hex by (done || (apply N.mod_lt; lia)).
  cbn [andb]. by rewrite parse_unicode_escape.
Qed.

Lemma escape_letter_back c letter rest :
  escape_letter c = Some letter ->
  json_chars (backslash :: letter :: rest) = ('(text, r) ← json_chars rest; Some (c :: text, r)).
Proof.
  unfold escape_letter. intros H. apply fmap_Some in H as ([l u] & H & ->).
  apply List.find_some in H as [Hin Hu]. simpl in Hu. breflect. subst u.
  simpl in Hin. repeat (destruct Hin as [Hin|Hin]; [injection Hin as <- <-; reflexivity|]). done.
Qed.

Lemma escape_letter_none c : escape_letter c = None -> c <> dquote /\ c <> backslash.
Proof. split; intros ->; done. Qed.

Lemma json_chars_plain c rest :
  c <> dquote -> c <> backslash -> (32 <= c)%N ->
  json_chars (c :: rest) = ('(text, r) ← json_chars rest; Some (c :: text, r)).
Proof.
  intros H1 H2 H3. cbn [json_chars]. apply N.eqb_neq in H1, H2. apply N.ltb_ge in H3.
  by rewrite H1, H2, H3.
Qed.

Lemma json_chars_unit c rest :
  (c < 65536)%N ->
  json_chars (quote_unit c ++ rest) = ('(text, r) ← json_chars rest; Some (c :: text, r)).
Proof.
  intros Hc. unfold quote_unit. destruct (escape_letter c) as [letter|] eqn:He.
  - by apply escape_letter_back.
  - apply escape_letter_none in He as [H1 H2]. destruct (N.ltb_spec c 32).
    + by apply json_chars_escape.
    + by apply json_chars_plain.
Qed.

Lemma surrogate_plain c :
  is_high_surrogate c = true \/ is_low_surrogate c = true -> c <> dquote /\ c <> backslash /\ (32 <= c)%N.
Proof.
  unfold is_high_surrogate, is_low_surrogate, in_range, dquote, backslash. intros [H|H]; breflect; lia.
Qed.

Lemma json_chars_units s rest : utf16 s -> json_chars (quote_units s ++ dquote :: rest) = Some (s, rest).
Proof.
  remember (length s) as n eqn:Hn. assert (length s <= n) as Hl by lia. clear Hn. revert s Hl.
  induction n as [|n IH]; intros [|c s] Hl Hu; simpl in Hl; try lia; try done.
  apply Forall_cons in Hu as [Hc Hu]. cbn [quote_units].
  destruct (is_high_surrogate c) eqn:Hh; [|destruct (is_low_surrogate c) eqn:Hlow].
  - destruct s as [|d s]; [by rewrite json_chars_escape|].
    destruct (is_low_surrogate d) eqn:Hd.
    + destruct (surrogate_plain c) as (? & ? & ?); [by left|].
      destruct (surrogate_plain d) as (? & ? & ?); [by right|].
      apply Forall_cons in Hu as [_ Hu]. simpl in Hl. cbn [app].
      rewrite json_chars_plain, json_chars_plain by done. rewrite IH by (lia || done). done.
    + rewrite <- (assoc_L (++)), json_chars_escape by done. rewrite IH by (simpl in *; lia || done). done.
  - rewrite <- (assoc_L (++)), json_chars_escape by done. rewrite IH by (lia || done). done.
  - rewrite <- (assoc_L (++)), json_chars_unit by done. rewrite IH by (lia || done). done.
Qed.

(** [JSON.parse(JSON.stringify(s)) === s] *)
Lemma json_round_trip s : utf16 s -> JSON_parse (JSON_stringify s) = Ok (VString s).
Proof.
  intros Hs. unfold JSON_parse, JSON_stringify.
  replace (2 * length _ + 2) with (S (2 * length (dquote :: quote_units s ++ [dquote]) + 1)) by lia.
  cbn [json_value]. cbn. rewrite json_chars_units by done. done.
Qed.

(** The fuel of [JSON_parse] is never exhausted. *)
Definition consumes {A} (o : result exn (A * str)) (s : str) : Prop :=
  match o with Ok (_, r) => length r < length s | Throw e => e <> OutOfFuel end.

Lemma skip_space_length s : length (skip_space s) <= length s.
Proof. apply drop_while_length. Qed.

Lemma json_chars_length s text r : json_chars s = Some (text, r) -> length r < length s.
Proof.
  remember (length s) as n eqn:Hn. assert (length s <= n) as Hl by lia. clear Hn.
  revert s text r Hl. induction n as [|n IH]; intros [|c s] text r Hl; simpl in Hl; try lia; try done.
  cbn [json_chars]. repeat case_match; simplify_eq; try done; intros H';
    repeat first [apply bind_Some in H' as ([? ?] & ? & H') | apply bind_Some in H' as (? & ? & H')];
    simplify_eq; simpl in *; try lia;
    match goal with E : json_chars _ = Some _ |- _ => apply IH in E; simpl in *; lia end.
Qed.

Lemma json_text_consumes s : consumes (json_text s) s.
Proof.
  destruct s as [|c s]; simpl; [done|]. repeat case_match; try done.
  destruct p as [text r]. apply json_chars_length in H0. simpl. lia.
Qed.

Lemma json_number_pos s n : json_number s = Some n -> 0 < n.
Proof.
  unfold json_number. destruct (match s with [] => _ | _ => _ end) as [sign r].
  destruct (take_while is_digit r); [done|]. intros [= <-]. destruct (_ =? 48)%N; simpl; lia.
Qed.

Lemma json_atom_consumes c s : consumes (json_atom (c :: s)) (c :: s).
Proof.
  unfold json_atom. destruct (List.find _ json_keywords) as [[text v]|] eqn:Hf.
  - apply List.find_some in Hf as [Hin _]. unfold consumes. rewrite length_drop. simpl length at 2 3.
    simpl in Hin. repeat (destruct Hin as [Hin|Hin]; [injection Hin as <- <-; simpl; lia|]). done.
  - destruct (json_number (c :: s)) as [n|] eqn:Hn; [|done].
    apply json_number_pos in Hn. unfold consumes. rewrite length_drop. simpl. lia.
Qed.

Lemma consumes_skip {A} (o : result exn (A * str)) s : consumes o (skip_space s) -> consumes o s.
Proof.
  unfold consumes. pose proof (skip_space_length s). destruct o as [[? r]|e]; [lia | done].
Qed.

Lemma consumes_le {A} (o : result exn (A * str)) s s' :
  length s <= length s' -> consumes o s -> consumes o s'.
Proof. unfold consumes. destruct o as [[? r]|e]; [lia | done]. Qed.

Lemma json_fuel f :
  (forall s, 2 * length s < f -> consumes (json_value f s) s) /\
  (forall s items, 2 * length s + 1 < f -> consumes (json_elements f s items) s) /\
  (forall s entries, 2 * length s + 1 < f -> consumes (json_members f s entries) s).
Proof.
  induction f as [|f (IHv & IHe & IHm)]; [repeat split; intros; lia|]. repeat split.
  - intros s Hf. apply consumes_skip. pose proof (skip_space_length s) as Hl. cbn [json_value].
    destruct (skip_space s) as [|c r]; [done|]. simpl in Hl. pose proof (skip_space_length r) as Hr.
    destruct (c =? dquote)%N eqn:Hq.
    { pose proof (json_text_consumes (c :: r)) as Ht. destruct (json_text (c :: r)) as [[text rest]|e]; done. }
    destruct (c =? 91)%N.
    { destruct (skip_space r) as [|d rest]; [done|]. simpl in Hr. destruct (d =? 93)%N; [simpl; lia|].
      apply (consumes_le _ r); [simpl; lia|]. apply IHe. lia. }
    destruct (c =? 123)%N.
    { destruct (skip_space r) as [|d rest]; [done|]. simpl in Hr. destruct (d =? 125)%N; [simpl; lia|].
      apply (consumes_le _ r); [simpl; lia|]. apply IHm. lia. }
    apply json_atom_consumes.
  - intros s items Hf. cbn [json_elements]. specialize (IHv s ltac:(lia)).
    destruct (json_value f s) as [[v r]|e]; [|done]. simpl in *. pose proof (skip_space_length r) as Hr.
    destruct (skip_space r) as [|c r']; [done|]. simpl in Hr.
    destruct (c =? 44)%N; [|destruct (c =? 93)%N; [simpl; lia | done]].
    apply (consumes_le _ r'); [lia|]. apply IHe. lia.
  - intros s entries Hf. cbn [json_members]. pose proof (skip_space_length s) as Hs.
    pose proof (json_text_consumes (skip_space s)) as Ht.
    destruct (json_text (skip_space s)) as [[key r]|e]; [|done]. simpl in *.
    pose proof (skip_space_length r) as Hr. destruct (skip_space r) as [|c r1]; [done|]. simpl in Hr.
    destruct (c =? 58)%N; [|done]. specialize (IHv r1 ltac:(lia)).
    destruct (json_value f r1) as [[v r2]|e]; [|done]. simpl in *. pose proof (skip_space_length r2) as Hr2.
    destruct (skip_space r2) as [|d r']; [done|]. simpl in Hr2.
    destruct (d =? 44)%N; [|destruct (d =? 125)%N; [simpl; lia | done]].
    apply (consumes_le _ r'); [lia|]. apply IHm. lia.
Qed.

Lemma JSON_parse_fuel s : JSON_parse s <> Throw OutOfFuel.
Proof.
  unfold JSON_parse. pose proof (proj1 (json_fuel (2 * length s + 2)) s ltac:(lia)) as H.
  destruct (json_value _ s) as [[v r]|e]; simpl in *; [by destruct (skip_space r) | congruence].
Qed.

(** * Printing with a gap *)

(** [JSON.stringify(v, null, n)], [gap] the [n] spaces of a level: a new line and the
    indentation before each entry; without a gap the text on one line. *)
Definition json_break (gap indent : str) : str := match gap with [] => [] | _ => newline :: indent end.
Definition json_colon (gap : str) : str := match gap with [] => js ":" | _ => js ": " end.
Definition json_enclose (gap indent open close : str) (entries : list str) : str :=
  match entries with
  | [] => open ++ close
  | _ => open ++ json_break gap (indent ++ gap) ++ join (js "," ++ json_break gap (indent ++ gap)) entries ++
         json_break gap indent ++ close
  end.

Fixpoint JSON_print (gap indent : str) (v : jsval) : str :=
  match v with
  | VArray items => json_enclose gap indent (js "[") (js "]") (map (JSON_print gap (indent ++ gap)) items)
  | VObject entries =>
      json_enclose gap indent (js "{") (js "}")
        ((fix go entries := match entries with
          | [] => []
          | (_, VUndefined) :: rest => go rest
          | (k, x) :: rest => (JSON_stringify k ++ json_colon gap ++ JSON_print gap (indent ++ gap) x) :: go rest
          end) entries)
  | _ => JSON_stringify_value v
  end.
Definition JSON_stringify_indented (v : jsval) : str := JSON_print (js "  ") [] v.

(** ** Reading printed values back *)

(** Data without numbers whose objects have distinct keys. *)
Fixpoint textual (v : jsval) : Prop :=
  match v with
  | VUndefined | VNumber _ => False
  | VNull | VBool _ => True
  | VString s => utf16 s
  | VArray items => (fix go l := match l with [] => True | x :: l' => textual x /\ go l' end) items
  | VObject entries =>
      NoDup (map fst entries) /\
      (fix go l := match l with [] => True | (k, x) :: l' => (utf16 k /\ textual x) /\ go l' end) entries
  end.

Lemma textual_array items : textual (VArray items) <-> Forall textual items.
Proof. cbn. induction items as [|x l IH]; [by split|]. by rewrite Forall_cons, IH. Qed.
Lemma textual_object entries :
  textual (VObject entries) <-> NoDup (map fst entries) /\ Forall (fun e => utf16 e.1 /\ textual e.2) entries.
Proof.
  cbn [textual]. apply and_iff_compat_l. induction entries as [|[k x] l IH]; [by split|]. by rewrite Forall_cons, IH.
Qed.

Definition print_entry (gap indent : str) (e : str * jsval) : str :=
  JSON_stringify e.1 ++ json_colon gap ++ JSON_print gap indent e.2.

Lemma print_object gap indent entries : textual (VObject entries) ->
  JSON_print gap indent (VObject entries) = json_enclose gap indent (js "{") (js "}") (map (print_entry gap (indent ++ gap)) entries).
Proof.
  intros [_ H]%textual_object. cbn [JSON_print]. f_equal. induction H as [|[k x] l [_ Hx] _ IH]; [done|]. cbn [map]. rewrite <- IH.
  by destruct x.
Qed.

Section reading.
Variable gap : str.
Hypothesis gap_space : Forall (fun c => is_json_space c = true) gap.

Definition spaces (s : str) : Prop := Forall (fun c => is_json_space c = true) s.

Lemma skip_spaces w s : spaces w -> skip_space (w ++ s) = skip_space s.
Proof. unfold skip_space. induction 1 as [|c w Hc _ IH]; [done|]. cbn. by rewrite Hc. Qed.

Lemma break_spaces indent : spaces indent -> spaces (json_break gap indent).
Proof. intros H. unfold json_break. destruct gap; [constructor|]. by constructor. Qed.

Ltac head_known := eexists _, _; split; [reflexivity|split; [reflexivity|by split]].

(** The first character of a printed value. *)
Lemma print_head indent v : textual v -> exists c r, JSON_print gap indent v = c :: r /\ is_json_space c = false /\ c <> 93%N /\ c <> 125%N.
Proof.
  destruct v as [| |[]| |s|items|entries]; cbn [textual]; try done; intros H; try head_known.
  - cbn [JSON_print]. unfold json_enclose. set (texts := map _ items); destruct texts; head_known.
  - rewrite print_object by done. unfold json_enclose. set (texts := map (print_entry _ _) entries); destruct texts; head_known.
Qed.

Lemma quote_reads k rest : utf16 k -> json_text (JSON_stringify k ++ rest) = Ok (k, rest).
Proof.
  intros H. unfold JSON_stringify. cbn [app json_text]. rewrite N.eqb_refl, <- app_assoc. cbn [app]. by rewrite json_chars_units.
Qed.

Lemma quote_head k : exists r, JSON_stringify k = dquote :: r.
Proof. by eexists. Qed.

(** What is read back: the value, with any text after it. *)
Definition reads (v : jsval) : Prop := forall indent w rest f, spaces indent -> spaces w ->
  2 * length (JSON_print gap indent v) <= f -> json_value f (w ++ JSON_print gap indent v ++ rest) = Ok (v, rest).

Lemma value_skips f w s : spaces w -> json_value f (w ++ s) = json_value f s.
Proof. intros H. destruct f; [done|]. cbn [json_value]. by rewrite skip_spaces. Qed.

Lemma json_separator (c : N) rest : is_json_space c = false -> skip_space (c :: rest) = c :: rest.
Proof. intros H. unfold skip_space. cbn. by rewrite H. Qed.

Definition list_text (indent : str) (texts : list str) : str := join (js "," ++ json_break gap indent) texts.

Lemma list_text_cons indent t u texts : list_text indent (t :: u :: texts) = t ++ 44%N :: json_break gap indent ++ list_text indent (u :: texts).
Proof. done. Qed.

Lemma elements_read items indent w close rest f acc : spaces indent -> spaces w -> spaces close -> items <> [] -> Forall reads items ->
  2 * length (list_text indent (map (JSON_print gap indent) items)) + 1 <= f ->
  json_elements f (w ++ list_text indent (map (JSON_print gap indent) items) ++ close ++ 93%N :: rest) acc =
  Ok (VArray (acc ++ items), rest).
Proof.
  intros Hi Hw Hc Hne Hr. revert w f acc Hw Hne. induction Hr as [|x items Hx Hr IH]; [done|]. intros w f acc Hw _ Hf.
  destruct f as [|f]; [lia|]. destruct items as [|y items]; cbn [map] in *.
  - change (list_text indent [?t]) with t in *. cbn [json_elements]. rewrite Hx by (done || lia). cbn [mbind result_bind].
    by rewrite skip_spaces, json_separator by done.
  - rewrite list_text_cons in *. rewrite !length_app in Hf. cbn [length] in Hf. rewrite length_app in Hf. cbn [json_elements].
    rewrite <- app_assoc. rewrite Hx by (done || lia). cbn [mbind result_bind app]. rewrite json_separator by done. cbn [N.eqb Pos.eqb].
    rewrite <- app_assoc, (IH (json_break gap indent) f (acc ++ [x])); [by rewrite <- app_assoc|by apply break_spaces|done|lia].
Qed.

Definition reads_entry (e : str * jsval) : Prop := utf16 e.1 /\ reads e.2.

Lemma colon_reads x indent rest f : spaces indent -> reads x -> 2 * length (JSON_print gap indent x) <= f ->
  exists r, json_colon gap ++ JSON_print gap indent x ++ rest = 58%N :: r /\ json_value f r = Ok (x, rest).
Proof.
  intros Hi Hx Hf. unfold json_colon. destruct gap eqn:E.
  - exists (JSON_print [] indent x ++ rest). split; [done|]. rewrite <- E in *. apply (Hx indent [] rest f); [done|constructor|done].
  - exists (js " " ++ JSON_print (n :: l) indent x ++ rest). split; [done|]. rewrite <- E in *. apply (Hx indent (js " ") rest f); [done|by repeat constructor|done].
Qed.

Lemma member_read k x indent w tail f acc : spaces indent -> spaces w -> utf16 k -> reads x ->
  2 * length (print_entry gap indent (k, x)) <= f ->
  json_members (S f) (w ++ print_entry gap indent (k, x) ++ tail) acc =
  match skip_space tail with
  | d :: r => if (d =? 44)%N then json_members f r (obj_set k x acc)
              else if (d =? 125)%N then Ok (VObject (obj_set k x acc), r) else Throw syntax_error
  | [] => Throw syntax_error
  end.
Proof.
  intros Hi Hw Hk Hx Hf. unfold print_entry in *. cbn [fst snd] in *. rewrite !length_app in Hf. cbn [json_members].
  rewrite skip_spaces by done. destruct (quote_head k) as [r0 E0]. rewrite <- !app_assoc.
  rewrite E0 at 1. cbn [app]. rewrite json_separator by done. change (dquote :: r0 ++ ?r) with ((dquote :: r0) ++ r). rewrite <- E0.
  rewrite quote_reads by done. cbn [mbind result_bind].
  destruct (colon_reads x indent tail f Hi Hx) as (r & Er & Ev); [lia|]. rewrite Er, json_separator by done.
  cbn [N.eqb Pos.eqb]. by rewrite Ev.
Qed.

Lemma members_read entries indent w close rest f acc : spaces indent -> spaces w -> spaces close -> entries <> [] ->
  Forall reads_entry entries -> NoDup (map fst (acc ++ entries)) ->
  2 * length (list_text indent (map (print_entry gap indent) entries)) + 1 <= f ->
  json_members f (w ++ list_text indent (map (print_entry gap indent) entries) ++ close ++ 125%N :: rest) acc =
  Ok (VObject (acc ++ entries), rest).
Proof.
  intros Hi Hw Hc Hne Hr. revert w f acc Hw Hne. induction Hr as [|[k x] entries [Hk Hx] Hr IH]; [done|]. intros w f acc Hw _ Hn Hf.
  cbn [fst snd] in Hk, Hx. destruct f as [|f]; [lia|].
  assert (k ∉ map fst acc) as Hfresh.
  { rewrite map_app in Hn. apply NoDup_app in Hn as (_ & Hn & _). intros H. apply (Hn k H). left. }
  destruct entries as [|e entries]; cbn [map] in *.
  - change (list_text indent [?t]) with t in *. rewrite member_read by (done || lia). rewrite skip_spaces, json_separator by done.
    cbn [N.eqb Pos.eqb]. by rewrite obj_set_fresh.
  - rewrite list_text_cons in *. rewrite !length_app in Hf. cbn [length] in Hf. rewrite length_app in Hf. rewrite <- app_assoc.
    rewrite member_read by (done || lia). cbn [app]. rewrite json_separator by done. cbn [N.eqb Pos.eqb].
    rewrite <- app_assoc, obj_set_fresh, (IH (json_break gap indent)); [by rewrite <- app_assoc|by apply break_spaces|done| |lia|done].
    by rewrite <- app_assoc.
Qed.

Lemma print_fuel indent v f : textual v -> 2 * length (JSON_print gap indent v) <= f -> exists f', f = S f'.
Proof. intros Ht Hf. destruct (print_head indent v Ht) as (c & r & E & _). rewrite E in Hf. cbn in Hf. destruct f; [lia|eauto]. Qed.

(** An opening bracket with the texts of its entries. *)
Lemma enclose_text indent open close t texts rest :
  json_enclose gap indent open close (t :: texts) ++ rest =
  open ++ json_break gap (indent ++ gap) ++ list_text (indent ++ gap) (t :: texts) ++ json_break gap indent ++ close ++ rest.
Proof. unfold json_enclose. by rewrite <- !app_assoc. Qed.

Lemma enclose_length indent (open close : N) t texts :
  length (list_text (indent ++ gap) (t :: texts)) + 2 <= length (json_enclose gap indent [open] [close] (t :: texts)).
Proof. unfold json_enclose. rewrite !length_app. cbn [length]. fold (list_text (indent ++ gap) (t :: texts)). lia. Qed.

Lemma list_text_head indent t texts : exists r, list_text indent (t :: texts) = t ++ r.
Proof. destruct texts; [exists []; by rewrite app_nil_r|]. eexists. apply list_text_cons. Qed.

Lemma values_read v : textual v -> reads v.
Proof.
  induction v as [| |b|n|s|items IH|entries IH] using jsval_ind'; try done; intros Ht indent w rest f Hi Hw Hf;
    rewrite value_skips by done; destruct (print_fuel indent _ f Ht Hf) as [f' ->]; rename f' into f.
  - done.
  - by destruct b.
  - cbn [JSON_print JSON_stringify_value]. destruct (quote_head s) as [r E].
    pose proof (quote_reads s rest Ht) as Hq. rewrite E in *. cbn [app] in *. cbn [json_value]. rewrite json_separator by done.
    rewrite N.eqb_refl, Hq. done.
  - apply textual_array in Ht. cbn [JSON_print] in *. destruct items as [|x items]; [done|].
    assert (Forall reads (x :: items)) as Hr.
    { rewrite Forall_forall in IH, Ht |- *. intros y Hy. by apply IH, Ht. }
    assert (spaces (indent ++ gap)) as Hg by by apply Forall_app.
    cbn [map] in *. pose proof (enclose_length indent 91 93 (JSON_print gap (indent ++ gap) x) (map (JSON_print gap (indent ++ gap)) items)) as Hl.
    change [91%N] with (js "[") in Hl. change [93%N] with (js "]") in Hl. rewrite enclose_text.
    change (js "[" ++ ?r) with (91%N :: r). cbn [json_value]. rewrite json_separator by done. cbn [N.eqb Pos.eqb dquote].
    rewrite skip_spaces by by apply break_spaces.
    destruct (print_head (indent ++ gap) x) as (c & r & Ec & Hs & Hb & _); [by apply Forall_cons in Ht as [? _]|].
    destruct (list_text_head (indent ++ gap) (JSON_print gap (indent ++ gap) x) (map (JSON_print gap (indent ++ gap)) items)) as [r' Er].
    rewrite Er at 1. rewrite Ec at 1. cbn [app]. rewrite json_separator by done. rewrite (proj2 (N.eqb_neq c 93)) by done.
    apply (elements_read (x :: items) (indent ++ gap) (json_break gap (indent ++ gap)) (json_break gap indent) rest f []); try done.
    + by apply break_spaces.
    + by apply break_spaces.
    + cbn [map]. lia.
  - rewrite print_object in * by done. apply textual_object in Ht as [Hn Ht]. destruct entries as [|e entries]; [done|].
    assert (Forall reads_entry (e :: entries)) as Hr.
    { rewrite Forall_forall in IH, Ht |- *. intros y Hy. destruct (Ht y Hy) as [? ?]. split; [done|]. by apply IH. }
    assert (spaces (indent ++ gap)) as Hg by by apply Forall_app.
    cbn [map] in *. pose proof (enclose_length indent 123 125 (print_entry gap (indent ++ gap) e) (map (print_entry gap (indent ++ gap)) entries)) as Hl.
    change [123%N] with (js "{") in Hl. change [125%N] with (js "}") in Hl. rewrite enclose_text.
    change (js "{" ++ ?r) with (123%N :: r). cbn [json_value]. rewrite json_separator by done. cbn [N.eqb Pos.eqb dquote].
    rewrite skip_spaces by by apply break_spaces.
    destruct (quote_head e.1) as [r Ec].
    destruct (list_text_head (indent ++ gap) (print_entry gap (indent ++ gap) e) (map (print_entry gap (indent ++ gap)) entries)) as [r' Er].
    rewrite Er at 1. unfold print_entry at 1. rewrite Ec at 1. cbn [app]. rewrite json_separator by done. cbn [N.eqb Pos.eqb dquote].
    apply (members_read (e :: entries) (indent ++ gap) (json_break gap (indent ++ gap)) (json_break gap indent) rest f []); try done.
    + by apply break_spaces.
    + by apply break_spaces.
    + cbn [map]. lia.
Qed.

Lemma print_round_trip v : textual v -> JSON_parse (JSON_print gap [] v) = Ok v.
Proof.
  intros Ht. unfold JSON_parse. pose proof (values_read v Ht [] [] [] (2 * length (JSON_print gap [] v) + 2)) as H. cbn [app] in H.
  rewrite app_nil_r in H. rewrite H by (constructor || lia). done.
Qed.
End reading.

Lemma indented_round_trip v : textual v -> JSON_parse (JSON_stringify_indented v) = Ok v.
Proof. intros Ht. apply print_round_trip; [|done]. by repeat constructor. Qed.

(** Without a gap the printer is [JSON.stringify(v)]. *)
Lemma print_compact indent v : JSON_print [] indent v = JSON_stringify_value v.
Proof.
  revert indent. induction v as [| |b|n|s|items IH|entries IH] using jsval_ind'; intros indent; try done.
  - cbn [JSON_print JSON_stringify_value]. rewrite app_nil_r.
    assert (map (JSON_print [] indent) items = map JSON_stringify_value items) as ->.
    { apply map_ext_in. intros x Hx. rewrite Forall_forall in IH. by apply IH, list_elem_of_In. }
    unfold json_enclose. cbn [json_break app]. by destruct (map JSON_stringify_value items).
  - cbn [JSON_print JSON_stringify_value]. rewrite app_nil_r. cbn [json_colon].
    match goal with |- json_enclose _ _ _ _ (?g entries) = _ => set (go := g) end.
    match goal with |- _ = js "{" ++ join _ (?g entries) ++ _ => set (go' := g) end.
    assert (go entries = go' entries) as ->.
    { clear -IH. induction IH as [|[k x] l Hx _ IHl]; [done|]. cbn [snd] in Hx. cbn [go go']. fold go go'. rewrite IHl, (Hx indent). by destruct x. }
    unfold json_enclose. cbn [json_break app]. by destruct (go' entries).
Qed.

Lemma stringify_round_trip v : textual v -> JSON_parse (JSON_stringify_value v) = Ok v.
Proof. intros Ht. rewrite <- (print_compact [] v). apply print_round_trip; [constructor|done]. Qed.
