(* ===== verification/BillingPrinting.v ===== *)
(** Text that parses: which trees the writers of billing expressions produce.  A text
    [prints] a tree when, wherever it stands in a source, the lexer reads it as tokens
    the grammar derives the tree from, up to the positions of its nodes.  The writers
    are built from a few forms (numbers, quoted strings, calls, operators and
    conditionals), and a source made of them compiles. *)

From S2P Require Import Prelude JsString JsNumber JsValue BillingTypes BillingParser BillingParserFacts BillingGrammar BillingCompile BillingTyping BillingCompileFacts BillingDisplay JsJson.

(** * Trees without positions *)

Fixpoint erase (n : node) : node :=
  match n with
  | NLiteral v i _ _ => NLiteral v i 0 0
  | NVariable v _ _ => NVariable v 0 0
  | NCall f args _ _ => NCall f (map erase args) 0 0
  | NUnary o x _ _ => NUnary o (erase x) 0 0
  | NBinary o x y _ _ => NBinary o (erase x) (erase y) 0 0
  | NConditional c y n _ _ => NConditional (erase c) (erase y) (erase n) 0 0
  end.

(** Node constructors without positions. *)
Definition num (x : number) (integer : bool) : node := NLiteral (LNumber x) integer 0 0.
Definition text (s : str) : node := NLiteral (LString s) false 0 0.
Definition call (f : billing_function) (args : list node) : node := NCall f args 0 0.
Definition bin (o : binary_operator) (x y : node) : node := NBinary o x y 0 0.
Definition ite (c y n : node) : node := NConditional c y n 0 0.

(** * Lexing a part of a source *)

(** The tokens between two cursors. *)
Inductive lexes_to (source : str) : nat -> list lexeme -> nat -> Prop :=
| lexes_to_nil c : lexes_to source c [] c
| lexes_to_cons c t c1 ts c' :
    next source c = Ok (t, c1) -> lx_kind t <> K_end -> lexes_to source c1 ts c' ->
    lexes_to source c (t :: ts) c'.

Lemma lexes_to_app source c ts c1 ts' c2 :
  lexes_to source c ts c1 -> lexes_to source c1 ts' c2 -> lexes_to source c (ts ++ ts') c2.
Proof. induction 1; intros; cbn [app]; [done|]. econstructor; eauto. Qed.

(** A space before a token is skipped. *)
Lemma next_space source c : source !! c = Some 32%N -> next source c = next source (S c).
Proof.
  intros H. unfold next.
  assert (drop c source = 32%N :: drop (S c) source) as -> by (by apply drop_S).
  cbn [take_while length]. change (is_space 32) with true. cbv match. cbn [length].
  by rewrite Nat.add_succ_r, Nat.add_succ_l.
Qed.

(** Reading one token whose text is the next part of the source. *)
Definition lexes_as (kind : lex_kind) (s : str) (post : str) : Prop :=
  forall pre, next (pre ++ s ++ post) (length pre) =
    Ok (Lexeme kind s (length pre) (length pre + length s), length pre + length s).

Lemma drop_pre (pre s : str) : drop (length pre) (pre ++ s) = s.
Proof. by rewrite drop_app_length. Qed.

(** What may follow a printed expression: the end, a space, a closing parenthesis or
    a comma. *)
Definition delimiter (c : N) : bool := (c =? 32)%N || (c =? 41)%N || (c =? 44)%N.
Definition ended (post : str) : Prop := match post with [] => True | c :: _ => delimiter c = true end.

Lemma delimiter_cases c : delimiter c = true -> c = 32%N \/ c = 41%N \/ c = 44%N.
Proof. unfold delimiter. rewrite !orb_true_iff, !N.eqb_eq. tauto. Qed.

Lemma ended_while (p : N -> bool) s post :
  p 32%N = false -> p 41%N = false -> p 44%N = false -> ended post ->
  take_while p (s ++ post) = take_while p s /\ drop_while p (s ++ post) = drop_while p s ++ post.
Proof.
  intros H1 H2 H3 He. induction s as [|c s IH]; cbn [app take_while drop_while].
  - destruct post as [|c post]; [done|]. cbn [take_while drop_while].
    by destruct (delimiter_cases c He) as [-> |[-> | ->]]; rewrite ?H1, ?H2, ?H3.
  - destruct (p c); [|done]. destruct IH as [-> ->]. done.
Qed.

Lemma digits_ended s post : ended post ->
  take_while is_digit (s ++ post) = take_while is_digit s /\
  drop_while is_digit (s ++ post) = drop_while is_digit s ++ post.
Proof. by apply ended_while. Qed.

Lemma match_exponent_ended s post : ended post -> match_exponent (s ++ post) = match_exponent s.
Proof.
  intros He. destruct s as [|c s]; cbn [app].
  - destruct post as [|c post]; [done|]. by destruct (delimiter_cases c He) as [-> |[-> | ->]].
  - unfold match_exponent. destruct (_ || _)%N; [|done]. destruct s as [|g s]; cbn [app].
    + destruct post as [|c' post]; [done|]. by destruct (delimiter_cases c' He) as [-> |[-> | ->]].
    + destruct ((g =? 43) || (g =? 45))%N.
      * by rewrite (proj1 (digits_ended s post He)).
      * change (g :: s ++ post) with ((g :: s) ++ post). by rewrite (proj1 (digits_ended (g :: s) post He)).
Qed.

Lemma match_number_ended s post : ended post -> match_number (s ++ post) = match_number s.
Proof.
  intros He. unfold match_number. destruct (digits_ended s post He) as [-> ->].
  destruct (drop_while is_digit s) as [|c r]; cbn [app].
  - destruct post as [|c post]; [done|]. destruct (delimiter_cases c He) as [-> |[-> | ->]];
      destruct (bool_decide _); try done; cbn [N.eqb Pos.eqb match_exponent orb]; by rewrite Nat.add_0_r.
  - destruct (digits_ended r post He) as [-> ->]. rewrite match_exponent_ended by done.
    change (c :: r ++ post) with ((c :: r) ++ post). by rewrite match_exponent_ended.
Qed.

(** ** Numbers *)

(** The text of a number is read back as that number: what ECMA-262 promises of
    [String(x)], except for integers beyond the range the lexer accepts. *)
Definition number_integer (s : str) : bool := negb (existsb (fun c => (c =? 46) || (c =? 101) || (c =? 69))%N s).
Definition number_prints (x : number) : bool :=
  let s := string_of_number x in
  bool_decide (match_number s = Some (length s)) && bool_decide (number_of_literal s = x) && is_finite x &&
  negb (number_integer s && negb (is_safe_integer x)).

Lemma match_number_head s n : match_number s = Some n ->
  match s with c :: _ => is_space c = false | [] => False end.
Proof.
  unfold match_number. destruct s as [|c s]; cbn [take_while drop_while]; [done|].
  destruct (is_digit c) eqn:Hd; [intros _; by apply digit_not_space|]. cbn [length].
  change (bool_decide (0 = 0)) with true. cbv match. destruct (N.eqb_spec c 46) as [->|]; done.
Qed.

(** A token that is not preceded by a space starts at the cursor. *)
Lemma next_start (pre s : str) :
  match s with c :: _ => is_space c = false | [] => True end ->
  length pre + length (take_while is_space (drop (length pre) (pre ++ s))) = length pre.
Proof. intros H. rewrite drop_pre. destruct s as [|c s]; cbn [take_while length]; [lia|]. rewrite H. cbn. lia. Qed.

Lemma lexes_number x post :
  number_prints x = true -> ended post ->
  lexes_as (K_number x (number_integer (string_of_number x))) (string_of_number x) post.
Proof.
  unfold number_prints, lexes_as. set (s := string_of_number x). intros H He pre. breflect.
  rename H into Hm, H2 into Hv, H1 into Hf, H0 into Hi.
  pose proof (match_number_head _ _ Hm) as Hhead. unfold next. rewrite next_start by (by destruct s).
  rewrite drop_pre. assert (match_number (s ++ post) = Some (length s)) as Hs by (by rewrite match_number_ended).
  destruct s as [|c s'] eqn:Es; [done|]. cbn [app]. change (c :: s' ++ post) with ((c :: s') ++ post).
  rewrite <- Es in *. rewrite Hs, take_app_length, Hv, Hf. cbn [negb].
  fold (number_integer s). by rewrite Hi.
Qed.

(** ** Strings *)

Lemma drop_head (source : str) cursor c r : drop cursor source = c :: r -> source !! cursor = Some c /\ drop (S cursor) source = r.
Proof.
  intros H. split.
  - by rewrite <- (Nat.add_0_r cursor), <- lookup_drop, H.
  - replace (S cursor) with (cursor + 1) by lia. by rewrite <- drop_drop, H.
Qed.

Lemma json_escape_value e u : escaped_unit e = Some u -> escape_value e = Some u.
Proof.
  unfold escaped_unit, json_escapes. destruct (N.eqb_spec e 47) as [->|]; [done|]. cbn [List.find fst snd].
  repeat match goal with |- context [(?a =? e)%N] => destruct (N.eqb_spec a e) as [<-|]; [by intros [= <-]|] end. done.
Qed.

(** The lexer reads a JSON string as its value. *)
Lemma read_json source start fuel : forall cursor value s rest,
  json_chars (drop cursor source) = Some (s, rest) -> length source - cursor < fuel ->
  read_string source dquote start fuel cursor value = Ok (value ++ s, length source - length rest).
Proof.
  induction fuel as [|f IH]; intros cursor value s rest Hj Hf; [lia|]. cbn [read_string].
  destruct (drop cursor source) as [|c r] eqn:Hd; [done|].
  pose proof (f_equal length Hd) as Hlen. rewrite length_drop in Hlen. cbn [length] in Hlen.
  apply drop_head in Hd as [-> Hd]. cbn [json_chars] in Hj. cbv zeta.
  destruct (N.eqb_spec c dquote) as [->|Hq].
  { injection Hj as <- <-. rewrite app_nil_r. do 2 f_equal. lia. }
  destruct (N.eqb_spec c backslash) as [->|Hb].
  - change ((backslash =? newline) || (backslash =? carriage_return))%N with false. cbn [negb].
    destruct r as [|e r']; [done|]. apply drop_head in Hd as [He Hd]. rewrite He. cbn [length] in Hlen.
    destruct (N.eqb_spec e 117) as [->|Hu].
    + destruct r' as [|h1 [|h2 [|h3 [|h4 r'']]]]; try done. destruct (forallb is_hex [h1; h2; h3; h4]) eqn:Hh; [|done].
      destruct (json_chars r'') as [[t rest']|] eqn:Hr; [|done]. injection Hj as <- <-.
      change (Some 117%N ≫= escape_value) with (@None N). cbv match.
      change (bool_decide (Some 117%N = Some 117%N)) with true. cbn [orb].
      assert (slice source (S (S cursor)) (S (S cursor) + 4) = [h1; h2; h3; h4]) as Hs.
      { unfold slice. rewrite Hd. by replace (S (S cursor) + 4 - S (S cursor)) with 4 by lia. }
      rewrite Hs, Hh. change (bool_decide (length [h1; h2; h3; h4] = 4)) with true. cbn [negb orb].
      rewrite (IH _ _ t rest'); [by rewrite <- app_assoc | | lia].
      rewrite <- drop_drop, Hd. done.
    + destruct (escaped_unit e) as [u|] eqn:Hesc; [|done]. cbn [mbind option_bind] in Hj |- *.
      destruct (json_chars r') as [[t rest']|] eqn:Hr; [|done]. injection Hj as <- <-.
      rewrite (json_escape_value _ _ Hesc). rewrite (IH _ _ t rest'); [by rewrite <- app_assoc | by rewrite Hd | lia].
  - destruct (N.ltb_spec c 32) as [|Hge]; [done|]. destruct (json_chars r) as [[t rest']|] eqn:Hr; [|done].
    injection Hj as <- <-. replace ((c =? newline) || (c =? carriage_return))%N with false.
    2: { symmetry. apply orb_false_iff. split; apply N.eqb_neq; unfold newline, carriage_return; lia. }
    cbn [negb]. rewrite (IH _ _ t rest'); [by rewrite <- app_assoc | by rewrite Hd | lia].
Qed.

Lemma lexes_string s post : utf16 s -> lexes_as (K_string s) (JSON_stringify s) post.
Proof.
  intros Hs pre. unfold next. rewrite next_start by done. rewrite drop_pre.
  unfold JSON_stringify. cbn [app].
  assert (forall r, match_number (dquote :: r) = None) as -> by done. cbv match.
  change ((dquote =? dquote) || (dquote =? squote))%N with true. cbv match.
  set (source := pre ++ dquote :: (quote_units s ++ [dquote]) ++ post).
  assert (drop (S (length pre)) source = quote_units s ++ dquote :: post) as Hd.
  { unfold source. replace (S (length pre)) with (length pre + 1) by lia. rewrite <- drop_drop, drop_pre. cbn [drop].
    by rewrite <- app_assoc. }
  rewrite (read_json source (length pre) _ _ [] s post); [|by rewrite Hd, json_chars_units | lia].
  unfold mbind, result_bind. cbn [app].
  assert (length source - length post = length pre + S (length (quote_units s ++ [dquote]))) as ->.
  { unfold source. rewrite !length_app. cbn [length]. rewrite !length_app. cbn [length]. lia. }
  assert (slice source (length pre) (length pre + S (length (quote_units s ++ [dquote]))) =
          dquote :: quote_units s ++ [dquote]) as ->; [|done].
  unfold slice. rewrite Nat.add_sub' by lia. unfold source. rewrite drop_pre. cbn [take].
  by rewrite take_app_length.
Qed.

(** ** Names and symbols *)

Lemma lexes_name s post :
  match s with h :: _ => is_name_start h = true | [] => False end ->
  Forall (fun c => is_word c = true) s -> match post with [] => True | c :: _ => is_word c = false end ->
  lexes_as K_name s post.
Proof.
  intros Hh Hw Hc pre. destruct s as [|h s]; [done|]. unfold next.
  rewrite next_start by (by apply name_start_not_space). rewrite drop_pre. cbn [app].
  assert (match_number (h :: s ++ post) = None) as ->.
  { unfold match_number. cbn [take_while drop_while].
    assert (is_digit h = false) as -> by (destruct (is_digit h) eqn:E; [by rewrite digit_not_name_start in Hh|done]).
    cbn [length]. destruct (N.eqb_spec h 46) as [->|]; done. }
  assert ((h =? dquote) || (h =? squote) = false)%N as ->.
  { apply orb_false_iff. split; apply N.eqb_neq; intros ->; done. }
  rewrite Hh. change (h :: s ++ post) with ((h :: s) ++ post).
  rewrite take_while_app; [|done|done]. by rewrite take_app_length.
Qed.

(** Symbols no longer symbol starts with. *)
Definition plain_symbols : list str :=
  [js "("; js ")"; js ","; js "?"; js ":"; js "+"; js "-"; js "*"; js "/"; js "%";
   js "=="; js "!="; js "&&"; js "||"; js "<="; js ">="].

Lemma lexes_symbol s post : s ∈ plain_symbols -> lexes_as K_symbol s post.
Proof.
  intros H pre. unfold next.
  rewrite next_start by (repeat (apply elem_of_cons in H as [->|H]; [done|]); by apply not_elem_of_nil in H).
  rewrite drop_pre.
  repeat (apply elem_of_cons in H as [->|H]; [reflexivity|]). by apply not_elem_of_nil in H.
Qed.

Lemma lexes_compare s post : s ∈ [js "<"; js ">"] -> lexes_as K_symbol s (32%N :: post).
Proof.
  intros H pre. unfold next.
  rewrite next_start by (repeat (apply elem_of_cons in H as [->|H]; [done|]); by apply not_elem_of_nil in H).
  rewrite drop_pre.
  repeat (apply elem_of_cons in H as [->|H]; [reflexivity|]). by apply not_elem_of_nil in H.
Qed.

Lemma lexes_operator o post : lexes_as K_symbol (operator_text o) (32%N :: post).
Proof.
  destruct o; first [apply lexes_symbol, list_elem_of_In; vm_compute; tauto
                    | apply lexes_compare, list_elem_of_In; vm_compute; tauto].
Qed.

Lemma lexes_mark post : lexes_as K_symbol (js "?") post.
Proof. apply lexes_symbol. set_solver. Qed.
Lemma lexes_colon post : lexes_as K_symbol (js ":") post.
Proof. apply lexes_symbol. set_solver. Qed.
Lemma lexes_open post : lexes_as K_symbol (js "(") post.
Proof. apply lexes_symbol. set_solver. Qed.
Lemma lexes_close post : lexes_as K_symbol (js ")") post.
Proof. apply lexes_symbol. set_solver. Qed.
Lemma lexes_comma post : lexes_as K_symbol (js ",") post.
Proof. apply lexes_symbol. set_solver. Qed.

Lemma function_name_word f :
  match function_name f with h :: _ => is_name_start h = true | [] => False end /\
  Forall (fun c => is_word c = true) (function_name f).
Proof. destruct f as [| | | | | |t| | | | |]; try destruct t; vm_compute; split; auto 20 using List.Forall_cons, List.Forall_nil. Qed.

(** * Printing trees *)

Lemma derives_deeper :
  (forall k d ts n, derives k d ts n -> forall d', d <= d' -> derives k d' ts n) /\
  (forall d ts n, derives_primary d ts n -> forall d', d <= d' -> derives_primary d' ts n) /\
  (forall d ts args, derives_args d ts args -> forall d', d <= d' -> derives_args d' ts args).
Proof.
  apply grammar_mind; intros; try (by constructor; eauto); try (by econstructor; eauto);
    match goal with H : S _ <= ?d' |- _ => destruct d' as [|d']; [lia|] end.
  - apply D_primary. eauto with lia.
  - eapply D_binary; eauto with lia.
  - eapply D_conditional; eauto with lia.
Qed.

(** The source continues with [s] at the cursor. *)
Definition prints (s : str) (k : Z) (d : nat) (tree : node) : Prop :=
  forall source c post, drop c source = s ++ post -> ended post -> exists ts n,
    lexes_to source c ts (c + length s) /\ derives k d ts n /\ erase n = tree.

Lemma prints_weaken s k d tree k' d' :
  prints s k d tree -> (0 <= k' <= k)%Z -> d <= d' -> prints s k' d' tree.
Proof.
  intros H Hk Hd source c post Hs He. destruct (H source c post Hs He) as (ts & n & Hl & Hn & Ht).
  exists ts, n. split; [done|]. split; [|done]. eapply (proj1 derives_deeper); [|exact Hd]. by eapply derives_weaken.
Qed.

Lemma drop_advance (source a b : str) c : drop c source = a ++ b -> drop (c + length a) source = b.
Proof. intros H. by rewrite <- drop_drop, H, drop_app_length. Qed.

Lemma next_at kind s post source c :
  lexes_as kind s post -> s <> [] -> drop c source = s ++ post ->
  next source c = Ok (Lexeme kind s c (c + length s), c + length s).
Proof.
  intros Hs Hne Hd. assert (c <= length source) as Hc.
  { apply Nat.nlt_ge. intros H. rewrite drop_ge in Hd by lia. by destruct s. }
  specialize (Hs (take c source)). rewrite <- Hd, take_drop, length_take, Nat.min_l in Hs by done. done.
Qed.

(** One token, possibly after a space, then the rest. *)
Lemma lexes_to_token kind s source c post ts c' :
  lexes_as kind s post -> s <> [] -> kind <> K_end -> drop c source = s ++ post ->
  lexes_to source (c + length s) ts c' ->
  lexes_to source c (Lexeme kind s c (c + length s) :: ts) c'.
Proof. intros. econstructor; [by eapply next_at | done | done]. Qed.

Lemma lexes_to_skip source c post ts c' :
  drop c source = 32%N :: post -> ts <> [] -> lexes_to source (S c) ts c' -> lexes_to source c ts c'.
Proof.
  intros Hs Hne Hl. apply drop_head in Hs as [Hs _]. inversion Hl as [|? t c1 ts1 ? Ht Hk Hl']; subst; [done|].
  econstructor; [by rewrite next_space | done | done].
Qed.

Lemma derives_nonempty k d ts n : derives k d ts n -> ts <> [].
Proof. intros H. apply (proj1 derives_opens) in H as (t & u & -> & _). done. Qed.

Lemma prints_leaf kind s k d tree :
  (forall post, ended post -> lexes_as kind s post) -> s <> [] -> kind <> K_end ->
  (forall a b, exists n, derives_primary d [Lexeme kind s a b] n /\ erase n = tree) ->
  prints s k (S d) tree.
Proof.
  intros Hs Hne Hk Hn source c post Hd He. destruct (Hn c (c + length s)) as (n & Hp & Ht).
  exists [Lexeme kind s c (c + length s)], n. split; [|split; [by apply D_primary|done]].
  eapply lexes_to_token; [by apply Hs | done | done | done | constructor].
Qed.

Lemma prints_number x k d :
  number_prints x = true ->
  prints (string_of_number x) k (S d) (num x (number_integer (string_of_number x))).
Proof.
  intros Hx. eapply prints_leaf; [intros; by apply lexes_number | | done|].
  - intros E. unfold number_prints in Hx. by rewrite E in Hx.
  - intros a b. eexists. by split; [apply P_number|].
Qed.

Lemma variable_name_word v :
  match variable_name v with h :: _ => is_name_start h = true | [] => False end /\
  Forall (fun c => is_word c = true) (variable_name v).
Proof. destruct v; vm_compute; split; auto 20 using List.Forall_cons, List.Forall_nil. Qed.

Lemma prints_variable v k d : prints (variable_name v) k (S d) (NVariable v 0 0).
Proof.
  destruct (variable_name_word v) as [Hh Hw]. eapply (prints_leaf K_name); [| by destruct (variable_name v) | done |].
  - intros post He. apply lexes_name; [done | done|]. destruct post as [|c post]; [done|].
    by apply delimiter_cases in He as [->|[->| ->]].
  - intros a b. eexists. split; [apply P_variable; [done | by destruct v]|]. done.
Qed.

Lemma prints_string s k d : utf16 s -> prints (JSON_stringify s) k (S d) (text s).
Proof.
  intros Hs. eapply prints_leaf; [intros; by apply lexes_string | done | done|].
  intros a b. eexists. by split; [apply P_string|].
Qed.

(** A symbol between two spaces, before a printed tree. *)
Lemma lexes_to_operator s source c post ts c' :
  lexes_as K_symbol s (32%N :: post) -> s <> [] -> ts <> [] ->
  drop c source = 32%N :: s ++ 32%N :: post ->
  lexes_to source (c + length s + 2) ts c' ->
  lexes_to source c (Lexeme K_symbol s (S c) (S c + length s) :: ts) c'.
Proof.
  intros Hs Hne Hts Hd Hl. eapply lexes_to_skip; [exact Hd | done|].
  pose proof (proj2 (drop_head _ _ _ _ Hd)) as Hd1. eapply lexes_to_token; [exact Hs | done | done | exact Hd1|].
  apply drop_advance in Hd1. eapply lexes_to_skip; [exact Hd1 | done|].
  by replace (S (S c + length s)) with (c + length s + 2) by lia.
Qed.

Lemma prints_binary o l r k d L R :
  (k <= PRECEDENCE o)%Z -> prints l (PRECEDENCE o) (S d) L -> prints r (PRECEDENCE o + 1) d R ->
  prints (l ++ js " " ++ operator_text o ++ js " " ++ r) k (S d) (bin o L R).
Proof.
  intros Hk Hl Hr source c post Hd He. rewrite <- !app_assoc in Hd.
  destruct (Hl source c _ Hd) as (ts1 & n1 & Hl1 & Hn1 & <-); [done|].
  apply drop_advance in Hd. pose proof Hd as Hop. change (js " ") with [32%N] in Hd. cbn [app] in Hd.
  pose proof (proj2 (drop_head _ _ _ _ Hd)) as Hd2. apply drop_advance in Hd2.
  apply drop_head in Hd2 as [_ Hd2].
  destruct (Hr source _ _ Hd2 He) as (ts2 & n2 & Hl2 & Hn2 & <-).
  exists (ts1 ++ Lexeme K_symbol (operator_text o) (S (c + length l)) (S (c + length l) + length (operator_text o)) :: ts2).
  eexists. split; [|split; [eapply D_binary; [done | exact Hn1 | by destruct o | exact Hn2] | done]].
  eapply lexes_to_app; [exact Hl1|].
  eapply lexes_to_operator; [apply lexes_operator | by destruct o | by eapply derives_nonempty | exact Hd|].
  rewrite !length_app. change (length (js " ")) with 1.
  replace (c + (length l + (1 + (length (operator_text o) + (1 + length r))))) with
    (S (S (c + length l) + length (operator_text o)) + length r) by lia.
  by replace (c + length l + length (operator_text o) + 2) with (S (S (c + length l) + length (operator_text o))) by lia.
Qed.

Lemma prints_conditional cond yes no d C Y N :
  prints cond 1 (S d) C -> prints yes 0 d Y -> prints no 0 d N ->
  prints (cond ++ js " ? " ++ yes ++ js " : " ++ no) 0 (S d) (ite C Y N).
Proof.
  intros Hc Hy Hn source c post Hd He. rewrite <- !app_assoc in Hd.
  destruct (Hc source c _ Hd) as (ts1 & n1 & Hl1 & Hn1 & <-); [done|]. apply drop_advance in Hd.
  pose proof Hd as Hd1. change (js " ? " ++ ?x) with (32%N :: js "?" ++ 32%N :: x) in Hd1.
  apply (drop_advance _ (js " ? ")) in Hd. change (length (js " ? ")) with 3 in Hd.
  destruct (Hy source _ _ Hd) as (ts2 & n2 & Hl2 & Hn2 & <-); [done|]. apply drop_advance in Hd.
  pose proof Hd as Hd2. change (js " : " ++ ?x) with (32%N :: js ":" ++ 32%N :: x) in Hd2.
  apply (drop_advance _ (js " : ")) in Hd. change (length (js " : ")) with 3 in Hd.
  destruct (Hn source _ _ Hd He) as (ts3 & n3 & Hl3 & Hn3 & <-).
  eexists (ts1 ++ _ :: ts2 ++ _ :: ts3), _. split; [|split; [eapply D_conditional;
    [exact Hn1 | | exact Hn2 | | exact Hn3]|done]].
  - eapply lexes_to_app; [exact Hl1|].
    eapply lexes_to_operator; [apply lexes_mark | done | by destruct ts2 | exact Hd1|].
    change (length (js "?")) with 1. replace (c + length cond + 1 + 2) with (c + length cond + 3) by lia.
    eapply lexes_to_app; [exact Hl2|].
    eapply lexes_to_operator; [apply lexes_colon | done | by eapply derives_nonempty | exact Hd2|].
    change (length (js ":")) with 1.
    replace (c + length cond + 3 + length yes + 1 + 2) with (c + length cond + 3 + length yes + 3) by lia.
    rewrite !length_app. change (length (js " ? ")) with 3. change (length (js " : ")) with 3.
    by replace (c + (length cond + (3 + (length yes + (3 + length no))))) with
      (c + length cond + 3 + length yes + 3 + length no) by lia.
  - done.
  - done.
Qed.

(** The arguments of a call and its closing parenthesis. *)
Definition prints_args (s : str) (d : nat) (trees : list node) : Prop :=
  forall source c post, drop c source = s ++ 41%N :: post -> exists ts args,
    lexes_to source c ts (c + length s) /\ derives_args d ts args /\ map erase args = trees.

Lemma prints_args_one s d tree : prints s 0 d tree -> prints_args s d [tree].
Proof.
  intros H source c post Hd. destruct (H source c _ Hd) as (ts & n & Hl & Hn & <-); [done|].
  exists ts, [n]. split; [done|]. split; [by apply A_last|done].
Qed.

Lemma prints_args_more s s' d tree trees :
  prints s 0 d tree -> prints_args s' d trees -> trees <> [] -> prints_args (s ++ js ", " ++ s') d (tree :: trees).
Proof.
  intros H Hs Htrees source c post Hd. rewrite <- !app_assoc in Hd.
  destruct (H source c _ Hd) as (ts & n & Hl & Hn & <-); [done|]. apply drop_advance in Hd.
  pose proof Hd as Hd1. change (js ", " ++ ?x) with (js "," ++ 32%N :: x) in Hd1.
  pose proof (drop_advance _ _ _ _ Hd1) as Hd2. change (length (js ",")) with 1 in Hd2.
  apply (drop_advance _ (js ", ")) in Hd. change (length (js ", ")) with 2 in Hd.
  destruct (Hs source _ _ Hd) as (ts' & args & Hl' & Hargs & <-).
  assert (ts' <> []) as Hne.
  { intros ->. inversion Hargs as [|? ? ? Hx|? ? ? ? ? ? ? ? ? Hx]; subst;
      [done | by apply derives_nonempty in Hx | by destruct ts0]. }
  eexists (ts ++ _ :: ts'), (n :: args). split; [|split; [eapply A_more; [done | | done]|done]].
  - eapply lexes_to_app; [exact Hl|]. eapply lexes_to_token; [apply lexes_comma | done | done | exact Hd1|].
    eapply lexes_to_skip; [exact Hd2 | done|]. change (length (js ",")) with 1.
    replace (S (c + length s + 1)) with (c + length s + 2) by lia.
    rewrite !length_app. change (length (js ", ")) with 2.
    by replace (c + (length s + (2 + length s'))) with (c + length s + 2 + length s') by lia.
  - done.
Qed.

Lemma prints_call f s k d trees :
  prints_args s d trees -> length trees = BILLING_FUNCTIONS f ->
  prints (function_name f ++ js "(" ++ s ++ js ")") k (S d) (call f trees).
Proof.
  intros Hs Hlen source c post Hd He. rewrite <- !app_assoc in Hd. destruct (function_name_word f) as [Hh Hw].
  pose proof Hd as Hd0. change (js "(" ++ ?x) with (40%N :: x) in Hd0.
  apply drop_advance in Hd. pose proof Hd as Hd1. apply drop_advance in Hd.
  change (length (js "(")) with 1 in Hd. destruct (Hs source _ post Hd) as (ts & args & Hl & Hargs & <-).
  apply drop_advance in Hd.
  eexists (Lexeme K_name (function_name f) _ _ :: _ :: ts ++ [_]), _.
  split; [|split; [apply D_primary; eapply P_call with (fn := f); [done | by destruct f as [| | | | | |t| | | | |]; try destruct t | | exact Hargs | |] |]].
  - eapply lexes_to_token; [by apply (lexes_name _ (40%N :: s ++ js ")" ++ post)) | by destruct f as [| | | | | |t| | | | |]; try destruct t | done | exact Hd0|].
    eapply lexes_to_token; [apply lexes_open | done | done | exact Hd1|].
    eapply lexes_to_app; [exact Hl|].
    eapply lexes_to_token; [apply lexes_close | done | done | exact Hd|].
    rewrite !length_app. change (length (js "(")) with 1. change (length (js ")")) with 1.
    replace (c + length (function_name f) + 1 + length s + 1) with (c + (length (function_name f) + (1 + (length s + 1)))) by lia.
    constructor.
  - done.
  - done.
  - by rewrite length_map in Hlen.
  - done.
Qed.

(** * Printed sources compile *)

Lemma lexes_to_end source c ts : lexes_to source c ts (length source) -> lexes source c ts.
Proof.
  remember (length source) as stop eqn:Hstop. induction 1 as [c|]; subst.
  - apply (lexes_end _ _ (Lexeme K_end [] (length source + 0) (length source + 0)) (length source + 0)); [|done].
    unfold next. rewrite drop_ge by lia. cbn [take_while length]. by rewrite drop_ge by lia.
  - eapply lexes_token; eauto.
Qed.

Lemma parse_printed s tree :
  prints s 0 (Z.to_nat max_parse_depth) tree -> match_version s = None ->
  (Z.of_nat (length s) < max_tokens)%Z -> exists n, parse_source s = Ok n /\ erase n = tree.
Proof.
  intros Hp Hv Hlen. destruct (Hp s 0 []) as (ts & n & Hl & Hn & <-); [by rewrite app_nil_r | done|].
  exists n. split; [|done]. apply parse_source_grammatical. cbn [Nat.add] in Hl. apply lexes_to_end in Hl.
  pose proof (lexes_length _ _ _ Hl). unfold max_tokens, max_source_length in *.
  split; [unfold max_source_length; lia|]. exists 0, ts. split; [unfold body_start; by rewrite Hv|]. split; [done|].
  split; [unfold max_tokens; lia | done].
Qed.

(** ** Positions do not matter *)

Lemma map_ext_Forall {A B} (f g : A -> B) l : Forall (fun x => f x = g x) l -> map f l = map g l.
Proof. induction 1; cbn [map]; [done|]. by f_equal. Qed.

Lemma type_of_erase n : type_of (erase n) = type_of n.
Proof.
  induction n as [| |f args a b IH|o x a b IH|o x y a b IH1 IH2|c y z a b IH1 IH2 IH3] using node_ind';
    cbn [erase type_of]; rewrite ?IH, ?IH1, ?IH2, ?IH3; try done.
  by rewrite map_map, (map_ext_Forall _ _ _ IH).
Qed.

Lemma height_erase n : height (erase n) = height n.
Proof.
  induction n as [| |f args a b IH|o x a b IH|o x y a b IH1 IH2|c y z a b IH1 IH2 IH3] using node_ind';
    cbn [erase height]; rewrite ?IH, ?IH1, ?IH2, ?IH3; try done.
  rewrite map_map. f_equal. apply map_ext_Forall. eapply Forall_impl; [exact IH|]. intros x Hx. cbn in Hx |- *. by rewrite Hx.
Qed.

(** No node is a request rule or a fixed price. *)
Definition ordinary (n : node) : bool :=
  match n with
  | NConditional _ (NLiteral (LNumber _) _ _ _) (NLiteral (LNumber _) _ _ _) _ _ => false
  | NCall F_fixed _ _ _ => false
  | _ => true
  end.
Fixpoint all_ordinary (n : node) : bool :=
  ordinary n &&
  match n with
  | NLiteral _ _ _ _ | NVariable _ _ _ => true
  | NCall _ args _ _ => forallb all_ordinary args
  | NUnary _ x _ _ => all_ordinary x
  | NBinary _ x y _ _ => all_ordinary x && all_ordinary y
  | NConditional c y n _ _ => all_ordinary c && all_ordinary y && all_ordinary n
  end.

Lemma ordinary_erase n : ordinary (erase n) = ordinary n.
Proof. destruct n as [| | | | |c y z a b]; try done. destruct y as [[]| | | | |], z as [[]| | | | |]; done. Qed.

Lemma all_ordinary_erase n : all_ordinary (erase n) = all_ordinary n.
Proof.
  induction n as [| |f args a b IH|o x a b IH|o x y a b IH1 IH2|c y z a b IH1 IH2 IH3] using node_ind'; try done.
  2: { cbn [erase all_ordinary]. by rewrite IH1, IH2. }
  2: { pose proof (ordinary_erase (NConditional c y z a b)) as E. cbn [erase all_ordinary] in *.
       by rewrite E, IH1, IH2, IH3. }
  cbn [erase all_ordinary]. f_equal. induction IH as [|x l Hx _ IHl]; cbn [map forallb]; [done|]. by rewrite Hx, IHl.
Qed.

Lemma all_ordinary_postorder n : all_ordinary n = true -> Forall (fun x => ordinary x = true) (postorder n).
Proof.
  induction n as [n IH] using node_children_ind. intros H. rewrite postorder_unfold. apply Forall_app. split.
  - assert (forall x, x ∈ children n -> all_ordinary x = true) as Hc.
    { intros x Hx. destruct n; cbn [all_ordinary children] in H, Hx; breflect; try set_solver.
      rewrite forallb_forall in H0. by apply H0, list_elem_of_In. }
    apply Forall_forall. intros y Hy. apply list_elem_of_In, in_concat in Hy as (l & Hl & Hy).
    apply in_map_iff in Hl as (x & <- & Hx). apply list_elem_of_In in Hx, Hy.
    specialize (IH x Hx (Hc x Hx)). rewrite Forall_forall in IH. auto.
  - constructor; [|constructor]. destruct n; cbn [all_ordinary] in H; by breflect.
Qed.

Lemma ordinary_visitor source n rules : ordinary n = true -> rule_visitor source rules n = Ok rules.
Proof. destruct n as [| | | | |c y z a b]; try done. by destruct y as [[]| | | | |], z as [[]| | | | |]. Qed.

(** A printed source without request rules and fixed prices compiles to its tree. *)
Lemma compile_plain s tree :
  prints s 0 (Z.to_nat max_parse_depth) tree -> match_version s = None ->
  (Z.of_nat (length s) < max_tokens)%Z -> is_Some (type_of tree) -> (height tree <= max_visit_depth)%Z ->
  all_ordinary tree = true ->
  exists c, compile_source s = Ready c /\ erase (c_ast c) = tree /\ c_requestRules c = [].
Proof.
  intros Hp Hv Hlen Ht Hh Ho. destruct (parse_printed s tree Hp Hv Hlen) as (n & Hn & <-).
  rewrite type_of_erase in Ht. rewrite height_erase in Hh. rewrite all_ordinary_erase in Ho.
  pose proof (parse_source_spec s) as Hwf. rewrite Hn in Hwf.
  destruct (checkExpressionTypes_complete n Hwf Hh Ht) as [m Hm].
  destruct (expressionDependencies_total n Hh) as [[vs fs] Hd].
  pose proof (expressionDependencies_Ok _ _ Hd) as (_ & Hfs & _). cbn [fst snd] in Hfs.
  pose proof (all_ordinary_postorder n Ho) as Hall.
  assert (visitExpression n (rule_visitor s) [] = Ok []) as Hr.
  { rewrite visitExpression_within by done. clear Hfs Hd Hm. induction Hall as [|x l Hx _ IH]; [done|].
    cbn [fold_result]. rewrite ordinary_visitor by done. done. }
  assert (F_fixed ∉ fs) as Hfixed.
  { rewrite Hfs. intros (args & a & b & Hin). rewrite Forall_forall in Hall. by apply Hall in Hin. }
  exists (Compiled s n vs fs []). split; [|done]. unfold compile_source, compile_ast. rewrite Hn.
  unfold mbind, result_bind. rewrite Hm, Hd, Hr. by rewrite bool_decide_eq_false_2.
Qed.

Lemma compile_printed s tree :
  prints s 0 (Z.to_nat max_parse_depth) tree -> match_version s = None ->
  (Z.of_nat (length s) < max_tokens)%Z -> is_Some (type_of tree) -> (height tree <= max_visit_depth)%Z ->
  all_ordinary tree = true ->
  exists c, compile_source s = Ready c /\ erase (c_ast c) = tree.
Proof. intros H1 H2 H3 H4 H5 H6. destruct (compile_plain s tree H1 H2 H3 H4 H5 H6) as (c & Hc & He & _). eauto. Qed.

(** * Chains of one operator *)

Definition number_tree (x : number) : node := num x (number_integer (string_of_number x)).

(** A left-associated chain of one operator. *)
Definition chain (o : binary_operator) (trees : list node) : node :=
  match trees with
  | [] => NLiteral LNull false 0 0
  | tree :: rest => fold_left (bin o) rest tree
  end.

(** Joining printed operands with an operator. *)
Lemma prints_chain o texts trees d :
  Forall2 (fun s t => prints s (PRECEDENCE o + 1) d t) texts trees -> trees <> [] ->
  prints (join (js " " ++ operator_text o ++ js " ") texts) (PRECEDENCE o) (S d) (chain o trees).
Proof.
  intros H Hne. destruct H as [|s t texts trees Hs H]; [done|]. clear Hne. pose proof (PRECEDENCE_bounds o).
  assert (prints s (PRECEDENCE o) (S d) t) as Hs' by (eapply prints_weaken; [exact Hs | lia | lia]).
  clear Hs. cbn [chain]. revert s t Hs'. induction H as [|s1 t1 texts trees Hs1 H IH]; intros s t Hs; [done|].
  cbn [fold_left]. specialize (IH (s ++ js " " ++ operator_text o ++ js " " ++ s1) (bin o t t1)).
  assert (prints (s ++ js " " ++ operator_text o ++ js " " ++ s1) (PRECEDENCE o) (S d) (bin o t t1)) as Hb
    by (apply prints_binary; [lia | done | done]).
  specialize (IH Hb). replace (join (js " " ++ operator_text o ++ js " ") (s :: s1 :: texts)) with
    (join (js " " ++ operator_text o ++ js " ") ((s ++ js " " ++ operator_text o ++ js " " ++ s1) :: texts)); [done|].
  destruct texts as [|s2 texts]; cbn [join]; by rewrite <- !app_assoc.
Qed.

Lemma chain_invariant (P : node -> Prop) o trees :
  trees <> [] -> Forall P trees -> (forall x y, P x -> P y -> P (bin o x y)) -> P (chain o trees).
Proof.
  intros Hne Hall Hstep. destruct trees as [|t trees]; [done|]. apply Forall_cons in Hall as [Ht Hall]. cbn [chain].
  clear Hne. revert t Ht. induction Hall as [|u trees Hu _ IH]; intros t Ht; cbn [fold_left]; auto.
Qed.

Lemma chain_height o trees b :
  (0 <= b)%Z -> Forall (fun t => (height t <= b)%Z) trees ->
  (height (chain o trees) <= b + Z.of_nat (length trees))%Z.
Proof.
  intros Hb Hall. destruct trees as [|t trees]; [cbn; lia|]. apply Forall_cons in Hall as [Ht Hall]. cbn [chain].
  assert (forall c t, (b <= c)%Z -> (height t <= c)%Z -> (height (fold_left (bin o) trees t) <= c + Z.of_nat (length trees))%Z) as H.
  { clear t Ht. induction Hall as [|u trees Hu _ IH]; intros c t Hc Ht; cbn [fold_left length]; [lia|].
    specialize (IH (c + 1)%Z (bin o t u) ltac:(lia)). cbn [bin height] in IH. lia. }
  specialize (H b t ltac:(lia) Ht). cbn [length]. lia.
Qed.

Lemma flatten_erase n o : flattenBinary (erase n) o = map erase (flattenBinary n o).
Proof.
  induction n as [| |f args a b IH|o' x a b IH|o' x y a b IH1 IH2|c y z a b IH1 IH2 IH3] using node_ind'; try done.
  cbn [erase flattenBinary]. destruct (bool_decide _); [|done]. by rewrite map_app, IH1, IH2.
Qed.

Lemma flatten_chain o trees :
  trees <> [] -> Forall (fun t => flattenBinary t o = [t]) trees -> flattenBinary (chain o trees) o = trees.
Proof.
  intros Hne Hall. destruct trees as [|t trees]; [done|]. apply Forall_cons in Hall as [Ht Hall]. cbn [chain].
  enough (forall acc done, flattenBinary acc o = done -> flattenBinary (fold_left (bin o) trees acc) o = done ++ trees) as H
    by (by apply (H t [t])).
  clear Hne Ht. induction Hall as [|u trees Hu _ IH]; intros acc done Hacc; cbn [fold_left]; [by rewrite app_nil_r|].
  rewrite (IH _ (done ++ [u])); [by rewrite <- app_assoc|]. cbn [bin flattenBinary].
  by rewrite bool_decide_eq_true_2, Hacc, Hu by done.
Qed.

Lemma price_literal_erase n : nonnegativePriceLiteral (erase n) = nonnegativePriceLiteral n.
Proof. destruct n as [| | |o x a b| |]; try done. destruct o; try done. by destruct x. Qed.

Lemma price_literal_number x : n_leb n_zero x = true -> nonnegativePriceLiteral (number_tree x) = Some x.
Proof. intros H. cbn. by rewrite H. Qed.
