(* ===== verification/BillingDenotation.v ===== *)
(** A denotation for the expressions over task usage: literals, usage reads, arithmetic,
    comparisons, conjunctions, [max], tier calls and conditionals.  It has no state and
    no depth counter, and does not look at positions; on trees within the depth limit the
    interpreter computes it. *)

From S2P Require Import Prelude JsString JsNumber JsValue BillingTypes BillingParser BillingCompile BillingRuntime BillingRuntimeFacts BillingPrinting.

#[local] Arguments evaluate : simpl never.

(** The value of a node, and the label of the last tier called in it. *)
Definition outcome : Type := option (runtime_value * option str).
Definition later (a b : option str) : option str := match b with Some _ => b | None => a end.

Definition checked (o : outcome) : outcome :=
  '(r, l) ← o;
  match check_value (NLiteral LNull false 0 0) r with Ok _ => Some (r, l) | Throw _ => None end.

Section denotation.
Variable usage : list (str * jsval).

Fixpoint denote (n : node) : outcome :=
  checked
    match n with
    | NLiteral v i _ _ => Some (RV (of_literal v) i, None)
    | NBinary B_and x y _ _ =>
        '(a, la) ← denote x;
        match rv_value a with
        | VBool true =>
            '(b, lb) ← denote y;
            match rv_value b with VBool b => Some (RV (VBool b) false, later la lb) | _ => None end
        | VBool false => Some (RV (VBool false) false, la)
        | _ => None
        end
    | NBinary o x y _ _ =>
        '(a, la) ← denote x;
        '(b, lb) ← denote y;
        match apply_binary o a b 0 with Ok r => Some (r, later la lb) | Throw _ => None end
    | NCall F_u [x] _ _ =>
        '(a, la) ← denote x;
        match rv_value a with
        | VString name => Some (RV (default VNull (obj_get name usage)) false, la)
        | _ => None
        end
    | NCall F_max [x; y] _ _ =>
        '(a, la) ← denote x;
        match rv_value a with
        | VNumber v =>
            '(b, lb) ← denote y;
            match rv_value b with VNumber w => Some (RV (VNumber (n_max v w)) false, later la lb) | _ => None end
        | _ => None
        end
    | NCall F_tier [x; y] _ _ =>
        '(a, la) ← denote x;
        match rv_value a with
        | VString name =>
            '(b, lb) ← denote y;
            match rv_value b with VNumber w => Some (RV (VNumber w) false, Some name) | _ => None end
        | _ => None
        end
    | NConditional c y z _ _ =>
        '(a, la) ← denote c;
        match rv_value a with
        | VBool b => '(r, l) ← denote (if (b : bool) then y else z); Some (r, later la l)
        | _ => None
        end
    | _ => None
    end.

(** The expressions with a denotation. *)
Fixpoint in_fragment (n : node) : bool :=
  match n with
  | NLiteral _ _ _ _ => true
  | NBinary B_or _ _ _ _ => false
  | NBinary _ x y _ _ => in_fragment x && in_fragment y
  | NCall F_u [x] _ _ => in_fragment x
  | NCall F_max [x; y] _ _ | NCall F_tier [x; y] _ _ => in_fragment x && in_fragment y
  | NConditional c y z _ _ => in_fragment c && in_fragment y && in_fragment z
  | _ => false
  end.

(** * The interpreter computes the denotation *)

Context {host : Host} (env : runtime_env).
Hypothesis Husage : ctx_usage (re_context env) = Some usage.
Hypothesis Hrules : c_requestRules (re_compiled env) = [].

Definition mark (l : option str) (s : runtime_state) : runtime_state :=
  match l with Some name => set_tier name s | None => s end.

Definition agrees (res : result exn (runtime_value * runtime_state)) (s : runtime_state) (o : outcome) : Prop :=
  match o with
  | Some (r, l) => res = Ok (r, mark l s)
  | None => exists e, res = Throw e
  end.

Lemma mark_later a b s : mark (later a b) s = mark b (mark a s).
Proof. destruct a, b; done. Qed.
Lemma mark_depth l s : rs_depth (mark l s) = rs_depth s.
Proof. by destruct l. Qed.
Lemma unset_depth l s : set_depth (rs_depth (mark l (set_depth (rs_depth s + 1) s)) - 1) (mark l (set_depth (rs_depth s + 1) s)) = mark l s.
Proof.
  rewrite mark_depth. destruct s as [rules tier unit fixed times depth]. unfold set_depth, mark, set_tier.
  change (rs_depth (RuntimeState rules tier unit fixed times depth)) with depth.
  destruct l; cbn -[Z.add Z.sub]; f_equal; lia.
Qed.

Lemma check_value_position n m r : match check_value n r, check_value m r with Ok a, Ok b => a = r /\ b = r | Throw _, Throw _ => True | _, _ => False end.
Proof.
  unfold check_value. destruct (rv_value r); try done. destruct (negb _); [done|]. by destruct (_ && _).
Qed.

(** The wrapper of [evaluate] around the value of the node. *)
Lemma evaluate_agrees n s o :
  (rs_depth s + 1 <= max_eval_depth)%Z ->
  agrees (evaluateNode env (evaluate env) n (set_depth (rs_depth s + 1) s)) (set_depth (rs_depth s + 1) s) o ->
  agrees (evaluate env n s) s (checked o).
Proof.
  intros Hd H. rewrite evaluate_unfold. unfold enter_eval. 
  assert ((max_eval_depth <? rs_depth s + 1)%Z = false) as Hlt by (apply Z.ltb_ge; lia).
  destruct o as [[r l]|]; cbn [agrees checked mbind option_bind] in *.
  - pose proof (check_value_position n (NLiteral LNull false 0 0) r) as Hc.
    destruct (check_value n r) as [a|e] eqn:E1, (check_value (NLiteral LNull false 0 0) r) as [b|e'] eqn:E2; try done.
    + destruct Hc as [-> ->]. cbn [agrees]. unfold mbind, stM_bind. rewrite Hlt, H. unfold lift. rewrite E1.
      unfold leave_eval, modify, mret, stM_ret. by rewrite unset_depth.
    + cbn [agrees]. exists e. unfold mbind, stM_bind. rewrite Hlt, H. unfold lift. by rewrite E1.
  - destruct H as [e He]. exists e. unfold mbind, stM_bind. by rewrite Hlt, He.
Qed.

(** Sequencing of two computations. *)
Lemma agrees_bind (m : RM runtime_value) (f : runtime_value -> RM runtime_value) s o g :
  agrees (m s) s o ->
  (forall r l, o = Some (r, l) -> agrees (f r (mark l s)) (mark l s) (g r)) ->
  agrees ((r ← m; f r) s) s ('(r, l) ← o; '(r', l') ← g r; Some (r', later l l')).
Proof.
  intros Hm Hf. unfold mbind at 1, stM_bind. destruct o as [[r l]|]; cbn [agrees mbind option_bind] in *.
  - rewrite Hm. specialize (Hf r l eq_refl). destruct (g r) as [[r' l']|]; cbn [agrees mbind option_bind] in *; [|done].
    by rewrite Hf, mark_later.
  - destruct Hm as [e ->]. by exists e.
Qed.

Lemma agrees_ext res s o o' : agrees res s o -> o = o' -> agrees res s o'.
Proof. by intros H <-. Qed.

(** The typed accessors pass on a value of their type. *)
Lemma numeric_bind x (f : number * bool -> RM runtime_value) s o g :
  agrees (evaluate env x s) s o ->
  (forall r l v, o = Some (r, l) -> rv_value r = VNumber v -> agrees (f (v, rv_integer r) (mark l s)) (mark l s) (g r)) ->
  agrees ((a ← eval_numeric (evaluate env) x; f a) s) s
    ('(r, l) ← o; match rv_value r with VNumber _ => '(r', l') ← g r; Some (r', later l l') | _ => None end).
Proof.
  intros Hx Hf. unfold eval_numeric, mbind, stM_bind. destruct o as [[r l]|]; cbn [agrees option_bind] in *.
  - rewrite Hx. destruct (rv_value r) as [| | |v| | |] eqn:Hv; cbn [agrees]; try (eexists; reflexivity).
    specialize (Hf r l v eq_refl Hv). unfold mret, stM_ret. destruct (g r) as [[r' l']|]; cbn [agrees option_bind] in *; [|done].
    by rewrite Hf, mark_later.
  - destruct Hx as [e ->]. by exists e.
Qed.
Lemma string_bind x (f : str -> RM runtime_value) s o g :
  agrees (evaluate env x s) s o ->
  (forall r l v, o = Some (r, l) -> rv_value r = VString v -> agrees (f v (mark l s)) (mark l s) (g v)) ->
  agrees ((a ← eval_string (evaluate env) x; f a) s) s
    ('(r, l) ← o; match rv_value r with VString v => '(r', l') ← g v; Some (r', later l l') | _ => None end).
Proof.
  intros Hx Hf. unfold eval_string, mbind, stM_bind. destruct o as [[r l]|]; cbn [agrees option_bind] in *.
  - rewrite Hx. destruct (rv_value r) as [| | | |v| |] eqn:Hv; cbn [agrees]; try (eexists; reflexivity).
    specialize (Hf r l v eq_refl Hv). unfold mret, stM_ret. destruct (g v) as [[r' l']|]; cbn [agrees option_bind] in *; [|done].
    by rewrite Hf, mark_later.
  - destruct Hx as [e ->]. by exists e.
Qed.
Lemma boolean_bind x (f : bool -> RM runtime_value) s o g :
  agrees (evaluate env x s) s o ->
  (forall r l b, o = Some (r, l) -> rv_value r = VBool b -> agrees (f b (mark l s)) (mark l s) (g b)) ->
  agrees ((a ← eval_boolean (evaluate env) x; f a) s) s
    ('(r, l) ← o; match rv_value r with VBool b => '(r', l') ← g b; Some (r', later l l') | _ => None end).
Proof.
  intros Hx Hf. unfold eval_boolean, mbind, stM_bind. destruct o as [[r l]|]; cbn [agrees option_bind] in *.
  - rewrite Hx. destruct (rv_value r) as [| |b| | | |] eqn:Hv; cbn [agrees]; try (eexists; reflexivity).
    specialize (Hf r l b eq_refl Hv). unfold mret, stM_ret. destruct (g b) as [[r' l']|]; cbn [agrees option_bind] in *; [|done].
    by rewrite Hf, mark_later.
  - destruct Hx as [e ->]. by exists e.
Qed.

Lemma agrees_ret r s : agrees (mret (M := RM) r s) s (Some (r, None)).
Proof. done. Qed.

Lemma apply_binary_position o a b i :
  match apply_binary o a b i, apply_binary o a b 0 with Ok x, Ok y => x = y | Throw _, Throw _ => True | _, _ => False end.
Proof.
  unfold apply_binary. destruct o; try done; try (by destruct (rv_value a), (rv_value b)).
  destruct (rv_value a), (rv_value b); try done. by destruct (negb _).
Qed.

Lemma agrees_lift_binary o a b i s :
  agrees (lift (apply_binary o a b i) s) s (match apply_binary o a b 0 with Ok r => Some (r, None) | Throw _ => None end).
Proof.
  pose proof (apply_binary_position o a b i) as H. unfold lift.
  destruct (apply_binary o a b i), (apply_binary o a b 0); try done; cbn; [by subst | eauto].
Qed.

Lemma height_arg f args a b x : x ∈ args -> (height x + 1 <= height (NCall f args a b))%Z.
Proof.
  cbn [height]. induction args as [|y args IH]; intros Hx; [by apply not_elem_of_nil in Hx|]. cbn [map fold_right].
  apply elem_of_cons in Hx as [->|Hx]; [lia|]. specialize (IH Hx). lia.
Qed.

(** ** Equations of the denotation *)

Definition tier_outcome (x y : outcome) : outcome :=
  '(a, la) ← x;
  match rv_value a with
  | VString name =>
      '(b, lb) ← y;
      match rv_value b with VNumber w => Some (RV (VNumber w) false, Some name) | _ => None end
  | _ => None
  end.
Definition max_outcome (x y : outcome) : outcome :=
  '(a, la) ← x;
  match rv_value a with
  | VNumber v =>
      '(b, lb) ← y;
      match rv_value b with VNumber w => Some (RV (VNumber (n_max v w)) false, later la lb) | _ => None end
  | _ => None
  end.
Definition usage_outcome (x : outcome) : outcome :=
  '(a, la) ← x;
  match rv_value a with VString name => Some (RV (default VNull (obj_get name usage)) false, la) | _ => None end.
Definition and_outcome (x y : outcome) : outcome :=
  '(a, la) ← x;
  match rv_value a with
  | VBool true =>
      '(b, lb) ← y;
      match rv_value b with VBool b => Some (RV (VBool b) false, later la lb) | _ => None end
  | VBool false => Some (RV (VBool false) false, la)
  | _ => None
  end.
Definition binary_outcome (o : binary_operator) (x y : outcome) : outcome :=
  '(a, la) ← x;
  '(b, lb) ← y;
  match apply_binary o a b 0 with Ok r => Some (r, later la lb) | Throw _ => None end.
Definition conditional_outcome (c y z : outcome) : outcome :=
  '(a, la) ← c;
  match rv_value a with
  | VBool b => '(r, l) ← (if (b : bool) then y else z); Some (r, later la l)
  | _ => None
  end.

Lemma denote_tier x y a b : denote (NCall F_tier [x; y] a b) = checked (tier_outcome (denote x) (denote y)).
Proof. done. Qed.
Lemma denote_max x y a b : denote (NCall F_max [x; y] a b) = checked (max_outcome (denote x) (denote y)).
Proof. done. Qed.
Lemma denote_usage x a b : denote (NCall F_u [x] a b) = checked (usage_outcome (denote x)).
Proof. done. Qed.
Lemma denote_and x y a b : denote (NBinary B_and x y a b) = checked (and_outcome (denote x) (denote y)).
Proof. done. Qed.
Lemma denote_binary o x y a b : o <> B_and -> denote (NBinary o x y a b) = checked (binary_outcome o (denote x) (denote y)).
Proof. by destruct o. Qed.
Lemma denote_conditional c y z a b :
  denote (NConditional c y z a b) = checked (conditional_outcome (denote c) (denote y) (denote z)).
Proof. cbn [denote]. f_equal. unfold conditional_outcome. destruct (denote c) as [[r l]|]; [|done]. cbn. by destruct (rv_value r) as [| |[]| | | |]. Qed.

(** ** Each form *)

Section forms.
Variable s : runtime_state.
Definition runs (x : node) (o : outcome) : Prop := forall s', rs_depth s' = rs_depth s -> agrees (evaluate env x s') s' o.

Lemma tier_agrees x y start ox oy : runs x ox -> runs y oy ->
  agrees (eval_call env (evaluate env) F_tier [x; y] start s) s (tier_outcome ox oy).
Proof.
  intros Hx Hy. cbn [eval_call first second]. eapply agrees_ext; [apply (string_bind x _ _ ox (fun name =>
    '(r, l) ← oy; match rv_value r with VNumber w => Some (RV (VNumber w) false, Some name) | _ => None end)); [by apply Hx|]|].
  - intros r l v _ _. eapply agrees_ext; [apply (numeric_bind y _ _ oy (fun r => match rv_value r with VNumber w => Some (RV (VNumber w) false, Some v) | _ => None end))|].
    + apply Hy. apply mark_depth.
    + intros r' l' w _ Hw. by rewrite Hw.
    + destruct oy as [[r' l']|]; [|done]. cbn. by destruct (rv_value r').
  - destruct ox as [[r l]|]; [|done]. cbn. destruct (rv_value r); try done. destruct oy as [[r' l']|]; [|done]. cbn. by destruct (rv_value r').
Qed.

Lemma max_agrees x y start ox oy : runs x ox -> runs y oy ->
  agrees (eval_call env (evaluate env) F_max [x; y] start s) s (max_outcome ox oy).
Proof.
  intros Hx Hy. cbn [eval_call eval_math2 first second]. unfold eval_math2. cbn [first second].
  eapply agrees_ext; [apply (numeric_bind x _ _ ox (fun r => match rv_value r with VNumber v =>
    '(r', l) ← oy; match rv_value r' with VNumber w => Some (RV (VNumber (n_max v w)) false, l) | _ => None end | _ => None end)); [by apply Hx|]|].
  - intros r l v _ Hv. rewrite Hv.
    eapply agrees_ext; [apply (numeric_bind y _ _ oy (fun r => match rv_value r with VNumber w => Some (RV (VNumber (n_max v w)) false, None) | _ => None end))|].
    + apply Hy. apply mark_depth.
    + intros r' l' w _ Hw. by rewrite Hw.
    + destruct oy as [[r' l']|]; [|done]. cbn. by destruct (rv_value r').
  - destruct ox as [[r l]|]; [|done]. cbn. destruct (rv_value r); try done. destruct oy as [[r' l']|]; [|done]. cbn. by destruct (rv_value r').
Qed.

Lemma usage_agrees x start ox : runs x ox ->
  agrees (eval_call env (evaluate env) F_u [x] start s) s (usage_outcome ox).
Proof.
  intros Hx. cbn [eval_call first]. eapply agrees_ext; [apply (string_bind x _ _ ox (fun name => Some (RV (default VNull (obj_get name usage)) false, None))); [by apply Hx|]|].
  - intros r l v _ _. by rewrite Husage.
  - destruct ox as [[r l]|]; [|done]. cbn. by destruct (rv_value r).
Qed.

Lemma and_agrees x y start ox oy : runs x ox -> runs y oy ->
  agrees (eval_binary (evaluate env) B_and x y start s) s (and_outcome ox oy).
Proof.
  intros Hx Hy. cbn [eval_binary]. eapply agrees_ext; [apply (boolean_bind x _ _ ox (fun a => if (a : bool) then
    '(r, l) ← oy; match rv_value r with VBool b => Some (RV (VBool b) false, l) | _ => None end else Some (RV (VBool false) false, None))); [by apply Hx|]|].
  - intros r l [] _ _; [|done]. eapply agrees_ext; [apply (boolean_bind y _ _ oy (fun b => Some (RV (VBool b) false, None)))|].
    + apply Hy. apply mark_depth.
    + done.
    + destruct oy as [[r' l']|]; [|done]. cbn. by destruct (rv_value r').
  - destruct ox as [[r l]|]; [|done]. cbn. destruct (rv_value r) as [| |[]| | | |]; try done. destruct oy as [[r' l']|]; [|done]. cbn.
    by destruct (rv_value r').
Qed.

Lemma strict_agrees o x y start ox oy : o <> B_and -> o <> B_or -> runs x ox -> runs y oy ->
  agrees (eval_binary (evaluate env) o x y start s) s (binary_outcome o ox oy).
Proof.
  intros H1 H2 Hx Hy. assert (eval_binary (evaluate env) o x y start =
    (l ← evaluate env x; r ← evaluate env y; lift (apply_binary o l r start))) as -> by (by destruct o).
  eapply agrees_ext; [apply (agrees_bind _ _ _ ox (fun a => '(b, lb) ← oy; match apply_binary o a b 0 with Ok r => Some (r, lb) | Throw _ => None end)); [by apply Hx|]|].
  - intros a la _. eapply agrees_ext; [apply (agrees_bind _ _ _ oy (fun b => match apply_binary o a b 0 with Ok r => Some (r, None) | Throw _ => None end))|].
    + apply Hy. apply mark_depth.
    + intros b lb _. apply agrees_lift_binary.
    + destruct oy as [[b lb]|]; [|done]. cbn. by destruct (apply_binary o a b 0).
  - destruct ox as [[a la]|]; [|done]. cbn. destruct oy as [[b lb]|]; [|done]. cbn. by destruct (apply_binary o a b 0).
Qed.

Lemma conditional_agrees n c y z oc oy oz : runs c oc -> runs y oy -> runs z oz ->
  agrees (eval_conditional env (evaluate env) n c y z s) s (conditional_outcome oc oy oz).
Proof.
  intros Hc Hy Hz. unfold eval_conditional. rewrite Hrules. cbn [find_index].
  eapply agrees_ext; [apply (boolean_bind c _ _ oc (fun b => if (b : bool) then oy else oz)); [by apply Hc|]|].
  - intros r l b _ _. destruct b; [apply Hy | apply Hz]; apply mark_depth.
  - destruct oc as [[r l]|]; [|done]. cbn. by destruct (rv_value r) as [| |[]| | | |].
Qed.
End forms.

(** Within the depth limit the interpreter computes the denotation. *)
Theorem evaluate_denote n : forall s,
  in_fragment n = true -> (rs_depth s + height n + 1 <= max_eval_depth)%Z -> agrees (evaluate env n s) s (denote n).
Proof.
  induction n as [v i a b|v a b|f args a b IH|o x a b IHx|o x y a b IHx IHy|c y z a b IHc IHy IHz] using node_ind';
    intros s Hf Hd; try done.
  - apply evaluate_agrees; [cbn in Hd; lia | done].
  - assert (forall x, x ∈ args -> in_fragment x = true -> runs (set_depth (rs_depth s + 1) s) x (denote x)) as Hx.
    { intros x Hx Hfx s' Hs'. rewrite Forall_forall in IH. apply IH; [done | done|]. pose proof (height_arg f args a b x Hx). cbn in Hs'. lia. }
    pose proof (height_nonneg (NCall f args a b)).
    destruct f; try done; destruct args as [|x [|y [|z l]]]; try done; cbn [in_fragment] in Hf; rewrite ?andb_true_iff in Hf;
      rewrite ?denote_tier, ?denote_usage, ?denote_max; apply evaluate_agrees; try lia.
    + apply tier_agrees; apply Hx; [left | apply Hf | right; left | apply Hf].
    + apply usage_agrees, Hx; [left | apply Hf].
    + apply max_agrees; apply Hx; [left | apply Hf | right; left | apply Hf].
  - cbn [height] in Hd. pose proof (height_nonneg x). pose proof (height_nonneg y).
    assert (o <> B_or /\ in_fragment x = true /\ in_fragment y = true) as (Ho & Hfx & Hfy)
      by (destruct o; cbn [in_fragment] in Hf; rewrite ?andb_true_iff in Hf; done).
    assert (runs (set_depth (rs_depth s + 1) s) x (denote x)) as Hx by (intros s' Hs'; cbn in Hs'; apply IHx; [done | lia]).
    assert (runs (set_depth (rs_depth s + 1) s) y (denote y)) as Hy by (intros s' Hs'; cbn in Hs'; apply IHy; [done | lia]).
    destruct (decide (o = B_and)) as [->|Hne].
    + rewrite denote_and. apply evaluate_agrees; [lia | by apply and_agrees].
    + rewrite denote_binary by done. apply evaluate_agrees; [lia | by apply strict_agrees].
  - cbn [height] in Hd. pose proof (height_nonneg c). pose proof (height_nonneg y). pose proof (height_nonneg z).
    cbn [in_fragment] in Hf. rewrite !andb_true_iff in Hf. destruct Hf as [[Hfc Hfy] Hfz]. rewrite denote_conditional.
    apply evaluate_agrees; [lia|]. apply conditional_agrees; intros s' Hs'; cbn in Hs'; [apply IHc | apply IHy | apply IHz]; (done || lia).
Qed.

(** Positions do not matter. *)
Lemma denote_erase n : denote (erase n) = denote n.
Proof.
  induction n as [v i a b|v a b|f args a b IH|o x a b IHx|o x y a b IHx IHy|c y z a b IHc IHy IHz] using node_ind'; try done.
  - destruct f; try done; destruct args as [|x [|y [|z l]]]; try done; cbn [erase map];
      rewrite ?Forall_cons in IH; rewrite ?denote_tier, ?denote_usage, ?denote_max.
    + destruct IH as (-> & -> & _). done.
    + destruct IH as (-> & _). done.
    + destruct IH as (-> & -> & _). done.
  - cbn [erase]. destruct (decide (o = B_and)) as [->|Hne]; [rewrite !denote_and | rewrite !denote_binary by done]; by rewrite IHx, IHy.
  - cbn [erase]. rewrite !denote_conditional. by rewrite IHc, IHy, IHz.
Qed.
Lemma fragment_erase n : in_fragment (erase n) = in_fragment n.
Proof.
  induction n as [v i a b|v a b|f args a b IH|o x a b IHx|o x y a b IHx IHy|c y z a b IHc IHy IHz] using node_ind'; try done.
  - destruct f; try done; destruct args as [|x [|y [|z l]]]; try done; cbn [erase map in_fragment];
      rewrite ?Forall_cons in IH.
    + destruct IH as (-> & -> & _). done.
    + destruct IH as (-> & _). done.
    + destruct IH as (-> & -> & _). done.
  - destruct o; cbn [erase in_fragment]; rewrite ?IHx, ?IHy; done.
  - cbn [erase in_fragment]. by rewrite IHc, IHy, IHz.
Qed.
End denotation.
