(* ===== verification/RequestRules.v ===== *)
(** Request rules: the conditions, groups and multipliers of the visual rule editor,
    their reader and their writer (features/pricing/lib/billing-expr.ts, the request
    rule sections). *)

From S2P Require Import Prelude JsString JsNumber JsValue BillingTypes BillingStructure JsRegExp JsJson.

(** * Constants and data *)

Definition SOURCE_PARAM : str := js "param".
Definition SOURCE_HEADER : str := js "header".
Definition SOURCE_TIME : str := js "time".

Definition MATCH_EQ : str := js "eq".
Definition MATCH_CONTAINS : str := js "contains".
Definition MATCH_GT : str := js "gt".
Definition MATCH_GTE : str := js "gte".
Definition MATCH_LT : str := js "lt".
Definition MATCH_LTE : str := js "lte".
Definition MATCH_EXISTS : str := js "exists".
Definition MATCH_RANGE : str := js "range".

Definition TIME_FUNCS : list time_function := [T_hour; T_minute; T_weekday; T_month; T_day].

Definition COMMON_TIMEZONES : list (str * str) :=
  [(js "Asia/Shanghai", js "UTC+8 Shanghai (Asia/Shanghai)");
   (js "UTC", js "UTC");
   (js "America/New_York", js "UTC-5 New York (America/New_York)");
   (js "America/Los_Angeles", js "UTC-8 Los Angeles (America/Los_Angeles)");
   (js "America/Chicago", js "UTC-6 Chicago (America/Chicago)");
   (js "Europe/London", js "UTC+0 London (Europe/London)");
   (js "Europe/Berlin", js "UTC+1 Berlin (Europe/Berlin)");
   (js "Asia/Tokyo", js "UTC+9 Tokyo (Asia/Tokyo)");
   (js "Asia/Singapore", js "UTC+8 Singapore (Asia/Singapore)");
   (js "Asia/Seoul", js "UTC+9 Seoul (Asia/Seoul)");
   (js "Australia/Sydney", js "UTC+10 Sydney (Australia/Sydney)")].

(** An optional minus sign and a whole numeric token. *)
Definition NUMERIC_LITERAL_REGEX (s : str) : bool :=
  let r := match s with c :: r => if (c =? 45)%N then r else s | [] => [] end in
  bool_decide (match_number r = Some (length r)).

Inductive param_source : Type := Src_param | Src_header.
#[export] Instance param_source_eq_dec : EqDecision param_source.
Proof. solve_decision. Defined.

Record param_header_condition := ParamHeaderCondition {
  ph_source : param_source;
  ph_path : str;
  ph_mode : str;
  ph_value : str;
}.
Record request_time_condition := RequestTimeCondition {
  rt_timeFunc : time_function;
  rt_timezone : str;
  rt_mode : str;
  rt_value : str;
  rt_rangeStart : str;
  rt_rangeEnd : str;
}.
Inductive request_condition : Type :=
| CTime (t : request_time_condition)
| CParam (p : param_header_condition).
#[export] Instance param_header_condition_eq_dec : EqDecision param_header_condition.
Proof. solve_decision. Defined.
#[export] Instance request_time_condition_eq_dec : EqDecision request_time_condition.
Proof. solve_decision. Defined.
#[export] Instance request_condition_eq_dec : EqDecision request_condition.
Proof. solve_decision. Defined.

Record request_rule_group := RuleGroup {
  rg_conditions : list request_condition;
  rg_multiplier : str;
  rg_conditionText : option str;
  rg_matched : option bool;
}.
Record request_rule_trace := RuleTrace {
  tr_cond : str;
  tr_multiplier : number;
  tr_matched : bool;
}.

(** * Reader *)

(** The splitter always answers ([split_pieces]); the default is never used. *)
Definition splitTopLevelMultiply (expr : str) : list str :=
  default [] (splitExpressionAtTopLevel expr (js "*")).
Definition splitTopLevelAnd (expr : str) : list str :=
  default [] (splitExpressionAtTopLevel expr (js "&&")).

(** The value of the literal, [VNull] for the source's [null]. *)
Definition parseExprLiteral (raw : str) : jsval :=
  let text := trim raw in
  if bool_decide (text = js "true") || bool_decide (text = js "false") then VString text
  else if NUMERIC_LITERAL_REGEX text then VString text
  else match JSON_parse text with Ok v => v | Throw _ => VNull end.

Definition TIME_FUNC_RANGES (f : time_function) : Z * Z :=
  match f with
  | T_hour => (0, 23)
  | T_minute => (0, 59)
  | T_weekday => (0, 6)
  | T_month => (1, 12)
  | T_day => (1, 31)
  end%Z.

Definition isTimeValueInRange (timeFunc : time_function) (text : str) : bool :=
  if negb (NUMERIC_LITERAL_REGEX text) then false
  else
    let value := number_of_string text in
    if negb (is_integer value) then false
    else
      let '(min, max) := TIME_FUNC_RANGES timeFunc in
      n_leb (n_of_Z min) value && n_leb value (n_of_Z max).

Definition time_names : list str := map time_function_name TIME_FUNCS.
Definition find_time_function (name : str) : option time_function :=
  List.find (fun f => bool_decide (time_function_name f = name)) TIME_FUNCS.

(** [name("zone") >= start && name("zone") < stop], with either logical operator. *)
Definition time_range_pattern : list item :=
  [OneOf time_names; Lit (js "(" ++ [dquote]); Some1 not_dquote; Lit ([dquote] ++ js ") >= ");
   Some1 is_numeric_char; Lit (js " "); OneOf_ [js "&&"; js "||"]; Lit (js " ");
   Back 0; Lit (js "(" ++ [dquote]); Back 1; Lit ([dquote] ++ js ") < "); Some1 is_numeric_char].
Definition time_range_parens_pattern : list item :=
  Lit (js "(") :: time_range_pattern ++ [Lit (js ")")].
Definition time_scalar_pattern : list item :=
  [OneOf time_names; Lit (js "(" ++ [dquote]); Some1 not_dquote; Lit ([dquote] ++ js ") ");
   OneOf [js "=="; js ">="; js "<"]; Lit (js " "); Some1 is_numeric_char].

Definition time_op_mode (op : str) : str :=
  if bool_decide (op = js "==") then MATCH_EQ
  else if bool_decide (op = js ">=") then MATCH_GTE
  else if bool_decide (op = js "<") then MATCH_LT
  else MATCH_EQ.

Definition tryParseTimeCondition (expr : str) : option request_time_condition :=
  let m := match exec time_range_pattern expr with
           | Some m => Some m
           | None => exec time_range_parens_pattern expr
           end in
  match m with
  | Some [name; timezone; start; stop] =>
      timeFunc ← find_time_function name;
      if negb (isTimeValueInRange timeFunc start) || negb (isTimeValueInRange timeFunc stop) then None
      else Some (RequestTimeCondition timeFunc timezone MATCH_RANGE [] start stop)
  | Some _ => None
  | None =>
      match exec time_scalar_pattern expr with
      | Some [name; timezone; op; value] =>
          timeFunc ← find_time_function name;
          if negb (isTimeValueInRange timeFunc value) then None
          else Some (RequestTimeCondition timeFunc timezone (time_op_mode op) value [] [])
      | _ => None
      end
  end.

Definition header_exists_pattern : list item :=
  [Lit (js "header(" ++ [dquote]); Some1 not_dquote; Lit ([dquote] ++ js ") != " ++ [dquote; dquote])].
Definition param_exists_pattern : list item :=
  [Lit (js "param(" ++ [dquote]); Some1 not_dquote; Lit ([dquote] ++ js ") != nil")].
Definition header_contains_pattern : list item :=
  [Lit (js "has(header(" ++ [dquote]); Some1 not_dquote; Lit ([dquote] ++ js "), "); QuotedText; Lit (js ")")].
Definition param_contains_pattern : list item :=
  [Lit (js "param(" ++ [dquote]); Some1 not_dquote; Lit ([dquote] ++ js ") != nil && has(param(" ++ [dquote]);
   Some1 not_dquote; Lit ([dquote] ++ js "), "); QuotedText; Lit (js ")")].
Definition param_compare_pattern : list item :=
  [Lit (js "param(" ++ [dquote]); Some1 not_dquote; Lit ([dquote] ++ js ") != nil && param(" ++ [dquote]);
   Some1 not_dquote; Lit ([dquote] ++ js ") "); OneOf [js ">"; js ">="; js "<"; js "<="]; Lit (js " ");
   Some1 is_numeric_char].
Definition equals_pattern : list item :=
  [OneOf [js "param"; js "header"]; Lit (js "(" ++ [dquote]); Some1 not_dquote; Lit ([dquote] ++ js ") == ");
   Some1 not_line_end].

Definition compare_mode (op : str) : str :=
  if bool_decide (op = js ">") then MATCH_GT
  else if bool_decide (op = js ">=") then MATCH_GTE
  else if bool_decide (op = js "<") then MATCH_LT
  else MATCH_LTE.

(** [JSON.parse(token) as string]; the cast does nothing at run time, and a quoted
    token can only be a string. *)
Definition parse_string_token (token : str) : result exn str :=
  v ← JSON_parse token; to_string v.

(** The sequence of [match] attempts; an attempt whose pattern matches but whose
    two paths differ falls through to the next one. *)
Definition attempt_contains (expr : str) : option (result exn request_condition) :=
  match exec header_contains_pattern expr with
  | Some [path; token] =>
      Some (value ← parse_string_token token;
            Ok (CParam (ParamHeaderCondition Src_header path MATCH_CONTAINS value)))
  | _ =>
      match exec param_contains_pattern expr with
      | Some [path; path'; token] =>
          if bool_decide (path = path') then
            Some (value ← parse_string_token token;
                  Ok (CParam (ParamHeaderCondition Src_param path MATCH_CONTAINS value)))
          else None
      | _ => None
      end
  end.

Definition attempt_compare (expr : str) : option request_condition :=
  match exec param_compare_pattern expr with
  | Some [path; path'; op; value] =>
      if bool_decide (path = path')
      then Some (CParam (ParamHeaderCondition Src_param path (compare_mode op) value)) else None
  | _ => None
  end.

Definition attempt_equals (expr : str) : result exn (option request_condition) :=
  match exec equals_pattern expr with
  | Some [source; path; literal] =>
      match parseExprLiteral literal with
      | VNull => Ok None
      | parsedValue =>
          value ← to_string parsedValue;
          Ok (Some (CParam (ParamHeaderCondition
            (if bool_decide (source = SOURCE_HEADER) then Src_header else Src_param) path MATCH_EQ value)))
      end
  | _ => Ok None
  end.

Definition tryParseRequestCondition (expr : str) : result exn (option request_condition) :=
  match tryParseTimeCondition expr with
  | Some tc => Ok (Some (CTime tc))
  | None =>
      match exec header_exists_pattern expr, exec param_exists_pattern expr with
      | Some [path], _ => Ok (Some (CParam (ParamHeaderCondition Src_header path MATCH_EXISTS [])))
      | _, Some [path] => Ok (Some (CParam (ParamHeaderCondition Src_param path MATCH_EXISTS [])))
      | _, _ =>
          match attempt_contains expr with
          | Some r => c ← r; Ok (Some c)
          | None =>
              match attempt_compare expr with
              | Some c => Ok (Some c)
              | None => attempt_equals expr
              end
          end
      end
  end.

Definition tryParseTimeRangePair (lower upper : str) : option request_condition :=
  a ← tryParseTimeCondition lower;
  b ← tryParseTimeCondition upper;
  if bool_decide (rt_timeFunc a <> rt_timeFunc b) || bool_decide (rt_timezone a <> rt_timezone b) then None
  else if bool_decide (rt_mode a <> MATCH_GTE) || bool_decide (rt_mode b <> MATCH_LT) then None
  else Some (CTime (RequestTimeCondition (rt_timeFunc a) (rt_timezone a) MATCH_RANGE [] (rt_value a) (rt_value b))).

(** The [for] loop over [andParts], from the current index on. *)
Fixpoint condition_parts (andParts : list str) : result exn (option (list request_condition)) :=
  match andParts with
  | [] => Ok (Some [])
  | raw :: rest =>
      let part := trim raw in
      let single :=
        condition ← tryParseRequestCondition part;
        match condition with
        | None => Ok None
        | Some condition => conditions ← condition_parts rest; Ok (option_map (cons condition) conditions)
        end in
      match rest with
      | [] => single
      | raw' :: rest' =>
          let next := trim raw' in
          match (if non_empty next then tryParseTimeRangePair part next else None) with
          | Some merged => conditions ← condition_parts rest'; Ok (option_map (cons merged) conditions)
          | None => single
          end
      end
  end.

Definition tryParseRequestConditions (conditionStr : str) : result exn (option (list request_condition)) :=
  match tryParseTimeCondition (trim conditionStr) with
  | Some wholeTimeCond => Ok (Some [CTime wholeTimeCond])
  | None =>
      conditions ← condition_parts (splitTopLevelAnd conditionStr);
      Ok (match conditions with Some (_ :: _) => conditions | _ => None end)
  end.

Definition rule_factor_pattern : list item :=
  [Lit (js "("); Some1 any_char; Lit (js " ? "); Some1 is_numeric_char; Lit (js " : 1)")].

Definition tryParseRuleGroupFactor (part : str) : result exn (option request_rule_group) :=
  match exec rule_factor_pattern part with
  | Some [condition; multiplier] =>
      conditions ← tryParseRequestConditions condition;
      Ok (match conditions with
          | None => None
          | Some conditions => Some (RuleGroup conditions multiplier None None)
          end)
  | _ => Ok None
  end.

Fixpoint requestRuleGroupsFromTrace (requestRules : list request_rule_trace)
    : result exn (list request_rule_group) :=
  match requestRules with
  | [] => Ok []
  | rule :: rest =>
      let conditionText := trim (tr_cond rule) in
      conditions ← tryParseRequestConditions conditionText;
      groups ← requestRuleGroupsFromTrace rest;
      Ok (RuleGroup (default [] conditions) (string_of_number (tr_multiplier rule)) (Some conditionText)
            (Some (tr_matched rule)) :: groups)
  end.

Fixpoint rule_parts (parts : list str) : result exn (option (list request_rule_group)) :=
  match parts with
  | [] => Ok (Some [])
  | part :: rest =>
      group ← tryParseRuleGroupFactor part;
      match group with
      | None => Ok None
      | Some group => groups ← rule_parts rest; Ok (option_map (cons group) groups)
      end
  end.

Definition tryParseRequestRuleExpr (expr : str) : result exn (option (list request_rule_group)) :=
  let trimmed := trim expr in
  match trimmed with
  | [] => Ok (Some [])
  | _ => rule_parts (splitTopLevelMultiply trimmed)
  end.

(** * Editor *)

Definition createEmptyCondition : param_header_condition := ParamHeaderCondition Src_param [] MATCH_EQ [].
Definition createEmptyTimeCondition : request_time_condition :=
  RequestTimeCondition T_hour (js "Asia/Shanghai") MATCH_GTE [] [] [].
Definition createEmptyRuleGroup : request_rule_group :=
  RuleGroup [CParam createEmptyCondition] [] None None.
Definition createEmptyTimeRuleGroup : request_rule_group :=
  RuleGroup [CTime createEmptyTimeCondition] [] None None.

(** [MatchOption]: value and label key. *)
Definition getRequestRuleMatchOptions (source : str) : list (str * str) :=
  if bool_decide (source = SOURCE_TIME) then
    [(MATCH_EQ, js "Equals"); (MATCH_GTE, js "Greater than or equal"); (MATCH_LT, js "Less than");
     (MATCH_RANGE, js "Overnight range")]
  else
    let base := [(MATCH_EQ, js "Equals"); (MATCH_CONTAINS, js "Contains"); (MATCH_EXISTS, js "Exists")] in
    if bool_decide (source = SOURCE_HEADER) then base
    else base ++ [(MATCH_GT, js "Greater than"); (MATCH_GTE, js "Greater than or equal");
                  (MATCH_LT, js "Less than"); (MATCH_LTE, js "Less than or equal")].

(** [Partial<RequestCondition>]: every field may be absent. *)
Record partial_condition := PartialCondition {
  pc_source : option str;
  pc_timeFunc : option str;
  pc_timezone : option str;
  pc_path : option str;
  pc_mode : option str;
  pc_value : option str;
  pc_rangeStart : option str;
  pc_rangeEnd : option str;
}.
Definition empty_partial : partial_condition := PartialCondition None None None None None None None None.

Definition isTimeFunc (value : option str) : option time_function := name ← value; find_time_function name.

(** [text || fallback] *)
Definition or_else (text : option str) (fallback : str) : str :=
  match text with Some ((_ :: _) as t) => t | _ => fallback end.
Definition offered_mode (source : str) (mode : option str) (fallback : str) : str :=
  match mode with
  | Some m => if existsb (fun o => bool_decide (o.1 = m)) (getRequestRuleMatchOptions source) then m else fallback
  | None => fallback
  end.

Definition normalizeCondition (cond : option partial_condition) : request_condition :=
  let cond := default empty_partial cond in
  if bool_decide (pc_source cond = Some SOURCE_TIME) then
    CTime (RequestTimeCondition
      (default T_hour (isTimeFunc (pc_timeFunc cond)))
      (or_else (pc_timezone cond) (js "Asia/Shanghai"))
      (offered_mode SOURCE_TIME (pc_mode cond) MATCH_GTE)
      (default [] (pc_value cond))
      (default [] (pc_rangeStart cond))
      (default [] (pc_rangeEnd cond)))
  else
    let source := if bool_decide (pc_source cond = Some SOURCE_HEADER) then Src_header else Src_param in
    CParam (ParamHeaderCondition source
      (or_else (pc_path cond) [])
      (offered_mode (match source with Src_header => SOURCE_HEADER | Src_param => SOURCE_PARAM end)
         (pc_mode cond) MATCH_EQ)
      (default [] (pc_value cond))).

(** A whole condition passed where a partial one is expected. *)
Definition source_name (s : param_source) : str :=
  match s with Src_param => SOURCE_PARAM | Src_header => SOURCE_HEADER end.
Definition partial_time (t : request_time_condition) : partial_condition :=
  PartialCondition (Some SOURCE_TIME) (Some (time_function_name (rt_timeFunc t))) (Some (rt_timezone t)) None
    (Some (rt_mode t)) (Some (rt_value t)) (Some (rt_rangeStart t)) (Some (rt_rangeEnd t)).
Definition partial_param (p : param_header_condition) : partial_condition :=
  PartialCondition (Some (source_name (ph_source p))) None None (Some (ph_path p)) (Some (ph_mode p))
    (Some (ph_value p)) None None.
Definition partial_of (c : request_condition) : partial_condition :=
  match c with CTime t => partial_time t | CParam p => partial_param p end.

(** * Writer *)

Definition buildExprLiteral (mode value : str) : str :=
  let text := trim value in
  if bool_decide (mode = MATCH_CONTAINS) then JSON_stringify text
  else if bool_decide (text = js "true") || bool_decide (text = js "false") then text
  else if NUMERIC_LITERAL_REGEX text then text
  else JSON_stringify text.

Definition time_operator (mode : str) : str :=
  if bool_decide (mode = MATCH_EQ) then js "=="
  else if bool_decide (mode = MATCH_GTE) then js ">="
  else if bool_decide (mode = MATCH_LT) then js "<"
  else js "==".

(** Both normalisers return a condition of the kind they were given; the other
    case of the cast does not occur. *)
Definition buildTimeConditionExpr (cond : request_time_condition) : str :=
  match normalizeCondition (Some (partial_time cond)) with
  | CTime normalized =>
      let timeFunc := rt_timeFunc normalized in
      let tz := JSON_stringify (rt_timezone normalized) in
      let fn := time_function_name timeFunc ++ js "(" ++ tz ++ js ")" in
      if bool_decide (rt_mode normalized = MATCH_RANGE) then
        let s := trim (rt_rangeStart normalized) in
        let e := trim (rt_rangeEnd normalized) in
        if negb (isTimeValueInRange timeFunc s) || negb (isTimeValueInRange timeFunc e) then []
        else
          let sNum := number_of_string s in
          let eNum := number_of_string e in
          if n_ltb eNum sNum then fn ++ js " >= " ++ s ++ js " || " ++ fn ++ js " < " ++ e
          else fn ++ js " >= " ++ s ++ js " && " ++ fn ++ js " < " ++ e
      else
        let v := trim (rt_value normalized) in
        if negb (isTimeValueInRange timeFunc v) then []
        else fn ++ js " " ++ time_operator (rt_mode normalized) ++ js " " ++ v
  | CParam _ => []
  end.

Definition compare_operator (mode : str) : str :=
  if bool_decide (mode = MATCH_GT) then js ">"
  else if bool_decide (mode = MATCH_GTE) then js ">="
  else if bool_decide (mode = MATCH_LT) then js "<"
  else js "<=".

Definition is_compare_mode (mode : str) : bool :=
  bool_decide (mode = MATCH_GT) || bool_decide (mode = MATCH_GTE) ||
  bool_decide (mode = MATCH_LT) || bool_decide (mode = MATCH_LTE).

Definition build_param_header (normalized : param_header_condition) : str :=
  let path := trim (ph_path normalized) in
  let value := ph_value normalized in
  let mode := ph_mode normalized in
  match path with
  | [] => []
  | _ =>
      let sourceExpr :=
        match ph_source normalized with
        | Src_header => js "header(" ++ JSON_stringify path ++ js ")"
        | Src_param => js "param(" ++ JSON_stringify path ++ js ")"
        end in
      if bool_decide (mode = MATCH_EXISTS) then
        match ph_source normalized with
        | Src_header => sourceExpr ++ js " != " ++ [dquote; dquote]
        | Src_param => sourceExpr ++ js " != nil"
        end
      else if bool_decide (mode = MATCH_CONTAINS) then
        match ph_source normalized with
        | Src_header => js "has(" ++ sourceExpr ++ js ", " ++ buildExprLiteral mode value ++ js ")"
        | Src_param =>
            sourceExpr ++ js " != nil && has(" ++ sourceExpr ++ js ", " ++ buildExprLiteral mode value ++ js ")"
        end
      else if is_compare_mode mode then
        let numText := trim value in
        if negb (NUMERIC_LITERAL_REGEX numText) then []
        else sourceExpr ++ js " != nil && " ++ sourceExpr ++ js " " ++ compare_operator mode ++ js " " ++ numText
      else sourceExpr ++ js " == " ++ buildExprLiteral mode value
  end.

Definition buildRequestConditionExpr (cond : request_condition) : str :=
  match cond with
  | CTime t => buildTimeConditionExpr t
  | CParam p =>
      match normalizeCondition (Some (partial_param p)) with
      | CParam normalized => build_param_header normalized
      | CTime _ => []
      end
  end.

Definition buildRuleGroupFactor (group : request_rule_group) : str :=
  let multiplier := trim (rg_multiplier group) in
  if negb (NUMERIC_LITERAL_REGEX multiplier) then []
  else
    let condExprs := List.filter non_empty (map buildRequestConditionExpr (rg_conditions group)) in
    let combined :=
      match condExprs with
      | [e] => e
      | _ => join (js " && ")
               (map (fun e => if includes e (js " || ") then js "(" ++ e ++ js ")" else e) condExprs)
      end in
    match condExprs with
    | [] => []
    | _ => js "(" ++ combined ++ js " ? " ++ multiplier ++ js " : 1)"
    end.

Definition buildRequestRuleExpr (groups : list request_rule_group) : str :=
  join (js " * ") (List.filter non_empty (map buildRuleGroupFactor groups)).

Definition sample_groups : list request_rule_group :=
  [RuleGroup [CTime (RequestTimeCondition T_hour (js "UTC") MATCH_RANGE [] (js "21") (js "6"));
              CParam (ParamHeaderCondition Src_header (js "x-tier") MATCH_CONTAINS (js "a*b && c"))]
     (js "0.5") None None;
   RuleGroup [CTime (RequestTimeCondition T_day (js "UTC") MATCH_RANGE [] (js "9") (js "12"));
              CParam (ParamHeaderCondition Src_param (js "service_tier") MATCH_EQ (js "fast"))]
     (js "2") None None].
Example rules_round_trip_example :
  tryParseRequestRuleExpr (buildRequestRuleExpr sample_groups) = Ok (Some sample_groups).
Proof. vm_compute. reflexivity. Qed.
