(* ===== verification/RequestRuleFacts.v ===== *)
(** Lemmas on the request-rule reader and writer: numeric text, quoted text, the
    patterns run on written conditions, and splitting of written conjunctions. *)

From S2P Require Import Prelude JsString JsNumber JsValue BillingTypes BillingStructure JsRegExp JsJson RequestRules.

(** * Numeric text *)

Definition numeric (s : str) : Prop := s <> [] /\ Forall (fun c => is_numeric_char c = true) s.

Lemma digit_numeric c : is_digit c = true -> is_numeric_char c = true.
Proof. unfold is_numeric_char. by intros ->. Qed.

Lemma digits_numeric s : Forall (fun c => is_numeric_char c = true) (take_while is_digit s).
Proof. eapply Forall_impl; [apply take_while_all|]. apply digit_numeric. Qed.

Lemma take_numeric_app a b n :
  Forall (fun c => is_numeric_char c = true) a ->
  Forall (fun c => is_numeric_char c = true) (take n b) ->
  Forall (fun c => is_numeric_char c = true) (take (length a + n) (a ++ b)).
Proof. intros Ha Hb. rewrite take_app_add. by apply Forall_app. Qed.

Lemma take_digits_numeric s n :
  Forall (fun c => is_numeric_char c = true) (take n (drop_while is_digit s)) ->
  Forall (fun c => is_numeric_char c = true) (take (length (take_while is_digit s) + n) s).
Proof.
  intros H. rewrite <- (take_drop_while is_digit s) at 2. apply take_numeric_app; [apply digits_numeric | done].
Qed.

Lemma take_digits_only s : Forall (fun c => is_numeric_char c = true) (take (length (take_while is_digit s)) s).
Proof. rewrite <- (Nat.add_0_r (length _)). apply take_digits_numeric. constructor. Qed.

Lemma match_exponent_numeric s : Forall (fun c => is_numeric_char c = true) (take (match_exponent s) s).
Proof.
  destruct s as [|c r]; [constructor|]. unfold match_exponent.
  destruct ((c =? 101) || (c =? 69))%N eqn:Hc; [|constructor].
  assert (is_numeric_char c = true) as Hnc.
  { apply orb_true_iff in Hc as [Hc|Hc]; breflect; subst c; done. }
  destruct r as [|g r']; [constructor|].
  destruct ((g =? 43) || (g =? 45))%N eqn:Hg.
  - case_bool_decide; [constructor|]. cbn [plus take]. constructor; [done|]. constructor.
    + apply orb_true_iff in Hg as [Hg|Hg]; breflect; subst g; done.
    + apply take_digits_only.
  - case_bool_decide; [constructor|]. cbn [plus take]. constructor; [done|]. apply take_digits_only.
Qed.

Lemma match_number_numeric s n :
  match_number s = Some n -> Forall (fun c => is_numeric_char c = true) (take n s).
Proof.
  unfold match_number. set (k := length (take_while is_digit s)).
  destruct (bool_decide (k = 0)) eqn:Hk; destruct (drop_while is_digit s) as [|c r] eqn:Hd; try done.
  - breflect. destruct (_ && _) eqn:Hc; [|done]. intros [= <-]. apply andb_true_iff in Hc as [Hc _]. breflect.
    assert (s = c :: r) as ->.
    { rewrite drop_while_drop in Hd. fold k in Hd. by rewrite Hk, drop_0 in Hd. }
    subst c. cbn [plus take]. constructor; [done|]. apply take_digits_numeric, match_exponent_numeric.
  - intros [= <-]. apply take_digits_only.
  - destruct (c =? 46)%N eqn:Hc; intros [= <-]; breflect.
    + rewrite <- !Nat.add_assoc. apply take_digits_numeric. rewrite Hd. cbn [plus take]. subst c.
      constructor; [done|]. apply take_digits_numeric, match_exponent_numeric.
    + apply take_digits_numeric. rewrite Hd. exact (match_exponent_numeric (c :: r)).
Qed.

Lemma NUMERIC_numeric s : NUMERIC_LITERAL_REGEX s = true -> numeric s.
Proof.
  unfold NUMERIC_LITERAL_REGEX. intros H. breflect. destruct s as [|c r]; [done|]. split; [done|].
  destruct (c =? 45)%N eqn:Hc; apply match_number_numeric in H; rewrite take_ge in H by lia; [|done].
  breflect. subst c. by constructor.
Qed.

Lemma time_value_numeric f s : isTimeValueInRange f s = true -> numeric s.
Proof.
  unfold isTimeValueInRange. destruct (NUMERIC_LITERAL_REGEX s) eqn:H; [|done].
  intros _. by apply NUMERIC_numeric.
Qed.

Lemma numeric_char_facts c : is_numeric_char c = true ->
  is_space c = false /\ is_quote c = false /\ is_opening c = false /\ is_closing c = false /\
  c <> 42%N /\ c <> 38%N /\ c <> question_mark /\ not_line_end c = true.
Proof.
  unfold is_numeric_char, is_digit, is_space, is_quote, is_opening, is_closing, question_mark, in_range,
    dquote, squote, not_line_end, newline, carriage_return. intros H.
  repeat rewrite orb_true_iff in H. repeat rewrite andb_true_iff in H. rewrite ?N.leb_le, ?N.eqb_eq in H.
  repeat split; try lia; bool_lia.
Qed.

(** * Trimmed text *)

Lemma trimmed_ends s a z :
  head s = Some a -> last s = Some z -> is_space a = false -> is_space z = false -> trimmed s.
Proof.
  intros Hh Hl Ha Hz. split.
  - destruct s; [done|]. injection Hh as ->. done.
  - apply last_Some in Hl as [l ->]. rewrite reverse_app. done.
Qed.

Lemma numeric_trim s : numeric s -> trim s = s.
Proof.
  intros [Hne Hall]. apply trimmed_trim. rewrite Forall_forall in Hall.
  destruct s as [|c s] using rev_ind; [done|]. destruct (s ++ [c]) as [|a r] eqn:E; [done|].
  apply (trimmed_ends _ a c); [done | | |].
  - rewrite <- E. by rewrite last_snoc.
  - apply (numeric_char_facts a), Hall. left.
  - apply (numeric_char_facts c), Hall. rewrite <- E. apply list_elem_of_In, in_or_app. right. by left.
Qed.

(** * Quoted text *)

(** A code unit [JSON.stringify] writes as itself. *)
Definition is_plain (c : N) : bool :=
  (32 <=? c)%N && negb (c =? dquote)%N && negb (c =? backslash)%N &&
  negb (is_high_surrogate c) && negb (is_low_surrogate c).
Definition plain (s : str) : Prop := Forall (fun c => is_plain c = true) s.

Lemma quote_plain s : plain s -> quote_units s = s.
Proof.
  induction 1 as [|c s Hc Hs IH]; [done|]. unfold is_plain in Hc. breflect. cbn [quote_units].
  rewrite H1, H0. rewrite IH. unfold quote_unit.
  assert (escape_letter c = None) as ->.
  { unfold escape_letter, json_escapes. cbn [List.find fst snd]. unfold dquote, backslash in *.
    repeat match goal with |- context [(?k =? c)%N] => destruct (N.eqb_spec k c); [exfalso; lia|] end. done. }
  destruct (N.ltb_spec c 32); [lia | done].
Qed.

Lemma stringify_plain s : plain s -> JSON_stringify s = [dquote] ++ s ++ [dquote].
Proof. intros H. unfold JSON_stringify. by rewrite quote_plain. Qed.

Lemma plain_not_dquote s : plain s -> Forall (fun c => not_dquote c = true) s.
Proof.
  intros H. eapply Forall_impl; [exact H|]. intros c Hc. unfold is_plain in Hc. breflect. unfold not_dquote.
  apply negb_true_iff. by apply N.eqb_neq.
Qed.

(** What may stand between the quotes: an escape pair, or a character that is
    neither quote nor backslash. *)
Inductive quoted_body : str -> Prop :=
| qb_nil : quoted_body []
| qb_char c s : c <> dquote -> c <> backslash -> quoted_body s -> quoted_body (c :: s)
| qb_escape c s : not_line_end c = true -> quoted_body s -> quoted_body (backslash :: c :: s).

Lemma quoted_body_app a b : quoted_body a -> quoted_body b -> quoted_body (a ++ b).
Proof. intros Ha Hb. induction Ha; simpl; [done | by constructor | by constructor]. Qed.

Lemma hex_digit_body v s : (v < 16)%N -> quoted_body s -> quoted_body (hex_digit v :: s).
Proof.
  intros Hv Hs. unfold hex_digit, dquote, backslash in *.
  constructor; [| |done]; destruct (N.ltb_spec v 10); unfold dquote, backslash; lia.
Qed.

Lemma unicode_escape_body c : (c < 65536)%N -> quoted_body (unicode_escape c).
Proof.
  intros Hc. unfold unicode_escape. apply qb_escape; [done|].
  assert (c / 4096 < 16)%N by (apply N.Div0.div_lt_upper_bound; lia).
  repeat (apply hex_digit_body; [done || (apply N.mod_lt; lia)|]). constructor.
Qed.

Lemma escape_letter_line_end c letter : escape_letter c = Some letter -> not_line_end letter = true.
Proof.
  unfold escape_letter. intros H. apply fmap_Some in H as ([l u] & H & ->).
  apply List.find_some in H as [Hin _]. simpl in Hin.
  repeat (destruct Hin as [Hin|Hin]; [injection Hin as <- <-; reflexivity|]). done.
Qed.

Lemma quote_unit_body c : (c < 65536)%N -> quoted_body (quote_unit c).
Proof.
  intros Hc. unfold quote_unit. destruct (escape_letter c) as [letter|] eqn:He.
  - apply qb_escape; [by eapply escape_letter_line_end | constructor].
  - apply escape_letter_none in He as [? ?]. destruct (c <? 32)%N; [by apply unicode_escape_body|].
    repeat constructor; done.
Qed.

Lemma quote_units_body s : utf16 s -> quoted_body (quote_units s).
Proof.
  remember (length s) as n eqn:Hn. assert (length s <= n) as Hl by lia. clear Hn. revert s Hl.
  induction n as [|n IH]; intros [|c s] Hl Hu; simpl in Hl; try lia; try constructor.
  apply Forall_cons in Hu as [Hc Hu]. cbn [quote_units].
  pose proof (unicode_escape_body c Hc). pose proof (quote_unit_body c Hc).
  destruct (is_high_surrogate c) eqn:Hh;
    [|destruct (is_low_surrogate c); apply quoted_body_app; auto with lia].
  destruct s as [|d s]; [done|]. destruct (is_low_surrogate d) eqn:Hd; [|apply quoted_body_app; auto with lia].
  destruct (surrogate_plain c) as (? & ? & ?); [by left|].
  destruct (surrogate_plain d) as (? & ? & ?); [by right|].
  apply Forall_cons in Hu as [_ Hu]. simpl in Hl. repeat constructor; auto with lia.
Qed.

Lemma quoted_length_body s rest : quoted_body s -> quoted_length (s ++ dquote :: rest) = Some (length s + 1).
Proof.
  induction 1 as [|c s H1 H2 Hs IH|c s Hc Hs IH]; [done| |].
  - cbn [app quoted_length]. apply N.eqb_neq in H1, H2. rewrite H1, H2, IH. done.
  - cbn [app quoted_length]. change (backslash =? dquote)%N with false. change (backslash =? backslash)%N with true.
    cbv match. rewrite Hc, IH. done.
Qed.

Lemma matches_quoted s r rest caps :
  utf16 s -> matches (QuotedText :: r) (JSON_stringify s ++ rest) caps = matches r rest (caps ++ [JSON_stringify s]).
Proof.
  intros Hs. unfold JSON_stringify. cbn [app matches]. rewrite <- (assoc_L (++)).
  change (dquote =? dquote)%N with true. cbv match. cbn [app].
  rewrite quoted_length_body by (by apply quote_units_body). cbn [mbind option_bind].
  change (dquote :: quote_units s ++ dquote :: rest) with ([dquote] ++ quote_units s ++ [dquote] ++ rest).
  rewrite !(assoc_L (++)). 
  replace (S (length (quote_units s) + 1)) with (length (([dquote] ++ quote_units s) ++ [dquote]))
    by (rewrite !length_app; simpl; lia).
  by rewrite drop_app_length, take_app_length.
Qed.

(** * Editable conditions *)

(** Text that can stand as a path or a time zone between quotes. *)
Definition quotable (s : str) : Prop := s <> [] /\ plain s.

(** The conditions the editor stores: nothing to trim or normalise away. *)
Inductive editable_param : param_header_condition -> Prop :=
| ep_exists source path :
    quotable path -> trim path = path -> editable_param (ParamHeaderCondition source path MATCH_EXISTS [])
| ep_contains source path value :
    quotable path -> trim path = path -> utf16 value -> trim value = value ->
    editable_param (ParamHeaderCondition source path MATCH_CONTAINS value)
| ep_compare path mode value :
    quotable path -> trim path = path -> is_compare_mode mode = true -> NUMERIC_LITERAL_REGEX value = true ->
    editable_param (ParamHeaderCondition Src_param path mode value)
| ep_equals source path value :
    quotable path -> trim path = path -> utf16 value -> trim value = value ->
    Forall (fun c => c <> 8232%N /\ c <> 8233%N) value ->
    editable_param (ParamHeaderCondition source path MATCH_EQ value).

Inductive editable_time : request_time_condition -> Prop :=
| et_scalar f timezone mode value :
    quotable timezone -> mode ∈ [MATCH_EQ; MATCH_GTE; MATCH_LT] -> isTimeValueInRange f value = true ->
    editable_time (RequestTimeCondition f timezone mode value [] [])
| et_range f timezone start stop :
    quotable timezone -> isTimeValueInRange f start = true -> isTimeValueInRange f stop = true ->
    editable_time (RequestTimeCondition f timezone MATCH_RANGE [] start stop).

Definition editable (c : request_condition) : Prop :=
  match c with CTime t => editable_time t | CParam p => editable_param p end.

(** ** What is written *)

Definition call_text (open path rest : str) : str := (open ++ [dquote]) ++ path ++ dquote :: js ")" ++ rest.

Lemma call_plain open path rest :
  plain path -> (open ++ JSON_stringify path ++ js ")") ++ rest = call_text open path rest.
Proof. intros H. rewrite stringify_plain by done. unfold call_text. by rewrite <- !(assoc_L (++)). Qed.

Definition param_open (s : param_source) : str :=
  match s with Src_header => js "header(" | Src_param => js "param(" end.

Definition written_param (p : param_header_condition) : str :=
  let path := ph_path p in
  let value := ph_value p in
  let call := call_text (param_open (ph_source p)) path in
  if bool_decide (ph_mode p = MATCH_EXISTS) then
    call (match ph_source p with Src_header => js " != " ++ [dquote; dquote] | Src_param => js " != nil" end)
  else if bool_decide (ph_mode p = MATCH_CONTAINS) then
    match ph_source p with
    | Src_header => js "has(" ++ call (js ", " ++ JSON_stringify value ++ js ")")
    | Src_param => call (js " != nil && has(" ++ call (js ", " ++ JSON_stringify value ++ js ")"))
    end
  else if is_compare_mode (ph_mode p) then
    call (js " != nil && " ++ call (js " " ++ compare_operator (ph_mode p) ++ js " " ++ value))
  else call (js " == " ++ buildExprLiteral MATCH_EQ value).

Lemma or_else_Some s fallback : s <> [] -> or_else (Some s) fallback = s.
Proof. by destruct s. Qed.

Lemma or_else_zone z : or_else z (js "Asia/Shanghai") <> [].
Proof. by destruct z as [[|? ?]|]. Qed.

Lemma offered_mode_in source mode fallback :
  fallback ∈ map fst (getRequestRuleMatchOptions source) ->
  offered_mode source mode fallback ∈ map fst (getRequestRuleMatchOptions source).
Proof.
  intros Hf. unfold offered_mode. destruct mode as [m|]; [|done].
  destruct (existsb _ _) eqn:E; [|done]. apply existsb_exists in E as (o & Ho & Hm). breflect. subst m.
  apply list_elem_of_In, in_map_iff. by exists o.
Qed.

Lemma offered_mode_id source m fallback :
  m ∈ map fst (getRequestRuleMatchOptions source) -> offered_mode source (Some m) fallback = m.
Proof.
  intros Hm. unfold offered_mode. replace (existsb _ _) with true; [done|]. symmetry.
  apply existsb_exists. apply list_elem_of_In, in_map_iff in Hm as (o & <- & Ho). exists o.
  split; [done | by apply bool_decide_eq_true].
Qed.

Lemma offered_compare mode :
  is_compare_mode mode = true -> offered_mode SOURCE_PARAM (Some mode) MATCH_EQ = mode.
Proof.
  unfold is_compare_mode. rewrite !orb_true_iff.
  intros [[[H|H]|H]|H]; breflect; subst; reflexivity.
Qed.

Lemma written_editable_param p :
  editable_param p -> buildRequestConditionExpr (CParam p) = written_param p.
Proof.
  intros Hp. unfold buildRequestConditionExpr.
  assert (normalizeCondition (Some (partial_param p)) = CParam p) as ->.
  { destruct Hp as [source path Hq|source path value Hq|path mode value Hq Ht Hm|source path value Hq];
      unfold normalizeCondition, partial_param; cbn [from_option id pc_source pc_path pc_mode pc_value
        ph_source ph_path ph_mode ph_value]; rewrite or_else_Some by apply Hq;
      rewrite ?offered_compare by done; by try destruct source. }
  unfold build_param_header, written_param. cbv zeta.
  destruct Hp as [source path [Hne Hpl] Ht|source path value [Hne Hpl] Ht Hu Hv|path mode value [Hne Hpl] Ht Hm Hn
    |source path value [Hne Hpl] Ht Hu Hv Hl]; cbn [ph_source ph_path ph_mode ph_value]; rewrite Ht;
    (destruct path as [|c path]; [done|]); set (path' := c :: path) in *.
  - change (bool_decide (MATCH_EXISTS = MATCH_EXISTS)) with true. cbv match.
    by destruct source; rewrite call_plain by done.
  - change (bool_decide (MATCH_CONTAINS = MATCH_EXISTS)) with false.
    change (bool_decide (MATCH_CONTAINS = MATCH_CONTAINS)) with true. cbv match.
    unfold buildExprLiteral. rewrite Hv. change (bool_decide (MATCH_CONTAINS = MATCH_CONTAINS)) with true. cbv match.
    by destruct source; rewrite !call_plain by done.
  - destruct (bool_decide (mode = MATCH_EXISTS)) eqn:E1; [breflect; subst; done|].
    destruct (bool_decide (mode = MATCH_CONTAINS)) eqn:E2; [breflect; subst; done|].
    rewrite Hm. rewrite (numeric_trim value) by (by apply NUMERIC_numeric). rewrite Hn.
    cbn [negb]. by rewrite !call_plain by done.
  - change (bool_decide (MATCH_EQ = MATCH_EXISTS)) with false.
    change (bool_decide (MATCH_EQ = MATCH_CONTAINS)) with false.
    change (is_compare_mode MATCH_EQ) with false. cbv match.
    by destruct source; rewrite call_plain by done.
Qed.

Definition time_call (f : time_function) (timezone rest : str) : str :=
  call_text (time_function_name f ++ js "(") timezone rest.
Definition written_scalar (f : time_function) (timezone op value : str) : str :=
  time_call f timezone (js " " ++ op ++ js " " ++ value).
Definition written_range (f : time_function) (timezone start logic stop : str) : str :=
  time_call f timezone (js " >= " ++ start ++ js " " ++ logic ++ js " " ++ time_call f timezone (js " < " ++ stop)).

Definition range_logic (start stop : str) : str :=
  if n_ltb (number_of_string stop) (number_of_string start) then js "||" else js "&&".

Definition written_time (t : request_time_condition) : str :=
  if bool_decide (rt_mode t = MATCH_RANGE) then
    written_range (rt_timeFunc t) (rt_timezone t) (rt_rangeStart t)
      (range_logic (rt_rangeStart t) (rt_rangeEnd t)) (rt_rangeEnd t)
  else written_scalar (rt_timeFunc t) (rt_timezone t) (time_operator (rt_mode t)) (rt_value t).

Lemma time_call_plain f timezone rest :
  plain timezone ->
  (time_function_name f ++ js "(" ++ JSON_stringify timezone ++ js ")") ++ rest = time_call f timezone rest.
Proof. intros H. unfold time_call. rewrite <- call_plain by done. by rewrite <- !(assoc_L (++)). Qed.

#[local] Arguments find_time_function : simpl never.
#[local] Arguments time_function_name : simpl never.
#[local] Arguments isTimeValueInRange : simpl never.

Lemma find_time_function_name f : find_time_function (time_function_name f) = Some f.
Proof. by destruct f. Qed.

Lemma scalar_mode mode : mode ∈ [MATCH_EQ; MATCH_GTE; MATCH_LT] ->
  bool_decide (mode = MATCH_RANGE) = false /\ offered_mode SOURCE_TIME (Some mode) MATCH_GTE = mode /\
  time_operator mode ∈ [js "=="; js ">="; js "<"] /\ time_op_mode (time_operator mode) = mode.
Proof.
  rewrite !elem_of_cons. intros [->|[->|[->|H]]]; [| | |by apply not_elem_of_nil in H];
    (split; [done|]; split; [done|]; split; [|done]; set_solver).
Qed.

Lemma normalize_editable_time t :
  editable_time t -> normalizeCondition (Some (partial_time t)) = CTime t.
Proof.
  intros [f tz mode value [Hne _] Hm Hv|f tz start stop [Hne _] Hs He];
    unfold normalizeCondition, partial_time, isTimeFunc;
    cbn [from_option id pc_source pc_timeFunc pc_timezone pc_mode pc_value pc_rangeStart pc_rangeEnd
      rt_timeFunc rt_timezone rt_mode rt_value rt_rangeStart rt_rangeEnd mbind option_bind];
    rewrite find_time_function_name, or_else_Some by done; [|done].
  apply scalar_mode in Hm as (_ & -> & _). done.
Qed.

Lemma written_editable_time t :
  editable_time t -> buildRequestConditionExpr (CTime t) = written_time t.
Proof.
  intros Ht. unfold buildRequestConditionExpr, buildTimeConditionExpr. rewrite normalize_editable_time by done.
  unfold written_time. cbv zeta. destruct Ht as [f tz mode value [Hne Hp] Hm Hv|f tz start stop [Hne Hp] Hs He];
    cbn [rt_timeFunc rt_timezone rt_mode rt_value rt_rangeStart rt_rangeEnd].
  - apply scalar_mode in Hm as (-> & _). rewrite (numeric_trim value) by (by eapply time_value_numeric).
    rewrite Hv. cbn [negb]. by rewrite time_call_plain by done.
  - change (bool_decide (MATCH_RANGE = MATCH_RANGE)) with true. cbv match.
    rewrite (numeric_trim start), (numeric_trim stop) by (by eapply time_value_numeric).
    rewrite Hs, He. cbn [negb orb]. unfold written_range, range_logic.
    by destruct (n_ltb _ _); rewrite !time_call_plain by done.
Qed.

(** ** Running the patterns *)

(** Evaluates literal prefixes against known text. *)
Ltac run_strip :=
  repeat match goal with
  | |- context [strip ?a ?b] => first [change (strip a b) with (@None str) | rewrite (strip_app a)]
  end.

Lemma quotable_class s : quotable s -> s <> [] /\ Forall (fun c => not_dquote c = true) s.
Proof. intros [? ?]. split; [done | by apply plain_not_dquote]. Qed.

(** A quoted argument, up to its closing quote. *)
Lemma matches_argument r l path rest caps :
  quotable path ->
  matches (Some1 not_dquote :: Lit (dquote :: l) :: r) (path ++ dquote :: rest) caps =
  matches (Lit l :: r) rest (caps ++ [path]).
Proof.
  intros H. apply quotable_class in H as [Hne Hall].
  rewrite matches_some1_app; [|by apply rejects_lit | done | done | done]. reflexivity.
Qed.

Lemma matches_number r value rest caps :
  numeric value -> rejects is_numeric_char r ->
  match rest with [] => True | c :: _ => is_numeric_char c = false end ->
  matches (Some1 is_numeric_char :: r) (value ++ rest) caps = matches r rest (caps ++ [value]).
Proof. intros [Hne Hall] Hr Hrest. by apply matches_some1_app. Qed.

Lemma matches_time_name f r rest caps :
  matches (OneOf time_names :: r) (time_function_name f ++ rest) caps = matches r rest (caps ++ [time_function_name f]).
Proof.
  destruct f; cbn; run_strip; cbn; match goal with |- context [matches r rest ?c] => by destruct (matches r rest c) end.
Qed.

Lemma matches_time_call f timezone l r rest caps :
  quotable timezone ->
  matches (OneOf time_names :: Lit (js "(" ++ [dquote]) :: Some1 not_dquote :: Lit ([dquote] ++ js ")" ++ l) :: r)
    (time_call f timezone rest) caps =
  matches (Lit l :: r) rest (caps ++ [time_function_name f; timezone]).
Proof.
  intros H. unfold time_call, call_text. rewrite <- !(assoc_L (++)), matches_time_name.
  rewrite (assoc_L (++) (js "(")), matches_lit.
  etrans; [by apply matches_argument|]. rewrite <- (assoc_L (++)). reflexivity.
Qed.

Lemma time_call_app f timezone a b : time_call f timezone a ++ b = time_call f timezone (a ++ b).
Proof. unfold time_call, call_text. rewrite <- !(assoc_L (++)). cbn [app]. by rewrite <- ?(assoc_L (++)). Qed.

Lemma range_pattern_tail f timezone start stop rest tail :
  quotable timezone -> numeric stop -> rejects is_numeric_char tail ->
  match rest with [] => True | c :: _ => is_numeric_char c = false end ->
  matches ([Back 0; Lit (js "(" ++ [dquote]); Back 1; Lit ([dquote] ++ js ") < "); Some1 is_numeric_char] ++ tail)
    (time_call f timezone (js " < " ++ stop ++ rest)) [time_function_name f; timezone; start] =
  matches tail rest [time_function_name f; timezone; start; stop].
Proof.
  intros Htz Hstop Htail Hrest. cbn [app]. unfold time_call, call_text.
  rewrite <- !(assoc_L (++)), matches_back by done.
  rewrite (assoc_L (++) (js "(")), matches_lit, matches_back by done.
  change (dquote :: js ")" ++ js " < " ++ stop ++ rest) with (([dquote] ++ js ") < ") ++ stop ++ rest).
  rewrite matches_lit. by apply matches_number.
Qed.

Lemma matches_logic logic r rest caps :
  logic ∈ [js "&&"; js "||"] ->
  matches (OneOf_ [js "&&"; js "||"] :: r) (logic ++ rest) caps = matches r rest caps.
Proof.
  rewrite !elem_of_cons. intros [->|[->|H]]; [| |by apply not_elem_of_nil in H];
    cbn; run_strip; cbn; by destruct (matches r rest caps).
Qed.

Lemma range_pattern_run f timezone start logic stop rest tail :
  quotable timezone -> numeric start -> numeric stop -> logic ∈ [js "&&"; js "||"] ->
  rejects is_numeric_char tail -> match rest with [] => True | c :: _ => is_numeric_char c = false end ->
  matches (time_range_pattern ++ tail) (written_range f timezone start logic stop ++ rest) [] =
  matches tail rest [time_function_name f; timezone; start; stop].
Proof.
  intros Htz Hstart Hstop Hlogic Htail Hrest. unfold written_range. rewrite time_call_app.
  change (time_range_pattern ++ tail) with
    (OneOf time_names :: Lit (js "(" ++ [dquote]) :: Some1 not_dquote :: Lit ([dquote] ++ js ")" ++ js " >= ") ::
     Some1 is_numeric_char :: Lit (js " ") :: OneOf_ [js "&&"; js "||"] :: Lit (js " ") ::
     ([Back 0; Lit (js "(" ++ [dquote]); Back 1; Lit ([dquote] ++ js ") < "); Some1 is_numeric_char] ++ tail)).
  rewrite matches_time_call by done. rewrite <- !(assoc_L (++)), matches_lit.
  rewrite matches_number by (done || by apply rejects_lit).
  rewrite matches_lit, matches_logic, matches_lit, time_call_app, <- (assoc_L (++)) by done.
  by apply range_pattern_tail.
Qed.

Lemma matches_time_op op r rest caps :
  op ∈ [js "=="; js ">="; js "<"] ->
  matches (OneOf [js "=="; js ">="; js "<"] :: r) (op ++ rest) caps = matches r rest (caps ++ [op]).
Proof.
  rewrite !elem_of_cons. intros [->|[->|[->|H]]]; [| | |by apply not_elem_of_nil in H];
    cbn; run_strip; cbn; match goal with |- context [matches r rest ?c] => by destruct (matches r rest c) end.
Qed.

Lemma scalar_pattern_run f timezone op value rest :
  quotable timezone -> op ∈ [js "=="; js ">="; js "<"] -> numeric value ->
  match rest with [] => True | c :: _ => is_numeric_char c = false end ->
  exec time_scalar_pattern (written_scalar f timezone op value ++ rest) =
  matches [] rest [time_function_name f; timezone; op; value].
Proof.
  intros Htz Hop Hv Hrest. unfold exec, written_scalar. rewrite time_call_app.
  change time_scalar_pattern with
    (OneOf time_names :: Lit (js "(" ++ [dquote]) :: Some1 not_dquote :: Lit ([dquote] ++ js ")" ++ js " ") ::
     [OneOf [js "=="; js ">="; js "<"]; Lit (js " "); Some1 is_numeric_char]).
  rewrite matches_time_call, <- !(assoc_L (++)), matches_lit, matches_time_op, matches_lit by done.
  by rewrite matches_number by (done || apply rejects_nil).
Qed.

Lemma parens_pattern_call f timezone rest : exec time_range_parens_pattern (time_call f timezone rest) = None.
Proof. by destruct f. Qed.

Lemma range_pattern_parens rest : exec time_range_pattern (js "(" ++ rest) = None.
Proof. reflexivity. Qed.
Lemma scalar_pattern_parens rest : exec time_scalar_pattern (js "(" ++ rest) = None.
Proof. reflexivity. Qed.

(** The range pattern on a scalar comparison: only a lower bound that is followed
    by a logical operator gets to the second half. *)
Lemma range_pattern_scalar f timezone op value rest :
  quotable timezone -> op ∈ [js "=="; js ">="; js "<"] -> numeric value ->
  match rest with [] => True | c :: _ => is_numeric_char c = false end ->
  exec time_range_pattern (written_scalar f timezone op value ++ rest) =
  if bool_decide (op = js ">=") then
    matches (Lit (js " ") :: OneOf_ [js "&&"; js "||"] :: Lit (js " ") ::
      [Back 0; Lit (js "(" ++ [dquote]); Back 1; Lit ([dquote] ++ js ") < "); Some1 is_numeric_char])
      rest [time_function_name f; timezone; value]
  else None.
Proof.
  intros Htz Hop Hv Hrest. unfold exec, written_scalar. rewrite time_call_app.
  change time_range_pattern with
    (OneOf time_names :: Lit (js "(" ++ [dquote]) :: Some1 not_dquote :: Lit ([dquote] ++ js ")" ++ js " >= ") ::
     Some1 is_numeric_char :: Lit (js " ") :: OneOf_ [js "&&"; js "||"] :: Lit (js " ") ::
     [Back 0; Lit (js "(" ++ [dquote]); Back 1; Lit ([dquote] ++ js ") < "); Some1 is_numeric_char]).
  rewrite matches_time_call, <- !(assoc_L (++)) by done. rewrite !elem_of_cons in Hop.
  destruct Hop as [->|[->|[->|H]]]; [reflexivity| |reflexivity|by apply not_elem_of_nil in H].
  change (js " " ++ js ">=" ++ js " " ++ value ++ rest) with (js " >= " ++ value ++ rest).
  rewrite matches_lit. change (bool_decide (js ">=" = js ">=")) with true. cbv match.
  by rewrite matches_number by (done || by apply rejects_lit).
Qed.

Lemma read_scalar f timezone mode value :
  quotable timezone -> mode ∈ [MATCH_EQ; MATCH_GTE; MATCH_LT] -> isTimeValueInRange f value = true ->
  tryParseTimeCondition (written_scalar f timezone (time_operator mode) value) =
  Some (RequestTimeCondition f timezone mode value [] []).
Proof.
  intros Htz Hm Hv. pose proof (time_value_numeric _ _ Hv) as Hn. apply scalar_mode in Hm as (_ & _ & Hop & Hmode).
  unfold tryParseTimeCondition. rewrite <- (app_nil_r (written_scalar _ _ _ _)).
  rewrite range_pattern_scalar, scalar_pattern_run by done. rewrite app_nil_r.
  unfold written_scalar. rewrite parens_pattern_call.
  match goal with |- context [if bool_decide ?P then ?a else None] =>
    replace (if bool_decide P then a else None) with (@None (list str)) by (by destruct (bool_decide P)) end.
  cbn. rewrite find_time_function_name. cbn. by rewrite Hv, Hmode.
Qed.

Lemma read_range f timezone start logic stop :
  quotable timezone -> logic ∈ [js "&&"; js "||"] ->
  isTimeValueInRange f start = true -> isTimeValueInRange f stop = true ->
  tryParseTimeCondition (written_range f timezone start logic stop) =
  Some (RequestTimeCondition f timezone MATCH_RANGE [] start stop).
Proof.
  intros Htz Hl Hs He. pose proof (time_value_numeric _ _ Hs). pose proof (time_value_numeric _ _ He).
  unfold tryParseTimeCondition, exec.
  pose proof (range_pattern_run f timezone start logic stop [] []) as Hrun. rewrite !app_nil_r in Hrun.
  rewrite Hrun by (done || apply rejects_nil). cbn. rewrite find_time_function_name. cbn. by rewrite Hs, He.
Qed.

Lemma read_parens f timezone start logic stop :
  quotable timezone -> logic ∈ [js "&&"; js "||"] ->
  isTimeValueInRange f start = true -> isTimeValueInRange f stop = true ->
  tryParseTimeCondition (js "(" ++ written_range f timezone start logic stop ++ js ")") =
  Some (RequestTimeCondition f timezone MATCH_RANGE [] start stop).
Proof.
  intros Htz Hl Hs He. pose proof (time_value_numeric _ _ Hs). pose proof (time_value_numeric _ _ He).
  unfold tryParseTimeCondition. rewrite range_pattern_parens. unfold exec, time_range_parens_pattern.
  rewrite matches_lit, range_pattern_run by (done || by apply rejects_lit). rewrite <- (app_nil_r (js ")")), matches_lit.
  cbn. rewrite find_time_function_name. cbn. by rewrite Hs, He.
Qed.

(** ** Reading parameter and header conditions *)

Lemma matches_call source l r path rest caps :
  quotable path ->
  matches (Lit (param_open source ++ [dquote]) :: Some1 not_dquote :: Lit ([dquote] ++ js ")" ++ l) :: r)
    (call_text (param_open source) path rest) caps = matches (Lit l :: r) rest (caps ++ [path]).
Proof.
  intros H. unfold call_text. rewrite matches_lit. etrans; [by apply matches_argument|]. reflexivity.
Qed.

Lemma matches_source source r rest caps :
  matches (OneOf [js "param"; js "header"] :: r) (source_name source ++ rest) caps =
  matches r rest (caps ++ [source_name source]).
Proof.
  destruct source; cbn; change (source_name Src_param) with (js "param");
    change (source_name Src_header) with (js "header");
    unfold SOURCE_PARAM, SOURCE_HEADER; run_strip; cbn;
    match goal with |- context [matches r rest ?c] => by destruct (matches r rest c) end.
Qed.

Lemma time_call_none source path rest : tryParseTimeCondition (call_text (param_open source) path rest) = None.
Proof. by destruct source. Qed.

Lemma not_line_end_stringify s :
  utf16 s -> Forall (fun c => c <> 8232%N /\ c <> 8233%N) s ->
  Forall (fun c => not_line_end c = true) (JSON_stringify s).
Proof.
  intros Hu Hs. unfold JSON_stringify. constructor; [done|]. apply Forall_app. split; [|by repeat constructor].
  assert (Hhex : forall v, (v < 16)%N -> not_line_end (hex_digit v) = true).
  { intros v Hv. unfold hex_digit, not_line_end, newline, carriage_return. destruct (v <? 10)%N; bool_lia. }
  assert (Hesc : forall c, (c < 65536)%N -> Forall (fun c => not_line_end c = true) (unicode_escape c)).
  { intros c Hc. assert (c / 4096 < 16)%N by (apply N.Div0.div_lt_upper_bound; lia).
    unfold unicode_escape.
    repeat (constructor; [done || (apply Hhex; done || (apply N.mod_lt; lia))|]). constructor. }
  assert (Hunit : forall c, (c < 65536)%N -> c <> 8232%N /\ c <> 8233%N ->
    Forall (fun c => not_line_end c = true) (quote_unit c)).
  { intros c Hc [H1 H2]. unfold quote_unit. destruct (escape_letter c) as [l|] eqn:He.
    - repeat constructor. by eapply escape_letter_line_end.
    - destruct (N.ltb_spec c 32); [by apply Hesc|]. repeat constructor.
      unfold not_line_end, newline, carriage_return. bool_lia. }
  remember (length s) as n eqn:Hn. assert (length s <= n) as Hl by lia. clear Hn. revert s Hl Hu Hs.
  induction n as [|n IH]; intros [|c s] Hl Hu Hs; simpl in Hl; try lia; try constructor.
  apply Forall_cons in Hu as [Hc Hu]. apply Forall_cons in Hs as [Hc' Hs]. cbn [quote_units].
  destruct (is_high_surrogate c) eqn:Hh;
    [|destruct (is_low_surrogate c); apply Forall_app; auto with lia].
  destruct s as [|d s]; [auto|]. destruct (is_low_surrogate d) eqn:Hd; [|apply Forall_app; auto with lia].
  apply Forall_cons in Hu as [_ Hu]. apply Forall_cons in Hs as [_ Hs]. simpl in Hl.
  unfold is_high_surrogate, is_low_surrogate, in_range in *. breflect.
  repeat (constructor; [unfold not_line_end, newline, carriage_return; bool_lia|]). apply IH; auto with lia.
Qed.

Lemma stringify_trim s : trim (JSON_stringify s) = JSON_stringify s.
Proof.
  apply trimmed_trim, (trimmed_ends _ dquote dquote); try done.
  unfold JSON_stringify. change (dquote :: ?x ++ [dquote]) with ((dquote :: x) ++ [dquote]). apply last_snoc.
Qed.

(** [parseExprLiteral(buildExprLiteral(mode, value))] is the trimmed value. *)
Lemma literal_round_trip mode value :
  utf16 (trim value) -> parseExprLiteral (buildExprLiteral mode value) = VString (trim value).
Proof.
  intros Hu. unfold buildExprLiteral. set (text := trim value) in *.
  assert (parseExprLiteral (JSON_stringify text) = VString text) as Hq.
  { unfold parseExprLiteral. rewrite stringify_trim.
    change (bool_decide (JSON_stringify text = js "true")) with false.
    change (bool_decide (JSON_stringify text = js "false")) with false.
    change (NUMERIC_LITERAL_REGEX (JSON_stringify text)) with false. cbn [orb].
    by rewrite json_round_trip. }
  destruct (bool_decide (mode = MATCH_CONTAINS)); [done|].
  assert (trim text = text) as Ht by apply trim_idemp.
  destruct (bool_decide (text = js "true") || bool_decide (text = js "false")) eqn:Hb.
  { unfold parseExprLiteral. cbv zeta. by rewrite Ht, Hb. }
  destruct (NUMERIC_LITERAL_REGEX text) eqn:Hn; [|done].
  unfold parseExprLiteral. cbv zeta. by rewrite Ht, Hb, Hn.
Qed.

Lemma equals_literal_line value :
  utf16 value -> trim value = value -> Forall (fun c => c <> 8232%N /\ c <> 8233%N) value ->
  buildExprLiteral MATCH_EQ value <> [] /\
  Forall (fun c => not_line_end c = true) (buildExprLiteral MATCH_EQ value).
Proof.
  intros Hu Ht Hl. unfold buildExprLiteral. rewrite Ht.
  change (bool_decide (MATCH_EQ = MATCH_CONTAINS)) with false. cbv match.
  destruct (_ || _) eqn:Hb.
  { apply orb_true_iff in Hb as [Hb|Hb]; breflect; subst value; (split; [done|]); by repeat constructor. }
  destruct (NUMERIC_LITERAL_REGEX value) eqn:Hn; [|split; [done | by apply not_line_end_stringify]].
  apply NUMERIC_numeric in Hn as [Hne Hall]. split; [done|]. eapply Forall_impl; [exact Hall|].
  intros c Hc. by apply numeric_char_facts in Hc as (_ & _ & _ & _ & _ & _ & _ & ?).
Qed.

Lemma parse_string_stringify s : utf16 s -> parse_string_token (JSON_stringify s) = Ok s.
Proof. intros H. unfold parse_string_token. by rewrite json_round_trip. Qed.

Lemma read_exists source path :
  quotable path ->
  tryParseRequestCondition (written_param (ParamHeaderCondition source path MATCH_EXISTS [])) =
  Ok (Some (CParam (ParamHeaderCondition source path MATCH_EXISTS []))).
Proof.
  intros Hq. unfold written_param. cbn [ph_source ph_path ph_mode ph_value].
  change (bool_decide (MATCH_EXISTS = MATCH_EXISTS)) with true. cbv match zeta.
  unfold tryParseRequestCondition. rewrite time_call_none. destruct source.
  - change (exec header_exists_pattern _) with (@None (list str)).
    assert (exec param_exists_pattern (call_text (param_open Src_param) path (js " != nil")) = Some [path]) as ->;
      [|done].
    etrans; [by apply (matches_call Src_param (js " != nil") [])|]. reflexivity.
  - assert (exec header_exists_pattern (call_text (param_open Src_header) path (js " != " ++ [dquote; dquote]))
      = Some [path]) as ->; [|done].
    etrans; [by apply (matches_call Src_header (js " != " ++ [dquote; dquote]) [])|]. reflexivity.
Qed.

Lemma read_equals source path value :
  quotable path -> utf16 value -> trim value = value -> Forall (fun c => c <> 8232%N /\ c <> 8233%N) value ->
  tryParseRequestCondition (written_param (ParamHeaderCondition source path MATCH_EQ value)) =
  Ok (Some (CParam (ParamHeaderCondition source path MATCH_EQ value))).
Proof.
  intros Hq Hu Ht Hl. unfold written_param. cbn [ph_source ph_path ph_mode ph_value].
  change (bool_decide (MATCH_EQ = MATCH_EXISTS)) with false.
  change (bool_decide (MATCH_EQ = MATCH_CONTAINS)) with false.
  change (is_compare_mode MATCH_EQ) with false. cbv match zeta.
  destruct (equals_literal_line value Hu Ht Hl) as [Hne Hline].
  pose proof (literal_round_trip MATCH_EQ value) as Hlit. rewrite Ht in Hlit. specialize (Hlit Hu).
  set (literal := buildExprLiteral MATCH_EQ value) in *.
  assert (exec equals_pattern (call_text (param_open source) path (js " == " ++ literal)) =
    Some [source_name source; path; literal]) as Heq.
  { replace (call_text (param_open source) path (js " == " ++ literal)) with
      (source_name source ++ (js "(" ++ [dquote]) ++ path ++ dquote :: js ") == " ++ literal) by (by destruct source).
    unfold exec, equals_pattern. rewrite matches_source, matches_lit.
    etrans; [by apply matches_argument|]. rewrite matches_lit, <- (app_nil_r literal).
    rewrite matches_some1_app by (done || apply rejects_nil). by rewrite app_nil_r. }
  unfold tryParseRequestCondition. rewrite time_call_none.
  assert (exec header_exists_pattern (call_text (param_open source) path (js " == " ++ literal)) = None) as ->.
  { destruct source; [done|]. etrans; [by apply (matches_call Src_header (js " != " ++ [dquote; dquote]) [])|]. done. }
  assert (exec param_exists_pattern (call_text (param_open source) path (js " == " ++ literal)) = None) as ->.
  { destruct source; [|done]. etrans; [by apply (matches_call Src_param (js " != nil") [])|]. done. }
  assert (attempt_contains (call_text (param_open source) path (js " == " ++ literal)) = None) as ->.
  { unfold attempt_contains. replace (exec header_contains_pattern _) with (@None (list str)) by (by destruct source).
    destruct source; [|done].
    replace (exec param_contains_pattern _) with (@None (list str)); [done|]. symmetry.
    etrans; [by eapply (matches_call Src_param (js " != nil && has(param(" ++ [dquote]))|]. done. }
  assert (attempt_compare (call_text (param_open source) path (js " == " ++ literal)) = None) as ->.
  { unfold attempt_compare. destruct source; [|done].
    replace (exec param_compare_pattern _) with (@None (list str)); [done|]. symmetry.
    etrans; [by eapply (matches_call Src_param (js " != nil && param(" ++ [dquote]))|]. done. }
  unfold attempt_equals. rewrite Heq, Hlit. by destruct source.
Qed.

Lemma read_header_contains path value :
  quotable path -> utf16 value ->
  tryParseRequestCondition (written_param (ParamHeaderCondition Src_header path MATCH_CONTAINS value)) =
  Ok (Some (CParam (ParamHeaderCondition Src_header path MATCH_CONTAINS value))).
Proof.
  intros Hq Hu. unfold written_param. cbn [ph_source ph_path ph_mode ph_value].
  change (bool_decide (MATCH_CONTAINS = MATCH_EXISTS)) with false.
  change (bool_decide (MATCH_CONTAINS = MATCH_CONTAINS)) with true. cbv match zeta.
  set (text := js "has(" ++ _).
  assert (exec header_contains_pattern text = Some [path; JSON_stringify value]) as Hrun.
  { unfold exec. change text with ((js "has(header(" ++ [dquote]) ++ path ++ dquote :: js "), " ++ JSON_stringify value ++ js ")").
    unfold header_contains_pattern. rewrite matches_lit.
    etrans; [by apply matches_argument|]. rewrite matches_lit, matches_quoted by done. reflexivity. }
  unfold tryParseRequestCondition. change (tryParseTimeCondition text) with (@None request_time_condition).
  change (exec header_exists_pattern text) with (@None (list str)).
  change (exec param_exists_pattern text) with (@None (list str)).
  unfold attempt_contains. rewrite Hrun. by rewrite parse_string_stringify.
Qed.

(** The guarded forms start like the existence test and go on after it. *)
Lemma guarded_exists_none path rest :
  quotable path ->
  exec param_exists_pattern (call_text (param_open Src_param) path (js " != nil && " ++ rest)) = None.
Proof.
  intros Hq. etrans; [by apply (matches_call Src_param (js " != nil") [])|]. done.
Qed.

Lemma read_param_contains path value :
  quotable path -> utf16 value ->
  tryParseRequestCondition (written_param (ParamHeaderCondition Src_param path MATCH_CONTAINS value)) =
  Ok (Some (CParam (ParamHeaderCondition Src_param path MATCH_CONTAINS value))).
Proof.
  intros Hq Hu. unfold written_param. cbn [ph_source ph_path ph_mode ph_value].
  change (bool_decide (MATCH_CONTAINS = MATCH_EXISTS)) with false.
  change (bool_decide (MATCH_CONTAINS = MATCH_CONTAINS)) with true. cbv match zeta.
  set (inner := (js "has(param(" ++ [dquote]) ++ path ++ dquote :: js "), " ++ JSON_stringify value ++ js ")").
  change (call_text (param_open Src_param) path _) with (call_text (param_open Src_param) path (js " != nil && " ++ inner)).
  unfold tryParseRequestCondition. rewrite time_call_none, guarded_exists_none by done.
  change (exec header_exists_pattern _) with (@None (list str)).
  unfold attempt_contains. change (exec header_contains_pattern _) with (@None (list str)).
  assert (exec param_contains_pattern (call_text (param_open Src_param) path (js " != nil && " ++ inner)) =
    Some [path; path; JSON_stringify value]) as ->.
  { etrans; [by apply (matches_call Src_param (js " != nil && has(param(" ++ [dquote]))|].
    change (js " != nil && " ++ inner) with
      ((js " != nil && has(param(" ++ [dquote]) ++ path ++ dquote :: js "), " ++ JSON_stringify value ++ js ")").
    rewrite matches_lit. etrans; [by apply matches_argument|].
    rewrite matches_lit, matches_quoted by done. reflexivity. }
  rewrite bool_decide_eq_true_2 by done. by rewrite parse_string_stringify.
Qed.

Lemma matches_compare_op mode r rest caps :
  is_compare_mode mode = true ->
  matches (OneOf [js ">"; js ">="; js "<"; js "<="] :: Lit (js " ") :: r)
    (compare_operator mode ++ js " " ++ rest) caps = matches r rest (caps ++ [compare_operator mode]) /\
  compare_mode (compare_operator mode) = mode.
Proof.
  unfold is_compare_mode. rewrite !orb_true_iff. intros [[[H|H]|H]|H]; breflect; subst mode; (split; [|done]);
    match goal with |- _ = matches r rest ?c =>
      transitivity (match matches r rest c with Some y => Some y | None => None end);
        [reflexivity | by destruct (matches r rest c)] end.
Qed.

Lemma read_compare path mode value :
  quotable path -> is_compare_mode mode = true -> NUMERIC_LITERAL_REGEX value = true ->
  tryParseRequestCondition (written_param (ParamHeaderCondition Src_param path mode value)) =
  Ok (Some (CParam (ParamHeaderCondition Src_param path mode value))).
Proof.
  intros Hq Hm Hn. unfold written_param. cbn [ph_source ph_path ph_mode ph_value].
  destruct (bool_decide (mode = MATCH_EXISTS)) eqn:E1; [breflect; subst; done|].
  destruct (bool_decide (mode = MATCH_CONTAINS)) eqn:E2; [breflect; subst; done|].
  rewrite Hm. cbv zeta.
  set (inner := call_text (param_open Src_param) path (js " " ++ compare_operator mode ++ js " " ++ value)).
  unfold tryParseRequestCondition. rewrite time_call_none, guarded_exists_none by done.
  change (exec header_exists_pattern _) with (@None (list str)).
  assert (attempt_contains (call_text (param_open Src_param) path (js " != nil && " ++ inner)) = None) as ->.
  { unfold attempt_contains. change (exec header_contains_pattern _) with (@None (list str)). cbv match.
    replace (exec param_contains_pattern _) with (@None (list str)); [done|]. symmetry.
    etrans; [by apply (matches_call Src_param (js " != nil && has(param(" ++ [dquote]))|]. done. }
  unfold attempt_compare.
  assert (exec param_compare_pattern (call_text (param_open Src_param) path (js " != nil && " ++ inner)) =
    Some [path; path; compare_operator mode; value]) as ->.
  { etrans; [by apply (matches_call Src_param (js " != nil && param(" ++ [dquote]))|].
    change (js " != nil && " ++ inner) with
      ((js " != nil && param(" ++ [dquote]) ++ path ++ dquote :: js ") " ++ compare_operator mode ++ js " " ++ value).
    rewrite matches_lit. etrans; [by apply matches_argument|].
    rewrite matches_lit. rewrite (proj1 (matches_compare_op mode _ _ _ Hm)).
    rewrite <- (app_nil_r value). rewrite matches_number by (done || apply rejects_nil || by apply NUMERIC_numeric).
    by rewrite app_nil_r. }
  rewrite bool_decide_eq_true_2 by done. by rewrite (proj2 (matches_compare_op mode [] [] [] Hm)).
Qed.

Lemma read_editable c : editable c -> tryParseRequestCondition (buildRequestConditionExpr c) = Ok (Some c).
Proof.
  destruct c as [t|p]; cbn [editable].
  - intros Ht. rewrite written_editable_time by done. unfold tryParseRequestCondition, written_time.
    destruct Ht as [f tz mode value Hq Hm Hv|f tz start stop Hq Hs He];
      cbn [rt_timeFunc rt_timezone rt_mode rt_value rt_rangeStart rt_rangeEnd].
    + rewrite (proj1 (scalar_mode _ Hm)). by rewrite read_scalar.
    + change (bool_decide (MATCH_RANGE = MATCH_RANGE)) with true. cbv match.
      rewrite read_range; try done. unfold range_logic. destruct (n_ltb _ _); set_solver.
  - intros Hp. rewrite written_editable_param by done. destruct Hp as [| source ? ? | | ].
    + by apply read_exists.
    + destruct source; [by apply read_param_contains | by apply read_header_contains].
    + by apply read_compare.
    + by apply read_equals.
Qed.

(** * Splitting conditions *)

(** * Passing over a text *)

(** The mode after scanning a text that contains neither a top-level question
    mark nor, at top level, the first character [h] of the operator. *)
Fixpoint scan (h : N) (m : scan_mode) (s : str) : option scan_mode :=
  match s with
  | [] => Some m
  | c :: s' =>
      match m with
      | InCode d =>
          if is_quote c then scan h (Quoted c d) s'
          else
            let d := if is_opening c then (d + 1)%Z else d in
            let d := if is_closing c then (d - 1)%Z else d in
            if (d =? 0)%Z && ((c =? question_mark)%N || (c =? h)%N) then None else scan h (InCode d) s'
      | Quoted q d =>
          scan h (if (c =? backslash)%N then Escaped q d else if (c =? q)%N then InCode d else Quoted q d) s'
      | Escaped q d => scan h (Quoted q d) s'
      | InOperator _ _ => None
      end
  end.

Lemma scan_app h m a b : scan h m (a ++ b) = m' ← scan h m a; scan h m' b.
Proof.
  revert m. induction a as [|c a IH]; intros m; [done|]. cbn [app scan].
  destruct m; try done; repeat case_match; try done; apply IH.
Qed.

Lemma scan_pieces h t m a m' piece rest :
  scan h m a = Some m' -> pieces (h :: t) m piece (a ++ rest) = pieces (h :: t) m' (piece ++ a) rest.
Proof.
  revert m piece. induction a as [|c a IH]; intros m piece.
  { intros [= ->]. by rewrite app_nil_r. }
  cbn [scan app]. rewrite (cons_middle c), (assoc_L (++)).
  destruct m as [d|q d|q d|k d]; [| | |done].
  - rewrite (pieces_code _ _ _ _ _ d) by auto. cbv zeta.
    set (d2 := if is_closing c then _ else _). destruct (is_quote c); [apply IH|].
    destruct (d2 =? 0)%Z; cbn [andb negb]; [|apply IH].
    destruct (c =? question_mark)%N; [done|]. cbn [orb].
    destruct (N.eqb_spec c h) as [->|Hne]; [done|]. intros Hs.
    assert (starts_with (c :: a ++ rest) (h :: t) = false) as ->; [|by apply IH].
    cbn [starts_with]. destruct (N.eqb_spec h c); [congruence | done].
  - cbn [pieces]. apply IH.
  - cbn [pieces]. apply IH.
Qed.

(** ** Texts that leave the scanner where it was *)

(** The two operators that are split at, and the depths they are met at. *)
Definition split_char (h : N) : Prop := h = 42%N \/ h = 38%N.
Definition flat (h : N) (d : Z) (s : str) : Prop := scan h (InCode d) s = Some (InCode d).

Lemma flat_app h d a b : flat h d a -> flat h d b -> flat h d (a ++ b).
Proof. unfold flat. intros Ha Hb. by rewrite scan_app, Ha. Qed.

Lemma flat_join h d sep parts : flat h d sep -> Forall (flat h d) parts -> flat h d (join sep parts).
Proof.
  intros Hsep Hall. induction Hall as [|p parts Hp Hall IH]; [done|]. destruct parts as [|q parts]; [done|].
  change (join sep (p :: q :: parts)) with (p ++ sep ++ join sep (q :: parts)). by repeat apply flat_app.
Qed.

Lemma flat_numeric h d s : split_char h -> Forall (fun c => is_numeric_char c = true) s -> flat h d s.
Proof.
  intros Hh. unfold flat. induction 1 as [|c s Hc Hs IH]; [done|]. cbn [scan].
  apply numeric_char_facts in Hc as (_ & -> & -> & -> & H1 & H2 & H3 & _).
  apply N.eqb_neq in H3. rewrite H3. cbn [orb].
  assert ((c =? h)%N = false) as -> by (apply N.eqb_neq; destruct Hh; congruence).
  by rewrite andb_false_r.
Qed.

Lemma scan_body h d s rest :
  quoted_body s -> scan h (Quoted dquote d) (s ++ dquote :: rest) = scan h (InCode d) rest.
Proof.
  induction 1 as [|c s H1 H2 Hs IH|c s Hc Hs IH]; cbn [app scan].
  - done.
  - apply N.eqb_neq in H1, H2. by rewrite H1, H2.
  - done.
Qed.

Lemma plain_body s : plain s -> quoted_body s.
Proof.
  induction 1 as [|c s Hc Hs IH]; [constructor|]. unfold is_plain in Hc. breflect. by constructor.
Qed.

Lemma flat_stringify h d s : utf16 s -> flat h d (JSON_stringify s).
Proof.
  intros H. unfold flat, JSON_stringify. cbn [scan].
  change (is_quote dquote) with true. cbv match. by rewrite scan_body by (by apply quote_units_body).
Qed.

Lemma scan_call h d open path rest :
  scan h (InCode d) open = Some (InCode (d + 1)) -> (0 <= d)%Z -> split_char h -> plain path ->
  scan h (InCode d) (call_text open path rest) = scan h (InCode d) rest.
Proof.
  intros Ho Hd Hh Hp. unfold call_text. rewrite !scan_app, Ho. cbn [mbind option_bind scan].
  change (is_quote dquote) with true. cbv match. cbn [mbind option_bind].
  rewrite scan_body by (by apply plain_body). change (js ")" ++ rest) with (41%N :: rest). cbn [scan].
  change (is_quote 41) with false. change (is_opening 41) with false. change (is_closing 41) with true. cbv match zeta.
  replace (d + 1 - 1)%Z with d by lia. change (41 =? question_mark)%N with false.
  assert ((41 =? h)%N = false) as -> by (apply N.eqb_neq; destruct Hh; congruence).
  by rewrite andb_false_r.
Qed.

Lemma flat_call h d open path rest :
  scan h (InCode d) open = Some (InCode (d + 1)) -> (0 <= d)%Z -> split_char h -> plain path ->
  flat h d rest -> flat h d (call_text open path rest).
Proof. intros ? ? ? ? Hr. unfold flat. by rewrite scan_call. Qed.

(** ** Joining and splitting *)

Lemma trim_pad a p b :
  Forall (fun c => is_space c = true) a -> Forall (fun c => is_space c = true) b -> trimmed p -> p <> [] ->
  trim (a ++ p ++ b) = p.
Proof.
  intros Ha Hb [Hh Hl] Hne. unfold trim, trim_start.
  rewrite drop_while_app; [|done | by destruct p]. unfold trim_end. rewrite reverse_app.
  rewrite drop_while_app; [by rewrite reverse_involutive | by apply Forall_reverse|].
  by destruct (reverse p).
Qed.

Definition separator (operator : str) : str := js " " ++ operator ++ js " ".

Lemma pieces_after_operator h t d piece rest :
  pieces (h :: t) (InOperator (length t) d) piece (t ++ rest) = pieces (h :: t) (InCode d) piece rest.
Proof.
  set (operator := h :: t). clearbody operator. induction t as [|c t IH]; [by destruct rest|]. done.
Qed.

Lemma pieces_join_flat h t lead parts :
  split_char h -> parts <> [] -> Forall (fun c => is_space c = true) lead ->
  Forall (fun p => flat h 0 p /\ trimmed p /\ p <> []) parts ->
  exists raw, pieces (h :: t) (InCode 0) lead (join (separator (h :: t)) parts) = Some raw /\ map trim raw = parts.
Proof.
  intros Hh. revert lead. induction parts as [|p parts IH]; intros lead Hne Hlead Hall; [done|].
  apply Forall_cons in Hall as [(Hf & Ht & Hp) Hall].
  destruct parts as [|q parts].
  - cbn [join]. pose proof (scan_pieces h t (InCode 0) p (InCode 0) lead [] Hf) as Hs. rewrite app_nil_r in Hs.
    rewrite Hs. eexists. split; [done|].
    cbn [map]. f_equal. pose proof (trim_pad lead p []) as Hpad. rewrite app_nil_r in Hpad. by apply Hpad.
  - change (join (separator (h :: t)) (p :: q :: parts)) with
      (p ++ separator (h :: t) ++ join (separator (h :: t)) (q :: parts)).
    destruct (IH (js " ")) as (raw & Hraw & Hmap); [done | by repeat constructor | done|].
    rewrite (scan_pieces h t _ _ (InCode 0)) by done. unfold separator at 1. rewrite <- !(assoc_L (++)).
    assert (Hsp : forall piece rest, pieces (h :: t) (InCode 0) piece (js " " ++ rest) =
      pieces (h :: t) (InCode 0) (piece ++ js " ") rest).
    { intros piece rest. apply scan_pieces. by destruct Hh as [-> | ->]. }
    rewrite Hsp. change ((h :: t) ++ ?r) with (h :: (t ++ r)).
    rewrite (pieces_code _ _ _ _ _ 0) by auto.
    assert (is_quote h = false /\ is_opening h = false /\ is_closing h = false /\ (h =? question_mark)%N = false)
      as (-> & -> & -> & ->) by (by destruct Hh as [-> | ->]).
    cbv zeta. change (negb (0 =? 0)%Z) with false. cbv match.
    match goal with |- context [starts_with (h :: t ++ ?r) (h :: t)] =>
      change (starts_with (h :: t ++ r) (h :: t)) with (starts_with ((h :: t) ++ r) (h :: t)) end.
    rewrite starts_with_app. cbn [length]. rewrite Nat.sub_succ, Nat.sub_0_r, pieces_after_operator, Hsp.
    rewrite app_nil_l, Hraw. cbn [mbind option_bind]. eexists. split; [done|]. cbn [map]. f_equal; [|done].
    rewrite <- (assoc_L (++)). by apply trim_pad; [|repeat constructor| |].
Qed.

Lemma split_join h t parts :
  split_char h -> parts <> [] -> Forall (fun p => flat h 0 p /\ trimmed p /\ p <> []) parts ->
  splitExpressionAtTopLevel (join (separator (h :: t)) parts) (h :: t) = Some parts.
Proof.
  intros Hh Hne Hall. rewrite split_pieces by done.
  destruct (pieces_join_flat h t [] parts) as (raw & -> & Hmap); [done|done|constructor|done|].
  unfold split_result. cbn [app]. rewrite Hmap. f_equal. apply forallb_filter_id, forallb_forall.
  intros p Hin. rewrite Forall_forall in Hall. apply list_elem_of_In, Hall in Hin as (_ & _ & Hp). by destruct p.
Qed.
