(* ===== verification/RequestRuleGroups.v ===== *)
(** Reading back written rule groups: the parts of a written conjunction, the factor
    pattern, and whole groups. *)

From S2P Require Import Prelude JsString JsNumber JsValue BillingTypes BillingStructure JsRegExp JsJson RequestRules RequestRuleFacts.

(** * Written conditions are flat and trimmed *)

Definition shallow (h : N) (d : Z) : Prop := split_char h /\ (d = 0%Z \/ d = 1%Z \/ d = 2%Z).

Ltac by_shallow := match goal with H : shallow _ _ |- _ => by destruct H as [[-> | ->] [-> | [-> | ->]]] end.

Lemma shallow_nonneg h d : shallow h d -> (0 <= d)%Z.
Proof. intros [_ [-> | [-> | ->]]]; lia. Qed.

Lemma flat_time_call h d f timezone rest :
  shallow h d -> plain timezone -> flat h d rest -> flat h d (time_call f timezone rest).
Proof.
  intros Hs Hp Hr. apply flat_call; [destruct f; by_shallow | by eapply shallow_nonneg | apply Hs | done | done].
Qed.

Lemma flat_param_call h d source path rest :
  shallow h d -> plain path -> flat h d rest -> flat h d (call_text (param_open source) path rest).
Proof.
  intros Hs Hp Hr. apply flat_call; [destruct source; by_shallow | by eapply shallow_nonneg | apply Hs | done | done].
Qed.

Lemma flat_scalar h d f timezone op value :
  shallow h d -> plain timezone -> op ∈ [js "=="; js ">="; js "<"] -> numeric value ->
  flat h d (written_scalar f timezone op value).
Proof.
  intros Hs Hp Hop [_ Hn]. apply flat_time_call; [done|done|].
  apply flat_app; [by_shallow|]. apply flat_app.
  { rewrite !elem_of_cons in Hop.
    destruct Hop as [->|[->|[->|Hop]]]; [by_shallow..|by apply not_elem_of_nil in Hop]. }
  apply flat_app; [by_shallow|]. apply flat_numeric; [apply Hs | done].
Qed.

(** A range is flat except for its conjunction at top level. *)
Lemma flat_range h d f timezone start logic stop :
  shallow h d -> plain timezone -> numeric start -> numeric stop ->
  flat h d logic -> flat h d (written_range f timezone start logic stop).
Proof.
  intros Hs Hp [_ H1] [_ H2] Hl. unfold written_range. apply flat_time_call; [done|done|].
  apply flat_app; [by_shallow|]. apply flat_app; [apply flat_numeric; [apply Hs | done]|].
  apply flat_app; [by_shallow|]. apply flat_app; [done|]. apply flat_app; [by_shallow|].
  apply flat_time_call; [done|done|]. apply flat_app; [by_shallow|]. apply flat_numeric; [apply Hs | done].
Qed.

Lemma flat_parens h d s : shallow h d -> scan h (InCode (d + 1)) s = Some (InCode (d + 1)) ->
  flat h d (js "(" ++ s ++ js ")").
Proof.
  intros Hs H. unfold flat. rewrite scan_app.
  assert (scan h (InCode d) (js "(") = Some (InCode (d + 1))) as -> by by_shallow. cbn [mbind option_bind].
  rewrite scan_app, H. by_shallow.
Qed.

(** The guarded parameter tests are conjunctions themselves. *)
Definition guarded (c : request_condition) : bool :=
  match c with
  | CParam p => bool_decide (ph_source p = Src_param) &&
                (bool_decide (ph_mode p = MATCH_CONTAINS) || is_compare_mode (ph_mode p))
  | CTime _ => false
  end.

Lemma numeric_flat h d s : shallow h d -> numeric s -> flat h d s.
Proof. intros [H _] [_ ?]. by apply flat_numeric. Qed.

Lemma literal_flat h d value :
  shallow h d -> utf16 value -> trim value = value -> flat h d (buildExprLiteral MATCH_EQ value).
Proof.
  intros Hs Hu Ht. unfold buildExprLiteral. rewrite Ht.
  change (bool_decide (MATCH_EQ = MATCH_CONTAINS)) with false. cbv match.
  destruct (_ || _) eqn:Hb; [apply orb_true_iff in Hb as [Hb|Hb]; breflect; subst value; by_shallow|].
  destruct (NUMERIC_LITERAL_REGEX value) eqn:Hn; [|by apply flat_stringify].
  apply numeric_flat; [done | by apply NUMERIC_numeric].
Qed.

Lemma flat_param h d p :
  shallow h d -> editable_param p -> guarded (CParam p) = false \/ h = 42%N \/ d <> 0%Z ->
  flat h d (written_param p).
Proof.
  intros Hs Hp Hg. unfold written_param. cbv zeta.
  destruct Hp as [source path [Hne Hpl] Ht|source path value [Hne Hpl] Ht Hu Hv|path mode value [Hne Hpl] Ht Hm Hn
    |source path value [Hne Hpl] Ht Hu Hv Hl]; cbn [ph_source ph_path ph_mode ph_value] in *.
  - change (bool_decide (MATCH_EXISTS = MATCH_EXISTS)) with true. cbv match.
    apply flat_param_call; [done|done|]. destruct source; by_shallow.
  - change (bool_decide (MATCH_CONTAINS = MATCH_EXISTS)) with false.
    change (bool_decide (MATCH_CONTAINS = MATCH_CONTAINS)) with true. cbv match.
    assert (Hin : forall source, flat h (d + 1)
      (call_text (param_open source) path (js ", " ++ JSON_stringify value))).
    { intros source'. apply flat_call;
        [destruct source'; by_shallow | pose proof (shallow_nonneg _ _ Hs); lia | apply Hs | done|].
      apply flat_app; [by_shallow | by apply flat_stringify]. }
    assert (Hcall : forall source, call_text (param_open source) path (js ", " ++ JSON_stringify value ++ js ")") =
      call_text (param_open source) path (js ", " ++ JSON_stringify value) ++ js ")").
    { intros source'. unfold call_text. rewrite <- !(assoc_L (++)). by f_equal. }
    assert (Hhas : forall source, flat h d
      (js "has(" ++ call_text (param_open source) path (js ", " ++ JSON_stringify value ++ js ")"))).
    { intros source'. rewrite Hcall. unfold flat. rewrite scan_app.
      assert (scan h (InCode d) (js "has(") = Some (InCode (d + 1))) as -> by by_shallow. cbn [mbind option_bind].
      rewrite scan_app, (Hin source'). by_shallow. }
    destruct source; [|apply Hhas]. apply flat_param_call; [done|done|].
    change (js " != nil && has(") with (js " != nil && " ++ js "has("). rewrite <- (assoc_L (++)).
    apply flat_app; [|apply Hhas].
    destruct Hg as [Hg|Hg]; [done|]. destruct Hs as [[-> | ->] [-> | [-> | ->]]], Hg as [Hg|Hg]; done.
  - destruct (bool_decide (mode = MATCH_EXISTS)) eqn:E1; [breflect; subst; done|].
    destruct (bool_decide (mode = MATCH_CONTAINS)) eqn:E2; [breflect; subst; done|].
    rewrite Hm in *. apply flat_param_call; [done|done|].
    assert (flat h d (js " != nil && ")) as Hand.
    { unfold guarded in Hg. cbn [ph_source ph_mode] in Hg. rewrite Hm, orb_true_r in Hg.
      destruct Hg as [Hg|Hg]; [done|]. destruct Hs as [[-> | ->] [-> | [-> | ->]]], Hg as [Hg|Hg]; done. }
    apply flat_app; [done|]. apply flat_param_call; [done|done|]. apply flat_app; [by_shallow|].
    apply flat_app; [|apply flat_app; [by_shallow|]; by apply numeric_flat, NUMERIC_numeric].
    unfold compare_operator. destruct (bool_decide (mode = MATCH_GT)); [by_shallow|].
    destruct (bool_decide (mode = MATCH_GTE)); [by_shallow|]. destruct (bool_decide (mode = MATCH_LT)); by_shallow.
  - change (bool_decide (MATCH_EQ = MATCH_EXISTS)) with false.
    change (bool_decide (MATCH_EQ = MATCH_CONTAINS)) with false.
    change (is_compare_mode MATCH_EQ) with false. cbv match.
    apply flat_param_call; [done|done|]. apply flat_app; [by_shallow|]. by apply literal_flat.
Qed.

(** ** Ends of written texts *)

Definition starts_solid (s : str) : Prop := match head s with Some c => is_space c = false | None => False end.
Definition ends_solid (s : str) : Prop := match last s with Some c => is_space c = false | None => False end.

Lemma solid_trimmed s : starts_solid s -> ends_solid s -> trimmed s /\ s <> [].
Proof.
  unfold starts_solid, ends_solid. intros H1 H2. destruct s as [|c s]; [done|]. split; [|done].
  destruct (last (c :: s)) as [z|] eqn:Hz; [|done]. by apply (trimmed_ends _ c z).
Qed.

Lemma starts_solid_app a b : starts_solid a -> starts_solid (a ++ b).
Proof. by destruct a. Qed.
Lemma ends_solid_app a b : ends_solid b -> ends_solid (a ++ b).
Proof. unfold ends_solid. rewrite last_app. by destruct (last b). Qed.
Lemma ends_solid_cons c b : ends_solid b -> ends_solid (c :: b).
Proof. apply (ends_solid_app [c]). Qed.
Lemma numeric_ends_solid s : numeric s -> ends_solid s.
Proof.
  intros [Hne Hall]. unfold ends_solid. destruct s as [|c s] using rev_ind; [done|]. rewrite last_snoc.
  apply Forall_app in Hall as [_ Hc]. apply Forall_cons in Hc as [Hc _].
  by apply numeric_char_facts in Hc as (? & _).
Qed.
Lemma stringify_ends_solid s : ends_solid (JSON_stringify s).
Proof. unfold JSON_stringify. by apply ends_solid_cons, ends_solid_app. Qed.
#[export] Hint Resolve starts_solid_app ends_solid_app ends_solid_cons numeric_ends_solid
  stringify_ends_solid NUMERIC_numeric time_value_numeric : billing.

Lemma call_solid open path rest : starts_solid open -> ends_solid rest ->
  starts_solid (call_text open path rest) /\ ends_solid (call_text open path rest).
Proof. intros Ho Hr. unfold call_text. split; auto 10 with billing. Qed.

Lemma time_name_solid f s : starts_solid (time_function_name f ++ s).
Proof. by destruct f. Qed.

Lemma time_call_solid f timezone rest : ends_solid rest ->
  starts_solid (time_call f timezone rest) /\ ends_solid (time_call f timezone rest).
Proof. intros H. apply call_solid; [apply time_name_solid | done]. Qed.

Lemma scalar_solid f timezone op value : numeric value ->
  starts_solid (written_scalar f timezone op value) /\ ends_solid (written_scalar f timezone op value).
Proof. intros H. apply time_call_solid. auto 10 with billing. Qed.

Lemma range_solid f timezone start logic stop : numeric stop ->
  starts_solid (written_range f timezone start logic stop) /\ ends_solid (written_range f timezone start logic stop).
Proof.
  intros H. apply time_call_solid. do 5 apply ends_solid_app.
  apply time_call_solid. auto with billing.
Qed.

Lemma literal_solid value : trim value = value -> ends_solid (buildExprLiteral MATCH_EQ value).
Proof.
  intros Ht. unfold buildExprLiteral. rewrite Ht.
  change (bool_decide (MATCH_EQ = MATCH_CONTAINS)) with false. cbv match.
  destruct (_ || _) eqn:Hb; [apply orb_true_iff in Hb as [Hb|Hb]; breflect; by subst value|].
  destruct (NUMERIC_LITERAL_REGEX value) eqn:Hn; auto with billing.
Qed.

Lemma param_solid p : editable_param p -> starts_solid (written_param p) /\ ends_solid (written_param p).
Proof.
  intros Hp. unfold written_param. cbv zeta.
  assert (Hopen : forall source, starts_solid (param_open source)) by (by intros []).
  destruct Hp as [source path Hq Ht|source path value Hq Ht Hu Hv|path mode value Hq Ht Hm Hn
    |source path value Hq Ht Hu Hv Hl]; cbn [ph_source ph_path ph_mode ph_value] in *.
  - change (bool_decide (MATCH_EXISTS = MATCH_EXISTS)) with true. cbv match.
    by destruct source; apply call_solid.
  - change (bool_decide (MATCH_CONTAINS = MATCH_EXISTS)) with false.
    change (bool_decide (MATCH_CONTAINS = MATCH_CONTAINS)) with true. cbv match.
    assert (Hend : forall source, ends_solid (call_text (param_open source) path (js ", " ++ JSON_stringify value ++ js ")"))).
    { intros source'. apply call_solid; [done|]. by do 2 apply ends_solid_app. }
    destruct source; [apply call_solid; [done|]; by apply ends_solid_app|].
    split; [done | by apply ends_solid_app].
  - destruct (bool_decide (mode = MATCH_EXISTS)) eqn:E1; [breflect; subst; done|].
    destruct (bool_decide (mode = MATCH_CONTAINS)) eqn:E2; [breflect; subst; done|].
    rewrite Hm. apply call_solid; [done|]. apply ends_solid_app, call_solid; [done|].
    do 3 apply ends_solid_app. auto with billing.
  - change (bool_decide (MATCH_EQ = MATCH_EXISTS)) with false.
    change (bool_decide (MATCH_EQ = MATCH_CONTAINS)) with false.
    change (is_compare_mode MATCH_EQ) with false. cbv match.
    apply call_solid; [done|]. by apply ends_solid_app, literal_solid.
Qed.

(** * The parts of a written conjunction *)

Definition overnight (t : request_time_condition) : bool :=
  bool_decide (rt_mode t = MATCH_RANGE) && n_ltb (number_of_string (rt_rangeEnd t)) (number_of_string (rt_rangeStart t)).

Definition condition_texts (c : request_condition) : list str :=
  match c with
  | CTime t =>
      if overnight t then [js "(" ++ written_time t ++ js ")"]
      else if bool_decide (rt_mode t = MATCH_RANGE) then
        [written_scalar (rt_timeFunc t) (rt_timezone t) (js ">=") (rt_rangeStart t);
         written_scalar (rt_timeFunc t) (rt_timezone t) (js "<") (rt_rangeEnd t)]
      else [written_time t]
  | CParam p => [written_param p]
  end.

Lemma range_texts f timezone start stop :
  written_scalar f timezone (js ">=") start ++ js " && " ++ written_scalar f timezone (js "<") stop =
  written_range f timezone start (js "&&") stop.
Proof.
  unfold written_scalar, written_range. rewrite time_call_app, <- !(assoc_L (++)). reflexivity.
Qed.

(** What each part must satisfy to survive the split. *)
Definition part_ok (s : str) : Prop := flat 38 0 s /\ trimmed s /\ s <> [].

Lemma written_range_logic f timezone start stop :
  written_time (RequestTimeCondition f timezone MATCH_RANGE [] start stop) =
  written_range f timezone start (range_logic start stop) stop.
Proof. reflexivity. Qed.

Lemma texts_ok c : editable c -> guarded c = false -> Forall part_ok (condition_texts c).
Proof.
  intros He Hg. assert (shallow 38 0) as Hs0 by (split; [by right | by left]).
  assert (shallow 38 1) as Hs1 by (split; [by right | by right; left]).
  destruct c as [t|p]; cbn [condition_texts editable] in *.
  2: { constructor; [|constructor]. split; [apply flat_param; auto | apply solid_trimmed; by apply param_solid]. }
  destruct He as [f tz mode value [Hq Hp] Hm Hv|f tz start stop [Hq Hp] Hs He].
  - apply scalar_mode in Hm as (Hr & _ & Hop & _). unfold overnight, written_time. cbn [rt_mode]. rewrite Hr. cbn [andb].
    constructor; [|constructor]. cbn [rt_timeFunc rt_timezone rt_value].
    split; [apply flat_scalar; eauto with billing | apply solid_trimmed; apply scalar_solid; eauto with billing].
  - unfold overnight. cbn [rt_mode rt_rangeStart rt_rangeEnd rt_timeFunc rt_timezone].
    change (bool_decide (MATCH_RANGE = MATCH_RANGE)) with true. cbn [andb].
    destruct (n_ltb _ _) eqn:Hlt; cbv match.
    + constructor; [|constructor]. rewrite written_range_logic. unfold range_logic. rewrite Hlt.
      split; [|by apply solid_trimmed; [|apply ends_solid_app, ends_solid_app]].
      apply flat_parens; [done|]. apply flat_range; eauto with billing. reflexivity.
    + constructor; [|constructor; [|constructor]];
        (split; [apply flat_scalar; eauto with billing; set_solver
                | apply solid_trimmed; apply scalar_solid; eauto with billing]).
Qed.

Definition written (c : request_condition) : str :=
  match c with CTime t => written_time t | CParam p => written_param p end.
Lemma written_editable c : editable c -> buildRequestConditionExpr c = written c.
Proof. destruct c; [apply written_editable_time | apply written_editable_param]. Qed.

Definition is_overnight (c : request_condition) : bool :=
  match c with CTime t => overnight t | CParam _ => false end.

(** The writer looks for the operator in the text; only a range crossing midnight
    may contain it. *)
Definition clear_text (c : request_condition) : Prop :=
  includes (buildRequestConditionExpr c) (js " || ") = is_overnight c.

Definition enclose (e : str) : str := if includes e (js " || ") then js "(" ++ e ++ js ")" else e.

Lemma enclose_texts c :
  editable c -> clear_text c -> enclose (buildRequestConditionExpr c) = join (js " && ") (condition_texts c).
Proof.
  unfold clear_text, enclose. intros He ->. rewrite written_editable by done.
  destruct c as [t|p]; cbn [written is_overnight condition_texts]; [|done].
  destruct (overnight t) eqn:Ho; [done|].
  destruct He as [f tz mode value Hq Hm Hv|f tz start stop Hq Hs He].
  - apply scalar_mode in Hm as (Hr & _). cbn [rt_mode]. by rewrite Hr.
  - cbn [rt_mode rt_timeFunc rt_timezone rt_rangeStart rt_rangeEnd].
    change (bool_decide (MATCH_RANGE = MATCH_RANGE)) with true. cbv match. cbn [join].
    rewrite range_texts, written_range_logic. unfold range_logic.
    unfold overnight in Ho. cbn [rt_mode rt_rangeStart rt_rangeEnd] in Ho.
    change (bool_decide (MATCH_RANGE = MATCH_RANGE)) with true in Ho. cbn [andb] in Ho. by rewrite Ho.
Qed.

Lemma join_app sep a b : a <> [] -> b <> [] -> join sep (a ++ b) = join sep a ++ sep ++ join sep b.
Proof.
  intros Ha Hb. induction a as [|x [|y a] IH]; [done| |].
  - cbn [app]. by destruct b.
  - change (join sep ((x :: y :: a) ++ b)) with (x ++ sep ++ join sep ((y :: a) ++ b)).
    rewrite IH by done. change (join sep (x :: y :: a)) with (x ++ sep ++ join sep (y :: a)).
    by rewrite <- !(assoc_L (++)).
Qed.

Lemma join_concat sep (ls : list (list str)) :
  Forall (fun l => l <> []) ls -> join sep (map (join sep) ls) = join sep (concat ls).
Proof.
  induction 1 as [|l ls Hl Hls IH]; [done|]. destruct ls as [|l' ls]; [cbn; by rewrite app_nil_r|].
  change (concat (l :: l' :: ls)) with (l ++ concat (l' :: ls)).
  rewrite join_app; [|done|].
  - rewrite <- IH. done.
  - apply Forall_cons in Hls as [Hl' _]. by destruct l'.
Qed.

Lemma texts_nonempty c : condition_texts c <> [].
Proof. destruct c as [t|p]; cbn; [|done]. destruct (overnight t); [done|]. by destruct (bool_decide _). Qed.

Definition conjunction (cs : list request_condition) : list str := concat (map condition_texts cs).

Lemma conjunction_join cs :
  Forall (fun c => editable c /\ clear_text c) cs ->
  join (js " && ") (map enclose (map buildRequestConditionExpr cs)) = join (js " && ") (conjunction cs).
Proof.
  intros Hall. unfold conjunction. rewrite <- join_concat; [|by apply Forall_map, Forall_true, texts_nonempty].
  f_equal. rewrite !map_map. apply map_ext_Forall. eapply Forall_impl; [exact Hall|].
  intros c [? ?]. by apply enclose_texts.
Qed.

Lemma conjunction_split cs :
  cs <> [] -> Forall (fun c => editable c /\ guarded c = false) cs ->
  splitTopLevelAnd (join (js " && ") (conjunction cs)) = conjunction cs.
Proof.
  intros Hne Hall. unfold splitTopLevelAnd. change (js " && ") with (separator (js "&&")).
  change (js "&&") with (38%N :: [38%N]). rewrite split_join; [done | by right | |].
  - destruct cs as [|c cs]; [done|]. cbn [conjunction map concat]. unfold conjunction. cbn [map concat].
    pose proof (texts_nonempty c). by destruct (condition_texts c).
  - unfold conjunction. rewrite Forall_concat, Forall_map. eapply Forall_impl; [exact Hall|].
    intros c [? ?]. by apply texts_ok.
Qed.

(** * Reading the parts *)

(** Two neighbouring conditions the reader merges into one range. *)
Definition merges (c c' : request_condition) : bool :=
  match c, c' with
  | CTime t, CTime t' =>
      bool_decide (rt_timeFunc t = rt_timeFunc t') && bool_decide (rt_timezone t = rt_timezone t') &&
      bool_decide (rt_mode t = MATCH_GTE) && bool_decide (rt_mode t' = MATCH_LT)
  | _, _ => false
  end.
Fixpoint separate (cs : list request_condition) : Prop :=
  match cs with
  | c :: (c' :: _) as rest => merges c c' = false /\ separate rest
  | _ => True
  end.

(** What the reader sees in the first text of a condition. *)
Definition first_text (c : request_condition) : str := hd [] (condition_texts c).
Definition first_reading (c : request_condition) : option request_time_condition :=
  match c with
  | CParam _ => None
  | CTime t =>
      if overnight t then Some t
      else if bool_decide (rt_mode t = MATCH_RANGE)
      then Some (RequestTimeCondition (rt_timeFunc t) (rt_timezone t) MATCH_GTE (rt_rangeStart t) [] [])
      else Some t
  end.

Lemma param_not_time p : tryParseTimeCondition (written_param p) = None.
Proof.
  unfold written_param. cbv zeta. destruct (bool_decide _); [apply time_call_none|].
  destruct (bool_decide _); [destruct (ph_source p); [apply time_call_none | reflexivity]|].
  destruct (is_compare_mode _); apply time_call_none.
Qed.

Lemma first_text_reading c : editable c -> tryParseTimeCondition (first_text c) = first_reading c.
Proof.
  intros He. unfold first_text. destruct c as [t|p]; cbn [condition_texts first_reading]; [|apply param_not_time].
  destruct He as [f tz mode value Hq Hm Hv|f tz start stop Hq Hs He].
  - unfold overnight, written_time. cbn [rt_mode rt_timeFunc rt_timezone rt_value].
    rewrite (proj1 (scalar_mode _ Hm)). cbn [andb hd]. by rewrite read_scalar.
  - destruct (overnight _) eqn:Ho; cbn [hd].
    + rewrite written_range_logic. apply read_parens; try done. unfold range_logic. destruct (n_ltb _ _); set_solver.
    + cbn [rt_mode rt_timeFunc rt_timezone rt_rangeStart]. change (bool_decide (MATCH_RANGE = MATCH_RANGE)) with true.
      cbv match. cbn [hd]. change (js ">=") with (time_operator MATCH_GTE). apply read_scalar; try done. set_solver.
Qed.

Definition day_range (c : request_condition) : bool :=
  match c with
  | CTime t => negb (overnight t) && bool_decide (rt_mode t = MATCH_RANGE)
  | CParam _ => false
  end.

Lemma pair_none c c' :
  editable c -> editable c' -> day_range c = false -> merges c c' = false ->
  tryParseTimeRangePair (first_text c) (first_text c') = None.
Proof.
  intros He He' Hd Hm. unfold tryParseTimeRangePair. rewrite !first_text_reading by done.
  destruct c as [t|p]; [|done]. destruct c' as [t'|p']; [|by destruct (first_reading (CTime t))].
  assert (first_reading (CTime t) = Some t) as ->.
  { cbn [first_reading day_range] in *. destruct (overnight t); [done|]. cbn [negb andb] in Hd. by rewrite Hd. }
  cbn [mbind option_bind first_reading merges] in *. destruct (overnight t') eqn:Ho.
  { cbn. apply andb_true_iff in Ho as [Ho _]. apply bool_decide_eq_true in Ho.
    rewrite (bool_decide_eq_true_2 (rt_mode t' <> MATCH_LT)) by (by rewrite Ho).
    rewrite orb_true_r. by destruct (_ || _). }
  destruct (bool_decide (rt_mode t' = MATCH_RANGE)) eqn:Hr.
  { cbn. rewrite orb_true_r. by destruct (_ || _). }
  cbn. destruct (bool_decide (rt_timeFunc t <> rt_timeFunc t')) eqn:E1; [done|].
  destruct (bool_decide (rt_timezone t <> rt_timezone t')) eqn:E2; [done|].
  destruct (bool_decide (rt_mode t <> MATCH_GTE)) eqn:E3; [done|].
  destruct (bool_decide (rt_mode t' <> MATCH_LT)) eqn:E4; [done|]. exfalso.
  apply bool_decide_eq_false, dec_stable in E1, E2, E3, E4.
  rewrite E1, E2, E3, E4, !bool_decide_eq_true_2 in Hm by done. done.
Qed.

Lemma single_text c : day_range c = false -> condition_texts c = [first_text c].
Proof.
  unfold first_text. destruct c as [t|p]; cbn [condition_texts day_range]; [|done].
  destruct (overnight t); [done|]. cbn [negb andb]. by intros ->.
Qed.

Lemma single_reading c :
  editable c -> day_range c = false -> tryParseRequestCondition (first_text c) = Ok (Some c).
Proof.
  intros He Hd. destruct c as [t|p].
  - unfold tryParseRequestCondition. rewrite first_text_reading by done. cbn [first_reading day_range] in *.
    destruct (overnight t); [done|]. cbn [negb andb] in Hd. by rewrite Hd.
  - unfold first_text. cbn [condition_texts hd].
    pose proof (read_editable (CParam p) He) as Hr. by rewrite written_editable in Hr.
Qed.

Lemma part_ok_trim s : part_ok s -> trim s = s /\ non_empty s = true.
Proof. intros (_ & Ht & Hne). split; [by apply trimmed_trim | by destruct s]. Qed.

Lemma condition_parts_step s s' rest :
  part_ok s -> part_ok s' ->
  condition_parts (s :: s' :: rest) =
  match tryParseTimeRangePair s s' with
  | Some merged => conditions ← condition_parts rest; Ok (option_map (cons merged) conditions)
  | None =>
      condition ← tryParseRequestCondition s;
      match condition with
      | None => Ok None
      | Some condition =>
          conditions ← condition_parts (s' :: rest); Ok (option_map (cons condition) conditions)
      end
  end.
Proof.
  intros H H'. apply part_ok_trim in H as [H _]. apply part_ok_trim in H' as [H' Hne].
  cbn [condition_parts]. by rewrite H, H', Hne.
Qed.

Lemma day_range_pair c :
  editable c -> day_range c = true ->
  exists s s', condition_texts c = [s; s'] /\ tryParseTimeRangePair s s' = Some c.
Proof.
  intros He Hd. destruct c as [t|p]; [|done]. cbn [condition_texts day_range] in *.
  destruct (overnight t); [done|]. cbn [negb andb] in Hd. rewrite Hd. do 2 eexists. split; [done|].
  destruct He as [f tz mode value Hq Hm Hv|f tz start stop Hq Hs He].
  { cbn [rt_mode] in Hd. by rewrite (proj1 (scalar_mode _ Hm)) in Hd. }
  cbn [rt_timeFunc rt_timezone rt_rangeStart rt_rangeEnd]. unfold tryParseTimeRangePair.
  change (js ">=") with (time_operator MATCH_GTE). change (js "<") with (time_operator MATCH_LT).
  rewrite !read_scalar by (done || set_solver). cbn. by rewrite !bool_decide_eq_false_2 by auto.
Qed.

Definition readable (c : request_condition) : Prop := editable c /\ guarded c = false.

Lemma conjunction_cons c cs : conjunction (c :: cs) = condition_texts c ++ conjunction cs.
Proof. done. Qed.

Lemma conjunction_first c cs : exists rest, conjunction (c :: cs) = first_text c :: rest.
Proof.
  rewrite conjunction_cons. unfold first_text. pose proof (texts_nonempty c).
  destruct (condition_texts c) as [|s l]; [done|]. by eexists.
Qed.

Lemma first_text_ok c : readable c -> part_ok (first_text c).
Proof.
  intros [He Hg]. pose proof (texts_ok c He Hg) as Ht. unfold first_text. pose proof (texts_nonempty c).
  destruct (condition_texts c); [done|]. by apply Forall_cons in Ht as [? _].
Qed.

Lemma read_parts cs :
  Forall readable cs -> separate cs -> condition_parts (conjunction cs) = Ok (Some cs).
Proof.
  induction cs as [|c cs IH]; intros Hall Hsep; [done|]. apply Forall_cons in Hall as [Hc Hall].
  assert (condition_parts (conjunction cs) = Ok (Some cs)) as IH'.
  { apply IH; [done|]. destruct cs; [done|]. by destruct Hsep. }
  destruct (day_range c) eqn:Hd.
  - destruct (day_range_pair c) as (s & s' & Ht & Hpair); [apply Hc | done|].
    pose proof (texts_ok c (proj1 Hc) (proj2 Hc)) as Hok. rewrite conjunction_cons, Ht in *.
    apply Forall_cons in Hok as [H1 Hok]. apply Forall_cons in Hok as [H2 _]. cbn [app].
    rewrite condition_parts_step, Hpair by done. by rewrite IH'.
  - rewrite conjunction_cons, single_text by done. cbn [app].
    destruct cs as [|c' cs].
    + cbn [conjunction map concat]. unfold conjunction. cbn [map concat condition_parts].
      rewrite (proj1 (part_ok_trim _ (first_text_ok c Hc))). by rewrite single_reading by (done || apply Hc).
    + destruct (conjunction_first c' cs) as [rest Hrest]. rewrite Hrest in *.
      apply Forall_cons in Hall as [Hc' _]. destruct Hsep as [Hm _].
      rewrite condition_parts_step by (by apply first_text_ok).
      rewrite pair_none, single_reading by (done || apply Hc || apply Hc').
      unfold mbind, result_bind. by rewrite IH'.
Qed.

(** * The whole conjunction is not one time condition *)

Definition range_tail : list item :=
  [Back 0; Lit (js "(" ++ [dquote]); Back 1; Lit ([dquote] ++ js ") < "); Some1 is_numeric_char].

Lemma dquote_unique a b x y :
  Forall (fun c => not_dquote c = true) a -> Forall (fun c => not_dquote c = true) b ->
  a ++ dquote :: x = b ++ dquote :: y -> a = b /\ x = y.
Proof.
  intros Ha Hb H. assert (a = b) as ->.
  { rewrite <- (take_while_app not_dquote a (dquote :: x)), H by done. by rewrite take_while_app. }
  apply app_inv_head in H. by injection H.
Qed.

Lemma tail_scalar_none f timezone v f' timezone' op value more :
  quotable timezone -> quotable timezone' -> op ∈ [js "=="; js ">="; js "<"] ->
  ~ (f = f' /\ timezone = timezone' /\ op = js "<") ->
  matches range_tail (written_scalar f' timezone' op value ++ more) [time_function_name f; timezone; v] = None.
Proof.
  intros Hq Hq' Hop Hne. destruct (decide (f = f')) as [<-|Hf]; [|by destruct f, f'].
  unfold written_scalar, range_tail. rewrite time_call_app. unfold time_call, call_text.
  rewrite <- !(assoc_L (++)), matches_back by done. rewrite (assoc_L (++) (js "(")), matches_lit.
  cbn [matches lookup list_lookup]. cbn [mbind option_bind].
  destruct (strip timezone _) as [Y|] eqn:HY; [|done]. apply strip_spec in HY. cbn [mbind option_bind].
  destruct (strip _ Y) as [Z|] eqn:HZ; [|done]. exfalso. apply strip_spec in HZ. subst Y.
  change (([dquote] ++ js ") < ") ++ Z) with (dquote :: js ") < " ++ Z) in HY.
  apply dquote_unique in HY as [-> HX]; try by apply quotable_class.
  rewrite !elem_of_cons in Hop. destruct Hop as [->|[->|[->|H]]]; try done; [|by apply not_elem_of_nil in H].
  by apply Hne.
Qed.

Lemma param_opening p : exists x,
  written_param p = js "param(" ++ x \/ written_param p = js "header(" ++ x \/ written_param p = js "has(" ++ x.
Proof.
  unfold written_param, call_text. cbv zeta. rewrite <- !(assoc_L (++)).
  destruct (ph_source p); cbn [param_open];
    repeat match goal with |- context [if ?b then _ else _] => destruct b end; rewrite <- ?(assoc_L (++)); eauto.
Qed.

Lemma tail_none f timezone v c more :
  quotable timezone -> editable c ->
  merges (CTime (RequestTimeCondition f timezone MATCH_GTE v [] [])) c = false ->
  matches range_tail (first_text c ++ more) [time_function_name f; timezone; v] = None.
Proof.
  intros Hq He Hm. unfold first_text. destruct c as [t|p]; cbn [condition_texts].
  2: { cbn [hd]. destruct (param_opening p) as (x & [-> | [-> | ->]]); by destruct f. }
  destruct He as [f' tz' mode value Hq' Hmode Hv|f' tz' start stop Hq' Hs He].
  - pose proof (scalar_mode _ Hmode) as (Hr & _ & Hop & Hback).
    unfold overnight, written_time. cbn [rt_mode rt_timeFunc rt_timezone rt_value]. rewrite Hr. cbn [andb hd].
    apply tail_scalar_none; try done. intros (<- & <- & Ho).
    rewrite Ho in Hback. change (time_op_mode (js "<")) with MATCH_LT in Hback. subst mode.
    cbn [merges rt_timeFunc rt_timezone rt_mode] in Hm. by rewrite !bool_decide_eq_true_2 in Hm by done.
  - destruct (overnight _); [by destruct f|].
    cbn [rt_mode rt_timeFunc rt_timezone rt_rangeStart]. change (bool_decide (MATCH_RANGE = MATCH_RANGE)) with true.
    cbv match. cbn [hd]. apply tail_scalar_none; try done; [set_solver|]. by intros (_ & _ & ?).
Qed.

Lemma time_condition_none expr :
  exec time_range_pattern expr = None -> exec time_range_parens_pattern expr = None ->
  exec time_scalar_pattern expr = None -> tryParseTimeCondition expr = None.
Proof. unfold tryParseTimeCondition. by intros -> -> ->. Qed.

(** The text of a condition followed by a conjunction is not a time condition. *)
Lemma scalar_and_none f timezone op value rest :
  quotable timezone -> op ∈ [js "=="; js ">="; js "<"] -> numeric value ->
  (op = js ">=" -> matches range_tail rest [time_function_name f; timezone; value] = None) ->
  tryParseTimeCondition (written_scalar f timezone op value ++ js " && " ++ rest) = None.
Proof.
  intros Hq Hop Hv Hrest. apply time_condition_none.
  - rewrite range_pattern_scalar by done. destruct (bool_decide (op = js ">=")) eqn:E; [|done]. breflect.
    change (js " && " ++ rest) with (js " " ++ js "&&" ++ js " " ++ rest).
    rewrite matches_lit, matches_logic, matches_lit by set_solver. by apply Hrest.
  - unfold written_scalar. rewrite time_call_app. apply parens_pattern_call.
  - by rewrite scalar_pattern_run.
Qed.

Lemma range_and_none f timezone start stop rest :
  quotable timezone -> numeric start -> numeric stop ->
  tryParseTimeCondition (written_range f timezone start (js "&&") stop ++ js " && " ++ rest) = None.
Proof.
  intros Hq Hs He. apply time_condition_none.
  - unfold exec. rewrite <- (app_nil_r time_range_pattern), range_pattern_run by (done || apply rejects_nil || set_solver).
    done.
  - unfold written_range. rewrite time_call_app. apply parens_pattern_call.
  - rewrite <- range_texts, <- !(assoc_L (++)). by rewrite scalar_pattern_run by (done || set_solver).
Qed.

Lemma parens_and_none f timezone start logic stop rest :
  quotable timezone -> numeric start -> numeric stop -> logic ∈ [js "&&"; js "||"] ->
  tryParseTimeCondition ((js "(" ++ written_range f timezone start logic stop ++ js ")") ++ js " && " ++ rest) = None.
Proof.
  intros Hq Hs He Hl. rewrite <- !(assoc_L (++)). apply time_condition_none.
  - apply range_pattern_parens.
  - unfold exec, time_range_parens_pattern. rewrite matches_lit.
    rewrite range_pattern_run by (done || by apply rejects_lit). by rewrite matches_lit.
  - apply scalar_pattern_parens.
Qed.

Lemma conjunction_not_time c c' cs :
  editable c -> editable c' -> merges c c' = false ->
  tryParseTimeCondition (join (js " && ") (conjunction (c :: c' :: cs))) = None.
Proof.
  intros He He' Hm. rewrite conjunction_cons, join_app;
    [|apply texts_nonempty | destruct (conjunction_first c' cs) as [rest ->]; done].
  assert (exists more, join (js " && ") (conjunction (c' :: cs)) = first_text c' ++ more) as [more Hmore].
  { destruct (conjunction_first c' cs) as [rest ->]. destruct rest as [|s rest]; [exists []; by rewrite app_nil_r|].
    by eexists. }
  rewrite Hmore. destruct c as [t|p]; cbn [condition_texts].
  2: { cbn [join]. destruct (param_opening p) as (x & [-> | [-> | ->]]); reflexivity. }
  destruct He as [f tz mode value Hq Hmode Hv|f tz start stop Hq Hs He].
  - pose proof (scalar_mode _ Hmode) as (Hr & _ & Hop & Hback). pose proof (time_value_numeric _ _ Hv).
    unfold overnight, written_time. cbn [rt_mode rt_timeFunc rt_timezone rt_value]. rewrite Hr. cbn [andb join].
    apply scalar_and_none; try done. intros Ho. apply tail_none; [done|done|].
    rewrite Ho in Hback. change (time_op_mode (js ">=")) with MATCH_GTE in Hback. subst mode. exact Hm.
  - pose proof (time_value_numeric _ _ Hs). pose proof (time_value_numeric _ _ He).
    destruct (overnight _).
    + cbn [join]. rewrite written_range_logic. apply parens_and_none; try done.
      unfold range_logic. destruct (n_ltb _ _); set_solver.
    + cbn [rt_mode rt_timeFunc rt_timezone rt_rangeStart rt_rangeEnd].
      change (bool_decide (MATCH_RANGE = MATCH_RANGE)) with true. cbv match. cbn [join].
      rewrite range_texts. by apply range_and_none.
Qed.

(** * Groups *)

Definition combined (cs : list request_condition) : str :=
  match map buildRequestConditionExpr cs with
  | [e] => e
  | es => join (js " && ") (map enclose es)
  end.

(** The conditions of a group the editor can read back. *)
Record readable_group (g : request_rule_group) : Prop := {
  group_nonempty : rg_conditions g <> [];
  group_readable : Forall readable (rg_conditions g);
  group_clear : length (rg_conditions g) = 1 \/ Forall clear_text (rg_conditions g);
  group_separate : separate (rg_conditions g);
  group_multiplier : NUMERIC_LITERAL_REGEX (rg_multiplier g) = true;
  group_untraced : rg_conditionText g = None /\ rg_matched g = None;
}.

Lemma written_ok c : readable c -> trim (written c) = written c /\ written c <> [].
Proof.
  intros [He Hg]. assert (trimmed (written c) /\ written c <> []) as [? ?]; [|split; [by apply trimmed_trim | done]].
  apply solid_trimmed; (destruct c as [t|p]; cbn [written]; [|by apply param_solid]);
    (destruct He as [f tz mode value Hq Hm Hv|f tz start stop Hq Hs He];
     [unfold written_time; cbn [rt_mode]; rewrite (proj1 (scalar_mode _ Hm)); apply scalar_solid
     |rewrite written_range_logic; apply range_solid]; eauto with billing).
Qed.

Lemma trimmed_solid s : trimmed s -> s <> [] -> starts_solid s /\ ends_solid s.
Proof.
  intros [H1 H2] Hne. unfold starts_solid, ends_solid. destruct s as [|c s] using rev_ind; [done|].
  rewrite last_snoc. rewrite reverse_app in H2. split; [|done]. by destruct (s ++ [c]).
Qed.

Lemma join_solid sep parts :
  parts <> [] -> Forall (fun p => starts_solid p /\ ends_solid p) parts ->
  starts_solid (join sep parts) /\ ends_solid (join sep parts).
Proof.
  intros Hne Hall. induction Hall as [|p parts [Hs He] Hall IH]; [done|]. destruct parts as [|q parts]; [done|].
  destruct IH as [_ IH]; [done|]. change (join sep (p :: q :: parts)) with (p ++ sep ++ join sep (q :: parts)).
  split; [by apply starts_solid_app | by do 2 apply ends_solid_app].
Qed.

Lemma conjunction_ok cs : Forall readable cs -> Forall part_ok (conjunction cs).
Proof.
  intros Hall. unfold conjunction. rewrite Forall_concat, Forall_map. eapply Forall_impl; [exact Hall|].
  intros c [? ?]. by apply texts_ok.
Qed.

Lemma conjunction_trim cs : cs <> [] -> Forall readable cs ->
  trim (join (js " && ") (conjunction cs)) = join (js " && ") (conjunction cs).
Proof.
  intros Hne Hall. apply trimmed_trim, solid_trimmed; apply join_solid;
    try (destruct cs as [|c cs]; [done|]; destruct (conjunction_first c cs) as [rest ->]; done);
    (eapply Forall_impl; [by apply conjunction_ok|]; intros s (_ & ? & ?); by apply trimmed_solid).
Qed.

Lemma read_conditions cs :
  cs <> [] -> Forall readable cs -> length cs = 1 \/ Forall clear_text cs -> separate cs ->
  tryParseRequestConditions (combined cs) = Ok (Some cs).
Proof.
  intros Hne Hall Hclear Hsep. unfold tryParseRequestConditions, combined.
  destruct cs as [|c [|c' cs]]; [done| |].
  - cbn [map]. apply Forall_cons in Hall as [Hc _]. rewrite written_editable by apply Hc.
    rewrite (proj1 (written_ok c Hc)). destruct c as [t|p]; cbn [written].
    + pose proof (read_editable (CTime t) (proj1 Hc)) as Hr. rewrite written_editable in Hr by apply Hc.
      unfold tryParseRequestCondition in Hr. cbn [written] in Hr.
      pose proof (proj1 Hc) as He. cbn [editable] in He.
      destruct He as [f tz mode value Hq Hm Hv|f tz start stop Hq Hs He].
      * unfold written_time in *. cbn [rt_mode rt_timeFunc rt_timezone rt_value] in *.
        rewrite (proj1 (scalar_mode _ Hm)) in *. by rewrite read_scalar.
      * rewrite written_range_logic in *. rewrite read_range; try done.
        unfold range_logic. destruct (n_ltb _ _); set_solver.
    + rewrite param_not_time. pose proof (conjunction_split [CParam p]) as Hs.
      cbn [conjunction map concat] in Hs. unfold conjunction in Hs. cbn [map concat condition_texts app join] in Hs.
      rewrite Hs by (done || by constructor). pose proof (read_parts [CParam p]) as Hr.
      unfold conjunction in Hr. cbn [map concat condition_texts app] in Hr. by rewrite Hr by (done || by constructor).
  - cbn [map]. destruct Hclear as [?|Hclear]; [done|].
    assert (Forall (fun c => editable c /\ clear_text c) (c :: c' :: cs)) as Hec.
    { apply Forall_and. split; [|done]. eapply Forall_impl; [exact Hall | by intros ? [? ?]]. }
    pose proof (conjunction_join _ Hec) as Hj. cbn [map] in Hj. rewrite Hj.
    assert (splitTopLevelAnd (join (js " && ") (conjunction (c :: c' :: cs))) = conjunction (c :: c' :: cs)) as Hs.
    { apply conjunction_split; [done | exact Hall]. }
    rewrite Hs, read_parts by done.
    assert (trim (join (js " && ") (conjunction (c :: c' :: cs))) = join (js " && ") (conjunction (c :: c' :: cs))) as ->.
    { apply conjunction_trim; [done | exact Hall]. }
    apply Forall_cons in Hall as [Hc Hall]. apply Forall_cons in Hall as [Hc' _]. destruct Hsep as [Hm _].
    rewrite conjunction_not_time by (done || apply Hc || apply Hc'). done.
Qed.

(** ** The factor pattern *)

Lemma numeric_token_unique a a' w w' :
  numeric w -> numeric w' -> a ++ js " ? " ++ w = a' ++ js " ? " ++ w' -> a = a' /\ w = w'.
Proof.
  intros [_ Hw] [_ Hw'] H.
  assert (Hrev : forall a w, Forall (fun c => is_numeric_char c = true) w ->
    take_while is_numeric_char (reverse (a ++ js " ? " ++ w)) = reverse w).
  { intros b v Hv. rewrite !reverse_app, <- (assoc_L (++)). apply take_while_app; [by apply Forall_reverse | done]. }
  assert (w = w') as ->.
  { apply (inj reverse). rewrite <- (Hrev a w), <- (Hrev a' w') by done. by rewrite H. }
  rewrite !(assoc_L (++)) in H. apply app_inv_tail in H. by apply app_inv_tail in H.
Qed.

Lemma factor_tail_sound s caps out :
  matches [Lit (js " ? "); Some1 is_numeric_char; Lit (js " : 1)")] s caps = Some out ->
  exists w, numeric w /\ s = js " ? " ++ w ++ js " : 1)".
Proof.
  cbn [matches]. destruct (strip (js " ? ") s) as [s'|] eqn:Hs; [|done]. apply strip_spec in Hs as ->.
  cbn [mbind option_bind]. intros H. apply longest_first_Some in H as (j & Hj & H).
  destruct (strip (js " : 1)") (drop j s')) as [r|] eqn:Hr; [|done]. apply strip_spec in Hr.
  cbn [mbind option_bind] in H. destruct r; [|done]. rewrite app_nil_r in Hr.
  exists (take j s'). split; [|by rewrite <- Hr, take_drop].
  pose proof (take_while_all is_numeric_char s') as Hall. rewrite take_while_take in Hall.
  split.
  - destruct s' as [|c s']; [simpl in Hj; lia|]. destruct j; [lia | done].
  - rewrite <- (Nat.min_l j (length (take_while is_numeric_char s'))) by lia.
    rewrite <- take_take. by apply Forall_take.
Qed.

Lemma any_char_all s : take_while any_char s = s.
Proof. induction s as [|c s IH]; [done|]. cbn. by rewrite IH. Qed.

Lemma factor_pattern_run text multiplier :
  text <> [] -> numeric multiplier ->
  exec rule_factor_pattern (js "(" ++ text ++ js " ? " ++ multiplier ++ js " : 1)") = Some [text; multiplier].
Proof.
  intros Hne Hm. unfold exec, rule_factor_pattern. rewrite matches_lit.
  set (tail := js " ? " ++ multiplier ++ js " : 1)").
  change (matches (Some1 any_char :: ?r) ?s ?c) with
    (longest_first (fun k => matches r (drop k s) (c ++ [take k s])) (length (take_while any_char s))).
  rewrite any_char_all. cbn [app].
  apply (longest_first_unique _ _ (length text)).
  - rewrite length_app. destruct text; [done | simpl; lia].
  - rewrite drop_app_length, take_app_length. unfold tail. rewrite matches_lit.
    rewrite matches_number by (done || by apply rejects_lit). reflexivity.
  - intros i Hi Hij. destruct (matches _ (drop i (text ++ tail)) _) as [out|] eqn:E; [|done]. exfalso. apply Hij.
    apply factor_tail_sound in E as (w & Hw & Hd).
    assert (take i (text ++ tail) ++ js " ? " ++ w ++ js " : 1)" = text ++ tail) as Heq by (by rewrite <- Hd, take_drop).
    remember (take i (text ++ tail)) as pre eqn:Hpre.
    unfold tail in Heq. rewrite !(assoc_L (++)) in Heq. apply app_inv_tail in Heq.
    rewrite <- !(assoc_L (++)) in Heq. apply numeric_token_unique in Heq as [Heq _]; [|done|done].
    apply (f_equal length) in Heq. rewrite Hpre, length_take in Heq. lia.
Qed.

(** ** Whole groups *)

Lemma map_written_nonempty cs :
  Forall readable cs ->
  List.filter non_empty (map buildRequestConditionExpr cs) = map buildRequestConditionExpr cs.
Proof.
  intros Hall. apply forallb_filter_id, forallb_forall. intros e Hin.
  apply in_map_iff in Hin as (c & <- & Hin). rewrite Forall_forall in Hall.
  apply list_elem_of_In, Hall in Hin as Hc. rewrite written_editable by apply Hc.
  pose proof (proj2 (written_ok c Hc)). by destruct (written c).
Qed.

Lemma written_group g :
  readable_group g ->
  buildRuleGroupFactor g = js "(" ++ combined (rg_conditions g) ++ js " ? " ++ rg_multiplier g ++ js " : 1)".
Proof.
  intros [Hne Hall Hclear Hsep Hm _]. unfold buildRuleGroupFactor.
  rewrite (numeric_trim (rg_multiplier g)) by (by apply NUMERIC_numeric). rewrite Hm. cbn [negb].
  rewrite map_written_nonempty by done. unfold combined.
  destruct (rg_conditions g) as [|c [|c' cs]]; [done|done|]. reflexivity.
Qed.

Lemma combined_nonempty cs : cs <> [] -> Forall readable cs -> combined cs <> [].
Proof.
  intros Hne Hall. unfold combined. destruct cs as [|c cs]; [done|]. apply Forall_cons in Hall as [Hc _].
  pose proof (proj2 (written_ok c Hc)) as Hw. rewrite <- written_editable in Hw by apply Hc.
  destruct cs as [|c' cs]; cbn [map]; [done|].
  change (join (js " && ") (enclose ?a :: enclose ?b :: ?r)) with (enclose a ++ js " && " ++ join (js " && ") (enclose b :: r)).
  unfold enclose at 1. destruct (includes _ _); [done|]. by destruct (buildRequestConditionExpr c).
Qed.

Lemma read_group g : readable_group g -> tryParseRuleGroupFactor (buildRuleGroupFactor g) = Ok (Some g).
Proof.
  intros Hg. rewrite written_group by done. destruct Hg as [Hne Hall Hclear Hsep Hm [Ht Hma]].
  unfold tryParseRuleGroupFactor. rewrite factor_pattern_run;
    [|by apply combined_nonempty | by apply NUMERIC_numeric].
  rewrite read_conditions by done. destruct g as [cs m text matched]. simpl in *. by subst.
Qed.

(** Inside the parentheses of a factor nothing is split at. *)
Lemma written_flat d c : (d = 1%Z \/ d = 2%Z) -> editable c -> flat 42 d (written c).
Proof.
  intros Hd He. assert (shallow 42 d) as Hs by (split; [by left | by right]).
  destruct c as [t|p]; cbn [written]; [|apply flat_param; auto].
  destruct He as [f tz mode value [Hq Hp] Hm Hv|f tz start stop [Hq Hp] Hs' He].
  - unfold written_time. cbn [rt_mode rt_timeFunc rt_timezone rt_value]. pose proof (scalar_mode _ Hm) as (-> & _ & Hop & _).
    apply flat_scalar; eauto with billing.
  - rewrite written_range_logic. apply flat_range; eauto with billing. unfold range_logic.
    by destruct (n_ltb _ _), Hd as [-> | ->].
Qed.

Lemma enclose_flat c : editable c -> flat 42 1 (enclose (buildRequestConditionExpr c)).
Proof.
  intros He. rewrite written_editable by done. unfold enclose.
  destruct (includes _ _); [|apply written_flat; auto].
  apply flat_parens; [by split; [left | right; left]|]. apply written_flat; auto.
Qed.

Lemma group_text_ok g : readable_group g ->
  flat 42 0 (buildRuleGroupFactor g) /\ trimmed (buildRuleGroupFactor g) /\ buildRuleGroupFactor g <> [].
Proof.
  intros Hg. rewrite written_group by done. destruct Hg as [Hne Hall Hclear Hsep Hm _]. split.
  - assert (Htext : forall a b, js "(" ++ a ++ js " ? " ++ b ++ js " : 1)" =
      js "(" ++ (a ++ js " ? " ++ b ++ js " : 1") ++ js ")").
    { intros a b. by rewrite <- !(assoc_L (++)). }
    rewrite Htext.
    apply flat_parens; [by split; [left | left]|]. repeat apply flat_app.
    + unfold combined. assert (Forall (fun c => flat 42 1 (enclose (buildRequestConditionExpr c))) (rg_conditions g)) as Hf.
      { eapply Forall_impl; [exact Hall|]. intros c [Hc _]. by apply enclose_flat. }
      destruct (rg_conditions g) as [|c [|c' cs]]; [done| |].
      * cbn [map]. apply Forall_cons in Hall as [Hc _]. rewrite written_editable by apply Hc.
        apply written_flat; [by left | apply Hc].
      * cbn [map]. apply flat_join; [done|]. rewrite map_map.
        change (enclose (buildRequestConditionExpr c) :: enclose (buildRequestConditionExpr c') ::
          map (fun x => enclose (buildRequestConditionExpr x)) cs) with
          (map (fun x => enclose (buildRequestConditionExpr x)) (c :: c' :: cs)). by apply Forall_map.
    + done.
    + apply flat_numeric; [by left | by apply NUMERIC_numeric].
    + done.
  - apply solid_trimmed; [done|]. by do 4 apply ends_solid_app.
Qed.

Lemma read_rules groups :
  Forall readable_group groups ->
  rule_parts (map buildRuleGroupFactor groups) = Ok (Some groups).
Proof.
  induction 1 as [|g groups Hg Hall IH]; [done|]. cbn [map rule_parts]. rewrite read_group by done.
  unfold mbind, result_bind. by rewrite IH.
Qed.

Lemma build_rules groups :
  Forall readable_group groups -> buildRequestRuleExpr groups = join (js " * ") (map buildRuleGroupFactor groups).
Proof.
  intros Hall. unfold buildRequestRuleExpr. f_equal. apply forallb_filter_id, forallb_forall. intros e Hin.
  apply in_map_iff in Hin as (g & <- & Hin). rewrite Forall_forall in Hall.
  apply list_elem_of_In, Hall, group_text_ok in Hin as (_ & _ & Hne). by destruct (buildRuleGroupFactor g).
Qed.

Lemma rules_ok groups : Forall readable_group groups ->
  Forall (fun p => flat 42 0 p /\ trimmed p /\ p <> []) (map buildRuleGroupFactor groups).
Proof. intros Hall. apply Forall_map. eapply Forall_impl; [exact Hall|]. intros g Hg. by apply group_text_ok. Qed.

Lemma rules_trim groups : Forall readable_group groups -> groups <> [] ->
  trimmed (buildRequestRuleExpr groups) /\ buildRequestRuleExpr groups <> [].
Proof.
  intros Hall Hne. rewrite build_rules by done. apply solid_trimmed; apply join_solid; try by destruct groups.
  all: eapply Forall_impl; [by apply rules_ok|]; intros p (_ & ? & ?); by apply trimmed_solid.
Qed.

Lemma rules_split groups : Forall readable_group groups -> groups <> [] ->
  splitTopLevelMultiply (buildRequestRuleExpr groups) = map buildRuleGroupFactor groups.
Proof.
  intros Hall Hne. rewrite build_rules by done. unfold splitTopLevelMultiply.
  change (js " * ") with (separator (js "*")). change (js "*") with (42%N :: []).
  rewrite split_join; [done | by left | by destruct groups | by apply rules_ok].
Qed.

(** * Guarded conditions *)

(** A guarded test as the writer splits it: the existence test and the test proper. *)
Definition guarded_inner (p : param_header_condition) : str :=
  if bool_decide (ph_mode p = MATCH_CONTAINS) then
    js "has(" ++ call_text (param_open Src_param) (ph_path p) (js ", " ++ JSON_stringify (ph_value p) ++ js ")")
  else call_text (param_open Src_param) (ph_path p) (js " " ++ compare_operator (ph_mode p) ++ js " " ++ ph_value p).

Lemma guarded_text p :
  editable_param p -> guarded (CParam p) = true ->
  written_param p = join (js " && ")
    [written_param (ParamHeaderCondition Src_param (ph_path p) MATCH_EXISTS []); guarded_inner p].
Proof.
  intros Hp Hg. destruct p as [source path mode value]. unfold guarded in Hg. cbn [ph_source ph_mode] in Hg.
  apply andb_true_iff in Hg as [Hs Hm]. breflect. subst source. unfold guarded_inner. cbn [join ph_mode ph_path ph_value].
  unfold written_param. cbn [ph_source ph_path ph_mode ph_value]. cbv zeta.
  change (bool_decide (MATCH_EXISTS = MATCH_EXISTS)) with true. cbv match.
  assert (Happ : forall a b, call_text (param_open Src_param) path a ++ b = call_text (param_open Src_param) path (a ++ b)).
  { intros a b. unfold call_text. rewrite <- !(assoc_L (++)). cbn [app]. by rewrite <- ?(assoc_L (++)). }
  rewrite Happ. destruct (bool_decide (mode = MATCH_EXISTS)) eqn:E1.
  { breflect. subst mode. apply orb_true_iff in Hm as [Hm|Hm]; done. }
  destruct (bool_decide (mode = MATCH_CONTAINS)) eqn:E2; [reflexivity|]. cbn [orb] in Hm. by rewrite Hm.
Qed.

Lemma guarded_inner_ok p : editable_param p -> guarded (CParam p) = true -> part_ok (guarded_inner p).
Proof.
  intros Hp Hg. assert (shallow 38 0) as Hs0 by (split; [by right | by left]).
  destruct Hp as [source path [_ Hpl] Ht|source path value [_ Hpl] Ht Hu Hv|path mode value [_ Hpl] Ht Hm Hn
    |source path value _ Ht Hu Hv Hl]; unfold guarded_inner; cbn [ph_path ph_mode ph_value];
    try (by destruct source).
  - change (bool_decide (MATCH_CONTAINS = MATCH_CONTAINS)) with true. cbv match. split; [|apply solid_trimmed].
    + change (js "has(" ++ ?t) with (js "has" ++ js "(" ++ t). apply flat_app; [done|].
      assert (Hcall : call_text (param_open Src_param) path (js ", " ++ JSON_stringify value ++ js ")") =
        call_text (param_open Src_param) path (js ", " ++ JSON_stringify value) ++ js ")").
      { unfold call_text. rewrite <- !(assoc_L (++)). by f_equal. }
      rewrite Hcall. apply flat_parens; [done|]. apply flat_call; [done | done | by right | done|].
      apply flat_app; [done | by apply flat_stringify].
    + done.
    + apply ends_solid_app, call_solid; [done | by do 2 apply ends_solid_app].
  - destruct (bool_decide (mode = MATCH_CONTAINS)) eqn:E2; [breflect; subst; done|]. split; [|apply solid_trimmed].
    + apply flat_param_call; [done|done|]. apply flat_app; [done|]. apply flat_app.
      { unfold compare_operator. destruct (bool_decide (mode = MATCH_GT)); [done|].
        destruct (bool_decide (mode = MATCH_GTE)); [done|]. by destruct (bool_decide (mode = MATCH_LT)). }
      apply flat_app; [done|]. apply numeric_flat; [done | by apply NUMERIC_numeric].
    + done.
    + apply call_solid; [done|]. do 3 apply ends_solid_app. auto with billing.
Qed.

Lemma compare_operator_cases mode : is_compare_mode mode = true ->
  compare_operator mode = js ">" \/ compare_operator mode = js ">=" \/ compare_operator mode = js "<" \/
  compare_operator mode = js "<=".
Proof.
  unfold is_compare_mode. rewrite !orb_true_iff. intros [[[H|H]|H]|H]; breflect; subst mode; auto.
Qed.

(** The second half alone is no condition the reader knows. *)
Lemma guarded_inner_unknown p :
  editable_param p -> guarded (CParam p) = true -> tryParseRequestCondition (guarded_inner p) = Ok None.
Proof.
  intros Hp Hg. destruct Hp as [source path Hq Ht|source path value Hq Ht Hu Hv|path mode value Hq Ht Hm Hn
    |source path value Hq Ht Hu Hv Hl]; unfold guarded_inner; cbn [ph_path ph_mode ph_value]; try (by destruct source).
  destruct (bool_decide (mode = MATCH_CONTAINS)) eqn:E2; [breflect; subst; done|].
  unfold tryParseRequestCondition. rewrite time_call_none.
  set (text := call_text _ _ _).
  assert (Hno : forall l r, strip l (js " " ++ compare_operator mode ++ js " " ++ value) = None ->
    matches (Lit (param_open Src_param ++ [dquote]) :: Some1 not_dquote :: Lit ([dquote] ++ js ")" ++ l) :: r) text [] = None).
  { intros l r Hl. unfold text. rewrite matches_call by done. cbn [matches]. by rewrite Hl. }
  assert (exec header_exists_pattern text = None) as -> by done.
  assert (exec param_exists_pattern text = None) as ->.
  { apply (Hno (js " != nil") []). by destruct (compare_operator_cases mode Hm) as [-> | [-> | [-> | ->]]]. }
  unfold attempt_contains, attempt_compare, attempt_equals.
  assert (exec header_contains_pattern text = None) as -> by done.
  assert (exec param_contains_pattern text = None) as ->.
  { apply (Hno (js " != nil && has(param(" ++ [dquote])).
    by destruct (compare_operator_cases mode Hm) as [-> | [-> | [-> | ->]]]. }
  assert (exec param_compare_pattern text = None) as ->.
  { apply (Hno (js " != nil && param(" ++ [dquote])).
    by destruct (compare_operator_cases mode Hm) as [-> | [-> | [-> | ->]]]. }
  assert (exec equals_pattern text = None) as ->; [|done].
  change text with (source_name Src_param ++ (js "(" ++ [dquote]) ++ path ++ dquote :: js ")" ++ js " " ++
    compare_operator mode ++ js " " ++ value).
  unfold exec, equals_pattern. rewrite matches_source, matches_lit.
  etrans; [by apply matches_argument|].
  by destruct (compare_operator_cases mode Hm) as [-> | [-> | [-> | ->]]].
Qed.

Lemma guarded_conditions p :
  editable_param p -> guarded (CParam p) = true -> tryParseRequestConditions (combined [CParam p]) = Ok None.
Proof.
  intros Hp Hg. unfold tryParseRequestConditions, combined. cbn [map].
  rewrite written_editable_param by done.
  assert (trim (written_param p) = written_param p) as ->.
  { apply trimmed_trim, solid_trimmed; by apply param_solid. }
  rewrite param_not_time.
  set (ex := ParamHeaderCondition Src_param (ph_path p) MATCH_EXISTS []).
  assert (quotable (ph_path p) /\ trim (ph_path p) = ph_path p) as [Hq Htr] by (by destruct Hp).
  assert (editable_param ex) as Hex by (by constructor).
  assert (part_ok (written_param ex)) as Hok1.
  { split; [apply flat_param; [by split; [right | left] | done | by left] | apply solid_trimmed; by apply param_solid]. }
  pose proof (guarded_inner_ok p Hp Hg) as Hok2.
  rewrite guarded_text by done. fold ex.
  assert (splitTopLevelAnd (join (js " && ") [written_param ex; guarded_inner p]) = [written_param ex; guarded_inner p]) as ->.
  { unfold splitTopLevelAnd. change (js " && ") with (separator (js "&&")). change (js "&&") with (38%N :: [38%N]).
    rewrite split_join; [done | by right | done | by constructor; [|constructor]]. }
  rewrite condition_parts_step by done. unfold tryParseTimeRangePair at 1. rewrite param_not_time. cbn [mbind option_bind].
  pose proof (read_editable (CParam ex) Hex) as Hr. rewrite written_editable in Hr by done. cbn [written] in Hr. rewrite Hr.
  unfold mbind, result_bind. cbn [condition_parts]. rewrite (proj1 (part_ok_trim _ Hok2)), guarded_inner_unknown by done.
  done.
Qed.
