(* ===== verification/BillingExpr.v ===== *)
(** The billing variable registry, the tier readers built on the structured displays,
    and the separation of a complete expression into its price part and its request
    rules (features/pricing/lib/billing-expr.ts). *)

From S2P Require Import Prelude JsString JsNumber JsValue BillingTypes BillingParser BillingCompile BillingRuntime BillingStructure BillingDisplay RequestRules.

(** * Variable registry *)

Inductive var_side : Type := Side_input | Side_output | Side_condition.
Record billing_var := BillingVar {
  bv_key : str;
  bv_field : option str;
  bv_tierField : option str;
  bv_label : str;
  bv_shortLabel : str;
  bv_side : var_side;
  bv_isBase : bool;
  bv_isConditionOnly : bool;
  bv_group : option str;
}.

Definition base_var (key field tierField label short : str) (side : var_side) : billing_var :=
  BillingVar key (Some field) (Some tierField) label short side true false None.
Definition extra_var (key field tierField label short : str) (side : var_side) (group : str) : billing_var :=
  BillingVar key (Some field) (Some tierField) label short side false false (Some group).

Definition BILLING_VARS : list billing_var :=
  [base_var (js "p") (js "inputPrice") (js "input_unit_cost") (js "Input price") (js "Input") Side_input;
   base_var (js "c") (js "outputPrice") (js "output_unit_cost") (js "Completion price") (js "Output") Side_output;
   BillingVar (js "len") None None (js "Input length") (js "Length") Side_condition false true None;
   extra_var (js "cr") (js "cacheReadPrice") (js "cache_read_unit_cost") (js "Cache read price")
     (js "Cache Read") Side_input (js "cache");
   extra_var (js "cc") (js "cacheCreatePrice") (js "cache_create_unit_cost") (js "Cache create price")
     (js "Cache Write") Side_input (js "cache");
   extra_var (js "img_cr") (js "imageCachePrice") (js "image_cache_unit_cost") (js "Image cache input price")
     (js "Image Cache") Side_input (js "cache");
   extra_var (js "cc1h") (js "cacheCreate1hPrice") (js "cache_create_1h_unit_cost") (js "Cache create (1h) price")
     (js "Cache Write (1h)") Side_input (js "cache");
   extra_var (js "cc12h") (js "cacheCreate12hPrice") (js "cache_create_12h_unit_cost")
     (js "Cache create (12h) price") (js "Cache Write (12h)") Side_input (js "cache");
   extra_var (js "img") (js "imagePrice") (js "image_unit_cost") (js "Image input price")
     (js "Image In") Side_input (js "media");
   extra_var (js "img_o") (js "imageOutputPrice") (js "image_output_unit_cost") (js "Image output price")
     (js "Image Out") Side_output (js "media");
   extra_var (js "ai") (js "audioInputPrice") (js "audio_input_unit_cost") (js "Audio input price")
     (js "Audio In") Side_input (js "media");
   extra_var (js "ao") (js "audioOutputPrice") (js "audio_output_unit_cost") (js "Audio output price")
     (js "Audio Out") Side_output (js "media")].

Definition BILLING_PRICING_VARS : list billing_var :=
  List.filter (fun v => negb (bv_isConditionOnly v)) BILLING_VARS.
Definition BILLING_CONDITION_VARS : list str :=
  map bv_key (List.filter (fun v => bv_isBase v || bv_isConditionOnly v) BILLING_VARS).
(** [v.field as string]: the cast of a null field would give null; pricing
    variables all have one. *)
Definition BILLING_VAR_KEY_TO_FIELD : list (str * str) :=
  map (fun v => (bv_key v, default [] (bv_field v))) BILLING_PRICING_VARS.
Definition BILLING_EXTRA_VARS : list billing_var :=
  List.filter (fun v => negb (bv_isBase v) && negb (bv_isConditionOnly v)) BILLING_VARS.
Definition BILLING_CACHE_VAR_MAP : list (str * str) :=
  map (fun v => (default [] (bv_tierField v), bv_key v)) BILLING_EXTRA_VARS.

Definition CLAUDE_CACHE_CREATION_1H_MULTIPLIER : number := n_div (n_of_Z 6) (number_of_literal (js "3.75")).
Definition OPENAI_CACHE_CREATION_12H_MULTIPLIER : number := n_of_Z 2.

(** * Tier readers *)

(** [ParsedTier]: the named attributes and the remaining price fields. *)
Record parsed_tier := ParsedTier {
  pt_label : str;
  pt_imageCount : bool;
  pt_conditions : list token_condition;
  pt_billingUnit : option billing_unit;
  pt_fixedPrice : option number;
  pt_conditionText : option str;
  pt_fields : list (str * number);
}.

(** [BILLING_VAR_KEY_TO_FIELD[key]] as a property name. *)
Definition price_field (key : str) : str :=
  default (js "undefined") (obj_get key BILLING_VAR_KEY_TO_FIELD).
(** [Object.fromEntries]: a repeated name keeps its place and takes the last value. *)
Fixpoint set_field (k : str) (v : number) (o : list (str * number)) : list (str * number) :=
  match o with
  | [] => [(k, v)]
  | (k', v') :: o' => if bool_decide (k = k') then (k', v) :: o' else (k', v') :: set_field k v o'
  end.
Definition from_entries (entries : list (str * number)) : list (str * number) :=
  fold_left (fun o e => set_field e.1 e.2 o) entries [].

Definition mapTokenTier (tier : token_tier) : parsed_tier :=
  let request := match tt_billingUnit tier with Some Unit_request => true | _ => false end in
  ParsedTier (tt_label tier) (tt_imageCount tier) (tt_conditions tier)
    (if request then tt_billingUnit tier else None)
    (if request then tt_fixedPrice tier else None)
    (match tt_conditionText tier with Some (_ :: _) => tt_conditionText tier | _ => None end)
    (from_entries (map (fun e => (price_field (variable_name e.1), e.2)) (tt_prices tier))).

(** A time tier is the token tier with its own [conditionText]. *)
Definition mapTimeTier (tier : time_token_tier) : parsed_tier :=
  mapTokenTier (with_text (tk_tier tier) (tk_conditionText tier)).

Section tiers.
Context {host : Host}.

Definition parseTiersFromExpr (exprStr : str) : result exn (list parsed_tier) :=
  match exprStr with
  | [] => Ok []
  | _ =>
      match compile_source exprStr with
      | NotReady _ => Ok []
      | Ready compiled =>
          match readTokenTierChain (c_ast compiled) exprStr with
          | Some canonical => Ok (map mapTokenTier canonical)
          | None =>
              pricing ← readTimeTokenPricing exprStr None;
              Ok (match pricing with Some (tiers, _) => map mapTimeTier tiers | None => [] end)
          end
      end
  end.

Definition getCurrentTimePricingTiers (exprStr : str) (now : date) : result exn (option (list parsed_tier)) :=
  pricing ← readTimeTokenPricing exprStr (Some now);
  Ok (match pricing with Some (_, current) => Some (map mapTimeTier current) | None => None end).

(** The comparison characters of a label, ASCII and full width, without a
    following equals sign. *)
Fixpoint replace_comparison (ascii full single : N) (s : str) : str :=
  match s with
  | [] => []
  | c :: r =>
      if (c =? ascii)%N || (c =? full)%N then
        ascii :: match r with
                 | d :: r' => if (d =? 61)%N || (d =? 65309)%N then replace_comparison ascii full single r'
                              else replace_comparison ascii full single r
                 | [] => []
                 end
      else if (c =? single)%N then ascii :: replace_comparison ascii full single r
      else c :: replace_comparison ascii full single r
  end.

Definition normalizeTierLabel (label : option str) : str :=
  match label with
  | None | Some [] => []
  | Some label =>
      let label := replace_comparison 60 65308 8804 label in
      let label := replace_comparison 62 65310 8805 label in
      to_lower_case (List.filter (fun c => negb (is_space c)) label)
  end.
End tiers.

(** * Combining and separating *)

Definition unwrapOuterParens (expr : str) : str := default [] (unwrapExpressionParens expr).

(** A factor the editor can read, or one the compiler traces as a rule. *)
Definition is_rule_part (part : str) : result exn bool :=
  parsed ← tryParseRequestRuleExpr part;
  let traced :=
    match compile_source part with
    | Ready compiled => existsb (fun rule => bool_decide (cr_node rule = c_ast compiled)) (c_requestRules compiled)
    | NotReady _ => false
    end in
  Ok (match parsed with Some (_ :: _) => true | _ => false end || traced).

(** The [forEach] loop: the rule parts and the base parts. *)
Fixpoint partition_parts (parts : list str) : result exn (list str * list str) :=
  match parts with
  | [] => Ok ([], [])
  | part :: rest =>
      rule ← is_rule_part part;
      '(rules, base) ← partition_parts rest;
      Ok (if (rule : bool) then (part :: rules, base) else (rules, part :: base))
  end.

Record separated := Separated { billingExpr : str; requestRuleExpr : str }.

Definition splitBillingExprAndRequestRules (expr : str) : result exn separated :=
  let trimmed := trim expr in
  match trimmed with
  | [] => Ok (Separated [] [])
  | _ =>
      let parts := splitTopLevelMultiply trimmed in
      if bool_decide (length parts <= 1) then Ok (Separated trimmed [])
      else
        '(ruleParts, baseParts) ← partition_parts parts;
        let quantityParts :=
          List.filter (fun part => bool_decide (unwrapOuterParens part = js "image_count")) baseParts in
        if bool_decide (length ruleParts = 0) || negb (bool_decide (length baseParts = length quantityParts + 1))
        then Ok (Separated trimmed [])
        else Ok (Separated (join (js " * ") (map unwrapOuterParens baseParts)) (join (js " * ") ruleParts))
  end.

Definition combineBillingExpr (baseExpr requestRuleExpr : str) : str :=
  let base := trim baseExpr in
  let rules := trim requestRuleExpr in
  match base, rules with
  | [], _ => []
  | _, [] => base
  | _, _ => js "(" ++ base ++ js ") * " ++ rules
  end.

Definition parseTaskTiersFromExpr (exprStr : str) (schema : option usage_schema) (includeBooleanConditions : bool)
    : result exn (list task_tier) :=
  match exprStr, schema with
  | [], _ | _, None | _, Some [] => Ok []
  | _, Some schema =>
      split ← splitBillingExprAndRequestRules exprStr;
      match compile_source (billingExpr split) with
      | NotReady _ => Ok []
      | Ready compiled => Ok (default [] (readTaskTierChain (c_ast compiled) schema includeBooleanConditions))
      end
  end.

Example split_combined :
  splitBillingExprAndRequestRules
    (combineBillingExpr (js "tier('a', p * 2)") (buildRequestRuleExpr sample_groups)) =
  Ok (Separated (js "tier('a', p * 2)") (buildRequestRuleExpr sample_groups)).
Proof. vm_compute. reflexivity. Qed.
