(* ===== verification/BillingExprFacts.v ===== *)
(** Lemmas on the tier mapping and on separating a complete expression into its price
    part and its request rules. *)

From S2P Require Import Prelude JsString JsNumber JsValue BillingTypes BillingParser BillingCompile BillingRuntime BillingStructure BillingCompileFacts BillingDisplay JsRegExp JsJson RequestRules RequestRuleFacts RequestRuleGroups BillingExpr.

(** * Price fields *)

(** The variables that carry a price. *)
Definition carries_price (v : billing_variable) : Prop := v <> V_len /\ v <> V_image_count.

Record prices_ok (prices : list (billing_variable * number)) : Prop := {
  prices_nodup : NoDup (map fst prices);
  prices_priced : Forall (fun e => carries_price e.1) prices;
}.

Lemma priced_variable_priced n v : priced_variable n = Some v -> carries_price v.
Proof.
  unfold priced_variable. intros H. repeat dmatch_in H; simplify_eq; try done.
  apply orb_false_iff in E0 as [H1 H2]. breflect. done.
Qed.

Lemma priced_term_priced n v price : priced_term n = Some (v, price) -> carries_price v.
Proof.
  unfold priced_term. intros H. repeat dmatch_in H; simplify_eq; try done;
    apply bind_Some in H as (w & Hw & [= -> ->]); by apply priced_variable_priced in Hw.
Qed.

Lemma fold_prices_ok terms prices0 prices :
  prices_ok prices0 -> fold_left add_price terms (Some prices0) = Some prices -> prices_ok prices.
Proof.
  revert prices0. induction terms as [|t terms IH]; intros prices0 H0; cbn [fold_left]; [by intros [= <-]|].
  destruct (add_price (Some prices0) t) as [prices1|] eqn:Ha.
  - apply IH. unfold add_price in Ha. cbn [mbind option_bind] in Ha.
    destruct (priced_term t) as [[v price]|] eqn:Ht; [|done]. cbn [mbind option_bind] in Ha.
    destruct (obj_get v prices0) eqn:Hg; [done|]. injection Ha as <-. destruct H0 as [Hn Hp]. split.
    + rewrite map_app. apply NoDup_app. split; [done|]. split; [|apply NoDup_singleton].
      intros x Hx Hv. apply list_elem_of_singleton in Hv as ->. by apply obj_get_None in Hg.
    + apply Forall_app. split; [done|]. constructor; [|constructor]. by eapply priced_term_priced.
  - clear. intros H. exfalso. induction terms as [|t' terms IH]; [done|]. auto.
Qed.

Lemma tokenTier_prices_ok n conditions text tier :
  tokenTier n conditions text = Some tier -> prices_ok (tt_prices tier).
Proof.
  assert (Hnil : prices_ok []) by (split; constructor). unfold tokenTier. intros H.
  assert (Hmet : forall terms label, (prices ← fold_left add_price terms (Some []);
      match prices with [] => None | _ => Some (TokenTier None false None None label conditions prices) end) = Some tier ->
      prices_ok (tt_prices tier)).
  { intros terms label Hf. apply bind_Some in Hf as (prices & Hf & Hs). apply fold_prices_ok in Hf; [|done].
    destruct prices; [done|]. by injection Hs as <-. }
  destruct n as [| |[] args ? ?| | |]; try done. destruct args as [|a [|body args]]; [done | by destruct a as [[] ? ? ?| | | | |]|].
  destruct a as [[] ? ? ?| | | | |]; try done.
  destruct body as [[] ? ? ?| |[] [|[[] ? ? ?| | | | |] ?] ? ?| | |]; try (by eapply Hmet); try (by injection H as <-).
  destruct (n_leb _ _); [by injection H as <- | by eapply Hmet].
Qed.

Lemma tier_loop_prices_ok source n tiers0 tiers :
  Forall (fun t => prices_ok (tt_prices t)) tiers0 -> tier_loop source n tiers0 = Some tiers ->
  Forall (fun t => prices_ok (tt_prices t)) tiers.
Proof.
  revert tiers0. induction n using node_ind'; intros tiers0 H0; cbn [tier_loop];
    try (intros Hl; apply bind_Some in Hl as (tier & Ht & [= <-]); apply Forall_app; split; [done|];
         constructor; [by eapply tokenTier_prices_ok | constructor]).
  intros Hl. repeat dmatch_in Hl; try done; apply bind_Some in Hl as (tier & Ht & Hl);
    (eapply IHn3; [|exact Hl]); apply Forall_app; (split; [done|]);
    (constructor; [by eapply tokenTier_prices_ok | constructor]).
Qed.

Lemma chain_prices_ok n source tiers :
  readTokenTierChain n source = Some tiers -> Forall (fun t => prices_ok (tt_prices t)) tiers.
Proof.
  revert tiers. induction n using node_ind'; intros tiers Hr; cbn [readTokenTierChain] in Hr;
    match type of Hr with match ?a with _ => _ end = _ => destruct a as [l|] eqn:Ha end;
    try (by eapply tier_loop_prices_ok; [constructor | exact Hr]);
    try (injection Hr as <-; unfold audio_tiers in Ha; repeat dmatch_in Ha; simplify_eq;
         repeat constructor; cbn [with_text tt_prices]; by eapply tokenTier_prices_ok).
  destruct o; try (by eapply tier_loop_prices_ok; [constructor | exact Hr]).
  assert (Hmap : forall o, map with_image_count <$> o = Some tiers ->
    (forall l, o = Some l -> Forall (fun t => prices_ok (tt_prices t)) l) ->
    Forall (fun t => prices_ok (tt_prices t)) tiers).
  { intros o Ho Hl. apply fmap_Some in Ho as (l & -> & ->). apply Forall_map. by apply Hl. }
  destruct (is_image_count _); [by eapply Hmap|]. destruct (is_image_count _); [by eapply Hmap|].
  by eapply tier_loop_prices_ok; [constructor | exact Hr].
Qed.

(** ** The mapping to fields *)

#[local] Arguments price_field : simpl never.

Definition field_variable (field : str) : option billing_variable :=
  List.find (fun v => bool_decide (price_field (variable_name v) = field)) TOKEN_VARIABLES.
Lemma field_variable_name v : carries_price v -> field_variable (price_field (variable_name v)) = Some v.
Proof. intros [? ?]. destruct v; try done; vm_compute; reflexivity. Qed.

Lemma price_field_inj v w :
  carries_price v -> carries_price w -> price_field (variable_name v) = price_field (variable_name w) -> v = w.
Proof. intros Hv Hw He. apply field_variable_name in Hv, Hw. rewrite He in Hv. congruence. Qed.

Lemma set_field_fresh k v o : k ∉ map fst o -> set_field k v o = o ++ [(k, v)].
Proof.
  induction o as [|[k' v'] o IH]; [done|]. cbn. rewrite not_elem_of_cons. intros [Hne Hin].
  rewrite bool_decide_eq_false_2 by done. by rewrite IH.
Qed.

Lemma from_entries_nodup entries : NoDup (map fst entries) -> from_entries entries = entries.
Proof.
  unfold from_entries. change entries with ([] ++ entries) at 1 3. generalize (@nil (str * number)) as acc.
  induction entries as [|[k v] entries IH]; intros acc Hn; [by rewrite app_nil_r|].
  cbn [fold_left fst snd]. rewrite map_app in Hn. cbn [map fst] in Hn.
  apply NoDup_app in Hn as (H1 & H2 & H3). apply NoDup_cons in H3 as [H3 H4].
  rewrite set_field_fresh by (intros Hin; apply (H2 k); [done | left]).
  rewrite IH; [by rewrite <- (assoc_L (++))|].
  rewrite !map_app. cbn [map fst]. rewrite <- (assoc_L (++)). cbn [app].
  apply NoDup_app. split; [done|]. split; [done|]. by constructor.
Qed.

Lemma mapped_lookup (prices : list (billing_variable * number)) v :
  Forall (fun e => carries_price e.1) prices -> carries_price v ->
  obj_get (price_field (variable_name v)) (map (fun e => (price_field (variable_name e.1), e.2)) prices) = obj_get v prices.
Proof.
  intros Hall Hv. induction Hall as [|[w price] prices Hw Hall IH]; [done|]. cbn.
  destruct (decide (v = w)) as [->|Hne]; [by rewrite !bool_decide_eq_true_2|].
  rewrite !bool_decide_eq_false_2 by (done || by intros ?%price_field_inj). exact IH.
Qed.

Lemma mapped_fields tier :
  prices_ok (tt_prices tier) ->
  pt_fields (mapTokenTier tier) = map (fun e => (price_field (variable_name e.1), e.2)) (tt_prices tier).
Proof.
  intros [Hn Hp]. unfold mapTokenTier. cbn [pt_fields]. apply from_entries_nodup. rewrite map_map.
  induction Hp as [|[v price] prices Hv Hp IH]; [constructor|]. cbn in *. apply NoDup_cons in Hn as [Hin Hn].
  constructor; [|by apply IH]. intros Hmem. apply Hin. apply list_elem_of_In, in_map_iff in Hmem as ([w q] & Heq & Hm).
  rewrite Forall_forall in Hp. apply price_field_inj in Heq; [|by apply (Hp (w, q)), list_elem_of_In | done].
  cbn in Heq. subst w. apply list_elem_of_In, in_map_iff. by exists (v, q).
Qed.

(** * Separating rules *)

Lemma partition_parts_spec parts :
  match partition_parts parts with
  | Ok (rules, base) =>
      parts ≡ₚ rules ++ base /\
      Forall (fun p => is_rule_part p = Ok true) rules /\ Forall (fun p => is_rule_part p = Ok false) base
  | Throw e => exists p, p ∈ parts /\ is_rule_part p = Throw e
  end.
Proof.
  induction parts as [|p parts IH]; [done|]. cbn [partition_parts].
  destruct (is_rule_part p) as [rule|e] eqn:Hp; [|exists p; split; [left | done]].
  unfold mbind, result_bind. destruct (partition_parts parts) as [[rules base]|e].
  - destruct IH as (Hperm & Hr & Hb). destruct rule.
    + split; [by rewrite Hperm|]. split; [by constructor | done].
    + split; [rewrite Hperm; apply Permutation_middle|]. split; [done | by constructor].
  - destruct IH as (q & Hq & He). exists q. split; [by right | done].
Qed.

Lemma readable_factor_rule g : readable_group g -> is_rule_part (buildRuleGroupFactor g) = Ok true.
Proof.
  intros Hg. pose proof (group_text_ok g Hg) as (Hf & Ht & Hne). unfold is_rule_part, tryParseRequestRuleExpr.
  rewrite trimmed_trim by done. destruct (buildRuleGroupFactor g) as [|c s] eqn:E; [done|]. rewrite <- E in *. clear E.
  assert (splitTopLevelMultiply (buildRuleGroupFactor g) = [buildRuleGroupFactor g]) as ->.
  { unfold splitTopLevelMultiply. pose proof (split_join 42 [] [buildRuleGroupFactor g]) as Hs. cbn [join] in Hs.
    change (js "*") with [42%N]. by rewrite Hs; [|left | done | constructor; [|constructor]]. }
  cbn [rule_parts]. by rewrite read_group.
Qed.

Lemma partition_readable groups : Forall readable_group groups ->
  partition_parts (map buildRuleGroupFactor groups) = Ok (map buildRuleGroupFactor groups, []).
Proof.
  induction 1 as [|g groups Hg Hall IH]; [done|]. cbn [map partition_parts]. rewrite readable_factor_rule by done.
  unfold mbind, result_bind. by rewrite IH.
Qed.

(** A price expression that can be put back in parentheses: its brackets are
    balanced and it is not itself read as a request rule or a bare quantity. *)
Record separable (base : str) : Prop := {
  base_trim : trim base = base;
  base_nonempty : base <> [];
  base_balanced : flat 42 1 base;
  base_unwraps : unwrapOuterParens (js "(" ++ base ++ js ")") = base;
  base_no_rule : is_rule_part (js "(" ++ base ++ js ")") = Ok false;
  base_no_count : base <> js "image_count";
}.

Lemma combine_text base groups :
  separable base -> groups <> [] -> Forall readable_group groups ->
  combineBillingExpr base (buildRequestRuleExpr groups) =
  join (js " * ") ((js "(" ++ base ++ js ")") :: map buildRuleGroupFactor groups).
Proof.
  intros [Ht Hne _ _ _ _] Hg Hall. unfold combineBillingExpr. rewrite Ht.
  destruct (rules_trim groups Hall Hg) as [Hrt Hrne]. rewrite trimmed_trim by done.
  destruct base as [|b base]; [done|]. destruct (buildRequestRuleExpr groups) as [|r rs] eqn:E; [done|].
  rewrite <- E, build_rules by done. destruct groups as [|g groups]; [done|]. cbn [map].
  change (join (js " * ") (?a :: ?b :: ?r)) with (a ++ js " * " ++ join (js " * ") (b :: r)).
  rewrite <- !(assoc_L (++)). reflexivity.
Qed.

Lemma combined_split base groups :
  separable base -> groups <> [] -> Forall readable_group groups ->
  splitTopLevelMultiply (combineBillingExpr base (buildRequestRuleExpr groups)) =
  (js "(" ++ base ++ js ")") :: map buildRuleGroupFactor groups.
Proof.
  intros Hb Hg Hall. rewrite combine_text by done. unfold splitTopLevelMultiply.
  change (js " * ") with (separator (42%N :: [])). change (js "*") with (42%N :: []).
  rewrite split_join; [done | by left | done|]. constructor; [|by apply rules_ok].
  split; [|apply solid_trimmed; [done | by do 2 apply ends_solid_app]].
  apply flat_parens; [by split; [left | left]|]. apply Hb.
Qed.

Lemma combined_trim base groups :
  separable base -> groups <> [] -> Forall readable_group groups ->
  trim (combineBillingExpr base (buildRequestRuleExpr groups)) = combineBillingExpr base (buildRequestRuleExpr groups).
Proof.
  intros Hb Hg Hall. rewrite combine_text by done. apply trimmed_trim, solid_trimmed; apply join_solid; try done;
    (constructor; [split; [done | by do 2 apply ends_solid_app]|]);
    (eapply Forall_impl; [by apply rules_ok|]); intros p (_ & ? & ?); by apply trimmed_solid.
Qed.

Lemma split_combined_rules base groups :
  separable base -> groups <> [] -> Forall readable_group groups ->
  splitBillingExprAndRequestRules (combineBillingExpr base (buildRequestRuleExpr groups)) =
  Ok (Separated base (buildRequestRuleExpr groups)).
Proof.
  intros Hb Hg Hall. unfold splitBillingExprAndRequestRules.
  rewrite combined_trim, combined_split by done.
  destruct (combineBillingExpr base (buildRequestRuleExpr groups)) as [|c s] eqn:E.
  { rewrite combine_text in E by done. destruct groups; done. }
  rewrite bool_decide_eq_false_2 by (rewrite length_cons, length_map; destruct groups; simpl; [done | lia]).
  cbn [partition_parts]. rewrite (base_no_rule _ Hb). unfold mbind, result_bind.
  rewrite partition_readable by done. cbn [List.filter].
  rewrite (base_unwraps _ Hb), (bool_decide_eq_false_2 _ (base_no_count _ Hb)).
  rewrite bool_decide_eq_false_2 by (rewrite length_map; by destruct groups).
  rewrite bool_decide_eq_true_2 by done. cbn [orb negb map join]. rewrite (base_unwraps _ Hb), build_rules by done. done.
Qed.
