(* ===== verification/RequestRuleProps.v ===== *)
(** The correctness properties of the request-rule editor and of the separation of
    prices from request rules. *)

From S2P Require Import Prelude JsString JsNumber JsValue BillingTypes BillingParser BillingCompile BillingRuntime BillingStructure BillingDisplay JsRegExp JsJson RequestRules RequestRuleFacts RequestRuleGroups BillingExpr BillingExprFacts.

(** Discharges the conditions of concrete texts. *)
Ltac concrete :=
  first [ split; [discriminate | by repeat constructor] | by repeat constructor | vm_compute; reflexivity ].

(** Every condition the editor can hold in canonical form (any source and mode,
    values with arbitrary text, a path or time zone without characters that need
    escaping) is written as text the condition reader turns back into the same
    condition. *)
Theorem condition_round_trip (c : request_condition) (Hc : editable c) :
  tryParseRequestCondition (buildRequestConditionExpr c) = Ok (Some c).
Proof. by apply read_editable. Qed.

Definition sample_contains : request_condition :=
  CParam (ParamHeaderCondition Src_param (js "messages.0.content") MATCH_CONTAINS [34; 92; 10; 8232; 97]%N).
Lemma condition_round_trip_witness :
  tryParseRequestCondition (buildRequestConditionExpr sample_contains) = Ok (Some sample_contains).
Proof.
  apply (condition_round_trip sample_contains). apply ep_contains; concrete.
Defined.

(** C23: A list of rule groups whose conditions are canonical, carry no guarded
    parameter test, and are neither mergeable time bounds nor texts containing the
    disjunction operator, is written as an expression the rule reader turns back into
    exactly those groups, whatever operators their texts contain. *)
Theorem rule_expr_round_trip (groups : list request_rule_group) (Hg : Forall readable_group groups) :
  tryParseRequestRuleExpr (buildRequestRuleExpr groups) = Ok (Some groups).
Proof.
  unfold tryParseRequestRuleExpr. destruct groups as [|g groups]; [reflexivity|].
  destruct (rules_trim (g :: groups) Hg) as [Ht Hne]; [done|]. rewrite trimmed_trim by done.
  rewrite rules_split by done. rewrite read_rules by done. by destruct (buildRequestRuleExpr (g :: groups)).
Qed.

Lemma sample_groups_readable : Forall readable_group sample_groups.
Proof.
  assert (Hclear : Forall clear_text (concat (map rg_conditions sample_groups))) by concrete.
  unfold sample_groups in *. cbn [map concat rg_conditions app] in Hclear.
  apply Forall_cons in Hclear as [H1 [H2 [H3 [H4 _]%Forall_cons]%Forall_cons]%Forall_cons].
  constructor; [|constructor; [|constructor]]; (split;
    cbn [rg_conditions rg_multiplier rg_conditionText rg_matched]; 
    [discriminate | | | split; [reflexivity | exact I] | reflexivity | split; reflexivity]).
  - constructor; [split; [apply et_range; concrete | done]|].
    constructor; [split; [apply ep_contains; concrete | done]|]. constructor.
  - right. constructor; [exact H1|]. constructor; [exact H2|]. constructor.
  - constructor; [split; [apply et_range; concrete | done]|].
    constructor; [split; [apply ep_equals; concrete | done]|]. constructor.
  - right. constructor; [exact H3|]. constructor; [exact H4|]. constructor.
Qed.

Lemma rule_expr_round_trip_witness :
  tryParseRequestRuleExpr (buildRequestRuleExpr sample_groups) = Ok (Some sample_groups).
Proof. apply (rule_expr_round_trip sample_groups). exact sample_groups_readable. Defined.

(** A rule group holding one guarded parameter test (contains, or a numeric
    comparison), although written by the editor itself, is never read back: the
    reader splits the guard from the test at the conjunction and does not know the
    second half, so the editor falls back to raw text. *)
Theorem guarded_rule_unreadable (p : param_header_condition) (multiplier : str)
    (Hp : editable_param p) (Hg : guarded (CParam p) = true) (Hm : NUMERIC_LITERAL_REGEX multiplier = true) :
  tryParseRequestCondition (buildRequestConditionExpr (CParam p)) = Ok (Some (CParam p)) /\
  tryParseRuleGroupFactor (buildRuleGroupFactor (RuleGroup [CParam p] multiplier None None)) = Ok None.
Proof.
  split; [by apply read_editable|].
  assert (Hs : starts_solid (written_param p) /\ ends_solid (written_param p)) by (by apply param_solid).
  destruct (solid_trimmed (written_param p)) as [_ Hne]; [apply Hs | apply Hs|].
  assert (combined [CParam p] = written_param p) as Hc by (by apply written_editable_param).
  unfold tryParseRuleGroupFactor, buildRuleGroupFactor. cbn [rg_multiplier rg_conditions map].
  rewrite (numeric_trim multiplier) by (by apply NUMERIC_numeric). rewrite Hm. cbn [negb].
  change (buildRequestConditionExpr (CParam p)) with (combined [CParam p]). rewrite Hc.
  cbn [List.filter]. assert (non_empty (written_param p) = true) as -> by (by destruct (written_param p)).
  rewrite factor_pattern_run by (done || by apply NUMERIC_numeric). rewrite <- Hc, guarded_conditions by done. done.
Qed.

Definition sample_guarded : param_header_condition :=
  ParamHeaderCondition Src_param (js "max_tokens") MATCH_GT (js "4096").
Lemma guarded_rule_unreadable_witness :
  tryParseRuleGroupFactor (buildRuleGroupFactor (RuleGroup [CParam sample_guarded] (js "1.5") None None)) = Ok None.
Proof.
  apply (guarded_rule_unreadable sample_guarded (js "1.5")); [apply ep_compare; concrete | reflexivity | reflexivity].
Defined.

(** Separating an expression either leaves it whole and trimmed without rules, or
    sorts its top-level factors into rules and prices: every factor lands on exactly
    one side, the rule side is not empty and holds only factors that are rules, the
    price side holds only factors that are not, exactly one of them other than the
    image count, and each is unwrapped. It fails only when reading one of the factors
    fails. *)
Theorem separation_partitions (expr : str) :
  let parts := splitTopLevelMultiply (trim expr) in
  match splitBillingExprAndRequestRules expr with
  | Ok r =>
      r = Separated (trim expr) [] \/
      exists rules base, parts ≡ₚ rules ++ base /\ rules <> [] /\
        Forall (fun p => is_rule_part p = Ok true) rules /\ Forall (fun p => is_rule_part p = Ok false) base /\
        length (List.filter (fun p => negb (bool_decide (unwrapOuterParens p = js "image_count"))) base) = 1 /\
        requestRuleExpr r = join (js " * ") rules /\ billingExpr r = join (js " * ") (map unwrapOuterParens base)
  | Throw e => exists p, p ∈ parts /\ is_rule_part p = Throw e
  end.
Proof.
  cbv zeta. unfold splitBillingExprAndRequestRules. destruct (trim expr) as [|c s]; [by left|].
  set (parts := splitTopLevelMultiply (c :: s)).
  destruct (bool_decide (length parts <= 1)); [by left|].
  pose proof (partition_parts_spec parts) as Hspec. destruct (partition_parts parts) as [[rules base]|e]; [|done].
  destruct Hspec as (Hperm & Hr & Hb). unfold mbind, result_bind.
  destruct (bool_decide (length rules = 0)) eqn:E1; [by left|]. cbn [orb].
  destruct (bool_decide (length base = _)) eqn:E2; [|by left]. right. exists rules, base. breflect.
  split; [done|]. split; [by destruct rules|]. split; [done|]. split; [done|]. split; [|done].
  clear -E2. pose proof (List.filter_length (fun p => bool_decide (unwrapOuterParens p = js "image_count")) base). lia.
Qed.


Definition sample_base : str := js "p <= 1000 ? tier('a', p * 2) : tier('b', (p + c) * 3)".

(** Reading the tiers of an expression that is a tier chain gives one parsed tier
    per tier of the chain, with its label, conditions and image-count mark, its fixed
    price exactly when it is billed per request, and under each variable's registry
    field the price of that variable and nothing else. *)
Theorem tier_fields_faithful `{Host} (source : str) (compiled : compiled_expression) (tiers : list token_tier)
    (Hsrc : compile_source source = Ready compiled)
    (Hread : readTokenTierChain (c_ast compiled) source = Some tiers) (Hnonempty : source <> []) :
  exists parsed, parseTiersFromExpr source = Ok parsed /\
    Forall2 (fun tier p =>
      pt_label p = tt_label tier /\ pt_conditions p = tt_conditions tier /\ pt_imageCount p = tt_imageCount tier /\
      pt_fixedPrice p = (match tt_billingUnit tier with Some Unit_request => tt_fixedPrice tier | _ => None end) /\
      length (pt_fields p) = length (tt_prices tier) /\
      forall v, carries_price v -> obj_get (price_field (variable_name v)) (pt_fields p) = obj_get v (tt_prices tier))
      tiers parsed.
Proof.
  exists (map mapTokenTier tiers). split.
  { unfold parseTiersFromExpr. destruct source; [done|]. by rewrite Hsrc, Hread. }
  apply chain_prices_ok in Hread. clear -Hread. induction Hread as [|tier tiers Ht Hread IH]; [constructor|].
  cbn [map]. constructor; [|exact IH]. repeat (split; [done|]). split.
  - unfold mapTokenTier. cbn [pt_fixedPrice]. by destruct (tt_billingUnit tier) as [[]|].
  - rewrite mapped_fields by done. split; [apply length_map|]. intros v Hv. apply mapped_lookup; [apply Ht | done].
Qed.

Lemma tier_fields_faithful_witness :
  exists parsed, @parseTiersFromExpr sample_host (js "len < 100 ? tier('a', p * 1 + cr * 2) : tier('b', c * 3)") = Ok parsed /\
    map pt_label parsed = [js "a"; js "b"].
Proof.
  pose (source := js "len < 100 ? tier('a', p * 1 + cr * 2) : tier('b', c * 3)").
  destruct (compile_source source) as [compiled|f] eqn:Hc; [|vm_compute in Hc; discriminate].
  destruct (readTokenTierChain (c_ast compiled) source) as [tiers|] eqn:Hr;
    [|vm_compute in Hc; injection Hc as <-; vm_compute in Hr; discriminate].
  destruct (@tier_fields_faithful sample_host source compiled tiers Hc Hr) as (parsed & Hp & _); [discriminate|].
  exists parsed. split; [exact Hp|]. vm_compute in Hp. by injection Hp as <-.
Defined.

(** Normalising any partial condition gives a condition whose mode is offered for
    its source, whose time zone is not empty, and which normalises to itself. *)
Theorem normalize_canonical (cond : option partial_condition) :
  let c := normalizeCondition cond in
  normalizeCondition (Some (partial_of c)) = c /\
  match c with
  | CTime t => rt_timezone t <> [] /\ rt_mode t ∈ map fst (getRequestRuleMatchOptions SOURCE_TIME)
  | CParam p => ph_mode p ∈ map fst (getRequestRuleMatchOptions (source_name (ph_source p)))
  end.
Proof.
  cbv zeta. remember (normalizeCondition cond) as c eqn:Hc. unfold normalizeCondition in Hc. cbv zeta in Hc.
  set (d := default empty_partial cond) in Hc. destruct (bool_decide (pc_source d = Some SOURCE_TIME)).
  - subst c. assert (Hm := offered_mode_in SOURCE_TIME (pc_mode d) MATCH_GTE ltac:(set_solver)).
    split; [|split; [apply or_else_zone | exact Hm]]. cbn [partial_of].
    unfold normalizeCondition, partial_time, isTimeFunc.
    cbn [from_option id pc_source pc_timeFunc pc_timezone pc_mode pc_value pc_rangeStart pc_rangeEnd
      rt_timeFunc rt_timezone rt_mode rt_value rt_rangeStart rt_rangeEnd mbind option_bind].
    rewrite bool_decide_eq_true_2 by done.
    by rewrite find_time_function_name, or_else_Some, offered_mode_id by (apply or_else_zone || done).
  - set (source := if bool_decide _ then Src_header else Src_param) in Hc.
    assert (match source with Src_header => SOURCE_HEADER | Src_param => SOURCE_PARAM end = source_name source) as Hs
      by (by destruct source). rewrite Hs in Hc. subst c.
    assert (Hm := offered_mode_in (source_name source) (pc_mode d) MATCH_EQ ltac:(destruct source; set_solver)).
    split; [|exact Hm]. cbn [partial_of]. unfold normalizeCondition, partial_param.
    cbn [from_option id pc_source pc_path pc_mode pc_value ph_source ph_path ph_mode ph_value].
    assert (or_else (Some (or_else (pc_path d) [])) [] = or_else (pc_path d) []) as ->
      by (by destruct (pc_path d) as [[|? ?]|]).
    rewrite bool_decide_eq_false_2 by (by destruct source).
    destruct source; cbn [source_name] in *; [rewrite bool_decide_eq_false_2 by done | rewrite bool_decide_eq_true_2 by done];
      by rewrite offered_mode_id.
Qed.

(** * Behaviour the editor does not preserve *)

(** A text that always holds is read as the within-day range 9 to 12 and written back
    as a conjunction: the logical operator of a range is not kept. *)
Example range_operator_lost :
  let always := js "hour(" ++ [dquote] ++ js "UTC" ++ [dquote] ++ js ") >= 9 || hour(" ++ [dquote] ++ js "UTC" ++
                [dquote] ++ js ") < 12" in
  exists t, tryParseTimeCondition always = Some t /\
    buildTimeConditionExpr t = js "hour(" ++ [dquote] ++ js "UTC" ++ [dquote] ++ js ") >= 9 && hour(" ++ [dquote] ++
                js "UTC" ++ [dquote] ++ js ") < 12".
Proof.
  exists (RequestTimeCondition T_hour (js "UTC") MATCH_RANGE [] (js "9") (js "12")).
  split; vm_compute; reflexivity.
Qed.

(** A path with an escaped dot grows a backslash each time it is written and read. *)
Example path_escape_doubled :
  let c := fun path => CParam (ParamHeaderCondition Src_param path MATCH_EQ (js "1")) in
  tryParseRequestCondition (buildRequestConditionExpr (c (js "a\.b"))) = Ok (Some (c (js "a\\.b"))).
Proof. vm_compute. reflexivity. Qed.

(** A string with a raw tab is a valid expression, but separating it throws. *)
Definition tab_rule : str :=
  js "tier('a', p) * (has(header(" ++ [dquote] ++ js "x" ++ [dquote] ++ js "), " ++ [dquote; 9%N; dquote] ++ js ") ? 2 : 1)".
Example separation_throws :
  (exists compiled, compile_source tab_rule = Ready compiled) /\
  splitBillingExprAndRequestRules tab_rule = Throw syntax_error.
Proof.
  split; [|vm_compute; reflexivity].
  destruct (compile_source tab_rule) as [compiled|f] eqn:Hc; [by exists compiled | vm_compute in Hc; discriminate].
Qed.

(** In a group of several conditions a value that contains the disjunction operator
    is put in parentheses, and the group is not read back. *)
Example disjunction_text_unreadable :
  let g := RuleGroup [CParam (ParamHeaderCondition Src_header (js "x") MATCH_EQ (js "a || b"));
                      CParam (ParamHeaderCondition Src_param (js "y") MATCH_EXISTS [])] (js "2") None None in
  tryParseRuleGroupFactor (buildRuleGroupFactor g) = Ok None.
Proof. vm_compute. reflexivity. Qed.

(** * The registry *)

(** The registry names each token variable of the language once, its keys, fields and
    tier fields are distinct, and only [len] has no price. *)
Example registry_matches_language :
  Forall (fun v => variable_name v ∈ map bv_key BILLING_VARS) TOKEN_VARIABLES /\
  length BILLING_VARS = length TOKEN_VARIABLES /\
  NoDup (map bv_key BILLING_VARS) /\ NoDup (map bv_field BILLING_VARS) /\ NoDup (map bv_tierField BILLING_VARS) /\
  BILLING_CONDITION_VARS = [js "p"; js "c"; js "len"] /\
  map bv_key (List.filter (fun v => match bv_field v with None => true | Some _ => false end) BILLING_VARS) = [js "len"].
Proof.
  split; [by compute_done|]. split; [done|]. split; [by compute_done|]. split; [by compute_done|].
  split; [by compute_done|]. done.
Qed.
