(* ===== verification/TaskMatrixDisplay.v ===== *)
(** The task price table of a model (features/pricing/lib/task-matrix-display.ts,
    [getTaskPricingDisplayTiers]): the tier chain or the conditional rows of the price
    part, with the fallback row named by explicit conditions when they are unique. *)

From S2P Require Import Prelude JsString JsNumber JsValue BillingTypes BillingStructure BillingDisplay ConditionalTaskDisplay BillingExpr.

(** [Array.prototype.sort] of distinct strings. *)
Fixpoint insert_string (s : str) (l : list str) : list str :=
  match l with
  | [] => [s]
  | s' :: l' => if str_ltb s s' then s :: l else s' :: insert_string s l'
  end.
Definition sort_strings (l : list str) : list str := fold_left (fun acc s => insert_string s acc) l [].

Definition max_combinations : nat := 256.

(** The declared values of a field: [['false', 'true']] or its enumeration. *)
Definition display_values (schema : usage_schema) (field : str) : option (list str) :=
  definition ← obj_get field schema;
  if bool_decide (uf_type definition = Some Usage_boolean) then Some [js "false"; js "true"]
  else uf_enum definition.

(** One round of the loop over the fields; [None] is the early [return tiers]. *)
Definition expand_combinations (schema : usage_schema) (acc : option (list (list task_condition))) (field : str)
    : option (list (list task_condition)) :=
  combinations ← acc;
  match display_values schema field with
  | None | Some [] => None
  | Some values =>
      if bool_decide (max_combinations < length combinations * length values) then None
      else Some (flat_map (fun combination => map (fun value => combination ++ [TaskCondition field value]) values)
                   combinations)
  end.

Definition condition_fields (previous : list task_tier) : list str :=
  sort_strings (fold_left (fun s field => set_add field s)
    (flat_map (fun tier => map kc_field (kt_conditions tier)) previous) []).

(** [tier.conditions.every(...)] on a combination. *)
Definition covers (combination : list task_condition) (tier : task_tier) : bool :=
  forallb (fun c => existsb (fun v => bool_decide (kc_field v = kc_field c) && bool_decide (kc_value v = kc_value c))
                      combination) (kt_conditions tier).

Definition with_conditions (tier : task_tier) (conditions : list task_condition) : task_tier :=
  TaskTier (kt_conditionText tier) (kt_label tier) conditions (kt_constant tier) (kt_unitPrices tier)
    (kt_freeQuantities tier).

(** From [const fallback = tiers.at(-1)] to the end. *)
Definition name_fallback (schema : option usage_schema) (tiers : list task_tier) : list task_tier :=
  match schema, last tiers with
  | Some schema, Some fallback =>
      if bool_decide (length tiers < 2) then tiers
      else
        let previous := take (length tiers - 1) tiers in
        match fold_left (expand_combinations schema) (condition_fields previous) (Some [[]]) with
        | None => tiers
        | Some combinations =>
            match List.filter (fun combination => negb (existsb (covers combination) previous)) combinations with
            | [only] => previous ++ [with_conditions fallback only]
            | _ => tiers
            end
        end
  | _, _ => tiers
  end.

Definition getTaskPricingDisplayTiers (expression : str) (schema : option usage_schema)
    : result exn (list task_tier) :=
  tiers ← parseTaskTiersFromExpr expression schema true;
  match tiers, expression, schema with
  | [], _ :: _, Some usage =>
      split ← splitBillingExprAndRequestRules expression;
      Ok (default [] (readConditionalTaskPricing (billingExpr split) usage))
  | _, _, _ => Ok (name_fallback schema tiers)
  end.

(** * Lemmas *)

Lemma insert_string_elem s l x : x ∈ insert_string s l <-> x = s \/ x ∈ l.
Proof.
  induction l as [|s' l IH]; cbn [insert_string]; [set_solver|]. destruct (str_ltb s s'); set_solver.
Qed.

Lemma sort_strings_elem l x : x ∈ sort_strings l <-> x ∈ l.
Proof.
  unfold sort_strings. assert (forall acc, x ∈ fold_left (fun acc s => insert_string s acc) l acc <-> x ∈ acc \/ x ∈ l) as H.
  { induction l as [|s l IH]; intros acc; cbn [fold_left]; [set_solver|]. rewrite IH, insert_string_elem. set_solver. }
  rewrite H. set_solver.
Qed.

Lemma set_fold_elem (l : list str) x : x ∈ fold_left (fun s field => set_add field s) l [] <-> x ∈ l.
Proof.
  assert (forall acc, x ∈ fold_left (fun s field => set_add field s) l acc <-> x ∈ acc \/ x ∈ l) as H.
  { induction l as [|f l IH]; intros acc; cbn [fold_left]; [set_solver|]. rewrite IH. unfold set_add.
    case_bool_decide; set_solver. }
  rewrite H. set_solver.
Qed.

Lemma condition_fields_elem previous tier c :
  tier ∈ previous -> c ∈ kt_conditions tier -> kc_field c ∈ condition_fields previous.
Proof.
  intros Ht Hc. unfold condition_fields. rewrite sort_strings_elem, set_fold_elem.
  apply list_elem_of_In, in_flat_map. exists tier. split; [by apply list_elem_of_In|].
  apply in_map_iff. exists c. split; [done | by apply list_elem_of_In].
Qed.

(** A combination assigns every field one of its declared values. *)
Definition assigns (schema : usage_schema) (fields : list str) (combination : list task_condition) : Prop :=
  Forall2 (fun field c => kc_field c = field /\ exists values, display_values schema field = Some values /\ kc_value c ∈ values)
    fields combination.

Lemma expand_none schema fields : fold_left (expand_combinations schema) fields None = None.
Proof. induction fields; [done|]. done. Qed.

Lemma combinations_elem schema fields done_ acc combinations x :
  (forall y, y ∈ acc <-> assigns schema done_ y) ->
  fold_left (expand_combinations schema) fields (Some acc) = Some combinations ->
  x ∈ combinations <-> assigns schema (done_ ++ fields) x.
Proof.
  revert done_ acc. induction fields as [|f fields IH]; intros done_ acc Hacc; cbn [fold_left].
  { intros [= <-]. rewrite app_nil_r. apply Hacc. }
  destruct (expand_combinations schema (Some acc) f) as [acc'|] eqn:He; [|by rewrite expand_none].
  intros Hf. rewrite (IH (done_ ++ [f]) acc'); [by rewrite <- (assoc_L (++)) | | exact Hf]. clear IH Hf.
  unfold expand_combinations in He. cbn [mbind option_bind] in He.
  destruct (display_values schema f) as [[|v vs]|] eqn:Hv; [done| |done].
  set (vals := v :: vs) in *. clearbody vals. destruct (bool_decide _); [done|]. injection He as <-. intros y.
  rewrite list_elem_of_In, in_flat_map. unfold assigns. split.
  - intros (comb & Hin & Hy). apply in_map_iff in Hy as (value & <- & Hval).
    apply Forall2_app; [by apply Hacc, list_elem_of_In|]. constructor; [|constructor].
    split; [done|]. exists vals. split; [done | by apply list_elem_of_In].
  - intros Hy. apply Forall2_app_inv_l in Hy as (comb & last & Hc & Hl & ->).
    apply Forall2_cons_inv_l in Hl as (c & rest & (Hfc & values & Hvals & Hval) & Hr & ->).
    apply Forall2_nil_inv_l in Hr as ->. exists comb. split; [by apply list_elem_of_In, Hacc|].
    apply in_map_iff. exists (kc_value c). rewrite Hv in Hvals. injection Hvals as <-.
    split; [|by apply list_elem_of_In]. destruct c as [cf cv]. simpl in *. by subst.
Qed.

(** ** The named fallback *)

(** A tier, or a list of conditions, holds of an assignment of the fields. *)
Definition holds (facts : str -> str) (conditions : list task_condition) : Prop :=
  Forall (fun c => facts (kc_field c) = kc_value c) conditions.
(** The assignment gives every field a declared value. *)
Definition declared (schema : usage_schema) (fields : list str) (facts : str -> str) : Prop :=
  Forall (fun f => exists values, display_values schema f = Some values /\ facts f ∈ values) fields.

Lemma covers_spec combination tier :
  covers combination tier = true <-> Forall (fun c => c ∈ combination) (kt_conditions tier).
Proof.
  unfold covers. rewrite forallb_forall, Forall_forall. split; intros H c Hc.
  - apply list_elem_of_In, H, existsb_exists in Hc as (v & Hv & Hb). apply andb_true_iff in Hb as [H1 H2]. breflect.
    apply list_elem_of_In in Hv. destruct c, v. simpl in *. by subst.
  - apply existsb_exists. exists c. split; [by apply list_elem_of_In, H, list_elem_of_In|].
    by rewrite !bool_decide_eq_true_2.
Qed.

Lemma assigned_facts schema fields facts :
  declared schema fields facts -> assigns schema fields (map (fun f => TaskCondition f (facts f)) fields).
Proof.
  intros H. unfold assigns. apply Forall2_fmap_r. apply Forall_Forall2_diag.
  eapply Forall_impl; [exact H|]. intros f (values & Hv & Hin). split; [done|]. by exists values.
Qed.

Lemma covers_facts facts fields tier :
  Forall (fun c => kc_field c ∈ fields) (kt_conditions tier) ->
  covers (map (fun f => TaskCondition f (facts f)) fields) tier = true <-> holds facts (kt_conditions tier).
Proof.
  intros Hf. rewrite covers_spec. unfold holds. rewrite !Forall_forall in *. split; intros H c Hc.
  - apply H, list_elem_of_In, in_map_iff in Hc as (f & <- & _). done.
  - apply list_elem_of_In, in_map_iff. exists (kc_field c). rewrite (H c Hc). destruct c.
    split; [done | by apply list_elem_of_In, Hf].
Qed.

Lemma only_remaining schema previous combinations only facts :
  (forall x, x ∈ combinations <-> assigns schema (condition_fields previous) x) ->
  List.filter (fun combination => negb (existsb (covers combination) previous)) combinations = [only] ->
  declared schema (condition_fields previous) facts ->
  holds facts only <-> Forall (fun tier => ~ holds facts (kt_conditions tier)) previous.
Proof.
  intros Hcomb Hfilter Hdecl. set (fields := condition_fields previous) in *.
  assert (Hfields : forall tier, tier ∈ previous -> Forall (fun c => kc_field c ∈ fields) (kt_conditions tier)).
  { intros tier Ht. apply Forall_forall. intros c Hc. by eapply condition_fields_elem. }
  set (mine := map (fun f => TaskCondition f (facts f)) fields).
  assert (mine ∈ combinations) as Hmine by (by apply Hcomb, assigned_facts).
  assert (Hany : existsb (covers mine) previous = true <-> Exists (fun tier => holds facts (kt_conditions tier)) previous).
  { rewrite existsb_exists, Exists_exists. split.
    - intros (t & Ht & Hc). apply list_elem_of_In in Ht. exists t. split; [done|]. apply covers_facts in Hc; auto.
    - intros (t & Ht & Hc). exists t. split; [by apply list_elem_of_In|]. apply covers_facts; auto. }
  assert (only ∈ combinations /\ existsb (covers only) previous = false) as [Honly Hnone].
  { assert (In only [only]) as Hin by (by left). rewrite <- Hfilter in Hin. apply filter_In in Hin as [Hin Hb].
    split; [by apply list_elem_of_In | by apply negb_true_iff]. }
  split.
  - intros Hh. assert (only = mine) as Heq.
    { apply Hcomb in Honly. unfold mine. clear -Honly Hh. unfold assigns in Honly. revert Hh.
      induction Honly as [|f c fields cs [Hf _] Hall IH]; [done|]. intros Hh. apply Forall_cons in Hh as [Hc Hh].
      cbn [map]. f_equal; [|by apply IH]. destruct c as [cf cv]. simpl in *. by subst. }
    rewrite Heq in Hnone. apply Forall_forall. intros tier Ht Hhold.
    assert (existsb (covers mine) previous = true) as Ht'; [|congruence].
    apply Hany, Exists_exists. eauto.
  - intros Hno. assert (In mine [only]) as Hin.
    { rewrite <- Hfilter. apply filter_In. split; [by apply list_elem_of_In|]. apply negb_true_iff.
      apply not_true_iff_false. rewrite Hany, Exists_exists. intros (t & Ht & Hc).
      rewrite Forall_forall in Hno. by apply (Hno t). }
    destruct Hin as [->|[]]. unfold holds, mine. apply Forall_map. by apply Forall_true.
Qed.

(** * The named fallback *)

(** The price table of a task model shows the tiers it was given, or the same tiers
    with explicit conditions on the last one. In that case, for every assignment of
    declared values to the fields the earlier tiers look at, the displayed conditions
    of the last row hold exactly when none of the earlier rows applies. *)
Theorem named_fallback_exact (schema : usage_schema) (tiers : list task_tier) :
  let shown := name_fallback (Some schema) tiers in
  shown = tiers \/
  exists previous fallback conditions,
    tiers = previous ++ [fallback] /\ shown = previous ++ [with_conditions fallback conditions] /\
    forall facts, declared schema (condition_fields previous) facts ->
      (holds facts conditions <-> Forall (fun tier => ~ holds facts (kt_conditions tier)) previous).
Proof.
  cbv zeta. unfold name_fallback. destruct (last tiers) as [fallback|] eqn:Hl; [|by left].
  destruct (bool_decide _); [by left|]. cbv zeta.
  apply last_Some in Hl as [previous ->]. rewrite length_app. cbn [length].
  rewrite Nat.add_sub, take_app_length.
  destruct (fold_left _ _ _) as [combinations|] eqn:Hc; [|by left].
  destruct (List.filter _ combinations) as [|only [|? ?]] eqn:Hf; [by left| |by left].
  right. exists previous, fallback, only. split; [done|]. split; [done|]. intros facts Hd.
  eapply only_remaining; [|exact Hf | exact Hd]. intros x.
  apply (combinations_elem schema (condition_fields previous) [] [[]] combinations x); [|exact Hc].
  intros y. unfold assigns. rewrite list_elem_of_singleton. split; [by intros -> | by intros ?%Forall2_nil_inv_l].
Qed.

Definition sample_schema : usage_schema :=
  [(js "quality", UsageField None None (Some [js "hd"; js "sd"]) None); (js "audio", UsageField (Some Usage_boolean) None None None)].
Definition sample_tier (label : str) (conditions : list task_condition) : task_tier :=
  TaskTier None label conditions n_one [] [].
Example named_fallback_example :
  map kt_conditions (name_fallback (Some sample_schema)
    [sample_tier (js "a") [TaskCondition (js "quality") (js "hd")];
     sample_tier (js "b") [TaskCondition (js "quality") (js "sd"); TaskCondition (js "audio") (js "true")];
     sample_tier (js "rest") []])
  = [[TaskCondition (js "quality") (js "hd")];
     [TaskCondition (js "quality") (js "sd"); TaskCondition (js "audio") (js "true")];
     [TaskCondition (js "audio") (js "false"); TaskCondition (js "quality") (js "sd")]].
Proof. vm_compute. reflexivity. Qed.
