(* ===== verification/TaskExpr.v ===== *)
(** The task pricing editor (features/pricing/lib/task-expr.ts): the price matrix over
    the declared enumerations, the tier form, their conversions, the preview and the
    expression writer.  An object with string keys is the list of its entries in
    insertion order. *)

From S2P Require Import Prelude JsString JsNumber JsValue BillingTypes BillingCompile BillingRuntime BillingStructure BillingDisplay JsJson RequestRules BillingExpr.

(** [a.localeCompare(b) < 0]: the collation of the host. *)
Class Collation := locale_before : str -> str -> bool.

(** * Data *)

(** [TaskVisualTier]; the code reads [freeQuantities] as possibly missing. *)
Record task_visual_tier := TaskVisualTier {
  tv_label : str;
  tv_conditions : list task_condition;
  tv_constant : number;
  tv_unitPrices : list (str * number);
  tv_freeQuantities : option (list (str * number));
}.
Definition task_visual_config : Type := list task_visual_tier.

Record task_matrix_row := TaskMatrixRow {
  mr_combination : list (str * str);
  mr_constant : number;
  mr_unitPrices : list (str * number);
  mr_freeQuantities : list (str * number);
}.
Definition task_matrix_config : Type := list task_matrix_row.

Inductive preview_part : Type :=
| Part_constant (amount : number)
| Part_usage (field : str) (amount quantity unitPrice : number).
Record task_preview := TaskPreview {
  pv_tier : task_visual_tier;
  pv_total : number;
  pv_parts : list preview_part;
}.

Section editor.
Context {host : Host} {collation : Collation}.

(** * Fields of a schema *)

(** [entries.sort(([left], [right]) => left.localeCompare(right))], which is stable. *)
Fixpoint insert_key {V} (e : str * V) (l : list (str * V)) : list (str * V) :=
  match l with
  | [] => [e]
  | e' :: l' => if locale_before e.1 e'.1 then e :: l else e' :: insert_key e l'
  end.
Definition sort_keys {V} (l : list (str * V)) : list (str * V) :=
  fold_left (fun acc e => insert_key e acc) l [].

Definition is_number_field (e : str * usage_field) : bool :=
  bool_decide (uf_type e.2 = Some Usage_number) && bool_decide (uf_unit e.2 <> None).
Definition getTaskNumberFields (schema : option usage_schema) : list (str * usage_field) :=
  match schema with
  | None => []
  | Some schema => sort_keys (List.filter is_number_field schema)
  end.

Definition is_enum_field (e : str * usage_field) : bool :=
  match uf_enum e.2 with Some (_ :: _) => true | _ => false end.
Definition getTaskEnumFields (schema : option usage_schema) : list (str * usage_field) :=
  match schema with
  | None => []
  | Some schema => sort_keys (List.filter is_enum_field schema)
  end.

(** One round of the loop over the fields: [{ ...combination, [field]: value }]. *)
Definition expand_field_values (combinations : list (list (str * str))) (e : str * usage_field)
    : list (list (str * str)) :=
  flat_map (fun combination => map (fun value => obj_set e.1 value combination) (default [] (uf_enum e.2)))
    combinations.
Definition getTaskEnumCombinations (schema : option usage_schema) : list (list (str * str)) :=
  fold_left expand_field_values (getTaskEnumFields schema) [[]].

Definition is_count (e : str * usage_field) : bool := bool_decide (uf_unit e.2 = Some Unit_count).

(** [Object.fromEntries] over the number fields, and over the counted ones. *)
Definition price_object (fields : list (str * usage_field)) (value : str * usage_field -> number)
    : list (str * number) :=
  from_entries (map (fun e => (e.1, value e)) fields).
Definition free_object (fields : list (str * usage_field)) (value : str * usage_field -> number)
    : list (str * number) :=
  price_object (List.filter is_count fields) value.

(** * Default configurations *)

Definition suggested_free (e : str * usage_field) : number := default n_zero (uf_freeQuantity e.2).

Definition createDefaultTaskVisualConfig (schema : usage_schema) : task_visual_config :=
  [TaskVisualTier (js "base") [] n_zero
     (price_object (getTaskNumberFields (Some schema)) (fun _ => n_zero))
     (Some (free_object (getTaskNumberFields (Some schema)) suggested_free))].

Definition createDefaultTaskMatrixConfig (schema : usage_schema) : task_matrix_config :=
  let unitPrices := price_object (getTaskNumberFields (Some schema)) (fun _ => n_zero) in
  let freeQuantities := free_object (getTaskNumberFields (Some schema)) suggested_free in
  map (fun combination => TaskMatrixRow combination n_zero unitPrices freeQuantities)
    (getTaskEnumCombinations (Some schema)).

(** * Matrix and tiers *)

(** The separator is U+00B7. *)
Definition taskMatrixRowLabel (combination : list (str * str)) : str :=
  match map snd (sort_keys combination) with
  | [] => js "base"
  | values => join [183%N] values
  end.

(** [a === b] of two possibly missing numbers. *)
Definition same_entry (a b : option number) : bool :=
  match a, b with
  | Some x, Some y => n_eqb x y
  | None, None => true
  | _, _ => false
  end.

Definition uniform_with (numberFields : list (str * usage_field)) (firstRow row : task_matrix_row) : bool :=
  n_eqb (mr_constant row) (mr_constant firstRow) &&
  forallb (fun e => same_entry (obj_get e.1 (mr_unitPrices row)) (obj_get e.1 (mr_unitPrices firstRow)))
    numberFields &&
  forallb (fun e => same_entry (obj_get e.1 (mr_freeQuantities row)) (obj_get e.1 (mr_freeQuantities firstRow)))
    (List.filter is_count numberFields).

(** The prices of a row, restricted to the declared fields. *)
Definition row_prices (numberFields : list (str * usage_field)) (prices : list (str * number)) : list (str * number) :=
  price_object numberFields (fun e => default n_zero (obj_get e.1 prices)).
Definition row_free (numberFields : list (str * usage_field)) (free : list (str * number)) : list (str * number) :=
  free_object numberFields (fun e => default n_zero (obj_get e.1 free)).

Definition row_tier (numberFields : list (str * usage_field)) (label : str) (conditions : list task_condition)
    (row : task_matrix_row) : task_visual_tier :=
  TaskVisualTier label conditions (mr_constant row) (row_prices numberFields (mr_unitPrices row))
    (Some (row_free numberFields (mr_freeQuantities row))).

Definition row_conditions (row : task_matrix_row) : list task_condition :=
  map (fun e => TaskCondition e.1 e.2) (sort_keys (mr_combination row)).

Definition taskMatrixToTiers (config : task_matrix_config) (schema : usage_schema) : list task_visual_tier :=
  let numberFields := getTaskNumberFields (Some schema) in
  match numberFields, config with
  | [], _ | _, [] => []
  | _, firstRow :: _ =>
      if forallb (uniform_with numberFields firstRow) config then
        [row_tier numberFields (js "base") [] firstRow]
      else
        imap (fun index row =>
                row_tier numberFields (taskMatrixRowLabel (mr_combination row))
                  (if bool_decide (index = length config - 1) then [] else row_conditions row) row)
          config
  end.

(** [combination[condition.field] === condition.value] for all conditions. *)
Definition combination_matches (combination : list (str * str)) (tier : task_tier) : bool :=
  forallb (fun c => bool_decide (obj_get (kc_field c) combination = Some (kc_value c))) (kt_conditions tier).

Definition distinct_condition_fields (tier : task_tier) : bool :=
  bool_decide (length (fold_left (fun s f => set_add f s) (map kc_field (kt_conditions tier)) []) =
               length (kt_conditions tier)).

Definition matrix_row (numberFields : list (str * usage_field)) (tiers : list task_tier) (fallback : task_tier)
    (combination : list (str * str)) : task_matrix_row :=
  let tier := default fallback (List.find (combination_matches combination) tiers) in
  TaskMatrixRow combination (kt_constant tier) (row_prices numberFields (kt_unitPrices tier))
    (row_free numberFields (kt_freeQuantities tier)).

Definition tryParseTaskMatrixConfig (expression : str) (schema : usage_schema)
    : result exn (option task_matrix_config) :=
  match expression with
  | [] => Ok None
  | _ =>
      tiers ← parseTaskTiersFromExpr expression (Some schema) false;
      match last tiers with
      | None => Ok None
      | Some fallbackTier =>
          if bool_decide (kt_conditions fallbackTier <> []) then Ok None
          else if negb (forallb distinct_condition_fields tiers) then Ok None
          else Ok (Some (map (matrix_row (getTaskNumberFields (Some schema)) tiers fallbackTier)
                           (getTaskEnumCombinations (Some schema))))
      end
  end.

(** * Normalisation *)

(** [Number.isFinite(value) && value >= 0] *)
Definition usable (x : number) : bool := is_finite x && n_leb n_zero x.
Definition usable_or_zero (x : number) : number := if usable x then x else n_zero.
(** [Number(undefined)] is NaN. *)
Definition number_or_nan (x : option number) : number := default n_nan x.

Definition normalized_free (tier : task_visual_tier) (e : str * usage_field) : number :=
  let value := number_or_nan
    (match tv_freeQuantities tier with
     | None => uf_freeQuantity e.2
     | Some free => Some (default n_zero (obj_get e.1 free))
     end) in
  if usable value then n_floor value else n_zero.

Definition declared_condition (enumFields : list (str * usage_field)) (c : task_condition) : bool :=
  match obj_get (kc_field c) enumFields with
  | Some definition => bool_decide (kc_value c ∈ default [] (uf_enum definition))
  | None => false
  end.

Definition normalize_tier (schema : usage_schema) (index : nat) (tier : task_visual_tier) : task_visual_tier :=
  let numberFields := getTaskNumberFields (Some schema) in
  TaskVisualTier
    (match tv_label tier with
     | [] => if bool_decide (index = 0) then js "base" else js "tier_" ++ string_of_Z (Z.of_nat (index + 1))
     | label => label
     end)
    (List.filter (declared_condition (getTaskEnumFields (Some schema))) (tv_conditions tier))
    (usable_or_zero (tv_constant tier))
    (price_object numberFields (fun e => usable_or_zero (number_or_nan (obj_get e.1 (tv_unitPrices tier)))))
    (Some (free_object numberFields (normalized_free tier))).

Definition normalizeTaskVisualConfig (config : option task_visual_config) (schema : usage_schema)
    : task_visual_config :=
  match config with
  | None | Some [] => createDefaultTaskVisualConfig schema
  | Some tiers => imap (normalize_tier schema) tiers
  end.

(** * Writing the expression *)

Definition TASK_TOKEN_PRICE_SCALE : number := n_million.

Definition usage_text (field : str) : str := js "u(" ++ JSON_stringify field ++ js ")".

Definition field_term (tier : task_visual_tier) (e : str * usage_field) : str :=
  let price := default n_zero (obj_get e.1 (tv_unitPrices tier)) in
  let freeQuantity :=
    if is_count e
    then n_max n_zero (n_floor (default n_zero (tv_freeQuantities tier ≫= obj_get e.1)))
    else n_zero in
  let usage :=
    if n_ltb n_zero freeQuantity
    then js "max(" ++ usage_text e.1 ++ js " - " ++ string_of_number freeQuantity ++ js ", 0)"
    else usage_text e.1 in
  if bool_decide (uf_unit e.2 = Some Unit_tokens)
  then usage ++ js " * " ++ string_of_number price ++ js " / " ++ string_of_number TASK_TOKEN_PRICE_SCALE
  else usage ++ js " * " ++ string_of_number price.

Definition generateTaskTierBody (tier : task_visual_tier) (numberFields : list (str * usage_field)) : str :=
  join (js " + ")
    ((if n_ltb n_zero (tv_constant tier) then [string_of_number (tv_constant tier)] else []) ++
     map (field_term tier) numberFields).

Definition generateTaskTierCall (tier : task_visual_tier) (numberFields : list (str * usage_field)) : str :=
  js "tier(" ++ JSON_stringify (tv_label tier) ++ js ", " ++ generateTaskTierBody tier numberFields ++ js ")".

Definition generateTaskCondition (conditions : list task_condition) : str :=
  join (js " && ")
    (map (fun c => usage_text (kc_field c) ++ js " == " ++ JSON_stringify (kc_value c)) conditions).

(** The loop over the tiers; [None] is the early return of the empty text. *)
Fixpoint tier_parts (numberFields : list (str * usage_field)) (tiers : list task_visual_tier)
    : option (list str) :=
  match tiers with
  | [] => Some []
  | [tier] => Some [generateTaskTierCall tier numberFields]
  | tier :: rest =>
      match generateTaskCondition (tv_conditions tier) with
      | [] => None
      | condition =>
          parts ← tier_parts numberFields rest;
          Some ((condition ++ js " ? " ++ generateTaskTierCall tier numberFields) :: parts)
      end
  end.

Definition generateTaskExprFromConfig (config : option task_visual_config) (schema : usage_schema) : str :=
  let numberFields := getTaskNumberFields (Some schema) in
  match numberFields with
  | [] => []
  | _ =>
      match normalizeTaskVisualConfig config schema with
      | [tier] => generateTaskTierCall tier numberFields
      | tiers => match tier_parts numberFields tiers with Some parts => join (js " : ") parts | None => [] end
      end
  end.

(** * Reading the expression *)

Definition visual_of_tier (tier : task_tier) : task_visual_tier :=
  TaskVisualTier (kt_label tier) (kt_conditions tier) (kt_constant tier) (kt_unitPrices tier)
    (Some (kt_freeQuantities tier)).

Definition tryParseTaskVisualConfig (expression : str) (schema : usage_schema)
    : result exn (option task_visual_config) :=
  match expression with
  | [] => Ok None
  | _ =>
      tiers ← parseTaskTiersFromExpr expression (Some schema) false;
      match tiers with
      | [] => Ok None
      | _ => Ok (Some (normalizeTaskVisualConfig (Some (map visual_of_tier tiers)) schema))
      end
  end.

(** * Preview *)

(** [Number(sample[field])] of a number, a string or nothing. *)
Definition sample_number (v : option jsval) : number :=
  match v with
  | Some (VNumber x) => x
  | Some (VString s) => number_of_string s
  | _ => n_nan
  end.

Definition sample_matches (sample : list (str * jsval)) (tier : task_visual_tier) : bool :=
  forallb (fun c => match obj_get (kc_field c) sample with
                    | Some (VString s) => bool_decide (s = kc_value c)
                    | _ => false
                    end) (tv_conditions tier).

Definition field_unit (schema : option usage_schema) (field : str) : option usage_unit :=
  schema ← schema; definition ← obj_get field schema; uf_unit definition.

Definition tier_free (tier : task_visual_tier) (field : str) : number :=
  default n_zero (tv_freeQuantities tier ≫= obj_get field).

(** The body of the loop over the unit prices; [None] is an early [return null]. *)
Definition usage_part (sample : list (str * jsval)) (schema : option usage_schema) (tier : task_visual_tier)
    (field : str) (unitPrice : number) : option (list preview_part) :=
  if negb (is_finite unitPrice) || n_ltb unitPrice n_zero then None
  else if n_eqb unitPrice n_zero then Some []
  else
    let quantity := sample_number (obj_get field sample) in
    if negb (is_finite quantity) || n_ltb quantity n_zero then None
    else
      let freeQuantity :=
        if bool_decide (field_unit schema field = Some Unit_count)
        then n_max (tier_free tier field) n_zero else n_zero in
      let billableQuantity := n_max (n_sub quantity freeQuantity) n_zero in
      let amount :=
        if bool_decide (field_unit schema field = Some Unit_tokens)
        then n_div (n_mul quantity unitPrice) TASK_TOKEN_PRICE_SCALE
        else n_mul billableQuantity unitPrice in
      if negb (is_finite amount) then None
      else Some [Part_usage field amount billableQuantity unitPrice].

Definition usage_parts (sample : list (str * jsval)) (schema : option usage_schema) (tier : task_visual_tier)
    : option (list preview_part) :=
  parts ← map_option (fun e => usage_part sample schema tier e.1 e.2) (tv_unitPrices tier); Some (concat parts).

(** One round of the loop that writes the terms and the normalised usage. *)
Definition add_term (schema : option usage_schema) (tier : task_visual_tier) (sample : list (str * jsval))
    (acc : list str * list (str * jsval)) (part : preview_part) : list str * list (str * jsval) :=
  match part with
  | Part_constant _ | Part_usage [] _ _ _ => acc
  | Part_usage field _ quantity unitPrice =>
      let '(terms, usage) := acc in
      let normalized :=
        if bool_decide (field_unit schema field = Some Unit_count)
        then n_max (n_sub (match obj_get field sample with
                           | None => n_zero
                           | v => sample_number v
                           end) (tier_free tier field)) n_zero
        else quantity in
      let scale := if bool_decide (field_unit schema field = Some Unit_tokens) then js " / 1000000" else [] in
      (terms ++ [usage_text field ++ js " * " ++ string_of_number unitPrice ++ scale],
       obj_set field (VNumber normalized) usage)
  end.

Definition matched_tier (sample : list (str * jsval)) (config : task_visual_config) (fallback : task_visual_tier)
    : task_visual_tier :=
  default fallback (List.find (sample_matches sample) (take (length config - 1) config)).

Definition evaluateTaskVisualConfig (config : task_visual_config) (sample : list (str * jsval))
    (schema : option usage_schema) (clock : date) : option task_preview :=
  fallback ← last config;
  let tier := matched_tier sample config fallback in
  let constant := tv_constant tier in
  if negb (is_finite constant) || n_ltb constant n_zero then None
  else
    usage ← usage_parts sample schema tier;
    let parts := (if n_ltb n_zero constant then [Part_constant constant] else []) ++ usage in
    let '(terms, normalizedUsage) :=
      fold_left (add_term schema tier sample) parts ([string_of_number constant], sample) in
    match evaluateBillingExpression
            (js "tier(" ++ JSON_stringify (tv_label tier) ++ js ", " ++ join (js " + ") terms ++ js ")")
            (Context_ None None None (Some normalizedUsage) None) clock with
    | EvalSuccess result => Some (TaskPreview tier (e_cost result) parts)
    | EvalFailure _ => None
    end.

Definition evaluateTaskUsageExamples (expression : str) (schema : option usage_schema)
    (examples : list (str * list (str * jsval))) (clock : date) : result exn (list (str * number)) :=
  match expression, schema, examples with
  | [], _, _ | _, None, _ | _, _, [] => Ok []
  | _, Some schema, _ =>
      split ← splitBillingExprAndRequestRules expression;
      config ← tryParseTaskVisualConfig (billingExpr split) schema;
      Ok (match config with
          | None => []
          | Some config =>
              omap (fun e => pv ← evaluateTaskVisualConfig config e.2 (Some schema) clock;
                             Some (e.1, pv_total pv)) examples
          end)
  end.
End editor.

(** A sample schema and matrix, with names ordered by code unit. *)
Definition ascii_collation : Collation := str_ltb.
#[local] Existing Instance ascii_collation.

Definition video_schema : usage_schema :=
  [(js "seconds", UsageField (Some Usage_number) (Some Unit_second) None None);
   (js "quality", UsageField None None (Some [js "hd"; js "sd"]) None);
   (js "images", UsageField (Some Usage_number) (Some Unit_count) None (Some (n_of_Z 2)));
   (js "audio", UsageField None None (Some [js "on"; js "off"]) None)].
Definition video_row (quality audio : str) (constant seconds images free : Z) : task_matrix_row :=
  TaskMatrixRow [(js "audio", audio); (js "quality", quality)] (n_of_Z constant)
    [(js "images", n_of_Z images); (js "seconds", n_of_Z seconds)] [(js "images", n_of_Z free)].
Definition video_matrix : task_matrix_config :=
  [video_row (js "hd") (js "on") 1 5 2 3; video_row (js "sd") (js "on") 0 4 2 3;
   video_row (js "hd") (js "off") 0 3 1 0; video_row (js "sd") (js "off") 0 2 0 0].
Definition video_expr : str :=
  generateTaskExprFromConfig (Some (taskMatrixToTiers video_matrix video_schema)) video_schema.

Example video_expr_reads_back :
  tryParseTaskMatrixConfig video_expr video_schema = Ok (Some video_matrix).
Proof. vm_compute. reflexivity. Qed.

Example video_preview :
  (fun pv => (string_of_number (pv_total pv), tv_label (pv_tier pv))) <$>
    evaluateTaskVisualConfig (host := sample_host) (taskMatrixToTiers video_matrix video_schema)
      [(js "audio", VString (js "on")); (js "quality", VString (js "sd")); (js "seconds", VNumber (n_of_Z 10));
       (js "images", VNumber (n_of_Z 5))] (Some video_schema) None
  = Some (js "44", js "on" ++ [183%N] ++ js "sd").
Proof. vm_compute. reflexivity. Qed.
