(* ===== verification/TaskExprFacts.v ===== *)
(** Facts about the task pricing editor: its fields keep the schema's keys, the price
    matrix enumerates every combination of declared values once, and the row of a
    combination is found again among the tiers the matrix is written as. *)

From S2P Require Import Prelude JsString JsNumber JsValue BillingTypes BillingCompile BillingCompileFacts BillingRuntime BillingStructure BillingDisplay ConditionalTaskDisplay JsJson RequestRules BillingExpr BillingExprFacts TaskExpr.

Section facts.
Context {collation : Collation}.

(** * Fields *)

Lemma insert_key_perm {V} (e : str * V) l : insert_key e l ≡ₚ e :: l.
Proof.
  induction l as [|e' l IH]; cbn [insert_key]; [done|]. destruct (locale_before _ _); [done|].
  rewrite IH. apply Permutation_swap.
Qed.

Lemma sort_keys_perm {V} (l : list (str * V)) : sort_keys l ≡ₚ l.
Proof.
  unfold sort_keys. enough (forall acc, fold_left (fun acc e => insert_key e acc) l acc ≡ₚ l ++ acc) as H
    by (by rewrite H, app_nil_r).
  induction l as [|e l IH]; intros acc; cbn [fold_left]; [done|].
  rewrite IH, insert_key_perm. apply Permutation_sym, Permutation_middle.
Qed.

Lemma sorted_filter_keys {V} (p : str * V -> bool) (l : list (str * V)) :
  NoDup (map fst l) -> NoDup (map fst (sort_keys (List.filter p l))).
Proof.
  intros H. rewrite (Permutation_map fst (sort_keys_perm (List.filter p l))).
  induction l as [|e l IH]; cbn [List.filter map] in *; [constructor|]. apply NoDup_cons in H as [Hin H].
  destruct (p e); cbn [map]; auto. apply NoDup_cons. split; [|auto]. intros Hf. apply Hin.
  apply list_elem_of_In, in_map_iff in Hf as (x & <- & Hx). apply filter_In in Hx as [Hx _].
  by apply list_elem_of_In, in_map.
Qed.

Lemma number_fields_keys (schema : usage_schema) :
  NoDup (map fst schema) -> NoDup (map fst (getTaskNumberFields (Some schema))).
Proof. apply sorted_filter_keys. Qed.
Lemma enum_fields_keys (schema : usage_schema) :
  NoDup (map fst schema) -> NoDup (map fst (getTaskEnumFields (Some schema))).
Proof. apply sorted_filter_keys. Qed.

(** An object built from distinct keys has the given entries. *)
Lemma price_object_map fields value :
  NoDup (map fst fields) -> price_object fields value = map (fun e => (e.1, value e)) fields.
Proof. intros H. apply from_entries_nodup. by rewrite map_map. Qed.

Lemma count_fields_keys (fields : list (str * usage_field)) :
  NoDup (map fst fields) -> NoDup (map fst (List.filter is_count fields)).
Proof.
  intros H. induction fields as [|e l IH]; cbn [List.filter map] in *; [constructor|].
  apply NoDup_cons in H as [Hin H]. destruct (is_count e); cbn [map]; auto. apply NoDup_cons. split; [|auto].
  intros Hf. apply Hin. apply list_elem_of_In, in_map_iff in Hf as (x & <- & Hx).
  apply filter_In in Hx as [Hx _]. by apply list_elem_of_In, in_map.
Qed.

Lemma free_object_map fields value :
  NoDup (map fst fields) ->
  free_object fields value = map (fun e => (e.1, value e)) (List.filter is_count fields).
Proof. intros H. by apply price_object_map, count_fields_keys. Qed.

Lemma obj_get_map (fields : list (str * usage_field)) (value : str * usage_field -> number) e :
  NoDup (map fst fields) -> e ∈ fields -> obj_get e.1 (map (fun e => (e.1, value e)) fields) = Some (value e).
Proof.
  intros Hnd He. apply obj_get_elem; [by rewrite map_map|]. apply list_elem_of_In, in_map_iff.
  exists e. split; [done | by apply list_elem_of_In].
Qed.

(** * Combinations *)

(** The combinations built so far give each field of [keys] one value. *)
Definition enumerated (keys : list str) (combinations : list (list (str * str))) : Prop :=
  NoDup combinations /\ Forall (fun c => map fst c = keys) combinations.

Lemma expand_enumerated keys combinations e :
  enumerated keys combinations -> e.1 ∉ keys -> NoDup (default [] (uf_enum e.2)) ->
  enumerated (keys ++ [e.1]) (expand_field_values combinations e).
Proof.
  intros [Hnd Hkeys] Hfresh Hvalues. unfold expand_field_values. split.
  - revert Hnd Hkeys. induction combinations as [|c l IH]; intros Hnd Hkeys; cbn [flat_map]; [constructor|].
    apply NoDup_cons in Hnd as [Hc Hnd]. apply Forall_cons in Hkeys as [Hk Hkeys].
    apply NoDup_app. split; [|split].
    + apply NoDup_fmap_2_strong; [|done]. intros v w _ _. rewrite !obj_set_fresh by (by rewrite Hk).
      intros [_ [= ->]]%app_inj_2; done.
    + intros x Hx Hin. apply list_elem_of_In, in_map_iff in Hx as (v & <- & _).
      apply list_elem_of_In, in_flat_map in Hin as (c' & Hc' & Hv). apply in_map_iff in Hv as (w & Heq & _).
      apply list_elem_of_In in Hc'. pose proof (proj1 (Forall_forall _ _) Hkeys _ Hc') as Hk'. cbn in Hk'.
      rewrite !obj_set_fresh in Heq by (by rewrite ?Hk, ?Hk'). apply app_inj_2 in Heq as [-> _]; done.
    + by apply IH.
  - apply Forall_forall. intros x Hx. apply list_elem_of_In, in_flat_map in Hx as (c & Hc & Hv).
    apply in_map_iff in Hv as (w & <- & _). apply list_elem_of_In in Hc.
    pose proof (proj1 (Forall_forall _ _) Hkeys _ Hc) as Hk. cbn in Hk.
    rewrite obj_set_fresh by (by rewrite Hk). by rewrite map_app, Hk.
Qed.

Lemma combinations_enumerated (schema : usage_schema) :
  NoDup (map fst schema) -> Forall (fun e => NoDup (default [] (uf_enum e.2))) schema ->
  enumerated (map fst (getTaskEnumFields (Some schema))) (getTaskEnumCombinations (Some schema)).
Proof.
  intros Hnd Hvalues. unfold getTaskEnumCombinations. pose proof (enum_fields_keys _ Hnd) as Hkeys.
  assert (Forall (fun e => NoDup (default [] (uf_enum e.2))) (getTaskEnumFields (Some schema))) as Hv.
  { apply Forall_forall. intros e He. cbn in He. rewrite sort_keys_perm in He.
    apply list_elem_of_In, filter_In in He as [He _]. by apply (proj1 (Forall_forall _ _) Hvalues), list_elem_of_In. }
  revert Hkeys Hv. generalize (getTaskEnumFields (Some schema)) as fields. intros fields.
  enough (forall keys acc, enumerated keys acc -> NoDup (keys ++ map fst fields) ->
    Forall (fun e => NoDup (default [] (uf_enum e.2))) fields ->
    enumerated (keys ++ map fst fields) (fold_left expand_field_values fields acc)) as H.
  { intros. apply (H [] [[]]); [|done|done]. split; [apply NoDup_singleton | repeat constructor]. }
  induction fields as [|e fields IH]; intros keys acc Hacc Hkeys Hv; cbn [fold_left map]; [by rewrite app_nil_r|].
  apply Forall_cons in Hv as [He Hv]. cbn [map] in Hkeys. rewrite cons_middle, app_assoc in Hkeys.
  rewrite cons_middle, app_assoc. apply IH; [|done|done]. apply expand_enumerated; [done| |done].
  apply NoDup_app in Hkeys as (Hkeys & _ & _). apply NoDup_app in Hkeys as (_ & Hdisj & _).
  intros Hin. apply (Hdisj _ Hin). by apply list_elem_of_singleton.
Qed.

(** * Matching *)

(** With the same keys, the conditions of one combination hold of another only if
    they are the same combination. *)
Lemma obj_get_agree (keys : list str) (a b : list (str * str)) :
  map fst a = keys -> map fst b = keys -> NoDup keys ->
  (forall k v, (k, v) ∈ b -> obj_get k a = Some v) -> a = b.
Proof.
  intros Ha Hb Hnd Hall. assert (forall k v, (k, v) ∈ b -> (k, v) ∈ a) as Hsub
    by (intros k v Hv; by apply obj_get_Some, Hall).
  subst keys. revert b Hb Hsub Hnd Hall. induction a as [|[k v] a IH]; intros [|[k' v'] b] Hb Hsub Hnd Hall; try done.
  cbn [map fst] in *. injection Hb as <- Hb. apply NoDup_cons in Hnd as [Hk Hnd].
  assert (obj_get k' ((k', v) :: a) = Some v') as Hv by (apply Hall; set_solver).
  cbn [obj_get] in Hv. rewrite bool_decide_eq_true_2 in Hv by done. injection Hv as ->. f_equal.
  assert (forall x w, (x, w) ∈ b -> x <> k') as Hne.
  { intros x w Hx ->. apply Hk. rewrite <- Hb. apply list_elem_of_In, in_map_iff. exists (k', w).
    by split; [|apply list_elem_of_In]. }
  apply IH; [done | | done|].
  - intros x w Hx. assert ((x, w) ∈ (k', v') :: a) as Hin by (apply Hsub; by right).
    apply elem_of_cons in Hin as [[= -> _]|]; [by destruct (Hne _ _ Hx)|done].
  - intros x w Hx. assert (obj_get x ((k', v') :: a) = Some w) as Hg by (apply Hall; by right).
    cbn [obj_get] in Hg. rewrite bool_decide_eq_false_2 in Hg by (by eapply Hne). done.
Qed.

(** The conditions a row is written with. *)
Lemma row_conditions_match keys row combination :
  map fst (mr_combination row) = keys -> map fst combination = keys -> NoDup keys ->
  forallb (fun c => bool_decide (obj_get (kc_field c) combination = Some (kc_value c))) (row_conditions row) = true <->
  combination = mr_combination row.
Proof.
  intros Hr Hc Hnd. rewrite forallb_forall. split.
  - intros H. eapply obj_get_agree; [exact Hc | exact Hr | done|]. intros k v Hin.
    specialize (H (TaskCondition k v)). apply bool_decide_eq_true in H; [done|].
    unfold row_conditions. apply in_map_iff. exists (k, v). split; [done|]. by rewrite <- list_elem_of_In, sort_keys_perm.
  - intros -> c Hin. unfold row_conditions in Hin. apply in_map_iff in Hin as ([k v] & <- & Hin).
    rewrite <- list_elem_of_In, sort_keys_perm in Hin. apply bool_decide_eq_true_2. cbn [kc_field kc_value fst snd].
    apply obj_get_elem; [by rewrite Hr | done].
Qed.

Lemma set_fold_NoDup (l acc : list str) :
  NoDup (acc ++ l) -> fold_left (fun s f => set_add f s) l acc = acc ++ l.
Proof.
  revert acc. induction l as [|x l IH]; intros acc H; cbn [fold_left]; [by rewrite app_nil_r|].
  unfold set_add at 2. rewrite bool_decide_eq_false_2.
  - rewrite IH; rewrite <- app_assoc; done.
  - apply NoDup_app in H as (_ & Hd & _). intros Hx. apply (Hd _ Hx). by left.
Qed.

Lemma row_conditions_fields keys row :
  map fst (mr_combination row) = keys -> NoDup keys -> NoDup (map kc_field (row_conditions row)).
Proof.
  intros Hr Hnd. unfold row_conditions. rewrite map_map. cbn [kc_field].
  change (map (fun x : str * str => x.1)) with (map (@fst str str)).
  rewrite (Permutation_map fst (sort_keys_perm (mr_combination row))). by rewrite Hr.
Qed.

(** * From the matrix to the tiers and back *)

Lemma find_first {A} (p : A -> bool) l i x :
  l !! i = Some x -> p x = true -> (forall j y, j < i -> l !! j = Some y -> p y = false) ->
  List.find p l = Some x.
Proof.
  revert i. induction l as [|y l IH]; intros i Hi Hx Hbefore; [done|]. cbn [List.find].
  destruct i as [|i]; cbn in Hi.
  - injection Hi as ->. by rewrite Hx.
  - rewrite (Hbefore 0 y) by (done || lia). apply (IH i); [done..|]. intros j z Hj Hz.
    apply (Hbefore (S j)); [lia|done].
Qed.

(** A tier read from an expression carries the data of a tier of the editor. *)
Record tier_agrees (fields : list (str * usage_field)) (t : task_tier) (v : task_visual_tier) : Prop := {
  agrees_conditions : kt_conditions t = tv_conditions v;
  agrees_constant : kt_constant t = tv_constant v;
  agrees_prices : row_prices fields (kt_unitPrices t) = row_prices fields (tv_unitPrices v);
  agrees_free : row_free fields (kt_freeQuantities t) = row_free fields (default [] (tv_freeQuantities v));
}.

(** A matrix of the editor: one row per combination, prices for the declared fields. *)
Definition row_complete (fields : list (str * usage_field)) (row : task_matrix_row) : Prop :=
  row_prices fields (mr_unitPrices row) = mr_unitPrices row /\
  row_free fields (mr_freeQuantities row) = mr_freeQuantities row.
Definition matrix_complete (schema : usage_schema) (config : task_matrix_config) : Prop :=
  map mr_combination config = getTaskEnumCombinations (Some schema) /\
  Forall (row_complete (getTaskNumberFields (Some schema))) config.

(** Equal numbers, or numbers that [===] does not tell apart. *)
Definition same_number (x y : number) : Prop := x = y \/ n_eqb x y = true.
Definition same_prices : list (str * number) -> list (str * number) -> Prop :=
  Forall2 (fun a b => a.1 = b.1 /\ same_number a.2 b.2).
Record same_row (a b : task_matrix_row) : Prop := {
  same_combination : mr_combination a = mr_combination b;
  same_constant : same_number (mr_constant a) (mr_constant b);
  same_unit_prices : same_prices (mr_unitPrices a) (mr_unitPrices b);
  same_free_quantities : same_prices (mr_freeQuantities a) (mr_freeQuantities b);
}.

Lemma same_prices_refl l : same_prices l l.
Proof. apply Forall_Forall2_diag, Forall_forall. intros. split; [done | by left]. Qed.
Lemma same_row_refl r : same_row r r.
Proof. split; auto using same_prices_refl. by left. Qed.

Section conversion.
Variable schema : usage_schema.
Hypothesis keys_distinct : NoDup (map fst schema).
Hypothesis values_distinct : Forall (fun e => NoDup (default [] (uf_enum e.2))) schema.
Let fields : list (str * usage_field) := getTaskNumberFields (Some schema).

Lemma row_prices_idem prices : row_prices fields (row_prices fields prices) = row_prices fields prices.
Proof.
  pose proof (number_fields_keys _ keys_distinct) as Hnd. unfold row_prices. rewrite !price_object_map by done.
  apply map_ext_in. intros e He. rewrite obj_get_map; [done | done | by apply list_elem_of_In].
Qed.

Lemma row_free_idem free : row_free fields (row_free fields free) = row_free fields free.
Proof.
  pose proof (number_fields_keys _ keys_distinct) as Hnd. unfold row_free. rewrite !free_object_map by done.
  apply map_ext_in. intros e He.
  rewrite obj_get_map; [done | by apply count_fields_keys | by apply list_elem_of_In].
Qed.

(** The row of a combination whose first matching tier was written from [row]. *)
Lemma matrix_row_of tiers fallback t row label conditions :
  row_complete fields row -> tier_agrees fields t (row_tier fields label conditions row) ->
  List.find (combination_matches (mr_combination row)) tiers = Some t ->
  matrix_row fields tiers fallback (mr_combination row) = row.
Proof.
  intros [Hp Hf] [_ Hconst Hprices Hfree] Hfind. unfold matrix_row. rewrite Hfind. change (default fallback (Some t)) with t. cbv zeta.
  rewrite Hprices, Hfree, Hconst.
  unfold row_tier. cbn [tv_constant tv_unitPrices tv_freeQuantities from_option]. unfold id. rewrite row_prices_idem, row_free_idem, Hp, Hf. by destruct row.
Qed.

Section distinct_rows.
Variables (config : list task_matrix_row) (tiers : list task_tier).
Hypothesis complete : matrix_complete schema config.
Hypothesis agree : Forall2 (tier_agrees fields) tiers
  (imap (fun index row => row_tier fields (taskMatrixRowLabel (mr_combination row))
           (if bool_decide (index = length config - 1) then [] else row_conditions row) row) config).

Lemma tier_lookup i t : tiers !! i = Some t -> exists row, config !! i = Some row /\
  tier_agrees fields t (row_tier fields (taskMatrixRowLabel (mr_combination row))
    (if bool_decide (i = length config - 1) then [] else row_conditions row) row).
Proof.
  intros Ht. eapply Forall2_lookup_l in agree as (v & Hv & Hagree); [|exact Ht].
  rewrite list_lookup_imap in Hv. apply fmap_Some in Hv as (row & Hrow & ->). eauto.
Qed.

Lemma row_lookup i row : config !! i = Some row -> exists t, tiers !! i = Some t.
Proof.
  intros Hrow. apply lookup_lt_Some in Hrow. apply lookup_lt_is_Some.
  rewrite (Forall2_length _ _ _ agree), length_imap. done.
Qed.

Lemma row_keys i row : config !! i = Some row -> map fst (mr_combination row) = map fst (getTaskEnumFields (Some schema)).
Proof.
  intros Hrow. destruct (combinations_enumerated schema keys_distinct values_distinct) as [_ Hk].
  rewrite <- (proj1 complete) in Hk. rewrite Forall_map in Hk. by eapply Forall_lookup_1 in Hk.
Qed.

Lemma first_match i row t :
  config !! i = Some row -> tiers !! i = Some t ->
  List.find (combination_matches (mr_combination row)) tiers = Some t.
Proof.
  intros Hrow Ht. pose proof (enum_fields_keys schema keys_distinct) as Hnd. eapply find_first; [exact Ht| |].
  - apply tier_lookup in Ht as (row' & Hrow' & Hagree). rewrite Hrow in Hrow'. injection Hrow' as <-.
    unfold combination_matches. rewrite (agrees_conditions _ _ _ Hagree). cbn. case_bool_decide; [done|].
    by eapply row_conditions_match; [by eapply row_keys..| |].
  - intros j u Hj Hu. apply tier_lookup in Hu as (row' & Hrow' & Hagree).
    apply lookup_lt_Some in Hrow as Hlt. unfold combination_matches. rewrite (agrees_conditions _ _ _ Hagree). cbn.
    rewrite bool_decide_eq_false_2 by lia. apply not_true_is_false. intros Hm.
    eapply row_conditions_match in Hm; [|by eapply row_keys|by eapply row_keys|done].
    destruct (combinations_enumerated schema keys_distinct values_distinct) as [Hc _].
    rewrite <- (proj1 complete) in Hc. assert (j = i); [|lia].
    eapply NoDup_lookup; [exact Hc | |]; apply list_lookup_fmap_Some; eauto.
Qed.

Lemma rows_recovered fallback :
  map (matrix_row fields tiers fallback) (getTaskEnumCombinations (Some schema)) = config.
Proof.
  rewrite <- (proj1 complete), map_map. rewrite <- (map_id config) at 2. apply map_ext_in. intros row Hin.
  apply list_elem_of_In, list_elem_of_lookup in Hin as [i Hi]. destruct (row_lookup _ _ Hi) as [t Ht].
  pose proof (first_match _ _ _ Hi Ht) as Hfind. destruct (tier_lookup _ _ Ht) as (row' & Hrow' & Hagree).
  rewrite Hi in Hrow'. injection Hrow' as <-. eapply matrix_row_of; [|exact Hagree | exact Hfind].
  by eapply Forall_lookup_1; [apply (proj2 complete)|].
Qed.

Lemma conditions_accepted :
  forallb distinct_condition_fields tiers = true /\
  (forall fallback, last tiers = Some fallback -> kt_conditions fallback = []).
Proof.
  pose proof (enum_fields_keys schema keys_distinct) as Hnd. split.
  - apply forallb_forall. intros t Hin. apply list_elem_of_In, list_elem_of_lookup in Hin as [i Hi].
    apply tier_lookup in Hi as (row & Hrow & Hagree). unfold distinct_condition_fields.
    rewrite (agrees_conditions _ _ _ Hagree). cbn. case_bool_decide; [done|]. apply bool_decide_eq_true_2.
    rewrite set_fold_NoDup by (eapply row_conditions_fields; [by eapply row_keys|done]). cbn [app]. apply length_map.
  - intros fallback Hl. rewrite last_lookup in Hl. apply tier_lookup in Hl as (row & Hrow & Hagree).
    rewrite (agrees_conditions _ _ _ Hagree). cbn. rewrite bool_decide_eq_true_2; [done|].
    rewrite (Forall2_length _ _ _ agree), length_imap. lia.
Qed.
End distinct_rows.

(** A matrix in which all rows have the same prices is written as one tier. *)
Lemma uniform_prices (fs : list (str * usage_field)) a b :
  NoDup (map fst fs) ->
  forallb (fun e => same_entry (obj_get e.1 b) (obj_get e.1 a)) fs = true ->
  same_prices (map (fun e => (e.1, default n_zero (obj_get e.1 b))) fs)
              (map (fun e => (e.1, default n_zero (obj_get e.1 a))) fs).
Proof.
  intros Hnd H. rewrite forallb_forall in H. clear Hnd. induction fs as [|e fs IH]; cbn [map]; [constructor|].
  constructor; [|apply IH; intros x Hx; apply H; by right]. split; [done|]. specialize (H e (or_introl eq_refl)).
  cbn [snd]. unfold same_entry in H. destruct (obj_get e.1 b), (obj_get e.1 a); try done; [by right | by left].
Qed.

Lemma same_number_sym x y : same_number x y -> same_number y x.
Proof.
  intros [->|H]; [by left|right]. unfold n_eqb, SFeqb in *. revert H.
  destruct x as [[]|[]| |[] mx ex], y as [[]|[]| |[] my ey]; cbn; try done;
    change (Pos.compare_cont Eq mx my) with (Pos.compare mx my);
    change (Pos.compare_cont Eq my mx) with (Pos.compare my mx);
    destruct (Z.compare_spec ex ey) as [->| |]; try done;
    rewrite Z.compare_refl; destruct (Pos.compare_spec mx my) as [->| |]; try done; by rewrite Pos.compare_refl.
Qed.

Lemma same_prices_sym a b : same_prices a b -> same_prices b a.
Proof.
  intros H. apply Forall2_flip. eapply Forall2_impl; [exact H|]. intros x y [H1 H2].
  split; [done | by apply same_number_sym].
Qed.

Lemma uniform_rows config first t fallback :
  matrix_complete schema config -> row_complete fields first ->
  forallb (uniform_with fields first) config = true ->
  tier_agrees fields t (row_tier fields (js "base") [] first) ->
  Forall2 same_row (map (matrix_row fields [t] fallback) (getTaskEnumCombinations (Some schema))) config.
Proof.
  intros [Hc Hrows] [Hp0 Hf0] Huniform [Hcond Hconst Hprices Hfree]. rewrite <- Hc. clear Hc.
  pose proof (number_fields_keys _ keys_distinct) as Hnd.
  induction Hrows as [|row config [Hp Hf] _ IH]; cbn [map]; [constructor|].
  cbn [forallb] in Huniform. apply andb_true_iff in Huniform as [Hu Huniform]. constructor; [|auto].
  unfold matrix_row, combination_matches. cbn [List.find]. rewrite Hcond. cbn [row_tier tv_conditions forallb from_option].
  unfold id. rewrite Hprices, Hfree, Hconst.
  unfold row_tier. cbn [tv_constant tv_unitPrices tv_freeQuantities from_option]. unfold id.
  rewrite row_prices_idem, row_free_idem.
  unfold uniform_with in Hu. apply andb_true_iff in Hu as [Hu Hu3]. apply andb_true_iff in Hu as [Hu1 Hu2].
  split; cbn [mr_combination mr_constant mr_unitPrices mr_freeQuantities].
  - done.
  - apply same_number_sym. by right.
  - rewrite <- Hp. unfold row_prices. rewrite !price_object_map by done. by apply same_prices_sym, uniform_prices.
  - rewrite <- Hf. unfold row_free. rewrite !free_object_map by done.
    apply same_prices_sym, uniform_prices; [by apply count_fields_keys | done].
Qed.

Lemma combinations_nonempty : getTaskEnumCombinations (Some schema) <> [].
Proof.
  unfold getTaskEnumCombinations.
  assert (Forall (fun e => is_enum_field e = true) (getTaskEnumFields (Some schema))) as He.
  { apply Forall_forall. intros e He. cbn in He. rewrite sort_keys_perm in He.
    by apply list_elem_of_In, filter_In in He as [_ He]. }
  revert He. generalize (getTaskEnumFields (Some schema)) as l. intros l He.
  enough (forall acc, acc <> [] -> fold_left expand_field_values l acc <> []) as H by (apply H; discriminate).
  induction He as [|e l He _ IH]; intros acc Hacc; cbn [fold_left]; [done|]. apply IH.
  unfold expand_field_values. unfold is_enum_field in He. destruct (uf_enum e.2) as [[|v vs]|]; try discriminate.
  by destruct acc.
Qed.

(** The two forms a matrix is written in. *)
Lemma matrix_tiers config :
  config <> [] -> fields <> [] ->
  (exists first rest, config = first :: rest /\ forallb (uniform_with fields first) config = true /\
     taskMatrixToTiers config schema = [row_tier fields (js "base") [] first]) \/
  taskMatrixToTiers config schema =
    imap (fun index row => row_tier fields (taskMatrixRowLabel (mr_combination row))
            (if bool_decide (index = length config - 1) then [] else row_conditions row) row) config.
Proof.
  intros Hc Hf. unfold taskMatrixToTiers. fold fields. destruct config as [|first rest]; [done|].
  destruct fields as [|f fs]; [done|]. destruct (forallb _ _) eqn:Hu; [left; eauto 6 | by right].
Qed.

Lemma matrix_round config expression tiers :
  fields <> [] -> matrix_complete schema config ->
  parseTaskTiersFromExpr expression (Some schema) false = Ok tiers ->
  Forall2 (tier_agrees fields) tiers (taskMatrixToTiers config schema) ->
  exists rows, tryParseTaskMatrixConfig expression schema = Ok (Some rows) /\ Forall2 same_row rows config.
Proof.
  intros Hfields Hcomplete Hparse Hagree.
  assert (config <> []) as Hne
    by (intros ->; apply combinations_nonempty; symmetry; apply Hcomplete).
  destruct (matrix_tiers config Hne Hfields) as [(first & rest & -> & Hu & Htiers)|Htiers]; rewrite Htiers in Hagree.
  - apply Forall2_cons_inv_r in Hagree as (t & tiers' & Ht & Hnil & ->). apply Forall2_nil_inv_r in Hnil as ->.
    exists (map (matrix_row fields [t] t) (getTaskEnumCombinations (Some schema))). split.
    + unfold tryParseTaskMatrixConfig. destruct expression as [|c e]; [by cbn in Hparse|]. rewrite Hparse.
      unfold mbind, result_bind. cbn [last]. rewrite (agrees_conditions _ _ _ Ht). cbn [row_tier tv_conditions].
      cbn [forallb]. unfold distinct_condition_fields. by rewrite (agrees_conditions _ _ _ Ht).
    + eapply uniform_rows; [done | | exact Hu | done]. by destruct Hcomplete as [_ [? _]%Forall_cons].
  - exists config. split; [|apply Forall_Forall2_diag, Forall_forall; intros; apply same_row_refl].
    destruct (conditions_accepted config tiers Hcomplete Hagree) as [Hd Hl].
    unfold tryParseTaskMatrixConfig. destruct expression as [|c e].
    { injection Hparse as <-. apply Forall2_length in Hagree. rewrite length_imap in Hagree. by destruct config. }
    rewrite Hparse. unfold mbind, result_bind. destruct (last tiers) as [fallback|] eqn:Hlast.
    + rewrite (Hl _ eq_refl), Hd. cbn [negb]. change (bool_decide (@nil task_condition <> [])) with false. cbv match.
      by rewrite (rows_recovered config tiers Hcomplete Hagree).
    + apply last_None in Hlast as ->. apply Forall2_length in Hagree. rewrite length_imap in Hagree. by destruct config.
Qed.
End conversion.
End facts.
