(* ===== verification/TaskExprPrinting.v ===== *)
(** The expression the task pricing editor writes: it compiles, and the task tier
    reader finds in it the tiers it was written from. *)

From S2P Require Import Prelude JsString JsNumber JsNumberOrder JsValue BillingTypes BillingParser BillingGrammar BillingCompile BillingTyping BillingCompileFacts BillingRuntime BillingStructure BillingDisplay ConditionalTaskDisplay JsRegExp JsJson BillingPrinting RequestRules RequestRuleFacts BillingExpr BillingExprFacts TaskExpr TaskExprFacts.

(** * The trees of the written texts *)

Definition usage_tree (field : str) : node := call F_u [text field].

(** The included quantity a term is written with. *)
Definition written_free (tier : task_visual_tier) (e : str * usage_field) : number :=
  if is_count e then n_max n_zero (n_floor (default n_zero (tv_freeQuantities tier ≫= obj_get e.1))) else n_zero.
Definition written_price (tier : task_visual_tier) (e : str * usage_field) : number :=
  default n_zero (obj_get e.1 (tv_unitPrices tier)).

Definition quantity_tree (field : str) (free : number) : node :=
  if n_ltb n_zero free then call F_max [bin B_sub (usage_tree field) (number_tree free); number_tree n_zero]
  else usage_tree field.
Definition field_tree (tier : task_visual_tier) (e : str * usage_field) : node :=
  let product := bin B_mul (quantity_tree e.1 (written_free tier e)) (number_tree (written_price tier e)) in
  if bool_decide (uf_unit e.2 = Some Unit_tokens) then bin B_div product (number_tree n_million) else product.

Definition constant_terms (tier : task_visual_tier) : list node :=
  if n_ltb n_zero (tv_constant tier) then [number_tree (tv_constant tier)] else [].
Definition tier_terms (tier : task_visual_tier) (fields : list (str * usage_field)) : list node :=
  constant_terms tier ++ map (field_tree tier) fields.

Definition labelled_tree (label : str) (terms : list node) : node := call F_tier [text label; chain B_add terms].
Definition tier_tree (fields : list (str * usage_field)) (tier : task_visual_tier) : node :=
  labelled_tree (tv_label tier) (tier_terms tier fields).
Definition condition_tree (c : task_condition) : node :=
  bin B_eq (usage_tree (kc_field c)) (text (kc_value c)).
Definition conditions_tree (conditions : list task_condition) : node := chain B_and (map condition_tree conditions).

Fixpoint tiers_tree (fields : list (str * usage_field)) (tiers : list task_visual_tier) : node :=
  match tiers with
  | [] => NLiteral LNull false 0 0
  | [tier] => tier_tree fields tier
  | tier :: rest =>
      ite (conditions_tree (tv_conditions tier)) (tier_tree fields tier) (tiers_tree fields rest)
  end.

(** * Printing *)

Lemma prints_usage field k d : utf16 field -> prints (usage_text field) k (S (S d)) (usage_tree field).
Proof.
  intros H. change (usage_text field) with (function_name F_u ++ js "(" ++ JSON_stringify field ++ js ")").
  apply prints_call; [|done]. by apply prints_args_one, prints_string.
Qed.

Lemma prints_zero k d : prints (js "0") k (S d) (number_tree n_zero).
Proof. change (js "0") with (string_of_number n_zero). by apply prints_number. Qed.
Lemma prints_million k d : prints (string_of_number TASK_TOKEN_PRICE_SCALE) k (S d) (number_tree n_million).
Proof. apply prints_number. vm_compute. reflexivity. Qed.

Definition quantity_text (field : str) (free : number) : str :=
  if n_ltb n_zero free
  then js "max(" ++ usage_text field ++ js " - " ++ string_of_number free ++ js ", 0)"
  else usage_text field.

Lemma prints_quantity field free :
  utf16 field -> number_prints free = true -> prints (quantity_text field free) 6 3 (quantity_tree field free).
Proof.
  intros Hf Hn. unfold quantity_text, quantity_tree. destruct (n_ltb n_zero free); [|by apply prints_usage].
  replace (js "max(" ++ usage_text field ++ js " - " ++ string_of_number free ++ js ", 0)") with
    (function_name F_max ++ js "(" ++ ((usage_text field ++ js " " ++ operator_text B_sub ++ js " " ++ string_of_number free) ++
       js ", " ++ js "0") ++ js ")") by (cbn; rewrite <- !app_assoc; done).
  apply prints_call; [|done]. apply prints_args_more; [| |done].
  - apply prints_binary; [cbn; lia | by apply prints_usage | by apply prints_number].
  - apply prints_args_one, prints_zero.
Qed.

Lemma prints_field tier e :
  utf16 e.1 -> number_prints (written_free tier e) = true -> number_prints (written_price tier e) = true ->
  prints (field_term tier e) 6 3 (field_tree tier e).
Proof.
  intros Hf Hfree Hprice.
  assert (prints (quantity_text e.1 (written_free tier e) ++ js " " ++ operator_text B_mul ++ js " " ++
            string_of_number (written_price tier e)) 6 3
            (bin B_mul (quantity_tree e.1 (written_free tier e)) (number_tree (written_price tier e)))) as Hproduct.
  { apply prints_binary; [cbn; lia | by apply prints_quantity | by apply prints_number]. }
  unfold field_term, field_tree. fold (written_free tier e) (written_price tier e).
  fold (quantity_text e.1 (written_free tier e)). case_bool_decide; [|exact Hproduct].
  pose proof (prints_binary B_div _ _ 6 2 _ _ ltac:(cbn; lia) Hproduct (prints_million 7 1)) as H1.
  match goal with |- prints ?a _ _ _ => match type of H1 with prints ?b _ _ _ => replace a with b; [exact H1|] end end.
  cbn. rewrite <- !app_assoc. done.
Qed.

(** What a tier needs to be written faithfully. *)
Record tier_printable (fields : list (str * usage_field)) (tier : task_visual_tier) : Prop := {
  printable_label : utf16 (tv_label tier);
  printable_constant : n_ltb n_zero (tv_constant tier) = true -> number_prints (tv_constant tier) = true;
  printable_free : forall e, e ∈ fields -> number_prints (written_free tier e) = true;
  printable_prices : forall e, e ∈ fields -> number_prints (written_price tier e) = true;
}.

Lemma prints_labelled label texts terms k :
  utf16 label -> terms <> [] -> Forall2 (fun s t => prints s 6 3 t) texts terms ->
  prints (js "tier(" ++ JSON_stringify label ++ js ", " ++ join (js " + ") texts ++ js ")") k 5 (labelled_tree label terms).
Proof.
  intros Hlabel Hne Hterms. change (js "tier(" ++ ?x) with (function_name F_tier ++ js "(" ++ x).
  replace (JSON_stringify label ++ js ", " ++ join (js " + ") texts ++ js ")") with
    ((JSON_stringify label ++ js ", " ++ join (js " + ") texts) ++ js ")") by (by rewrite <- !app_assoc).
  apply prints_call; [|done]. apply prints_args_more; [by apply prints_string | | done].
  apply prints_args_one. change (js " + ") with (js " " ++ operator_text B_add ++ js " ").
  apply (prints_weaken _ (PRECEDENCE B_add) 4); [by apply prints_chain | cbn; lia | lia].
Qed.

Lemma prints_tier fields tier k :
  fields <> [] -> Forall (fun e => utf16 e.1) fields -> tier_printable fields tier ->
  prints (generateTaskTierCall tier fields) k 5 (tier_tree fields tier).
Proof.
  intros Hne Hf [Hlabel Hconst Hfree Hprice]. apply prints_labelled; [done | |].
  - unfold tier_terms. by destruct (constant_terms tier), fields.
  - apply Forall2_app.
    + unfold constant_terms. destruct (n_ltb _ _); constructor; [|constructor]. by apply prints_number, Hconst.
    + apply Forall2_fmap_2, Forall_Forall2_diag, Forall_forall. intros e He. rewrite Forall_forall in Hf.
      apply prints_field; auto.
Qed.

Lemma prints_conditions conditions :
  conditions <> [] -> Forall (fun c => utf16 (kc_field c) /\ utf16 (kc_value c)) conditions ->
  prints (generateTaskCondition conditions) 2 3 (conditions_tree conditions).
Proof.
  intros Hne Hc. unfold generateTaskCondition, conditions_tree.
  change (js " && ") with (js " " ++ operator_text B_and ++ js " ").
  apply (prints_chain B_and); [|by destruct conditions].
  apply Forall2_fmap_2, Forall_Forall2_diag. eapply Forall_impl; [exact Hc|]. intros c [Hf Hv].
  change (usage_text (kc_field c) ++ js " == " ++ JSON_stringify (kc_value c)) with
    (usage_text (kc_field c) ++ js " " ++ operator_text B_eq ++ js " " ++ JSON_stringify (kc_value c)).
  apply prints_binary; [cbn; lia | by apply prints_usage | by apply prints_string].
Qed.

Lemma condition_text_nonempty conditions : conditions <> [] -> generateTaskCondition conditions <> [].
Proof. destruct conditions as [|c [|c' l]]; [done|..]; discriminate. Qed.

(** A list of tiers: all but the last have conditions. *)
Definition tiers_printable (fields : list (str * usage_field)) (tiers : list task_visual_tier) : Prop :=
  Forall (tier_printable fields) tiers /\
  Forall (fun t => Forall (fun c => utf16 (kc_field c) /\ utf16 (kc_value c)) (tv_conditions t)) tiers /\
  Forall (fun t => tv_conditions t <> []) (take (length tiers - 1) tiers).

Lemma tiers_printable_tail fields t t' tiers :
  tiers_printable fields (t :: t' :: tiers) -> tiers_printable fields (t' :: tiers).
Proof.
  intros (H1 & H2 & H3). cbn [length] in H3. rewrite !Nat.sub_succ, Nat.sub_0_r in H3. cbn [take] in H3.
  apply Forall_cons in H1 as [_ H1], H2 as [_ H2], H3 as [_ H3]. split; [done|]. split; [done|].
  cbn [length]. by rewrite Nat.sub_succ, Nat.sub_0_r.
Qed.

Lemma tier_parts_cons fields t t' tiers :
  generateTaskCondition (tv_conditions t) <> [] ->
  tier_parts fields (t :: t' :: tiers) =
  (parts ← tier_parts fields (t' :: tiers);
   Some ((generateTaskCondition (tv_conditions t) ++ js " ? " ++ generateTaskTierCall t fields) :: parts)).
Proof. intros H. cbn [tier_parts]. by destruct (generateTaskCondition (tv_conditions t)). Qed.

Lemma tier_parts_nonempty fields t tiers parts : tier_parts fields (t :: tiers) = Some parts -> parts <> [].
Proof.
  cbn [tier_parts]. destruct tiers as [|t' tl]; [by intros [= <-]|].
  destruct (generateTaskCondition (tv_conditions t)); [done|].
  destruct (tier_parts fields (t' :: tl)); [by intros [= <-]|done].
Qed.

Lemma prints_tiers fields tiers parts :
  fields <> [] -> Forall (fun e => utf16 e.1) fields -> tiers_printable fields tiers -> tiers <> [] ->
  tier_parts fields tiers = Some parts ->
  prints (join (js " : ") parts) 0 (4 + length tiers) (tiers_tree fields tiers).
Proof.
  intros Hne Hf. revert parts. induction tiers as [|t tiers IH]; intros parts Hp Hnil Hparts; [done|]. clear Hnil.
  destruct tiers as [|t' tiers].
  - injection Hparts as <-. cbn [join tiers_tree length]. destruct Hp as (Hp & _). apply Forall_cons in Hp as [Hp _].
    by apply prints_tier.
  - pose proof (tiers_printable_tail _ _ _ _ Hp) as Htail. destruct Hp as (Hp & Hc & Hcond).
    apply Forall_cons in Hp as [Hp _], Hc as [Hc _]. cbn in Hcond. apply Forall_cons in Hcond as [Hcond _].
    change (tiers_tree fields (t :: t' :: tiers)) with
      (ite (conditions_tree (tv_conditions t)) (tier_tree fields t) (tiers_tree fields (t' :: tiers))).
    rewrite tier_parts_cons in Hparts by (by apply condition_text_nonempty).
    remember (t' :: tiers) as rest eqn:Hrest.
    destruct (tier_parts fields rest) as [ps|] eqn:Hps; [|discriminate Hparts].
    apply (inj Some) in Hparts as <-.
    specialize (IH ps Htail ltac:(by subst rest) eq_refl).
    assert (ps <> []) as Hps' by (subst rest; by eapply tier_parts_nonempty).
    assert (join (js " : ") ((generateTaskCondition (tv_conditions t) ++ js " ? " ++ generateTaskTierCall t fields) :: ps) =
            generateTaskCondition (tv_conditions t) ++ js " ? " ++ generateTaskTierCall t fields ++ js " : " ++ join (js " : ") ps)
      as ->.
    { destruct ps as [|p ps]; [done|]. cbn [join]. by rewrite <- !app_assoc. }
    cbn [length]. rewrite Nat.add_succ_r. apply prints_conditional.
    + eapply prints_weaken; [by apply prints_conditions | lia | lia].
    + eapply prints_weaken with (k := 0%Z); [by apply prints_tier | lia|]. subst rest. cbn [length]. lia.
    + exact IH.
Qed.

(** * The trees compile *)

Lemma field_tree_facts tier e :
  type_of (field_tree tier e) = Some Ty_number /\ (height (field_tree tier e) <= 5)%Z /\
  all_ordinary (field_tree tier e) = true.
Proof.
  unfold field_tree, quantity_tree. destruct (n_ltb n_zero (written_free tier e)), (bool_decide _); cbn; auto with lia.
Qed.

Lemma terms_facts tier fields :
  Forall (fun t => type_of t = Some Ty_number /\ (height t <= 5)%Z /\ all_ordinary t = true) (tier_terms tier fields).
Proof.
  unfold tier_terms. apply Forall_app. split.
  - unfold constant_terms. destruct (n_ltb _ _); constructor; [cbn; auto with lia | constructor].
  - apply Forall_fmap, Forall_forall. intros e _. apply field_tree_facts.
Qed.

Lemma terms_nonempty tier fields : fields <> [] -> tier_terms tier fields <> [].
Proof. unfold tier_terms. by destruct (constant_terms tier), fields. Qed.

Lemma terms_length tier fields : length (tier_terms tier fields) <= S (length fields).
Proof. unfold tier_terms, constant_terms. rewrite length_app, length_map. destruct (n_ltb _ _); cbn; lia. Qed.

Lemma labelled_tree_facts label terms :
  terms <> [] -> Forall (fun t => type_of t = Some Ty_number /\ (height t <= 5)%Z /\ all_ordinary t = true) terms ->
  type_of (labelled_tree label terms) = Some Ty_number /\
  (height (labelled_tree label terms) <= 6 + Z.of_nat (length terms))%Z /\
  all_ordinary (labelled_tree label terms) = true.
Proof.
  intros Hn Hall.
  assert (type_of (chain B_add terms) = Some Ty_number) as Ht.
  { apply (chain_invariant (fun t => type_of t = Some Ty_number)); [done | eapply Forall_impl; [exact Hall|]; by intros t (Ht & _)|].
    intros x y Hx Hy. cbn [bin type_of]. by rewrite Hx, Hy. }
  assert (all_ordinary (chain B_add terms) = true) as Ho.
  { apply (chain_invariant (fun t => all_ordinary t = true)); [done | eapply Forall_impl; [exact Hall|]; by intros t (_ & _ & Ho)|].
    intros x y Hx Hy. cbn [bin all_ordinary]. by rewrite Hx, Hy. }
  assert (height (chain B_add terms) <= 5 + Z.of_nat (length terms))%Z as Hh.
  { apply chain_height; [lia|]. eapply Forall_impl; [exact Hall|]. by intros t (_ & Hh & _). }
  unfold labelled_tree. cbn [call type_of height all_ordinary map all_some fold_right forallb text literal_type]. rewrite Ht, Ho.
  split; [done|]. split; [|done]. pose proof (height_nonneg (chain B_add terms)). lia.
Qed.

Lemma tier_tree_facts fields tier :
  fields <> [] ->
  type_of (tier_tree fields tier) = Some Ty_number /\
  (height (tier_tree fields tier) <= 7 + Z.of_nat (length fields))%Z /\
  all_ordinary (tier_tree fields tier) = true.
Proof.
  intros Hne. pose proof (terms_length tier fields).
  destruct (labelled_tree_facts (tv_label tier) (tier_terms tier fields)) as (Ht & Hh & Ho);
    [by apply terms_nonempty | apply terms_facts|]. unfold tier_tree. split; [done|]. split; [lia|done].
Qed.

Lemma conditions_tree_facts conditions :
  conditions <> [] ->
  type_of (conditions_tree conditions) = Some Ty_boolean /\
  (height (conditions_tree conditions) <= 2 + Z.of_nat (length conditions))%Z /\
  all_ordinary (conditions_tree conditions) = true.
Proof.
  intros Hne. unfold conditions_tree. assert (map condition_tree conditions <> []) as Hm by (by destruct conditions).
  split; [|split].
  - apply (chain_invariant (fun t => type_of t = Some Ty_boolean)); [done | apply Forall_fmap, Forall_forall; by intros|].
    intros x y Hx Hy. cbn [bin type_of]. by rewrite Hx, Hy.
  - rewrite <- (length_map condition_tree conditions). apply chain_height; [lia|].
    apply Forall_fmap, Forall_forall. intros. cbn. lia.
  - apply (chain_invariant (fun t => all_ordinary t = true)); [done | apply Forall_fmap, Forall_forall; by intros|].
    intros x y Hx Hy. cbn [bin all_ordinary]. by rewrite Hx, Hy.
Qed.

Lemma tiers_tree_facts fields tiers b :
  fields <> [] -> tiers <> [] ->
  Forall (fun t => tv_conditions t <> []) (take (length tiers - 1) tiers) ->
  Forall (fun t => (Z.of_nat (length (tv_conditions t)) <= b)%Z) tiers ->
  type_of (tiers_tree fields tiers) = Some Ty_number /\
  (height (tiers_tree fields tiers) <= Z.max (7 + Z.of_nat (length fields)) (2 + b) + Z.of_nat (length tiers))%Z /\
  all_ordinary (tiers_tree fields tiers) = true.
Proof.
  intros Hf Hne Hc Hb. induction tiers as [|t tiers IH]; [done|]. pose proof (tier_tree_facts fields t Hf) as (Ht & Hh & Ho).
  destruct tiers as [|t' tiers]; [cbn [tiers_tree length]; split; [done|]; split; [lia|done]|].
  change (tiers_tree fields (t :: t' :: tiers)) with
    (ite (conditions_tree (tv_conditions t)) (tier_tree fields t) (tiers_tree fields (t' :: tiers))).
  cbn in Hc. apply Forall_cons in Hc as [Hc1 Hc]. apply Forall_cons in Hb as [Hb1 Hb].
  destruct IH as (IHt & IHh & IHo); [done | cbn [length]; by rewrite Nat.sub_succ, Nat.sub_0_r | done|].
  pose proof (conditions_tree_facts _ Hc1) as (Hct & Hch & Hco).
  split; [|split].
  - cbn [ite type_of]. by rewrite Hct, Ht, IHt.
  - cbn [ite height]. change (length (t :: t' :: tiers)) with (S (length (t' :: tiers))). lia.
  - cbn [ite all_ordinary]. rewrite Hco, Ho, IHo. unfold tier_tree. by destruct (tiers_tree fields (t' :: tiers)) as [[]| | | | |].
Qed.

(** * Reading *)

(** ** The reader does not look at positions *)

Lemma usage_read_erase n : usage_read (erase n) = usage_read n.
Proof. destruct n as [| |f args a b| | |]; try done. destruct f; try done. destruct args as [|x args]; [done|]. by destruct x as [[]| | | | |]. Qed.

Lemma free_read_erase n : free_quantity_read (erase n) = free_quantity_read n.
Proof.
  destruct n as [| |f args a b| | |]; try done. destruct f; try done. destruct args as [|x [|y [|z l]]]; try done.
  - by destruct x as [| | | |[] l r a' b'|].
  - cbn [erase map]. destruct x as [| | | |o l r a' b'|]; try done. destruct o; try done.
    cbn [erase free_quantity_read]. by rewrite usage_read_erase, !price_literal_erase.
  - by destruct x as [| | | |[] l' r a' b'|].
Qed.

Lemma unscaled_erase n : unscaled (erase n) = (fun p => (p.1, erase p.2)) <$> unscaled n.
Proof.
  destruct n as [| | | |o l r a b|]; try done. destruct o; try done. destruct r as [[]| | | | |]; try done.
  cbn. by destruct (n_eqb _ _).
Qed.

Lemma task_term_erase schema acc n : task_term schema acc (erase n) = task_term schema acc n.
Proof.
  unfold task_term. destruct acc as [p|]; [|done]. cbn [mbind option_bind]. rewrite price_literal_erase, unscaled_erase.
  destruct (nonnegativePriceLiteral n); [done|]. destruct (unscaled n) as [[scaled t]|]; [|done].
  cbn [fmap option_fmap option_map mbind option_bind fst snd].
  destruct t as [| | | |o l r a b|]; try done. destruct o; try done. cbn [erase].
  by rewrite price_literal_erase, usage_read_erase, free_read_erase.
Qed.

Lemma fold_terms_erase schema l acc : fold_left (task_term schema) (map erase l) acc = fold_left (task_term schema) l acc.
Proof. revert acc. induction l as [|n l IH]; intros acc; cbn [map fold_left]; [done|]. by rewrite task_term_erase, IH. Qed.

Lemma taskTier_erase n conditions schema : taskTier (erase n) conditions schema = taskTier n conditions schema.
Proof.
  destruct n as [| |f args a b| | |]; try done. destruct f; try done. destruct args as [|x [|y l]]; try done.
  - by destruct x as [[]| | | | |].
  - cbn [erase map]. destruct x as [[]| | | | |]; try done. cbn [erase taskTier].
    by rewrite flatten_erase, fold_terms_erase.
Qed.

Lemma usage_comparison_erase n : usage_comparison (erase n) = usage_comparison n.
Proof.
  destruct n as [| | | |o x y a b|]; try done. destruct o; try done. destruct x as [| |f args a' b'| | |]; try done.
  destruct f; try done. destruct args as [|z args]; [done|]. destruct z as [[]| | | | |]; try done. by destruct y.
Qed.

Lemma taskConditions_erase n schema b : taskConditions (erase n) schema b = taskConditions n schema b.
Proof.
  unfold taskConditions. rewrite flatten_erase.
  assert (map_option (task_condition_of schema b) (map erase (flattenBinary n B_and)) =
          map_option (task_condition_of schema b) (flattenBinary n B_and)) as ->; [|done].
  induction (flattenBinary n B_and) as [|x l IH]; [done|]. cbn [map map_option]. rewrite IH.
  unfold task_condition_of. by rewrite usage_comparison_erase.
Qed.

Lemma tier_loop_erase n schema b tiers : task_tier_loop (erase n) schema b tiers = task_tier_loop n schema b tiers.
Proof.
  revert tiers. induction n as [| |f args a b'|o x a b'|o x y a b'|c y z a b' _ _ IH] using node_ind'; intros tiers; try done.
  - cbn [task_tier_loop]. rewrite <- (taskTier_erase (NCall f args a b')). done.
  - cbn [erase task_tier_loop]. rewrite taskConditions_erase.
    destruct (taskConditions c schema b) as [| |conditions]; [done | apply IH |]. rewrite taskTier_erase.
    destruct (shadowed tiers conditions); [apply IH|]. destruct (taskTier y conditions schema); [|done].
    cbn [mbind option_bind]. destruct conditions; [done|apply IH].
Qed.

Lemma read_chain_erase n schema b : readTaskTierChain (erase n) schema b = readTaskTierChain n schema b.
Proof. apply tier_loop_erase. Qed.

(** ** The terms of a tier *)

Section reading.
Context {collation : Collation}.
Variable schema : usage_schema.
Hypothesis keys_distinct : NoDup (map fst schema).
Let fields : list (str * usage_field) := getTaskNumberFields (Some schema).

Lemma number_field_schema e :
  e ∈ fields -> obj_get e.1 schema = Some e.2 /\ uf_type e.2 = Some Usage_number /\ is_Some (uf_unit e.2).
Proof.
  intros He. unfold fields, getTaskNumberFields in He. rewrite sort_keys_perm in He.
  apply list_elem_of_In, filter_In in He as [He Hn]. unfold is_number_field in Hn. breflect.
  apply list_elem_of_In in He. split; [apply obj_get_elem; [done | by destruct e]|]. split; [done|].
  destruct (uf_unit e.2); [eauto|done].
Qed.

(** A tier whose numbers the reader accepts. *)
Record tier_readable (tier : task_visual_tier) : Prop := {
  readable_prices : forall e, e ∈ fields -> n_leb n_zero (written_price tier e) = true;
  readable_free : forall e, e ∈ fields -> n_ltb n_zero (written_free tier e) = true -> is_integer (written_free tier e) = true;
}.

Definition read_prices (tier : task_visual_tier) (l : list (str * usage_field)) : list (str * number) :=
  map (fun e => (e.1, written_price tier e)) l.
Definition read_free (tier : task_visual_tier) (l : list (str * usage_field)) : list (str * number) :=
  flat_map (fun e => if n_ltb n_zero (written_free tier e) then [(e.1, written_free tier e)] else []) l.

(** What the two forms of a quantity are read as. *)
Lemma quantity_plain_read field free :
  n_ltb n_zero free = false -> usage_read (quantity_tree field free) = Some field.
Proof. intros H. unfold quantity_tree. by rewrite H. Qed.

Lemma quantity_free_read field free :
  n_ltb n_zero free = true ->
  usage_read (quantity_tree field free) = None /\
  free_quantity_read (quantity_tree field free) = Some (field, free).
Proof.
  intros H. unfold quantity_tree. rewrite H. split; [done|].
  unfold free_quantity_read, call, bin.
  pose proof (price_literal_number free (ltb_true_leb _ _ H)) as Hl. rewrite Hl. reflexivity.
Qed.

(** A product, possibly divided by the token scale. *)
Lemma product_read p (scaled : bool) quantity price field definition unit free :
  n_leb n_zero price = true -> obj_get field schema = Some definition ->
  uf_type definition = Some Usage_number -> uf_unit definition = Some unit ->
  scaled = bool_decide (unit = Unit_tokens) -> obj_get field (kp_unitPrices p) = None ->
  match free with
  | None => usage_read quantity = Some field
  | Some q => unit = Unit_count /\ is_integer q = true /\ usage_read quantity = None /\
              free_quantity_read quantity = Some (field, q)
  end ->
  task_term schema (Some p)
    (let product := bin B_mul quantity (number_tree price) in
     if scaled then bin B_div product (number_tree n_million) else product) =
  add_unit_price field price free p.
Proof.
  intros Hprice Hget Htype Hunit Hscaled Hnone Hread.
  assert (forall term, term = bin B_mul quantity (number_tree price) ->
    match nonnegativePriceLiteral (if scaled then bin B_div term (number_tree n_million) else term) with
    | Some _ => None
    | None => unscaled (if scaled then bin B_div term (number_tree n_million) else term)
    end = Some (scaled, term)) as Hunscaled.
  { intros term ->. by destruct scaled. }
  cbv zeta. specialize (Hunscaled _ eq_refl). unfold task_term.
  set (whole := if scaled then _ else _) in *. cbn [mbind option_bind].
  destruct (nonnegativePriceLiteral whole); [done|]. rewrite Hunscaled. cbn [mbind option_bind].
  unfold bin at 1. rewrite price_literal_number by done. cbn [mbind option_bind].
  destruct free as [q|].
  - destruct Hread as (-> & Hint & Hr & Hf). rewrite Hr, Hf. cbn [mbind option_bind]. rewrite Hget. cbn [mbind option_bind].
    rewrite Htype, Hunit, Hnone, Hint. reflexivity.
  - rewrite Hread, Hget, Htype, Hunit, Hnone, Hscaled, Bool.eqb_reflx. reflexivity.
Qed.

Lemma field_term_read tier e p :
  tier_readable tier -> e ∈ fields -> e.1 ∉ map fst (kp_unitPrices p) ->
  task_term schema (Some p) (field_tree tier e) =
  Some (TaskPrices (kp_constant p) (kp_unitPrices p ++ read_prices tier [e]) (kp_freeQuantities p ++ read_free tier [e])).
Proof.
  intros [Hprice Hfree] He Hfresh. pose proof (number_field_schema e He) as (Hget & Htype & [unit Hunit]).
  assert (obj_get e.1 (kp_unitPrices p) = None) as Hnone.
  { destruct (obj_get e.1 (kp_unitPrices p)) as [x|] eqn:E; [|done]. destruct Hfresh.
    apply obj_get_Some in E. apply list_elem_of_In, in_map_iff. exists (e.1, x). by split; [|apply list_elem_of_In]. }
  specialize (Hprice e He). specialize (Hfree e He).
  assert (bool_decide (uf_unit e.2 = Some Unit_tokens) = bool_decide (unit = Unit_tokens)) as Hscaled.
  { rewrite Hunit. apply bool_decide_ext. split; [by intros [= ->] | by intros ->]. }
  unfold field_tree, read_prices, read_free. cbn [map flat_map]. rewrite app_nil_r.
  destruct (n_ltb n_zero (written_free tier e)) eqn:Hf.
  - rewrite (product_read p _ _ _ e.1 e.2 unit (Some (written_free tier e))); try done.
    + unfold add_unit_price. by rewrite Hnone.
    + destruct (quantity_free_read e.1 _ Hf). split; [|by auto].
      unfold written_free in Hf. destruct (is_count e) eqn:Hc; [|done]. apply bool_decide_eq_true in Hc. congruence.
  - rewrite (product_read p _ _ _ e.1 e.2 unit None); try done.
    + unfold add_unit_price. rewrite Hnone. by rewrite app_nil_r.
    + by apply quantity_plain_read.
Qed.

Lemma field_terms_read tier l p :
  tier_readable tier -> Forall (fun e => e ∈ fields) l -> NoDup (map fst (kp_unitPrices p) ++ map fst l) ->
  fold_left (task_term schema) (map (field_tree tier) l) (Some p) =
  Some (TaskPrices (kp_constant p) (kp_unitPrices p ++ read_prices tier l) (kp_freeQuantities p ++ read_free tier l)).
Proof.
  intros Ht Hl. revert p. induction Hl as [|e l He _ IH]; intros p Hnd; cbn [map fold_left].
  - unfold read_prices, read_free. cbn [map flat_map]. rewrite !app_nil_r. by destruct p.
  - cbn [map] in Hnd. rewrite field_term_read; [|done|done|].
    + rewrite IH; cbn [kp_unitPrices kp_constant kp_freeQuantities].
      * unfold read_prices, read_free. cbn [map flat_map]. rewrite app_nil_r. by rewrite <- !app_assoc.
      * rewrite map_app. unfold read_prices. cbn [map fst]. by rewrite <- app_assoc.
    + apply NoDup_app in Hnd as (_ & Hd & _). intros Hin. apply (Hd _ Hin). by left.
Qed.

(** The tier read from the tree of a tier. *)
Definition read_tier (tier : task_visual_tier) (conditions : list task_condition) : task_tier :=
  TaskTier None (tv_label tier) conditions
    (if n_ltb n_zero (tv_constant tier) then tv_constant tier else n_zero)
    (read_prices tier fields) (read_free tier fields).

Lemma tier_terms_flat tier : Forall (fun t => flattenBinary t B_add = [t]) (tier_terms tier fields).
Proof.
  unfold tier_terms, constant_terms. apply Forall_app. split; [destruct (n_ltb _ _); repeat constructor|].
  apply Forall_fmap, Forall_forall. intros e _. cbn. unfold field_tree. by destruct (bool_decide _).
Qed.

Lemma taskTier_read tier conditions :
  fields <> [] -> tier_readable tier ->
  taskTier (tier_tree fields tier) conditions schema = Some (read_tier tier conditions).
Proof.
  intros Hne Ht. unfold tier_tree, labelled_tree, taskTier, call, text.
  rewrite flatten_chain by (apply terms_nonempty || apply tier_terms_flat; done).
  unfold tier_terms. rewrite fold_left_app.
  assert (exists p, fold_left (task_term schema) (constant_terms tier) (Some (TaskPrices None [] [])) = Some p /\
    kp_unitPrices p = [] /\ kp_freeQuantities p = [] /\
    default n_zero (kp_constant p) = if n_ltb n_zero (tv_constant tier) then tv_constant tier else n_zero)
    as (p & -> & Hp & Hq & Hc).
  { unfold constant_terms. destruct (n_ltb n_zero (tv_constant tier)) eqn:E; [|by eexists].
    cbn [fold_left]. unfold task_term. cbn [mbind option_bind]. rewrite price_literal_number by (by apply ltb_true_leb). by eexists. }
  rewrite field_terms_read; [|done | by apply Forall_forall|].
  - cbn [mbind option_bind kp_unitPrices kp_constant kp_freeQuantities]. rewrite Hp, Hq, Hc. cbn [app].
    destruct (read_prices tier fields) as [|x l] eqn:E; [|unfold read_tier; by rewrite E].
    unfold read_prices in E. by destruct fields.
  - rewrite Hp. cbn [map app]. by apply number_fields_keys.
Qed.

(** ** The chain of tiers *)

(** Enumerated fields are not declared boolean. *)
Hypothesis enums_plain : Forall (fun e => uf_enum e.2 <> None -> uf_type e.2 <> Some Usage_boolean) schema.

Lemma condition_read c :
  declared_condition (getTaskEnumFields (Some schema)) c = true ->
  task_condition_of schema false (condition_tree c) = Some (true, Some c).
Proof.
  unfold declared_condition. destruct (obj_get (kc_field c) _) as [definition|] eqn:Hget; [|done]. intros Hin.
  apply bool_decide_eq_true in Hin. apply obj_get_Some in Hget. cbn in Hget. rewrite sort_keys_perm in Hget.
  apply list_elem_of_In, filter_In in Hget as [Hget _]. apply list_elem_of_In in Hget.
  pose proof (proj1 (Forall_forall _ _) enums_plain _ Hget) as Hplain. cbn [snd] in Hplain.
  unfold task_condition_of, condition_tree, usage_tree, bin, call, text. cbn [usage_comparison mbind option_bind].
  rewrite (obj_get_elem _ definition) by done. destruct (uf_enum definition) as [values|] eqn:He; [|by apply not_elem_of_nil in Hin].
  rewrite bool_decide_eq_false_2 by (by apply Hplain). cbn [default from_option] in Hin. unfold id in Hin.
  rewrite bool_decide_eq_true_2 by done. by destruct c.
Qed.

Lemma conditions_read conditions :
  conditions <> [] -> Forall (fun c => declared_condition (getTaskEnumFields (Some schema)) c = true) conditions ->
  taskConditions (conditions_tree conditions) schema false = TC_conditions conditions.
Proof.
  intros Hne Hc. unfold taskConditions, conditions_tree.
  rewrite flatten_chain; [|by destruct conditions | apply Forall_fmap, Forall_forall; by intros].
  assert (map_option (task_condition_of schema false) (map condition_tree conditions) = Some (map (fun c => (true, Some c)) conditions)) as ->.
  { clear Hne. induction Hc as [|c l Hc _ IH]; [done|]. cbn [map map_option]. by rewrite condition_read, IH. }
  assert (forallb fst (map (fun c => (true, Some c)) conditions) = true) as -> by (by apply forallb_forall; intros x (c & <- & _)%in_map_iff).
  f_equal. clear. induction conditions as [|c l IH]; cbn; [done|]. by f_equal.
Qed.

(** All tiers but the last have conditions that no earlier tier's imply; the last has
    none. *)
Fixpoint well_ordered (earlier : list (list task_condition)) (tiers : list task_visual_tier) : bool :=
  match tiers with
  | [] => false
  | [tier] => bool_decide (tv_conditions tier = [])
  | tier :: rest =>
      bool_decide (tv_conditions tier <> []) &&
      forallb (fun conditions => negb (forallb (fun c => bool_decide (c ∈ tv_conditions tier)) conditions)) earlier &&
      well_ordered (earlier ++ [tv_conditions tier]) rest
  end.

Definition tiers_declared (tiers : list task_visual_tier) : Prop :=
  Forall (fun t => Forall (fun c => declared_condition (getTaskEnumFields (Some schema)) c = true) (tv_conditions t)) tiers.

Lemma tiers_read tiers acc :
  fields <> [] -> Forall tier_readable tiers -> tiers_declared tiers ->
  well_ordered (map kt_conditions acc) tiers = true ->
  task_tier_loop (tiers_tree fields tiers) schema false acc =
  Some (acc ++ map (fun t => read_tier t (tv_conditions t)) tiers).
Proof.
  intros Hf Hr Hd. revert acc. induction tiers as [|t tiers IH]; intros acc Hw; [done|].
  apply Forall_cons in Hr as [Ht Hr], Hd as [Hdt Hd]. destruct tiers as [|t' tiers].
  - cbn [well_ordered] in Hw. breflect. cbn [tiers_tree map]. rewrite Hw.
    change (task_tier_loop (tier_tree fields t) schema false acc) with
      (fallback ← taskTier (tier_tree fields t) [] schema; Some (acc ++ [fallback])).
    by rewrite taskTier_read.
  - change (tiers_tree fields (t :: t' :: tiers)) with
      (ite (conditions_tree (tv_conditions t)) (tier_tree fields t) (tiers_tree fields (t' :: tiers))).
    remember (t' :: tiers) as rest eqn:Hrest. cbn [well_ordered] in Hw. rewrite Hrest in Hw. rewrite <- Hrest in Hw.
    apply andb_true_iff in Hw as [Hw Hw3]. apply andb_true_iff in Hw as [Hw1 Hw2]. apply bool_decide_eq_true in Hw1.
    unfold ite. cbn [task_tier_loop]. rewrite conditions_read by done.
    assert (shadowed acc (tv_conditions t) = false) as ->.
    { unfold shadowed. apply not_true_is_false. intros Hs. apply existsb_exists in Hs as (a & Ha & Hs).
      rewrite forallb_forall in Hw2. specialize (Hw2 (kt_conditions a) (in_map kt_conditions acc a Ha)).
      by rewrite Hs in Hw2. }
    rewrite taskTier_read by done. cbn [mbind option_bind].
    destruct (tv_conditions t) as [|c0 cs] eqn:Ec; [done|]. rewrite <- Ec in *.
    rewrite IH; [cbn [map]; by rewrite <- app_assoc | done | done|]. by rewrite map_app.
Qed.
End reading.

(** * The written text is not split *)

(** Characters that are neither quotes nor brackets. *)
Definition unbracketed (c : N) : bool := negb (is_quote c) && negb (is_opening c) && negb (is_closing c).
Definition inert (c : N) : bool := unbracketed c && negb (c =? question_mark)%N && negb (c =? 42)%N.

Lemma flat_inert d s : forallb inert s = true -> flat 42 d s.
Proof.
  unfold flat. induction s as [|c s IH]; [done|]. cbn [forallb]. intros [Hc Hs]%andb_true_iff. unfold inert, unbracketed in Hc.
  cbn [scan]. destruct (is_quote c), (is_opening c), (is_closing c), (c =? question_mark)%N, (c =? 42)%N; try discriminate Hc.
  cbn [orb]. rewrite andb_false_r. auto.
Qed.

Lemma flat_deep d s : (0 < d)%Z -> forallb unbracketed s = true -> flat 42 d s.
Proof.
  intros Hd. unfold flat. induction s as [|c s IH]; [done|]. cbn [forallb]. intros [Hc Hs]%andb_true_iff. unfold unbracketed in Hc.
  cbn [scan]. destruct (is_quote c), (is_opening c), (is_closing c); try discriminate Hc.
  rewrite (proj2 (Z.eqb_neq d 0)) by lia. auto.
Qed.

Lemma flat_star_parens d s : (0 <= d)%Z -> flat 42 (d + 1) s -> flat 42 d (js "(" ++ s ++ js ")").
Proof.
  intros Hd Hs. unfold flat in *. rewrite !scan_app.
  change (scan 42 (InCode d) (js "(")) with
    (if (d + 1 =? 0)%Z && false then @None scan_mode else Some (InCode (d + 1))).
  rewrite andb_false_r. cbn [mbind option_bind]. rewrite scan_app, Hs. cbn [mbind option_bind].
  change (scan 42 (InCode (d + 1)) (js ")")) with
    (if (d + 1 - 1 =? 0)%Z && false then @None scan_mode else Some (InCode (d + 1 - 1))).
  rewrite andb_false_r. by replace (d + 1 - 1)%Z with d by lia.
Qed.

Lemma flat_number d x : number_prints x = true -> flat 42 d (string_of_number x).
Proof.
  intros H. apply flat_numeric; [by left|]. unfold number_prints in H. breflect.
  match goal with H : match_number _ = _ |- _ => apply match_number_numeric in H; by rewrite take_ge in H end.
Qed.

Lemma flat_usage d field : (0 <= d)%Z -> utf16 field -> flat 42 d (usage_text field).
Proof.
  intros Hd Hf. change (usage_text field) with (js "u" ++ js "(" ++ JSON_stringify field ++ js ")").
  apply flat_app; [by apply flat_inert|]. apply flat_star_parens; [done|]. by apply flat_stringify.
Qed.

Lemma flat_field d tier e :
  (0 < d)%Z -> utf16 e.1 -> number_prints (written_free tier e) = true -> number_prints (written_price tier e) = true ->
  flat 42 d (field_term tier e).
Proof.
  intros Hd Hf Hfree Hprice. unfold field_term. fold (written_free tier e) (written_price tier e).
  fold (quantity_text e.1 (written_free tier e)).
  assert (flat 42 d (quantity_text e.1 (written_free tier e))) as Hq.
  { unfold quantity_text. destruct (n_ltb _ _); [|apply flat_usage; [lia|done]].
    change (js "max(" ++ ?x) with (js "max" ++ js "(" ++ x).
    replace (usage_text e.1 ++ js " - " ++ string_of_number (written_free tier e) ++ js ", 0)") with
      ((usage_text e.1 ++ js " - " ++ string_of_number (written_free tier e) ++ js ", 0") ++ js ")")
      by (by rewrite <- !app_assoc).
    apply flat_app; [by apply flat_inert|]. apply flat_star_parens; [lia|].
    apply flat_app; [apply flat_usage; [lia|done]|]. apply flat_app; [by apply flat_inert|].
    apply flat_app; [by apply flat_number | by apply flat_inert]. }
  destruct (bool_decide _); repeat (apply flat_app; [first [exact Hq | by apply flat_deep | by apply flat_number]|]).
  - by apply flat_inert.
  - by apply flat_number.
Qed.

Lemma flat_tier fields tier :
  Forall (fun e => utf16 e.1) fields -> tier_printable fields tier -> flat 42 0 (generateTaskTierCall tier fields).
Proof.
  intros Hf [Hlabel Hconst Hfree Hprice]. unfold generateTaskTierCall.
  change (js "tier(" ++ ?x) with (js "tier" ++ js "(" ++ x).
  replace (JSON_stringify (tv_label tier) ++ js ", " ++ generateTaskTierBody tier fields ++ js ")") with
    ((JSON_stringify (tv_label tier) ++ js ", " ++ generateTaskTierBody tier fields) ++ js ")")
    by (by rewrite <- !app_assoc).
  apply flat_app; [by apply flat_inert|]. apply flat_star_parens; [lia|]. apply flat_app; [by apply flat_stringify|].
  apply flat_app; [by apply flat_inert|]. unfold generateTaskTierBody. apply flat_join; [by apply flat_deep|].
  apply Forall_app. split.
  - destruct (n_ltb _ _); constructor; [by apply flat_number, Hconst | constructor].
  - apply Forall_fmap, Forall_forall. intros e He. rewrite Forall_forall in Hf. cbn. apply flat_field; auto with lia.
Qed.

Lemma flat_conditions conditions :
  Forall (fun c => utf16 (kc_field c) /\ utf16 (kc_value c)) conditions -> flat 42 0 (generateTaskCondition conditions).
Proof.
  intros H. unfold generateTaskCondition. apply flat_join; [by apply flat_inert|].
  apply Forall_fmap. eapply Forall_impl; [exact H|]. intros c [Hf Hv]. cbn.
  apply flat_app; [by apply flat_usage|]. apply flat_app; [by apply flat_inert | by apply flat_stringify].
Qed.

Lemma unsplit_flat s : flat 42 0 s -> trimmed s -> s <> [] -> splitTopLevelMultiply s = [s].
Proof.
  intros Hf Ht Hne. unfold splitTopLevelMultiply. change (js "*") with [42%N].
  pose proof (split_join 42 [] [s] (or_introl eq_refl) ltac:(done)) as H. cbn [join] in H.
  by rewrite H by (constructor; [done | constructor]).
Qed.

Lemma unsplit_mark a rest :
  flat 42 0 a -> splitTopLevelMultiply (a ++ js " ? " ++ rest) = [trim (a ++ js " ? " ++ rest)].
Proof.
  intros Hf. unfold splitTopLevelMultiply. change (js "*") with [42%N]. rewrite split_pieces by done.
  assert (pieces [42%N] (InCode 0) [] (a ++ js " ? " ++ rest) = None) as ->; [|done].
  rewrite (scan_pieces 42 [] (InCode 0) a (InCode 0) [] _ Hf). reflexivity.
Qed.

(** The first and last characters of a written expression. *)
Definition writing (s : str) : Prop := (head s = Some 116%N \/ head s = Some 117%N) /\ last s = Some 41%N.

Lemma last_app_cons {A} (a b : list A) x : last b = Some x -> last (a ++ b) = Some x.
Proof. intros H. apply last_Some in H as [l ->]. by rewrite app_assoc, last_snoc. Qed.

Lemma tier_writing fields tier : writing (generateTaskTierCall tier fields).
Proof. split; [by left|]. unfold generateTaskTierCall. by repeat apply last_app_cons. Qed.

Lemma condition_head conditions : conditions <> [] -> head (generateTaskCondition conditions) = Some 117%N.
Proof. by destruct conditions as [|c [|c' l]]. Qed.

Lemma head_app {A} (a b : list A) x : head a = Some x -> head (a ++ b) = Some x.
Proof. by destruct a. Qed.

Lemma tiers_writing fields tiers parts :
  tiers <> [] -> Forall (fun t => tv_conditions t <> []) (take (length tiers - 1) tiers) ->
  tier_parts fields tiers = Some parts -> writing (join (js " : ") parts).
Proof.
  revert parts. induction tiers as [|t tiers IH]; intros parts Hne Hc Hp; [done|]. destruct tiers as [|t' tiers].
  { apply (inj Some) in Hp as <-. apply tier_writing. }
  cbn in Hc. apply Forall_cons in Hc as [Hc1 Hc]. rewrite tier_parts_cons in Hp by (by apply condition_text_nonempty).
  destruct (tier_parts fields (t' :: tiers)) as [ps|] eqn:Hps; [|discriminate Hp]. apply (inj Some) in Hp as <-.
  destruct (IH ps) as [_ Hl]; [done | cbn [length]; by rewrite Nat.sub_succ, Nat.sub_0_r | done|].
  apply tier_parts_nonempty in Hps. destruct ps as [|p ps]; [done|]. split.
  - right. change (join (js " : ") (?x :: p :: ps)) with (x ++ js " : " ++ join (js " : ") (p :: ps)).
    rewrite <- app_assoc. by apply head_app, condition_head.
  - change (join (js " : ") (?x :: p :: ps)) with (x ++ js " : " ++ join (js " : ") (p :: ps)).
    by repeat apply last_app_cons.
Qed.

Lemma writing_facts s : writing s -> trimmed s /\ s <> [] /\ match_version s = None.
Proof.
  intros [Hh Hl]. split; [|split].
  - destruct Hh as [Hh|Hh]; eapply trimmed_ends; eauto.
  - intros ->. by destruct Hh.
  - destruct s as [|c s]; [done|].
    assert (is_space c = false /\ (c =? 118)%N = false) as [Hs Hv] by (by destruct Hh as [[= ->]|[= ->]]).
    unfold match_version. cbn [take_while]. rewrite Hs. cbn [length drop].
    destruct (drop_while is_digit s); [done|]. by rewrite Hv.
Qed.

Lemma tiers_unsplit fields tiers parts :
  Forall (fun e => utf16 e.1) fields -> tiers_printable fields tiers -> tiers <> [] ->
  tier_parts fields tiers = Some parts ->
  splitTopLevelMultiply (join (js " : ") parts) = [join (js " : ") parts].
Proof.
  intros Hf Hp Hne Hparts. destruct Hp as (Hp & Hu & Hc).
  pose proof (tiers_writing _ _ _ Hne Hc Hparts) as Hw. apply writing_facts in Hw as (Ht & Hn & _).
  destruct tiers as [|t tiers]; [done|]. apply Forall_cons in Hp as [Hp _], Hu as [Hu _]. destruct tiers as [|t' tiers].
  { apply (inj Some) in Hparts as <-. cbn [join] in *. apply unsplit_flat; [by apply flat_tier | done | done]. }
  cbn in Hc. apply Forall_cons in Hc as [Hc _]. rewrite tier_parts_cons in Hparts by (by apply condition_text_nonempty).
  destruct (tier_parts fields (t' :: tiers)) as [ps|] eqn:Hps; [|discriminate Hparts]. apply (inj Some) in Hparts as <-.
  apply tier_parts_nonempty in Hps. destruct ps as [|p ps]; [done|].
  change (join (js " : ") (?x :: p :: ps)) with (x ++ js " : " ++ join (js " : ") (p :: ps)) in *.
  rewrite <- !app_assoc in *. rewrite unsplit_mark by (by apply flat_conditions). by rewrite trimmed_trim.
Qed.

Lemma separate_unsplit s :
  trimmed s -> s <> [] -> splitTopLevelMultiply s = [s] -> splitBillingExprAndRequestRules s = Ok (Separated s []).
Proof.
  intros Ht Hne Hs. unfold splitBillingExprAndRequestRules. rewrite trimmed_trim by done. destruct s; [done|]. by rewrite Hs.
Qed.
