(* ===== verification/TaskExprRound.v ===== *)
(** Writing a task pricing configuration and reading it back: the conditions under which
    the editor's tiers, and its price matrix, survive the expression text. *)

From S2P Require Import Prelude JsString JsNumber JsValue BillingTypes BillingParser BillingCompile BillingTyping BillingCompileFacts BillingRuntime BillingStructure BillingDisplay ConditionalTaskDisplay JsJson BillingPrinting RequestRules RequestRuleFacts BillingExpr TaskExpr TaskExprFacts TaskExprPrinting.

Section round_trip.
Context {collation : Collation}.

(** * Conditions *)

(** A usage schema: distinct fields in Unicode, enumerations that are not booleans, and
    between one and a hundred priced fields. *)
Record schema_ok (schema : usage_schema) : Prop := {
  schema_keys : NoDup (map fst schema);
  schema_text : Forall (fun e => utf16 e.1 /\ Forall utf16 (default [] (uf_enum e.2))) schema;
  schema_enums : Forall (fun e => uf_enum e.2 <> None -> uf_type e.2 <> Some Usage_boolean) schema;
  schema_priced : 1 <= length (getTaskNumberFields (Some schema)) <= 100;
}.

(** An included quantity that is a whole number and prints as itself. *)
Definition free_writable (q : number) : bool :=
  usable q && is_integer q && bool_decide (n_floor q = q) && bool_decide (n_max n_zero q = q) && number_prints q.
Definition tier_writable (tier : task_visual_tier) : bool :=
  forallb (fun c => (c <? 65536)%N) (tv_label tier) && number_prints (tv_constant tier) &&
  forallb (fun p => number_prints p.2) (tv_unitPrices tier) &&
  forallb (fun p => free_writable p.2) (default [] (tv_freeQuantities tier)) &&
  bool_decide (length (tv_conditions tier) <= 100).

Variable schema : usage_schema.
Hypothesis Hschema : schema_ok schema.
Let fields : list (str * usage_field) := getTaskNumberFields (Some schema).

Lemma fields_nonempty : fields <> [].
Proof. destruct Hschema as [_ _ _ [H _]]. fold fields in H. intros E. rewrite E in H. cbn in H. lia. Qed.

Lemma fields_text : Forall (fun e => utf16 e.1) fields.
Proof.
  apply Forall_forall. intros e He. unfold fields in He. cbn in He. rewrite sort_keys_perm in He.
  apply list_elem_of_In, filter_In in He as [He _]. apply list_elem_of_In in He.
  destruct Hschema as [_ Htext _ _]. rewrite Forall_forall in Htext. by apply Htext.
Qed.

(** * Normalised tiers *)

Lemma usable_or_zero_usable x : usable (usable_or_zero x) = true.
Proof. unfold usable_or_zero. by destruct (usable x) eqn:E. Qed.
Lemma usable_or_zero_id x : usable x = true -> usable_or_zero x = x.
Proof. unfold usable_or_zero. by intros ->. Qed.

(** A usable number that is not positive and prints as itself is zero. *)
Lemma not_positive_zero x : usable x = true -> n_ltb n_zero x = false -> number_prints x = true -> x = n_zero.
Proof.
  unfold usable. intros [_ Hle]%andb_true_iff Hlt Hp. destruct x as [[]|[]| |[] m e]; try done.
Qed.

Record normalized (tier : task_visual_tier) : Prop := {
  norm_label : tv_label tier <> [];
  norm_conditions : Forall (fun c => declared_condition (getTaskEnumFields (Some schema)) c = true) (tv_conditions tier);
  norm_constant : usable (tv_constant tier) = true;
  norm_prices : exists price, tv_unitPrices tier = map (fun e => (e.1, price e)) fields /\ forall e, usable (price e) = true;
  norm_free : exists free, tv_freeQuantities tier = Some (map (fun e => (e.1, free e)) (List.filter is_count fields));
}.

Lemma fields_keys : NoDup (map fst fields).
Proof. apply number_fields_keys, Hschema. Qed.

Lemma normalize_tier_normalized i tier : normalized (normalize_tier schema i tier).
Proof.
  unfold normalize_tier. fold fields. split; cbn [tv_label tv_conditions tv_constant tv_unitPrices tv_freeQuantities].
  - destruct (tv_label tier); [|done]. by destruct (bool_decide (i = 0)).
  - apply Forall_forall. intros c Hc. by apply list_elem_of_In, filter_In in Hc as [_ Hc].
  - apply usable_or_zero_usable.
  - eexists. split; [apply price_object_map, fields_keys|]. intros. apply usable_or_zero_usable.
  - eexists. f_equal. apply free_object_map, fields_keys.
Qed.

Lemma default_tier_normalized : normalized (TaskVisualTier (js "base") [] n_zero
  (price_object fields (fun _ => n_zero)) (Some (free_object fields suggested_free))).
Proof.
  split; cbn [tv_label tv_conditions tv_constant tv_unitPrices tv_freeQuantities]; [done | constructor | done | |].
  - eexists. split; [apply price_object_map, fields_keys|]. done.
  - eexists. f_equal. apply free_object_map, fields_keys.
Qed.

Lemma normalize_all config : Forall normalized (normalizeTaskVisualConfig config schema).
Proof.
  unfold normalizeTaskVisualConfig, createDefaultTaskVisualConfig. fold fields.
  destruct config as [[|t tiers]|]; try (constructor; [apply default_tier_normalized | constructor]).
  apply Forall_forall. intros v Hv. apply list_elem_of_lookup in Hv as [i Hi]. rewrite list_lookup_imap in Hi.
  apply fmap_Some in Hi as (t' & _ & ->). apply normalize_tier_normalized.
Qed.

(** What is written for a field of a normalised tier. *)
Lemma written_price_in tier e price :
  tv_unitPrices tier = map (fun e => (e.1, price e)) fields -> e ∈ fields -> written_price tier e = price e.
Proof. intros Hp He. unfold written_price. by rewrite Hp, obj_get_map by (done || apply fields_keys). Qed.

Lemma count_field e : e ∈ fields -> is_count e = true -> e ∈ List.filter is_count fields.
Proof. intros He Hc. apply list_elem_of_In, filter_In. split; [by apply list_elem_of_In | done]. Qed.

Lemma free_entry tier e free :
  tv_freeQuantities tier = Some (map (fun e => (e.1, free e)) (List.filter is_count fields)) ->
  e ∈ fields -> is_count e = true -> tv_freeQuantities tier ≫= obj_get e.1 = Some (free e).
Proof.
  intros Hf He Hc. rewrite Hf. cbn [mbind option_bind].
  rewrite obj_get_map; [done | apply count_fields_keys, fields_keys | by apply count_field].
Qed.

Lemma written_free_in tier e free :
  tv_freeQuantities tier = Some (map (fun e => (e.1, free e)) (List.filter is_count fields)) ->
  e ∈ fields -> is_count e = true -> free_writable (free e) = true -> written_free tier e = free e.
Proof.
  intros Hf He Hc Hw. unfold written_free. rewrite Hc, (free_entry _ _ _ Hf He Hc). cbn [default from_option]. unfold id.
  unfold free_writable in Hw. breflect. congruence.
Qed.

(** * A writable tier is printed and read *)

Section tier.
Variable tier : task_visual_tier.
Hypothesis Hnorm : normalized tier.
Hypothesis Hwrite : tier_writable tier = true.

Lemma writable_facts :
  utf16 (tv_label tier) /\ number_prints (tv_constant tier) = true /\
  (forall e, e ∈ fields -> number_prints (written_price tier e) = true /\ usable (written_price tier e) = true) /\
  (forall e, e ∈ fields -> is_count e = true -> free_writable (written_free tier e) = true) /\
  length (tv_conditions tier) <= 100.
Proof.
  destruct Hnorm as [_ _ _ (price & Hp & Husable) (free & Hf)]. pose proof Hwrite as H. unfold tier_writable in H.
  breflect. rewrite !forallb_forall in *.
  match goal with H : forall x, In x (tv_unitPrices tier) -> _ |- _ => rename H into Hprice end.
  match goal with H : forall x, In x (default [] _) -> _ |- _ => rename H into Hfree end.
  split; [apply Forall_forall; intros c Hc; apply N.ltb_lt; match goal with H : forall x, In x (tv_label tier) -> _ |- _ => by apply H, list_elem_of_In end|].
  split; [done|]. split; [|split; [|done]].
  - intros e He. rewrite (written_price_in _ _ _ Hp He). split; [|done].
    apply (Hprice (e.1, price e)). rewrite Hp. by apply (in_map (fun e => (e.1, price e))), list_elem_of_In.
  - intros e He Hc.
    assert (free_writable (free e) = true) as Hw.
    { apply (Hfree (e.1, free e)). rewrite Hf. cbn [default from_option]. unfold id.
      by apply (in_map (fun e => (e.1, free e))), list_elem_of_In, count_field. }
    by rewrite (written_free_in _ _ _ Hf He Hc Hw).
Qed.

Lemma free_writable_facts q : free_writable q = true ->
  usable q = true /\ is_integer q = true /\ n_floor q = q /\ number_prints q = true.
Proof. unfold free_writable. intros H. by breflect. Qed.

Lemma writable_printable : tier_printable fields tier.
Proof.
  pose proof writable_facts as (Hl & Hc & Hp & Hf & _). split; [done | done | | by apply Hp].
  intros e He. destruct (is_count e) eqn:E; [by apply free_writable_facts, Hf|]. unfold written_free. by rewrite E.
Qed.

Lemma usable_nonneg x : usable x = true -> n_leb n_zero x = true.
Proof. unfold usable. by intros [_ H]%andb_true_iff. Qed.

Lemma writable_readable : tier_readable schema tier.
Proof.
  pose proof writable_facts as (_ & _ & Hp & Hf & _). split.
  - intros e He. by apply usable_nonneg, Hp.
  - intros e He Hlt. destruct (is_count e) eqn:E; [by apply free_writable_facts, Hf|]. unfold written_free in *. by rewrite E in Hlt.
Qed.

Lemma writable_prices : tv_unitPrices tier = read_prices tier fields.
Proof.
  destruct Hnorm as [_ _ _ (price & Hp & _) _]. rewrite Hp. apply map_ext_in. intros e He. f_equal.
  symmetry. apply written_price_in; [done | by apply list_elem_of_In].
Qed.

Lemma writable_frees :
  tv_freeQuantities tier = Some (map (fun e => (e.1, written_free tier e)) (List.filter is_count fields)).
Proof.
  destruct Hnorm as [_ _ _ _ (free & Hf)]. rewrite Hf. f_equal. apply map_ext_in. intros e He. f_equal.
  pose proof He as Hin. apply filter_In in He as [He Hc]. apply list_elem_of_In in He. symmetry.
  apply written_free_in; [done | done | done|]. pose proof Hwrite as H. unfold tier_writable in H. breflect.
  match goal with H : forallb (fun p => free_writable p.2) _ = true |- _ => rewrite forallb_forall in H; apply (H (e.1, free e)) end.
  rewrite Hf. cbn [default from_option]. unfold id. by apply (in_map (fun e => (e.1, free e))).
Qed.

(** The included quantities read back: those that are positive. *)
Lemma read_free_entry l e :
  NoDup (map fst l) -> e ∈ l ->
  obj_get e.1 (read_free tier l) = if n_ltb n_zero (written_free tier e) then Some (written_free tier e) else None.
Proof.
  induction l as [|e' l IH]; intros Hnd He; [by apply not_elem_of_nil in He|]. cbn [map] in Hnd.
  apply NoDup_cons in Hnd as [Hk Hnd]. unfold read_free. cbn [flat_map]. fold (read_free tier l).
  apply elem_of_cons in He as [->|He].
  - assert (obj_get e'.1 (read_free tier l) = None) as Hnone.
    { destruct (obj_get e'.1 (read_free tier l)) as [q|] eqn:E; [|done]. destruct Hk. apply obj_get_Some in E.
      apply list_elem_of_In, in_flat_map in E as (x & Hx & Hin). destruct (n_ltb _ _); [|done].
      destruct Hin as [[= <- _]|[]]. by apply list_elem_of_In, in_map. }
    destruct (n_ltb n_zero (written_free tier e')); [|exact Hnone]. cbn [app obj_get].
    by rewrite bool_decide_eq_true_2.
  - rewrite <- IH by done. destruct (n_ltb n_zero (written_free tier e')); [|done]. cbn [app obj_get].
    rewrite bool_decide_eq_false_2; [done|]. intros Heq. apply Hk. rewrite <- Heq. by apply list_elem_of_In, in_map, list_elem_of_In.
Qed.

(** Normalising what was read gives the tier back. *)
Lemma tier_round i :
  normalize_tier schema i (visual_of_tier (read_tier schema tier (tv_conditions tier))) = tier.
Proof.
  pose proof writable_facts as (_ & Hc & Hp & Hf & _).
  transitivity (TaskVisualTier (tv_label tier) (tv_conditions tier) (tv_constant tier) (tv_unitPrices tier) (tv_freeQuantities tier));
    [|by destruct tier].
  unfold normalize_tier, visual_of_tier, read_tier. fold fields.
  cbn [tv_label tv_conditions tv_constant tv_unitPrices tv_freeQuantities kt_label kt_conditions kt_constant kt_unitPrices kt_freeQuantities].
  f_equal.
  - destruct (tv_label tier) eqn:E; [|done]. by destruct (norm_label _ Hnorm).
  - apply forallb_filter_id, forallb_forall. intros c Hin. pose proof (norm_conditions _ Hnorm) as Hcond.
    rewrite Forall_forall in Hcond. by apply Hcond, list_elem_of_In.
  - pose proof (norm_constant _ Hnorm). destruct (n_ltb n_zero (tv_constant tier)) eqn:E; [by apply usable_or_zero_id|].
    by rewrite (not_positive_zero (tv_constant tier)).
  - rewrite writable_prices, price_object_map by apply fields_keys. apply map_ext_in. intros e He.
    apply list_elem_of_In in He. unfold read_prices. rewrite obj_get_map by (done || apply fields_keys).
    unfold number_or_nan. cbn [default from_option]. unfold id. by rewrite usable_or_zero_id by (by apply Hp).
  - rewrite writable_frees. f_equal. rewrite free_object_map by apply fields_keys. apply map_ext_in. intros e He. f_equal.
    apply filter_In in He as [He Hcount]. apply list_elem_of_In in He. unfold normalized_free. cbn [tv_freeQuantities].
    apply Hf, free_writable_facts in Hcount as (Hu & _ & Hfl & Hpr); [|done].
    rewrite read_free_entry by (done || apply fields_keys).
    destruct (n_ltb n_zero (written_free tier e)) eqn:E; unfold number_or_nan; cbn [default from_option]; unfold id.
    + by rewrite Hu, Hfl.
    + by rewrite (not_positive_zero (written_free tier e)).
Qed.
End tier.

(** * Configurations *)

Lemma well_ordered_conditions earlier tiers :
  well_ordered earlier tiers = true -> Forall (fun t => tv_conditions t <> []) (take (length tiers - 1) tiers).
Proof.
  revert earlier. induction tiers as [|t tiers IH]; intros earlier Hw; [constructor|]. destruct tiers as [|t' tiers]; [constructor|].
  remember (t' :: tiers) as rest eqn:Hrest. cbn [well_ordered] in Hw. rewrite Hrest in Hw. rewrite <- Hrest in Hw.
  apply andb_true_iff in Hw as [Hw Hw2]. apply andb_true_iff in Hw as [Hw1 _]. apply bool_decide_eq_true in Hw1.
  assert (length (t :: rest) - 1 = S (length rest - 1)) as -> by (subst rest; cbn; lia).
  cbn [take]. constructor; [done|]. by eapply IH.
Qed.

Lemma tier_parts_some tiers :
  Forall (fun t => tv_conditions t <> []) (take (length tiers - 1) tiers) -> exists parts, tier_parts fields tiers = Some parts.
Proof.
  induction tiers as [|t tiers IH]; intros Hc; [by eexists|]. destruct tiers as [|t' tiers]; [by eexists|].
  cbn in Hc. apply Forall_cons in Hc as [Hc1 Hc]. rewrite tier_parts_cons by (by apply condition_text_nonempty).
  destruct IH as [parts ->]; [cbn [length]; by rewrite Nat.sub_succ, Nat.sub_0_r|]. by eexists.
Qed.

(** The text of normalised tiers. *)
Lemma generate_text config parts :
  tier_parts fields (normalizeTaskVisualConfig config schema) = Some parts ->
  generateTaskExprFromConfig config schema = join (js " : ") parts.
Proof.
  intros Hp. unfold generateTaskExprFromConfig. fold fields. pose proof fields_nonempty as Hne.
  destruct fields as [|f fs] eqn:E; [done|]. rewrite <- E in *. clear E f fs.
  destruct (normalizeTaskVisualConfig config schema) as [|t [|t' tiers]]; [by rewrite Hp | | by rewrite Hp].
  by apply (inj Some) in Hp as <-.
Qed.

Lemma condition_text_ok c :
  declared_condition (getTaskEnumFields (Some schema)) c = true -> utf16 (kc_field c) /\ utf16 (kc_value c).
Proof.
  unfold declared_condition. destruct (obj_get (kc_field c) _) as [definition|] eqn:E; [|done]. intros Hin.
  apply bool_decide_eq_true in Hin. apply obj_get_Some in E. cbn in E. rewrite sort_keys_perm in E.
  apply list_elem_of_In, filter_In in E as [E _]. apply list_elem_of_In in E.
  pose proof (schema_text _ Hschema) as Ht. rewrite Forall_forall in Ht. apply Ht in E as [Hk Hv]. split; [done|].
  rewrite Forall_forall in Hv. by apply Hv.
Qed.

Lemma imap_identity {A} (f : nat -> A -> A) l : (forall i x, l !! i = Some x -> f i x = x) -> imap f l = l.
Proof.
  intros H. apply list_eq. intros i. rewrite list_lookup_imap. destruct (l !! i) as [x|] eqn:E; [|done].
  cbn. by rewrite H.
Qed.

Section written.
Variable config : option task_visual_config.
Let tiers : list task_visual_tier := normalizeTaskVisualConfig config schema.
Hypothesis Htiers : forallb tier_writable tiers = true.
Hypothesis Horder : well_ordered [] tiers = true.
Hypothesis Hcount : length tiers <= 100.
Hypothesis Hlength : (Z.of_nat (length (generateTaskExprFromConfig config schema)) < max_tokens)%Z.

Lemma written_each : Forall (fun t => normalized t /\ tier_writable t = true) tiers.
Proof.
  apply Forall_and. split; [apply normalize_all|]. apply Forall_forall. intros t Ht. rewrite forallb_forall in Htiers.
  by apply Htiers, list_elem_of_In.
Qed.

Lemma tiers_nonempty : tiers <> [].
Proof. intros E. rewrite E in Horder. done. Qed.

Lemma written_printable : tiers_printable fields tiers.
Proof.
  split; [|split; [|by eapply well_ordered_conditions]].
  - eapply Forall_impl; [apply written_each|]. intros t [Hn Hw]. by apply writable_printable.
  - eapply Forall_impl; [apply written_each|]. intros t [Hn _]. eapply Forall_impl; [apply (norm_conditions _ Hn)|].
    apply condition_text_ok.
Qed.

(** The task tier reader finds the tiers in the written expression. *)
Lemma written_read :
  parseTaskTiersFromExpr (generateTaskExprFromConfig config schema) (Some schema) false =
  Ok (map (fun t => read_tier schema t (tv_conditions t)) tiers).
Proof.
  pose proof written_printable as Hp. pose proof tiers_nonempty as Hne. pose proof fields_nonempty as Hf.
  destruct (tier_parts_some tiers) as [parts Hparts]; [apply Hp|].
  pose proof (generate_text _ _ Hparts) as Htext. rewrite Htext in *.
  pose proof (tiers_writing _ _ _ Hne (proj2 (proj2 Hp)) Hparts) as Hw. apply writing_facts in Hw as (Ht & Hn & Hv).
  pose proof (prints_tiers _ _ _ Hf fields_text Hp Hne Hparts) as Hprints.
  destruct (tiers_tree_facts fields tiers 100 Hf Hne (proj2 (proj2 Hp))) as (Htype & Hheight & Hord).
  { eapply Forall_impl; [apply written_each|]. intros t [Hnorm Hwr]. pose proof (writable_facts t Hnorm Hwr) as (_ & _ & _ & _ & H). lia. }
  destruct (compile_printed (join (js " : ") parts) (tiers_tree fields tiers)) as (c & Hc & Hast).
  { eapply prints_weaken; [exact Hprints | lia | unfold max_parse_depth; lia]. }
  { exact Hv. } { exact Hlength. } { rewrite Htype. eauto. }
  { pose proof (schema_priced _ Hschema) as [_ H]. fold fields in H. unfold max_visit_depth. lia. }
  { exact Hord. }
  unfold parseTaskTiersFromExpr. destruct (join (js " : ") parts) as [|ch rest] eqn:E; [done|]. rewrite <- E in *.
  assert (exists d l, schema = d :: l) as (d & l & Es).
  { pose proof fields_nonempty as Hfn. destruct schema as [|d l]; [done|]. eauto. }
  rewrite Es. rewrite <- Es. rewrite separate_unsplit; [|done | done |].
  2: { eapply tiers_unsplit; [apply fields_text | exact Hp | done | done]. }
  unfold mbind, result_bind. cbn [billingExpr]. rewrite Hc.
  rewrite <- read_chain_erase, Hast. unfold readTaskTierChain, fields.
  rewrite (tiers_read schema (schema_keys _ Hschema) (schema_enums _ Hschema) tiers []); [done | exact Hf | | | exact Horder].
  - eapply Forall_impl; [apply written_each|]. intros t [Hnorm Hwr]. by apply writable_readable.
  - eapply Forall_impl; [apply written_each|]. intros t [Hnorm _]. apply (norm_conditions _ Hnorm).
Qed.

Lemma config_round :
  tryParseTaskVisualConfig (generateTaskExprFromConfig config schema) schema = Ok (Some tiers).
Proof.
  pose proof written_read as Hread. unfold tryParseTaskVisualConfig.
  destruct (generateTaskExprFromConfig config schema) as [|ch rest] eqn:E.
  { cbn in Hread. injection Hread as Hread. pose proof tiers_nonempty. by destruct tiers. }
  rewrite Hread. unfold mbind, result_bind. pose proof tiers_nonempty as Hne. pose proof written_each as Heach.
  assert (map (fun t => read_tier schema t (tv_conditions t)) tiers <> []) as Hm by (by destruct tiers).
  destruct (map _ tiers) as [|r0 rs] eqn:Em; [done|]. rewrite <- Em. do 2 f_equal. unfold normalizeTaskVisualConfig.
  destruct (map visual_of_tier _) as [|v0 vs] eqn:Ev; [by rewrite Em in Ev|]. rewrite <- Ev. clear Ev v0 vs Em Hm.
  rewrite map_map. change (map ?f tiers) with (f <$> tiers). rewrite imap_fmap. apply imap_identity.
  intros i t Ht. rewrite Forall_forall in Heach. destruct (Heach t) as [Hn Hw]; [by eapply list_elem_of_lookup_2|].
  by apply tier_round.
Qed.
End written.

(** * Matrices *)

(** The numbers of a row can be written. *)
Definition row_writable (row : task_matrix_row) : bool :=
  usable (mr_constant row) && number_prints (mr_constant row) &&
  forallb (fun p => usable p.2 && number_prints p.2) (mr_unitPrices row) &&
  forallb (fun p => free_writable p.2) (mr_freeQuantities row).

Lemma digits_text fuel z acc : Forall (fun c => (c < 65536)%N) acc -> Forall (fun c => (c < 65536)%N) (digits_of fuel z acc).
Proof.
  revert z acc. induction fuel as [|f IH]; intros z acc H; cbn [digits_of]; [done|].
  assert (Forall (fun c => (c < 65536)%N) (Z.to_N (48 + z mod 10) :: acc)) as H'.
  { constructor; [|done]. pose proof (Z.mod_pos_bound z 10 ltac:(lia)). lia. }
  destruct (z <? 10)%Z; auto.
Qed.

Lemma combination_values :
  Forall (fun c => forall k v, (k, v) ∈ c -> exists d, (k, d) ∈ getTaskEnumFields (Some schema) /\ v ∈ default [] (uf_enum d))
    (getTaskEnumCombinations (Some schema)).
Proof.
  unfold getTaskEnumCombinations. set (all := getTaskEnumFields (Some schema)).
  enough (forall l acc, (forall e, e ∈ l -> e ∈ all) ->
    Forall (fun c => forall k v, (k, v) ∈ c -> exists d, (k, d) ∈ all /\ v ∈ default [] (uf_enum d)) acc ->
    Forall (fun c => forall k v, (k, v) ∈ c -> exists d, (k, d) ∈ all /\ v ∈ default [] (uf_enum d)) (fold_left expand_field_values l acc)) as H.
  { apply H; [done|]. constructor; [|constructor]. intros k v Hv. by apply not_elem_of_nil in Hv. }
  induction l as [|e l IH]; intros acc Hsub Hacc; cbn [fold_left]; [done|]. apply IH; [intros; apply Hsub; by right|].
  apply Forall_forall. intros c Hc. apply list_elem_of_In, in_flat_map in Hc as (c0 & Hc0 & Hv).
  apply in_map_iff in Hv as (w & <- & Hw). apply list_elem_of_In in Hc0, Hw. rewrite Forall_forall in Hacc. specialize (Hacc c0 Hc0).
  intros k v. assert (forall o, (k, v) ∈ obj_set e.1 w o -> (k, v) = (e.1, w) \/ (k, v) ∈ o) as Hset.
  { induction o as [|[k' v'] o IHo]; cbn [obj_set]; [set_solver|]. case_bool_decide; set_solver. }
  intros [[= -> ->]|Hin]%Hset; [|by apply Hacc]. exists e.2. split; [|done]. destruct e. apply Hsub. by left.
Qed.

(** A list of conditions implied by another. *)
Definition implies (a b : list task_condition) : bool := forallb (fun c => bool_decide (c ∈ b)) a.

Lemma well_ordered_intro earlier ts :
  ts <> [] ->
  (forall i t, ts !! i = Some t -> i < length ts - 1 -> tv_conditions t <> []) ->
  (forall t, last ts = Some t -> tv_conditions t = []) ->
  (forall i j a b, i < j -> j < length ts - 1 -> ts !! i = Some a -> ts !! j = Some b ->
     implies (tv_conditions a) (tv_conditions b) = false) ->
  (forall e j b, e ∈ earlier -> j < length ts - 1 -> ts !! j = Some b -> implies e (tv_conditions b) = false) ->
  well_ordered earlier ts = true.
Proof.
  revert earlier. induction ts as [|t ts IH]; intros earlier Hne Hcond Hlast Hpair Hearlier; [done|].
  destruct ts as [|t' ts].
  { cbn [well_ordered]. apply bool_decide_eq_true_2. by apply Hlast. }
  remember (t' :: ts) as rest eqn:Hrest. assert (rest <> []) as Hr by (by subst). cbn [well_ordered].
  rewrite Hrest, <- Hrest. assert (length (t :: rest) - 1 = S (length rest - 1)) as Hlen by (subst rest; cbn; lia).
  rewrite !andb_true_iff. split; [split|].
  - apply bool_decide_eq_true_2. apply (Hcond 0); [done | lia].
  - apply forallb_forall. intros e He. apply negb_true_iff. apply (Hearlier e 0); [by apply list_elem_of_In | lia | done].
  - apply IH; [done | | | |].
    + intros i u Hu Hi. apply (Hcond (S i)); [done | lia].
    + intros u Hu. apply Hlast. subst rest. done.
    + intros i j a b Hij Hj Ha Hb. apply (Hpair (S i) (S j)); [lia | lia | done | done].
    + intros e j b He Hj Hb. apply elem_of_app in He as [He|He]; [apply (Hearlier e (S j)); [done | lia | done]|].
      apply list_elem_of_singleton in He as ->. apply (Hpair 0 (S j)); [lia | lia | done | done].
Qed.

Section matrix.
Variable matrix : list task_matrix_row.
Hypothesis Hvalues : Forall (fun e => NoDup (default [] (uf_enum e.2))) schema.
Hypothesis Hcomplete : matrix_complete schema matrix.
Hypothesis Hrows : forallb row_writable matrix = true.
Hypothesis Hsize : length matrix <= 100 /\ length (getTaskEnumFields (Some schema)) <= 100.

Lemma row_conditions_declared row :
  row ∈ matrix -> Forall (fun c => declared_condition (getTaskEnumFields (Some schema)) c = true) (row_conditions row).
Proof.
  intros Hrow. apply Forall_forall. intros c Hc. unfold row_conditions in Hc.
  apply list_elem_of_In, in_map_iff in Hc as ([k v] & <- & Hc). apply list_elem_of_In in Hc. rewrite sort_keys_perm in Hc.
  pose proof combination_values as Hv. rewrite <- (proj1 Hcomplete), Forall_map, Forall_forall in Hv.
  destruct (Hv row Hrow k v Hc) as (d & Hd & Hin). unfold declared_condition. cbn [kc_field kc_value fst snd].
  rewrite (obj_get_elem _ d); [by apply bool_decide_eq_true_2 | apply enum_fields_keys, Hschema | done].
Qed.

Lemma row_keys_of row : row ∈ matrix -> map fst (mr_combination row) = map fst (getTaskEnumFields (Some schema)).
Proof.
  intros [i Hi]%list_elem_of_lookup. by eapply row_keys; [apply Hschema | done | done | exact Hi].
Qed.

Lemma row_conditions_length row : row ∈ matrix -> length (row_conditions row) = length (getTaskEnumFields (Some schema)).
Proof.
  intros Hrow. unfold row_conditions. rewrite length_map, (Permutation_length (sort_keys_perm _)).
  rewrite <- (length_map fst), (row_keys_of row Hrow). apply length_map.
Qed.

Lemma row_label_text row : row ∈ matrix -> utf16 (taskMatrixRowLabel (mr_combination row)).
Proof.
  intros Hrow. unfold taskMatrixRowLabel.
  assert (Forall utf16 (map snd (sort_keys (mr_combination row)))) as Ht.
  { apply Forall_fmap, Forall_forall. intros [k v] Hin. rewrite sort_keys_perm in Hin. cbn [snd compose].
    pose proof (row_conditions_declared row Hrow) as Hd. rewrite Forall_forall in Hd.
    apply (condition_text_ok (TaskCondition k v)). apply Hd. unfold row_conditions.
    apply list_elem_of_In, in_map_iff. exists (k, v). split; [done|]. apply list_elem_of_In. by rewrite sort_keys_perm. }
  destruct (map snd _) as [|x l]; [repeat constructor|]. induction Ht as [|y l' Hy Ht IH]; [constructor|].
  destruct l'; [done|]. change (join [183%N] (y :: l0 :: l')) with (y ++ [183%N] ++ join [183%N] (l0 :: l')).
  apply Forall_app. split; [done|]. constructor; [done | done].
Qed.

Lemma row_price_entry prices e :
  row_prices fields prices = prices -> e ∈ fields -> exists x, obj_get e.1 prices = Some x /\ In (e.1, x) prices.
Proof.
  intros Hp He. exists (default n_zero (obj_get e.1 prices)).
  assert (obj_get e.1 prices = Some (default n_zero (obj_get e.1 prices))) as H.
  { rewrite <- Hp at 1. unfold row_prices. by rewrite price_object_map, obj_get_map by (done || apply fields_keys). }
  split; [done|]. apply list_elem_of_In. by apply obj_get_Some.
Qed.

Lemma row_free_entry frees e :
  row_free fields frees = frees -> e ∈ List.filter is_count fields -> exists x, obj_get e.1 frees = Some x /\ In (e.1, x) frees.
Proof.
  intros Hf He. exists (default n_zero (obj_get e.1 frees)).
  assert (obj_get e.1 frees = Some (default n_zero (obj_get e.1 frees))) as H.
  { rewrite <- Hf at 1. unfold row_free.
    by rewrite free_object_map, obj_get_map by (done || apply fields_keys || apply count_fields_keys, fields_keys). }
  split; [done|]. apply list_elem_of_In. by apply obj_get_Some.
Qed.

(** Normalising the tier of a row changes at most its label. *)
Lemma normalize_row i label conditions row :
  row ∈ matrix -> utf16 label -> (conditions = [] \/ conditions = row_conditions row) ->
  let v := row_tier fields label conditions row in
  let t := normalize_tier schema i v in
  tv_conditions t = conditions /\ tv_constant t = mr_constant row /\
  tv_unitPrices t = mr_unitPrices row /\ tv_freeQuantities t = Some (mr_freeQuantities row) /\
  tier_writable t = true.
Proof.
  intros Hrow Hlabel Hcond v t.
  pose proof (proj1 (Forall_forall _ _) (proj2 Hcomplete) row Hrow) as [Hp Hf]. fold fields in Hp, Hf.
  assert (row_writable row = true) as Hw by (rewrite forallb_forall in Hrows; by apply Hrows, list_elem_of_In).
  unfold row_writable in Hw. apply andb_true_iff in Hw as [Hw Hfree]. apply andb_true_iff in Hw as [Hw Hprice].
  apply andb_true_iff in Hw as [Hc Hcp]. rewrite forallb_forall in Hfree, Hprice.
  assert (tv_conditions t = conditions) as H1.
  { cbn. apply forallb_filter_id, forallb_forall. intros c Hin. destruct Hcond as [->| ->]; [done|].
    pose proof (row_conditions_declared row Hrow) as Hd. rewrite Forall_forall in Hd. by apply Hd, list_elem_of_In. }
  assert (tv_constant t = mr_constant row) as H2 by (by apply usable_or_zero_id).
  assert (tv_unitPrices t = mr_unitPrices row) as H3.
  { unfold t, v, normalize_tier, row_tier. cbn [tv_unitPrices]. fold fields. rewrite Hp. etrans; [|exact Hp]. unfold row_prices.
    rewrite !price_object_map by apply fields_keys. apply map_ext_in. intros e He. apply list_elem_of_In in He.
    destruct (row_price_entry _ e Hp He) as (x & -> & Hin). unfold number_or_nan. cbn [default from_option]. unfold id.
    rewrite usable_or_zero_id; [done|]. by apply Hprice, andb_true_iff in Hin as [Hin _]. }
  assert (tv_freeQuantities t = Some (mr_freeQuantities row)) as H4.
  { unfold t, v, normalize_tier, row_tier. cbn [tv_freeQuantities]. fold fields. f_equal. rewrite Hf. etrans; [|exact Hf]. unfold row_free.
    rewrite !free_object_map by apply fields_keys. apply map_ext_in. intros e He. f_equal. apply list_elem_of_In in He.
    destruct (row_free_entry _ e Hf He) as (x & Hx & Hin). unfold normalized_free. cbn [tv_freeQuantities]. rewrite Hx.
    unfold number_or_nan. cbn [default from_option]. unfold id.
    apply Hfree, free_writable_facts in Hin as (Hu & _ & Hfl & _). cbn [snd] in Hu, Hfl. by rewrite Hu. }
  split; [done|]. split; [done|]. split; [done|]. split; [done|].
  unfold tier_writable. rewrite H1, H2, H3, H4, Hcp. cbn [default from_option]. unfold id.
  rewrite !andb_true_iff. split; [split; [split; [split; [|done]|]|]|].
  - apply forallb_forall. intros c Hin. apply N.ltb_lt. unfold t, v, normalize_tier, row_tier in Hin. cbn [tv_label] in Hin.
    assert (utf16 (match label with
      | [] => if bool_decide (i = 0) then js "base" else js "tier_" ++ string_of_Z (Z.of_nat (i + 1))
      | n :: l => n :: l end)) as Hl.
    { destruct label; [|done]. destruct (bool_decide (i = 0)); [repeat constructor|]. apply Forall_app. split; [repeat constructor|].
      unfold string_of_Z. rewrite (proj2 (Z.ltb_ge _ _)) by lia. by apply digits_text. }
    unfold utf16 in Hl. rewrite Forall_forall in Hl. apply Hl, list_elem_of_In. exact Hin.
  - apply forallb_forall. intros x Hin. by apply Hprice, andb_true_iff in Hin as [_ Hin].
  - by apply forallb_forall.
  - apply bool_decide_eq_true_2. destruct Hcond as [->| ->]; [cbn; lia|]. rewrite row_conditions_length by done. lia.
Qed.

(** The tier of a row agrees with what is read from its text. *)
Lemma row_agrees i label conditions row :
  row ∈ matrix -> utf16 label -> (conditions = [] \/ conditions = row_conditions row) ->
  let v := row_tier fields label conditions row in
  let t := normalize_tier schema i v in
  tier_agrees fields (read_tier schema t (tv_conditions t)) v.
Proof.
  intros Hrow Hlabel Hcond v t. destruct (normalize_row i label conditions row Hrow Hlabel Hcond) as (H1 & H2 & H3 & H4 & Hw).
  fold v t in H1, H2, H3, H4, Hw. assert (normalized t) as Hn by apply normalize_tier_normalized.
  pose proof (writable_facts t Hn Hw) as (_ & Hc & _ & Hfree & _). pose proof (norm_constant _ Hn) as Hu.
  pose proof (proj1 (Forall_forall _ _) (proj2 Hcomplete) row Hrow) as [Hp Hf]. fold fields in Hp, Hf.
  split; unfold read_tier; cbn [kt_conditions kt_constant kt_unitPrices kt_freeQuantities].
  - by rewrite H1.
  - cbn [v row_tier tv_constant]. rewrite <- H2. destruct (n_ltb n_zero (tv_constant t)) eqn:E; [done|].
    symmetry. by apply not_positive_zero.
  - fold fields. rewrite <- (writable_prices t Hn), H3. cbn [v row_tier tv_unitPrices].
    symmetry. apply row_prices_idem, Hschema.
  - fold fields. cbn [v row_tier tv_freeQuantities default from_option]. unfold id. etrans; [|symmetry; apply row_free_idem, Hschema].
    unfold row_free. rewrite !free_object_map by apply fields_keys. apply map_ext_in. intros e He.
    apply list_elem_of_In in He. pose proof He as Hin. apply list_elem_of_In, filter_In in Hin as [Hin Hcount].
    apply list_elem_of_In in Hin. f_equal. rewrite read_free_entry by (done || apply fields_keys).
    assert (obj_get e.1 (mr_freeQuantities row) = Some (written_free t e)) as ->.
    { pose proof (writable_frees t Hn Hw) as Hwf. rewrite H4 in Hwf. injection Hwf as ->.
      apply (obj_get_map (List.filter is_count fields) (written_free t)); [apply count_fields_keys, fields_keys | done]. }
    cbn [default from_option]. unfold id. destruct (n_ltb n_zero (written_free t e)) eqn:E; [done|].
    specialize (Hfree e Hin Hcount). apply free_writable_facts in Hfree as (Hfu & _ & _ & Hfp).
    symmetry. by apply not_positive_zero.
Qed.

(** The tiers a matrix is written as, in order. *)
Lemma matrix_tier_of i v :
  taskMatrixToTiers matrix schema !! i = Some v -> exists row label conditions,
    row ∈ matrix /\ utf16 label /\ (conditions = [] \/ conditions = row_conditions row) /\ v = row_tier fields label conditions row.
Proof.
  intros Hv. destruct (matrix_tiers schema matrix) as [(first & rest & Hm & _ & Ht)|Ht].
  - intros ->. by apply (combinations_nonempty schema); symmetry; apply Hcomplete.
  - apply fields_nonempty.
  - rewrite Ht in Hv. destruct i as [|i]; [|done]. injection Hv as <-. exists first, (js "base"), [].
    split; [rewrite Hm; by left|]. split; [repeat constructor|]. auto.
  - rewrite Ht, list_lookup_imap in Hv. apply fmap_Some in Hv as (row & Hrow & ->).
    pose proof (list_elem_of_lookup_2 _ _ _ Hrow) as Hin. eexists row, _, _. split; [done|].
    split; [by apply row_label_text|]. split; [|done]. destruct (bool_decide _); auto.
Qed.

Lemma rows_imply row row' :
  row ∈ matrix -> row' ∈ matrix -> implies (row_conditions row) (row_conditions row') = true ->
  mr_combination row' = mr_combination row.
Proof.
  intros Hr Hr' Hi. eapply (row_conditions_match _ row (mr_combination row')); [by apply row_keys_of.. | apply enum_fields_keys, Hschema|].
  unfold implies in Hi. rewrite !forallb_forall in *. intros c Hc. specialize (Hi c Hc). apply bool_decide_eq_true in Hi.
  apply bool_decide_eq_true_2. unfold row_conditions in Hi. apply list_elem_of_In, in_map_iff in Hi as ([k v] & <- & Hi).
  apply list_elem_of_In in Hi. rewrite sort_keys_perm in Hi. cbn [kc_field kc_value fst snd].
  apply obj_get_elem; [rewrite row_keys_of by done; apply enum_fields_keys, Hschema | done].
Qed.

Lemma matrix_nodup : NoDup (map mr_combination matrix).
Proof. rewrite (proj1 Hcomplete). by apply combinations_enumerated; [apply Hschema|]. Qed.

(** Conditions of the normalised tiers. *)
Lemma normalized_conditions i t :
  (normalizeTaskVisualConfig (Some (taskMatrixToTiers matrix schema)) schema : list task_visual_tier) !! i = Some t ->
  exists v, taskMatrixToTiers matrix schema !! i = Some v /\ tv_conditions t = tv_conditions v /\
    t = normalize_tier schema i v.
Proof.
  unfold normalizeTaskVisualConfig. destruct (taskMatrixToTiers matrix schema) as [|v0 vs] eqn:E.
  { exfalso. destruct (matrix_tiers schema matrix) as [(first & rest & _ & _ & Ht)|Ht];
      [intros ->; by apply (combinations_nonempty schema); symmetry; apply Hcomplete | apply fields_nonempty | congruence|].
    rewrite E in Ht. symmetry in Ht. apply (f_equal length) in Ht. rewrite length_imap in Ht.
    destruct matrix; [|done]. by apply (combinations_nonempty schema); symmetry; apply Hcomplete. }
  cbv match. rewrite <- E. clear E v0 vs. rewrite list_lookup_imap. intros (v & Hv & ->)%fmap_Some. exists v. split; [done|]. split; [|done].
  destruct (matrix_tier_of i v Hv) as (row & label & conditions & Hrow & Hl & Hc & ->).
  by destruct (normalize_row i label conditions row Hrow Hl Hc) as (-> & _).
Qed.

Lemma normalized_length config : config <> [] -> length (normalizeTaskVisualConfig (Some config) schema) = length config.
Proof. destruct config; [done|]. intros _. apply length_imap. Qed.

Let written_tiers : list task_visual_tier := taskMatrixToTiers matrix schema.
Let tiers : list task_visual_tier := normalizeTaskVisualConfig (Some written_tiers) schema.

Lemma matrix_nonempty : matrix <> [].
Proof. intros E. apply (combinations_nonempty schema). rewrite <- (proj1 Hcomplete). by rewrite E. Qed.

Lemma written_cases :
  (exists first, first ∈ matrix /\ written_tiers = [row_tier fields (js "base") [] first]) \/
  written_tiers = imap (fun index row => row_tier fields (taskMatrixRowLabel (mr_combination row))
    (if bool_decide (index = length matrix - 1) then [] else row_conditions row) row) matrix.
Proof.
  destruct (matrix_tiers schema matrix matrix_nonempty fields_nonempty) as [(first & rest & Hm & _ & Ht)|Ht]; [left|by right].
  exists first. split; [rewrite Hm; by left | done].
Qed.

Lemma written_nonempty : written_tiers <> [].
Proof.
  destruct written_cases as [(first & _ & ->)|H]; [done|]. intros E. rewrite E in H. symmetry in H.
  apply (f_equal length) in H. rewrite length_imap in H. pose proof matrix_nonempty. by destruct matrix.
Qed.

Lemma written_length : length tiers = length written_tiers.
Proof. apply normalized_length, written_nonempty. Qed.

Lemma matrix_ordered : well_ordered [] tiers = true.
Proof.
  pose proof written_length as Hlen. pose proof written_nonempty as Hne.
  apply well_ordered_intro.
  - intros E. rewrite E in Hlen. cbn in Hlen. by destruct written_tiers.
  - intros i t Ht Hi. destruct (normalized_conditions i t Ht) as (v & Hv & -> & _).
    destruct written_cases as [(first & _ & Hw)|Hw]; [rewrite Hlen, Hw in Hi; cbn in Hi; lia|].
    fold written_tiers in Hv. rewrite Hw, list_lookup_imap in Hv. apply fmap_Some in Hv as (row & Hrow & ->).
    rewrite Hlen, Hw, length_imap in Hi. cbn [row_tier tv_conditions]. rewrite bool_decide_eq_false_2 by lia.
    intros Hnil. pose proof (row_conditions_length row (list_elem_of_lookup_2 _ _ _ Hrow)) as Hl. rewrite Hnil in Hl.
    assert (matrix !! (length matrix - 1) <> None) as Hlast by (rewrite lookup_ge_None; lia).
    destruct (matrix !! (length matrix - 1)) as [row'|] eqn:Hrow'; [|done]. clear Hlast.
    assert (mr_combination row = [] /\ mr_combination row' = []) as [E1 E2].
    { pose proof (row_keys_of row (list_elem_of_lookup_2 _ _ _ Hrow)) as K1.
      pose proof (row_keys_of row' (list_elem_of_lookup_2 _ _ _ Hrow')) as K2.
      destruct (getTaskEnumFields (Some schema)); [|done]. split; [by destruct (mr_combination row) | by destruct (mr_combination row')]. }
    assert (i = length matrix - 1); [|lia]. eapply NoDup_lookup; [apply matrix_nodup | |].
    + apply list_lookup_fmap_Some. exists row. split; [symmetry; exact E1 | done].
    + apply list_lookup_fmap_Some. exists row'. split; [symmetry; exact E2 | done].
  - intros t Ht. rewrite last_lookup in Ht. destruct (normalized_conditions _ t Ht) as (v & Hv & -> & _).
    fold tiers written_tiers in Hv. rewrite Hlen in Hv. destruct written_cases as [(first & _ & Hw)|Hw].
    { rewrite Hw in Hv. cbn in Hv. by injection Hv as <-. }
    rewrite Hw, list_lookup_imap, length_imap in Hv. apply fmap_Some in Hv as (row & Hrow & ->).
    cbn [row_tier tv_conditions]. rewrite bool_decide_eq_true_2; [done|]. apply lookup_lt_Some in Hrow. lia.
  - intros i j a b Hij Hj Ha Hb. destruct (normalized_conditions i a Ha) as (v & Hv & -> & _).
    destruct (normalized_conditions j b Hb) as (w & Hw & -> & _). fold written_tiers in Hv, Hw. rewrite Hlen in Hj.
    destruct written_cases as [(first & _ & Hc)|Hc]; [rewrite Hc in Hj; cbn in Hj; lia|].
    rewrite Hc, list_lookup_imap in Hv, Hw. apply fmap_Some in Hv as (row & Hrow & ->), Hw as (row' & Hrow' & ->).
    rewrite Hc, length_imap in Hj. cbn [row_tier tv_conditions]. rewrite !bool_decide_eq_false_2 by lia.
    apply not_true_is_false. intros Hi. apply rows_imply in Hi; [|by eapply list_elem_of_lookup_2..].
    assert (i = j); [|lia]. eapply NoDup_lookup; [apply matrix_nodup | |].
    + apply list_lookup_fmap_Some. exists row. done.
    + apply list_lookup_fmap_Some. exists row'. by split.
  - intros e j b He. by apply not_elem_of_nil in He.
Qed.

Lemma matrix_tiers_writable : forallb tier_writable tiers = true.
Proof.
  apply forallb_forall. intros t Ht. apply list_elem_of_In, list_elem_of_lookup in Ht as [i Hi].
  destruct (normalized_conditions i t Hi) as (v & Hv & _ & ->).
  destruct (matrix_tier_of i v Hv) as (row & label & conditions & Hrow & Hl & Hc & ->).
  by destruct (normalize_row i label conditions row Hrow Hl Hc) as (_ & _ & _ & _ & Hw).
Qed.

Lemma matrix_text_round :
  (Z.of_nat (length (generateTaskExprFromConfig (Some written_tiers) schema)) < max_tokens)%Z ->
  exists rows, tryParseTaskMatrixConfig (generateTaskExprFromConfig (Some written_tiers) schema) schema = Ok (Some rows) /\
    Forall2 same_row rows matrix.
Proof.
  intros Hlength. eapply matrix_round; [apply Hschema | done | apply fields_nonempty | done | |].
  - apply written_read; [apply matrix_tiers_writable | apply matrix_ordered | | exact Hlength].
    fold tiers. rewrite written_length. destruct written_cases as [(first & _ & ->)|Hw]; [cbn; lia|].
    rewrite Hw, length_imap. lia.
  - fold tiers. apply Forall2_same_length_lookup_2; [rewrite length_map; apply written_length|].
    intros i t v Ht Hv. rewrite list_lookup_fmap in Ht. apply fmap_Some in Ht as (n & Hn & ->).
    destruct (normalized_conditions i n Hn) as (v' & Hv' & _ & ->). change (written_tiers !! i = Some v) in Hv. change (written_tiers !! i = Some v') in Hv'.
    rewrite Hv in Hv'. injection Hv' as <-.
    destruct (matrix_tier_of i v Hv) as (row & label & conditions & Hrow & Hl & Hc & ->).
    by apply row_agrees.
Qed.
End matrix.
End round_trip.
