(* ===== verification/TaskExprPreview.v ===== *)
(** The preview of the task pricing editor against the expression it saves: whenever the
    saved expression can be simulated on a usage sample, the preview shows the same tier
    and the same cost. *)

From S2P Require Import Prelude JsString JsNumber JsValue BillingTypes BillingParser BillingCompile BillingTyping BillingCompileFacts BillingRuntime BillingRuntimeFacts BillingStructure BillingDisplay ConditionalTaskDisplay JsJson BillingPrinting BillingDenotation RequestRules RequestRuleFacts BillingExpr TaskExpr TaskExprFacts TaskExprPrinting TaskExprRound.

#[local] Arguments evaluate : simpl never.

(** * Arithmetic without signs *)

(** Neither negative, nor negative zero, nor NaN. *)
Definition unsigned (x : number) : bool :=
  match x with S754_zero false | S754_infinity false | S754_finite false _ _ => true | _ => false end.
Definition counted (x : number) : bool := unsigned x && is_finite x.

Lemma round_unsigned p q m e l :
  is_finite (binary_round_aux p q false m e l) = true -> counted (binary_round_aux p q false m e l) = true.
Proof.
  unfold binary_round_aux. destruct (shr_fexp p q m e l) as [mrs e'].
  destruct (shr_fexp p q (round_nearest_even (shr_m mrs) (loc_of_shr_record mrs)) e' loc_Exact) as [mrs' e''].
  destruct (shr_m mrs'); try done. by destruct (Z.leb _ _).
Qed.

Lemma counted_cases x : counted x = true -> x = n_zero \/ exists m e, x = S754_finite false m e.
Proof. unfold counted. destruct x as [[]|[]| |[] m e]; try done; eauto. Qed.

Lemma counted_finite x : counted x = true -> is_finite x = true.
Proof. by intros [->|(m & e & ->)]%counted_cases. Qed.

Lemma add_counted x y : counted x = true -> counted y = true -> is_finite (n_add x y) = true -> counted (n_add x y) = true.
Proof.
  intros [->|(m & e & ->)]%counted_cases [->|(m' & e' & ->)]%counted_cases; try done.
  unfold n_add. cbn [SFadd cond_Zopp]. set (a := fst (shl_align m e _)). set (b := fst (shl_align m' e' _)).
  change (Z.pos a + Z.pos b)%Z with (Z.pos (a + b)). cbn [binary_normalize]. unfold binary_round.
  destruct (shl_align (a + b) _ _) as [mz ez]. apply round_unsigned.
Qed.
Lemma mul_counted x y : counted x = true -> counted y = true -> is_finite (n_mul x y) = true -> counted (n_mul x y) = true.
Proof.
  intros [->|(m & e & ->)]%counted_cases [->|(m' & e' & ->)]%counted_cases; try done. apply round_unsigned.
Qed.
Lemma div_counted x y : counted x = true -> n_ltb n_zero y = true -> is_finite (n_div x y) = true -> counted (n_div x y) = true.
Proof.
  intros [->|(m & e & ->)]%counted_cases; destruct y as [[]|[]| |[] m' e']; try done. intros _.
  unfold n_div. cbn [SFdiv xorb]. destruct (SFdiv_core_binary _ _ _ _ _ _) as [[q e''] l]. apply round_unsigned.
Qed.
Lemma add_zero_r x : counted x = true -> n_add x n_zero = x.
Proof. by intros [->|(m & e & ->)]%counted_cases. Qed.
Lemma add_zero_l x : counted x = true -> n_add n_zero x = x.
Proof. by intros [->|(m & e & ->)]%counted_cases. Qed.
Lemma mul_zero_r x : counted x = true -> n_mul x n_zero = n_zero.
Proof. by intros [->|(m & e & ->)]%counted_cases. Qed.
Lemma max_sub_zero x : counted x = true -> n_max (n_sub x n_zero) n_zero = x.
Proof. by intros [->|(m & e & ->)]%counted_cases. Qed.
Lemma max_zero_counted x : is_finite x = true -> counted (n_max x n_zero) = true.
Proof. by destruct x as [[]|[]| |[] m e]. Qed.
Lemma max_positive x : n_ltb n_zero x = true -> n_max x n_zero = x.
Proof. by destruct x as [[]|[]| |[] m e]. Qed.
Lemma counted_nonneg x : counted x = true -> n_ltb x n_zero = false.
Proof. by intros [->|(m & e & ->)]%counted_cases. Qed.

(** Adding up, with a finite sum at every step. *)
Fixpoint running (acc : number) (amounts : list number) : option number :=
  match amounts with
  | [] => Some acc
  | x :: amounts => if is_finite (n_add acc x) then running (n_add acc x) amounts else None
  end.

(** Amounts of zero do not change a running sum. *)
Lemma running_skip {A} (keep : A -> bool) (amount : A -> number) l acc :
  Forall (fun x => counted (amount x) = true /\ (keep x = false -> amount x = n_zero)) l -> counted acc = true ->
  running acc (map amount l) = running acc (map amount (List.filter keep l)).
Proof.
  intros H. revert acc. induction H as [|x l [Hc Hz] _ IH]; intros acc Hacc; [done|]. cbn [map List.filter].
  destruct (keep x) eqn:E.
  - cbn [map running]. destruct (is_finite (n_add acc (amount x))) eqn:Ef; [|done]. apply IH. by apply add_counted.
  - rewrite (Hz eq_refl). cbn [running]. rewrite add_zero_r by done.
    rewrite (counted_finite _ Hacc). by apply IH.
Qed.

Lemma running_counted amounts acc total :
  Forall (fun x => counted x = true) amounts -> counted acc = true -> running acc amounts = Some total -> counted total = true.
Proof.
  intros H. revert acc. induction H as [|x l Hx _ IH]; intros acc Hacc; cbn [running]; [by intros [= <-]|].
  destruct (is_finite _) eqn:Ef; [|done]. apply IH. by apply add_counted.
Qed.

(** * Denotations of the written trees *)

Section denotations.
Variable usage : list (str * jsval).

Lemma denote_text s : denote usage (text s) = Some (RV (VString s) false, None).
Proof. done. Qed.

(** A number that denotes itself. *)
Definition literal_ok (x : number) : bool :=
  is_finite x && (negb (number_integer (string_of_number x)) || is_safe_integer x).
Lemma denote_number x :
  denote usage (number_tree x) =
    if literal_ok x then Some (RV (VNumber x) (number_integer (string_of_number x)), None) else None.
Proof.
  unfold literal_ok, number_tree, num. cbn [denote of_literal]. unfold checked. cbn [mbind option_bind].
  unfold check_value. cbn [rv_value rv_integer]. destruct (is_finite x); [|done]. cbn [negb andb].
  by destruct (number_integer _), (is_safe_integer x).
Qed.

Lemma denote_usage_tree field :
  denote usage (usage_tree field) = checked (Some (RV (default VNull (obj_get field usage)) false, None)).
Proof. done. Qed.

(** The value of a usage read that is a number. *)
Lemma usage_number field r l v :
  denote usage (usage_tree field) = Some (r, l) -> rv_value r = VNumber v ->
  obj_get field usage = Some (VNumber v) /\ is_finite v = true /\ r = RV (VNumber v) false /\ l = None.
Proof.
  rewrite denote_usage_tree. unfold checked. cbn [mbind option_bind]. unfold check_value. cbn [rv_value rv_integer].
  destruct (obj_get field usage) as [w|]; cbn [default from_option]; unfold id; [|by intros [= <- <-]].
  destruct w; try (by intros [= <- <-]). destruct (is_finite n) eqn:E; [|done]. cbn [negb andb]. intros [= <- <-]. cbn.
  by intros [= ->].
Qed.

Lemma usage_denotes field v :
  obj_get field usage = Some (VNumber v) -> is_finite v = true ->
  denote usage (usage_tree field) = Some (RV (VNumber v) false, None).
Proof. intros Hg Hf. rewrite denote_usage_tree, Hg. cbn. by rewrite Hf. Qed.

(** Arithmetic with an operand that is not an integer literal. *)
Lemma arith_inv o x y r l :
  o ∈ [B_sub; B_mul; B_div] -> denote usage (bin o x y) = Some (r, l) ->
  exists a la b lb va vb, denote usage x = Some (a, la) /\ denote usage y = Some (b, lb) /\
    rv_value a = VNumber va /\ rv_value b = VNumber vb /\ l = later la lb /\
    let v := (if bool_decide (o = B_sub) then n_sub else if bool_decide (o = B_mul) then n_mul else n_div) va vb in
    is_finite v = true /\ rv_value r = VNumber v /\ (rv_integer a = false -> r = RV (VNumber v) false).
Proof.
  intros Ho. unfold bin. rewrite denote_binary by (by intros ->; set_solver). unfold checked, binary_outcome.
  destruct (denote usage x) as [[a la]|]; [|done]. destruct (denote usage y) as [[b lb]|]; [|done]. cbn [mbind option_bind].
  destruct (apply_binary o a b 0) as [r'|] eqn:Ea; [|done]. cbn [mbind option_bind].
  destruct (check_value _ r') eqn:Ec; [|done]. intros [= -> <-].
  assert (exists va vb, rv_value a = VNumber va /\ rv_value b = VNumber vb /\ exists i, (rv_integer a = false -> i = false) /\
    r = RV (VNumber ((if bool_decide (o = B_sub) then n_sub else if bool_decide (o = B_mul) then n_mul else n_div) va vb)) i)
    as (va & vb & Hva & Hvb & i & Hi & Hr).
  { unfold apply_binary in Ea. destruct (rv_value a) as [| | |va| | |], (rv_value b) as [| | |vb| | |];
      try (exfalso; repeat (apply elem_of_cons in Ho as [->|Ho]; [discriminate Ea|]); by apply not_elem_of_nil in Ho).
    exists va, vb. split; [done|]. split; [done|].
    repeat (apply elem_of_cons in Ho as [->|Ho]; [injection Ea as <-; eexists; split; [|reflexivity]; intros Hi; by rewrite ?Hi|]).
    by apply not_elem_of_nil in Ho. }
  exists a, la, b, lb, va, vb. do 5 (split; [done|]). subst r. unfold check_value in Ec. cbn [rv_value] in Ec |- *.
  destruct (negb (is_finite _)) eqn:Ef; [done|]. apply negb_false_iff in Ef. split; [done|]. split; [done|].
  intros Hia. by rewrite (Hi Hia).
Qed.

Lemma arith_denotes o x y va b vb :
  o ∈ [B_mul; B_div] -> denote usage x = Some (RV (VNumber va) false, None) ->
  denote usage y = Some (b, None) -> rv_value b = VNumber vb ->
  is_finite ((if bool_decide (o = B_mul) then n_mul else n_div) va vb) = true ->
  denote usage (bin o x y) = Some (RV (VNumber ((if bool_decide (o = B_mul) then n_mul else n_div) va vb)) false, None).
Proof.
  intros Ho Hx Hy Hb Hf. unfold bin. rewrite denote_binary by (by intros ->; set_solver).
  rewrite Hx, Hy. unfold binary_outcome. cbn [mbind option_bind].
  assert (apply_binary o (RV (VNumber va) false) b 0 =
    Ok (RV (VNumber ((if bool_decide (o = B_mul) then n_mul else n_div) va vb)) false)) as ->.
  { unfold apply_binary. cbn [rv_value rv_integer]. rewrite Hb.
    repeat (apply elem_of_cons in Ho as [->|Ho]; [done|]). by apply not_elem_of_nil in Ho. }
  unfold checked. cbn [mbind option_bind later]. unfold check_value. cbn [rv_value rv_integer]. by rewrite Hf.
Qed.

(** ** The price of a field *)

Definition billable (free q : number) : number :=
  if n_ltb n_zero free then n_max (n_sub q free) n_zero else q.

Lemma quantity_inv field free r l v :
  denote usage (quantity_tree field free) = Some (r, l) -> rv_value r = VNumber v ->
  exists q, obj_get field usage = Some (VNumber q) /\ is_finite q = true /\ v = billable free q /\
    r = RV (VNumber v) false /\ l = None /\ (n_ltb n_zero free = true -> is_finite (n_sub q free) = true).
Proof.
  unfold quantity_tree, billable. destruct (n_ltb n_zero free); [|].
  2: { intros Hd Hv. destruct (usage_number _ _ _ _ Hd Hv) as (Hg & Hf & -> & ->). exists v. done. }
  unfold call. rewrite denote_max. unfold max_outcome.
  destruct (denote usage (bin B_sub _ _)) as [[a la]|] eqn:Ea; [|done]. cbn [mbind option_bind].
  destruct (rv_value a) as [| | |va| | |] eqn:Hva; try done. change (denote usage (number_tree n_zero)) with (Some (RV (VNumber n_zero) true, @None str)).
  cbn [mbind option_bind rv_value].
  apply arith_inv in Ea as (b & lb & c & lc & vb & vc & Hb & Hc & Hvb & Hvc & -> & Hfin & Hr & _); [|set_solver].
  rewrite denote_number in Hc. destruct (literal_ok free); [|done]. injection Hc as <- <-. cbn [rv_value] in Hvc.
  injection Hvc as <-. destruct (usage_number _ _ _ _ Hb Hvb) as (Hg & Hf & -> & ->).
  change (bool_decide (B_sub = B_sub)) with true in *. cbn match in *.
  rewrite Hva in Hr. injection Hr as ->. unfold checked. cbn [mbind option_bind later].
  unfold check_value. cbn [rv_value rv_integer]. destruct (is_finite (n_max _ _)) eqn:Em; [|done]. cbn [negb andb].
  intros [= <- <-]. cbn [rv_value]. intros [= <-]. exists vb. done.
Qed.

(** A quantity times a price, per million for token fields. *)
Definition priced_tree (quantity : node) (price : number) (tokens : bool) : node :=
  let product := bin B_mul quantity (number_tree price) in
  if tokens then bin B_div product (number_tree n_million) else product.
Definition priced (q price : number) (tokens : bool) : number :=
  if tokens then n_div (n_mul q price) n_million else n_mul q price.

Lemma denote_million : denote usage (number_tree n_million) = Some (RV (VNumber n_million) true, None).
Proof. vm_compute. reflexivity. Qed.

Lemma div_arith : B_div ∈ [B_sub; B_mul; B_div].
Proof. set_solver. Qed.

Lemma priced_inv quantity price tokens r l :
  (forall a la v, denote usage quantity = Some (a, la) -> rv_value a = VNumber v -> a = RV (VNumber v) false /\ la = None) ->
  denote usage (priced_tree quantity price tokens) = Some (r, l) ->
  exists q, denote usage quantity = Some (RV (VNumber q) false, None) /\ literal_ok price = true /\
    is_finite (n_mul q price) = true /\ is_finite (priced q price tokens) = true /\
    r = RV (VNumber (priced q price tokens)) false /\ l = None.
Proof.
  intros Hq. assert (forall r l, denote usage (bin B_mul quantity (number_tree price)) = Some (r, l) ->
    exists q, denote usage quantity = Some (RV (VNumber q) false, None) /\ literal_ok price = true /\
      is_finite (n_mul q price) = true /\ r = RV (VNumber (n_mul q price)) false /\ l = None) as Hmul.
  { intros r' l' H. apply arith_inv in H as (a & la & b & lb & va & vb & Ha & Hb & Hva & Hvb & -> & Hfin & _ & Hr); [|set_solver].
    destruct (Hq _ _ _ Ha Hva) as [-> ->]. rewrite denote_number in Hb. destruct (literal_ok price) eqn:E; [|done].
    injection Hb as <- <-. cbn [rv_value] in Hvb. injection Hvb as <-. exists va. rewrite (Hr eq_refl). done. }
  unfold priced_tree, priced. destruct tokens.
  - intros H. destruct (arith_inv B_div _ _ _ _ div_arith H)
      as (a & la & b & lb & va & vb & Ha & Hb & Hva & Hvb & -> & Hfin & _ & Hr).
    destruct (Hmul _ _ Ha) as (q & Hd & Hl & Hf & -> & ->). rewrite denote_million in Hb. injection Hb as <- <-.
    cbn [rv_value] in Hva, Hvb. injection Hva as <-. injection Hvb as <-. exists q. rewrite (Hr eq_refl). done.
  - intros H. destruct (Hmul _ _ H) as (q & Hd & Hl & Hf & -> & ->). by exists q.
Qed.

Lemma priced_denotes quantity price tokens q :
  denote usage quantity = Some (RV (VNumber q) false, None) -> literal_ok price = true ->
  is_finite (n_mul q price) = true -> is_finite (priced q price tokens) = true ->
  denote usage (priced_tree quantity price tokens) = Some (RV (VNumber (priced q price tokens)) false, None).
Proof.
  intros Hq Hl Hf Hp. assert (denote usage (number_tree price) = Some (RV (VNumber price) (number_integer (string_of_number price)), None)) as Hn
    by (by rewrite denote_number, Hl).
  pose proof (arith_denotes B_mul _ _ _ _ _ ltac:(set_solver) Hq Hn eq_refl Hf) as Hmul.
  unfold priced_tree, priced in *. destruct tokens; [|exact Hmul].
  exact (arith_denotes B_div _ _ _ _ _ ltac:(set_solver) Hmul denote_million eq_refl Hp).
Qed.

(** ** Sums *)

Lemma binary_some o x y : o <> B_and -> is_Some (denote usage (bin o x y)) -> is_Some (denote usage x) /\ is_Some (denote usage y).
Proof.
  intros Ho. unfold bin. rewrite denote_binary by done. unfold checked, binary_outcome.
  destruct (denote usage x) as [[a la]|]; [|by intros []]. destruct (denote usage y) as [[b lb]|]; [|by intros []]. eauto.
Qed.

(** A sum that denotes has terms that denote. *)
Lemma sum_some ts t0 : is_Some (denote usage (fold_left (bin B_add) ts t0)) ->
  is_Some (denote usage t0) /\ Forall (fun t => is_Some (denote usage t)) ts.
Proof.
  revert t0. induction ts as [|t ts IH]; intros t0 H; cbn [fold_left] in H; [done|].
  apply IH in H as [H Hts]. apply binary_some in H as [H0 H1]; [|done]. auto.
Qed.

Definition denotes_amount (t : node) (v : number) : Prop := denote usage t = Some (RV (VNumber v) false, None).

Lemma add_step x y v i w :
  denote usage x = Some (RV (VNumber v) i, None) -> denotes_amount y w ->
  denote usage (bin B_add x y) = if is_finite (n_add v w) then Some (RV (VNumber (n_add v w)) false, None) else None.
Proof.
  intros Hx Hy. unfold bin. rewrite denote_binary by done. rewrite Hx, Hy. unfold binary_outcome. cbn [mbind option_bind later].
  unfold apply_binary. cbn [rv_value rv_integer]. rewrite andb_false_r. unfold checked. cbn [mbind option_bind].
  unfold check_value. cbn [rv_value rv_integer]. by destruct (is_finite _).
Qed.

Lemma binary_none o x y : o <> B_and -> denote usage x = None -> denote usage (bin o x y) = None.
Proof. intros Ho H. unfold bin. rewrite denote_binary by done. by rewrite H. Qed.

Lemma sum_denotes ts vs t0 v0 i :
  Forall2 denotes_amount ts vs -> denote usage t0 = Some (RV (VNumber v0) i, None) ->
  denote usage (fold_left (bin B_add) ts t0) =
    total ← running v0 vs; Some (RV (VNumber total) (match ts with [] => i | _ => false end), None).
Proof.
  intros H. revert t0 v0 i. induction H as [|t v ts vs Ht Hts IH]; intros t0 v0 i H0; [done|]. cbn [fold_left running].
  pose proof (add_step _ _ _ _ _ H0 Ht) as Hstep. destruct (is_finite (n_add v0 v)).
  - rewrite (IH _ _ _ Hstep). destruct (running _ _); [|done]. cbn. by destruct ts.
  - clear IH Ht H0. enough (forall x, denote usage x = None -> denote usage (fold_left (bin B_add) ts x) = None) as He by (by apply He).
    clear. induction ts as [|t ts IH]; intros x Hx; [done|]. cbn [fold_left]. apply IH. by apply binary_none.
Qed.

(** ** Conditions *)

Definition fact_holds (c : task_condition) : bool :=
  match obj_get (kc_field c) usage with Some (VString s) => bool_decide (s = kc_value c) | _ => false end.
Definition decides (t : node) (b : bool) : Prop :=
  forall r l, denote usage t = Some (r, l) -> r = RV (VBool b) false /\ l = None.

Lemma condition_decides c : decides (condition_tree c) (fact_holds c).
Proof.
  intros r l. unfold condition_tree, bin. rewrite denote_binary by done. rewrite denote_text, denote_usage_tree.
  unfold fact_holds. destruct (obj_get (kc_field c) usage) as [w|]; [|by intros [= <- <-]].
  cbn [default from_option]; unfold id. unfold checked at 2. cbn [mbind option_bind].
  destruct (check_value _ _); [|done]. unfold binary_outcome. cbn [mbind option_bind later]. unfold apply_binary. cbn [rv_value rv_integer].
  destruct w; cbn; try done; by intros [= <- <-].
Qed.

Lemma conjunction_decides ts bs t0 b0 :
  Forall2 decides ts bs -> decides t0 b0 -> decides (fold_left (bin B_and) ts t0) (b0 && forallb id bs).
Proof.
  intros H. revert t0 b0. induction H as [|t b ts bs Ht _ IH]; intros t0 b0 H0; cbn [fold_left forallb]; [by rewrite andb_true_r|].
  rewrite andb_assoc. apply IH. intros r l. unfold bin. rewrite denote_and. unfold and_outcome, checked.
  destruct (denote usage t0) as [[a la]|] eqn:E0; [|done]. destruct (H0 _ _ E0) as [-> ->]. cbn [mbind option_bind rv_value].
  destruct b0; [|by intros [= <- <-]]. destruct (denote usage t) as [[a la]|] eqn:E; [|done].
  destruct (Ht _ _ E) as [-> ->]. by intros [= <- <-].
Qed.

Lemma conditions_decide conditions :
  conditions <> [] -> decides (conditions_tree conditions) (forallb fact_holds conditions).
Proof.
  destruct conditions as [|c l]; [done|]. intros _. unfold conditions_tree. cbn [map chain forallb].
  replace (forallb fact_holds l) with (forallb id (map fact_holds l)) by (clear; by induction l as [|c l IH]; [|cbn; rewrite IH]).
  apply conjunction_decides; [|apply condition_decides]. apply Forall2_fmap_2, Forall_Forall2_diag, Forall_true.
  apply condition_decides.
Qed.

(** A conditional that denotes takes the branch its condition decides. *)
Lemma conditional_inv c y z b r l :
  decides c b -> denote usage (ite c y z) = Some (r, l) -> denote usage (if b then y else z) = Some (r, l).
Proof.
  intros Hc. unfold ite. rewrite denote_conditional. unfold conditional_outcome, checked.
  destruct (denote usage c) as [[a la]|] eqn:E; [|done]. destruct (Hc _ _ E) as [-> ->]. cbn [mbind option_bind rv_value].
  destruct b; [destruct (denote usage y) as [[r' l']|] | destruct (denote usage z) as [[r' l']|]]; try done;
    cbn [mbind option_bind]; (destruct (check_value _ r'); [|done]); intros [= <- <-]; by destruct l'.
Qed.

(** ** Tiers *)

Lemma labelled_inv label terms r l :
  denote usage (labelled_tree label terms) = Some (r, l) ->
  exists a la v, denote usage (chain B_add terms) = Some (a, la) /\ rv_value a = VNumber v /\ is_finite v = true /\
    r = RV (VNumber v) false /\ l = Some label.
Proof.
  unfold labelled_tree, call. rewrite denote_tier, denote_text. unfold tier_outcome, checked. cbn [mbind option_bind rv_value].
  destruct (denote usage (chain B_add terms)) as [[a la]|] eqn:E; [|done]. cbn [mbind option_bind].
  destruct (rv_value a) as [| | |v| | |] eqn:Hv; try done. cbn [mbind option_bind]. unfold check_value. cbn [rv_value rv_integer].
  destruct (is_finite v) eqn:Ef; [|done]. intros [= <- <-]. by exists a, la, v.
Qed.

Lemma labelled_denotes label terms i la v :
  denote usage (chain B_add terms) = Some (RV (VNumber v) i, la) -> is_finite v = true ->
  denote usage (labelled_tree label terms) = Some (RV (VNumber v) false, Some label).
Proof.
  intros Hc Hf. unfold labelled_tree, call. rewrite denote_tier, denote_text, Hc. cbn. by rewrite Hf.
Qed.

Lemma matched_tier_cons t t' tiers fallback :
  matched_tier usage (t :: t' :: tiers) fallback =
    if sample_matches usage t then t else matched_tier usage (t' :: tiers) fallback.
Proof.
  unfold matched_tier. remember (t' :: tiers) as rest eqn:Hr.
  assert (length (t :: rest) - 1 = S (length rest - 1)) as -> by (subst rest; cbn; lia).
  cbn [take List.find]. by destruct (sample_matches usage t).
Qed.

(** A chain of tiers that denotes takes the tier the preview selects. *)
Lemma tiers_inv fields tiers fallback r l :
  last tiers = Some fallback -> Forall (fun t => tv_conditions t <> []) (take (length tiers - 1) tiers) ->
  denote usage (tiers_tree fields tiers) = Some (r, l) ->
  denote usage (tier_tree fields (matched_tier usage tiers fallback)) = Some (r, l).
Proof.
  induction tiers as [|t tiers IH]; intros Hlast Hc Hd; [done|].
  destruct tiers as [|t' tiers]; [by injection Hlast as ->|].
  change (tiers_tree fields (t :: t' :: tiers)) with
    (ite (conditions_tree (tv_conditions t)) (tier_tree fields t) (tiers_tree fields (t' :: tiers))) in Hd.
  cbn in Hc. apply Forall_cons in Hc as [Hc1 Hc].
  apply (conditional_inv _ _ _ _ _ _ (conditions_decide _ Hc1)) in Hd. rewrite matched_tier_cons.
  change (sample_matches usage t) with (forallb fact_holds (tv_conditions t)). destruct (forallb fact_holds _); [done|].
  apply IH; [done | cbn [length]; by rewrite Nat.sub_succ, Nat.sub_0_r | done].
Qed.

Lemma matched_tier_in tiers fallback :
  last tiers = Some fallback -> matched_tier usage tiers fallback ∈ tiers.
Proof.
  intros Hl. unfold matched_tier. destruct (List.find _ _) as [t|] eqn:E; cbn [default from_option]; unfold id.
  - apply List.find_some in E as [Hin _]. apply list_elem_of_In in Hin.
    rewrite <- (take_drop (length tiers - 1) tiers). apply elem_of_app. by left.
  - apply last_Some in Hl as [l ->]. set_solver.
Qed.
End denotations.

(** * Running a printed expression *)

Section running.
Context {host : Host}.
Variable usage : list (str * jsval).
Definition usage_context : simulation_context := Context_ None None None (Some usage) None.

Section compiled.
Variables (c : compiled_expression) (clock : date) (tree : node).
Hypothesis Hast : erase (c_ast c) = tree.
Hypothesis Hrules : c_requestRules c = [].
Hypothesis Hfragment : in_fragment tree = true.
Hypothesis Hheight : (height tree + 1 <= max_eval_depth)%Z.

Lemma runtime_denotes env s :
  new_runtime c usage_context clock = Ok (env, s) -> agrees (evaluate env (c_ast c) s) s (denote usage tree) /\ rs_matchedTier s = [].
Proof.
  intros (Hc & Hctx & _ & _ & ->)%new_runtime_Ok. split; [|done].
  rewrite <- Hast, denote_erase. apply evaluate_denote.
  - by rewrite Hctx.
  - by rewrite Hc.
  - by rewrite <- fragment_erase, Hast.
  - cbn [rs_depth]. rewrite <- height_erase, Hast. lia.
Qed.

Lemma mark_tier l s : rs_matchedTier s = [] -> rs_matchedTier (mark l s) = default [] l.
Proof. by destruct l. Qed.

Lemma run_inv r :
  run_compiled c usage_context clock = Ok r ->
  exists v l, denote usage tree = Some (v, l) /\ rv_value v = VNumber (e_cost r) /\ e_matchedTier r = default [] l.
Proof.
  intros (env & s0 & v & s & x & _ & Hn & He & Hx & _ & _ & ->)%run_compiled_Ok. apply runtime_denotes in Hn as [Ha Ht].
  unfold agrees in Ha. destruct (denote usage tree) as [[v' l]|]; [|by destruct Ha as [e Ha]; rewrite He in Ha].
  rewrite He in Ha. injection Ha as -> ->. exists v', l. split; [done|]. split; [done|]. by apply mark_tier.
Qed.

Lemma run_denotes x i l :
  denote usage tree = Some (RV (VNumber x) i, l) -> counted x = true ->
  exists r, run_compiled c usage_context clock = Ok r /\ e_cost r = x /\ e_matchedTier r = default [] l.
Proof.
  intros Hd Hx. assert (exists env s, new_runtime c usage_context clock = Ok (env, s)) as (env & s & Hn) by (do 2 eexists; reflexivity).
  pose proof (runtime_denotes _ _ Hn) as [Ha Ht]. rewrite Hd in Ha. cbn [agrees] in Ha.
  unfold run_compiled. rewrite Hn. change (fold_result check_token (default [] (ctx_tokens usage_context)) tt) with (@Ok exn unit tt).
  unfold mbind, result_bind. rewrite Ha. cbn [rv_value]. rewrite (counted_nonneg x Hx).
  rewrite (counted_finite x Hx). cbn [negb orb].
  eexists. split; [reflexivity|]. split; [done|]. by apply mark_tier.
Qed.
End compiled.

(** Simulating a printed source computes the denotation of its tree. *)
Section printed.
Variables (s : str) (clock : date) (tree : node).
Hypothesis Hprints : prints s 0 (Z.to_nat max_parse_depth) tree.
Hypothesis Hversion : match_version s = None.
Hypothesis Hlength : (Z.of_nat (length s) < max_tokens)%Z.
Hypothesis Htype : is_Some (type_of tree).
Hypothesis Hheight : (height tree + 1 <= max_eval_depth)%Z.
Hypothesis Hordinary : all_ordinary tree = true.
Hypothesis Hfragment : in_fragment tree = true.

Lemma simulation_inv r :
  evaluateBillingExpression s usage_context clock = EvalSuccess r ->
  exists v l, denote usage tree = Some (v, l) /\ rv_value v = VNumber (e_cost r) /\ e_matchedTier r = default [] l.
Proof.
  destruct (compile_plain s tree) as (c & Hc & Hast & Hrules); [done..| unfold max_visit_depth, max_eval_depth in *; lia | done|].
  unfold evaluateBillingExpression. rewrite Hc. cbn [evaluate_compiled].
  destruct (run_compiled c usage_context clock) as [r'|] eqn:E; [|done]. intros [= <-]. by eapply run_inv.
Qed.

Lemma simulation_denotes x i l :
  denote usage tree = Some (RV (VNumber x) i, l) -> counted x = true ->
  exists r, evaluateBillingExpression s usage_context clock = EvalSuccess r /\ e_cost r = x /\ e_matchedTier r = default [] l.
Proof.
  destruct (compile_plain s tree) as (c & Hc & Hast & Hrules); [done..| unfold max_visit_depth, max_eval_depth in *; lia | done|].
  intros Hd Hx. destruct (run_denotes c clock tree Hast Hrules Hfragment Hheight x i l Hd Hx) as (r & Hr & H).
  exists r. unfold evaluateBillingExpression. rewrite Hc. cbn [evaluate_compiled]. by rewrite Hr.
Qed.
End printed.
End running.

(** * The preview *)

Section preview.
Context {host : Host} {collation : Collation}.
Variables (schema : usage_schema) (sample : list (str * jsval)).
Hypothesis Hschema : schema_ok schema.
Hypothesis Hnamed : [] ∉ map fst schema.
Let fields : list (str * usage_field) := getTaskNumberFields (Some schema).

(** A sample without negative quantities. *)
Definition sample_unsigned : bool :=
  forallb (fun e => match e.2 with VNumber x => unsigned x | _ => true end) sample.
Hypothesis Hsample : sample_unsigned = true.

Lemma quantity_counted field q : obj_get field sample = Some (VNumber q) -> is_finite q = true -> counted q = true.
Proof.
  intros Hg Hf. apply obj_get_Some in Hg. unfold sample_unsigned in Hsample. rewrite forallb_forall in Hsample.
  apply list_elem_of_In, Hsample in Hg. unfold counted. by rewrite Hf, andb_true_r.
Qed.

Section tier.
Variable tier : task_visual_tier.
Hypothesis Hnorm : normalized schema tier.
Hypothesis Hwrite : tier_writable tier = true.

Definition tokens (e : str * usage_field) : bool := bool_decide (uf_unit e.2 = Some Unit_tokens).
Definition quantity (e : str * usage_field) : number := sample_number (obj_get e.1 sample).
Definition billed (e : str * usage_field) : number := billable (written_free tier e) (quantity e).
Definition amount (e : str * usage_field) : number := priced (billed e) (written_price tier e) (tokens e).
Definition kept (e : str * usage_field) : bool := negb (n_eqb (written_price tier e) n_zero).

Lemma usable_counted x : usable x = true -> number_prints x = true -> counted x = true.
Proof.
  unfold usable. intros [Hf Hle]%andb_true_iff Hp. unfold counted. rewrite Hf, andb_true_r.
  destruct x as [[]|[]| |[] m e]; done.
Qed.

Lemma eq_zero_counted x : counted x = true -> n_eqb x n_zero = true -> x = n_zero.
Proof. by intros [->|(m & e & ->)]%counted_cases. Qed.

Lemma price_counted e : e ∈ fields -> counted (written_price tier e) = true.
Proof.
  intros He. pose proof (writable_facts schema Hschema tier Hnorm Hwrite) as (_ & _ & Hp & _).
  destruct (Hp e He). by apply usable_counted.
Qed.
Lemma constant_counted : counted (tv_constant tier) = true.
Proof.
  pose proof (writable_facts schema Hschema tier Hnorm Hwrite) as (_ & Hc & _).
  apply usable_counted; [apply (norm_constant _ _ Hnorm) | done].
Qed.

(** What a field whose term denotes contributes. *)
Record contributes (e : str * usage_field) : Prop := {
  contributes_sample : obj_get e.1 sample = Some (VNumber (quantity e));
  contributes_quantity : counted (quantity e) = true;
  contributes_billed : counted (billed e) = true;
  contributes_price : literal_ok (written_price tier e) = true;
  contributes_product : is_finite (n_mul (billed e) (written_price tier e)) = true;
  contributes_amount : counted (amount e) = true;
  contributes_denotes : denotes_amount sample (field_tree tier e) (amount e);
  contributes_zero : kept e = false -> amount e = n_zero;
}.

Lemma field_contributes e : e ∈ fields -> is_Some (denote sample (field_tree tier e)) -> contributes e.
Proof.
  intros He [[r l] Hd]. change (field_tree tier e) with
    (priced_tree (quantity_tree e.1 (written_free tier e)) (written_price tier e) (tokens e)) in Hd.
  pose proof Hd as Hd0. apply priced_inv in Hd as (b & Hq & Hl & Hm & Hp & -> & ->).
  2: { intros a la v Ha Hv. apply (quantity_inv _ _ _ _ _ _ Ha) in Hv as (q & _ & _ & _ & Hr & Hla & _). done. }
  destruct (quantity_inv _ _ _ _ _ _ Hq eq_refl) as (q & Hg & Hf & Hb & _ & _ & Hsub).
  assert (quantity e = q) as Hquantity by (unfold quantity; by rewrite Hg).
  assert (billed e = b) as Hbilled by (unfold billed; by rewrite Hquantity, Hb).
  assert (counted q = true) as Hcq by (by eapply quantity_counted).
  assert (counted b = true) as Hcb.
  { rewrite Hb. unfold billable. destruct (n_ltb _ _); [|done]. by apply max_zero_counted, Hsub. }
  assert (counted (n_mul b (written_price tier e)) = true) as Hcm by (by apply mul_counted; [|apply price_counted|]).
  split; rewrite ?Hquantity, ?Hbilled; try done.
  - unfold amount. rewrite Hbilled. unfold priced in *. destruct (tokens e); [|done]. by apply div_counted.
  - unfold denotes_amount, amount. by rewrite Hbilled.
  - unfold kept, amount. rewrite Hbilled. intros Hz%negb_false_iff. apply eq_zero_counted in Hz; [|by apply price_counted].
    rewrite Hz. unfold priced. rewrite mul_zero_r by done. by destruct (tokens e).
Qed.

Lemma fields_contribute l :
  (forall e, e ∈ l -> e ∈ fields) -> Forall (fun t => is_Some (denote sample t)) (map (field_tree tier) l) -> Forall contributes l.
Proof.
  intros Hl Hts. rewrite Forall_map in Hts. apply Forall_forall. intros e He. apply field_contributes; [by apply Hl|].
  exact (proj1 (Forall_forall _ _) Hts e He).
Qed.

(** A sum of the terms of some fields, after a first term. *)
Lemma fields_sum l t0 v0 i a la v :
  Forall contributes l -> denote sample t0 = Some (RV (VNumber v0) i, None) ->
  denote sample (fold_left (bin B_add) (map (field_tree tier) l) t0) = Some (a, la) -> rv_value a = VNumber v ->
  running v0 (map amount l) = Some v.
Proof.
  intros Hall H0 Hc Hv. rewrite (sum_denotes sample _ (map amount l) _ v0 i) in Hc; [| |done].
  - destruct (running _ _) as [total|]; [|done]. cbn in Hc. injection Hc as <- _. cbn [rv_value] in Hv. by injection Hv as ->.
  - apply Forall2_fmap_2, Forall_Forall2_diag. eapply Forall_impl; [exact Hall|]. apply contributes_denotes.
Qed.

Lemma zero_constant : n_ltb n_zero (tv_constant tier) = false -> tv_constant tier = n_zero.
Proof.
  intros H. apply not_positive_zero; [apply (norm_constant _ _ Hnorm) | done|].
  by pose proof (writable_facts schema Hschema tier Hnorm Hwrite) as (_ & Hp & _).
Qed.

Lemma terms_value a la v :
  denote sample (chain B_add (tier_terms tier fields)) = Some (a, la) -> rv_value a = VNumber v ->
  Forall contributes fields /\ literal_ok (tv_constant tier) = true /\
  running (tv_constant tier) (map amount fields) = Some v.
Proof.
  intros Hc Hv. unfold tier_terms, constant_terms in Hc. destruct (n_ltb n_zero (tv_constant tier)) eqn:Epos.
  - cbn [app chain] in Hc. pose proof (sum_some sample _ _ (mk_is_Some _ _ Hc)) as [[a0 H0] Hts].
    apply fields_contribute in Hts; [|done]. rewrite denote_number in H0.
    destruct (literal_ok (tv_constant tier)) eqn:El; [|done]. split; [done|]. split; [done|].
    eapply fields_sum; [done| |exact Hc|done]. by rewrite denote_number, El.
  - rewrite (zero_constant Epos). pose proof (fields_nonempty schema Hschema) as Hne. fold fields in Hne.
    destruct fields as [|e0 es] eqn:Efields; [done|]. cbn [app map chain] in Hc.
    pose proof (sum_some sample _ _ (mk_is_Some _ _ Hc)) as [H0 Hts].
    apply fields_contribute in Hts; [|rewrite Efields; set_solver].
    assert (contributes e0) as He0 by (apply field_contributes; [rewrite Efields; set_solver | done]).
    split; [by constructor|]. split; [vm_compute; reflexivity|]. pose proof (contributes_amount _ He0) as Hc0.
    cbn [map running]. rewrite add_zero_l by done. rewrite (counted_finite _ Hc0).
    eapply fields_sum; [done | apply He0 | exact Hc | done].
Qed.

(** The value of a written tier. *)
Lemma tier_value r l :
  denote sample (tier_tree fields tier) = Some (r, l) ->
  exists total, r = RV (VNumber total) false /\ l = Some (tv_label tier) /\ counted total = true /\
    running (tv_constant tier) (map amount fields) = Some total /\ Forall contributes fields /\
    literal_ok (tv_constant tier) = true.
Proof.
  intros Hd. apply labelled_inv in Hd as (a & la & v & Hc & Hv & Hf & -> & ->). exists v.
  destruct (terms_value _ _ _ Hc Hv) as (Hall & Hl & Hr). split; [done|]. split; [done|]. split; [|done].
  eapply running_counted; [|exact constant_counted|exact Hr].
  apply Forall_map. eapply Forall_impl; [exact Hall|]. apply contributes_amount.
Qed.

(** ** The itemisation *)

Hypothesis Hcontributes : Forall contributes fields.
Let shown : list (str * usage_field) := List.filter kept fields.

Lemma field_unit_of e : e ∈ fields -> field_unit (Some schema) e.1 = uf_unit e.2.
Proof.
  intros He. pose proof (number_field_schema schema (schema_keys _ Hschema) e He) as (Hg & _). unfold field_unit. cbn. by rewrite Hg.
Qed.

Lemma tier_free_of e : e ∈ fields -> is_count e = true -> tier_free tier e.1 = written_free tier e.
Proof.
  intros He Hc. unfold tier_free. rewrite (writable_frees schema Hschema tier Hnorm Hwrite). fold fields.
  cbn [mbind option_bind]. rewrite obj_get_map; [done | apply count_fields_keys, fields_keys, Hschema | by apply count_field].
Qed.

(** The quantity left after the included one, as each loop of the preview computes it. *)
Lemma billed_difference e free : e ∈ fields ->
  free = (if is_count e then written_free tier e else n_zero) -> n_max (n_sub (quantity e) free) n_zero = billed e.
Proof.
  intros He ->. pose proof (proj1 (Forall_forall _ _) Hcontributes e He) as Hco. unfold billed, billable.
  destruct (is_count e) eqn:Ec.
  - destruct (n_ltb n_zero (written_free tier e)) eqn:Ef; [done|].
    pose proof (writable_facts schema Hschema tier Hnorm Hwrite) as (_ & _ & _ & Hf & _).
    apply Hf, free_writable_facts in Ec as (Hu & _ & _ & Hp); [|done].
    rewrite (not_positive_zero (written_free tier e)) by done. apply max_sub_zero, Hco.
  - assert (written_free tier e = n_zero) as -> by (unfold written_free; by rewrite Ec).
    apply max_sub_zero, Hco.
Qed.

Lemma max_free e : e ∈ fields ->
  (if bool_decide (field_unit (Some schema) e.1 = Some Unit_count) then n_max (tier_free tier e.1) n_zero else n_zero) =
  (if is_count e then written_free tier e else n_zero).
Proof.
  intros He. rewrite field_unit_of by done. fold (is_count e). destruct (is_count e) eqn:Ec; [|done].
  rewrite tier_free_of by done. pose proof (writable_facts schema Hschema tier Hnorm Hwrite) as (_ & _ & _ & Hf & _).
  pose proof (free_writable_facts _ (Hf e He Ec)) as (Hu & _ & _ & Hp).
  destruct (n_ltb n_zero (written_free tier e)) eqn:Ef; [by apply max_positive|].
  by rewrite (not_positive_zero (written_free tier e)).
Qed.

Lemma usage_part_of e : e ∈ fields ->
  usage_part sample (Some schema) tier e.1 (written_price tier e) =
    Some (if kept e then [Part_usage e.1 (amount e) (billed e) (written_price tier e)] else []).
Proof.
  intros He. pose proof (proj1 (Forall_forall _ _) Hcontributes e He) as Hco. pose proof (price_counted e He) as Hp.
  unfold usage_part, kept. rewrite (counted_nonneg _ Hp).
  rewrite (counted_finite _ Hp).
  cbn [negb orb]. destruct (n_eqb (written_price tier e) n_zero); [done|]. cbn [negb].
  fold (quantity e). rewrite (counted_nonneg _ (contributes_quantity _ Hco)).
  rewrite (counted_finite _ (contributes_quantity _ Hco)).
  cbn [negb orb]. rewrite max_free by done. rewrite (billed_difference e _ He eq_refl). rewrite field_unit_of by done. fold (tokens e).
  assert ((if tokens e then n_div (n_mul (quantity e) (written_price tier e)) TASK_TOKEN_PRICE_SCALE
           else n_mul (billed e) (written_price tier e)) = amount e) as ->.
  { unfold amount, priced, tokens. case_bool_decide as Ht; [|done]. unfold billed, billable, written_free.
    assert (is_count e = false) as -> by (unfold is_count; rewrite Ht; done). done. }
  by rewrite (counted_finite _ (contributes_amount _ Hco)).
Qed.

Lemma concat_kept {A B} (p : A -> bool) (g : A -> B) l :
  concat (map (fun x => if p x then [g x] else []) l) = map g (List.filter p l).
Proof. induction l as [|x l IH]; [done|]. cbn [map concat List.filter]. destruct (p x); cbn [app map]; by rewrite IH. Qed.

Definition shown_part (e : str * usage_field) : preview_part :=
  Part_usage e.1 (amount e) (billed e) (written_price tier e).

Lemma usage_parts_of : usage_parts sample (Some schema) tier = Some (map shown_part shown).
Proof.
  unfold usage_parts. rewrite (writable_prices schema Hschema tier Hnorm). fold fields. unfold read_prices, shown.
  assert (forall l, (forall e, e ∈ l -> e ∈ fields) ->
    map_option (fun e => usage_part sample (Some schema) tier e.1 e.2) (map (fun e => (e.1, written_price tier e)) l) =
      Some (map (fun e => if kept e then [shown_part e] else []) l)) as H.
  { induction l as [|e l IH]; intros Hl; [done|]. cbn [map map_option fst snd].
    rewrite (usage_part_of e) by (apply Hl; set_solver). cbn [mbind option_bind].
    rewrite IH by (intros; apply Hl; set_solver). done. }
  rewrite H by done. cbn [mbind option_bind]. f_equal. apply concat_kept.
Qed.

(** The terms and the usage the preview evaluates. *)
Definition shown_text (e : str * usage_field) : str :=
  usage_text e.1 ++ js " * " ++ string_of_number (written_price tier e) ++ (if tokens e then js " / 1000000" else []).
Definition shown_usage (l : list (str * usage_field)) (usage : list (str * jsval)) : list (str * jsval) :=
  fold_left (fun usage e => obj_set e.1 (VNumber (billed e)) usage) l usage.

Lemma named e : e ∈ fields -> e.1 <> [].
Proof.
  intros He E. apply Hnamed. unfold fields in He. cbn in He. rewrite sort_keys_perm in He.
  apply list_elem_of_In, filter_In in He as [He _]. rewrite <- E. by apply list_elem_of_In, in_map.
Qed.

Lemma add_term_of e terms usage : e ∈ fields ->
  add_term (Some schema) tier sample (terms, usage) (shown_part e) =
    (terms ++ [shown_text e], obj_set e.1 (VNumber (billed e)) usage).
Proof.
  intros He. pose proof (proj1 (Forall_forall _ _) Hcontributes e He) as Hco. unfold add_term, shown_part.
  destruct e.1 as [|ch name] eqn:Ename; [by destruct (named e He)|]. rewrite <- Ename.
  rewrite field_unit_of by done. fold (tokens e) (is_count e). do 2 f_equal.
  f_equal. destruct (is_count e) eqn:Ec; [|done].
  rewrite (contributes_sample _ Hco). change (sample_number (Some (VNumber (quantity e)))) with (quantity e).
  rewrite tier_free_of by done. apply (billed_difference e); [done|]. by rewrite Ec.
Qed.

Lemma add_terms_of l terms usage : (forall e, e ∈ l -> e ∈ fields) ->
  fold_left (add_term (Some schema) tier sample) (map shown_part l) (terms, usage) =
    (terms ++ map shown_text l, shown_usage l usage).
Proof.
  revert terms usage. induction l as [|e l IH]; intros terms usage Hl; [by rewrite app_nil_r|].
  cbn [map fold_left]. rewrite add_term_of by (apply Hl; set_solver). rewrite IH by (intros; apply Hl; set_solver).
  by rewrite <- app_assoc.
Qed.

Lemma shown_usage_get l usage e :
  NoDup (map fst l) -> e ∈ l -> obj_get e.1 (shown_usage l usage) = Some (VNumber (billed e)).
Proof.
  unfold shown_usage. revert usage. induction l as [|e' l IH]; intros usage Hnd He; [by apply not_elem_of_nil in He|].
  cbn [map] in Hnd. apply NoDup_cons in Hnd as [Hk Hnd]. cbn [fold_left]. apply elem_of_cons in He as [->|He]; [|by apply IH].
  assert (forall l usage v, obj_get e'.1 usage = Some v -> e'.1 ∉ map fst l ->
    obj_get e'.1 (fold_left (fun usage e => obj_set e.1 (VNumber (billed e)) usage) l usage) = Some v) as H.
  { clear. induction l as [|e l IH]; intros usage v Hg Hk; [done|]. cbn [map] in Hk. apply not_elem_of_cons in Hk as [Hne Hk].
    cbn [fold_left]. apply IH; [|done]. by rewrite obj_get_set, bool_decide_eq_false_2. }
  apply H; [|done]. by rewrite obj_get_set, bool_decide_eq_true_2.
Qed.

(** ** The previewed expression *)

(** The terms are those of the tier without included quantities. *)
Definition plain : task_visual_tier := TaskVisualTier (tv_label tier) [] (tv_constant tier) (tv_unitPrices tier) None.

Lemma plain_free e : written_free plain e = n_zero.
Proof. unfold written_free. by destruct (is_count e). Qed.

Lemma shown_text_plain e : shown_text e = field_term plain e.
Proof.
  unfold field_term. fold (written_free plain e) (written_price plain e). rewrite plain_free.
  change (string_of_number TASK_TOKEN_PRICE_SCALE) with (js "1000000").
  change (n_ltb n_zero n_zero) with false. cbn match. fold (tokens e). unfold shown_text.
  change (written_price plain e) with (written_price tier e). destruct (tokens e); [done|]. by rewrite app_nil_r.
Qed.

Definition shown_tree (e : str * usage_field) : node := priced_tree (usage_tree e.1) (written_price tier e) (tokens e).
Lemma shown_tree_plain e : shown_tree e = field_tree plain e.
Proof. unfold field_tree. by rewrite plain_free. Qed.

Definition preview_terms : list node := number_tree (tv_constant tier) :: map shown_tree shown.
Definition preview_text : str :=
  js "tier(" ++ JSON_stringify (tv_label tier) ++ js ", " ++
  join (js " + ") ([string_of_number (tv_constant tier)] ++ map shown_text shown) ++ js ")".

Lemma shown_field e : e ∈ shown -> e ∈ fields.
Proof. intros He. apply list_elem_of_In, filter_In in He as [He _]. by apply list_elem_of_In. Qed.

Lemma prints_preview : prints preview_text 0 5 (labelled_tree (tv_label tier) preview_terms).
Proof.
  pose proof (writable_facts schema Hschema tier Hnorm Hwrite) as (Hl & Hc & Hp & _).
  apply prints_labelled; [done | done|]. unfold preview_terms. cbn [app]. constructor; [by apply prints_number|].
  apply Forall2_fmap_2, Forall_Forall2_diag, Forall_forall. intros e He%shown_field.
  rewrite shown_text_plain, shown_tree_plain. apply prints_field.
  - pose proof (fields_text schema Hschema) as Ht. by apply (proj1 (Forall_forall _ _) Ht).
  - by rewrite plain_free.
  - by apply (Hp e).
Qed.

Lemma shown_length : length shown <= length fields.
Proof. apply filter_length_le. Qed.

Lemma preview_tree_facts :
  type_of (labelled_tree (tv_label tier) preview_terms) = Some Ty_number /\
  (height (labelled_tree (tv_label tier) preview_terms) <= 107)%Z /\
  all_ordinary (labelled_tree (tv_label tier) preview_terms) = true.
Proof.
  pose proof (schema_priced _ Hschema) as [_ Hn]. fold fields in Hn. pose proof shown_length.
  destruct (labelled_tree_facts (tv_label tier) preview_terms) as (Ht & Hh & Ho).
  - done.
  - unfold preview_terms. constructor; [cbn; auto with lia|]. apply Forall_fmap, Forall_forall. intros e _. unfold compose.
    rewrite shown_tree_plain. apply field_tree_facts.
  - split; [done|]. split; [|done]. unfold preview_terms in Hh at 2. cbn [length] in Hh. rewrite length_map in Hh. lia.
Qed.

Lemma field_fragment t e : in_fragment (field_tree t e) = true.
Proof. unfold field_tree, quantity_tree. by destruct (n_ltb _ _), (bool_decide _). Qed.
Lemma labelled_fragment label terms :
  terms <> [] -> Forall (fun t => in_fragment t = true) terms -> in_fragment (labelled_tree label terms) = true.
Proof.
  intros Hn Hall. cbn [labelled_tree call in_fragment text]. cbn [andb].
  apply (chain_invariant (fun t => in_fragment t = true)); [done | done|]. intros x y Hx Hy. cbn [bin in_fragment]. by rewrite Hx, Hy.
Qed.

Lemma preview_fragment : in_fragment (labelled_tree (tv_label tier) preview_terms) = true.
Proof.
  apply labelled_fragment; [done|]. unfold preview_terms. constructor; [done|]. apply Forall_fmap, Forall_forall.
  intros e _. unfold compose. rewrite shown_tree_plain. apply field_fragment.
Qed.

Lemma shown_keys : NoDup (map fst shown).
Proof.
  unfold shown. pose proof (fields_keys schema Hschema) as H. fold fields in H.
  revert H. generalize fields. clear. intros l. induction l as [|e l IH]; cbn [map List.filter]; intros H; [constructor|].
  apply NoDup_cons in H as [Hk H]. destruct (kept e); [|by apply IH]. cbn [map]. apply NoDup_cons. split; [|by apply IH].
  intros Hin. apply Hk. apply list_elem_of_In, in_map_iff in Hin as (x & <- & Hx). apply filter_In in Hx as [Hx _].
  by apply list_elem_of_In, in_map.
Qed.

Lemma shown_denotes e : e ∈ shown -> denotes_amount (shown_usage shown sample) (shown_tree e) (amount e).
Proof.
  intros He. pose proof (proj1 (Forall_forall _ _) Hcontributes e (shown_field _ He)) as Hco.
  apply priced_denotes; [|apply Hco..|by apply counted_finite, Hco].
  apply usage_denotes; [by apply shown_usage_get; [apply shown_keys|] | by apply counted_finite, Hco].
Qed.

(** The previewed expression costs what the written tier does. *)
Lemma preview_denotes total :
  literal_ok (tv_constant tier) = true -> counted total = true -> running (tv_constant tier) (map amount fields) = Some total ->
  denote (shown_usage shown sample) (labelled_tree (tv_label tier) preview_terms) =
    Some (RV (VNumber total) false, Some (tv_label tier)).
Proof.
  intros Hl Ht Hr. eapply labelled_denotes; [|by apply counted_finite]. unfold preview_terms, chain.
  erewrite sum_denotes with (vs := map amount shown) (v0 := tv_constant tier).
  - unfold shown. rewrite <- (running_skip kept amount), Hr; [reflexivity | | apply constant_counted].
    eapply Forall_impl; [exact Hcontributes|]. intros e He. split; apply He.
  - apply Forall2_fmap_2, Forall_Forall2_diag, Forall_forall. apply shown_denotes.
  - rewrite denote_number, Hl. reflexivity.
Qed.

(** ** Lengths *)

Definition weight (texts : list str) : nat := fold_right (fun t n => 3 + length t + n) 0 texts.
Lemma join_weight sep t texts : length sep = 3 -> length (join sep (t :: texts)) = length t + weight texts.
Proof.
  intros Hs. revert t. induction texts as [|t' texts IH]; intros t; [cbn; lia|].
  change (join sep (t :: t' :: texts)) with (t ++ sep ++ join sep (t' :: texts)). rewrite !length_app, Hs.
  rewrite IH. change (weight (t' :: texts)) with (3 + length t' + weight texts). lia.
Qed.

Lemma shown_text_length e : length (shown_text e) <= length (field_term tier e).
Proof.
  rewrite shown_text_plain. unfold field_term. fold (written_free plain e) (written_free tier e).
  fold (written_price plain e) (written_price tier e). rewrite plain_free. change (n_ltb n_zero n_zero) with false.
  change (written_price plain e) with (written_price tier e). cbn match.
  destruct (n_ltb n_zero (written_free tier e)), (bool_decide _); rewrite !length_app; lia.
Qed.

Lemma shown_weight : weight (map shown_text shown) <= weight (map (field_term tier) fields).
Proof.
  unfold shown. generalize fields. intros l. induction l as [|e l IH]; [done|]. cbn [List.filter map].
  pose proof (shown_text_length e). change (weight (field_term tier e :: ?r)) with (3 + length (field_term tier e) + weight r).
  destruct (kept e); [|lia]. cbn [map]. change (weight (shown_text e :: ?r)) with (3 + length (shown_text e) + weight r). lia.
Qed.

Lemma preview_length : length preview_text <= length (generateTaskTierCall tier fields) + 4.
Proof.
  unfold preview_text, generateTaskTierCall, generateTaskTierBody. rewrite !length_app. pose proof shown_weight as Hw.
  pose proof (join_weight (js " + ") (string_of_number (tv_constant tier)) (map shown_text shown) eq_refl) as H1.
  cbn [app]. rewrite H1. clear H1.
  destruct (n_ltb n_zero (tv_constant tier)) eqn:E.
  - pose proof (join_weight (js " + ") (string_of_number (tv_constant tier)) (map (field_term tier) fields) eq_refl) as H2.
    cbn [app]. rewrite H2. lia.
  - rewrite (zero_constant E) in *. change (length (string_of_number n_zero)) with 1.
    pose proof (fields_nonempty schema Hschema) as Hne. fold fields in Hne. destruct fields as [|e0 es]; [done|].
    pose proof (join_weight (js " + ") (field_term tier e0) (map (field_term tier) es) eq_refl) as H2.
    cbn [app map] in Hw |- *. rewrite H2.
    change (weight (field_term tier e0 :: map (field_term tier) es)) with
      (3 + length (field_term tier e0) + weight (map (field_term tier) es)) in Hw. lia.
Qed.

(** ** The result of the preview for the tier *)

Lemma tier_preview clock total :
  literal_ok (tv_constant tier) = true -> counted total = true -> running (tv_constant tier) (map amount fields) = Some total ->
  (Z.of_nat (length (generateTaskTierCall tier fields)) + 4 < max_tokens)%Z ->
  exists r, evaluateBillingExpression preview_text (usage_context (shown_usage shown sample)) clock = EvalSuccess r /\
    e_cost r = total.
Proof.
  intros Hl Ht Hr Hlen. pose proof preview_length. destruct preview_tree_facts as (Hty & Hh & Ho).
  destruct (simulation_denotes (shown_usage shown sample) preview_text clock (labelled_tree (tv_label tier) preview_terms))
    with (x := total) (i := false) (l := Some (tv_label tier)) as (r & Hrun & Hcost & _).
  - eapply prints_weaken; [exact prints_preview | lia | unfold max_parse_depth; lia].
  - done.
  - lia.
  - rewrite Hty. eauto.
  - unfold max_eval_depth. lia.
  - done.
  - apply preview_fragment.
  - by apply preview_denotes.
  - done.
  - eauto.
Qed.
End tier.

(** * The whole configuration *)

Lemma call_within_parts tiers parts tier :
  tier_parts fields tiers = Some parts -> tier ∈ tiers ->
  length (generateTaskTierCall tier fields) <= length (join (js " : ") parts).
Proof.
  revert parts. induction tiers as [|t tiers IH]; intros parts Hp Ht; [by apply not_elem_of_nil in Ht|].
  destruct tiers as [|t' tiers]; [injection Hp as <-; by apply list_elem_of_singleton in Ht as ->|].
  remember (t' :: tiers) as rest eqn:Hrest. cbn [tier_parts] in Hp. rewrite Hrest in Hp. rewrite <- Hrest in Hp.
  destruct (generateTaskCondition (tv_conditions t)) as [|ch c] eqn:Ec; [done|]. rewrite <- Ec in Hp.
  destruct (tier_parts fields rest) as [parts'|] eqn:Er; [|done]. apply (inj Some) in Hp as <-.
  assert (parts' <> []) as Hne by (rewrite Hrest in Er; by eapply tier_parts_nonempty).
  destruct parts' as [|p' parts']; [done|].
  change (join (js " : ") (?x :: p' :: parts')) with (x ++ js " : " ++ join (js " : ") (p' :: parts')).
  rewrite !length_app. apply elem_of_cons in Ht as [->|Ht].
  - lia.
  - specialize (IH _ eq_refl Ht). lia.
Qed.

Lemma tiers_fragment tiers :
  tiers <> [] -> Forall (fun t => tv_conditions t <> []) (take (length tiers - 1) tiers) -> in_fragment (tiers_tree fields tiers) = true.
Proof.
  assert (forall t, in_fragment (tier_tree fields t) = true) as Hone.
  { intros t. apply labelled_fragment; [apply terms_nonempty, fields_nonempty, Hschema|]. unfold tier_terms. apply Forall_app. split.
    - unfold constant_terms. by destruct (n_ltb _ _); repeat constructor.
    - apply Forall_fmap, Forall_forall. intros e _. apply field_fragment. }
  induction tiers as [|t tiers IH]; intros Hne Hc; [done|]. destruct tiers as [|t' tiers]; [apply Hone|].
  change (tiers_tree fields (t :: t' :: tiers)) with
    (ite (conditions_tree (tv_conditions t)) (tier_tree fields t) (tiers_tree fields (t' :: tiers))).
  cbn in Hc. apply Forall_cons in Hc as [Hc1 Hc]. cbn [ite in_fragment]. rewrite Hone, IH; [|done|].
  - rewrite !andb_true_r. apply (chain_invariant (fun t => in_fragment t = true)); [by destruct (tv_conditions t) | |].
    + apply Forall_fmap, Forall_forall. by intros.
    + intros x y Hx Hy. cbn [bin in_fragment]. by rewrite Hx, Hy.
  - cbn [length]. by rewrite Nat.sub_succ, Nat.sub_0_r.
Qed.

Section config.
Variable config : option task_visual_config.
Let tiers : list task_visual_tier := normalizeTaskVisualConfig config schema.
Hypothesis Htiers : forallb tier_writable tiers = true.
Hypothesis Horder : well_ordered [] tiers = true.
Hypothesis Hcount : length tiers <= 100.
Hypothesis Hlength : (Z.of_nat (length (generateTaskExprFromConfig config schema)) + 4 < max_tokens)%Z.

(** What a successful simulation of the written expression denotes. *)
Lemma written_simulation clock r :
  evaluateBillingExpression (generateTaskExprFromConfig config schema) (usage_context sample) clock = EvalSuccess r ->
  exists v l, denote sample (tiers_tree fields tiers) = Some (v, l) /\ rv_value v = VNumber (e_cost r) /\
    e_matchedTier r = default [] l.
Proof.
  pose proof (written_printable schema Hschema config Htiers Horder) as Hp.
  pose proof (tiers_nonempty schema config Horder) as Hne. pose proof (fields_nonempty schema Hschema) as Hf.
  destruct (tier_parts_some schema tiers) as [parts Hparts]; [apply Hp|].
  pose proof (generate_text schema Hschema _ _ Hparts) as Htext. rewrite Htext in *.
  pose proof (tiers_writing _ _ _ Hne (proj2 (proj2 Hp)) Hparts) as Hw. apply writing_facts in Hw as (_ & _ & Hv).
  pose proof (prints_tiers _ _ _ Hf (fields_text schema Hschema) Hp Hne Hparts) as Hprints.
  destruct (tiers_tree_facts fields tiers 100 Hf Hne (proj2 (proj2 Hp))) as (Htype & Hheight & Hord).
  { eapply Forall_impl; [by apply written_each|]. intros t [Hn Hwr].
    pose proof (writable_facts schema Hschema t Hn Hwr) as (_ & _ & _ & _ & H). lia. }
  pose proof (schema_priced _ Hschema) as [_ Hpriced]. fold fields in Hpriced.
  apply simulation_inv.
  - eapply prints_weaken; [exact Hprints | lia | unfold max_parse_depth; fold tiers; lia].
  - done.
  - lia.
  - rewrite Htype. eauto.
  - unfold max_eval_depth. lia.
  - done.
  - apply tiers_fragment; [done | apply Hp].
Qed.

Lemma constant_skipped tier acc :
  fold_left (add_term (Some schema) tier sample)
    (if n_ltb n_zero (tv_constant tier) then [Part_constant (tv_constant tier)] else []) acc = acc.
Proof. by destruct (n_ltb _ _). Qed.

(** The preview agrees with every successful simulation of the written expression. *)
Lemma preview_simulation clock r :
  evaluateBillingExpression (generateTaskExprFromConfig config schema) (usage_context sample) clock = EvalSuccess r ->
  exists pv, evaluateTaskVisualConfig tiers sample (Some schema) clock = Some pv /\
    pv_total pv = e_cost r /\ tv_label (pv_tier pv) = e_matchedTier r.
Proof.
  intros (v & l & Hd & Hcost & Hlabel)%written_simulation.
  pose proof (written_printable schema Hschema config Htiers Horder) as Hp.
  destruct (last tiers) as [fallback|] eqn:Hlast; [|by apply last_None, (tiers_nonempty schema config Horder) in Hlast].
  apply (tiers_inv sample _ _ _ _ _ Hlast (proj2 (proj2 Hp))) in Hd.
  pose proof (matched_tier_in sample _ _ Hlast) as Hin. set (tier := matched_tier sample tiers fallback) in *.
  destruct (proj1 (Forall_forall _ _) (written_each schema Hschema config Htiers) tier Hin) as [Hn Hw].
  destruct (tier_value tier Hn Hw _ _ Hd) as (total & -> & -> & Ht & Hr & Hall & Hlit).
  destruct (tier_parts_some schema tiers) as [parts Hparts]; [apply Hp|].
  pose proof (call_within_parts _ _ _ Hparts Hin) as Hlen. rewrite <- (generate_text schema Hschema _ _ Hparts) in Hlen.
  destruct (tier_preview tier Hn Hw Hall clock total Hlit Ht Hr) as (r' & Hrun & Htotal); [lia|].
  unfold evaluateTaskVisualConfig. rewrite Hlast. cbn [mbind option_bind]. fold tier.
  pose proof (constant_counted tier Hn Hw) as Hk. rewrite (counted_nonneg _ Hk), (counted_finite _ Hk). cbn [negb orb].
  rewrite (usage_parts_of tier Hn Hw Hall). cbn [mbind option_bind].
  rewrite fold_left_app, constant_skipped, (add_terms_of tier Hn Hw Hall) by (apply shown_field; done).
  unfold usage_context, preview_text in Hrun. rewrite Hrun. eexists. split; [reflexivity|]. cbn [pv_total pv_tier default from_option rv_value] in *. unfold id in *.
  split; congruence.
Qed.

(** The written expression has no request rules. *)
Lemma written_separate :
  splitBillingExprAndRequestRules (generateTaskExprFromConfig config schema) =
    Ok (Separated (generateTaskExprFromConfig config schema) []).
Proof.
  pose proof (written_printable schema Hschema config Htiers Horder) as Hp.
  pose proof (tiers_nonempty schema config Horder) as Hne. pose proof (fields_nonempty schema Hschema) as Hf.
  destruct (tier_parts_some schema tiers) as [parts Hparts]; [apply Hp|].
  rewrite (generate_text schema Hschema _ _ Hparts).
  pose proof (tiers_writing _ _ _ Hne (proj2 (proj2 Hp)) Hparts) as Hw. apply writing_facts in Hw as (Ht & Hn & _).
  apply separate_unsplit; [done | done|].
  by eapply tiers_unsplit; [apply (fields_text schema Hschema) | exact Hp | done | exact Hparts].
Qed.
End config.
End preview.

(** * Usage examples *)

Lemma examples_simulated {host : Host} {collation : Collation} schema config examples clock :
  schema_ok schema -> ([] ∉ map fst schema) -> Forall (fun e => sample_unsigned e.2 = true) examples ->
  forallb tier_writable (normalizeTaskVisualConfig config schema) = true ->
  well_ordered [] (normalizeTaskVisualConfig config schema) = true ->
  length (normalizeTaskVisualConfig config schema) <= 100 ->
  (Z.of_nat (length (generateTaskExprFromConfig config schema)) + 4 < max_tokens)%Z ->
  exists listed : list (str * number),
    evaluateTaskUsageExamples (generateTaskExprFromConfig config schema) (Some schema) examples clock = Ok listed /\
    forall name sample r, (name, sample) ∈ examples ->
      evaluateBillingExpression (generateTaskExprFromConfig config schema) (usage_context sample) clock = EvalSuccess r ->
      (name, e_cost r) ∈ listed.
Proof.
  intros Hs Hnamed Hex Ht Ho Hc Hl.
  pose proof (written_separate schema Hs config Ht Ho) as Hsplit.
  pose proof (config_round schema Hs config Ht Ho Hc ltac:(lia)) as Hround.
  unfold evaluateTaskUsageExamples. destruct (generateTaskExprFromConfig config schema) as [|ch text] eqn:E.
  { discriminate Hround. }
  destruct examples as [|ex examples]; [exists []; split; [done|]; by intros name sample r ?%elem_of_nil|].
  rewrite Hsplit. unfold mbind at 1, result_bind. cbn [billingExpr]. rewrite Hround.
  unfold mbind at 1, result_bind. eexists. split; [reflexivity|]. intros name sample r Hin Hr.
  assert (sample_unsigned sample = true) as Hu by exact (proj1 (Forall_forall _ _) Hex _ Hin).
  rewrite <- E in Hr, Hl. destruct (preview_simulation schema sample Hs Hnamed Hu config Ht Ho Hc Hl clock r Hr) as (pv & Hpv & Hcost & _).
  apply list_elem_of_omap. exists (name, sample). split; [done|]. cbn [snd fst]. rewrite Hpv. cbn. by rewrite Hcost.
Qed.
