(* ===== verification/TaskExprProps.v ===== *)
(** Properties of the task pricing editor (task-expr.ts). *)

From S2P Require Import Prelude JsString JsNumber JsValue BillingTypes BillingParser BillingCompile BillingRuntime BillingStructure BillingDisplay JsJson BillingPrinting BillingExpr TaskExpr TaskExprFacts TaskExprPrinting TaskExprRound TaskExprPreview.

Section editor.
Context {collation : Collation}.

(** C17: The text written for a task pricing configuration is read back as that
    configuration: for a usage schema with distinct fields, a configuration whose normal
    form has printable numbers and labels, conditions on all tiers but the last none of
    which an earlier tier implies, and at most a hundred tiers, the reader of the editor
    returns exactly the normal form of the configuration. *)
Theorem task_config_round_trip (schema : usage_schema) (config : option task_visual_config) :
  schema_ok schema ->
  forallb tier_writable (normalizeTaskVisualConfig config schema) = true ->
  well_ordered [] (normalizeTaskVisualConfig config schema) = true ->
  length (normalizeTaskVisualConfig config schema) <= 100 ->
  (Z.of_nat (length (generateTaskExprFromConfig config schema)) < max_tokens)%Z ->
  tryParseTaskVisualConfig (generateTaskExprFromConfig config schema) schema =
    Ok (Some (normalizeTaskVisualConfig config schema)).
Proof. intros. by apply config_round. Qed.

(** C18: A price matrix survives the expression text: a matrix with one row for every
    combination of the declared values and printable prices is written, through tiers,
    as an expression from which the matrix reader recovers the same rows, with the same
    prices and included quantities under every combination. *)
Theorem task_matrix_round_trip (schema : usage_schema) (matrix : list task_matrix_row) :
  schema_ok schema ->
  Forall (fun e => NoDup (default [] (uf_enum e.2))) schema ->
  matrix_complete schema matrix ->
  forallb row_writable matrix = true ->
  length matrix <= 100 /\ length (getTaskEnumFields (Some schema)) <= 100 ->
  (Z.of_nat (length (generateTaskExprFromConfig (Some (taskMatrixToTiers matrix schema)) schema)) < max_tokens)%Z ->
  exists rows,
    tryParseTaskMatrixConfig (generateTaskExprFromConfig (Some (taskMatrixToTiers matrix schema)) schema) schema =
      Ok (Some rows) /\
    Forall2 same_row rows matrix.
Proof. intros. by apply matrix_text_round. Qed.

(** C14: The preview of the editor is exact: for the configurations of the round trip over
    a schema without an empty field name, on every usage sample without negative
    quantities, whenever the saved expression can be simulated, the preview selects the
    tier the simulation reports and shows its cost, although it prices other terms: it
    subtracts the included quantities beforehand, leaves out the unpriced fields and
    always writes the constant. *)
Theorem preview_exact `{Host} (schema : usage_schema) (config : option task_visual_config)
    (sample : list (str * jsval)) (clock : date) (r : evaluation_success) :
  schema_ok schema -> ([] ∉ map fst schema) -> sample_unsigned sample = true ->
  forallb tier_writable (normalizeTaskVisualConfig config schema) = true ->
  well_ordered [] (normalizeTaskVisualConfig config schema) = true ->
  length (normalizeTaskVisualConfig config schema) <= 100 ->
  (Z.of_nat (length (generateTaskExprFromConfig config schema)) + 4 < max_tokens)%Z ->
  evaluateBillingExpression (generateTaskExprFromConfig config schema) (Context_ None None None (Some sample) None) clock =
    EvalSuccess r ->
  exists pv, evaluateTaskVisualConfig (normalizeTaskVisualConfig config schema) sample (Some schema) clock = Some pv /\
    pv_total pv = e_cost r /\ tv_label (pv_tier pv) = e_matchedTier r.
Proof. intros. by eapply preview_simulation. Qed.

(** The usage examples of a saved task price are listed at their simulated cost: the
    expression is separated, read back into tiers and previewed, and every example whose
    simulation on the expression succeeds is listed with the cost of that simulation. *)
Theorem usage_examples_exact `{Host} (schema : usage_schema) (config : option task_visual_config)
    (examples : list (str * list (str * jsval))) (clock : date) :
  schema_ok schema -> ([] ∉ map fst schema) -> Forall (fun e => sample_unsigned e.2 = true) examples ->
  forallb tier_writable (normalizeTaskVisualConfig config schema) = true ->
  well_ordered [] (normalizeTaskVisualConfig config schema) = true ->
  length (normalizeTaskVisualConfig config schema) <= 100 ->
  (Z.of_nat (length (generateTaskExprFromConfig config schema)) + 4 < max_tokens)%Z ->
  exists listed,
    evaluateTaskUsageExamples (generateTaskExprFromConfig config schema) (Some schema) examples clock = Ok listed /\
    forall name sample r, (name, sample) ∈ examples ->
      evaluateBillingExpression (generateTaskExprFromConfig config schema)
        (Context_ None None None (Some sample) None) clock = EvalSuccess r ->
      (name, e_cost r) ∈ listed.
Proof. intros. by apply examples_simulated. Qed.
End editor.

Lemma video_schema_ok : schema_ok (collation := ascii_collation) video_schema.
Proof.
  split.
  - by compute_done.
  - repeat (constructor; [split; cbn; repeat constructor|]); constructor.
  - repeat (constructor; [done|]). constructor.
  - vm_compute. split; repeat constructor.
Qed.

Lemma task_config_round_trip_witness :
  tryParseTaskVisualConfig (collation := ascii_collation) video_expr video_schema =
    Ok (Some (normalizeTaskVisualConfig (collation := ascii_collation)
      (Some (taskMatrixToTiers (collation := ascii_collation) video_matrix video_schema)) video_schema)).
Proof.
  apply (task_config_round_trip (collation := ascii_collation)); [apply video_schema_ok | vm_compute; reflexivity.. | |].
  - vm_compute. repeat constructor.
  - vm_compute. reflexivity.
Defined.

Lemma task_matrix_round_trip_witness :
  exists rows, tryParseTaskMatrixConfig (collation := ascii_collation) video_expr video_schema = Ok (Some rows) /\
    Forall2 same_row rows video_matrix.
Proof.
  apply (task_matrix_round_trip (collation := ascii_collation)); [apply video_schema_ok | | | vm_compute; reflexivity | |].
  - repeat (constructor; [by compute_done|]). constructor.
  - split; [vm_compute; reflexivity|]. repeat (constructor; [split; vm_compute; reflexivity|]). constructor.
  - vm_compute. split; repeat constructor.
  - vm_compute. reflexivity.
Defined.

Definition video_sample : list (str * jsval) :=
  [(js "audio", VString (js "on")); (js "quality", VString (js "hd")); (js "seconds", VNumber (n_of_Z 10));
   (js "images", VNumber (n_of_Z 5))].
Definition video_config : option task_visual_config :=
  Some (taskMatrixToTiers (collation := ascii_collation) video_matrix video_schema).

Lemma preview_exact_witness :
  exists r pv,
    evaluateBillingExpression (host := sample_host) (generateTaskExprFromConfig (collation := ascii_collation) video_config video_schema)
      (Context_ None None None (Some video_sample) None) None = EvalSuccess r /\ string_of_number (e_cost r) = js "55" /\
    evaluateTaskVisualConfig (host := sample_host)
      (normalizeTaskVisualConfig (collation := ascii_collation) video_config video_schema)
      video_sample (Some video_schema) None = Some pv /\ pv_total pv = e_cost r.
Proof.
  destruct (evaluateBillingExpression (host := sample_host) (generateTaskExprFromConfig (collation := ascii_collation) video_config video_schema)
      (Context_ None None None (Some video_sample) None) None) as [f|r] eqn:E; [exfalso; vm_compute in E; discriminate E|].
  assert (string_of_number (e_cost r) = js "55") as H55 by (vm_compute in E; injection E as <-; vm_compute; reflexivity).
  destruct (preview_exact (collation := ascii_collation) (H := sample_host) video_schema video_config video_sample None r)
    as (pv & Hpv & Hcost & _); [exact video_schema_ok | compute_done | vm_compute; reflexivity.. | | | exact E |].
  - vm_compute. repeat constructor.
  - vm_compute. reflexivity.
  - exists r, pv. split; [reflexivity|]. split; [exact H55|]. split; [exact Hpv | exact Hcost].
Defined.

Lemma usage_examples_exact_witness :
  exists listed,
    evaluateTaskUsageExamples (host := sample_host) (collation := ascii_collation)
      (generateTaskExprFromConfig (collation := ascii_collation) video_config video_schema) (Some video_schema)
      [(js "ten seconds", video_sample)] None = Ok listed /\
    forall r, evaluateBillingExpression (host := sample_host) (generateTaskExprFromConfig (collation := ascii_collation) video_config video_schema)
      (Context_ None None None (Some video_sample) None) None = EvalSuccess r -> (js "ten seconds", e_cost r) ∈ listed.
Proof.
  destruct (usage_examples_exact (collation := ascii_collation) (H := sample_host) video_schema video_config
              [(js "ten seconds", video_sample)] None) as (listed & Hl & Hin);
    [exact video_schema_ok | compute_done | | vm_compute; reflexivity.. | | |].
  - constructor; [vm_compute; reflexivity | constructor].
  - vm_compute. repeat constructor.
  - vm_compute. reflexivity.
  - exists listed. split; [exact Hl|]. intros r Hr. apply (Hin _ video_sample); [by left | exact Hr].
Defined.
