(* ===== verification/TaskMatrixTable.v ===== *)
(** The expanded price table of a task model (features/pricing/lib/task-matrix-display.ts,
    [getTaskMatrixDisplayTiers]): one row for every combination of the declared values. *)

From S2P Require Import Prelude JsString JsNumber JsValue BillingTypes BillingParser BillingCompile BillingCompileFacts BillingRuntime BillingRuntimeFacts BillingStructure BillingDisplay BillingDisplayFacts TaskDisplayFacts ConditionalTaskDisplay JsJson BillingExpr TaskExpr TaskExprFacts.

Section table.
Context {collation : Collation}.

(** The row shown for a row of the matrix; it has no condition text. *)
Definition display_row (row : task_matrix_row) : task_tier :=
  TaskTier None (taskMatrixRowLabel (mr_combination row)) (row_conditions row) (mr_constant row)
    (mr_unitPrices row) (mr_freeQuantities row).

Definition getTaskMatrixDisplayTiers (expression : str) (schema : option usage_schema)
    : result exn (option (list task_tier)) :=
  match schema with
  | None => Ok None
  | Some schema =>
      match getTaskEnumFields (Some schema) with
      | [] => Ok None
      | _ =>
          matrix ← tryParseTaskMatrixConfig expression schema;
          Ok (match matrix with None => None | Some rows => Some (map display_row rows) end)
      end
  end.

(** * The rows and the tiers they expand *)

(** Every condition of a tier read without boolean conditions is on an enumeration. *)
Lemma condition_enumerated schema term c :
  task_condition_of schema false term = Some (true, Some c) ->
  exists def, obj_get (kc_field c) schema = Some def /\ uf_type def <> Some Usage_boolean /\
    exists values, uf_enum def = Some values /\ kc_value c ∈ values.
Proof.
  unfold task_condition_of. destruct (usage_comparison term) as [[field value]|]; [|done]. cbn [mbind option_bind].
  destruct (obj_get field schema) as [def|] eqn:E; [|by destruct value as [| |[]|]].
  case_bool_decide as Hb; [by destruct value|]. destruct value; try done. destruct (uf_enum def) as [values|] eqn:Hv; [|done].
  intros [= Hin <-]. breflect. cbn [kc_field kc_value literal_text]. exists def. split; [done|]. split; [done|]. eauto.
Qed.

Lemma map_option_elem {A B} (f : A -> option B) l r y : map_option f l = Some r -> y ∈ r -> exists x, x ∈ l /\ f x = Some y.
Proof.
  revert r. induction l as [|x l IH]; intros r; cbn [map_option]; [intros [= <-]; by intros ?%elem_of_nil|].
  destruct (f x) as [z|] eqn:E; [|done]. cbn [mbind option_bind]. destruct (map_option f l) as [t|]; [|done].
  cbn [mbind option_bind]. intros [= <-] [->|Hy]%elem_of_cons; [exists x; set_solver|].
  destruct (IH t eq_refl Hy) as (w & Hw & Hf). exists w. set_solver.
Qed.

(** The enumeration a condition is on. *)
Definition on_enumeration (schema : usage_schema) (c : task_condition) : Prop :=
  exists def, obj_get (kc_field c) schema = Some def /\ uf_type def <> Some Usage_boolean /\
    exists values, uf_enum def = Some values /\ kc_value c ∈ values.

Lemma conditions_enumerated n schema conditions :
  taskConditions n schema false = TC_conditions conditions -> Forall (on_enumeration schema) conditions.
Proof.
  unfold taskConditions. destruct (map_option _ _) as [l|] eqn:El; [|done].
  destruct (forallb fst l) eqn:Hf; [|done]. intros [= <-]. apply Forall_forall. intros c Hc.
  apply list_elem_of_omap in Hc as ([reach oc] & Hin & Hs). cbn in Hs. subst oc.
  rewrite forallb_forall in Hf. assert (reach = true) as -> by (by apply (Hf (reach, Some c)), list_elem_of_In).
  destruct (map_option_elem _ _ _ _ El Hin) as (t & _ & Ht). by apply condition_enumerated in Ht.
Qed.

Lemma chain_enumerated n schema acc tiers :
  Forall (fun t => Forall (on_enumeration schema) (kt_conditions t)) acc ->
  task_tier_loop n schema false acc = Some tiers ->
  Forall (fun t => Forall (on_enumeration schema) (kt_conditions t)) tiers.
Proof.
  revert acc.
  assert (Hadd : forall acc m conditions tier, Forall (fun t => Forall (on_enumeration schema) (kt_conditions t)) acc ->
    Forall (on_enumeration schema) conditions -> taskTier m conditions schema = Some tier ->
    Forall (fun t => Forall (on_enumeration schema) (kt_conditions t)) (acc ++ [tier])).
  { intros acc m conditions tier Hacc Hc Ht. apply Forall_app. split; [done|]. constructor; [|constructor].
    by rewrite (taskTier_conditions _ _ _ _ Ht). }
  assert (Hleaf : forall m acc, Forall (fun t => Forall (on_enumeration schema) (kt_conditions t)) acc ->
    (fallback ← taskTier m [] schema; Some (acc ++ [fallback])) = Some tiers ->
    Forall (fun t => Forall (on_enumeration schema) (kt_conditions t)) tiers).
  { intros m acc Hacc Ht. destruct (taskTier m [] schema) as [t|] eqn:E; [|done]. injection Ht as <-.
    by eapply Hadd; [done|constructor|exact E]. }
  induction n as [| |f args a b IH| | |c y z a b IHc IHy IHz] using node_ind'; intros acc Hacc Ht;
    try (by eapply Hleaf).
  cbn [task_tier_loop] in Ht. destruct (taskConditions c schema false) as [| |cs] eqn:Hcs; [done | by eapply IHz |].
  apply conditions_enumerated in Hcs. destruct (shadowed acc cs); [by eapply IHz|].
  destruct (taskTier y cs schema) as [tier|] eqn:Ey; [|done]. cbn [mbind option_bind] in Ht.
  pose proof (Hadd _ _ _ _ Hacc Hcs Ey) as Hnew. destruct cs; [by injection Ht as <- | by eapply IHz].
Qed.

(** * Reported facts and combinations *)

(** What the table assumes of a schema: distinct fields, distinct values, and no
    enumeration on a boolean field. *)
Record table_schema (schema : usage_schema) : Prop := {
  table_fields : NoDup (map fst schema);
  table_values : Forall (fun e => NoDup (default [] (uf_enum e.2))) schema;
  table_types : Forall (fun e => uf_enum e.2 <> None -> uf_type e.2 <> Some Usage_boolean) schema;
}.

Section facts.
Context (schema : usage_schema) (usage : usage_facts).
Hypothesis Hschema : table_schema schema.
Hypothesis Hconforms : conforms schema usage.

Definition reported (field : str) : str := default [] (obj_get field usage ≫= fact_text).
(** The combination of the reported values. *)
Definition reported_combination : list (str * str) :=
  map (fun e => (e.1, reported e.1)) (getTaskEnumFields (Some schema)).

Lemma enum_field_in e : e ∈ getTaskEnumFields (Some schema) <-> e ∈ schema /\ is_enum_field e = true.
Proof. cbn. by rewrite sort_keys_perm, list_elem_of_In, filter_In, list_elem_of_In. Qed.

Lemma reported_value e : e ∈ getTaskEnumFields (Some schema) ->
  obj_get e.1 usage ≫= fact_text = Some (reported e.1) /\ reported e.1 ∈ default [] (uf_enum e.2).
Proof.
  intros [Hin He]%enum_field_in. destruct e as [field def]. unfold is_enum_field in He. cbn [fst snd] in *.
  destruct (uf_enum def) as [values|] eqn:Hv; [|done].
  assert (obj_get field schema = Some def) as Hg by (by apply obj_get_elem; [apply table_fields|]).
  assert (uf_type def <> Some Usage_boolean) as Ht.
  { pose proof (proj1 (Forall_forall _ _) (table_types _ Hschema) _ Hin) as H. cbn in H. apply H. by rewrite Hv. }
  destruct (Hconforms field def Hg) as [_ Hc]. destruct (Hc Ht values Hv) as (s & Hs & Hsin).
  unfold reported. by rewrite Hs.
Qed.

Lemma reported_in : reported_combination ∈ getTaskEnumCombinations (Some schema).
Proof.
  unfold reported_combination, getTaskEnumCombinations.
  pose proof (enum_fields_keys schema (table_fields _ Hschema)) as Hkeys.
  assert (Forall (fun e => reported e.1 ∈ default [] (uf_enum e.2)) (getTaskEnumFields (Some schema))) as Hv
    by (apply Forall_forall; intros e He; by apply reported_value).
  revert Hkeys Hv. generalize (getTaskEnumFields (Some schema)) as fields. intros fields.
  enough (forall pre acc, map (fun e => (e.1, reported e.1)) pre ∈ acc -> NoDup (map fst (pre ++ fields)) ->
    Forall (fun e => reported e.1 ∈ default [] (uf_enum e.2)) fields ->
    map (fun e => (e.1, reported e.1)) (pre ++ fields) ∈ fold_left expand_field_values fields acc) as H
    by (intros; apply (H [] [[]]); [by left | done..]).
  induction fields as [|e fields IH]; intros pre acc Hacc Hkeys Hv; cbn [fold_left]; [by rewrite app_nil_r|].
  apply Forall_cons in Hv as [He Hv]. rewrite cons_middle, app_assoc in Hkeys |- *. apply IH; [|done|done].
  unfold expand_field_values. apply list_elem_of_In, in_flat_map. eexists. split; [by apply list_elem_of_In|].
  apply in_map_iff. exists (reported e.1). split; [|by apply list_elem_of_In].
  rewrite obj_set_fresh; [by rewrite map_app|]. rewrite map_map. cbn [fst]. rewrite !map_app in Hkeys.
  apply NoDup_app in Hkeys as (Hkeys & _ & _). apply NoDup_app in Hkeys as (_ & Hd & _).
  intros Hx. eapply Hd; [exact Hx|]. by left.
Qed.

Lemma reported_keys : map fst reported_combination = map fst (getTaskEnumFields (Some schema)).
Proof. unfold reported_combination. by rewrite map_map. Qed.

(** A condition on an enumeration holds of the facts when it holds of the combination. *)
Lemma holds_reported c : kc_field c ∈ map fst (getTaskEnumFields (Some schema)) ->
  task_holds usage c = bool_decide (obj_get (kc_field c) reported_combination = Some (kc_value c)).
Proof.
  intros Hc. apply list_elem_of_In, in_map_iff in Hc as (e & Heq & He). apply list_elem_of_In in He.
  unfold task_holds. rewrite <- Heq. rewrite (proj1 (reported_value e He)).
  rewrite (obj_get_elem e.1 (reported e.1)); [done|..].
  - rewrite reported_keys. apply enum_fields_keys, table_fields, Hschema.
  - apply list_elem_of_In, in_map_iff. exists e. by split; [|apply list_elem_of_In].
Qed.

Lemma conditions_reported l : Forall (fun c => kc_field c ∈ map fst (getTaskEnumFields (Some schema))) l ->
  forallb (task_holds usage) l =
    forallb (fun c => bool_decide (obj_get (kc_field c) reported_combination = Some (kc_value c))) l.
Proof. induction 1 as [|c l Hc _ IH]; [done|]. cbn [forallb]. by rewrite holds_reported, IH. Qed.

(** A tier of the chain applies to the facts when it matches their combination. *)
Lemma chain_tier_applies tier : Forall (on_enumeration schema) (kt_conditions tier) ->
  combination_matches reported_combination tier = task_applies usage tier.
Proof.
  intros H. symmetry. apply conditions_reported. eapply Forall_impl; [exact H|].
  intros c (def & Hg & _ & values & Hv & Hin). apply list_elem_of_In, in_map_iff. exists (kc_field c, def).
  split; [done|]. apply list_elem_of_In, enum_field_in. split; [by apply obj_get_Some|].
  unfold is_enum_field. cbn [snd]. rewrite Hv. destruct values; [by apply elem_of_nil in Hin | done].
Qed.

(** A row applies to the facts when it is the row of their combination. *)
Lemma row_applies row : map fst (mr_combination row) = map fst (getTaskEnumFields (Some schema)) ->
  task_applies usage (display_row row) = bool_decide (mr_combination row = reported_combination).
Proof.
  intros Hk. assert (NoDup (map fst (getTaskEnumFields (Some schema)))) as Hnd
    by (apply enum_fields_keys, table_fields, Hschema).
  unfold task_applies. cbn [kt_conditions display_row]. rewrite conditions_reported.
  - apply eq_bool_prop_intro. split; intros H; apply Is_true_true.
    + apply bool_decide_eq_true_2. symmetry. by apply (row_conditions_match _ _ _ Hk reported_keys Hnd), Is_true_true.
    + apply (row_conditions_match _ _ _ Hk reported_keys Hnd). symmetry.
      exact (proj1 (bool_decide_eq_true _) (proj1 (Is_true_true _) H)).
  - unfold row_conditions. apply Forall_map. apply Forall_forall. intros e He. rewrite sort_keys_perm in He.
    unfold compose. cbn [kc_field]. rewrite <- Hk. by apply list_elem_of_In, in_map, list_elem_of_In.
Qed.

Lemma find_ext_Forall {A} (p q : A -> bool) l : Forall (fun x => p x = q x) l -> List.find p l = List.find q l.
Proof. induction 1 as [|x l Hx _ IH]; [done|]. cbn [List.find]. by rewrite Hx, IH. Qed.

Lemma filter_only {A} (p : A -> bool) (l : list A) x :
  NoDup l -> x ∈ l -> (forall y, y ∈ l -> p y = true <-> y = x) -> List.filter p l = [x].
Proof.
  induction l as [|y l IH]; intros Hnd Hx Hp; [by apply elem_of_nil in Hx|].
  apply NoDup_cons in Hnd as [Hy Hnd]. cbn [List.filter]. destruct (p y) eqn:Ey.
  - apply Hp in Ey as ->; [|by left]. f_equal. clear IH Hx Hnd.
    induction l as [|z l IH]; [done|]. cbn [List.filter]. destruct (p z) eqn:Ez.
    + apply Hp in Ez as ->; [|set_solver]. set_solver.
    + apply IH; set_solver.
  - apply IH; [done| |set_solver]. apply elem_of_cons in Hx as [->|]; [|done].
    rewrite (proj2 (Hp y ltac:(by left)) eq_refl) in Ey. done.
Qed.

(** Exactly one row applies, the one built for the reported combination. *)
Lemma table_row (build : list (str * str) -> task_matrix_row) :
  (forall combination, mr_combination (build combination) = combination) ->
  List.filter (task_applies usage) (map display_row (map build (getTaskEnumCombinations (Some schema)))) =
    [display_row (build reported_combination)].
Proof.
  intros Hb. destruct (combinations_enumerated schema (table_fields _ Hschema) (table_values _ Hschema)) as [Hnd Hkeys].
  rewrite map_map, filter_map_swap. rewrite (filter_only _ _ reported_combination); [done|done|apply reported_in|].
  intros y Hy. rewrite row_applies; [by rewrite Hb, bool_decide_eq_true|]. rewrite Hb.
  exact (proj1 (Forall_forall _ _) Hkeys _ Hy).
Qed.

(** The rows of the table, the chain they expand and the tier that applies. *)
Lemma table_chain expression split c tiers rows tier :
  splitBillingExprAndRequestRules expression = Ok split ->
  compile_source (billingExpr split) = Ready c ->
  readTaskTierChain (c_ast c) schema false = Some tiers ->
  getTaskMatrixDisplayTiers expression (Some schema) = Ok (Some rows) ->
  List.find (task_applies usage) tiers = Some tier ->
  List.filter (task_applies usage) rows =
    [display_row (matrix_row (getTaskNumberFields (Some schema)) [] tier reported_combination)].
Proof.
  intros Hsplit Hc Hchain Ht Hfind. unfold getTaskMatrixDisplayTiers in Ht.
  destruct (getTaskEnumFields (Some schema)) as [|e0 es] eqn:Hfields; [done|].
  unfold tryParseTaskMatrixConfig in Ht. destruct expression as [|u expression]; [done|].
  assert (parseTaskTiersFromExpr (u :: expression) (Some schema) false = Ok tiers) as Hparse.
  { unfold parseTaskTiersFromExpr. destruct schema; [done|]. rewrite Hsplit. cbn [mbind result_bind].
    by rewrite Hc, Hchain. }
  rewrite Hparse in Ht. cbn [mbind result_bind] in Ht. destruct (last tiers) as [fallback|]; [|done].
  case_bool_decide; [done|]. destruct (negb _); [done|]. cbn in Ht. injection Ht as <-.
  rewrite table_row by done. unfold matrix_row.
  assert (Forall (fun t => Forall (on_enumeration schema) (kt_conditions t)) tiers) as Hon
    by (by eapply chain_enumerated; [|exact Hchain]).
  rewrite (find_ext_Forall _ (task_applies usage)), Hfind; [done|].
  eapply Forall_impl; [exact Hon|]. intros t. apply chain_tier_applies.
Qed.
End facts.
End table.

(** C19: The expanded price table of a task model shows what is charged: on usage facts
    that conform to the schema, when every field read is declared and a simulation of the
    price part succeeds, exactly one row of the table has conditions that match the facts,
    and it shows the constant, the unit prices and the included quantities of the tier
    the simulation reports, with zero for the declared fields that tier does not name. *)
Theorem matrix_table_refines `{Host} `{Collation} (expression : str) (split : separated) (c : compiled_expression)
    (schema : usage_schema) (usage : usage_facts) (ctx : simulation_context) (clock : date)
    (r : evaluation_success) (tiers rows : list task_tier)
    (Hsplit : splitBillingExprAndRequestRules expression = Ok split)
    (Hc : compile_source (billingExpr split) = Ready c)
    (Hschema : table_schema schema) (Hu : ctx_usage ctx = Some usage) (Hconf : conforms schema usage)
    (Hdecl : fields_declared schema (postorder (c_ast c)))
    (Hchain : readTaskTierChain (c_ast c) schema false = Some tiers)
    (Hrows : getTaskMatrixDisplayTiers expression (Some schema) = Ok (Some rows))
    (Hr : run_compiled c ctx clock = Ok r) :
  exists row tier, List.filter (task_applies usage) rows = [row] /\
    tier ∈ tiers /\ e_matchedTier r = kt_label tier /\ kt_constant row = kt_constant tier /\
    kt_unitPrices row = row_prices (getTaskNumberFields (Some schema)) (kt_unitPrices tier) /\
    kt_freeQuantities row = row_free (getTaskNumberFields (Some schema)) (kt_freeQuantities tier).
Proof.
  destruct (chain_matches c ctx clock schema usage false tiers r Hu Hconf Hdecl Hchain Hr) as (tier & Hfind & Hlabel & _).
  eexists. exists tier. split; [by eapply table_chain|].
  split; [by apply list_elem_of_In, (List.find_some _ _ Hfind)|]. split; [done|]. by split.
Qed.

(** The table of a two-tier price: four rows, two of them the fallback. *)
Definition table_expr : str :=
  js "u('quality') == 'hd' ? tier('hd', 1 + u('seconds') * 2) : tier('sd', u('images') * 3)".
Definition table_usage : usage_facts :=
  [(js "quality", VString (js "sd")); (js "audio", VString (js "on")); (js "seconds", VNumber (n_of_Z 4));
   (js "images", VNumber (n_of_Z 5))].
Definition table_context : simulation_context := Context_ None None None (Some table_usage) (Some (Some 0%Z)).
Definition table_compiled : compiled_expression :=
  match compile_source table_expr with
  | Ready c => c
  | NotReady _ => Compiled [] (NLiteral LNull false 0 0) [] [] []
  end.
Definition table_rows : list task_tier :=
  match getTaskMatrixDisplayTiers (collation := ascii_collation) table_expr (Some video_schema) with
  | Ok (Some rows) => rows
  | _ => []
  end.

Example table_labels :
  map kt_label table_rows =
    [js "on" ++ [183%N] ++ js "hd"; js "on" ++ [183%N] ++ js "sd";
     js "off" ++ [183%N] ++ js "hd"; js "off" ++ [183%N] ++ js "sd"].
Proof. vm_compute. reflexivity. Qed.

Lemma table_usage_conforms : conforms video_schema table_usage.
Proof.
  intros field def Hg. unfold video_schema in Hg. cbn [obj_get] in Hg.
  destruct (bool_decide (field = js "seconds")); [by injection Hg as <-|].
  destruct (bool_decide (field = js "quality")) eqn:E1; breflect.
  { subst field. injection Hg as <-. split; [done|]. intros _ values [= <-].
    eexists. split; [reflexivity | compute_done]. }
  destruct (bool_decide (field = js "images")); [by injection Hg as <-|].
  destruct (bool_decide (field = js "audio")) eqn:E2; breflect; [|done].
  subst field. injection Hg as <-. split; [done|]. intros _ values [= <-].
  eexists. split; [reflexivity | compute_done].
Qed.

Lemma table_reads_declared : fields_declared video_schema (postorder (c_ast table_compiled)).
Proof.
  intros field i a b rest a' b' Hin. apply list_elem_of_In in Hin. vm_compute in Hin.
  repeat match type of Hin with _ \/ _ => destruct Hin as [Hin|Hin]; [try discriminate Hin;
    injection Hin as <-; eexists; vm_compute; reflexivity|] end.
  done.
Qed.

Lemma matrix_table_refines_witness :
  exists r row, run_compiled (host := sample_host) table_compiled table_context None = Ok r /\
    List.filter (task_applies table_usage) table_rows = [row] /\ kt_constant row = n_zero /\
    e_matchedTier r = js "sd".
Proof.
  destruct (run_compiled (host := sample_host) table_compiled table_context None) as [r|e] eqn:E;
    [|exfalso; vm_compute in E; discriminate E].
  destruct (matrix_table_refines (H := sample_host) (H0 := ascii_collation) table_expr (Separated table_expr [])
              table_compiled video_schema table_usage table_context None r
              (default [] (readTaskTierChain (c_ast table_compiled) video_schema false)) table_rows)
    as (row & tier & Hrow & Hin & Hl & Hk & _).
  - vm_compute. reflexivity.
  - vm_compute. reflexivity.
  - split; [by compute_done | repeat (constructor; [by compute_done|]); constructor |].
    repeat (constructor; [done|]); constructor.
  - reflexivity.
  - exact table_usage_conforms.
  - exact table_reads_declared.
  - vm_compute. reflexivity.
  - vm_compute. reflexivity.
  - exact E.
  - exists r, row. split; [reflexivity|]. split; [exact Hrow|]. vm_compute in E. injection E as <-.
    vm_compute in Hrow. injection Hrow as <-. split; vm_compute; reflexivity.
Defined.
