(* ===== verification/JsPattern.v ===== *)
(** Regular expressions that are searched for in a text: the backtracking matcher of the
    language, with greedy repetition, alternatives in order, numbered captures and word
    boundaries, for the patterns of the visual tier editor (tier-expr.ts).

    The repetitions of these patterns hold no captures, so nothing has to be reset
    between their rounds.  The facts say what a pattern takes when the rest of the match
    succeeds, where it fails whatever follows, and the language of its matches. *)

From S2P Require Import Prelude JsString.

Inductive pattern : Type :=
| P_empty
| P_char (p : N -> bool)                 (* one character of a class *)
| P_boundary                             (* \b *)
| P_seq (a b : pattern)
| P_alt (a b : pattern)                  (* a|b *)
| P_opt (a : pattern)                    (* a?, greedy *)
| P_star (a : pattern)                   (* a*, greedy *)
| P_group (n : nat) (a : pattern).       (* a capture *)

(** * Matching *)

(** The captures, the latest first; a group that took no part is undefined. *)
Definition captures : Type := list (nat * str).
Fixpoint capture (n : nat) (caps : captures) : option str :=
  match caps with
  | [] => None
  | (m, s) :: caps' => if (n =? m)%nat then Some s else capture n caps'
  end.

Definition word_at (c : option N) : bool := match c with Some c => is_word c | None => false end.

Section matcher.
Context {R : Type}.

(** What remains to be matched: the character before the position, the rest of the
    text and the captures so far. *)
Definition continuation : Type := option N -> str -> captures -> option R.

(** The rounds of a greedy repetition; a round that takes no character fails, so there
    are never more rounds than characters. *)
Fixpoint rounds (round : continuation -> continuation) (k : continuation) (n : nat) : continuation :=
  fun prev s caps =>
  match n with
  | O => k prev s caps
  | S n' =>
      match round (fun prev' s' caps' =>
                     if (length s' =? length s)%nat then None else rounds round k n' prev' s' caps') prev s caps with
      | Some x => Some x
      | None => k prev s caps
      end
  end.

Fixpoint run (r : pattern) (k : continuation) (prev : option N) (s : str) (caps : captures) : option R :=
  match r with
  | P_empty => k prev s caps
  | P_char p =>
      match s with
      | c :: s' => if p c then k (Some c) s' caps else None
      | [] => None
      end
  | P_boundary => if xorb (word_at prev) (word_at (head s)) then k prev s caps else None
  | P_seq a b => run a (fun prev s caps => run b k prev s caps) prev s caps
  | P_alt a b =>
      match run a k prev s caps with
      | Some x => Some x
      | None => run b k prev s caps
      end
  | P_opt a =>
      match run a (fun prev' s' caps' => if (length s' =? length s)%nat then None else k prev' s' caps') prev s caps with
      | Some x => Some x
      | None => k prev s caps
      end
  | P_star a => rounds (run a) k (length s) prev s caps
  | P_group n a =>
      run a (fun prev' s' caps' => k prev' s' ((n, take (length s - length s') s) :: caps')) prev s caps
  end.
End matcher.

(** [text.match(/^ ... $/)] *)
Definition match_whole (r : pattern) (s : str) : option captures :=
  run r (fun _ s' caps => match s' with [] => Some caps | _ => None end) None s [].

(** A match at the start of [s]: the captures, the character before the rest, and the rest. *)
Definition match_here (r : pattern) (prev : option N) (s : str) : option (captures * option N * str) :=
  run r (fun prev' s' caps => Some (caps, prev', s')) prev s [].

(** [exec] of a pattern without anchors: the first position at which it matches. *)
Fixpoint search (r : pattern) (prev : option N) (s : str) : option (captures * option N * str) :=
  match match_here r prev s with
  | Some found => Some found
  | None => match s with [] => None | c :: s' => search r (Some c) s' end
  end.
(** [/.../.test(text)] *)
Definition occurs (r : pattern) (s : str) : bool :=
  match search r None s with Some _ => true | None => false end.

(** The loop [while ((match = re.exec(text)) !== null)] of a global pattern that takes
    at least one character. *)
Fixpoint search_all (fuel : nat) (r : pattern) (prev : option N) (s : str) : list captures :=
  match fuel with
  | O => []
  | S f =>
      match search r prev s with
      | Some (caps, prev', s') => caps :: search_all f r prev' s'
      | None => []
      end
  end.
Definition all_matches (r : pattern) (s : str) : list captures := search_all (S (length s)) r None s.

(** [text.split(re)] of a non-empty text at a pattern that takes at least one character;
    [piece] is the text since the last separator, reversed. *)
Fixpoint split_from (fuel : nat) (r : pattern) (prev : option N) (piece s : str) : list str :=
  match fuel, s with
  | S f, c :: s' =>
      match match_here r prev s with
      | Some (_, prev', rest) => reverse piece :: split_from f r prev' [] rest
      | None => split_from f r (Some c) (c :: piece) s'
      end
  | _, _ => [reverse piece]
  end.
Definition split_pattern (r : pattern) (s : str) : list str := split_from (S (length s)) r None [] s.

(** * Notation of patterns *)

Definition P_one (c : N) : pattern := P_char (fun d => d =? c)%N.
Fixpoint P_text (s : str) : pattern :=
  match s with
  | [] => P_empty
  | c :: s' => P_seq (P_one c) (P_text s')
  end.
Definition P_plus (a : pattern) : pattern := P_seq a (P_star a).
(** [\s*] *)
Definition P_ws : pattern := P_star (P_char is_space).
Fixpoint P_all (l : list pattern) : pattern :=
  match l with
  | [] => P_empty
  | a :: l' => P_seq a (P_all l')
  end.
Fixpoint P_any (l : list pattern) : pattern :=
  match l with
  | [] => P_char (fun _ => false)
  | [a] => a
  | a :: l' => P_alt a (P_any l')
  end.

(** * Facts about the matcher *)

(** The character before the position after [w]. *)
Fixpoint ends (prev : option N) (w : str) : option N :=
  match w with
  | [] => prev
  | c :: w' => ends (Some c) w'
  end.
Lemma ends_app prev u v : ends prev (u ++ v) = ends (ends prev u) v.
Proof. revert prev. induction u as [|c u IH]; intros prev; [done | apply IH]. Qed.

(** [takes r w new rest]: before [rest], [r] takes [w] and adds the captures [new], if
    the rest of the match then succeeds. *)
Definition takes (r : pattern) (w : str) (new : captures) (rest : str) : Prop :=
  forall R (k : @continuation R) prev caps x,
    k (ends prev w) rest (new ++ caps) = Some x -> run r k prev (w ++ rest) caps = Some x.

(** [fails r s]: [r] does not match at the start of [s], whatever follows it. *)
Definition fails (r : pattern) (s : str) : Prop :=
  forall R (k : @continuation R) prev caps, run r k prev s caps = None.

(** * What a pattern takes *)

Lemma takes_empty rest : takes P_empty [] [] rest.
Proof. by intros R k prev caps x. Qed.

Lemma takes_char p c rest : p c = true -> takes (P_char p) [c] [] rest.
Proof. intros Hc R k prev caps x H. cbn. by rewrite Hc. Qed.

Lemma takes_one c rest : takes (P_one c) [c] [] rest.
Proof. apply takes_char, N.eqb_refl. Qed.

Lemma takes_seq a b u v new1 new2 rest :
  takes a u new1 (v ++ rest) -> takes b v new2 rest -> takes (P_seq a b) (u ++ v) (new2 ++ new1) rest.
Proof.
  intros Ha Hb R k prev caps x H. cbn [run]. rewrite <- app_assoc. apply Ha. apply Hb.
  by rewrite <- ends_app, app_assoc.
Qed.

Lemma takes_text w rest : takes (P_text w) w [] rest.
Proof.
  induction w as [|c w IH]; [apply takes_empty|].
  exact (takes_seq (P_one c) (P_text w) [c] w [] [] rest (takes_one c _) IH).
Qed.

Lemma takes_alt_left a b w new rest : takes a w new rest -> takes (P_alt a b) w new rest.
Proof. intros Ha R k prev caps x H. cbn [run]. by erewrite Ha. Qed.
Lemma takes_alt_right a b w new rest : fails a (w ++ rest) -> takes b w new rest -> takes (P_alt a b) w new rest.
Proof. intros Ha Hb R k prev caps x H. cbn [run]. rewrite Ha. by apply Hb. Qed.

Lemma takes_opt a w new rest : w <> [] -> takes a w new rest -> takes (P_opt a) w new rest.
Proof.
  intros Hw Ha R k prev caps x H. cbn [run]. erewrite Ha; [done|].
  destruct (Nat.eqb_spec (length rest) (length (w ++ rest))) as [E|_]; [|done].
  rewrite length_app in E. destruct w; cbn in E; [done | lia].
Qed.
Lemma takes_opt_none a rest : fails a rest -> takes (P_opt a) [] [] rest.
Proof. intros Ha R k prev caps x H. cbn [run app]. by rewrite Ha. Qed.

Lemma takes_group n a w new rest : takes a w new rest -> takes (P_group n a) w ((n, w) :: new) rest.
Proof.
  intros Ha R k prev caps x H. cbn [run]. apply Ha. rewrite length_app, Nat.add_sub, take_app_length. done.
Qed.

(** The rounds of a repetition, each taking characters. *)
Lemma takes_rounds a ws rest :
  Forall (fun w => w <> []) ws ->
  (forall us w vs, ws = us ++ w :: vs -> takes a w [] (concat vs ++ rest)) -> fails a rest ->
  takes (P_star a) (concat ws) [] rest.
Proof.
  intros Hne Ha Hf R k prev caps x H. cbn [run].
  enough (forall n prev, length ws <= n -> k (ends prev (concat ws)) rest caps = Some x ->
            rounds (run a) k n prev (concat ws ++ rest) caps = Some x) as Hr.
  { apply Hr; [|done]. clear -Hne. rewrite length_app. induction Hne as [|w ws Hw _ IH]; cbn; [lia|].
    rewrite length_app. destruct w; cbn; [done | lia]. }
  clear prev H. induction Hne as [|w ws Hw Hne IH]; intros n prev Hn Hk.
  - cbn [concat app]. destruct n as [|n]; [exact Hk|]. cbn [rounds]. rewrite Hf. exact Hk.
  - destruct n as [|n]; [cbn in Hn; lia|]. cbn [concat rounds]. rewrite <- app_assoc.
    erewrite (Ha []); [done | done|]. cbn beta.
    destruct (Nat.eqb_spec (length (concat ws ++ rest)) (length (w ++ concat ws ++ rest))) as [E|_].
    { rewrite (length_app w) in E. destruct w; cbn in E; [done | lia]. }
    apply IH; [|cbn in Hn; lia | by rewrite <- ends_app].
    intros us v vs E. apply (Ha (w :: us)). by rewrite E.
Qed.

Definition head_not (p : N -> bool) (s : str) : Prop := match s with [] => True | c :: _ => p c = false end.

Lemma fails_char p s : head_not p s -> fails (P_char p) s.
Proof. intros H R k prev caps. destruct s as [|c s]; [done|]. cbn in *. by rewrite H. Qed.

Lemma takes_class p w rest : forallb p w = true -> head_not p rest -> takes (P_star (P_char p)) w [] rest.
Proof.
  intros Hw Hr. replace w with (concat (map (fun c => [c]) w)) at 1
    by (clear; induction w as [|c w IH]; cbn; [done | by rewrite IH]).
  apply takes_rounds; [|intros us c vs E | by apply fails_char].
  - apply Forall_fmap, Forall_forall. done.
  - assert (c ∈ map (fun c => [c]) w) as Hc by (rewrite E; apply elem_of_app; right; left).
    apply list_elem_of_fmap in Hc as (d & -> & Hd). apply takes_char. rewrite forallb_forall in Hw.
    by apply Hw, list_elem_of_In.
Qed.

Lemma takes_plus p w rest :
  w <> [] -> forallb p w = true -> head_not p rest -> takes (P_plus (P_char p)) w [] rest.
Proof.
  destruct w as [|c w]; [done|]. intros _ [Hc Hw]%andb_true_iff Hr.
  apply (takes_seq _ _ [c] w [] []); [by apply takes_char | by apply takes_class].
Qed.

Lemma takes_ws w rest : forallb is_space w = true -> head_not is_space rest -> takes P_ws w [] rest.
Proof. apply takes_class. Qed.

(** * Where a pattern fails *)

Lemma fails_seq a b s : fails a s -> fails (P_seq a b) s.
Proof. intros H R k prev caps. cbn [run]. apply H. Qed.
Lemma fails_alt a b s : fails a s -> fails b s -> fails (P_alt a b) s.
Proof. intros Ha Hb R k prev caps. cbn [run]. by rewrite Ha, Hb. Qed.
Lemma fails_group n a s : fails a s -> fails (P_group n a) s.
Proof. intros H R k prev caps. cbn [run]. apply H. Qed.
Lemma fails_opt_seq a b s : fails a s -> fails b s -> fails (P_seq (P_opt a) b) s.
Proof. intros Ha Hb R k prev caps. cbn [run]. by rewrite Ha, Hb. Qed.
Lemma fails_one_seq c b s : fails b s -> fails (P_seq (P_one c) b) (c :: s).
Proof. intros H R k prev caps. cbn. by rewrite N.eqb_refl, H. Qed.
Lemma fails_one c s : head_not (fun d => d =? c)%N s -> fails (P_one c) s.
Proof. apply fails_char. Qed.
Lemma fails_seq_assoc a b c s : fails (P_seq a (P_seq b c)) s -> fails (P_seq (P_seq a b) c) s.
Proof. intros H R k prev caps. exact (H R k prev caps). Qed.

Lemma fails_text_seq w b s : fails b s -> fails (P_seq (P_text w) b) (w ++ s).
Proof.
  induction w as [|c w IH]; intros H; [exact H|]. apply fails_seq_assoc. cbn [app]. by apply fails_one_seq, IH.
Qed.
Lemma fails_text w s : starts_with s w = false -> fails (P_text w) s.
Proof.
  revert s. induction w as [|c w IH]; intros s H; [by destruct s|]. intros R k prev caps. destruct s as [|d s]; [done|].
  cbn in H |- *. rewrite N.eqb_sym in H. destruct (d =? c)%N; [by apply IH | done].
Qed.

(** Spaces, then a pattern that matches neither at a space nor after them. *)
Lemma fails_ws_seq b w rest :
  forallb is_space w = true -> head_not is_space rest ->
  (forall c s, is_space c = true -> fails b (c :: s)) -> fails b rest -> fails (P_seq P_ws b) (w ++ rest).
Proof.
  intros Hw Hr Hb Hf R k prev caps. cbn [run P_ws].
  generalize (length (w ++ rest)) as n. intros n. revert n prev. induction w as [|c w IH]; intros n prev.
  - cbn [app]. destruct n as [|n]; [apply Hf|]. cbn [rounds]. destruct rest as [|d rest]; [apply Hf|].
    cbn in Hr. rewrite Hr. apply Hf.
  - cbn in Hw. apply andb_true_iff in Hw as [Hc Hw]. cbn [app].
    destruct n as [|n]; [by apply Hb|]. cbn [rounds run]. rewrite Hc.
    destruct (length (w ++ rest) =? length (c :: w ++ rest))%nat; rewrite ?IH; by try apply Hb.
Qed.
Lemma fails_ws_one c b w rest :
  forallb is_space w = true -> is_space c = false -> head_not (fun d => is_space d || (d =? c)%N) rest ->
  fails (P_seq P_ws (P_seq (P_one c) b)) (w ++ rest).
Proof.
  intros Hw Hc Hr. assert (head_not is_space rest /\ head_not (fun d => d =? c)%N rest) as [H1 H2].
  { destruct rest as [|d rest]; [done|]. cbn in *. by apply orb_false_iff. }
  apply fails_ws_seq; [done | done | | by apply fails_seq, fails_one].
  intros d s Hd. apply fails_seq, fails_one. cbn. apply N.eqb_neq. intros ->. congruence.
Qed.

(** * The language of a pattern *)

Inductive lang : pattern -> str -> Prop :=
| lang_empty : lang P_empty []
| lang_char p c : p c = true -> lang (P_char p) [c]
| lang_boundary : lang P_boundary []
| lang_seq a b u v : lang a u -> lang b v -> lang (P_seq a b) (u ++ v)
| lang_left a b w : lang a w -> lang (P_alt a b) w
| lang_right a b w : lang b w -> lang (P_alt a b) w
| lang_none a : lang (P_opt a) []
| lang_some a w : lang a w -> lang (P_opt a) w
| lang_stop a : lang (P_star a) []
| lang_round a u v : lang a u -> lang (P_star a) v -> lang (P_star a) (u ++ v)
| lang_group n a w : lang a w -> lang (P_group n a) w.

(** A match took a word of the language. *)
Lemma run_sound r R (k : @continuation R) prev s caps x :
  run r k prev s caps = Some x ->
  exists w rest prev' caps', s = w ++ rest /\ lang r w /\ k prev' rest caps' = Some x.
Proof.
  revert R k prev s caps x. induction r as [| p | |a IHa b IHb|a IHa b IHb|a IHa|a IHa|n a IHa]; intros R k prev s caps x H; cbn [run] in H.
  - exists [], s, prev, caps. by repeat constructor.
  - destruct s as [|c s]; [done|]. destruct (p c) eqn:Hp; [|done]. exists [c], s, (Some c), caps. by repeat constructor.
  - destruct (xorb _ _); [|done]. exists [], s, prev, caps. by repeat constructor.
  - apply IHa in H as (u & rest & prev' & caps' & -> & Hu & H). apply IHb in H as (v & rest' & prev2 & caps2 & -> & Hv & H).
    exists (u ++ v), rest', prev2, caps2. rewrite app_assoc. split; [done|]. by split; [constructor|].
  - destruct (run a k prev s caps) eqn:E.
    + apply IHa in E as (w & rest & prev' & caps' & -> & Hw & E). exists w, rest, prev', caps'.
      split; [done|]. split; [by constructor | congruence].
    + apply IHb in H as (w & rest & prev' & caps' & -> & Hw & H). exists w, rest, prev', caps'.
      split; [done|]. split; [by apply lang_right | congruence].
  - destruct (run a _ prev s caps) eqn:E.
    + apply IHa in E as (w & rest & prev' & caps' & -> & Hw & E). cbn beta in E.
      destruct (length rest =? length (w ++ rest))%nat; [done|]. exists w, rest, prev', caps'.
      split; [done|]. split; [by constructor | congruence].
    + exists [], s, prev, caps. by repeat constructor.
  - revert H. generalize (length s) as n. intros n.
    enough (forall prev s caps, rounds (run a) k n prev s caps = Some x ->
      exists w rest prev' caps', s = w ++ rest /\ lang (P_star a) w /\ k prev' rest caps' = Some x) as H by eauto.
    clear prev s caps. induction n as [|n IHn]; intros prev s caps H; cbn [rounds] in H.
    { exists [], s, prev, caps. by repeat constructor. }
    destruct (run a _ prev s caps) eqn:E; [|exists [], s, prev, caps; by repeat constructor].
    injection H as ->. apply IHa in E as (u & rest & prev' & caps' & -> & Hu & E). cbn beta in E.
    destruct (length rest =? length (u ++ rest))%nat; [done|]. apply IHn in E as (v & rest' & prev2 & caps2 & -> & Hv & E).
    exists (u ++ v), rest', prev2, caps2. rewrite app_assoc. split; [done|]. by split; [constructor|].
  - apply IHa in H as (w & rest & prev' & caps' & -> & Hw & H). eexists w, rest, prev', _.
    split; [done|]. split; [by constructor | exact H].
Qed.

Lemma match_whole_sound r s caps : match_whole r s = Some caps -> lang r s.
Proof.
  unfold match_whole. intros (w & rest & prev' & caps' & -> & Hw & H)%run_sound. cbn beta in H.
  destruct rest; [by rewrite app_nil_r | done].
Qed.

Lemma match_whole_takes r s new : takes r s new [] -> match_whole r s = Some new.
Proof. intros H. unfold match_whole. rewrite <- (app_nil_r s) at 1. apply H. by rewrite app_nil_r. Qed.
Lemma match_here_takes r w new rest prev :
  takes r w new rest -> match_here r prev (w ++ rest) = Some (new, ends prev w, rest).
Proof. intros H. unfold match_here. apply H. by rewrite app_nil_r. Qed.
Lemma match_here_fails r prev s : fails r s -> match_here r prev s = None.
Proof. intros H. apply H. Qed.
Lemma match_whole_fails r s : fails r s -> match_whole r s = None.
Proof. intros H. apply H. Qed.

(** A pattern none of whose classes holds [c]. *)
Fixpoint avoids (c : N) (r : pattern) : bool :=
  match r with
  | P_empty | P_boundary => true
  | P_char p => negb (p c)
  | P_seq a b | P_alt a b => avoids c a && avoids c b
  | P_opt a | P_star a | P_group _ a => avoids c a
  end.
Lemma lang_avoids c r w : avoids c r = true -> lang r w -> c ∉ w.
Proof.
  intros Hf H. induction H as [|p d Hd| |a b u v _ IH1 _ IH2|a b w _ IH|a b w _ IH|a|a w _ IH|a|a u v _ IH1 _ IH2|n a w _ IH];
    cbn in Hf; try (by apply not_elem_of_nil); try (apply andb_true_iff in Hf as [H1 H2]); auto.
  - rewrite list_elem_of_singleton. intros ->. by rewrite Hd in Hf.
  - rewrite elem_of_app. intros [?|?]; [by apply IH1 | by apply IH2].
  - rewrite elem_of_app. intros [?|?]; [by apply IH1 | by apply IH2].
Qed.

Lemma lang_seq_inv a b s : lang (P_seq a b) s -> exists u v, s = u ++ v /\ lang a u /\ lang b v.
Proof. inversion 1; subst; eauto. Qed.
Lemma lang_one_inv c s : lang (P_one c) s -> s = [c].
Proof. inversion 1 as [|p d Hd| | | | | | | | |]; subst. by apply N.eqb_eq in Hd as ->. Qed.
Lemma lang_group_inv n a s : lang (P_group n a) s -> lang a s.
Proof. by inversion 1. Qed.
Lemma lang_empty_inv s : lang P_empty s -> s = [].
Proof. by inversion 1. Qed.
Lemma lang_text_inv w s : lang (P_text w) s -> s = w.
Proof.
  revert s. induction w as [|c w IH]; intros s H; cbn in H; [by apply lang_empty_inv|].
  apply lang_seq_inv in H as (u & v & -> & ->%lang_one_inv & ->%IH). done.
Qed.
Lemma lang_class_inv p s : lang (P_star (P_char p)) s -> forallb p s = true.
Proof.
  remember (P_star (P_char p)) as r eqn:E. intros H. induction H as [| | | | | | | | |a u v Hu _ Hv IH|]; try done.
  injection E as ->. inversion Hu; subst. cbn. match goal with H : p _ = true |- _ => rewrite H end. auto.
Qed.

(** * Sequences of patterns *)

(** A sequence with the text and the captures of each of its members. *)
Record step := Step { st_pattern : pattern; st_text : str; st_new : captures }.
Definition steps_text (l : list step) : str := concat (map st_text l).
Fixpoint steps_new (l : list step) : captures :=
  match l with
  | [] => []
  | a :: l' => steps_new l' ++ st_new a
  end.
Fixpoint steps_take (l : list step) (rest : str) : Prop :=
  match l with
  | [] => True
  | a :: l' => takes (st_pattern a) (st_text a) (st_new a) (steps_text l' ++ rest) /\ steps_take l' rest
  end.

Lemma takes_all l rest : steps_take l rest -> takes (P_all (map st_pattern l)) (steps_text l) (steps_new l) rest.
Proof.
  induction l as [|a l IH]; cbn; [intros _; apply takes_empty|]. intros [Ha Hl].
  apply takes_seq; [exact Ha | by apply IH].
Qed.

(** The same for a given pattern, text and captures. *)
Lemma takes_steps l r w new rest :
  steps_take l rest -> r = P_all (map st_pattern l) -> w = steps_text l -> new = steps_new l -> takes r w new rest.
Proof. intros H -> -> ->. by apply takes_all. Qed.

Lemma takes_all_app l1 l2 u v new1 new2 rest :
  takes (P_all l1) u new1 (v ++ rest) -> takes (P_all l2) v new2 rest ->
  takes (P_all (l1 ++ l2)) (u ++ v) (new2 ++ new1) rest.
Proof.
  intros H1 H2 R k prev caps x H. rewrite <- app_assoc.
  assert (forall l prev s caps, run (P_all (l ++ l2)) k prev s caps = run (P_all l) (run (P_all l2) k) prev s caps) as E.
  { clear. induction l as [|a l IH]; intros prev s caps; [done|]. cbn [app P_all run].
    enough (forall k1 k2 : continuation, (forall p s c, k1 p s c = k2 p s c) -> forall r p s c, run r k1 p s c = run r k2 p s c) as Hext
      by (by apply Hext).
    clear. intros k1 k2 Hk r. revert k1 k2 Hk.
    induction r as [| p | |a IHa b IHb|a IHa b IHb|a IHa|a IHa|n a IHa]; intros k1 k2 Hk prev s caps; cbn [run]; auto.
    - by destruct s as [|c s]; [|destruct (p c)].
    - by destruct (xorb _ _).
    - by rewrite (IHa _ _ Hk), (IHb _ _ Hk).
    - rewrite Hk. erewrite IHa; [done|]. intros; cbn beta. by destruct (_ =? _)%nat.
    - generalize (length s) as n. intros n. revert prev s caps. induction n as [|n IHn]; intros prev s caps; cbn [rounds]; [done|].
      rewrite Hk. erewrite IHa; [done|]. intros; cbn beta. destruct (_ =? _)%nat; [done | apply IHn]. }
  rewrite E. apply H1. apply H2. by rewrite <- ends_app, app_assoc.
Qed.
