(* ===== verification/TierExpr.v ===== *)
(** The visual tier editor (features/pricing/lib/tier-expr.ts): tiers of token and fixed
    prices, their normal form, the expression written for them and the reader that
    recognises such expressions with regular expressions. *)

From S2P Require Import Prelude JsString JsNumber JsValue JsJson BillingTypes BillingExpr JsPattern.

(** * Data *)

Inductive cache_mode : Type := Mode_timed | Mode_generic.

(** [TierConditionInput]; the value may be missing. *)
Inductive condition_value : Type :=
| CV_number (x : number)
| CV_string (s : str)
| CV_missing.
Record tier_condition := TierCondition {
  ci_var : str;
  ci_op : str;
  ci_value : condition_value;
}.

Inductive visual_unit : Type := Visual_token | Visual_request.

(** [Partial<VisualTier>]: absent properties are [None]; [vt_costs] holds the numeric
    properties (fixed_price, input_unit_cost and the others) by name. *)
Record visual_tier := VisualTier {
  vt_label : option str;
  vt_conditions : option (list tier_condition);
  vt_billing_unit : option visual_unit;
  vt_cache_mode : option cache_mode;
  vt_costs : list (str * number);
}.

(** [Number(value) || 0] *)
Definition number_or_zero (x : option number) : number :=
  match x with
  | Some x => if n_eqb x x && negb (n_eqb x n_zero) then x else n_zero
  | None => n_zero
  end.
Definition cost (tier : visual_tier) (field : str) : number := number_or_zero (obj_get field (vt_costs tier)).

(** * Normal form *)

Definition getTierCacheMode (tier : visual_tier) : cache_mode :=
  match vt_cache_mode tier with
  | Some mode => mode
  | None =>
      match obj_get (js "cache_create_1h_unit_cost") (vt_costs tier) with
      | Some x => if n_ltb n_zero x then Mode_timed else Mode_generic
      | None => Mode_generic
      end
  end.

(** The numeric properties before the spread [...tier], and those after it. *)
Definition leading_costs : list str := [js "fixed_price"; js "input_unit_cost"; js "output_unit_cost"].
Definition normalized_costs : list str :=
  [js "cache_read_unit_cost"; js "cache_create_unit_cost"; js "cache_create_1h_unit_cost";
   js "cache_create_12h_unit_cost"; js "image_unit_cost"; js "image_output_unit_cost";
   js "audio_input_unit_cost"; js "audio_output_unit_cost"].

Definition spread_costs (o entries : list (str * number)) : list (str * number) :=
  fold_left (fun o e => obj_set e.1 e.2 o) entries o.

Definition normalizeVisualTier (tier : visual_tier) : visual_tier :=
  VisualTier
    (Some (default [] (vt_label tier)))
    (Some (default [] (vt_conditions tier)))
    (Some (default Visual_token (vt_billing_unit tier)))
    (Some (getTierCacheMode tier))
    (spread_costs
       (spread_costs (map (fun field => (field, cost tier field)) leading_costs) (vt_costs tier))
       (map (fun field => (field, cost tier field)) normalized_costs)).

Definition createDefaultVisualConfig : list visual_tier :=
  [normalizeVisualTier
     (VisualTier (Some (js "base")) (Some []) None (Some Mode_generic)
        [(js "input_unit_cost", n_zero); (js "output_unit_cost", n_zero)])].

Definition normalizeVisualConfig (config : option (list visual_tier)) : list visual_tier :=
  match config with
  | None | Some [] => createDefaultVisualConfig
  | Some tiers => map normalizeVisualTier tiers
  end.

(** * Writing *)

Definition value_text (v : condition_value) : str :=
  match v with
  | CV_number x => string_of_number x
  | CV_string s => s
  | CV_missing => js "undefined"
  end.
Definition complete_condition (c : tier_condition) : bool :=
  bool_decide (ci_var c <> []) && bool_decide (ci_op c <> []) &&
  match ci_value c with CV_missing | CV_string [] => false | _ => true end.
Definition condition_text (c : tier_condition) : str :=
  ci_var c ++ js " " ++ ci_op c ++ js " " ++ value_text (ci_value c).
Definition buildConditionStr (conditions : option (list tier_condition)) : str :=
  join (js " && ") (map condition_text (List.filter complete_condition (default [] conditions))).

Definition price_text (variable : str) (price : number) : str :=
  variable ++ js " * " ++ string_of_number price.
Definition extra_terms (tier : visual_tier) : list str :=
  flat_map (fun e => let v := cost tier e.1 in if n_eqb v n_zero then [] else [price_text e.2 v])
    BILLING_CACHE_VAR_MAP.
Definition buildTierBodyExpr (tier : visual_tier) : str :=
  match vt_billing_unit tier with
  | Some Visual_request => js "fixed(" ++ string_of_number (cost tier (js "fixed_price")) ++ js ")"
  | _ =>
      join (js " + ")
        ([price_text (js "p") (cost tier (js "input_unit_cost"));
          price_text (js "c") (cost tier (js "output_unit_cost"))] ++ extra_terms tier)
  end.

(** The call of [tier] with a quoted label and a body; the label is inserted as it is. *)
Definition tier_call (label : str) (tier : visual_tier) : str :=
  js "tier(" ++ [dquote] ++ label ++ [dquote] ++ js ", " ++ buildTierBodyExpr tier ++ js ")".
Definition label_or (fallback : str) (tier : visual_tier) : str :=
  match vt_label tier with Some (c :: l) => c :: l | _ => fallback end.

Definition empty_price : str := js "p * 0 + c * 0".

(** The part of the tier at an index of several. *)
Definition tier_part (count index : nat) (tier : visual_tier) : str :=
  let body := tier_call (label_or (js "tier_" ++ string_of_Z (Z.of_nat (index + 1))) tier) tier in
  match buildConditionStr (vt_conditions tier) with
  | [] => body
  | cond => if bool_decide (index < count - 1) then cond ++ js " ? " ++ body else body
  end.

Definition generateExprFromVisualConfig (config : option (list visual_tier)) : str :=
  match config with
  | None | Some [] => empty_price
  | Some [tier] =>
      let body := tier_call (label_or (js "default") tier) tier in
      match buildConditionStr (vt_conditions tier) with
      | [] => body
      | cond => cond ++ js " ? " ++ body ++ js " : " ++ empty_price
      end
  | Some tiers => join (js " : ") (imap (tier_part (length tiers)) tiers)
  end.

(** * Reading *)

(** [[\d.eE+-]] and [[\d.eE+]] *)
Definition number_char (c : N) : bool :=
  is_digit c || (c =? 46)%N || (c =? 101)%N || (c =? 69)%N || (c =? 43)%N || (c =? 45)%N.
Definition bound_char (c : N) : bool :=
  is_digit c || (c =? 46)%N || (c =? 101)%N || (c =? 69)%N || (c =? 43)%N.
Definition number_pattern : pattern := P_plus (P_char number_char).
Definition bound_pattern : pattern := P_plus (P_char bound_char).

(** [/^v\d+:([\s\S]* )$/] *)
Definition version_pattern : pattern :=
  P_all [P_one 118; P_plus (P_char is_digit); P_one 58; P_group 1 (P_star (P_char (fun _ => true)))].

(** [\s*\*\s*([\d.eE+-]+)] after the name of a variable. *)
Definition priced_pattern (variable : str) (group : nat) : pattern :=
  P_all [P_text variable; P_ws; P_one 42; P_ws; P_group group number_pattern].
(** [(?:\s*\+\s*name\s*\*\s*([\d.eE+-]+))?] for each further variable. *)
Definition optional_pattern (group : nat) (variable : str) : pattern :=
  P_opt (P_all [P_ws; P_one 43; P_ws; priced_pattern variable group]).
Definition body_pattern (group : nat) : pattern :=
  P_all ([priced_pattern (js "p") group; P_ws; P_one 43; P_ws; priced_pattern (js "c") (S group)] ++
         imap (fun i e => optional_pattern (group + 2 + i) e.2) BILLING_CACHE_VAR_MAP).

(** The opening of a tier call up to its body; the label is anything but a quote. *)
Definition opening_pattern (group : nat) : pattern :=
  P_all [P_text (js "tier("); P_one dquote; P_group group (P_star (P_char (fun c => negb (c =? dquote)%N)));
         P_one dquote; P_one 44; P_ws].
Definition fixed_body (number : pattern) : pattern :=
  P_all [P_text (js "fixed("); P_ws; number; P_ws; P_one 41].

Definition fixed_pattern : pattern :=
  P_all [opening_pattern 1; fixed_body (P_group 2 number_pattern); P_one 41].
Definition single_pattern : pattern :=
  P_all [opening_pattern 1; body_pattern 2; P_one 41].

Definition variable_pattern : pattern := P_any [P_text (js "p"); P_text (js "c"); P_text (js "len")].
Definition comparison_pattern : pattern :=
  P_any [P_text (js "<"); P_text (js "<="); P_text (js ">"); P_text (js ">=")].
Definition bound_condition : pattern :=
  P_all [variable_pattern; P_ws; comparison_pattern; P_ws; bound_pattern].
Definition conjunction_pattern : pattern := P_all [P_ws; P_text (js "&&"); P_ws].
Definition condition_group : pattern :=
  P_group 1 (P_all [bound_condition; P_star (P_all [conjunction_pattern; bound_condition])]).
Definition tier_pattern : pattern :=
  P_all [P_opt (P_all [condition_group; P_ws; P_one 63; P_ws]);
         opening_pattern 2;
         P_group 3 (P_alt (fixed_body number_pattern) (body_pattern 4));
         P_one 41].

(** One conjunct, with its three parts captured. *)
Definition conjunct_pattern : pattern :=
  P_all [P_group 1 variable_pattern; P_ws; P_group 2 comparison_pattern; P_ws; P_group 3 bound_pattern].
(** [/^fixed\(\s*([+-]?(?:\d+\.?\d*|\.\d+)(?:[eE][+-]?\d+)?)\s*\)$/] *)
Definition sign_pattern : pattern := P_opt (P_char (fun c => (c =? 43) || (c =? 45))%N).
Definition digits_pattern : pattern := P_plus (P_char is_digit).
Definition decimal_pattern : pattern :=
  P_all [sign_pattern;
         P_alt (P_all [digits_pattern; P_opt (P_one 46); P_star (P_char is_digit)]) (P_all [P_one 46; digits_pattern]);
         P_opt (P_all [P_char (fun c => (c =? 101) || (c =? 69))%N; sign_pattern; digits_pattern])].
Definition fixed_amount_pattern : pattern := fixed_body (P_group 1 decimal_pattern).

(** [Number(m[n])], NaN for a group that took no part. *)
Definition captured_number (n : nat) (caps : captures) : number :=
  match capture n caps with Some s => number_of_string s | None => n_nan end.

(** [BILLING_CACHE_VAR_MAP.forEach((cv, i) => ...)]: the prices that were captured. *)
Definition captured_extras (group : nat) (caps : captures) : list (str * number) :=
  concat (imap (fun i e => match capture (group + i) caps with
                           | Some s => [(e.1, number_of_string s)]
                           | None => []
                           end) BILLING_CACHE_VAR_MAP).

Definition read_conjunct (text : str) : option tier_condition :=
  caps ← match_whole conjunct_pattern (trim text);
  Some (TierCondition (default [] (capture 1 caps)) (default [] (capture 2 caps))
          (CV_number (captured_number 3 caps))).
Definition read_conditions (text : str) : list tier_condition :=
  match text with
  | [] => []
  | _ => omap read_conjunct (split_pattern conjunction_pattern text)
  end.

(** The body of the loop over the matches of [tierRe]. *)
Definition read_match (caps : captures) : visual_tier :=
  let amount := match_whole fixed_amount_pattern (default [] (capture 3 caps)) in
  let unless_fixed := fun x => match amount with Some _ => n_zero | None => x end in
  normalizeVisualTier
    (VisualTier (capture 2 caps) (Some (read_conditions (default [] (capture 1 caps))))
       (Some (match amount with Some _ => Visual_request | None => Visual_token end)) None
       (spread_costs
          [(js "fixed_price", match amount with Some fixed => captured_number 1 fixed | None => n_zero end);
           (js "input_unit_cost", unless_fixed (captured_number 4 caps));
           (js "output_unit_cost", unless_fixed (captured_number 5 caps))]
          (captured_extras 6 caps))).

Definition without_space (s : str) : str := List.filter (fun c => negb (is_space c)) s.

Definition tryParseVisualConfig (exprStr : str) : option (list visual_tier) :=
  match exprStr with
  | [] => None
  | _ =>
      let body := match match_whole version_pattern exprStr with
                  | Some caps => default [] (capture 1 caps)
                  | None => exprStr
                  end in
      match match_whole fixed_pattern body with
      | Some caps =>
          Some (normalizeVisualConfig (Some [normalizeVisualTier
            (VisualTier (capture 1 caps) (Some []) (Some Visual_request) None
               [(js "fixed_price", captured_number 2 caps)])]))
      | None =>
          match match_whole single_pattern body with
          | Some caps =>
              Some (normalizeVisualConfig (Some [normalizeVisualTier
                (VisualTier (capture 1 caps) (Some []) None None
                   (spread_costs [(js "input_unit_cost", captured_number 2 caps);
                                  (js "output_unit_cost", captured_number 3 caps)]
                      (captured_extras 4 caps)))]))
          | None =>
              match map read_match (all_matches tier_pattern body) with
              | [] => None
              | tiers =>
                  let cfg := normalizeVisualConfig (Some tiers) in
                  if bool_decide (without_space (generateExprFromVisualConfig (Some cfg)) = without_space body)
                  then Some cfg else None
              end
          end
      end
  end.

(** * Variables of the estimator *)

Definition ESTIMATOR_VARS : list (str * str) :=
  [(js "cr", js "cacheReadTokens"); (js "cc", js "cacheCreateTokens"); (js "cc1h", js "cacheCreate1hTokens");
   (js "cc12h", js "cacheCreate12hTokens"); (js "img", js "imageTokens"); (js "img_o", js "imageOutputTokens");
   (js "ai", js "audioInputTokens"); (js "ao", js "audioOutputTokens")].

(** [new RegExp(`\\b(${varNames})\\b`).test(exprStr)] *)
Definition exprUsesExtraVars (exprStr : str) : bool :=
  match exprStr with
  | [] => false
  | _ => occurs (P_all [P_boundary; P_group 1 (P_any (map (fun e => P_text e.1) ESTIMATOR_VARS)); P_boundary]) exprStr
  end.

(** * Samples *)

Definition sample_tier (label : str) (conditions : list tier_condition) (costs : list (str * number)) : visual_tier :=
  VisualTier (Some label) (Some conditions) None None costs.
Definition sample_config : list visual_tier :=
  map normalizeVisualTier
    [sample_tier (js "short") [TierCondition (js "len") (js "<=") (CV_number (n_of_Z 200000));
                               TierCondition (js "c") (js ">") (CV_number n_zero)]
       [(js "input_unit_cost", n_of_Z 3); (js "output_unit_cost", n_of_Z 15); (js "cache_read_unit_cost", number_of_literal (js "0.3"))];
     VisualTier (Some (js "image")) (Some [TierCondition (js "p") (js "<") (CV_number n_one)]) (Some Visual_request) None
       [(js "fixed_price", number_of_literal (js "0.04"))];
     sample_tier (js "long") [] [(js "input_unit_cost", n_of_Z 6); (js "output_unit_cost", number_of_literal (js "22.5"));
        (js "image_cache_unit_cost", n_of_Z 1); (js "audio_output_unit_cost", n_of_Z 7)]].

Definition quoted (s : str) : str := [dquote] ++ s ++ [dquote].
Example sample_text :
  generateExprFromVisualConfig (Some sample_config) =
  js "len <= 200000 && c > 0 ? tier(" ++ quoted (js "short") ++ js ", p * 3 + c * 15 + cr * 0.3) : p < 1 ? tier(" ++
  quoted (js "image") ++ js ", fixed(0.04)) : tier(" ++ quoted (js "long") ++
  js ", p * 6 + c * 22.5 + img_cr * 1 + ao * 7)".
Proof. vm_compute. reflexivity. Qed.
