(* ===== verification/TierExprFacts.v ===== *)
(** Facts about the patterns of the visual tier editor: what they take in the texts the
    editor writes. *)

From S2P Require Import Prelude JsString JsNumber JsValue JsJson BillingTypes BillingParserFacts BillingExpr BillingPrinting JsPattern TierExpr.

(** * Numbers *)

Definition digits (s : str) : Prop := s <> [] /\ forallb is_digit s = true.

Inductive mantissa : str -> Prop :=
| mantissa_integer ds : digits ds -> mantissa ds
| mantissa_point ds fs : digits ds -> forallb is_digit fs = true -> mantissa (ds ++ 46%N :: fs)
| mantissa_fraction fs : digits fs -> mantissa (46%N :: fs).
Inductive exponent : str -> Prop :=
| exponent_none : exponent []
| exponent_some e sign ds : (e = 101 \/ e = 69)%N -> sign ∈ [[]; [43%N]; [45%N]] -> digits ds -> exponent (e :: sign ++ ds).

Lemma sign_cases (sign : str) : sign ∈ [[]; [43%N]; [45%N]] -> sign = [] \/ sign = [43%N] \/ sign = [45%N].
Proof. set_solver. Qed.
Lemma while_digits s : forallb is_digit (take_while is_digit s) = true.
Proof. apply forallb_forall. intros c Hc. pose proof (take_while_all is_digit s) as H. rewrite Forall_forall in H. by apply H, list_elem_of_In. Qed.
Lemma digits_while s : take_while is_digit s <> [] -> digits (take_while is_digit s).
Proof. intros H. split; [done | apply while_digits]. Qed.

Lemma match_exponent_shape s : match_exponent s = length s -> exponent s.
Proof.
  unfold match_exponent. destruct s as [|c r]; [constructor|]. destruct ((c =? 101) || (c =? 69))%N eqn:Hc; [|done].
  assert (c = 101 \/ c = 69)%N as Hc' by (apply orb_true_iff in Hc as [?%N.eqb_eq|?%N.eqb_eq]; auto). clear Hc.
  assert (forall sign r', sign ∈ [[]; [43%N]; [45%N]] -> r = sign ++ r' ->
    (if bool_decide (length (take_while is_digit r') = 0) then 0 else 1 + length sign + length (take_while is_digit r')) = length (c :: r) ->
    exponent (c :: r)) as H.
  { intros sign r' Hs -> H. case_bool_decide as Hn; [done|]. cbn [length] in H. rewrite length_app in H.
    pose proof (take_drop_while is_digit r') as E. assert (drop_while is_digit r' = []) as E0.
    { apply nil_length_inv. apply (f_equal length) in E. rewrite length_app in E. lia. }
    rewrite E0, app_nil_r in E. constructor; [done | done|]. rewrite <- E. apply digits_while. intros E'. by rewrite E' in Hn. }
  destruct r as [|g r']; [done|]. destruct (N.eqb_spec g 43) as [->|]; [intros; apply (H [43%N] r'); [set_solver | done | done]|].
  destruct (N.eqb_spec g 45) as [->|]; cbn [orb]; intros; [apply (H [45%N] r'); [set_solver | done | done]|].
  apply (H [] (g :: r')); [set_solver | done | done].
Qed.

Lemma match_number_shape s : match_number s = Some (length s) -> exists m ex, s = m ++ ex /\ mantissa m /\ exponent ex.
Proof.
  unfold match_number. pose proof (take_drop_while is_digit s) as E.
  destruct (bool_decide (length (take_while is_digit s) = 0)) eqn:Hn; breflect.
  - apply nil_length_inv in Hn. rewrite Hn in E. cbn [app] in E. rewrite E. destruct s as [|c r]; [done|].
    destruct (N.eqb_spec c 46) as [->|]; [|done]. cbn [andb]. pose proof (take_drop_while is_digit r) as Er.
    case_bool_decide as Hm; [|done]. intros [= H]. exists (46%N :: take_while is_digit r), (drop_while is_digit r).
    split; [by cbn; rewrite Er|]. split; [constructor; apply digits_while; intros E'; by rewrite E' in Hm|].
    apply match_exponent_shape. apply (f_equal length) in Er. rewrite length_app in Er. lia.
  - assert (digits (take_while is_digit s)) as Hd by (apply digits_while; intros E'; by rewrite E' in Hn).
    destruct (drop_while is_digit s) as [|c r] eqn:Er.
    + intros _. exists s, []. rewrite app_nil_r in E. split; [by rewrite app_nil_r|]. split; [constructor; by rewrite E in Hd | constructor].
    + destruct (N.eqb_spec c 46) as [->|]; intros H%(inj Some).
      * pose proof (take_drop_while is_digit r) as Er'.
        exists (take_while is_digit s ++ 46%N :: take_while is_digit r), (drop_while is_digit r). split.
        { rewrite <- app_assoc. cbn. by rewrite Er', E. }
        split; [constructor; [done | apply while_digits]|]. apply match_exponent_shape.
        apply (f_equal length) in Er', E. rewrite length_app in Er', E. cbn [length] in E. lia.
      * exists (take_while is_digit s), (c :: r). split; [done|]. split; [by constructor|]. apply match_exponent_shape.
        apply (f_equal length) in E. rewrite length_app in E. lia.
Qed.

Lemma digit_number_char c : is_digit c = true -> number_char c = true.
Proof. unfold number_char. by intros ->. Qed.
Lemma digits_number_chars s : forallb is_digit s = true -> forallb number_char s = true.
Proof. rewrite !forallb_forall. intros H c Hc. by apply digit_number_char, H. Qed.

Lemma number_chars m ex : mantissa m -> exponent ex -> forallb number_char (m ++ ex) = true.
Proof.
  intros Hm He. rewrite forallb_app, andb_true_iff. split.
  - destruct Hm as [ds [_ H]|ds fs [_ H] H'|fs [_ H]]; [by apply digits_number_chars | |].
    + rewrite forallb_app. cbn. by rewrite !digits_number_chars.
    + cbn. by apply digits_number_chars.
  - destruct He as [|e sign ds He Hs [_ Hd]]; [done|]. cbn [forallb]. rewrite forallb_app, (digits_number_chars ds) by done.
    rewrite andb_true_r. apply andb_true_iff. split; [by destruct He as [-> | ->]|].
    by apply sign_cases in Hs as [->|[->| ->]].
Qed.

(** The first character of a mantissa. *)
Lemma mantissa_head m : mantissa m -> exists c r, m = c :: r /\ (is_digit c = true \/ c = 46%N).
Proof.
  intros [ds [H Hd]|ds fs [H Hd] _|fs _]; [| |by exists 46%N, fs; auto].
  all: destruct ds as [|c ds]; [done|]; cbn in Hd; apply andb_true_iff in Hd as [Hd _]; exists c; eauto.
Qed.

Lemma number_char_not_space c : number_char c = true -> is_space c = false.
Proof.
  unfold number_char. rewrite !orb_true_iff. intros [[[[[H|H]|H]|H]|H]|H]; [by apply digit_not_space|..];
    apply N.eqb_eq in H as ->; done.
Qed.

Lemma space_free_trim s : forallb (fun c => negb (is_space c)) s = true -> trim s = s.
Proof.
  intros H. rewrite forallb_forall in H. apply trimmed_trim. split.
  - destruct s as [|c s]; [done|]. specialize (H c (or_introl eq_refl)). by destruct (is_space c).
  - destruct (reverse s) as [|c r] eqn:E; [done|]. assert (c ∈ s) as Hc by (rewrite <- (reverse_involutive s), E, elem_of_reverse; left).
    apply list_elem_of_In, H in Hc. by destruct (is_space c).
Qed.

Lemma number_chars_trim s : forallb number_char s = true -> trim s = s.
Proof.
  intros H. apply space_free_trim. rewrite forallb_forall in *. intros c Hc. by rewrite number_char_not_space by auto.
Qed.

(** [Number] of a decimal literal. *)
Lemma number_of_digits s :
  match_number s = Some (length s) -> number_of_string s = number_of_literal s.
Proof.
  intros Hs. pose proof (match_number_shape s Hs) as (m & ex & E & Hm & He). pose proof (number_chars m ex Hm He) as Hc.
  rewrite <- E in Hc. unfold number_of_string. rewrite number_chars_trim by done.
  destruct (mantissa_head m Hm) as (c & r & -> & Hhead). cbn [app] in E. destruct s as [|c' t]; [done|]. injection E as -> Et.
  assert (number_of_unsigned (c :: t) = number_of_literal (c :: t)) as Hu.
  { unfold number_of_unsigned. rewrite bool_decide_eq_false_2 by (intros [= ->]; by destruct Hhead).
    by rewrite bool_decide_eq_true_2. }
  assert (c <> 45 /\ c <> 43)%N as [H1 H2] by (split; intros ->; by destruct Hhead).
  apply N.eqb_neq in H1, H2. rewrite H1, H2. case_bool_decide as Hz; [|done]. subst c.
  destruct t as [|d ds]; [done|]. cbn [forallb] in Hc. apply andb_true_iff in Hc as [_ Hc]. apply andb_true_iff in Hc as [Hd _].
  assert (forall n, number_char n = false -> (d =? n)%N = false) as Hne by (intros n Hn; apply N.eqb_neq; intros ->; congruence).
  by rewrite !Hne.
Qed.

Section decimals.
Variable rest : str.
Hypothesis Hrest : head_not number_char rest.

Lemma rest_not (p : N -> bool) : (forall c, p c = true -> number_char c = true) -> head_not p rest.
Proof.
  intros H. destruct rest as [|c r]; [done|]. cbn in *. destruct (p c) eqn:E; [|done]. apply H in E. congruence.
Qed.

Lemma exponent_head ex (p : N -> bool) :
  exponent ex -> p 101%N = false -> p 69%N = false -> (forall c, p c = true -> number_char c = true) -> head_not p (ex ++ rest).
Proof. intros [|e sign ds He _ _] H1 H2 Hp; [by apply rest_not | by destruct He as [-> | ->]]. Qed.

Lemma takes_sign sign : sign ∈ [[]; [43%N]; [45%N]] -> forall after, head_not (fun c => (c =? 43) || (c =? 45))%N after ->
  takes sign_pattern sign [] after.
Proof.
  intros Hs after Ha. unfold sign_pattern. apply sign_cases in Hs as [->|[->| ->]]; [by apply takes_opt_none, fails_char|..].
  all: apply takes_opt; [done | by apply takes_char].
Qed.

Lemma takes_digits ds after : digits ds -> head_not is_digit after -> takes digits_pattern ds [] after.
Proof. intros [H Hd] Ha. by apply takes_plus. Qed.

Lemma digits_not_sign ds after : digits ds -> head_not (fun c => (c =? 43) || (c =? 45))%N (ds ++ after).
Proof.
  intros [H Hd]. destruct ds as [|c ds]; [done|]. cbn in *. apply andb_true_iff in Hd as [Hd _].
  destruct (N.eqb_spec c 43) as [->|]; [done|]. by destruct (N.eqb_spec c 45) as [->|].
Qed.

Lemma takes_exponent ex : exponent ex ->
  takes (P_opt (P_all [P_char (fun c => (c =? 101) || (c =? 69))%N; sign_pattern; digits_pattern])) ex [] rest.
Proof.
  intros [|e sign ds He Hs Hd].
  - apply takes_opt_none, fails_seq, fails_char, rest_not. intros c [->%N.eqb_eq | ->%N.eqb_eq]%orb_true_iff; done.
  - apply takes_opt; [done|].
    eapply (takes_steps [Step _ [e] []; Step _ sign []; Step _ ds []]); [|reflexivity | by unfold steps_text; cbn; rewrite app_nil_r | reflexivity].
    cbn. unfold steps_text; cbn; rewrite ?app_nil_r. split; [apply takes_char; by destruct He as [-> | ->]|].
    split; [by apply takes_sign, digits_not_sign | split; [|done]]. apply takes_digits; [done|]. apply rest_not, digit_number_char.
Qed.

Lemma takes_mantissa m ex : mantissa m -> exponent ex ->
  takes (P_alt (P_all [digits_pattern; P_opt (P_one 46); P_star (P_char is_digit)]) (P_all [P_one 46; digits_pattern])) m [] (ex ++ rest).
Proof.
  intros Hm He.
  assert (head_not is_digit (ex ++ rest)) as Hd by (apply exponent_head; [done.. | apply digit_number_char]).
  assert (head_not (fun c => c =? 46)%N (ex ++ rest)) as Hp by (apply exponent_head; [done.. | by intros c ->%N.eqb_eq]).
  destruct Hm as [ds Hds|ds fs Hds Hfs|fs Hfs].
  - apply takes_alt_left.
    eapply (takes_steps [Step _ ds []; Step _ [] []; Step _ [] []]); [|reflexivity | by unfold steps_text; cbn; rewrite app_nil_r | reflexivity].
    cbn. split; [by apply takes_digits|]. split; [by apply takes_opt_none, fails_one|]. split; [by apply takes_class | done].
  - apply takes_alt_left.
    eapply (takes_steps [Step _ ds []; Step _ [46%N] []; Step _ fs []]); [|reflexivity | by unfold steps_text; cbn; rewrite app_nil_r | reflexivity].
    cbn. split; [by apply takes_digits|]. split; [apply takes_opt; [done | apply takes_one]|]. split; [by apply takes_class | done].
  - apply takes_alt_right; [by apply fails_seq, fails_seq, fails_char|].
    eapply (takes_steps [Step _ [46%N] []; Step _ fs []]); [|reflexivity | by unfold steps_text; cbn; rewrite app_nil_r | reflexivity].
    cbn. split; [apply takes_one|]. split; [by apply takes_digits | done].
Qed.

Lemma takes_decimal s : match_number s = Some (length s) -> takes decimal_pattern s [] rest.
Proof.
  intros (m & ex & -> & Hm & He)%match_number_shape.
  eapply (takes_steps [Step _ [] []; Step _ m []; Step _ ex []]); [|reflexivity | by unfold steps_text; cbn; rewrite app_nil_r | reflexivity].
  cbn. unfold steps_text; cbn; rewrite ?app_nil_r. split; [|split; [by apply takes_mantissa | split; [by apply takes_exponent | done]]].
  apply takes_sign; [left|]. destruct (mantissa_head m Hm) as (c & r & -> & [Hc| ->]); [|done].
  cbn. destruct (N.eqb_spec c 43) as [->|]; [done|]. by destruct (N.eqb_spec c 45) as [->|].
Qed.
End decimals.

Lemma number_text x (s := string_of_number x) : number_prints x = true ->
  s <> [] /\ forallb number_char s = true /\ number_of_string s = x /\ match_number s = Some (length s).
Proof.
  unfold number_prints. fold s. intros H. breflect. rename H into Hm. split; [by intros E; rewrite E in Hm|].
  split; [|split; [rewrite number_of_digits; done | done]].
  apply match_number_shape in Hm as (m & ex & -> & ? & ?). by apply number_chars.
Qed.

(** * Bodies *)

(** Steps of a sequence, one goal per member. *)
Ltac take_steps l := eapply (takes_steps l);
  [cbn [steps_take st_pattern st_text st_new]; unfold steps_text; cbn [map concat st_text]; rewrite ?app_nil_r; repeat split
  |reflexivity
  |unfold steps_text; cbn [map concat st_text]; rewrite ?app_nil_r; cbn; rewrite <- ?app_assoc; try done
  |cbn; rewrite ?app_nil_r; try reflexivity].

Lemma takes_space rest : head_not is_space rest -> takes P_ws [32%N] [] rest.
Proof. by apply takes_ws. Qed.

(** What may follow a price: a space or a closing parenthesis. *)
Definition closing (s : str) : Prop := match s with c :: _ => c = 32%N \/ c = 41%N | [] => False end.
Lemma closing_not_number s : closing s -> head_not number_char s.
Proof. by destruct s as [|c s]; [|intros [-> | ->]]. Qed.

Lemma number_text_head x rest : number_prints x = true -> head_not is_space (string_of_number x ++ rest).
Proof.
  intros (Hne & Hc & _)%number_text. destruct (string_of_number x) as [|c s]; [done|]. cbn in *.
  apply andb_true_iff in Hc as [Hc _]. by apply number_char_not_space.
Qed.

Lemma takes_number_group g x rest :
  number_prints x = true -> closing rest -> takes (P_group g number_pattern) (string_of_number x) [(g, string_of_number x)] rest.
Proof.
  intros Hx Hr. apply takes_group. apply number_text in Hx as (Hne & Hc & _). apply takes_plus; [done | done |].
  by apply closing_not_number.
Qed.

Lemma takes_priced v g x rest :
  number_prints x = true -> closing rest -> takes (priced_pattern v g) (price_text v x) [(g, string_of_number x)] rest.
Proof.
  intros Hx Hr.
  take_steps [Step (P_text v) v []; Step P_ws [32%N] []; Step (P_one 42) [42%N] []; Step P_ws [32%N] [];
              Step (P_group g number_pattern) (string_of_number x) [(g, string_of_number x)]].
  - apply takes_text.
  - by apply takes_space.
  - apply takes_one.
  - by apply takes_space, number_text_head.
  - by apply takes_number_group.
Qed.

Definition name_start (v : str) : Prop := match v with c :: _ => is_space c = false | [] => False end.
Lemma name_start_head v rest : name_start v -> head_not is_space (v ++ rest).
Proof. by destruct v. Qed.

Lemma takes_optional v g x rest :
  name_start v -> number_prints x = true -> closing rest ->
  takes (optional_pattern g v) (js " + " ++ price_text v x) [(g, string_of_number x)] rest.
Proof.
  intros Hv Hx Hr. apply takes_opt; [done|].
  take_steps [Step P_ws [32%N] []; Step (P_one 43) [43%N] []; Step P_ws [32%N] [];
              Step (priced_pattern v g) (price_text v x) [(g, string_of_number x)]].
  - by apply takes_space.
  - apply takes_one.
  - apply takes_space. unfold price_text. rewrite <- app_assoc. by apply name_start_head.
  - by apply takes_priced.
Qed.

(** A name that is not taken for another one: it is not an initial part of it, or what
    remains of the other is not the start of a product. *)
Definition names_apart (e v : str) : bool :=
  negb (starts_with v e) ||
  match drop (length e) v with
  | d :: _ => negb (is_space d || (d =? 42)%N)
  | [] => false
  end.

Lemma starts_with_space e v s :
  forallb (fun c => negb (is_space c)) e = true -> starts_with v e = false -> starts_with (v ++ 32%N :: s) e = false.
Proof.
  revert v. induction e as [|c e IH]; intros v He H; [done|]. cbn in He. apply andb_true_iff in He as [Hc He].
  destruct v as [|d v]; cbn in H |- *.
  - by destruct (N.eqb_spec c 32) as [->|].
  - destruct (c =? d)%N; [by apply IH | done].
Qed.

Lemma fails_priced e g v s :
  forallb (fun c => negb (is_space c)) e = true -> names_apart e v = true -> fails (priced_pattern e g) (v ++ 32%N :: s).
Proof.
  intros He Ha. unfold names_apart in Ha. destruct (starts_with v e) eqn:Hs.
  - apply starts_with_spec in Hs as [t ->]. rewrite drop_app_length in Ha. destruct t as [|d t]; [done|]. cbn in Ha.
    apply negb_true_iff in Ha. rewrite <- app_assoc. apply fails_text_seq.
    apply (fails_ws_one 42 _ []); [done | done|]. exact Ha.
  - apply fails_seq, fails_text. by apply starts_with_space.
Qed.

Lemma spaces_not_name e s c : name_start e -> is_space c = true -> starts_with (c :: s) e = false.
Proof. destruct e as [|d e]; [done|]. cbn. intros Hd Hc. by destruct (N.eqb_spec d c) as [->|]; [congruence|]. Qed.

Lemma fails_optional e g v s :
  name_start e -> name_start v -> forallb (fun c => negb (is_space c)) e = true -> names_apart e v = true ->
  fails (P_all [P_ws; P_one 43; P_ws; priced_pattern e g]) (js " + " ++ v ++ 32%N :: s).
Proof.
  intros He Hv Hne Ha. apply (fails_ws_seq _ [32%N]); [done | done | |].
  { intros c t Hc. apply fails_seq, fails_one. cbn. destruct (N.eqb_spec c 43) as [->|]; done. }
  cbn [app]. apply fails_one_seq. apply (fails_ws_seq _ [32%N]); [done | by apply name_start_head | |].
  - intros c t Hc. apply fails_seq, fails_seq, fails_text. by apply spaces_not_name.
  - apply fails_seq. by apply fails_priced.
Qed.

Lemma fails_optional_end e g s : fails (P_all [P_ws; P_one 43; P_ws; priced_pattern e g]) (41%N :: s).
Proof. by apply (fails_ws_one 43 _ []). Qed.

(** ** The further prices of a tier *)

Section extras.
Variable price : str -> number.

Definition extra_part (e : str * str) : str :=
  if n_eqb (price e.1) n_zero then [] else js " + " ++ price_text e.2 (price e.1).
Fixpoint extra_news (g : nat) (l : list (str * str)) : captures :=
  match l with
  | [] => []
  | e :: l' => extra_news (S g) l' ++ (if n_eqb (price e.1) n_zero then [] else [(g, string_of_number (price e.1))])
  end.
Fixpoint apart_all (l : list (str * str)) : bool :=
  match l with
  | [] => true
  | e :: l' => forallb (fun e' => names_apart e.2 e'.2) l' && apart_all l'
  end.
Definition proper_name (v : str) : bool :=
  bool_decide (v <> []) && forallb (fun c => negb (is_space c)) v.

Lemma proper_name_start v : proper_name v = true -> name_start v.
Proof. unfold proper_name. destruct v as [|c v]; [done|]. cbn. intros [H _]%andb_true_iff. by destruct (is_space c). Qed.

(** How the written further prices start. *)
Lemma extras_start l rest :
  concat (map extra_part l) = [] \/
  exists e tail, e ∈ l /\ concat (map extra_part l) ++ rest = js " + " ++ e.2 ++ 32%N :: tail.
Proof.
  induction l as [|e l IH]; [by left|]. cbn [map concat]. unfold extra_part at 1 3.
  destruct (n_eqb (price e.1) n_zero).
  - destruct IH as [IH|(e' & tail & He & Ht)]; [by left | right]. exists e', tail. split; [by right | exact Ht].
  - right. eexists e, _. split; [left|]. unfold price_text. by rewrite <- !app_assoc.
Qed.

Lemma extras_closing l rest : closing rest -> closing (concat (map extra_part l) ++ rest).
Proof. intros H. destruct (extras_start l rest) as [-> |(e & tail & _ & ->)]; [done | by left]. Qed.

Lemma takes_extras l g s :
  Forall (fun e => proper_name e.2 = true /\ (n_eqb (price e.1) n_zero = false -> number_prints (price e.1) = true)) l ->
  apart_all l = true ->
  takes (P_all (imap (fun i e => optional_pattern (g + i) e.2) l)) (concat (map extra_part l)) (extra_news g l) (41%N :: s).
Proof.
  revert g. induction l as [|e l IH]; intros g Hall Ha; [apply takes_empty|].
  apply Forall_cons in Hall as [[Hp Hn] Hall]. cbn in Ha. apply andb_true_iff in Ha as [Hf Ha].
  cbn [imap map concat extra_news P_all]. rewrite Nat.add_0_r.
  assert (imap ((fun i e => optional_pattern (g + i) e.2) ∘ S) l = imap (fun i e => optional_pattern (S g + i) e.2) l) as ->.
  { apply imap_ext. intros i x _. cbn. by rewrite Nat.add_succ_r. }
  apply takes_seq; [|by apply IH]. unfold extra_part at 1. destruct (n_eqb (price e.1) n_zero) eqn:Hz.
  - apply takes_opt_none. destruct (extras_start l (41%N :: s)) as [-> |(e' & tail & He & ->)]; [apply fails_optional_end|].
    rewrite Forall_forall in Hall. apply fails_optional; [by apply proper_name_start | by apply proper_name_start, Hall | |].
    + unfold proper_name in Hp. by apply andb_true_iff in Hp as [_ Hp].
    + rewrite forallb_forall in Hf. by apply Hf, list_elem_of_In.
  - apply takes_optional; [by apply proper_name_start | by apply Hn |]. apply extras_closing. by right.
Qed.
End extras.

Lemma join_concat_map sep (a : str) l : join sep (a :: l) = a ++ concat (map (app sep) l).
Proof.
  revert a. induction l as [|b l IH]; intros a; [by cbn; rewrite app_nil_r|].
  change (join sep (a :: b :: l)) with (a ++ sep ++ join sep (b :: l)). rewrite IH. cbn. by rewrite <- app_assoc.
Qed.

(** ** The body of a tier with token prices *)

Definition token_body (price : str -> number) : str :=
  price_text (js "p") (price (js "input_unit_cost")) ++ js " + " ++
  price_text (js "c") (price (js "output_unit_cost")) ++ concat (map (extra_part price) BILLING_CACHE_VAR_MAP).
Definition token_news (price : str -> number) (g : nat) : captures :=
  extra_news price (g + 2) BILLING_CACHE_VAR_MAP ++
  [(S g, string_of_number (price (js "output_unit_cost"))); (g, string_of_number (price (js "input_unit_cost")))].

Lemma token_body_text tier :
  vt_billing_unit tier <> Some Visual_request -> buildTierBodyExpr tier = token_body (cost tier).
Proof.
  intros Hu. unfold buildTierBodyExpr.
  assert (js " + " ++ price_text (js "c") (cost tier (js "output_unit_cost")) ++ concat (map (extra_part (cost tier)) BILLING_CACHE_VAR_MAP) =
    concat (map (app (js " + ")) (price_text (js "c") (cost tier (js "output_unit_cost")) :: extra_terms tier))) as E.
  { cbn [map concat]. rewrite <- app_assoc. do 2 f_equal. unfold extra_terms.
    induction BILLING_CACHE_VAR_MAP as [|e l IH]; [done|]. cbn [map concat flat_map]. rewrite map_app, concat_app, <- IH. f_equal.
    unfold extra_part. destruct (n_eqb _ _); [done|]. cbn [map concat]. by rewrite app_nil_r. }
  unfold token_body. rewrite E, <- join_concat_map. by destruct (vt_billing_unit tier) as [[]|].
Qed.

Definition token_prints (price : str -> number) : bool :=
  number_prints (price (js "input_unit_cost")) && number_prints (price (js "output_unit_cost")) &&
  forallb (fun e => n_eqb (price e.1) n_zero || number_prints (price e.1)) BILLING_CACHE_VAR_MAP.

Lemma registry_names : forallb (fun e => proper_name e.2) BILLING_CACHE_VAR_MAP = true /\ apart_all BILLING_CACHE_VAR_MAP = true.
Proof. vm_compute. done. Qed.

Lemma takes_token_body price g s :
  token_prints price = true -> takes (body_pattern g) (token_body price) (token_news price g) (41%N :: s).
Proof.
  unfold token_prints. intros [[Hp Hc]%andb_true_iff He]%andb_true_iff. destruct registry_names as [Hn Ha].
  assert (closing (concat (map (extra_part price) BILLING_CACHE_VAR_MAP) ++ 41%N :: s)) as Hclose by (apply extras_closing; by right).
  unfold token_body, token_news, body_pattern.
  rewrite (app_assoc (js " + ")), (app_assoc (price_text (js "p") _)). apply takes_all_app.
  - take_steps [Step (priced_pattern (js "p") g) (price_text (js "p") (price (js "input_unit_cost"))) [(g, string_of_number (price (js "input_unit_cost")))];
      Step P_ws [32%N] []; Step (P_one 43) [43%N] []; Step P_ws [32%N] [];
      Step (priced_pattern (js "c") (S g)) (price_text (js "c") (price (js "output_unit_cost"))) [(S g, string_of_number (price (js "output_unit_cost")))]].
    + apply takes_priced; [done | by left].
    + by apply takes_space.
    + apply takes_one.
    + by apply takes_space.
    + by apply takes_priced.
  - apply (takes_extras price BILLING_CACHE_VAR_MAP (g + 2)); [|done]. apply Forall_forall. intros e Hin.
    rewrite forallb_forall in Hn, He. apply list_elem_of_In in Hin. split; [by apply Hn|]. intros Hz.
    specialize (He e Hin). by rewrite Hz in He.
Qed.

(** ** Openings and fixed prices *)

Definition plain_label (label : str) : bool := forallb (fun c => negb (c =? dquote)%N) label.
Definition opening (label : str) : str := js "tier(" ++ [dquote] ++ label ++ [dquote] ++ js ", ".

Lemma takes_opening g label rest :
  plain_label label = true -> head_not is_space rest -> takes (opening_pattern g) (opening label) [(g, label)] rest.
Proof.
  intros Hl Hr.
  take_steps [Step (P_text (js "tier(")) (js "tier(") []; Step (P_one dquote) [dquote] [];
    Step (P_group g (P_star (P_char (fun c => negb (c =? dquote)%N)))) label [(g, label)];
    Step (P_one dquote) [dquote] []; Step (P_one 44) [44%N] []; Step P_ws [32%N] []].
  - apply takes_text.
  - apply takes_one.
  - apply takes_group. by apply takes_class.
  - apply takes_one.
  - apply takes_one.
  - by apply takes_space.
Qed.

Definition fixed_text (x : number) : str := js "fixed(" ++ string_of_number x ++ js ")".
Lemma takes_fixed number new x rest :
  number_prints x = true -> takes number (string_of_number x) new (41%N :: rest) ->
  takes (fixed_body number) (fixed_text x) new rest.
Proof.
  intros Hx Hn.
  take_steps [Step (P_text (js "fixed(")) (js "fixed(") []; Step P_ws [] []; Step number (string_of_number x) new;
    Step P_ws [] []; Step (P_one 41) [41%N] []].
  - apply takes_text.
  - apply takes_ws; [done|]. cbn [app]. rewrite <- app_assoc. by apply number_text_head.
  - exact Hn.
  - by apply takes_ws.
  - apply takes_one.
Qed.
Lemma takes_number x rest : number_prints x = true -> closing rest -> takes number_pattern (string_of_number x) [] rest.
Proof.
  intros (Hne & Hc & _)%number_text Hr. apply takes_plus; [done | done |]. by apply closing_not_number.
Qed.

(** * Reading *)

(** * Conditions *)

Definition condition_vars : list str := [js "p"; js "c"; js "len"].
Definition condition_ops : list str := [js "<"; js "<="; js ">"; js ">="].
(** A condition the editor can read: one of its variables and operators, and a number
    whose text has no minus sign. *)
Definition readable_condition (c : tier_condition) : bool :=
  bool_decide (ci_var c ∈ condition_vars) && bool_decide (ci_op c ∈ condition_ops) &&
  match ci_value c with
  | CV_number x => number_prints x && forallb bound_char (string_of_number x)
  | _ => false
  end.

Lemma op_cases (op : str) : op ∈ condition_ops -> op = js "<" \/ op = js "<=" \/ op = js ">" \/ op = js ">=".
Proof. set_solver. Qed.
Lemma var_cases (v : str) : v ∈ condition_vars -> v = js "p" \/ v = js "c" \/ v = js "len".
Proof. set_solver. Qed.

(** An operator is read in full: the shorter one is given up when a bound cannot follow. *)
Section comparison.
Variables (b : pattern) (t : str) (new : captures) (rest : str).
Hypothesis Hb : takes b t new rest.
Hypothesis Hequals : forall s, fails b (61%N :: s).

Lemma takes_comparison op : op ∈ condition_ops -> takes (P_seq comparison_pattern b) (op ++ t) new rest.
Proof.
  assert (forall w, takes (P_seq (P_text w) b) (w ++ t) new rest) as Hw
    by (intros w; rewrite <- (app_nil_r new); apply takes_seq; [apply takes_text | exact Hb]).
  change (takes (P_seq comparison_pattern b)) with
    (takes (P_alt (P_seq (P_text (js "<")) b) (P_alt (P_seq (P_text (js "<=")) b)
      (P_alt (P_seq (P_text (js ">")) b) (P_seq (P_text (js ">=")) b))))).
  intros [-> |[-> |[-> | ->]]]%op_cases.
  - apply takes_alt_left, Hw.
  - apply takes_alt_right; [|apply takes_alt_left, Hw]. cbn [app]. by apply (fails_text_seq (js "<")).
  - do 2 (apply takes_alt_right; [by apply fails_seq, fails_text|]). apply takes_alt_left, Hw.
  - do 2 (apply takes_alt_right; [by apply fails_seq, fails_text|]). apply takes_alt_right; [|apply Hw].
    cbn [app]. by apply (fails_text_seq (js ">")).
Qed.

Lemma takes_comparison_group n op :
  op ∈ condition_ops -> takes (P_seq (P_group n comparison_pattern) b) (op ++ t) (new ++ [(n, op)]) rest.
Proof.
  assert (forall w, takes (P_seq (P_group n (P_text w)) b) (w ++ t) (new ++ [(n, w)]) rest) as Hw
    by (intros w; apply takes_seq; [apply takes_group, takes_text | exact Hb]).
  assert (forall w s, fails (P_seq (P_text w) b) s -> fails (P_seq (P_group n (P_text w)) b) s) as Hf.
  { intros w s H R k prev caps. cbn [run].
    destruct (starts_with s w) eqn:E; [|by apply fails_text].
    apply starts_with_spec in E as [u ->].
    assert (forall R' (k' : @continuation R') p c, run (P_text w) k' p (w ++ u) c = k' (ends p w) u c) as Ht.
    { clear. induction w as [|d w IH]; intros R' k' p c; [done|]. cbn. rewrite N.eqb_refl. apply IH. }
    rewrite Ht. rewrite length_app, Nat.add_sub, take_app_length.
    specialize (H R (fun p s c => k p s c) (prev)). cbn [run] in H. specialize (H ((n, w) :: caps)). by rewrite Ht in H. }
  change (takes (P_seq (P_group n comparison_pattern) b)) with
    (takes (P_alt (P_seq (P_group n (P_text (js "<"))) b) (P_alt (P_seq (P_group n (P_text (js "<="))) b)
      (P_alt (P_seq (P_group n (P_text (js ">"))) b) (P_seq (P_group n (P_text (js ">="))) b))))).
  intros [-> |[-> |[-> | ->]]]%op_cases.
  - apply takes_alt_left, Hw.
  - apply takes_alt_right; [|apply takes_alt_left, Hw]. cbn [app]. by apply Hf, (fails_text_seq (js "<")).
  - do 2 (apply takes_alt_right; [by apply fails_seq, fails_group, fails_text|]). apply takes_alt_left, Hw.
  - do 2 (apply takes_alt_right; [by apply fails_seq, fails_group, fails_text|]). apply takes_alt_right; [|apply Hw].
    cbn [app]. by apply Hf, (fails_text_seq (js ">")).
Qed.
End comparison.

Lemma takes_variable v rest : v ∈ condition_vars -> takes variable_pattern v [] rest.
Proof.
  intros [-> |[-> | ->]]%var_cases.
  - apply takes_alt_left, takes_text.
  - apply takes_alt_right; [by apply fails_text | apply takes_alt_left, takes_text].
  - do 2 (apply takes_alt_right; [by apply fails_text|]). apply takes_text.
Qed.

Lemma op_head op rest : op ∈ condition_ops -> head_not is_space (op ++ rest).
Proof. by intros [-> |[-> |[-> | ->]]]%op_cases. Qed.

(** What may follow a bound. *)
Definition after_bound (s : str) : Prop := head_not bound_char s.

(** The last part of a condition. *)
Lemma takes_bound (number : pattern) x new rest :
  number_prints x = true -> takes number (string_of_number x) new rest ->
  takes (P_all [P_ws; number]) (32%N :: string_of_number x) new rest.
Proof.
  intros Hx Hn. take_steps [Step P_ws [32%N] []; Step number (string_of_number x) new].
  - by apply takes_space, number_text_head.
  - exact Hn.
Qed.
Lemma fails_bound number s : fails number (61%N :: s) -> (forall c t, is_space c = true -> fails number (c :: t)) ->
  fails (P_all [P_ws; number]) (61%N :: s).
Proof.
  intros H Hs. apply (fails_ws_seq _ []); [done | done | |]; [intros c t Hc; by apply fails_seq, Hs | by apply fails_seq].
Qed.
Lemma bound_not_space c : is_space c = true -> bound_char c = false.
Proof.
  intros Hc. destruct (bound_char c) eqn:E; [|done]. rewrite number_char_not_space in Hc; [done|].
  unfold bound_char in E. unfold number_char. by rewrite E.
Qed.
Lemma fails_bound_number c s : bound_char c = false -> fails bound_pattern (c :: s).
Proof. intros H. by apply fails_seq, fails_char. Qed.

Lemma takes_condition c rest :
  readable_condition c = true -> after_bound rest -> takes bound_condition (condition_text c) [] rest.
Proof.
  unfold readable_condition. intros [[Hv Ho]%andb_true_iff Hx]%andb_true_iff Hr. breflect.
  destruct (ci_value c) as [x| |] eqn:Ev; try done. apply andb_true_iff in Hx as [Hx Hb].
  assert (takes bound_pattern (string_of_number x) [] rest) as Hn by (apply takes_plus; [by apply number_text | done | done]).
  unfold condition_text. rewrite Ev. cbn [value_text].
  apply (takes_seq variable_pattern _ (ci_var c) (js " " ++ ci_op c ++ js " " ++ string_of_number x) [] []); [by apply takes_variable|].
  apply (takes_seq P_ws _ [32%N] (ci_op c ++ js " " ++ string_of_number x) [] []); [rewrite <- app_assoc; by apply takes_space, op_head|].
  apply takes_comparison; [by apply takes_bound | | done].
  intros s. apply fails_bound; [by apply fails_bound_number|]. intros d t Hd. by apply fails_bound_number, bound_not_space.
Qed.

(** The same with the parts captured. *)
Lemma match_condition c :
  readable_condition c = true -> match_whole conjunct_pattern (condition_text c) =
    Some [(3, value_text (ci_value c)); (2, ci_op c); (1, ci_var c)].
Proof.
  unfold readable_condition. intros [[Hv Ho]%andb_true_iff Hx]%andb_true_iff. breflect.
  destruct (ci_value c) as [x| |] eqn:Ev; try done. apply andb_true_iff in Hx as [Hx Hb].
  assert (takes (P_group 3 bound_pattern) (string_of_number x) [(3, string_of_number x)] []) as Hn
    by (apply takes_group, takes_plus; [by apply number_text | done | done]).
  unfold condition_text. rewrite Ev. cbn [value_text]. apply match_whole_takes.
  apply (takes_seq (P_group 1 variable_pattern) _ (ci_var c) (js " " ++ ci_op c ++ js " " ++ string_of_number x)
           [(1, ci_var c)] [(3, string_of_number x); (2, ci_op c)]); [by apply takes_group, takes_variable|].
  apply (takes_seq P_ws _ [32%N] (ci_op c ++ js " " ++ string_of_number x) [] [(3, string_of_number x); (2, ci_op c)]);
    [rewrite <- app_assoc; by apply takes_space, op_head|].
  apply (takes_comparison_group _ (js " " ++ string_of_number x) [(3, string_of_number x)]); [by apply takes_bound | | done].
  intros s. apply fails_bound; [by apply fails_group, fails_bound_number|].
  intros d t Hd. by apply fails_group, fails_bound_number, bound_not_space.
Qed.

(** ** Conjunctions *)

Definition conjunction_text (cs : list tier_condition) : str := join (js " && ") (map condition_text cs).

(** A text without the conjunction sign that does not end in a space. *)
Definition unbroken (u : str) : Prop := (38%N ∉ u) /\ match last u with Some c => is_space c = false | None => False end.

Lemma bound_chars_ok s : forallb bound_char s = true -> (38%N ∉ s) /\ Forall (fun c => is_space c = false) s.
Proof.
  intros H. rewrite forallb_forall in H. split.
  - intros Hin. apply list_elem_of_In, H in Hin. done.
  - apply Forall_forall. intros c Hc. apply list_elem_of_In, H in Hc. destruct (is_space c) eqn:E; [|done].
    by rewrite bound_not_space in Hc.
Qed.

Lemma condition_unbroken c : readable_condition c = true ->
  unbroken (condition_text c) /\ head_not is_space (condition_text c) /\ condition_text c <> [].
Proof.
  unfold readable_condition. intros [[Hv Ho]%andb_true_iff Hx]%andb_true_iff. breflect.
  destruct (ci_value c) as [x| |] eqn:Ev; try done. apply andb_true_iff in Hx as [Hx Hb].
  apply number_text in Hx as (Hne & _). apply bound_chars_ok in Hb as [H38 Hs].
  unfold condition_text. rewrite Ev. cbn [value_text].
  assert ((38%N ∉ ci_var c) /\ (38%N ∉ ci_op c)) as [H1 H2].
  { split; [apply var_cases in Hv as [-> |[-> | ->]] | apply op_cases in Ho as [-> |[-> |[-> | ->]]]]; by compute_done. }
  split; [split|split].
  - rewrite !not_elem_of_app. split; [done|]. split; [by compute_done|]. split; [done|]. split; [by compute_done | done].
  - rewrite !app_assoc, last_app. destruct (last (string_of_number x)) as [d|] eqn:E; [|by apply last_None in E].
    apply last_Some in E as [l E]. rewrite E, Forall_app, Forall_singleton in Hs. apply Hs.
  - apply name_start_head. by apply var_cases in Hv as [-> |[-> | ->]].
  - by apply var_cases in Hv as [-> |[-> | ->]].
Qed.

Lemma not_conjunction c s : c <> 38%N -> starts_with (c :: s) (js "&&") = false.
Proof. intros H%N.eqb_neq. change ((38 =? c)%N && starts_with s (js "&") = false). by rewrite N.eqb_sym, H. Qed.

(** The separator does not match inside an unbroken text. *)
Lemma fails_inside b after : b <> [] -> unbroken b -> fails conjunction_pattern (b ++ after).
Proof.
  intros Hne [H38 Hlast]. pose proof (take_drop_while is_space b) as E.
  assert (exists d t, drop_while is_space b = d :: t) as (d & t & Hd).
  { destruct (drop_while is_space b) as [|d t] eqn:Ed; [|eauto]. exfalso. rewrite app_nil_r in E.
    destruct (last b) as [c|] eqn:El; [|done]. apply last_Some in El as [l El].
    pose proof (take_while_all is_space b) as Ha. rewrite E, El, Forall_app, Forall_singleton in Ha. destruct Ha as [_ Ha]. congruence. }
  pose proof (drop_while_head is_space b) as Hh. rewrite Hd in E, Hh. rewrite <- E, <- app_assoc.
  apply fails_ws_seq.
  - apply forallb_forall. intros c Hc. pose proof (take_while_all is_space b) as Ha. rewrite Forall_forall in Ha. by apply Ha, list_elem_of_In.
  - done.
  - intros c s Hc. apply fails_seq, fails_text, not_conjunction. by intros ->.
  - apply fails_seq, fails_text, not_conjunction. intros ->. apply H38. rewrite <- E, elem_of_app. right. left.
Qed.

Lemma unbroken_suffix a b : b <> [] -> unbroken (a ++ b) -> unbroken b.
Proof.
  intros Hne [H1 H2]. rewrite not_elem_of_app in H1. split; [apply H1|]. rewrite last_app in H2.
  destruct (last b) eqn:E; [done | by apply last_None in E].
Qed.

Lemma split_unbroken u after fuel prev piece :
  u = [] \/ unbroken u -> length u <= fuel ->
  split_from fuel conjunction_pattern prev piece (u ++ after) =
  split_from (fuel - length u) conjunction_pattern (ends prev u) (reverse u ++ piece) after.
Proof.
  revert fuel prev piece. induction u as [|c u IH]; intros fuel prev piece Hu Hf; [by rewrite Nat.sub_0_r|].
  destruct Hu as [|Hu]; [done|]. cbn [length] in Hf. destruct fuel as [|f]; [lia|]. cbn [app split_from length].
  rewrite match_here_fails by (by apply (fails_inside (c :: u))).
  rewrite IH; [|destruct u as [|d u]; [by left | right; by apply (unbroken_suffix [c])] | lia].
  cbn [ends]. f_equal. rewrite reverse_cons. by rewrite <- app_assoc.
Qed.

Lemma takes_conjunction rest : head_not is_space rest -> takes conjunction_pattern (js " && ") [] rest.
Proof.
  intros H. take_steps [Step P_ws [32%N] []; Step (P_text (js "&&")) (js "&&") []; Step P_ws [32%N] []].
  - by apply takes_space.
  - apply takes_text.
  - by apply takes_space.
Qed.

Lemma split_conjunction texts fuel prev :
  texts <> [] -> Forall (fun t => unbroken t /\ head_not is_space t /\ t <> []) texts ->
  length (join (js " && ") texts) < fuel ->
  split_from fuel conjunction_pattern prev [] (join (js " && ") texts) = texts.
Proof.
  intros Hne Hall. revert fuel prev. induction Hall as [|t texts (Hu & Hh & Ht) Hall IH]; intros fuel prev Hf; [done|].
  destruct texts as [|t' texts].
  - cbn [join] in *. rewrite <- (app_nil_r t) at 1. rewrite split_unbroken by (auto; lia). rewrite app_nil_r.
    destruct (fuel - length t); cbn [split_from]; by rewrite reverse_involutive.
  - change (join (js " && ") (t :: t' :: texts)) with (t ++ js " && " ++ join (js " && ") (t' :: texts)) in *.
    rewrite !length_app in Hf. rewrite split_unbroken by (auto; lia). rewrite app_nil_r.
    destruct (fuel - length t) as [|f] eqn:Ef; [lia|].
    assert (head_not is_space (join (js " && ") (t' :: texts))) as Hj.
    { apply Forall_cons in Hall as [(_ & Hh' & Ht') _]. destruct texts; [done|]. by destruct t'. }
    pose proof (match_here_takes _ _ _ _ (ends prev t) (takes_conjunction _ Hj)) as Hm.
    change (js " && " ++ join (js " && ") (t' :: texts)) with (32%N :: (js "&& " ++ join (js " && ") (t' :: texts))) in Hm |- *.
    cbn [split_from]. rewrite Hm, reverse_involutive. f_equal. apply IH; [done|].
    change (length (js " && ")) with 4 in Hf. lia.
Qed.

Lemma condition_trim c : readable_condition c = true -> trim (condition_text c) = condition_text c.
Proof.
  intros ((_ & Hlast) & Hh & Hne)%condition_unbroken. apply trimmed_trim. split; [by destruct (condition_text c)|].
  destruct (last (condition_text c)) as [d|] eqn:E; [|done]. apply last_Some in E as [l ->]. by rewrite reverse_snoc.
Qed.

Lemma read_condition c : readable_condition c = true -> read_conjunct (condition_text c) = Some c.
Proof.
  intros H. unfold read_conjunct. rewrite condition_trim, match_condition by done. cbn.
  unfold readable_condition in H. apply andb_true_iff in H as [_ H].
  destruct c as [v o [x| |]]; try done. cbn in *. apply andb_true_iff in H as [H _].
  apply number_text in H as (_ & _ & Hx & _). unfold captured_number. cbn. by rewrite Hx.
Qed.

Lemma omap_inverse {A B} (f : B -> option A) (g : A -> B) l : (forall x, x ∈ l -> f (g x) = Some x) -> omap f (map g l) = l.
Proof.
  induction l as [|x l IH]; intros H; [done|]. cbn [map]. unfold omap. cbn [list_omap]. rewrite (H x) by left.
  f_equal. apply IH. intros y Hy. apply H. by right.
Qed.

Lemma read_conjunction cs :
  forallb readable_condition cs = true -> read_conditions (conjunction_text cs) = cs.
Proof.
  intros H. destruct cs as [|c cs]; [done|]. unfold read_conditions.
  assert (conjunction_text (c :: cs) <> []) as Hne.
  { unfold conjunction_text. cbn [forallb] in H. apply andb_true_iff in H as [H _]. apply condition_unbroken in H as (_ & _ & H).
    destruct cs; cbn [map join]; by destruct (condition_text c). }
  destruct (conjunction_text (c :: cs)) as [|d t] eqn:E; [done|]. rewrite <- E. unfold split_pattern, conjunction_text.
  rewrite split_conjunction; [|done| |lia].
  - apply omap_inverse. intros x Hx. rewrite forallb_forall in H. by apply read_condition, H, list_elem_of_In.
  - apply Forall_fmap, Forall_forall. intros x Hx. rewrite forallb_forall in H. by apply condition_unbroken, H, list_elem_of_In.
Qed.

Lemma takes_conditions cs s :
  cs <> [] -> forallb readable_condition cs = true ->
  takes condition_group (conjunction_text cs) [(1, conjunction_text cs)] (32%N :: 63%N :: s).
Proof.
  intros Hne H. destruct cs as [|c cs]; [done|]. apply takes_group. unfold conjunction_text. cbn [map].
  rewrite join_concat_map. cbn [forallb] in H. apply andb_true_iff in H as [Hc Hcs].
  take_steps [Step bound_condition (condition_text c) [];
    Step (P_star (P_all [conjunction_pattern; bound_condition])) (concat (map (app (js " && ")) (map condition_text cs))) []].
  - apply takes_condition; [done|]. by destruct cs.
  - apply takes_rounds.
    + apply Forall_fmap, Forall_forall. done.
    + intros us w vs E. assert (w ∈ map (app (js " && ")) (map condition_text cs)) as Hw by (rewrite E; apply elem_of_app; right; left).
      apply list_elem_of_fmap in Hw as (t & -> & (x & -> & Hx)%list_elem_of_fmap).
      rewrite forallb_forall in Hcs. apply list_elem_of_In, Hcs in Hx.
      take_steps [Step conjunction_pattern (js " && ") []; Step bound_condition (condition_text x) []].
      * apply takes_conjunction. apply condition_unbroken in Hx as (_ & Hh & Hn). by destruct (condition_text x).
      * apply takes_condition; [done|]. destruct vs as [|v vs]; [done|].
        assert (v ∈ map (app (js " && ")) (map condition_text cs)) as Hv by (rewrite E; apply elem_of_app; right; right; left).
        by apply list_elem_of_fmap in Hv as (t & -> & _).
    + apply fails_seq. apply (fails_ws_seq _ [32%N]); [done | done | |by apply fails_seq, fails_text, not_conjunction].
      intros d t Hd. apply fails_seq, fails_text, not_conjunction. by intros ->.
Qed.
