(* ===== verification/TierExprRound.v ===== *)
(** The visual tier editor reads back the configuration it wrote. *)

From S2P Require Import Prelude JsString JsNumber JsValue JsJson BillingTypes BillingParserFacts BillingCompileFacts BillingExpr BillingPrinting JsPattern TierExpr TierExprFacts.

(** * Tiers *)

Definition is_request (tier : visual_tier) : bool :=
  match vt_billing_unit tier with Some Visual_request => true | _ => false end.
Definition label_of (tier : visual_tier) : str := default [] (vt_label tier).
Definition conditions_of (tier : visual_tier) : list tier_condition := default [] (vt_conditions tier).

Definition token_fields : list str :=
  js "input_unit_cost" :: js "output_unit_cost" :: map fst BILLING_CACHE_VAR_MAP.
(** What the editor shows of a tier: its label, its conditions, and its fixed price or
    its token prices. *)
Record tier_view := TierView {
  view_label : str;
  view_conditions : list tier_condition;
  view_request : bool;
  view_prices : list (str * number);
}.
Definition view (tier : visual_tier) : tier_view :=
  TierView (label_of tier) (conditions_of tier) (is_request tier)
    (map (fun field => (field, cost tier field)) (if is_request tier then [js "fixed_price"] else token_fields)).

(** A tier that can be written: a label without quotes, prices that print, conditions
    the reader knows. *)
Definition writable_tier (tier : visual_tier) : bool :=
  bool_decide (label_of tier <> []) && plain_label (label_of tier) &&
  (if is_request tier then number_prints (cost tier (js "fixed_price")) else token_prints (cost tier)) &&
  forallb readable_condition (conditions_of tier).

(** ** Written and captured *)

Definition body_news (tier : visual_tier) : captures := if is_request tier then [] else token_news (cost tier) 4.
Definition condition_news (cs : list tier_condition) : captures :=
  match cs with [] => [] | _ => [(1, conjunction_text cs)] end.
Definition tier_news (cs : list tier_condition) (tier : visual_tier) : captures :=
  ((3, buildTierBodyExpr tier) :: body_news tier) ++ [(2, label_of tier)] ++ condition_news cs.
Definition call_text (tier : visual_tier) : str := opening (label_of tier) ++ buildTierBodyExpr tier ++ js ")".
Definition guard_text (cs : list tier_condition) : str :=
  match cs with [] => [] | _ => conjunction_text cs ++ js " ? " end.

Section tier.
Variable tier : visual_tier.
Hypothesis Hw : writable_tier tier = true.

Lemma writable_parts :
  label_of tier <> [] /\ plain_label (label_of tier) = true /\
  (is_request tier = true -> number_prints (cost tier (js "fixed_price")) = true) /\
  (is_request tier = false -> token_prints (cost tier) = true) /\
  forallb readable_condition (conditions_of tier) = true.
Proof.
  pose proof Hw as H. unfold writable_tier in H. rewrite !andb_true_iff in H. destruct H as [[[H1 H2] H3] H4].
  apply bool_decide_eq_true in H1. split; [done|]. split; [done|]. destruct (is_request tier); by split; [|split].
Qed.

Lemma request_body : is_request tier = true -> buildTierBodyExpr tier = fixed_text (cost tier (js "fixed_price")).
Proof. unfold is_request, buildTierBodyExpr. by destruct (vt_billing_unit tier) as [[]|]. Qed.
Lemma metered_body : is_request tier = false -> buildTierBodyExpr tier = token_body (cost tier).
Proof. intros H. apply token_body_text. intros E. unfold is_request in H. by rewrite E in H. Qed.

Lemma body_head rest : head_not is_space (buildTierBodyExpr tier ++ rest).
Proof. destruct (is_request tier) eqn:Hr; [by rewrite request_body | by rewrite metered_body]. Qed.

Lemma takes_body rest :
  takes (P_group 3 (P_alt (fixed_body number_pattern) (body_pattern 4))) (buildTierBodyExpr tier)
    ((3, buildTierBodyExpr tier) :: body_news tier) (41%N :: rest).
Proof.
  apply takes_group. unfold body_news. destruct writable_parts as (_ & _ & Hfix & Htok & _).
  destruct (is_request tier) eqn:Hr.
  - rewrite request_body by done. apply takes_alt_left, takes_fixed; [by apply Hfix|].
    apply takes_number; [by apply Hfix | by right].
  - rewrite metered_body by done. apply takes_alt_right; [by apply fails_seq, fails_text|]. by apply takes_token_body, Htok.
Qed.

Lemma fails_guard rest : fails (P_all [condition_group; P_ws; P_one 63; P_ws]) (js "tier(" ++ rest).
Proof.
  apply fails_seq, fails_group, fails_seq, fails_seq. repeat (apply fails_alt; [by apply fails_text|]). by apply fails_text.
Qed.

Lemma takes_tier cs rest :
  forallb readable_condition cs = true ->
  takes tier_pattern (guard_text cs ++ call_text tier) (tier_news cs tier) rest.
Proof.
  intros Hcs. destruct writable_parts as (_ & Hlabel & _).
  assert (takes (P_opt (P_all [condition_group; P_ws; P_one 63; P_ws])) (guard_text cs) (condition_news cs) (call_text tier ++ rest)) as Hguard.
  { destruct cs as [|c cs]; [apply takes_opt_none; apply fails_guard|]. apply takes_opt; [unfold guard_text; by destruct (conjunction_text (c :: cs))|].
    take_steps [Step condition_group (conjunction_text (c :: cs)) [(1, conjunction_text (c :: cs))]; Step P_ws [32%N] [];
      Step (P_one 63) [63%N] []; Step P_ws [32%N] []].
    - by apply takes_conditions.
    - by apply takes_space.
    - apply takes_one.
    - by apply takes_space. }
  take_steps [Step (P_opt (P_all [condition_group; P_ws; P_one 63; P_ws])) (guard_text cs) (condition_news cs);
    Step (opening_pattern 2) (opening (label_of tier)) [(2, label_of tier)];
    Step (P_group 3 (P_alt (fixed_body number_pattern) (body_pattern 4))) (buildTierBodyExpr tier) ((3, buildTierBodyExpr tier) :: body_news tier);
    Step (P_one 41) [41%N] []].
  - exact Hguard.
  - apply takes_opening; [done|]. rewrite <- app_assoc. apply body_head.
  - apply takes_body.
  - apply takes_one.
  - unfold tier_news. cbn. by rewrite <- app_assoc.
Qed.
End tier.

(** * Looking up captures *)

Lemma capture_app n a b : capture n (a ++ b) = match capture n a with Some s => Some s | None => capture n b end.
Proof. induction a as [|[m s] a IH]; cbn; [done|]. by destruct (n =? m)%nat. Qed.

Lemma capture_extra_below price n g l : n < g -> capture n (extra_news price g l) = None.
Proof.
  revert g. induction l as [|e l IH]; intros g Hn; [done|]. cbn [extra_news]. rewrite capture_app, IH by lia.
  destruct (n_eqb _ _); [done|]. cbn. destruct (Nat.eqb_spec n g); [lia | done].
Qed.

Lemma captured_extras_read price g l tail :
  (forall i, g <= i -> capture i tail = None) ->
  concat (imap (fun i (e : str * str) => match capture (g + i) (extra_news price g l ++ tail) with
                            | Some s => [(e.1, number_of_string s)]
                            | None => []
                            end) l) =
  flat_map (fun e : str * str => if n_eqb (price e.1) n_zero then [] else [(e.1, number_of_string (string_of_number (price e.1)))]) l.
Proof.
  revert g tail. induction l as [|e l IH]; intros g tail Ht; [done|]. cbn [imap concat flat_map extra_news]. f_equal.
  - rewrite Nat.add_0_r, <- app_assoc, capture_app, capture_extra_below by lia. rewrite capture_app.
    destruct (n_eqb _ _); cbn; [by rewrite Ht | by rewrite Nat.eqb_refl].
  - rewrite <- (IH (S g) ((if n_eqb (price e.1) n_zero then [] else [(g, string_of_number (price e.1))]) ++ tail)).
    + f_equal. apply imap_ext. intros i x _. cbn. by rewrite Nat.add_succ_r, <- app_assoc.
    + intros i Hi. rewrite capture_app. destruct (n_eqb _ _); cbn; [|destruct (Nat.eqb_spec i g); [lia|]]; apply Ht; lia.
Qed.

(** * Prices of read tiers *)

Lemma obj_get_spread k o entries :
  NoDup (map fst entries) ->
  obj_get k (spread_costs o entries) = match obj_get k entries with Some v => Some v | None => obj_get k o end.
Proof.
  unfold spread_costs. revert o. induction entries as [|[k' v] entries IH]; intros o Hn; [done|].
  cbn [map fst] in Hn. apply NoDup_cons in Hn as [Hk Hn]. cbn [fold_left obj_get fst snd]. rewrite IH, obj_get_set by done.
  case_bool_decide as E; [|done]. subst k'. destruct (obj_get k entries) as [w|] eqn:Hw; [|done].
  exfalso. apply obj_get_Some in Hw. apply Hk. apply list_elem_of_fmap. by exists (k, w).
Qed.

Lemma spread_keys o entries : NoDup (map fst o) -> NoDup (map fst (spread_costs o entries)).
Proof. unfold spread_costs. revert o. induction entries as [|e l IH]; intros o Hn; [done|]. by apply IH, obj_set_keys. Qed.

Lemma number_or_zero_idem x : number_or_zero (Some (number_or_zero x)) = number_or_zero x.
Proof. destruct x as [x|]; [|done]. cbn. destruct (n_eqb x x && negb (n_eqb x n_zero)) eqn:E; cbn; [by rewrite E | done]. Qed.
Lemma cost_zero tier field : n_eqb (cost tier field) n_zero = true -> cost tier field = n_zero.
Proof.
  unfold cost, number_or_zero. destruct (obj_get field (vt_costs tier)) as [x|]; [|done].
  destruct (n_eqb x x && negb (n_eqb x n_zero)) eqn:E; [|done]. apply andb_true_iff in E as [_ E]. intros H. by rewrite H in E.
Qed.

Lemma obj_get_tabulate (f : str -> number) k l :
  obj_get k (map (fun x => (x, f x)) l) = if bool_decide (k ∈ l) then Some (f k) else None.
Proof.
  induction l as [|x l IH]; cbn; [done|]. destruct (decide (k = x)) as [->|Hne].
  - rewrite !bool_decide_eq_true_2; [done | left | done].
  - rewrite bool_decide_eq_false_2 by done. rewrite IH. destruct (decide (k ∈ l)).
    + by rewrite !bool_decide_eq_true_2 by (done || by right).
    + by rewrite !bool_decide_eq_false_2 by set_solver.
Qed.

(** Normalising a tier keeps what it costs. *)
Lemma normalize_costs_keys tier : NoDup (map fst (vt_costs (normalizeVisualTier tier))).
Proof. unfold normalizeVisualTier. cbn [vt_costs]. do 2 apply spread_keys. by compute_done. Qed.

Lemma cost_normalize tier field :
  NoDup (map fst (vt_costs tier)) -> cost (normalizeVisualTier tier) field = cost tier field.
Proof.
  intros Hn. unfold cost at 1. unfold normalizeVisualTier. cbn [vt_costs].
  rewrite obj_get_spread by (rewrite map_map; cbn; by compute_done). rewrite obj_get_tabulate.
  case_bool_decide; [apply number_or_zero_idem|]. rewrite obj_get_spread by done. rewrite obj_get_tabulate.
  unfold cost at 2. destruct (obj_get field (vt_costs tier)) as [x|] eqn:E; [done|]. case_bool_decide; [|done].
  unfold cost. by rewrite E.
Qed.

Lemma view_normalize tier : NoDup (map fst (vt_costs tier)) -> view (normalizeVisualTier tier) = view tier.
Proof.
  intros Hn. unfold view.
  assert (label_of (normalizeVisualTier tier) = label_of tier) as -> by done.
  assert (conditions_of (normalizeVisualTier tier) = conditions_of tier) as -> by done.
  assert (is_request (normalizeVisualTier tier) = is_request tier) as ->
    by (unfold is_request, normalizeVisualTier; cbn; by destruct (vt_billing_unit tier) as [[]|]).
  f_equal. apply map_ext. intros f. by rewrite cost_normalize.
Qed.

(** ** The tier read from a match *)

Section read.
Variable tier : visual_tier.
Hypothesis Hw : writable_tier tier = true.

Lemma amount_request : is_request tier = true ->
  match_whole fixed_amount_pattern (buildTierBodyExpr tier) = Some [(1, string_of_number (cost tier (js "fixed_price")))].
Proof.
  intros Hr. destruct (writable_parts tier Hw) as (_ & _ & Hfix & _). specialize (Hfix Hr). rewrite request_body by done.
  apply match_whole_takes. apply takes_fixed; [done|]. apply takes_group, takes_decimal; [done|].
  by apply number_text in Hfix as (_ & _ & _ & ?).
Qed.

Lemma amount_metered : is_request tier = false -> match_whole fixed_amount_pattern (buildTierBodyExpr tier) = None.
Proof. intros Hr. rewrite metered_body by done. by apply match_whole_fails, fails_seq, fails_text. Qed.

Lemma token_printed field : is_request tier = false -> field ∈ token_fields ->
  n_eqb (cost tier field) n_zero = false \/ field ∈ [js "input_unit_cost"; js "output_unit_cost"] ->
  number_of_string (string_of_number (cost tier field)) = cost tier field.
Proof.
  intros Hr Hf Hz. destruct (writable_parts tier Hw) as (_ & _ & _ & Htok & _). specialize (Htok Hr).
  unfold token_prints in Htok. rewrite !andb_true_iff in Htok. destruct Htok as [[Hi Ho] He].
  apply number_text in Hi as (_ & _ & Hi & _), Ho as (_ & _ & Ho & _). unfold token_fields in Hf.
  apply elem_of_cons in Hf as [->|Hf]; [done|]. apply elem_of_cons in Hf as [->|Hf]; [done|].
  destruct Hz as [Hz|Hz]; [|set_solver]. apply list_elem_of_fmap in Hf as (e & -> & Hin).
  rewrite forallb_forall in He. apply list_elem_of_In, He in Hin. rewrite Hz in Hin. by apply number_text in Hin as (_ & _ & ? & _).
Qed.

Definition captured_prices : list (str * number) :=
  flat_map (fun e : str * str => if n_eqb (cost tier e.1) n_zero then [] else [(e.1, cost tier e.1)]) BILLING_CACHE_VAR_MAP.

(** The prices captured by a body whose first group is [g]. *)
Lemma extras_at g tail : is_request tier = false -> (forall i, g + 2 <= i -> capture i tail = None) ->
  captured_extras (g + 2) (token_news (cost tier) g ++ tail) = captured_prices.
Proof.
  intros Hr Htail. unfold captured_extras, token_news. rewrite <- app_assoc, captured_extras_read.
  - unfold captured_prices. assert (forall e, e ∈ BILLING_CACHE_VAR_MAP -> e.1 ∈ token_fields) as Hin
      by (intros e He; do 2 right; apply list_elem_of_fmap; by exists e).
    revert Hin. induction BILLING_CACHE_VAR_MAP as [|e l IH]; intros Hin; [done|]. cbn [flat_map].
    rewrite IH by (intros; apply Hin; by right). f_equal. destruct (n_eqb _ _) eqn:Hz; [done|].
    rewrite token_printed; [done | done | apply Hin; by left | by left].
  - intros i Hi. cbn [app capture]. destruct (Nat.eqb_spec i (S g)), (Nat.eqb_spec i g); try lia. by apply Htail.
Qed.

Lemma base_at g tail : is_request tier = false ->
  captured_number g (token_news (cost tier) g ++ tail) = cost tier (js "input_unit_cost") /\
  captured_number (S g) (token_news (cost tier) g ++ tail) = cost tier (js "output_unit_cost").
Proof.
  intros Hr. unfold captured_number, token_news. rewrite <- !app_assoc, !capture_app, !capture_extra_below by lia.
  cbn [app capture]. rewrite !Nat.eqb_refl. destruct (Nat.eqb_spec g (S g)); [lia|].
  rewrite !token_printed; [done | done | set_solver | set_solver | done | set_solver | set_solver].
Qed.

Lemma captured_prices_get field : field ∈ map fst BILLING_CACHE_VAR_MAP ->
  number_or_zero (obj_get field captured_prices) = cost tier field.
Proof.
  intros Hf. unfold captured_prices. assert (NoDup (map fst BILLING_CACHE_VAR_MAP)) as Hn by (by compute_done).
  revert Hf Hn. induction BILLING_CACHE_VAR_MAP as [|e l IH]; intros Hf Hn; [by apply not_elem_of_nil in Hf|].
  cbn [map] in Hf, Hn. apply NoDup_cons in Hn as [He Hn]. cbn [flat_map].
  assert (forall f, f ∉ map fst l -> obj_get f (flat_map (fun e : str * str => if n_eqb (cost tier e.1) n_zero then [] else [(e.1, cost tier e.1)]) l) = None) as Hnone.
  { clear. induction l as [|x l IH]; intros f Hf; [done|]. cbn [flat_map]. destruct (n_eqb (cost tier x.1) n_zero); cbn [app obj_get].
    - apply IH. set_solver.
    - rewrite bool_decide_eq_false_2 by set_solver. apply IH. set_solver. }
  destruct (decide (field = e.1)) as [->|Hne].
  - destruct (n_eqb (cost tier e.1) n_zero) eqn:Hz; cbn [app obj_get].
    + rewrite Hnone by done. by rewrite cost_zero.
    + rewrite bool_decide_eq_true_2 by done. apply number_or_zero_idem.
  - assert (field ∈ map fst l) as Hf' by set_solver. destruct (n_eqb (cost tier e.1) n_zero); cbn [app obj_get].
    + by apply IH.
    + rewrite bool_decide_eq_false_2 by done. by apply IH.
Qed.

Lemma captured_prices_keys : NoDup (map fst captured_prices).
Proof.
  unfold captured_prices. assert (NoDup (map fst BILLING_CACHE_VAR_MAP)) as Hn by (by compute_done).
  assert (forall l x, x ∈ map fst (flat_map (fun e : str * str => if n_eqb (cost tier e.1) n_zero then [] else [(e.1, cost tier e.1)]) l) -> x ∈ map fst l) as Hin.
  { induction l as [|e l IH]; intros x; [done|]. cbn [flat_map]. destruct (n_eqb _ _); set_solver. }
  revert Hn. induction BILLING_CACHE_VAR_MAP as [|e l IH]; intros Hn; [constructor|]. cbn [map] in Hn.
  apply NoDup_cons in Hn as [He Hn]. cbn [flat_map]. destruct (n_eqb _ _); cbn [app map fst]; [by apply IH|].
  apply NoDup_cons. split; [|by apply IH]. intros H%Hin. done.
Qed.

Lemma captured_prices_other field : field ∉ map fst BILLING_CACHE_VAR_MAP -> obj_get field captured_prices = None.
Proof.
  unfold captured_prices. induction BILLING_CACHE_VAR_MAP as [|e l IH]; intros Hf; [done|]. cbn [flat_map].
  destruct (n_eqb _ _); cbn [app obj_get]; [apply IH; set_solver|].
  rewrite bool_decide_eq_false_2 by set_solver. apply IH. set_solver.
Qed.

(** A tier built on base prices and the captured ones. *)
Lemma token_cost base label conditions unit mode field :
  obj_get (js "input_unit_cost") base = Some (cost tier (js "input_unit_cost")) ->
  obj_get (js "output_unit_cost") base = Some (cost tier (js "output_unit_cost")) ->
  forallb (fun f => bool_decide (f ∉ map fst base)) (map fst BILLING_CACHE_VAR_MAP) = true ->
  field ∈ token_fields ->
  cost (VisualTier label conditions unit mode (spread_costs base captured_prices)) field = cost tier field.
Proof.
  intros Hi Ho Hb Hf. unfold cost at 1. cbn [vt_costs]. rewrite obj_get_spread by apply captured_prices_keys.
  apply elem_of_cons in Hf as [->|Hf].
  { rewrite captured_prices_other, Hi by (by compute_done). apply number_or_zero_idem. }
  apply elem_of_cons in Hf as [->|Hf].
  { rewrite captured_prices_other, Ho by (by compute_done). apply number_or_zero_idem. }
  pose proof (captured_prices_get field Hf) as E. destruct (obj_get field captured_prices) as [v|]; [exact E|].
  rewrite <- E. f_equal. rewrite forallb_forall in Hb. apply list_elem_of_In, Hb, bool_decide_eq_true in Hf.
  destruct (obj_get field base) as [v|] eqn:Ev; [|done]. exfalso. apply Hf, list_elem_of_fmap. exists (field, v).
  split; [done | by apply obj_get_Some].
Qed.

Variable cs : list tier_condition.
Hypothesis Hcs : forallb readable_condition cs = true.

Lemma capture_body : capture 3 (tier_news cs tier) = Some (buildTierBodyExpr tier).
Proof. done. Qed.

Lemma capture_label : capture 2 (tier_news cs tier) = Some (label_of tier).
Proof.
  unfold tier_news, body_news, token_news. cbn [app capture Nat.eqb].
  destruct (is_request tier); [done|]. by rewrite <- app_assoc, capture_app, capture_extra_below by lia.
Qed.

Lemma capture_conditions : default [] (capture 1 (tier_news cs tier)) = conjunction_text cs.
Proof.
  unfold tier_news, body_news, token_news. cbn [app capture Nat.eqb].
  destruct (is_request tier); [by destruct cs|]. rewrite <- app_assoc, capture_app, capture_extra_below by lia. by destruct cs.
Qed.

Lemma condition_news_above i : 2 <= i -> capture i (condition_news cs) = None.
Proof. intros Hi. destruct cs; [done|]. cbn. by destruct (Nat.eqb_spec i 1); [lia|]. Qed.

Lemma extras_read : is_request tier = false -> captured_extras 6 (tier_news cs tier) = captured_prices.
Proof.
  intros Hr. rewrite <- (extras_at 4 ([(2, label_of tier)] ++ condition_news cs)); [| done |].
  - unfold captured_extras, tier_news, body_news. by rewrite Hr.
  - intros i Hi. cbn [app capture]. destruct (Nat.eqb_spec i 2); [lia|]. apply condition_news_above. lia.
Qed.

Lemma extras_request : is_request tier = true -> captured_extras 6 (tier_news cs tier) = [].
Proof.
  intros Hr. unfold captured_extras, tier_news, body_news. rewrite Hr. destruct cs; vm_compute; reflexivity.
Qed.

(** The price captured for the input and the output. *)
Lemma captured_base : is_request tier = false ->
  captured_number 4 (tier_news cs tier) = cost tier (js "input_unit_cost") /\
  captured_number 5 (tier_news cs tier) = cost tier (js "output_unit_cost").
Proof.
  intros Hr. destruct (base_at 4 ([(2, label_of tier)] ++ condition_news cs) Hr) as [H4 H5].
  unfold tier_news, body_news. rewrite Hr. split; [exact H4 | exact H5].
Qed.

Lemma read_view :
  view (read_match (tier_news cs tier)) = TierView (label_of tier) cs (is_request tier) (view_prices (view tier)).
Proof.
  unfold read_match. rewrite capture_body, capture_label, capture_conditions, read_conjunction by done. cbn [default from_option]. unfold id.
  rewrite view_normalize by (cbn [vt_costs]; apply spread_keys; by compute_done).
  destruct (is_request tier) eqn:Hr.
  - rewrite amount_request, extras_request by done. unfold view. cbn. rewrite Hr. f_equal.
    unfold captured_number, cost at 1. cbn. destruct (writable_parts tier Hw) as (_ & _ & Hfix & _).
    apply Hfix, number_text in Hr as (_ & _ & Hx & _). rewrite Hx, bool_decide_eq_true_2 by done.
    unfold cost. by rewrite number_or_zero_idem.
  - rewrite amount_metered, extras_read by done. destruct (captured_base Hr) as [-> ->]. unfold view.
    cbn [label_of conditions_of is_request vt_label vt_conditions vt_billing_unit default from_option view_prices]. unfold id.
    rewrite Hr. f_equal. apply map_ext_in. intros field Hf. apply list_elem_of_In in Hf. f_equal.
    apply token_cost; [done | done | vm_compute; reflexivity | done].
Qed.

End read.

(** * The expression depends only on what is shown *)

Lemma view_costs a b : view a = view b -> forall field,
  field ∈ (if is_request a then [js "fixed_price"] else token_fields) -> cost a field = cost b field.
Proof.
  unfold view. intros [= _ _ Hr Hp] field Hf. rewrite <- Hr in Hp. revert Hp Hf.
  generalize (if is_request a then [js "fixed_price"] else token_fields) as l. induction l as [|f l IH]; intros Hp Hf; [by apply not_elem_of_nil in Hf|].
  cbn [map] in Hp. injection Hp as Hc Hp. apply elem_of_cons in Hf as [->|Hf]; [done | by apply IH].
Qed.

Lemma body_view a b : view a = view b -> buildTierBodyExpr a = buildTierBodyExpr b.
Proof.
  intros H. pose proof (view_costs a b H) as Hc. assert (is_request a = is_request b) as Hr by (unfold view in H; congruence).
  destruct (is_request a) eqn:Ha.
  - rewrite !request_body by done. f_equal. apply Hc. set_solver.
  - rewrite !metered_body by done. unfold token_body. rewrite (Hc (js "input_unit_cost")), (Hc (js "output_unit_cost")) by set_solver.
    do 3 f_equal. f_equal. apply map_ext_in. intros e He. unfold extra_part. rewrite Hc; [done|].
    do 2 right. apply list_elem_of_fmap. exists e. split; [done | by apply list_elem_of_In].
Qed.

Lemma label_view fallback t : label_or fallback t = match label_of t with [] => fallback | label => label end.
Proof. unfold label_or, label_of. by destruct (vt_label t) as [[]|]. Qed.
Lemma conditions_view a b : view a = view b -> buildConditionStr (vt_conditions a) = buildConditionStr (vt_conditions b).
Proof. unfold view, buildConditionStr, conditions_of. by intros [= _ -> _ _]. Qed.

Lemma generate_view a b : map view a = map view b ->
  generateExprFromVisualConfig (Some a) = generateExprFromVisualConfig (Some b).
Proof.
  assert (forall fallback x y, view x = view y -> tier_call (label_or fallback x) x = tier_call (label_or fallback y) y) as Hcall.
  { intros fallback x y H. unfold tier_call. rewrite (body_view x y H), !label_view. unfold view in H. by injection H as ->. }
  intros H. assert (length a = length b) as Hl by (apply (f_equal length) in H; by rewrite !length_map in H).
  assert (forall i n x y, view x = view y -> tier_part n i x = tier_part n i y) as Hpart.
  { intros i n x y Hv. unfold tier_part. by rewrite (Hcall _ x y), (conditions_view x y). }
  destruct a as [|x [|x' a]], b as [|y [|y' b]]; try done.
  - assert (view x = view y) as Hv by (cbn [map] in H; congruence). unfold generateExprFromVisualConfig. by rewrite (Hcall _ x y), (conditions_view x y).
  - unfold generateExprFromVisualConfig. f_equal. rewrite Hl. generalize (length (y :: y' :: b)) as n. intros n.
    clear Hl. revert H. generalize (y :: y' :: b) as ys. generalize (x :: x' :: a) as xs. intros xs. 
    assert (forall ys k, map view xs = map view ys -> imap (fun i => tier_part n (k + i)) xs = imap (fun i => tier_part n (k + i)) ys) as Hi;
      [|by intros ys; apply (Hi ys 0)].
    induction xs as [|u xs IH]; intros [|v ys] k Hv; try done. cbn [map] in Hv.
    assert (view u = view v /\ map view xs = map view ys) as [Hu Hvs] by (split; congruence). cbn [imap].
    rewrite (Hpart _ _ u v Hu). f_equal.
    transitivity (imap (fun i => tier_part n (S k + i)) xs); [apply imap_ext; intros; cbn; by rewrite Nat.add_succ_r|].
    rewrite (IH ys) by exact Hvs. apply imap_ext. intros. cbn. by rewrite Nat.add_succ_r.
Qed.

(** * Searching the written text *)

Lemma search_step r prev s :
  search r prev s = match match_here r prev s with
                    | Some found => Some found
                    | None => match s with [] => None | c :: s' => search r (Some c) s' end
                    end.
Proof. by destruct s. Qed.
Lemma search_takes r w new rest prev : takes r w new rest -> search r prev (w ++ rest) = Some (new, ends prev w, rest).
Proof. intros H. by rewrite search_step, (match_here_takes _ _ _ _ _ H). Qed.
Lemma search_skip r c s prev : fails r (c :: s) -> search r prev (c :: s) = search r (Some c) s.
Proof. intros H. by rewrite search_step, match_here_fails. Qed.

Lemma fails_tier c s : c ∉ [112%N; 99%N; 108%N; 116%N] -> fails tier_pattern (c :: s).
Proof.
  intros Hc. assert (forall d t, d ∈ [112%N; 99%N; 108%N; 116%N] -> starts_with (c :: s) (d :: t) = false) as H.
  { intros d t Hd. cbn. destruct (N.eqb_spec d c) as [->|]; done. }
  apply fails_opt_seq.
  - apply fails_seq, fails_group, fails_seq, fails_seq. apply fails_alt; [apply fails_text, H; set_solver|].
    apply fails_alt; apply fails_text, H; set_solver.
  - apply fails_seq, fails_seq, fails_text, H. set_solver.
Qed.

Lemma search_separator prev s : search tier_pattern prev (js " : " ++ s) = search tier_pattern (Some 32%N) s.
Proof.
  change (js " : " ++ s) with (32%N :: 58%N :: 32%N :: s). rewrite !search_skip; [done | apply fails_tier; by compute_done..].
Qed.

(** What is written for a tier and its conditions. *)
Definition part (tier : visual_tier) : str := guard_text (conditions_of tier) ++ call_text tier.

Lemma search_parts tiers fuel prev :
  tiers <> [] -> forallb writable_tier tiers = true -> length tiers <= fuel ->
  search_all fuel tier_pattern prev (join (js " : ") (map part tiers)) =
  map (fun t => tier_news (conditions_of t) t) tiers.
Proof.
  revert fuel prev. induction tiers as [|t tiers IH]; intros fuel prev Hne Hw Hf; [done|].
  cbn [forallb] in Hw. apply andb_true_iff in Hw as [Ht Hw]. destruct fuel as [|f]; [cbn in Hf; lia|].
  destruct (writable_parts t Ht) as (_ & _ & _ & _ & Hc). destruct tiers as [|t' tiers].
  - cbn [map join]. rewrite <- (app_nil_r (part t)). cbn [search_all]. unfold part.
    rewrite (search_takes _ _ _ _ _ (takes_tier t Ht _ [] Hc)). f_equal. by destruct f.
  - change (join (js " : ") (map part (t :: t' :: tiers))) with (part t ++ js " : " ++ join (js " : ") (map part (t' :: tiers))).
    rewrite (map_cons _ t). cbn [search_all]. unfold part at 1. rewrite (search_takes _ _ _ _ _ (takes_tier t Ht _ _ Hc)). f_equal.
    rewrite <- (IH f (Some 32%N)); [|done | done | cbn in Hf |- *; lia].
    destruct f as [|f]; [cbn in Hf; lia|]. cbn [search_all]. by rewrite search_separator.
Qed.

Lemma part_nonempty t : part t <> [].
Proof. unfold part, call_text, opening. destruct (guard_text _); discriminate. Qed.

Lemma parts_length tiers : length tiers <= length (join (js " : ") (map part tiers)).
Proof.
  induction tiers as [|t tiers IH]; [done|]. pose proof (part_nonempty t) as H. destruct tiers as [|t' tiers].
  - cbn. destruct (part t); [done | cbn; lia].
  - change (join (js " : ") (map part (t :: t' :: tiers))) with (part t ++ js " : " ++ join (js " : ") (map part (t' :: tiers))).
    rewrite !length_app. cbn [length] in *. destruct (part t); cbn [length]; [done | lia].
Qed.

(** ** One tier with a condition, and the price of nothing after it *)

Lemma search_rest prev : search tier_pattern prev (js " : " ++ empty_price) = None.
Proof. rewrite search_separator. vm_compute. reflexivity. Qed.

Lemma search_single t prev fuel : writable_tier t = true -> 0 < fuel ->
  search_all fuel tier_pattern prev (part t ++ js " : " ++ empty_price) = [tier_news (conditions_of t) t].
Proof.
  intros Ht Hf. destruct (writable_parts t Ht) as (_ & _ & _ & _ & Hc). destruct fuel as [|f]; [lia|].
  cbn [search_all]. unfold part. rewrite (search_takes _ _ _ _ _ (takes_tier t Ht _ _ Hc)). f_equal.
  destruct f as [|f]; [done|]. cbn [search_all]. by rewrite search_rest.
Qed.

(** * The text that is written *)

Lemma readable_complete c : readable_condition c = true -> complete_condition c = true.
Proof.
  unfold readable_condition, complete_condition. intros [[Hv Ho]%andb_true_iff Hx]%andb_true_iff. breflect.
  apply andb_true_iff. split; [|by destruct (ci_value c)]. apply andb_true_iff.
  split; apply bool_decide_eq_true_2; [by apply var_cases in Hv as [-> |[-> | ->]] | by apply op_cases in Ho as [-> |[-> |[-> | ->]]]].
Qed.

Lemma built_conditions t : forallb readable_condition (conditions_of t) = true ->
  buildConditionStr (vt_conditions t) = conjunction_text (conditions_of t).
Proof.
  intros H. unfold buildConditionStr, conjunction_text. do 2 f_equal. fold (conditions_of t).
  induction (conditions_of t) as [|c l IH]; [done|]. cbn [forallb] in H. apply andb_true_iff in H as [Hc Hl].
  cbn [List.filter]. rewrite readable_complete by done. f_equal. by apply IH.
Qed.

Lemma conjunction_nonempty cs : cs <> [] -> forallb readable_condition cs = true -> conjunction_text cs <> [].
Proof.
  destruct cs as [|c cs]; [done|]. intros _ H. cbn [forallb] in H. apply andb_true_iff in H as [H _].
  apply condition_unbroken in H as (_ & _ & H). unfold conjunction_text. destruct cs; cbn [map join]; by destruct (condition_text c).
Qed.

Lemma call_written t fallback : label_of t <> [] -> tier_call (label_or fallback t) t = call_text t.
Proof. intros H. unfold tier_call, call_text, opening. rewrite label_view. destruct (label_of t); [done|]. by rewrite <- !app_assoc. Qed.

Lemma part_written n i t :
  writable_tier t = true -> i < n - 1 \/ conditions_of t = [] -> tier_part n i t = part t.
Proof.
  intros Ht Hi. destruct (writable_parts t Ht) as (Hl & _ & _ & _ & Hc). unfold tier_part, part.
  rewrite call_written, built_conditions by done. destruct (conditions_of t) as [|c cs] eqn:E; [done|].
  destruct Hi as [Hi|]; [|done]. pose proof (conjunction_nonempty (c :: cs) ltac:(done) Hc) as Hne.
  destruct (conjunction_text (c :: cs)) as [|d s] eqn:Es; [done|]. rewrite bool_decide_eq_true_2 by done.
  unfold guard_text. rewrite Es. by rewrite <- app_assoc.
Qed.

Lemma several_written tiers :
  1 < length tiers -> forallb writable_tier tiers = true ->
  (forall t, last tiers = Some t -> conditions_of t = []) ->
  generateExprFromVisualConfig (Some tiers) = join (js " : ") (map part tiers).
Proof.
  intros Hlen Hw Hlast. destruct tiers as [|t [|t' tiers]]; [cbn in Hlen; lia..|]. unfold generateExprFromVisualConfig. f_equal.
  apply list_eq. intros i. rewrite list_lookup_imap, list_lookup_fmap.
  remember (t :: t' :: tiers) as l eqn:El. destruct (l !! i) as [x|] eqn:Hx; [|done]. cbn. f_equal.
  apply part_written.
  - rewrite forallb_forall in Hw. apply Hw, list_elem_of_In. by eapply list_elem_of_lookup_2.
  - pose proof (lookup_lt_Some _ _ _ Hx). destruct (decide (i < length l - 1)); [by left | right].
    apply Hlast. rewrite last_lookup. replace (pred (length l)) with i by lia. done.
Qed.

(** * What the other patterns do not match *)

Lemma part_head t rest : writable_tier t = true ->
  exists c s, part t ++ rest = c :: s /\ c ∈ [112%N; 99%N; 108%N; 116%N] /\ (conditions_of t <> [] -> c <> 116%N).
Proof.
  intros Ht. destruct (writable_parts t Ht) as (_ & _ & _ & _ & Hc). unfold part, call_text, opening.
  destruct (conditions_of t) as [|x cs]; [do 2 eexists; split; [reflexivity | split; [set_solver | done]]|].
  cbn [forallb] in Hc. apply andb_true_iff in Hc as [Hx _]. unfold readable_condition in Hx. rewrite !andb_true_iff in Hx.
  destruct Hx as [[Hv _] _]. apply bool_decide_eq_true in Hv.
  unfold guard_text, conjunction_text. cbn [map]. rewrite join_concat_map. unfold condition_text.
  apply var_cases in Hv as [-> |[-> | ->]]; do 2 eexists; (split; [cbn; reflexivity | split; [set_solver | done]]).
Qed.

Lemma version_none c s : c <> 118%N -> match_whole version_pattern (c :: s) = None.
Proof. intros H. apply match_whole_fails, fails_seq, fails_one. cbn. by apply N.eqb_neq. Qed.

Lemma opening_none X c s : c <> 116%N -> match_whole (P_all [opening_pattern 1; X; P_one 41]) (c :: s) = None.
Proof.
  intros H. apply match_whole_fails, fails_seq, fails_seq, fails_text. change (js "tier(") with (116%N :: js "ier(").
  cbn [starts_with]. apply N.eqb_neq in H. by rewrite N.eqb_sym, H.
Qed.

Lemma plain_unique l1 t1 l2 t2 :
  plain_label l1 = true -> plain_label l2 = true -> l1 ++ dquote :: t1 = l2 ++ dquote :: t2 -> l1 = l2 /\ t1 = t2.
Proof.
  revert l2. induction l1 as [|c l1 IH]; intros [|d l2] H1 H2 E; cbn in H1, H2, E.
  - by injection E as ->.
  - injection E as <- _. done.
  - injection E as -> _. done.
  - injection E as -> E. apply andb_true_iff in H1 as [_ H1], H2 as [_ H2]. destruct (IH l2 H1 H2 E) as [-> ->]. done.
Qed.

(** A text matched by an opening and a pattern without quotes. *)
Lemma opening_lang X s :
  lang (P_all [opening_pattern 1; X; P_one 41]) s ->
  exists label w body, s = js "tier(" ++ [dquote] ++ label ++ dquote :: (44%N :: w ++ body ++ js ")") /\
    plain_label label = true /\ forallb is_space w = true /\ lang X body.
Proof.
  intros (o & r & -> & Ho & (body & r' & -> & Hb & (u & v & -> & ->%lang_one_inv & ->%lang_empty_inv)%lang_seq_inv)%lang_seq_inv)%lang_seq_inv.
  unfold opening_pattern in Ho. cbn [P_all] in Ho.
  apply lang_seq_inv in Ho as (? & ? & -> & ->%lang_text_inv & Ho). apply lang_seq_inv in Ho as (? & ? & -> & ->%lang_one_inv & Ho).
  apply lang_seq_inv in Ho as (label & ? & -> & Hl%lang_group_inv%lang_class_inv & Ho).
  apply lang_seq_inv in Ho as (? & ? & -> & ->%lang_one_inv & Ho). apply lang_seq_inv in Ho as (? & ? & -> & ->%lang_one_inv & Ho).
  apply lang_seq_inv in Ho as (w & ? & -> & Hw%lang_class_inv & ->%lang_empty_inv).
  exists label, w, body. split; [by rewrite app_nil_r, <- !app_assoc|]. done.
Qed.

(** A text with a quote after its first tier call. *)
Lemma several_none X label tail :
  avoids dquote X = true -> plain_label label = true -> dquote ∈ tail ->
  match_whole (P_all [opening_pattern 1; X; P_one 41]) (opening label ++ tail) = None.
Proof.
  intros Ha Hl Ht. destruct (match_whole _ _) as [caps|] eqn:E; [|done]. exfalso.
  apply match_whole_sound, opening_lang in E as (label' & w & body & E & Hl' & Hw & Hb).
  unfold opening in E. rewrite <- !app_assoc in E. apply app_inv_head, app_inv_head in E. cbn [app] in E.
  apply plain_unique in E as [-> E]; [|done | done]. pose proof (lang_avoids _ _ _ Ha Hb) as Hq.
  assert (dquote ∉ w) as Hqw by (intros Hin; rewrite forallb_forall in Hw; apply list_elem_of_In, Hw in Hin; done).
  assert (dquote ∈ js ", " ++ tail) as Hin by (apply elem_of_app; by right). rewrite E in Hin.
  apply elem_of_cons in Hin as [Hin|Hin]; [done|]. rewrite !elem_of_app in Hin. destruct Hin as [?|[?|Hin]]; [done | done |].
  revert Hin. by compute_done.
Qed.

(** A tier with token prices is not taken for a fixed one. *)
Lemma fixed_none t : writable_tier t = true -> is_request t = false -> match_whole fixed_pattern (call_text t) = None.
Proof.
  intros Ht Hr. destruct (match_whole _ _) as [caps|] eqn:E; [|done]. exfalso. destruct (writable_parts t Ht) as (_ & Hl & _).
  apply match_whole_sound, opening_lang in E as (label' & w & body & E & Hl' & Hw & Hb).
  unfold call_text, opening in E. rewrite <- !app_assoc in E. apply app_inv_head, app_inv_head in E. cbn [app] in E.
  apply plain_unique in E as [_ E]; [|done | done]. rewrite metered_body in E by done. unfold token_body, price_text in E.
  apply lang_seq_inv in Hb as (f & r & -> & ->%lang_text_inv & _).
  assert (forall i, (js ", " ++ js "p" ++ js " * ") !! i <> None -> (44%N :: w ++ (js "fixed(" ++ r) ++ js ")") !! i = (js ", " ++ js "p" ++ js " * ") !! i) as Hi.
  { intros i Hne. rewrite <- E, <- !app_assoc. rewrite !(app_assoc (js ", ")), !(app_assoc (js ", " ++ js "p")).
    apply lookup_app_l. apply not_eq_None_Some in Hne as [x Hx]. by eapply lookup_lt_Some. }
  destruct w as [|a [|b w]].
  - specialize (Hi 1 ltac:(done)). done.
  - specialize (Hi 2 ltac:(done)). done.
  - specialize (Hi 2 ltac:(done)). cbn in Hi. injection Hi as ->. cbn in Hw. by rewrite andb_false_r in Hw.
Qed.

(** * Reading back *)

(** The search for several tiers, once the other patterns do not match. *)
Lemma searched_config tiers s :
  tiers <> [] -> forallb writable_tier tiers = true -> s <> [] ->
  match_whole version_pattern s = None -> match_whole fixed_pattern s = None -> match_whole single_pattern s = None ->
  all_matches tier_pattern s = map (fun t => tier_news (conditions_of t) t) tiers ->
  generateExprFromVisualConfig (Some tiers) = s ->
  exists read, tryParseVisualConfig s = Some read /\ map view read = map view tiers.
Proof.
  intros Hne Hw Hs Hv Hf H1 Hall Hgen. unfold tryParseVisualConfig. destruct s as [|c s0] eqn:Es; [done|]. rewrite <- Es in *.
  rewrite Hv, Hf, H1, Hall, map_map. set (read := map (fun t => read_match (tier_news (conditions_of t) t)) tiers).
  assert (map view (map normalizeVisualTier read) = map view tiers) as Hview.
  { unfold read. rewrite !map_map. apply map_ext_in. intros t Ht. rewrite forallb_forall in Hw. specialize (Hw t Ht).
    rewrite view_normalize by (unfold read_match; apply normalize_costs_keys).
    rewrite read_view; [done | done | by apply writable_parts]. }
  assert (normalizeVisualConfig (Some read) = map normalizeVisualTier read) as Hn by (unfold read; by destruct tiers).
  destruct read as [|r0 rs] eqn:Er; [by destruct tiers|]. rewrite <- Er in *. rewrite Hn.
  rewrite (generate_view _ tiers Hview), Hgen, bool_decide_eq_true_2 by done. by exists (map normalizeVisualTier read).
Qed.

Lemma fixed_avoids : avoids dquote (fixed_body (P_group 2 number_pattern)) = true.
Proof. vm_compute. reflexivity. Qed.
Lemma body_avoids : avoids dquote (body_pattern 2) = true.
Proof. vm_compute. reflexivity. Qed.

(** Neither pattern for one tier matches a text with a condition or with several tiers. *)
Lemma whole_none t tail :
  writable_tier t = true -> conditions_of t <> [] \/ dquote ∈ tail ->
  let s := part t ++ tail in
  s <> [] /\ match_whole version_pattern s = None /\ match_whole fixed_pattern s = None /\ match_whole single_pattern s = None.
Proof.
  intros Ht Hor s. destruct (part_head t tail Ht) as (c & r & E & Hc & Hg). fold s in E. rewrite E.
  split; [done|]. split; [apply version_none; set_solver|]. destruct (decide (conditions_of t = [])) as [Hnil|Hne].
  - destruct Hor as [|Hq]; [done|]. rewrite <- E. unfold s, part. rewrite Hnil. cbn [guard_text app]. unfold call_text.
    destruct (writable_parts t Ht) as (_ & Hl & _). rewrite <- !app_assoc.
    assert (dquote ∈ buildTierBodyExpr t ++ js ")" ++ tail) as Hin by (rewrite !elem_of_app; auto).
    split; apply several_none; auto using fixed_avoids, body_avoids.
  - split; by apply opening_none, Hg.
Qed.

Lemma fixed_read t :
  writable_tier t = true -> is_request t = true ->
  match_whole fixed_pattern (call_text t) = Some [(2, string_of_number (cost t (js "fixed_price"))); (1, label_of t)].
Proof.
  intros Ht Hr. destruct (writable_parts t Ht) as (_ & Hl & Hfix & _). specialize (Hfix Hr). apply match_whole_takes.
  take_steps [Step (opening_pattern 1) (opening (label_of t)) [(1, label_of t)];
    Step (fixed_body (P_group 2 number_pattern)) (buildTierBodyExpr t) [(2, string_of_number (cost t (js "fixed_price")))];
    Step (P_one 41) [41%N] []].
  - apply takes_opening; [done | apply body_head].
  - rewrite request_body by done. apply takes_fixed; [done|]. apply takes_number_group; [done | by right].
  - apply takes_one.
Qed.

Lemma metered_read t :
  writable_tier t = true -> is_request t = false ->
  match_whole single_pattern (call_text t) = Some (token_news (cost t) 2 ++ [(1, label_of t)]).
Proof.
  intros Ht Hr. destruct (writable_parts t Ht) as (_ & Hl & _ & Htok & _). apply match_whole_takes.
  take_steps [Step (opening_pattern 1) (opening (label_of t)) [(1, label_of t)];
    Step (body_pattern 2) (buildTierBodyExpr t) (token_news (cost t) 2); Step (P_one 41) [41%N] []].
  - apply takes_opening; [done | apply body_head].
  - rewrite metered_body by done. by apply takes_token_body, Htok.
  - apply takes_one.
Qed.

Lemma single_read t :
  writable_tier t = true -> conditions_of t = [] ->
  exists read, tryParseVisualConfig (call_text t) = Some [read] /\ view read = view t.
Proof.
  intros Ht Hnil. unfold tryParseVisualConfig.
  change (call_text t) with (116%N :: (js "ier(" ++ [dquote] ++ label_of t ++ [dquote] ++ js ", ") ++ buildTierBodyExpr t ++ js ")") at 1.
  assert (match_whole version_pattern (call_text t) = None) as -> by (by apply version_none).
  destruct (is_request t) eqn:Hr.
  - rewrite fixed_read by done. eexists. split; [reflexivity|].
    rewrite !view_normalize by (apply normalize_costs_keys || by compute_done).
    unfold view. cbn [label_of conditions_of is_request vt_label vt_conditions vt_billing_unit default from_option capture Nat.eqb].
    unfold id. rewrite Hr, Hnil. f_equal. cbn [map]. unfold captured_number, cost at 1. cbn. rewrite bool_decide_eq_true_2 by done.
    apply (writable_parts t Ht), number_text in Hr as (_ & _ & -> & _). unfold cost. by rewrite number_or_zero_idem.
  - rewrite fixed_none, metered_read by done.
    destruct (base_at t Ht 2 [(1, label_of t)] Hr) as [-> ->].
    assert (captured_extras 4 (token_news (cost t) 2 ++ [(1, label_of t)]) = captured_prices t) as ->.
    { apply (extras_at t Ht 2); [done|]. intros i Hi. cbn. by destruct (Nat.eqb_spec i 1); [lia|]. }
    assert (capture 1 (token_news (cost t) 2 ++ [(1, label_of t)]) = Some (label_of t)) as ->.
    { unfold token_news. by rewrite <- app_assoc, capture_app, capture_extra_below by lia. }
    eexists. split; [reflexivity|].
    rewrite !view_normalize by (apply normalize_costs_keys || (apply spread_keys; by compute_done)).
    unfold view. cbn [label_of conditions_of is_request vt_label vt_conditions vt_billing_unit default from_option]. unfold id.
    rewrite Hr, Hnil. f_equal. apply map_ext_in. intros field Hf. f_equal. apply list_elem_of_In in Hf.
    apply token_cost; [done | done | done | vm_compute; reflexivity | done].
Qed.

(** The editor reads back what it shows of the tiers it wrote. *)
Lemma visual_round tiers :
  tiers <> [] -> forallb writable_tier tiers = true ->
  (1 < length tiers -> forall t, last tiers = Some t -> conditions_of t = []) ->
  exists read, tryParseVisualConfig (generateExprFromVisualConfig (Some tiers)) = Some read /\ map view read = map view tiers.
Proof.
  intros Hne Hw Hlast. destruct tiers as [|t rest]; [done|]. pose proof Hw as Hw'. cbn [forallb] in Hw'.
  apply andb_true_iff in Hw' as [Ht Hrest]. destruct (writable_parts t Ht) as (Hl & _ & _ & _ & Hc).
  destruct rest as [|t' rest].
  - unfold generateExprFromVisualConfig. rewrite call_written, built_conditions by done.
    destruct (conditions_of t) as [|c cs] eqn:Ec.
    { change (exists read, tryParseVisualConfig (call_text t) = Some read /\ map view read = map view [t]).
      destruct (single_read t Ht Ec) as (read & -> & Hv). exists [read]. split; [done|]. cbn. by rewrite Hv. }
    pose proof (conjunction_nonempty (c :: cs) ltac:(done) Hc) as Hcn.
    assert ((match conjunction_text (c :: cs) with [] => call_text t
      | cond => cond ++ js " ? " ++ call_text t ++ js " : " ++ empty_price end) = part t ++ js " : " ++ empty_price) as Htext.
    { unfold part. rewrite Ec. unfold guard_text. destruct (conjunction_text (c :: cs)); [done|]. by rewrite <- !app_assoc. }
    rewrite Htext. destruct (whole_none t (js " : " ++ empty_price) Ht) as (Hs & Hv & Hf & H1); [left; by rewrite Ec|].
    apply searched_config; [done | done | done | done | done | done | |].
    + unfold all_matches. rewrite search_single by (done || lia). done.
    + unfold generateExprFromVisualConfig. rewrite call_written, built_conditions, Ec by (done || by rewrite Ec). exact Htext.
  - rewrite several_written; [|cbn; lia | done | intros; by apply Hlast; [cbn; lia|]].
    assert (join (js " : ") (map part (t :: t' :: rest)) = part t ++ (js " : " ++ join (js " : ") (map part (t' :: rest)))) as Ej by done.
    assert (dquote ∈ js " : " ++ join (js " : ") (map part (t' :: rest))) as Hq.
    { cbn [map]. rewrite join_concat_map. unfold part at 1, call_text, opening. rewrite !elem_of_app. right. left. right. left. right. left. left. }
    destruct (whole_none t _ Ht (or_intror Hq)) as (Hs & Hv & Hf & H1). rewrite <- Ej in Hs, Hv, Hf, H1.
    apply searched_config; [done | done | done | done | done | done | |].
    + unfold all_matches. apply search_parts; [done | done|]. pose proof (parts_length (t :: t' :: rest)). lia.
    + apply several_written; [cbn; lia | done | intros; by apply Hlast; [cbn; lia|]].
Qed.
