(* ===== verification/TierExprPrinting.v ===== *)
(** The expression of the visual tier editor in the billing language: it compiles, and
    the tier display shows the prices and conditions that were configured. *)

From S2P Require Import Prelude JsString JsNumber JsValue JsJson BillingTypes BillingParser BillingGrammar BillingCompile BillingTyping BillingCompileFacts BillingStructure BillingDisplay BillingExpr BillingExprFacts BillingPrinting JsPattern TierExpr TierExprFacts TierExprRound.

(** * Prices as terms *)

(** The further prices of a tier, with their variables of the language. *)
Definition extra_variables : list (str * billing_variable) :=
  [(js "cache_read_unit_cost", V_cr); (js "cache_create_unit_cost", V_cc); (js "image_cache_unit_cost", V_img_cr);
   (js "cache_create_1h_unit_cost", V_cc1h); (js "cache_create_12h_unit_cost", V_cc12h); (js "image_unit_cost", V_img);
   (js "image_output_unit_cost", V_img_o); (js "audio_input_unit_cost", V_ai); (js "audio_output_unit_cost", V_ao)].
Lemma extra_variables_registry : map (fun e => (e.1, variable_name e.2)) extra_variables = BILLING_CACHE_VAR_MAP.
Proof. vm_compute. reflexivity. Qed.

Definition token_prices (tier : visual_tier) : list (billing_variable * number) :=
  [(V_p, cost tier (js "input_unit_cost")); (V_c, cost tier (js "output_unit_cost"))] ++
  flat_map (fun e => if n_eqb (cost tier e.1) n_zero then [] else [(e.2, cost tier e.1)]) extra_variables.

Lemma body_terms tier : is_request tier = false ->
  buildTierBodyExpr tier = join (js " + ") (map (fun e => price_text (variable_name e.1) e.2) (token_prices tier)).
Proof.
  intros Hr. unfold buildTierBodyExpr, token_prices.
  assert (extra_terms tier = map (fun e => price_text (variable_name e.1) e.2)
    (flat_map (fun e => if n_eqb (cost tier e.1) n_zero then [] else [(e.2, cost tier e.1)]) extra_variables)) as E.
  { unfold extra_terms. rewrite <- extra_variables_registry. induction extra_variables as [|e l IH]; [done|].
    cbn [map flat_map fst snd]. rewrite IH, map_app. f_equal. by destruct (n_eqb _ _). }
  unfold is_request in Hr. destruct (vt_billing_unit tier) as [[]|]; rewrite ?map_app, <- ?E; done.
Qed.

Definition term_tree (e : billing_variable * number) : node := bin B_mul (NVariable e.1 0 0) (number_tree e.2).
Definition body_tree (tier : visual_tier) : node := chain B_add (map term_tree (token_prices tier)).
Definition call_tree (tier : visual_tier) : node := call F_tier [text (label_of tier); body_tree tier].

(** * Conditions as trees *)

Definition condition_of (c : tier_condition) : token_condition :=
  TokenCondition (default V_p (find_variable (ci_var c))) (default B_lt (find_operator (ci_op c)))
    (match ci_value c with CV_number x => x | _ => n_zero end).
Definition comparison_tree (c : token_condition) : node :=
  bin (tc_op c) (NVariable (tc_var c) 0 0) (number_tree (tc_value c)).
Definition guard_tree (cs : list tier_condition) : node := chain B_and (map (fun c => comparison_tree (condition_of c)) cs).

Lemma condition_of_facts c : readable_condition c = true ->
  variable_name (tc_var (condition_of c)) = ci_var c /\ operator_text (tc_op (condition_of c)) = ci_op c /\
  ci_value c = CV_number (tc_value (condition_of c)) /\ number_prints (tc_value (condition_of c)) = true /\
  is_token_operator (tc_op (condition_of c)) = true /\ is_condition_variable (tc_var (condition_of c)) = true.
Proof.
  unfold readable_condition. intros [[Hv Ho]%andb_true_iff Hx]%andb_true_iff. breflect.
  destruct c as [v o [x| |]]; try done. apply andb_true_iff in Hx as [Hx _]. cbn [ci_var ci_op ci_value] in *. unfold condition_of.
  cbn [ci_var ci_op ci_value tc_var tc_op tc_value].
  apply var_cases in Hv as [-> |[-> | ->]]; apply op_cases in Ho as [-> |[-> |[-> | ->]]]; done.
Qed.

(** * Chains of tiers *)

Fixpoint config_tree (tiers : list visual_tier) : node :=
  match tiers with
  | [] => NLiteral LNull false 0 0
  | [tier] => call_tree tier
  | tier :: rest => ite (guard_tree (conditions_of tier)) (call_tree tier) (config_tree rest)
  end.

(** A tier of token prices whose label needs no escapes. *)
Definition displayable_tier (tier : visual_tier) : bool :=
  writable_tier tier && negb (is_request tier) &&
  bool_decide (JSON_stringify (label_of tier) = [dquote] ++ label_of tier ++ [dquote]) &&
  forallb (fun c => (c <? 65536)%N) (label_of tier) && bool_decide (length (conditions_of tier) <= 100).
(** Every tier but the last is guarded. *)
Fixpoint guarded (tiers : list visual_tier) : bool :=
  match tiers with
  | [] => false
  | [tier] => bool_decide (conditions_of tier = [])
  | tier :: rest => bool_decide (conditions_of tier <> []) && guarded rest
  end.

Record displayable (tier : visual_tier) : Prop := {
  dis_writable : writable_tier tier = true;
  dis_metered : is_request tier = false;
  dis_label : JSON_stringify (label_of tier) = [dquote] ++ label_of tier ++ [dquote];
  dis_text : utf16 (label_of tier);
  dis_conditions : length (conditions_of tier) <= 100;
}.
Lemma displayable_iff tier : displayable_tier tier = true -> displayable tier.
Proof.
  unfold displayable_tier. rewrite !andb_true_iff. intros [[[[H1 H2] H3] H4] H5]. apply negb_true_iff in H2.
  apply bool_decide_eq_true in H3, H5. split; [done | done | done | | done]. apply Forall_forall. intros c Hc.
  rewrite forallb_forall in H4. by apply list_elem_of_In, H4, N.ltb_lt in Hc.
Qed.

(** ** Printing *)

Lemma prints_term e k : number_prints e.2 = true -> (k <= 6)%Z -> (0 <= k)%Z -> prints (price_text (variable_name e.1) e.2) k 2 (term_tree e).
Proof.
  intros He Hk H0. eapply (prints_weaken _ 6 2); [|lia | lia].
  change (price_text (variable_name e.1) e.2) with (variable_name e.1 ++ js " " ++ operator_text B_mul ++ js " " ++ string_of_number e.2).
  apply prints_binary; [cbn; lia | apply prints_variable | by apply prints_number].
Qed.

Lemma token_prices_print tier : writable_tier tier = true -> is_request tier = false ->
  Forall (fun e => number_prints e.2 = true) (token_prices tier).
Proof.
  intros Ht Hr. destruct (writable_parts tier Ht) as (_ & _ & _ & Htok & _). specialize (Htok Hr). unfold token_prints in Htok.
  rewrite !andb_true_iff in Htok. destruct Htok as [[Hi Ho] He]. unfold token_prices. cbn [app]. constructor; [done|]. constructor; [done|].
  rewrite <- extra_variables_registry in He. revert He. induction extra_variables as [|e l IH]; intros He; [constructor|].
  cbn [map forallb fst] in He. apply andb_true_iff in He as [He Hl]. cbn [flat_map]. apply Forall_app. split; [|by apply IH].
  destruct (n_eqb _ _); constructor; [done | constructor].
Qed.

Lemma prints_body tier : writable_tier tier = true -> is_request tier = false ->
  prints (buildTierBodyExpr tier) 5 3 (body_tree tier).
Proof.
  intros Ht Hr. rewrite body_terms by done. change (js " + ") with (js " " ++ operator_text B_add ++ js " ").
  apply (prints_chain B_add _ _ 2); [|done]. apply Forall2_fmap_2, Forall_Forall2_diag.
  eapply Forall_impl; [by apply token_prices_print|]. intros e He. apply prints_term; [done | cbn; lia | cbn; lia].
Qed.

Lemma prints_call_text tier k : displayable tier -> prints (call_text tier) k 4 (call_tree tier).
Proof.
  intros [Ht Hr Hl Hu _]. unfold call_text, opening.
  replace ((js "tier(" ++ [dquote] ++ label_of tier ++ [dquote] ++ js ", ") ++ buildTierBodyExpr tier ++ js ")") with
    (function_name F_tier ++ js "(" ++ (JSON_stringify (label_of tier) ++ js ", " ++ buildTierBodyExpr tier) ++ js ")")
    by (rewrite Hl, <- !app_assoc; done).
  apply prints_call; [|done]. apply prints_args_more; [by apply prints_string | | done].
  apply prints_args_one. eapply prints_weaken; [by apply prints_body | lia | lia].
Qed.

Lemma prints_guard cs : cs <> [] -> forallb readable_condition cs = true ->
  prints (conjunction_text cs) 2 3 (guard_tree cs).
Proof.
  intros Hne Hc. unfold conjunction_text, guard_tree. change (js " && ") with (js " " ++ operator_text B_and ++ js " ").
  apply (prints_chain B_and _ _ 2); [|by destruct cs]. apply Forall2_fmap_2, Forall_Forall2_diag, Forall_forall. intros c Hin.
  rewrite forallb_forall in Hc. apply list_elem_of_In, Hc, condition_of_facts in Hin as (Hv & Ho & Hx & Hn & Ht & _).
  unfold condition_text. rewrite <- Hv, <- Ho, Hx. cbn [value_text]. unfold comparison_tree.
  apply prints_binary; [by destruct (tc_op (condition_of c)) | apply prints_variable | by apply prints_number].
Qed.

Lemma prints_config tiers :
  tiers <> [] -> Forall displayable tiers -> guarded tiers = true ->
  prints (join (js " : ") (map part tiers)) 0 (3 + length tiers) (config_tree tiers).
Proof.
  intros Hne Hd. induction Hd as [|t tiers Ht Hd IH]; intros Hg; [done|]. clear Hne. destruct tiers as [|t' tiers].
  - cbn [guarded] in Hg. apply bool_decide_eq_true in Hg. cbn [map join config_tree length]. unfold part. rewrite Hg. cbn [guard_text app].
    by apply prints_call_text.
  - remember (t' :: tiers) as rest eqn:Erest. assert (guarded (t :: rest) = bool_decide (conditions_of t <> []) && guarded rest) as Eg by (by subst).
    rewrite Eg in Hg. apply andb_true_iff in Hg as [Hc Hg]. apply bool_decide_eq_true in Hc.
    assert (join (js " : ") (map part (t :: rest)) =
      conjunction_text (conditions_of t) ++ js " ? " ++ call_text t ++ js " : " ++ join (js " : ") (map part rest)) as ->.
    { subst rest. change (join (js " : ") (map part (t :: t' :: tiers))) with (part t ++ js " : " ++ join (js " : ") (map part (t' :: tiers))).
      unfold part at 1, guard_text. destruct (conditions_of t); [done|]. by rewrite <- !app_assoc. }
    assert (config_tree (t :: rest) = ite (guard_tree (conditions_of t)) (call_tree t) (config_tree rest)) as -> by (by subst).
    assert (rest <> []) as Hr by (by subst). specialize (IH Hr Hg). cbn [length]. rewrite Nat.add_succ_r. apply prints_conditional.
    + eapply prints_weaken; [apply prints_guard; [done | by apply writable_parts, dis_writable] | lia | lia].
    + eapply (prints_weaken _ 0); [by apply prints_call_text | lia | subst rest; cbn; lia].
    + exact IH.
Qed.

(** ** Compiling *)

Lemma token_prices_length tier : 2 <= length (token_prices tier) <= 11.
Proof.
  unfold token_prices. rewrite length_app. cbn [length].
  assert (forall l : list (str * billing_variable), length (flat_map (fun e => if n_eqb (cost tier e.1) n_zero then [] else [(e.2, cost tier e.1)]) l) <= length l) as H.
  { induction l as [|e l IH]; [done|]. cbn [flat_map]. rewrite length_app. cbn [length]. destruct (n_eqb _ _); cbn [length]; lia. }
  specialize (H extra_variables). cbn [extra_variables length] in H. lia.
Qed.

Lemma call_tree_facts tier :
  type_of (call_tree tier) = Some Ty_number /\ (height (call_tree tier) <= 20)%Z /\ all_ordinary (call_tree tier) = true.
Proof.
  pose proof (token_prices_length tier) as Hlen.
  assert (map term_tree (token_prices tier) <> []) as Hne by done.
  assert (type_of (body_tree tier) = Some Ty_number) as Ht.
  { apply (chain_invariant (fun t => type_of t = Some Ty_number)); [done | apply Forall_fmap, Forall_forall; by intros|].
    intros x y Hx Hy. cbn [bin type_of]. by rewrite Hx, Hy. }
  assert (all_ordinary (body_tree tier) = true) as Ho.
  { apply (chain_invariant (fun t => all_ordinary t = true)); [done | apply Forall_fmap, Forall_forall; by intros|].
    intros x y Hx Hy. cbn [bin all_ordinary]. by rewrite Hx, Hy. }
  assert (height (body_tree tier) <= 2 + Z.of_nat (length (map term_tree (token_prices tier))))%Z as Hh
    by (apply chain_height; [lia|]; apply Forall_fmap, Forall_forall; intros; cbn; lia).
  rewrite length_map in Hh. unfold call_tree. cbn [call type_of height all_ordinary map all_some fold_right forallb text literal_type].
  rewrite Ht, Ho. split; [done|]. split; [|done]. pose proof (height_nonneg (body_tree tier)). lia.
Qed.

Lemma guard_tree_facts cs :
  cs <> [] -> forallb readable_condition cs = true ->
  type_of (guard_tree cs) = Some Ty_boolean /\ (height (guard_tree cs) <= 2 + Z.of_nat (length cs))%Z /\
  all_ordinary (guard_tree cs) = true.
Proof.
  intros Hne Hc. unfold guard_tree. set (trees := map _ cs). assert (trees <> []) as Hm by (by destruct cs).
  assert (Forall (fun t => type_of t = Some Ty_boolean /\ (height t <= 1)%Z /\ all_ordinary t = true) trees) as Hall.
  { apply Forall_fmap, Forall_forall. intros c Hin. rewrite forallb_forall in Hc. apply list_elem_of_In, Hc, condition_of_facts in Hin as (_ & _ & _ & _ & Ho & _).
    unfold compose. destruct (condition_of c) as [v o x]. cbn in *. split; [by destruct o | split; [lia | done]]. }
  split; [|split].
  - apply (chain_invariant (fun t => type_of t = Some Ty_boolean)); [done | eapply Forall_impl; [exact Hall|]; by intros t (? & _)|].
    intros x y Hx Hy. cbn [bin type_of]. by rewrite Hx, Hy.
  - pose proof (chain_height B_and trees 1 ltac:(lia)) as Hh. unfold trees in Hh at 3. rewrite length_map in Hh. rewrite Hh; [lia|].
    eapply Forall_impl; [exact Hall|]. by intros t (_ & ? & _).
  - apply (chain_invariant (fun t => all_ordinary t = true)); [done | eapply Forall_impl; [exact Hall|]; by intros t (_ & _ & ?)|].
    intros x y Hx Hy. cbn [bin all_ordinary]. by rewrite Hx, Hy.
Qed.

Lemma config_tree_facts tiers :
  tiers <> [] -> Forall displayable tiers -> guarded tiers = true ->
  type_of (config_tree tiers) = Some Ty_number /\ (height (config_tree tiers) <= 102 + Z.of_nat (length tiers))%Z /\
  all_ordinary (config_tree tiers) = true.
Proof.
  intros Hne Hd. induction Hd as [|t tiers Ht Hd IH]; intros Hg; [done|]. clear Hne. pose proof (call_tree_facts t) as (Htt & Hth & Hto).
  destruct tiers as [|t' tiers]; [cbn [config_tree length]; split; [done|]; split; [lia | done]|].
  remember (t' :: tiers) as rest eqn:Erest. assert (guarded (t :: rest) = bool_decide (conditions_of t <> []) && guarded rest) as Eg by (by subst).
  rewrite Eg in Hg. apply andb_true_iff in Hg as [Hc Hg]. apply bool_decide_eq_true in Hc.
  assert (config_tree (t :: rest) = ite (guard_tree (conditions_of t)) (call_tree t) (config_tree rest)) as -> by (by subst).
  destruct IH as (IHt & IHh & IHo); [by subst | done|].
  destruct (guard_tree_facts _ Hc ltac:(by apply writable_parts, dis_writable)) as (Hgt & Hgh & Hgo).
  pose proof (dis_conditions _ Ht). split; [|split].
  - cbn [ite type_of]. by rewrite Hgt, Htt, IHt.
  - cbn [ite height length]. lia.
  - cbn [ite all_ordinary]. rewrite Hgo, Hto, IHo. unfold call_tree. by destruct (config_tree rest) as [[]| | | | |].
Qed.

(** * The display *)

(** ** The reader does not look at positions *)

Lemma zero_literal_erase n : is_zero_literal (erase n) = is_zero_literal n.
Proof. by destruct n. Qed.
Lemma remainder_erase n : is_text_remainder (erase n) = is_text_remainder n.
Proof. destruct n as [| | | |o l r a b|]; try done. destruct o; try done. destruct l as [|v a' b'| | | |]; try done; destruct v; try done. by destruct r as [|w a'' b''| | | |]; try destruct w. Qed.

Lemma priced_variable_erase n : priced_variable (erase n) = priced_variable n.
Proof.
  destruct n as [| |f args a b| | |]; try done. destruct f; try done. destruct args as [|x [|y [|z l]]]; try done.
  cbn [erase map priced_variable]. by rewrite !zero_literal_erase, !remainder_erase.
Qed.
Lemma priced_term_erase n : priced_term (erase n) = priced_term n.
Proof.
  destruct n as [| | | |o l r a b|]; try done. destruct o; try done. cbn [erase priced_term].
  by rewrite !price_literal_erase, !priced_variable_erase.
Qed.
Lemma fold_price_erase l acc : fold_left add_price (map erase l) acc = fold_left add_price l acc.
Proof.
  revert acc. induction l as [|n l IH]; intros acc; [done|]. cbn [map fold_left]. rewrite IH. f_equal.
  unfold add_price. by rewrite priced_term_erase.
Qed.

Lemma tokenCondition_erase n : tokenCondition (erase n) = tokenCondition n.
Proof. destruct n as [| | | |o l r a b|]; try done. destruct l as [|v a' b'| | | |]; try done. by destruct r as [[]| | | | |]. Qed.
Lemma tokenConditions_erase n : tokenConditions (erase n) = tokenConditions n.
Proof.
  unfold tokenConditions. rewrite flatten_erase. induction (flattenBinary n B_and) as [|x l IH]; [done|].
  cbn [map map_option]. by rewrite tokenCondition_erase, IH.
Qed.

(** ** Tiers *)

Lemma prints_nonneg x : number_prints x = true -> n_leb n_zero x = true.
Proof.
  intros H. pose proof (number_text x H) as (_ & _ & Hs & Hm). destruct x as [[]|[]| |[] m e]; try done.
  exfalso. apply match_number_shape in Hm as (mt & ex & E & Hmt & _). destruct (mantissa_head mt Hmt) as (c & r & -> & Hc).
  cbn [string_of_number] in E. destruct (shortest m e) as [[ds k] n0] eqn:Es. injection E as <- _. by destruct Hc.
Qed.

Lemma fold_terms l acc :
  Forall (fun e => carries_price e.1 /\ n_leb n_zero e.2 = true) l -> NoDup (map fst (acc ++ l)) ->
  fold_left add_price (map term_tree l) (Some acc) = Some (acc ++ l).
Proof.
  revert acc. induction l as [|[v x] l IH]; intros acc Hall Hn; [by rewrite app_nil_r|].
  apply Forall_cons in Hall as [[Hv Hx] Hall]. cbn [map fold_left].
  assert (add_price (Some acc) (term_tree (v, x)) = Some (acc ++ [(v, x)])) as ->.
  { unfold add_price. cbn [mbind option_bind term_tree bin fst snd priced_term]. rewrite price_literal_number by done.
    cbn [priced_variable]. destruct Hv as [H1 H2]. cbn [fst] in *. rewrite !bool_decide_eq_false_2 by done. cbn.
    destruct (obj_get v acc) as [y|] eqn:E; [|done]. exfalso. apply obj_get_Some in E. rewrite map_app in Hn.
    apply NoDup_app in Hn as (_ & Hn & _). apply (Hn v); [apply list_elem_of_fmap; by exists (v, y) | left]. }
  rewrite IH; [by rewrite <- app_assoc | done | by rewrite <- app_assoc].
Qed.

Lemma token_prices_ok tier : prices_ok (token_prices tier).
Proof.
  assert (forall l : list (str * billing_variable), forall v x, (v, x) ∈ flat_map (fun e => if n_eqb (cost tier e.1) n_zero then [] else [(e.2, cost tier e.1)]) l -> v ∈ map snd l) as Hin.
  { induction l as [|e l IH]; intros v x; [by intros ?%not_elem_of_nil|]. cbn [flat_map map]. rewrite elem_of_app, elem_of_cons. intros [H|H]; [|right; by eapply IH].
    left. destruct (n_eqb _ _); [by apply not_elem_of_nil in H|]. apply list_elem_of_singleton in H. congruence. }
  assert (Forall (fun e => carries_price e.1) (token_prices tier)) as Hc.
  { apply Forall_forall. intros [v x] Hv. cbn. unfold token_prices in Hv. cbn [app] in Hv. rewrite !elem_of_cons in Hv.
    destruct Hv as [[= -> _]|[[= -> _]|Hv]]; [split; done..|]. apply Hin in Hv. cbn in Hv.
    repeat (apply elem_of_cons in Hv as [->|Hv]; [split; done|]). by apply not_elem_of_nil in Hv. }
  split; [|done]. unfold token_prices. cbn [app map fst].
  assert (NoDup (map snd extra_variables)) as Hn by (by compute_done).
  assert (NoDup (map fst (flat_map (fun e => if n_eqb (cost tier e.1) n_zero then [] else [(e.2, cost tier e.1)]) extra_variables))) as Hn'.
  { clear Hc. revert Hn. induction extra_variables as [|e l IH]; intros Hn; [constructor|]. cbn [map] in Hn. apply NoDup_cons in Hn as [He Hn].
    cbn [flat_map]. destruct (n_eqb _ _); [by apply IH|]. cbn [app map fst]. constructor; [|by apply IH].
    intros Hf. apply list_elem_of_fmap in Hf as ([w y] & E & Hw). apply He. rewrite E. by eapply Hin. }
  assert (forall v, v = V_p \/ v = V_c -> v ∉ map fst (flat_map (fun e => if n_eqb (cost tier e.1) n_zero then [] else [(e.2, cost tier e.1)]) extra_variables)) as Hbase.
  { intros v Hv Hf. apply list_elem_of_fmap in Hf as ([w y] & -> & Hw). apply Hin in Hw. revert Hw. cbn [fst] in Hv. destruct Hv as [-> | ->]; by compute_done. }
  constructor; [|constructor; [apply Hbase; by right | done]]. intros Hf. apply elem_of_cons in Hf as [|Hf]; [done|]. by apply (Hbase V_p (or_introl eq_refl)).
Qed.

(** The displayed tier. *)
Definition displayed (tier : visual_tier) (conditions : list token_condition) : token_tier :=
  TokenTier None false None None (label_of tier) conditions (token_prices tier).

Lemma read_call n tier conditions :
  displayable tier -> erase n = call_tree tier -> tokenTier n conditions None = Some (displayed tier conditions).
Proof.
  intros [Ht Hr _ _ _] E. destruct (token_prices_ok tier) as [Hnodup Hc].
  destruct n as [| |f args a b| | |]; try done. unfold call_tree, call, text in E. cbn [erase] in E. injection E as -> E.
  destruct args as [|x [|body [|z l]]]; try done. cbn [map] in E. injection E as Ex Eb.
  destruct x as [v i a' b'| | | | |]; try done. cbn [erase] in Ex. injection Ex as -> ->. 
  assert (fold_left add_price (flattenBinary body B_add) (Some []) = Some (token_prices tier)) as Hf.
  { rewrite <- fold_price_erase, <- flatten_erase, Eb. unfold body_tree.
    rewrite flatten_chain; [| done | apply Forall_fmap, Forall_forall; by intros].
    rewrite fold_terms; [done| |done]. pose proof (token_prices_print tier Ht Hr) as Hp. rewrite Forall_forall in Hp, Hc |- *.
    intros e He. split; [by apply Hc | by apply prints_nonneg, Hp]. }
  unfold tokenTier. rewrite Hf. cbn [mbind option_bind].
  assert (exists e es, token_prices tier = e :: es) as (e & es & Ep) by (unfold token_prices; cbn [app]; eauto).
  assert (exists l r a2 b2, body = NBinary B_add l r a2 b2) as (l & r & a2 & b2 & ->).
  { unfold body_tree, token_prices in Eb. cbn [app map chain fold_left] in Eb. clear -Eb. revert Eb.
    match goal with |- erase body = fold_left _ ?rest ?acc -> _ => generalize rest; assert (exists l r, acc = bin B_add l r) as (l0 & r0 & ->) by (by do 2 eexists) end.
    intros rest. revert l0 r0. induction rest as [|y rest IH]; intros l0 r0; cbn [fold_left]; [|apply IH].
    destruct body as [| | | |o l r a b|]; try done. cbn [erase bin]. intros [= -> _ _]. eauto. }
  unfold displayed. by rewrite Ep.
Qed.

(** ** Guards *)

Lemma read_guard n cs :
  cs <> [] -> forallb readable_condition cs = true -> erase n = guard_tree cs ->
  tokenConditions n = Some (map condition_of cs) /\ isDisplayRequestCondition n = false /\
  (forall l r a b, n <> NBinary B_or l r a b).
Proof.
  intros Hne Hc E. unfold guard_tree in E. set (trees := map (fun c => comparison_tree (condition_of c)) cs) in E.
  assert (trees <> []) as Hm by (by destruct cs).
  assert (Forall (fun t => flattenBinary t B_and = [t] /\ isDisplayRequestCondition t = false /\ (forall l r a b, t <> NBinary B_or l r a b)) trees) as Hall.
  { apply Forall_fmap, Forall_forall. intros c Hin. rewrite forallb_forall in Hc. apply list_elem_of_In, Hc, condition_of_facts in Hin as (_ & _ & _ & _ & Ho & _).
    unfold compose. destruct (condition_of c) as [v o x]. cbn in *. by destruct o. }
  split; [|split].
  - rewrite <- tokenConditions_erase, E. unfold tokenConditions.
    rewrite flatten_chain; [|done | eapply Forall_impl; [exact Hall|]; by intros t (? & _)].
    unfold trees. clear -Hc. induction cs as [|c cs IH]; [done|]. cbn [forallb] in Hc. apply andb_true_iff in Hc as [Hx Hc].
    cbn [map map_option]. apply condition_of_facts in Hx as (_ & _ & _ & Hn & Ho & Hv). rewrite IH by done.
    destruct (condition_of c) as [v o x]. cbn in Hn, Ho, Hv |- *. rewrite Ho, Hv.
    assert (n_ltb x n_zero = false) as -> by (apply prints_nonneg in Hn; by destruct x as [[]|[]| |[] m e]). done.
  - assert (forall n, isDisplayRequestCondition (erase n) = isDisplayRequestCondition n) as He.
    { clear. assert (forall n, is_literal (erase n) = is_literal n) as Hl by (by intros []).
      assert (forall n, is_request_probe (erase n) = is_request_probe n) as Hp.
      { intros [| |f args a b| | |]; try done. destruct f; try done; destruct args as [|x [|y l]]; try done; by destruct x as [[]| | | | |]. }
      induction n as [| |f args a b IH|o x a b IH|o x y a b IH1 IH2|c y z a b IH1 IH2 IH3] using node_ind'; try done.
      destruct o; cbn [erase isDisplayRequestCondition]; rewrite ?IH1, ?IH2, ?Hl, ?Hp; done. }
    rewrite <- He, E. apply (chain_invariant (fun t => isDisplayRequestCondition t = false)); [done | eapply Forall_impl; [exact Hall|]; by intros t (_ & ? & _)|].
    intros x y Hx Hy. cbn [bin isDisplayRequestCondition]. by rewrite Hx.
  - intros l r a b ->. assert (forall l r a b, chain B_and trees <> NBinary B_or l r a b) as Hn.
    { apply (chain_invariant (fun t => forall l r a b, t <> NBinary B_or l r a b)); [done | eapply Forall_impl; [exact Hall|]; by intros t (_ & _ & ?)|]. done. }
    cbn [erase] in E. by apply (Hn (erase l) (erase r) 0 0).
Qed.

Lemma read_config tiers n source acc :
  tiers <> [] -> Forall displayable tiers -> guarded tiers = true -> erase n = config_tree tiers ->
  tier_loop source n acc = Some (acc ++ map (fun t => displayed t (map condition_of (conditions_of t))) tiers).
Proof.
  intros Hne Hd. revert n acc. induction Hd as [|t tiers Ht Hd IH]; intros n acc Hg E; [done|]. clear Hne. destruct tiers as [|t' tiers].
  - cbn [guarded] in Hg. apply bool_decide_eq_true in Hg. cbn [config_tree] in E. cbn [map]. rewrite Hg.
    destruct n as [| |f args a b| | |]; try done. cbn [tier_loop]. by rewrite (read_call _ t []).
  - remember (t' :: tiers) as rest eqn:Erest. assert (guarded (t :: rest) = bool_decide (conditions_of t <> []) && guarded rest) as Eg by (by subst).
    rewrite Eg in Hg. apply andb_true_iff in Hg as [Hc Hg]. apply bool_decide_eq_true in Hc.
    assert (config_tree (t :: rest) = ite (guard_tree (conditions_of t)) (call_tree t) (config_tree rest)) as Et by (by subst).
    rewrite Et in E. destruct n as [| | | | |c yes no a b]; try done. cbn [erase ite] in E. injection E as Ec Ey En.
    destruct (read_guard c (conditions_of t)) as (H1 & H2 & _); [done | by apply writable_parts, dis_writable | done|].
    cbn [tier_loop]. rewrite H1, H2, andb_false_r. cbn [default from_option]. unfold id. rewrite (read_call _ t) by done.
    cbn [mbind option_bind]. rewrite IH; [|by subst | done | done]. cbn [map]. by rewrite <- app_assoc.
Qed.

Lemma read_chain tiers n source :
  tiers <> [] -> Forall displayable tiers -> guarded tiers = true -> erase n = config_tree tiers ->
  readTokenTierChain n source = Some (map (fun t => displayed t (map condition_of (conditions_of t))) tiers).
Proof.
  intros Hne Hd Hg E. pose proof (read_config tiers n source [] Hne Hd Hg E) as Hloop. cbn [app] in Hloop.
  destruct tiers as [|t [|t' tiers]]; [done | |].
  - cbn [config_tree] in E. by destruct n as [| |f args a b| | |].
  - remember (t' :: tiers) as rest eqn:Erest. assert (guarded (t :: rest) = bool_decide (conditions_of t <> []) && guarded rest) as Eg by (by subst).
    rewrite Eg in Hg. apply andb_true_iff in Hg as [Hc _]. apply bool_decide_eq_true in Hc.
    assert (config_tree (t :: rest) = ite (guard_tree (conditions_of t)) (call_tree t) (config_tree rest)) as Et by (by subst).
    rewrite Et in E. destruct n as [| | | | |c yes no a b]; try done. cbn [erase ite] in E. injection E as Ec Ey En.
    apply Forall_cons in Hd as [Ht _].
    destruct (read_guard c (conditions_of t)) as (_ & _ & H3); [done | by apply writable_parts, dis_writable | done|].
    assert (audio_tiers (NConditional c yes no a b) = None) as Ha.
    { cbn [audio_tiers]. destruct c as [| | | |o l r a' b'|]; try done. destruct o; try done. by destruct (H3 l r a' b'). }
    cbn [readTokenTierChain]. by rewrite Ha, Hloop.
Qed.

(** * What is shown *)

Record shown_condition (c : tier_condition) (k : token_condition) : Prop := {
  shown_var : variable_name (tc_var k) = ci_var c;
  shown_op : operator_text (tc_op k) = ci_op c;
  shown_value : ci_value c = CV_number (tc_value k);
}.
(** A parsed tier shows a configured one: its label and conditions, and under each price
    field of the registry the cost configured under the tier field of the same variable. *)
Record shows (t : visual_tier) (p : parsed_tier) : Prop := {
  shows_label : pt_label p = label_of t;
  shows_conditions : Forall2 shown_condition (conditions_of t) (pt_conditions p);
  shows_prices : forall v, v ∈ BILLING_PRICING_VARS ->
    number_or_zero (obj_get (default [] (bv_field v)) (pt_fields p)) = cost t (default [] (bv_tierField v));
  shows_metered : pt_billingUnit p = None /\ pt_fixedPrice p = None /\ pt_conditionText p = None;
}.

(** The registry, by variable. *)
Lemma registry_variables :
  map (fun v => (default [] (bv_field v), default [] (bv_tierField v))) BILLING_PRICING_VARS =
  map (fun e => (price_field (variable_name e.2), e.1))
    ([(js "input_unit_cost", V_p); (js "output_unit_cost", V_c)] ++ extra_variables).
Proof. vm_compute. reflexivity. Qed.

Lemma token_price tier e :
  e ∈ [(js "input_unit_cost", V_p); (js "output_unit_cost", V_c)] ++ extra_variables ->
  number_or_zero (obj_get e.2 (token_prices tier)) = cost tier e.1.
Proof.
  intros He. assert (carries_price e.2) as Hp.
  { revert He. cbn. intros He. repeat (apply elem_of_cons in He as [->|He]; [split; done|]). by apply not_elem_of_nil in He. }
  unfold token_prices. cbn [app] in He |- *. rewrite !elem_of_cons in He. destruct He as [->|[->|He]].
  { cbn. apply number_or_zero_idem. } { cbn. apply number_or_zero_idem. }
  cbn [obj_get]. assert (e.2 <> V_p /\ e.2 <> V_c) as [H1 H2].
  { revert He. cbn. intros He. repeat (apply elem_of_cons in He as [->|He]; [done|]). by apply not_elem_of_nil in He. }
  rewrite !bool_decide_eq_false_2 by done. assert (NoDup (map snd extra_variables)) as Hn by (by compute_done).
  revert He Hn. induction extra_variables as [|x l IH]; intros He Hn; [by apply not_elem_of_nil in He|].
  cbn [map] in Hn. apply NoDup_cons in Hn as [Hx Hn]. cbn [flat_map].
  assert (forall v, v ∉ map snd l -> obj_get v (flat_map (fun e : str * billing_variable => if n_eqb (cost tier e.1) n_zero then [] else [(e.2, cost tier e.1)]) l) = None) as Hnone.
  { clear. induction l as [|x l IH]; intros v Hv; [done|]. cbn [flat_map]. destruct (n_eqb (cost tier x.1) n_zero); cbn [app obj_get]; [apply IH; set_solver|].
    rewrite bool_decide_eq_false_2 by set_solver. apply IH. set_solver. }
  apply elem_of_cons in He as [->|He].
  - destruct (n_eqb (cost tier x.1) n_zero) eqn:Hz; cbn [app obj_get].
    + rewrite Hnone by done. by rewrite cost_zero.
    + rewrite bool_decide_eq_true_2 by done. apply number_or_zero_idem.
  - assert (e.2 <> x.2) as Hne by (intros Ee; apply Hx; rewrite <- Ee; apply list_elem_of_fmap; by exists e).
    destruct (n_eqb (cost tier x.1) n_zero); cbn [app obj_get]; [by apply IH|]. rewrite bool_decide_eq_false_2 by done. by apply IH.
Qed.

Lemma displayed_shows t : displayable t -> shows t (mapTokenTier (displayed t (map condition_of (conditions_of t)))).
Proof.
  intros Ht. destruct (token_prices_ok t) as [Hn Hc].
  assert (prices_ok (tt_prices (displayed t (map condition_of (conditions_of t))))) as Hok by done. split.
  - done.
  - change (Forall2 shown_condition (conditions_of t) (map condition_of (conditions_of t))).
    apply Forall2_fmap_r, Forall_Forall2_diag, Forall_forall. intros c Hin.
    destruct (writable_parts t (dis_writable _ Ht)) as (_ & _ & _ & _ & Hall). rewrite forallb_forall in Hall.
    by apply list_elem_of_In, Hall, condition_of_facts in Hin as (? & ? & ? & _).
  - intros v Hv. rewrite mapped_fields by done. cbn [displayed tt_prices].
    assert ((default [] (bv_field v), default [] (bv_tierField v)) ∈ map (fun v => (default [] (bv_field v), default [] (bv_tierField v))) BILLING_PRICING_VARS) as Hin
      by (apply list_elem_of_fmap; by exists v).
    rewrite registry_variables in Hin. apply list_elem_of_fmap in Hin as (e & [= -> ->] & He).
    rewrite mapped_lookup; [by apply token_price | done|].
    revert He. cbn. intros He. repeat (apply elem_of_cons in He as [->|He]; [split; done|]). by apply not_elem_of_nil in He.
  - done.
Qed.

(** The expression written for displayable tiers compiles, and is displayed as them. *)
Section config.
Variable tiers : list visual_tier.
Hypothesis Hdisplay : forallb displayable_tier tiers = true.
Hypothesis Hguarded : guarded tiers = true.
Hypothesis Hcount : length tiers <= 100.
Hypothesis Hlength : (Z.of_nat (length (generateExprFromVisualConfig (Some tiers))) < max_tokens)%Z.

Lemma config_nonempty : tiers <> [].
Proof. intros E. by rewrite E in Hguarded. Qed.
Lemma config_displayable : Forall displayable tiers.
Proof. apply Forall_forall. intros t Ht. rewrite forallb_forall in Hdisplay. by apply displayable_iff, Hdisplay, list_elem_of_In. Qed.
Lemma config_writable : forallb writable_tier tiers = true.
Proof. apply forallb_forall. intros t Ht. pose proof config_displayable as H. rewrite Forall_forall in H. by apply dis_writable, H, list_elem_of_In. Qed.

Lemma guarded_last l t : guarded l = true -> last l = Some t -> conditions_of t = [].
Proof.
  induction l as [|x [|y l] IH]; [done | |].
  - cbn. intros H [= <-]. by apply bool_decide_eq_true in H.
  - intros H. change (guarded (x :: y :: l)) with (bool_decide (conditions_of x <> []) && guarded (y :: l)) in H.
    apply andb_true_iff in H as [_ H]. exact (IH H).
Qed.

Lemma config_text : generateExprFromVisualConfig (Some tiers) = join (js " : ") (map part tiers).
Proof.
  destruct (decide (1 < length tiers)) as [Hl|Hl].
  - apply several_written; [done | apply config_writable|]. intros t. by apply guarded_last.
  - pose proof config_writable as Hw. pose proof Hguarded as Hg. destruct tiers as [|t [|t' rest]]; [done | | cbn in Hl; lia].
    cbn [guarded] in Hg. apply bool_decide_eq_true in Hg. cbn [forallb] in Hw. apply andb_true_iff in Hw as [Hw _].
    destruct (writable_parts t Hw) as (Hne & _ & _ & _ & Hc). unfold generateExprFromVisualConfig.
    rewrite call_written, built_conditions, Hg by done. cbn [map join]. unfold part. by rewrite Hg.
Qed.

Lemma config_compiles : exists c,
  compile_source (generateExprFromVisualConfig (Some tiers)) = Ready c /\ erase (c_ast c) = config_tree tiers.
Proof.
  destruct (config_tree_facts tiers config_nonempty config_displayable Hguarded) as (Ht & Hh & Ho).
  apply compile_printed; [| | done | by rewrite Ht | unfold max_visit_depth; lia | done].
  - rewrite config_text. eapply prints_weaken; [apply prints_config; [apply config_nonempty | apply config_displayable | done] | lia|].
    unfold max_parse_depth. lia.
  - rewrite config_text. pose proof config_writable as Hw. pose proof config_nonempty as Hne. destruct tiers as [|t rest]; [done|].
    cbn [forallb] in Hw. apply andb_true_iff in Hw as [Hw _].
    destruct (part_head t (concat (map (app (js " : ")) (map part rest))) Hw) as (c & s & E & Hc & _).
    cbn [map]. rewrite join_concat_map, E. unfold match_version.
    assert (is_space c = false /\ (c =? 118)%N = false) as [Hs Hv].
    { rewrite !elem_of_cons in Hc. destruct Hc as [->|[->|[->|[->|Hc]]]]; [done..|]. by apply not_elem_of_nil in Hc. }
    cbn [take_while]. rewrite Hs. cbn [length drop]. rewrite Hv. by destruct (drop_while is_digit s).
Qed.

Lemma config_displayed `{Host} : exists parsed,
  parseTiersFromExpr (generateExprFromVisualConfig (Some tiers)) = Ok parsed /\ Forall2 shows tiers parsed.
Proof.
  destruct config_compiles as (c & Hc & E). unfold parseTiersFromExpr.
  destruct (generateExprFromVisualConfig (Some tiers)) as [|ch rest] eqn:Eg.
  { exfalso. vm_compute in Hc. discriminate. }
  rewrite Hc, (read_chain tiers _ _ config_nonempty config_displayable Hguarded E). eexists. split; [reflexivity|].
  rewrite map_map. apply Forall2_fmap_r, Forall_Forall2_diag. eapply Forall_impl; [apply config_displayable|]. apply displayed_shows.
Qed.
End config.
