(* ===== verification/TierExprProps.v ===== *)
(** Properties of the visual tier editor (tier-expr.ts). *)

From S2P Require Import Prelude JsString JsNumber JsValue JsJson BillingTypes BillingParser BillingCompile BillingDisplay BillingExpr BillingPrinting JsPattern TierExpr TierExprFacts TierExprRound TierExprPrinting.




Definition token_config : list visual_tier := List.filter (fun t => negb (is_request t)) sample_config.

(** * Behaviour at the edges of the editor *)

Definition one_tier (label body : str) : str := js "tier(" ++ quoted label ++ js ", " ++ body ++ js ")".

(** A text that is not an expression is opened by the editor: the number pattern takes
    [1e], which is not a number, and the price becomes zero when it is saved. *)
Example malformed_price_accepted :
  let source := one_tier (js "a") (js "p * 1e + c * 2") in
  (forall c, compile_source source <> Ready c) /\
  generateExprFromVisualConfig (tryParseVisualConfig source) = one_tier (js "a") (js "p * 0 + c * 2").
Proof. split; [intros c H; vm_compute in H; discriminate | vm_compute; reflexivity]. Qed.

(** A label with a quote is written as it is, and the expression is not valid. *)
Example quoted_label_invalid :
  forall c, compile_source (generateExprFromVisualConfig
    (Some [sample_tier (js "a" ++ [dquote]) [] [(js "input_unit_cost", n_one)]])) <> Ready c.
Proof. intros c H. vm_compute in H. discriminate. Qed.

(** Two tiers without conditions are written, and read back, as a text that is not an
    expression. *)
Example unguarded_tiers_invalid :
  let tiers := [sample_tier (js "a") [] [(js "input_unit_cost", n_one)]; sample_tier (js "b") [] [(js "input_unit_cost", n_one)]] in
  (forall c, compile_source (generateExprFromVisualConfig (Some tiers)) <> Ready c) /\
  (map view <$> tryParseVisualConfig (generateExprFromVisualConfig (Some tiers))) = Some (map view tiers).
Proof. split; [intros c H; vm_compute in H; discriminate | vm_compute; reflexivity]. Qed.
