(* ===== verification/PricingModel.v ===== *)
(** Models of the price catalogue (features/pricing/types.ts) and what the catalogue
    derives from them: groups and ratios (model-helpers.ts), plugin prices
    (plugin-pricing.ts, task-plugin-usage.ts) and token prices (price.ts). *)

From S2P Require Import Prelude JsString JsNumber JsValue BillingTypes BillingParser BillingCompile BillingDisplay.

(** * Data *)

(** [BillingUsageExample]: the label and the facts. *)
Definition usage_example : Type := str * list (str * jsval).

Inductive plugin_mode : Type := Mode_ratio | Mode_tiered_expr.
Record plugin_variant := PluginVariant {
  pl_key : str;
  pl_billing_expr : str;
  pl_billing_mode : option plugin_mode;
  pl_usage_schema : option usage_schema;
  pl_usage_examples : option (list usage_example);
}.

Record sora_tier := SoraTier { so_value : str; so_multiplier : number }.
Record sora_pricing := SoraPricing {
  so_enabled : option bool;
  so_resolution_tiers : option (list sora_tier);
  so_audio_generation_surcharge : option number;
}.

(** [PricingModel], the properties the modelled code reads.  A property that may be
    missing or null is an option; [pm_enable_groups] is [None] when it is not an array. *)
Record pricing_model := PricingModel {
  pm_model_name : option str;
  pm_vendor_name : option str;
  pm_developer_name : option str;
  pm_quota_type : number;
  pm_model_ratio : number;
  pm_completion_ratio : number;
  pm_model_price : option number;
  pm_cache_ratio : option number;
  pm_create_cache_ratio : option number;
  pm_image_ratio : option number;
  pm_audio_ratio : option number;
  pm_audio_completion_ratio : option number;
  pm_enable_groups : option (list str);
  pm_group_ratio : option (list (str * jsval));
  pm_billing_mode : option str;
  pm_billing_expr : option str;
  pm_usage_schema : option usage_schema;
  pm_usage_examples : option (list usage_example);
  pm_plugin_variants : option (list plugin_variant);
  pm_sora : option sora_pricing;
}.

(** * Groups *)

Definition FILTER_ALL : str := js "all".
Definition EXCLUDED_GROUPS : list str := [[]; js "auto"].
Definition QUOTA_TOKEN : number := n_zero.
Definition QUOTA_REQUEST : number := n_one.

Definition enabled_groups (model : pricing_model) : list str := default [] (pm_enable_groups model).

(** The second argument is the usable group record; only its keys are read. *)
Definition getAvailableGroups {V} (model : pricing_model) (usableGroup : list (str * V)) : list str :=
  let enabled := enabled_groups model in
  List.filter (fun g => bool_decide (g ∈ enabled) || bool_decide (js "all" ∈ enabled))
    (List.filter (fun g => negb (bool_decide (g ∈ EXCLUDED_GROUPS))) (map fst usableGroup)).

(** A ratio that is a finite number. *)
Definition finite_ratio (groupRatio : list (str * jsval)) (group : str) : option number :=
  match obj_get group groupRatio with
  | Some (VNumber x) => if is_finite x then Some x else None
  | _ => None
  end.

Definition getConfiguredGroupRatio (groupRatio : list (str * jsval)) (group : str) : number :=
  default n_one (finite_ratio groupRatio group).

(** The loop for the least ratio; the start value is positive infinity. *)
Definition n_infinity : number := S754_infinity false.
Definition least_ratio (groupRatio : list (str * jsval)) (groups : list str) : number :=
  fold_left (fun least group =>
               match finite_ratio groupRatio group with
               | Some ratio => if n_ltb ratio least then ratio else least
               | None => least
               end) groups n_infinity.
Definition least_or_one (least : number) : number := if n_eqb least n_infinity then n_one else least.

(** [availableGroups] of [getDisplayGroupRatio]. *)
Definition displayed_groups {V} (model : pricing_model) (usableGroup : option (list (str * V))) : list str :=
  match usableGroup with
  | Some usable => getAvailableGroups model usable
  | None => List.filter (fun group => negb (bool_decide (group = js "all"))) (enabled_groups model)
  end.

Definition getDisplayGroupRatio {V} (model : pricing_model) (selectedGroup : option str)
    (usableGroup : option (list (str * V))) : number :=
  let enabled := enabled_groups model in
  let groupRatio := default [] (pm_group_ratio model) in
  let available := displayed_groups model usableGroup in
  let least := match enabled with
               | [] => n_one
               | _ => least_or_one (least_ratio groupRatio available)
               end in
  match selectedGroup with
  | Some selected =>
      if bool_decide (selected <> []) && bool_decide (selected <> FILTER_ALL) &&
         bool_decide (selected ∈ available) &&
         (bool_decide (selected ∈ enabled) || bool_decide (js "all" ∈ enabled))
      then getConfiguredGroupRatio groupRatio selected
      else least
  | None => least
  end.

(** [getMinGroupRatio] of price.ts *)
Definition getMinGroupRatio (enableGroups : list str) (groupRatio : list (str * jsval)) : number :=
  match enableGroups with
  | [] => n_one
  | _ => least_or_one (least_ratio groupRatio enableGroups)
  end.

(** * Names and paths *)

(** The substitutions of a replacement text: [$$], [$&], [$`] and [$']. *)
Fixpoint expand_replacement (matched before after replacement : str) : str :=
  match replacement with
  | 36%N :: 36%N :: r => 36%N :: expand_replacement matched before after r
  | 36%N :: 38%N :: r => matched ++ expand_replacement matched before after r
  | 36%N :: 96%N :: r => before ++ expand_replacement matched before after r
  | 36%N :: 39%N :: r => after ++ expand_replacement matched before after r
  | c :: r => c :: expand_replacement matched before after r
  | [] => []
  end.

(** [text.replaceAll(pattern, replacement)] of a non-empty pattern; [before] is the text
    already passed. *)
Fixpoint replace_from (fuel : nat) (before text pattern replacement : str) : str :=
  match fuel with
  | O => text
  | S f =>
      match text with
      | [] => []
      | c :: rest =>
          if starts_with text pattern then
            let after := drop (length pattern) text in
            expand_replacement pattern before after replacement ++
            replace_from f (before ++ pattern) after pattern replacement
          else c :: replace_from f (before ++ [c]) rest pattern replacement
      end
  end.
Definition replaceAll (text pattern replacement : str) : str :=
  replace_from (S (length text)) [] text pattern replacement.

Definition replaceModelInPath (path modelName : str) : str := replaceAll path (js "{model}") modelName.

Section host.
Context {host : Host}.

Definition getDisplayedModelName (model : pricing_model) : str :=
  let modelName := default [] (pm_model_name model) in
  let identity := trim (match pm_developer_name model with
                        | Some (c :: name) => c :: name
                        | _ => default [] (pm_vendor_name model)
                        end) in
  match identity with
  | [] => modelName
  | _ =>
      let normalizedIdentity := to_lower_case identity in
      if starts_with (to_lower_case modelName) (normalizedIdentity ++ js "/") then modelName
      else normalizedIdentity ++ js "/" ++ modelName
  end.

(** [getTaskPluginUsageSchema]: the profiles are model names with a schema. *)
Definition getTaskPluginUsageSchema (usageSchema : option usage_schema)
    (usageProfiles : option (list (list str * option usage_schema))) (model : str) : option usage_schema :=
  let folded := to_lower_case model in
  match List.find (fun profile => existsb (fun name => bool_decide (to_lower_case name = folded)) profile.1)
          (default [] usageProfiles) with
  | Some profile => profile.2
  | None => usageSchema
  end.
End host.

(** * Token prices *)

Definition isTokenBasedModel (model : pricing_model) : bool := n_eqb (pm_quota_type model) QUOTA_TOKEN.

(** [Boolean(model.sora_per_request_pricing?.enabled)] *)
Definition sora_enabled (model : pricing_model) : bool :=
  match pm_sora model with Some sora => default false (so_enabled sora) | None => false end.

Definition truthy_text (s : option str) : bool := bool_decide (default [] s <> []).

Definition isFreePricingModel (model : pricing_model) (displayRatio : number) : bool :=
  if n_eqb displayRatio n_zero then true
  else if bool_decide (pm_billing_mode model = Some (js "tiered_expr")) ||
          truthy_text (trim <$> pm_billing_expr model) || sora_enabled model then false
  else if isTokenBasedModel model then
    n_eqb (pm_model_ratio model) n_zero && is_finite (pm_completion_ratio model) &&
    n_leb n_zero (pm_completion_ratio model)
  else
    n_eqb (pm_quota_type model) QUOTA_REQUEST &&
    match pm_model_price model with Some price => n_eqb price n_zero | None => false end.

Inductive price_type : Type :=
| Price_input | Price_output | Price_cache | Price_create_cache | Price_image | Price_audio_input | Price_audio_output.

Definition hasRatio (value : option number) : bool :=
  match value with Some x => is_finite x | None => false end.

Definition scaled_ratio (base : number) (value : option number) : number :=
  if hasRatio value then n_mul base (default n_nan value) else n_nan.

Definition calculateTokenPrice (model : pricing_model) (type : price_type) (ratio : number) : number :=
  let base := n_mul (n_mul (pm_model_ratio model) (n_of_Z 2)) ratio in
  match type with
  | Price_input => base
  | Price_output => n_mul base (pm_completion_ratio model)
  | Price_cache => scaled_ratio base (pm_cache_ratio model)
  | Price_create_cache => scaled_ratio base (pm_create_cache_ratio model)
  | Price_image => scaled_ratio base (pm_image_ratio model)
  | Price_audio_input => scaled_ratio base (pm_audio_ratio model)
  | Price_audio_output =>
      if hasRatio (pm_audio_ratio model) && hasRatio (pm_audio_completion_ratio model)
      then n_mul (n_mul base (default n_nan (pm_audio_ratio model))) (default n_nan (pm_audio_completion_ratio model))
      else n_nan
  end.

Definition applyRechargeRate (price : number) (showWithRecharge : bool) (priceRate usdExchangeRate : number) : number :=
  if showWithRecharge then n_div (n_mul price priceRate) usdExchangeRate else price.

Definition isSoraPerRequestPricingModel (model : pricing_model) : bool :=
  n_eqb (pm_quota_type model) QUOTA_REQUEST && sora_enabled model.

Definition normalizeSoraResolutionTiers (tiers : option (list sora_tier)) : list sora_tier :=
  List.filter (fun tier => bool_decide (so_value tier <> []) && is_finite (so_multiplier tier) &&
                           n_ltb n_zero (so_multiplier tier))
    (map (fun tier => SoraTier (trim (so_value tier)) (so_multiplier tier)) (default [] tiers)).

(** * Plugin prices *)

Definition plugin_start (c : N) : bool := in_range 97 122 c || is_digit c.
Definition plugin_char (c : N) : bool := plugin_start c || (c =? 95)%N || (c =? 45)%N.
(** [/^[a-z0-9][a-z0-9_-]{0,29}$/] *)
Definition valid_plugin (plugin : str) : bool :=
  match plugin with
  | [] => false
  | c :: rest => plugin_start c && forallb plugin_char rest && bool_decide (length rest <= 29)
  end.

Definition splitPluginBillingExprKey (key : str) : option (str * str) :=
  match index_of key (js "::") with
  | None | Some 0 => None
  | Some separator =>
      let plugin := take separator key in
      let model := drop (separator + 2) key in
      if negb (valid_plugin plugin) || bool_decide (trim model = []) then None else Some (plugin, model)
  end.

(** The visitor of [taskExpressionCompatible]. *)
Definition compatible_visitor (schema : usage_schema) (compatible : bool) (n : node) : result exn bool :=
  match n with
  | NCall F_u (NLiteral (LString field) _ _ _ :: _) _ _ =>
      Ok (if has_own schema field then compatible else false)
  | _ => Ok compatible
  end.
(** [None] stands for [undefined]. *)
Definition taskExpressionCompatible (expression : str) (schema : usage_schema) : result exn (option bool) :=
  if bool_decide (trim expression = []) then Ok (Some false)
  else
    match compile_source expression with
    | NotReady _ => Ok None
    | Ready compiled =>
        compatible ← visitExpression (c_ast compiled) (compatible_visitor schema)
                       (negb (bool_decide (F_fixed ∈ c_functions compiled)));
        Ok (Some compatible)
    end.

Definition withPluginPricing (model : pricing_model) (variant : plugin_variant) : pricing_model :=
  PricingModel (pm_model_name model) (pm_vendor_name model) (pm_developer_name model)
    (match pl_billing_mode variant with Some Mode_ratio => pm_quota_type model | _ => n_zero end)
    (pm_model_ratio model) (pm_completion_ratio model) (pm_model_price model) (pm_cache_ratio model)
    (pm_create_cache_ratio model) (pm_image_ratio model) (pm_audio_ratio model) (pm_audio_completion_ratio model)
    (pm_enable_groups model) (pm_group_ratio model)
    (Some (match pl_billing_mode variant with Some Mode_ratio => js "ratio" | _ => js "tiered_expr" end))
    (Some (pl_billing_expr variant)) (pl_usage_schema variant) (pl_usage_examples variant) None (pm_sora model).

Definition pluginExpressionsEqual (left right : list (str * str)) : bool :=
  bool_decide (length (map fst left) = length (map fst right)) &&
  forallb (fun key => has_own right key && bool_decide (obj_get key left = obj_get key right)) (map fst left).

Definition pluginUsageSchema (model : option pricing_model) (pluginKey : option str) : option usage_schema :=
  let variant := model ≫= fun model => pm_plugin_variants model ≫= fun variants =>
                   List.find (fun item => bool_decide (Some (pl_key item) = pluginKey)) variants in
  match variant ≫= pl_usage_schema with
  | Some schema => Some schema
  | None => model ≫= pm_usage_schema
  end.

Example replace_path :
  (replaceModelInPath (js "/v1/{model}/run/{model}") (js "gpt"), replaceModelInPath (js "/{model}") (js "a$&b")) =
  (js "/v1/gpt/run/gpt", js "/a{model}b").
Proof. vm_compute. reflexivity. Qed.

Example split_keys :
  map splitPluginBillingExprKey [js "kling::video-1"; js "::x"; js "Bad::x"; js "a::b::c"; js "a:: "] =
  [Some (js "kling", js "video-1"); None; None; Some (js "a", js "b::c"); None].
Proof. vm_compute. reflexivity. Qed.
