(* ===== verification/PricingModelProps.v ===== *)
(** Properties of the catalogue helpers: group ratios, plugin keys and plugin prices. *)

From S2P Require Import Prelude JsString JsNumber JsNumberOrder JsValue BillingTypes BillingParser BillingCompile BillingTyping BillingCompileFacts BillingDisplay TaskDisplayFacts PricingModel.

(** * Group ratios *)

Lemma finite_ratio_finite ratios group x : finite_ratio ratios group = Some x -> is_finite x = true.
Proof.
  unfold finite_ratio. destruct (obj_get group ratios) as [[]|]; try done. destruct (is_finite n) eqn:E; [|done]. by intros [= <-].
Qed.

(** The loop keeps the least of its start value and the finite ratios. *)
Lemma least_ratio_spec ratios groups :
  let least := least_ratio ratios groups in
  is_nan least = false /\
  (least = n_infinity \/ exists group, group ∈ groups /\ finite_ratio ratios group = Some least) /\
  (forall group x, group ∈ groups -> finite_ratio ratios group = Some x -> n_leb least x = true).
Proof.
  unfold least_ratio. cbv zeta.
  enough (forall start, is_nan start = false ->
    let least := fold_left (fun least group => match finite_ratio ratios group with
      | Some ratio => if n_ltb ratio least then ratio else least | None => least end) groups start in
    is_nan least = false /\ n_leb least start = true /\
    (least = start \/ exists group, group ∈ groups /\ finite_ratio ratios group = Some least) /\
    (forall group x, group ∈ groups -> finite_ratio ratios group = Some x -> n_leb least x = true)) as H.
  { destruct (H n_infinity eq_refl) as (H1 & _ & H2 & H3). auto. }
  induction groups as [|g groups IH]; intros start Hs; cbn [fold_left]; cbv zeta.
  { split; [done|]. split; [by apply leb_refl|]. split; [by left|]. intros group x Hin. by apply not_elem_of_nil in Hin. }
  destruct (finite_ratio ratios g) as [r|] eqn:Er.
  - assert (is_nan r = false) as Hr by (by apply finite_not_nan, (finite_ratio_finite ratios g)).
    set (next := if n_ltb r start then r else start).
    assert (is_nan next = false /\ n_leb next start = true /\ n_leb next r = true) as (Hn & Hns & Hnr).
    { unfold next. destruct (n_ltb r start) eqn:E; split; try done.
      - split; [by apply ltb_true_leb | by apply leb_refl].
      - split; [by apply leb_refl | by apply ltb_false_leb]. }
    destruct (IH next Hn) as (H1 & H2 & H3 & H4). cbv zeta in *. split; [done|]. split; [by eapply (leb_trans _ next)|]. split.
    + destruct H3 as [H3|(group & Hin & Hg)]; [|right; exists group; set_solver]. rewrite H3. unfold next.
      destruct (n_ltb r start); [right; exists g; set_solver | by left].
    + intros group x [->|Hin]%elem_of_cons Hx; [|by eapply H4]. rewrite Er in Hx. injection Hx as <-.
      by apply (leb_trans _ next).
  - destruct (IH start Hs) as (H1 & H2 & H3 & H4). cbv zeta in *. split; [done|]. split; [done|]. split.
    + destruct H3 as [H3|(group & Hin & Hg)]; [by left | right; exists group; set_solver].
    + intros group x [->|Hin]%elem_of_cons Hx; [congruence | by eapply H4].
Qed.

Lemma displayed_enabled {V} model (usable : option (list (str * V))) group :
  group ∈ displayed_groups model usable -> group ∈ enabled_groups model \/ js "all" ∈ enabled_groups model.
Proof.
  unfold displayed_groups, getAvailableGroups. destruct usable as [usable|]; intros H.
  - apply list_elem_of_In, filter_In in H as [_ H]. apply orb_true_iff in H as [H|H]; breflect; auto.
  - apply list_elem_of_In, filter_In in H as [H _]. left. by apply list_elem_of_In.
Qed.

(** The ratio shown when no group is selected. *)
Definition least_shown (ratios : list (str * jsval)) (groups : list str) (ratio : number) : Prop :=
  (ratio = n_one /\ forall group, group ∈ groups -> finite_ratio ratios group = None) \/
  ((exists group, group ∈ groups /\ finite_ratio ratios group = Some ratio) /\
   forall group x, group ∈ groups -> finite_ratio ratios group = Some x -> n_leb ratio x = true).

Lemma least_or_one_spec ratios groups : least_shown ratios groups (least_or_one (least_ratio ratios groups)).
Proof.
  pose proof (least_ratio_spec ratios groups) as (Hnan & Hleast & Hall). cbv zeta in *. unfold least_or_one.
  destruct Hleast as [Heq|(group & Hin & Hg)].
  - left. rewrite Heq. split; [done|]. intros group Hin. destruct (finite_ratio ratios group) as [x|] eqn:E; [|done].
    pose proof (Hall _ _ Hin E) as Hle. rewrite Heq in Hle. apply finite_ratio_finite in E. by destruct x as [[]|[]| |[] m e].
  - assert (n_eqb (least_ratio ratios groups) n_infinity = false) as ->.
    { apply finite_ratio_finite in Hg. by destruct (least_ratio ratios groups) as [[]|[]| |[] m e]. }
    right. split; [by exists group | done].
Qed.

(** The ratio shown for a model is the configured ratio of the selected group when
    that group is offered for the model; otherwise it is the least finite ratio of the
    offered groups, attained by one of them, and 1 when none of them has one. *)
Theorem display_ratio_exact {V} (model : pricing_model) (selected : option str) (usable : option (list (str * V))) :
  let groups := displayed_groups model usable in
  let ratios := default [] (pm_group_ratio model) in
  let ratio := getDisplayGroupRatio model selected usable in
  match selected with
  | Some group =>
      if bool_decide (group <> []) && bool_decide (group <> FILTER_ALL) && bool_decide (group ∈ groups)
      then ratio = getConfiguredGroupRatio ratios group
      else least_shown ratios groups ratio
  | None => least_shown ratios groups ratio
  end.
Proof.
  cbv zeta. unfold getDisplayGroupRatio. set (groups := displayed_groups model usable).
  set (ratios := default [] (pm_group_ratio model)).
  assert (least_shown ratios groups
    (match enabled_groups model with [] => n_one | _ => least_or_one (least_ratio ratios groups) end)) as Hleast.
  { destruct (enabled_groups model) eqn:E; [|apply least_or_one_spec]. left. split; [done|]. intros group Hin.
    apply displayed_enabled in Hin. rewrite E in Hin. by destruct Hin as [?%elem_of_nil|?%elem_of_nil]. }
  destruct selected as [group|]; [|exact Hleast].
  destruct (bool_decide (group <> []) && bool_decide (group <> FILTER_ALL) && bool_decide (group ∈ groups)) eqn:E; [|exact Hleast].
  cbn [andb]. assert (group ∈ groups) as Hin by (by breflect). apply displayed_enabled in Hin as [Hin|Hin].
  - by rewrite (bool_decide_eq_true_2 _ Hin).
  - by rewrite (bool_decide_eq_true_2 _ Hin), orb_true_r.
Qed.

(** * Plugin keys *)

Lemma index_of_prefix p m : forallb plugin_char p = true -> index_of (p ++ js "::" ++ m) (js "::") = Some (length p).
Proof.
  induction p as [|c p IH]; [done|]. cbn [forallb]. intros [Hc Hp]%andb_true_iff.
  assert (c <> 58%N) as Hne by (intros ->; done).
  change ((c :: p) ++ js "::" ++ m) with (c :: (p ++ js "::" ++ m)). cbn [index_of].
  assert (starts_with (c :: (p ++ js "::" ++ m)) (js "::") = false) as ->.
  { apply not_true_iff_false. intros H%starts_with_spec. destruct H as [r H]. by injection H. }
  by rewrite IH.
Qed.

Lemma plugin_chars p : valid_plugin p = true -> forallb plugin_char p = true /\ p <> [].
Proof.
  destruct p as [|c p]; [done|]. cbn [valid_plugin forallb]. intros H. breflect. split; [|done].
  apply andb_true_iff. split; [|done]. unfold plugin_char. by rewrite H.
Qed.

(** A key is split exactly when it joins a valid plugin name and a model with two colons. *)
Theorem plugin_key_exact (key plugin model : str) :
  splitPluginBillingExprKey key = Some (plugin, model) <->
  key = plugin ++ js "::" ++ model /\ valid_plugin plugin = true /\ trim model <> [].
Proof.
  unfold splitPluginBillingExprKey. split.
  - destruct (index_of key (js "::")) as [[|i]|] eqn:Ei; [done| |done].
    apply index_of_Some in Ei as (b & a & -> & Hb). rewrite <- Hb.
    rewrite take_app_length. replace (length b + 2) with (length b + length (js "::")) by done.
    rewrite drop_app_add, drop_app_length. destruct (valid_plugin b) eqn:Ev; [|done]. cbn [negb orb].
    case_bool_decide; [done|]. by intros [= <- <-].
  - intros (-> & Hv & Hm). destruct (plugin_chars _ Hv) as [Hc Hne]. rewrite (index_of_prefix _ _ Hc).
    destruct plugin as [|c p]; [done|]. cbn [length]. change (S (length p)) with (length (c :: p)).
    rewrite take_app_length. replace (length (c :: p) + 2) with (length (c :: p) + length (js "::")) by done.
    rewrite drop_app_add, drop_app_length, Hv. by rewrite bool_decide_eq_false_2.
Qed.

(** * Plugin expressions *)

Lemma has_own_spec {V} (o : list (str * V)) k : has_own o k = true <-> is_Some (obj_get k o).
Proof. unfold has_own. destruct (obj_get k o); split; [eauto | done | done | by intros []]. Qed.

Lemma obj_get_in {V} k (o : list (str * V)) : k ∈ map fst o <-> is_Some (obj_get k o).
Proof.
  split.
  - intros Hin. destruct (obj_get k o) as [v|] eqn:E; [eauto|]. by apply obj_get_None in E.
  - intros [v Hv]. apply obj_get_Some in Hv. apply list_elem_of_In, in_map_iff. exists (k, v).
    by split; [|apply list_elem_of_In].
Qed.

(** Comparing plugin expressions compares them as maps: the answer is true exactly when
    both records give every key the same expression. *)
Theorem plugin_expressions_exact (left right : list (str * str)) :
  NoDup (map fst left) -> NoDup (map fst right) ->
  pluginExpressionsEqual left right = true <-> forall key, obj_get key left = obj_get key right.
Proof.
  intros Hl Hr. unfold pluginExpressionsEqual. rewrite andb_true_iff, bool_decide_eq_true, forallb_forall. split.
  - intros [Hlen Hall] key. destruct (obj_get key left) as [v|] eqn:E.
    + assert (key ∈ map fst left) as Hin by (apply obj_get_in; rewrite E; eauto).
      apply list_elem_of_In, Hall, andb_true_iff in Hin as [_ Hk]. breflect. congruence.
    + destruct (obj_get key right) as [w|] eqn:Ew; [|done]. exfalso.
      assert (map fst left ≡ₚ map fst right) as Hsame.
      { apply submseteq_length_Permutation; [|lia]. apply NoDup_submseteq; [done|]. intros k Hk.
        apply list_elem_of_In, Hall, andb_true_iff in Hk as [Hk _]. by apply obj_get_in, has_own_spec. }
      assert (key ∈ map fst left) as Hin by (rewrite Hsame; apply obj_get_in; rewrite Ew; eauto).
      apply obj_get_in in Hin. rewrite E in Hin. by destruct Hin.
  - intros H. assert (map fst left ≡ₚ map fst right) as Hperm.
    { apply NoDup_Permutation; [done..|]. intros k. by rewrite !obj_get_in, H. }
    split; [by rewrite Hperm|]. intros k Hk. apply andb_true_iff. rewrite has_own_spec, <- H. split; [|by apply bool_decide_eq_true].
    by apply obj_get_in, list_elem_of_In.
Qed.

(** * Compatibility with a usage schema *)

Lemma compatible_fold schema l b :
  fold_result (compatible_visitor schema) l b =
    Ok (b && forallb (fun n => match n with
                               | NCall F_u (NLiteral (LString field) _ _ _ :: _) _ _ => has_own schema field
                               | _ => true
                               end) l).
Proof.
  revert b. induction l as [|n l IH]; intros b; [cbn; by rewrite andb_true_r|]. cbn [fold_result forallb].
  assert (compatible_visitor schema b n = Ok (b && match n with
    | NCall F_u (NLiteral (LString field) _ _ _ :: _) _ _ => has_own schema field | _ => true end)) as ->.
  { destruct n as [| |[] [|[[]| | | | |]] | | |]; cbn [compatible_visitor]; rewrite ?andb_true_r; try done.
    match goal with |- context [has_own schema ?f] => destruct (has_own schema f) end; by destruct b. }
  cbn [mbind result_bind]. rewrite IH. by rewrite andb_assoc.
Qed.

Lemma reads_declared schema l :
  forallb (fun n => match n with
                    | NCall F_u (NLiteral (LString field) _ _ _ :: _) _ _ => has_own schema field
                    | _ => true
                    end) l = true <-> fields_declared schema l.
Proof.
  rewrite forallb_forall. split.
  - intros H field i a b rest a' b' Hin. apply list_elem_of_In, H in Hin. by apply has_own_spec.
  - intros H n Hn. apply list_elem_of_In in Hn. destruct n as [| |[] [|[[]| | | | |]] | | |]; try done.
    apply has_own_spec. by eapply H.
Qed.

(** The compatibility check of a task expression decides what the task displays rely
    on: it always answers, refuses a blank expression, gives no answer exactly when the
    expression does not compile, and otherwise answers yes exactly when the expression
    sets no fixed price and every usage field it names is declared in the schema. *)
Theorem compatible_exact (expression : str) (schema : usage_schema) :
  exists answer, taskExpressionCompatible expression schema = Ok answer /\
    if bool_decide (trim expression = []) then answer = Some false
    else
      match compile_source expression with
      | NotReady _ => answer = None
      | Ready c =>
          exists b, answer = Some b /\
            (b = true <-> (F_fixed ∉ c_functions c) /\ fields_declared schema (postorder (c_ast c)))
      end.
Proof.
  unfold taskExpressionCompatible. case_bool_decide; [by eexists|].
  destruct (compile_source expression) as [c|f] eqn:E; [|by eexists].
  destruct (compile_source_Ready _ _ E) as [_ Hok]. rewrite visitExpression_within by apply compiled_height.
  rewrite compatible_fold. cbn [mbind result_bind]. eexists. split; [reflexivity|]. eexists. split; [reflexivity|].
  by rewrite andb_true_iff, negb_true_iff, bool_decide_eq_false, reads_declared.
Qed.
