(* ===== verification/JsSort.v ===== *)
(** [Array.prototype.sort] with a comparator: the stable sort.  [after x y] says that the
    comparator of [x] and [y] is positive.  For a comparator that is a total preorder the
    stable sorted arrangement is unique, so it does not matter which algorithm finds it.
    Also [String.prototype.split] with a separator of one code unit and its inverse [join], and
    the distinct values of an array. *)

From S2P Require Import Prelude JsString BillingTypes.
From Stdlib Require Import Sorted.

Lemma StronglySorted_mono_in {A} (R R' : A -> A -> Prop) l :
  (forall x y, x ∈ l -> y ∈ l -> R x y -> R' x y) -> StronglySorted R l -> StronglySorted R' l.
Proof.
  intros H Hs. induction Hs as [|x l Hs IH Hx]; [constructor|]. constructor.
  - apply IH. intros y z Hy Hz. apply H; by right.
  - rewrite Forall_forall in Hx |- *. intros y Hy. apply H; [left|by right|by apply Hx].
Qed.

Section sort.
Context {A : Type} (after : A -> A -> bool).
Implicit Types (x y : A) (l : list A).

Fixpoint sort_insert x l : list A :=
  match l with
  | [] => [x]
  | y :: l' => if after y x then x :: l else y :: sort_insert x l'
  end.
Definition sort_with l : list A := fold_left (fun sorted x => sort_insert x sorted) l [].

Lemma sort_insert_perm x l : sort_insert x l ≡ₚ x :: l.
Proof.
  induction l as [|y l IH]; [done|]. cbn. destruct (after y x); [done|]. rewrite IH. apply Permutation_swap.
Qed.

Lemma sort_fold_perm l acc : fold_left (fun sorted x => sort_insert x sorted) l acc ≡ₚ l ++ acc.
Proof.
  revert acc. induction l as [|x l IH]; intros acc; [done|]. cbn [fold_left]. rewrite IH, sort_insert_perm.
  cbn. by rewrite Permutation_middle.
Qed.

Lemma sort_with_perm l : sort_with l ≡ₚ l.
Proof. unfold sort_with. by rewrite sort_fold_perm, app_nil_r. Qed.

(** ** Order *)

Definition in_order x y : Prop := after x y = false.

(** A list in order is left as it is. *)
Lemma sort_insert_last x l : Forall (fun y => in_order y x) l -> sort_insert x l = l ++ [x].
Proof. induction 1 as [|y l Hy _ IH]; [done|]. cbn. rewrite Hy. by rewrite IH. Qed.

Lemma sort_fold_id l acc : StronglySorted in_order (acc ++ l) ->
  fold_left (fun sorted x => sort_insert x sorted) l acc = acc ++ l.
Proof.
  revert acc. induction l as [|x l IH]; intros acc Hs; cbn; [by rewrite app_nil_r|].
  rewrite sort_insert_last; [|].
  - rewrite IH; [by rewrite <- app_assoc|by rewrite <- app_assoc].
  - apply Forall_forall. intros y Hy. apply list_elem_of_split in Hy as (l1 & l2 & ->).
    rewrite <- app_assoc in Hs. clear -Hs. induction l1 as [|z l1 IH]; cbn in Hs; apply StronglySorted_inv in Hs as [Hs Hf].
    + rewrite Forall_forall in Hf. apply Hf. set_solver.
    + by apply IH.
Qed.

Lemma sort_with_id l : StronglySorted in_order l -> sort_with l = l.
Proof. intros H. by apply (sort_fold_id l []). Qed.

Section order.
Variable P : A -> Prop.
Hypothesis total : forall x y, P x -> P y -> after x y = true -> after y x = false.
Hypothesis trans : forall x y z, P x -> P y -> P z -> in_order x y -> in_order y z -> in_order x z.

Lemma sort_insert_sorted x l : P x -> Forall P l -> StronglySorted in_order l -> StronglySorted in_order (sort_insert x l).
Proof.
  intros Hx Hl Hs. induction Hs as [|y l Hs IH Hy]; [by repeat constructor|].
  apply Forall_cons in Hl as [HPy Hl]. cbn. destruct (after y x) eqn:E.
  - constructor; [by constructor|]. constructor; [by apply total|].
    rewrite Forall_forall in Hy, Hl |- *. intros z Hz. apply (trans x y z); auto. by apply total.
  - constructor; [by apply IH|]. rewrite sort_insert_perm. by constructor.
Qed.

Lemma sort_with_sorted l : Forall P l -> StronglySorted in_order (sort_with l).
Proof.
  intros Hl. unfold sort_with.
  assert (forall l acc, Forall P l -> Forall P acc -> StronglySorted in_order acc ->
            StronglySorted in_order (fold_left (fun sorted x => sort_insert x sorted) l acc)) as H.
  { clear l Hl. intros l. induction l as [|x l IH]; intros acc Hl Ha Hs; [done|].
    apply Forall_cons in Hl as [Hx Hl]. cbn [fold_left]. apply IH; [done| |by apply sort_insert_sorted].
    rewrite sort_insert_perm. by constructor. }
  apply H; [done|constructor|constructor].
Qed.
End order.

(** ** Stability: elements that the comparator does not tell apart keep their order *)

Section stable.
Variable (P : A -> Prop) (k : A -> bool).
Hypothesis total : forall x y, P x -> P y -> after x y = true -> after y x = false.
Hypothesis trans : forall x y z, P x -> P y -> P z -> in_order x y -> in_order y z -> in_order x z.
(** Nothing in the class [k] goes after anything in it, and an element that goes after some
    member of the class goes after all of them. *)
Hypothesis tied : forall x y, P x -> P y -> k x = true -> k y = true -> after x y = false.
Hypothesis alike : forall x y z, P x -> P y -> P z -> k x = true -> k y = true -> after z x = after z y.

Lemma sort_insert_stable x l : P x -> Forall P l -> k x = true -> StronglySorted in_order l ->
  List.filter k (sort_insert x l) = List.filter k l ++ [x].
Proof.
  intros HP Hl Hx Hs. induction Hs as [|y l Hs IH Hy]; cbn; [by rewrite Hx|].
  apply Forall_cons in Hl as [HPy Hl]. destruct (after y x) eqn:E.
  - assert (List.filter k (y :: l) = []) as Hf.
    { destruct (List.filter k (y :: l)) as [|z r] eqn:Ef; [done|]. exfalso.
      assert (z ∈ List.filter k (y :: l)) as Hz by (rewrite Ef; left).
      apply list_elem_of_In, List.filter_In in Hz as [Hz Hk]. rewrite Forall_forall in Hy, Hl.
      apply list_elem_of_In, elem_of_cons in Hz as [->|Hz]; [by rewrite tied in E|].
      specialize (Hy z Hz). unfold in_order in Hy. rewrite (alike z x y) in Hy by auto. congruence. }
    cbn in Hf. cbn. rewrite Hx. by rewrite Hf.
  - cbn. specialize (IH Hl). destruct (k y); [cbn; by rewrite IH|done].
Qed.

Lemma sort_insert_other x l : k x = false -> List.filter k (sort_insert x l) = List.filter k l.
Proof.
  intros Hx. induction l as [|y l IH]; cbn; [by rewrite Hx|]. destruct (after y x); cbn; [by rewrite Hx|]. by rewrite IH.
Qed.

Lemma sort_fold_stable l acc : Forall P l -> Forall P acc -> StronglySorted in_order acc ->
  List.filter k (fold_left (fun sorted x => sort_insert x sorted) l acc) = List.filter k acc ++ List.filter k l.
Proof.
  revert acc. induction l as [|x l IH]; intros acc Hl Ha Hs; [cbn; by rewrite app_nil_r|].
  apply Forall_cons in Hl as [Hx Hl]. cbn [fold_left].
  rewrite IH; [|done|by rewrite sort_insert_perm; constructor|by eapply sort_insert_sorted].
  cbn. destruct (k x) eqn:E.
  - rewrite sort_insert_stable by done. by rewrite <- app_assoc.
  - by rewrite sort_insert_other.
Qed.

Lemma sort_with_stable l : Forall P l -> List.filter k (sort_with l) = List.filter k l.
Proof. intros Hl. unfold sort_with. by rewrite sort_fold_stable by (done || constructor). Qed.
End stable.
End sort.

(** * Splitting *)

Fixpoint split_on (sep : N) (s : str) : list str :=
  match s with
  | [] => [[]]
  | c :: s' =>
      if (c =? sep)%N then [] :: split_on sep s'
      else match split_on sep s' with
           | piece :: rest => (c :: piece) :: rest
           | [] => [[c]]
           end
  end.

Lemma split_on_nonempty sep s : split_on sep s <> [].
Proof. induction s as [|c s IH]; [done|]. cbn. destruct (c =? sep)%N; [done|]. by destruct (split_on sep s). Qed.

(** A piece without the separator is kept whole. *)
Lemma split_on_piece sep p s : sep ∉ p ->
  split_on sep (p ++ s) = match split_on sep s with piece :: rest => (p ++ piece) :: rest | [] => [p] end.
Proof.
  intros Hp. induction p as [|c p IH]; cbn; [pose proof (split_on_nonempty sep s); by destruct (split_on sep s)|].
  apply not_elem_of_cons in Hp as [Hc Hp]. destruct (N.eqb_spec c sep) as [->|_]; [done|].
  rewrite IH by done. pose proof (split_on_nonempty sep s). by destruct (split_on sep s).
Qed.

Lemma split_on_whole sep p : sep ∉ p -> split_on sep p = [p].
Proof. intros Hp. rewrite <- (app_nil_r p) at 1. rewrite split_on_piece by done. cbn. by rewrite app_nil_r. Qed.

Lemma split_on_cons sep p s : sep ∉ p -> split_on sep (p ++ sep :: s) = p :: split_on sep s.
Proof. intros Hp. rewrite split_on_piece by done. cbn. rewrite N.eqb_refl. by rewrite app_nil_r. Qed.

(** Splitting undoes joining. *)
Lemma split_join_inverse sep pieces : pieces <> [] -> Forall (fun p => sep ∉ p) pieces ->
  split_on sep (join [sep] pieces) = pieces.
Proof.
  intros Hne H. induction H as [|p pieces Hp H IH]; [done|]. destruct pieces as [|q pieces]; [by apply split_on_whole|].
  change (join [sep] (p :: q :: pieces)) with (p ++ [sep] ++ join [sep] (q :: pieces)). cbn [app].
  rewrite split_on_cons by done. f_equal. by apply IH.
Qed.

(** Joining undoes splitting, and no piece holds the separator. *)
Lemma split_on_pieces sep s : join [sep] (split_on sep s) = s /\ Forall (fun p => sep ∉ p) (split_on sep s).
Proof.
  induction s as [|c s [IH1 IH2]]; cbn; [split; [done|]; repeat constructor; by apply not_elem_of_nil|].
  pose proof (split_on_nonempty sep s) as Hne. destruct (N.eqb_spec c sep) as [->|Hc].
  - split; [|constructor; [by apply not_elem_of_nil|done]]. destruct (split_on sep s) as [|p rest]; [done|].
    change (join [sep] ([] :: p :: rest)) with ([] ++ [sep] ++ join [sep] (p :: rest)). by rewrite IH1.
  - destruct (split_on sep s) as [|p rest]; [done|]. apply Forall_cons in IH2 as [Hp Hr]. split.
    + destruct rest as [|q rest]; [cbn in *; by rewrite IH1|].
      change (join [sep] ((c :: p) :: q :: rest)) with (c :: join [sep] (p :: q :: rest)). by rewrite IH1.
    + constructor; [|done]. apply not_elem_of_cons. by split.
Qed.

(** * Distinct values *)

(** [Array.from(new Set(values))] *)
Definition distinct (values : list str) : list str := fold_left (fun s x => set_add x s) values [].

Lemma set_add_fold (values l : list str) : NoDup values ->
  let all := fold_left (fun s x => set_add x s) l values in NoDup all /\ forall x, x ∈ all <-> x ∈ values \/ x ∈ l.
Proof.
  cbv zeta. revert values. induction l as [|y l IH]; intros values Hn; cbn [fold_left].
  { split; [done|]. set_solver. }
  assert (NoDup (set_add y values) /\ forall x, x ∈ set_add y values <-> x ∈ values \/ x = y) as [H1 H2].
  { unfold set_add. case_bool_decide as Hx; [split; [done|naive_solver]|]. split; [|set_solver].
    apply NoDup_app. split; [done|]. split; [set_solver|]. apply NoDup_singleton. }
  destruct (IH _ H1) as [H3 H4]. split; [done|]. intros x. rewrite H4, H2. set_solver.
Qed.

Lemma distinct_spec values : NoDup (distinct values) /\ forall x, x ∈ distinct values <-> x ∈ values.
Proof.
  destruct (set_add_fold [] values NoDup_nil_2) as [H1 H2]. split; [done|]. intros x. rewrite (H2 x). set_solver.
Qed.

Lemma distinct_NoDup values : NoDup values -> distinct values = values.
Proof.
  unfold distinct. intros H.
  assert (forall acc, NoDup (acc ++ values) -> fold_left (fun s x => set_add x s) values acc = acc ++ values) as Hg; [|by apply (Hg [])].
  clear H. induction values as [|x values IH]; intros acc H; cbn; [by rewrite app_nil_r|].
  assert (x ∉ acc) as Hx by (apply NoDup_app in H; set_solver). unfold set_add at 2. rewrite bool_decide_eq_false_2 by done.
  rewrite IH; by rewrite <- app_assoc.
Qed.
