(* ===== verification/Currency.v ===== *)
(** Currency formatting (lib/currency.ts, with the configuration of
    stores/system-config-store.ts).

    [Number.prototype.toFixed] is computed exactly; the number formats of the [Intl] database
    are data of the browser, the class [NumberFormat].  The configuration that the store holds
    is an argument. *)

From S2P Require Import Prelude JsString JsNumber JsNumberOrder.

(** * toFixed *)

(** The integer nearest to [m * 2^e * 10^f], the larger one of two. *)
Definition scaled_round (m : positive) (e f : Z) : Z :=
  let scaled := (Zpos m * 10 ^ f)%Z in
  if (0 <=? e)%Z then (scaled * 2 ^ e)%Z
  else let d := (2 ^ (- e))%Z in
       let q := (scaled / d)%Z in
       if (d <=? 2 * (scaled mod d))%Z then (q + 1)%Z else q.

(** The digits of [n] with [f] of them after the point. *)
Definition fixed_digits (n f : Z) : str :=
  let ds := string_of_Z n in
  let padded := zeros (f + 1 - Z.of_nat (length ds)) ++ ds in
  if (f =? 0)%Z then padded
  else let k := length padded - Z.to_nat f in take k padded ++ js "." ++ drop k padded.

Definition n_1e21 : number := n_of_Z (10 ^ 21).

(** [x.toFixed(f)] for [0 <= f <= 100] *)
Definition to_fixed (x : number) (f : Z) : str :=
  match x with
  | S754_nan => js "NaN"
  | S754_infinity s => if s then js "-Infinity" else js "Infinity"
  | S754_zero _ => fixed_digits 0 f
  | S754_finite s m e =>
      if n_leb n_1e21 (n_abs x) then string_of_number x
      else (if s then js "-" else []) ++ fixed_digits (scaled_round m e f) f
  end.

(** * Configuration *)

Inductive display_type : Type := D_USD | D_CNY | D_TOKENS | D_CUSTOM.
#[export] Instance display_type_eq_dec : EqDecision display_type.
Proof. solve_decision. Defined.

Definition display_types : list (str * display_type) :=
  [(js "USD", D_USD); (js "CNY", D_CNY); (js "TOKENS", D_TOKENS); (js "CUSTOM", D_CUSTOM)].
Definition isCurrencyDisplayType (value : str) : bool :=
  match obj_get value display_types with Some _ => true | None => false end.
Definition parseCurrencyDisplayType (value : str) (fallback : display_type) : display_type :=
  default fallback (obj_get value display_types).

Record currency_config := CurrencyConfig {
  cu_displayInCurrency : bool;
  cu_quotaDisplayType : display_type;
  cu_quotaPerUnit : number;
  cu_usdExchangeRate : number;
  cu_customCurrencySymbol : str;
  cu_customCurrencyExchangeRate : number;
}.

(** U+00A4 *)
Definition DEFAULT_CURRENCY_CONFIG : currency_config :=
  CurrencyConfig true D_USD (n_of_Z 500000) n_one [164%N] n_one.

Definition positive_or (x fallback : number) : number := if n_ltb n_zero x then x else fallback.

(** [getConfig]; [stored] is what the store holds. *)
Definition getConfig (stored : option currency_config) : currency_config :=
  let currency := default DEFAULT_CURRENCY_CONFIG stored in
  CurrencyConfig (cu_displayInCurrency currency) (cu_quotaDisplayType currency)
    (positive_or (cu_quotaPerUnit currency) (cu_quotaPerUnit DEFAULT_CURRENCY_CONFIG))
    (positive_or (cu_usdExchangeRate currency) (cu_usdExchangeRate DEFAULT_CURRENCY_CONFIG))
    (match trim (cu_customCurrencySymbol currency) with
     | [] => cu_customCurrencySymbol DEFAULT_CURRENCY_CONFIG
     | symbol => symbol
     end)
    (positive_or (cu_customCurrencyExchangeRate currency) (cu_customCurrencyExchangeRate DEFAULT_CURRENCY_CONFIG)).

(** [DisplayMeta] *)
Inductive display_meta : Type :=
| Meta_currency (symbol currencyCode : str) (exchangeRate : number)
| Meta_custom (symbol : str) (exchangeRate : number)
| Meta_tokens (quotaPerUnit : number).

Definition usd_meta : display_meta := Meta_currency (js "$") (js "USD") n_one.

Definition getDisplayMeta (config : currency_config) : display_meta :=
  match cu_quotaDisplayType config with
  | D_CNY => Meta_currency [165%N] (js "CNY") (cu_usdExchangeRate config)
  | D_CUSTOM => Meta_custom (cu_customCurrencySymbol config) (cu_customCurrencyExchangeRate config)
  | D_TOKENS => Meta_tokens (cu_quotaPerUnit config)
  | D_USD => usd_meta
  end.

Definition getBillingDisplayMeta (config : currency_config) : display_meta :=
  match getDisplayMeta config with
  | Meta_tokens _ => usd_meta
  | meta => meta
  end.

(** * Options *)

Record format_options := FormatOptions {
  fo_digitsLarge : Z;
  fo_digitsSmall : Z;
  fo_abbreviate : bool;
  fo_minimumNonZero : number;
  fo_compact : bool;
  fo_showSymbol : bool;
  fo_minimumFractionDigits : Z;
  fo_locale : option str;
}.
Definition DEFAULT_FORMAT_OPTIONS : format_options := FormatOptions 2 4 true n_zero false true 0 None.

(** [CurrencyFormatOptions]: every option may be absent. *)
Record currency_options := CurrencyOptions {
  co_digitsLarge : option Z;
  co_digitsSmall : option Z;
  co_abbreviate : option bool;
  co_minimumNonZero : option number;
  co_compact : option bool;
  co_showSymbol : option bool;
  co_minimumFractionDigits : option Z;
  co_locale : option str;
}.

Definition mergeOptions (options : option currency_options) : format_options :=
  let d := DEFAULT_FORMAT_OPTIONS in
  match options with
  | None => d
  | Some o =>
      FormatOptions (default (fo_digitsLarge d) (co_digitsLarge o)) (default (fo_digitsSmall d) (co_digitsSmall o))
        (default (fo_abbreviate d) (co_abbreviate o)) (default (fo_minimumNonZero d) (co_minimumNonZero o))
        (default (fo_compact d) (co_compact o)) (default (fo_showSymbol d) (co_showSymbol o))
        (default (fo_minimumFractionDigits d) (co_minimumFractionDigits o))
        (match co_locale o with Some l => Some l | None => fo_locale d end)
  end.

(** [{ digitsLarge, digitsSmall, abbreviate: false }] *)
Definition price_digits (large small : Z) : currency_options :=
  CurrencyOptions (Some large) (Some small) (Some false) None None None None None.

Definition getFractionDigits (value : number) (digitsLarge digitsSmall : Z) : Z :=
  if n_leb n_one (n_abs value) then digitsLarge else digitsSmall.

Definition getCurrencyFractionDigits (value : number) (options : option currency_options) : Z :=
  let merged := mergeOptions options in
  getFractionDigits value (fo_digitsLarge merged) (fo_digitsSmall merged).

(** * Numbers *)

(** The text after the last point, with the text before it. *)
Fixpoint split_last_point (s : str) : option (str * str) :=
  match s with
  | [] => None
  | c :: s' =>
      match split_last_point s' with
      | Some (before, after) => Some (c :: before, after)
      | None => if (c =? 46)%N then Some ([], s') else None
      end
  end.

Definition strip_zeros (digits : str) : str := reverse (drop_while (fun c => c =? 48)%N (reverse digits)).

(** The first replacement takes the zeros at the end of digits after a point; such digits
    follow the last point.  The second one drops a point at the end. *)
Definition removeTrailingZeros (s : str) : str :=
  match split_last_point s with
  | None => s
  | Some (before, after) =>
      let stripped := if forallb is_digit after then strip_zeros after else after in
      match stripped with [] => before | _ => before ++ js "." ++ stripped end
  end.

Definition formatNumberWithSuffix (value : number) (digitsLarge digitsSmall : Z) (abbreviate : bool) : str :=
  if abbreviate && n_leb (n_of_Z 1000) (n_abs value) then
    removeTrailingZeros (to_fixed (n_div value (n_of_Z 1000)) 1) ++ js "k"
  else removeTrailingZeros (to_fixed value (getFractionDigits value digitsLarge digitsSmall)).

(** [Math.pow(10, -digits)], the number nearest to that power. *)
Definition decimal_unit (digits : Z) : number := number_of_literal (js "1e-" ++ string_of_Z digits).

Definition adjustForMinimum (value : number) (digits : Z) (minimumNonZero : number) : number :=
  if n_eqb value n_zero then value
  else
    let threshold := if n_ltb n_zero minimumNonZero then minimumNonZero else decimal_unit digits in
    let abs := n_abs value in
    if n_ltb n_zero abs && n_ltb abs threshold then (if n_ltb n_zero value then threshold else n_neg threshold)
    else value.

(** * Formatting *)

(** The options of [new Intl.NumberFormat(locale, options)] that the code sets; [nf_currency]
    with the narrow symbol. *)
Record intl_number_options := IntlNumberOptions {
  nf_locale : option str;
  nf_currency : option str;
  nf_compact : bool;
  nf_minimumFractionDigits : option Z;
  nf_maximumFractionDigits : Z;
}.
Class NumberFormat := format_number : intl_number_options -> number -> str.

Section formatting.
Context {numbers : NumberFormat}.

Definition fraction_options (options : format_options) (currency : option str) (digits : Z) : intl_number_options :=
  let maximum := if fo_compact options then 1%Z else digits in
  IntlNumberOptions (fo_locale options) currency (fo_compact options)
    (Some (Z.min (fo_minimumFractionDigits options) maximum)) maximum.

Definition compact_number (locale : option str) (value : number) : str :=
  format_number (IntlNumberOptions locale None true None 1) value.

Definition formatCurrencyValue (value : number) (options : format_options) (meta : display_meta) : str :=
  let digits := getFractionDigits value (fo_digitsLarge options) (fo_digitsSmall options) in
  let adjustedValue := adjustForMinimum value digits (fo_minimumNonZero options) in
  match meta with
  | Meta_tokens _ =>
      if fo_compact options then compact_number (fo_locale options) value
      else formatNumberWithSuffix value (fo_digitsLarge options) (fo_digitsSmall options) (fo_abbreviate options)
  | Meta_currency _ currencyCode _ =>
      format_number (fraction_options options (if fo_showSymbol options then Some currencyCode else None) digits)
        adjustedValue
  | Meta_custom symbol _ =>
      let decimal := format_number (fraction_options options None digits) adjustedValue in
      if fo_showSymbol options then symbol ++ js " " ++ decimal else decimal
  end.

(** [amount == null || Number.isNaN(amount)] *)
Definition known_amount (amount : option number) : option number :=
  match amount with Some x => if is_nan x then None else Some x | None => None end.

Section configured.
Variable stored : option currency_config.

Definition getCurrencyDisplay : currency_config * display_meta :=
  let config := getConfig stored in (config, getDisplayMeta config).

Definition formatCurrencyFromUSD (amountUSD : option number) (options : option currency_options) : str :=
  match known_amount amountUSD with
  | None => js "-"
  | Some amount =>
      let merged := mergeOptions options in
      let meta := getCurrencyDisplay.2 in
      match meta with
      | Meta_tokens _ =>
          let tokens := n_mul amount (cu_quotaPerUnit getCurrencyDisplay.1) in
          if fo_compact merged then compact_number (fo_locale merged) tokens
          else formatNumberWithSuffix tokens 0 (fo_digitsSmall merged) (fo_abbreviate merged)
      | Meta_currency _ _ rate | Meta_custom _ rate => formatCurrencyValue (n_mul amount rate) merged meta
      end
  end.

Definition formatBillingCurrencyFromUSD (amountUSD : option number) (options : option currency_options) : str :=
  match known_amount amountUSD with
  | None => js "-"
  | Some amount =>
      let meta := getBillingDisplayMeta getCurrencyDisplay.1 in
      formatCurrencyValue
        (match meta with Meta_currency _ _ rate | Meta_custom _ rate => n_mul amount rate | Meta_tokens _ => amount end)
        (mergeOptions options) meta
  end.

Definition formatQuotaWithCurrency (quota : option number) (options : option currency_options) : str :=
  match known_amount quota with
  | None => js "-"
  | Some q => formatCurrencyFromUSD (Some (n_div q (cu_quotaPerUnit getCurrencyDisplay.1))) options
  end.

Definition getCurrencyLabel : str :=
  let '(config, meta) := getCurrencyDisplay in
  match meta with
  | Meta_tokens _ => js "Tokens"
  | _ => match cu_quotaDisplayType config with
         | D_CNY => js "CNY"
         | D_CUSTOM => match meta with Meta_custom symbol _ => symbol | _ => js "Custom" end
         | _ => js "USD"
         end
  end.

Definition isCurrencyDisplayEnabled : bool :=
  match getCurrencyDisplay.2 with Meta_tokens _ => false | _ => true end.

Definition formatLocalCurrencyAmount (amount : option number) (options : option currency_options) : str :=
  match known_amount amount with
  | None => js "-"
  | Some x => formatCurrencyValue x (mergeOptions options) (getBillingDisplayMeta getCurrencyDisplay.1)
  end.
End configured.
End formatting.

Example fixed_examples :
  (map (fun x => to_fixed (number_of_literal x) 2) [js "1.005"; js "2.5"; js "0"; js "1234.567"; js "0.015"; js "1e21"],
   to_fixed (n_neg (number_of_literal (js "0.001"))) 2,
   map (fun x => formatNumberWithSuffix (number_of_literal x) 2 4 true) [js "1500"; js "12.50"; js "0.00012"; js "0.10000"; js "999.999"]) =
  ([js "1.00"; js "2.50"; js "0.00"; js "1234.57"; js "0.01"; js "1e+21"], js "-0.00",
   [js "1.5k"; js "12.5"; js "0.0001"; js "0.1"; js "1000"]).
Proof. vm_compute. reflexivity. Qed.
