(* ===== verification/DynamicPrice.v ===== *)
(** Price summaries of the catalogue (features/pricing/lib/dynamic-price.ts).

    The texts of a usage field, which the readers of [BillingDisplay] do not look at, are kept
    beside its schema: [usage_labels].  A function that separates or parses an expression may
    throw and returns a [result]. *)

From S2P Require Import Prelude JsString JsNumber JsNumberOrder JsValue BillingTypes BillingDisplay JsRegExp JsJson RequestRules BillingExpr TaskMatrixDisplay TaskExpr JsPattern PricingModel Currency JsSort.

(** * Data *)

(** [LocalizedText]: a text, or a text for each language. *)
Inductive localized_text : Type :=
| Localized_text (text : str)
| Localized_map (texts : list (str * str)).

Record field_labels := FieldLabels {
  fl_unitLabel : option localized_text;
  fl_inputOutputVideo : bool;      (* pricingDisplay === 'input_output_video_seconds' *)
  fl_enumLabels : option (list (str * localized_text));
  fl_description : option localized_text;
}.
Definition usage_labels : Type := list (str * field_labels).
Definition no_labels : field_labels := FieldLabels None false None None.
Definition labels_of (labels : usage_labels) (field : str) : field_labels := default no_labels (obj_get field labels).

Inductive token_unit : Type := Per_M | Per_K.
Definition TOKEN_UNIT_DIVISORS (u : token_unit) : number := match u with Per_M => n_one | Per_K => n_of_Z 1000 end.

Record dynamic_options := DynamicOptions {
  do_tokenUnit : token_unit;
  do_showRechargePrice : option bool;
  do_priceRate : option number;
  do_usdExchangeRate : option number;
  do_groupRatioMultiplier : option number;
}.
(** [{ tokenUnit: 'M' }] *)
Definition base_options : dynamic_options := DynamicOptions Per_M None None None None.

Inductive entry_unit : Type := E_token | E_request | E_custom.
#[export] Instance entry_unit_eq_dec : EqDecision entry_unit.
Proof. solve_decision. Defined.

Record price_entry := PriceEntry {
  de_key : str;
  de_field : str;
  de_label : str;
  de_shortLabel : str;
  de_value : number;
  de_formatted : str;
  de_variable : option billing_var;
  de_displayUnit : entry_unit;
  de_unit : option usage_unit;
  de_unitLabel : option localized_text;
  de_freeQuantity : option number;
  de_freeQuantityMax : option number;
}.

Record price_range := PriceRange {
  ra_key : str;
  ra_field : str;
  ra_minValue : number;
  ra_maxValue : number;
  ra_formatted : str;
}.

Record pricing_summary := PricingSummary {
  ps_tiers : list parsed_tier;
  ps_tier : option parsed_tier;
  ps_tierCount : nat;
  ps_hasRequestRules : bool;
  ps_isSpecialExpression : bool;
  ps_rawExpression : str;
  ps_entries : list price_entry;
  ps_primaryEntries : list price_entry;
  ps_secondaryEntries : list price_entry;
  ps_primaryRanges : list price_range;
  ps_requestPriceRange : option str;
}.

Record example_price := ExamplePrice { ep_label : str; ep_total : number; ep_formatted : str }.

(** [Math.min(...values)] and [Math.max(...values)] *)
Definition min_of (values : list number) : number := fold_left n_min values n_infinity.
Definition max_of (values : list number) : number := fold_left n_max values (n_neg n_infinity).

(** * Kinds of models *)

Definition PRIMARY_DYNAMIC_FIELDS : list str := [js "inputPrice"; js "outputPrice"].
Definition is_primary (field : str) : bool := bool_decide (field ∈ PRIMARY_DYNAMIC_FIELDS).

Definition isPrimaryDynamicField (field : str) : bool :=
  is_primary field || bool_decide (field = js "input_tokens") || bool_decide (field = js "output_tokens").

Definition expression_of (model : pricing_model) : str := default [] (pm_billing_expr model).

Definition isDynamicPricingModel (model : pricing_model) : bool :=
  bool_decide (pm_billing_mode model = Some (js "tiered_expr")) && bool_decide (expression_of model <> []).

Definition hasTaskUsageSchema (model : pricing_model) : bool :=
  bool_decide (0 < length (default [] (pm_usage_schema model))).

Definition isTaskUsagePricingModel (model : pricing_model) : bool :=
  bool_decide (pm_billing_mode model = Some (js "tiered_expr")) && hasTaskUsageSchema model.

(** The last return of [isUnconfiguredTaskUsageModel]; a model with the prices of a plugin has
    no plugin variants, so the recursion ends here. *)
Definition unconfigured_base (model : pricing_model) : bool :=
  negb (n_eqb (pm_quota_type model) n_one) && hasTaskUsageSchema model && negb (isDynamicPricingModel model).

Definition isUnconfiguredTaskUsageModel (model : pricing_model) : bool :=
  match pm_plugin_variants model with
  | Some (v :: variants) =>
      forallb (fun variant => match pl_billing_mode variant with
                              | Some Mode_ratio => unconfigured_base (withPluginPricing model variant)
                              | _ => bool_decide (pl_billing_expr variant = [])
                              end) (v :: variants)
  | _ => unconfigured_base model
  end.

Definition getDynamicDisplayGroupRatio {V} (model : pricing_model) (selectedGroup : option str)
    (usableGroup : option (list (str * V))) : number := getDisplayGroupRatio model selectedGroup usableGroup.

(** * Formatting *)

Section formatted.
Context {host : Host} {collation : Collation} {numbers : NumberFormat}.
(** The currency configuration of the store. *)
Variable stored : option currency_config.

Definition charged (options : dynamic_options) (price : number) : number :=
  applyRechargeRate price (default false (do_showRechargePrice options)) (default n_one (do_priceRate options))
    (default n_one (do_usdExchangeRate options)).
Definition group_ratio_of (options : dynamic_options) : number := default n_one (do_groupRatioMultiplier options).

(** [unit] is the unit of the field or another text, [None]. *)
Definition formatTaskUnitPrice (value : number) (unit : option usage_unit) (options : dynamic_options) : str :=
  match unit with
  | Some Unit_tokens =>
      let amountUSD :=
        charged options (n_mul (n_div value (TOKEN_UNIT_DIVISORS (do_tokenUnit options))) (group_ratio_of options)) in
      let displayExchangeRate :=
        match (getCurrencyDisplay stored).2 with
        | Meta_currency _ _ rate | Meta_custom _ rate => rate
        | Meta_tokens _ => n_one
        end in
      let displayAmount := n_mul amountUSD displayExchangeRate in
      formatBillingCurrencyFromUSD stored (Some amountUSD)
        (Some (CurrencyOptions (Some 2%Z) (Some 2%Z) (Some false) None None None
                 (Some (if n_ltb (n_abs displayAmount) (n_of_Z 10) then 2%Z else 0%Z)) None))
  | _ =>
      formatBillingCurrencyFromUSD stored (Some (charged options (n_mul value (group_ratio_of options))))
        (Some (price_digits 4 6))
  end.

Definition formatDynamicUnitPrice (valuePerMillionTokens : number) (options : dynamic_options) : str :=
  let priceUSD := n_div (n_mul valuePerMillionTokens (group_ratio_of options))
                    (TOKEN_UNIT_DIVISORS (do_tokenUnit options)) in
  formatBillingCurrencyFromUSD stored (Some (charged options priceUSD)) (Some (price_digits 4 6)).

Definition formatted_range (min max : number) (format : number -> str) : str :=
  if n_eqb min max then format min else format min ++ js "-" ++ format max.

(** * Task prices *)

Definition taskFieldLabel (field : str) : str :=
  if bool_decide (field = js "input_tokens") then js "Input"
  else if bool_decide (field = js "output_tokens") then js "Output"
  else if bool_decide (field = js "cached_tokens") then js "Cached"
  else field.

(** [Number(object[field])]; a missing entry is NaN. *)
Definition number_at (o : list (str * number)) (field : str) : number := default n_nan (obj_get field o).

Definition positive_price (value : number) : bool := is_finite value && n_ltb n_zero value.

Definition task_entry (labels : usage_labels) (options : dynamic_options) (tiers : list task_tier)
    (field : str * usage_field) : list price_entry :=
  let values := List.filter positive_price (map (fun tier => number_at (kt_unitPrices tier) field.1) tiers) in
  let freeValues :=
    List.filter positive_price (map (fun tier => default n_zero (obj_get field.1 (kt_freeQuantities tier))) tiers) in
  match uf_unit field.2 with
  | None => []
  | Some unit =>
      if bool_decide (values = []) && bool_decide (freeValues = []) then []
      else
        let min := if bool_decide (values = []) then n_zero else min_of values in
        let max := if bool_decide (values = []) then n_zero else max_of values in
        [PriceEntry (js "task:" ++ field.1) field.1 (taskFieldLabel field.1) (taskFieldLabel field.1) min
           (formatted_range min max (fun x => formatTaskUnitPrice x (Some unit) options)) None
           (if bool_decide (unit = Unit_tokens) then E_token else E_custom) (Some unit)
           (fl_unitLabel (labels_of labels field.1))
           (if bool_decide (freeValues = []) then None else Some (min_of freeValues))
           (if bool_decide (freeValues = []) then None else Some (max_of freeValues))]
  end.

Definition priced_field (tiers : list task_tier) (field : str * usage_field) : bool :=
  existsb (fun tier => n_ltb n_zero (number_at (kt_unitPrices tier) field.1) ||
                       n_ltb n_zero (number_at (kt_freeQuantities tier) field.1)) tiers.

Definition getTaskPriceEntries (labels : usage_labels) (model : pricing_model) (options : dynamic_options)
    (taskTiers : option (list task_tier)) : result exn (list price_entry) :=
  match pm_usage_schema model, expression_of model with
  | None, _ | _, [] => Ok []
  | Some schema, expression =>
      split ← splitBillingExprAndRequestRules expression;
      tiers ← (match taskTiers with
               | Some tiers => Ok tiers
               | None => getTaskPricingDisplayTiers (billingExpr split) (Some schema)
               end);
      Ok (match tiers with
          | [] => []
          | _ => flat_map (task_entry labels options tiers) (List.filter (priced_field tiers) schema)
          end)
  end.

Definition by_value (a b : price_entry) : bool := n_ltb n_zero (n_sub (de_value a) (de_value b)).

Definition getTaskImageOutputPriceEntries (model : pricing_model) (entries : list price_entry) : list price_entry :=
  match pm_usage_schema model with
  | None => []
  | Some _ =>
      sort_with by_value
        (List.filter (fun entry => starts_with (de_field entry) (js "images_") ||
                                   bool_decide (de_field entry = js "image_count") ||
                                   bool_decide (de_field entry = js "output_image_count")) entries)
  end.

Definition entry_of (entries : list price_entry) (field : str) : option price_entry :=
  List.find (fun entry => bool_decide (de_field entry = field)) entries.

Definition getTaskImagePriceEntries (model : pricing_model) (entries : list price_entry) :
    option (price_entry * list price_entry) :=
  match pm_usage_schema model with
  | None => None
  | Some schema =>
      match List.find (fun field => has_own schema field &&
                                    match entry_of entries field with Some _ => true | None => false end)
              [js "input_images"; js "input_image_count"] with
      | None => None
      | Some inputField =>
          match entry_of entries inputField, getTaskImageOutputPriceEntries model entries with
          | Some input, (_ :: _) as output => Some (input, output)
          | _, _ => None
          end
      end
  end.

(** The case-insensitive patterns; the letters in them are ASCII. *)
Definition lower_text (s : str) : str := map lower_ascii s.
Definition P_folded (s : str) : pattern := P_all (map (fun c => P_char (fun d => lower_ascii d =? c)%N) s).
(** [/input.*video|video.*input/i] *)
Definition input_video_pattern : pattern :=
  let any := P_star (P_char not_line_end) in
  P_alt (P_all [P_folded (js "input"); any; P_folded (js "video")])
        (P_all [P_folded (js "video"); any; P_folded (js "input")]).
Definition names_input_video (field : str) : bool := occurs input_video_pattern field.
(** [/resolution|fps|.../i] with the Chinese words for resolution and frame rate. *)
Definition names_output_dimension (metadata : str) : bool :=
  let text := lower_text metadata in
  includes text (js "resolution") || includes text (js "fps") || includes text [20998%N; 36776%N; 29575%N] ||
  includes text [24103%N; 29575%N].

Definition localized_value (t : option localized_text) : jsval :=
  match t with
  | None | Some (Localized_text []) => VString []
  | Some (Localized_text s) => VString s
  | Some (Localized_map texts) => VObject (map (fun e => (e.1, VString e.2)) texts)
  end.

Definition getTaskVideoPriceEntry (labels : usage_labels) (model : pricing_model) (entries : list price_entry) :
    option price_entry :=
  match pm_usage_schema model with
  | None => None
  | Some schema =>
      let hasOutputDimension :=
        existsb (fun e => is_enum_field e &&
                          names_output_dimension
                            (e.1 ++ js " " ++ JSON_stringify_value (localized_value (fl_description (labels_of labels e.1)))))
          schema in
      if negb hasOutputDimension then None
      else
        let durationEntries := List.filter (fun e => bool_decide (uf_unit e.2 = Some Unit_second)) schema in
        let durationField :=
          match List.find (fun e => negb (names_input_video e.1)) durationEntries with
          | Some ((_ :: _) as name, _) => Some name
          | _ => fst <$> head durationEntries
          end in
        match durationField with
        | None | Some [] => None
        | Some field => entry_of entries field
        end
  end.

(** * Token prices *)

Definition getDynamicPricingTiers (model : pricing_model) : result exn (list parsed_tier) :=
  if negb (isDynamicPricingModel model) then Ok []
  else split ← splitBillingExprAndRequestRules (expression_of model); parseTiersFromExpr (billingExpr split).

Definition hasDynamicRequestRules (model : pricing_model) : result exn bool :=
  if negb (isDynamicPricingModel model) then Ok false
  else
    split ← splitBillingExprAndRequestRules (expression_of model);
    groups ← tryParseRequestRuleExpr (requestRuleExpr split);
    Ok (match groups with Some (_ :: _) => true | _ => false end).

(** [Number(tier[field])] *)
Definition tier_price (tier : parsed_tier) (field : str) : number := number_at (pt_fields tier) field.

Definition variable_entry (tier : parsed_tier) (options : dynamic_options) (variable : billing_var) : list price_entry :=
  match bv_field variable with
  | None | Some [] => []
  | Some field =>
      let value := tier_price tier field in
      if negb (is_finite value) || n_leb value n_zero then []
      else [PriceEntry (bv_key variable) field (bv_label variable) (bv_shortLabel variable) value
              (formatDynamicUnitPrice value options) (Some variable) E_token None None None None]
  end.

Definition primary_first (a b : price_entry) : bool := negb (is_primary (de_field a)) && is_primary (de_field b).

Definition getDynamicPriceEntries (tier : option parsed_tier) (options : dynamic_options) : list price_entry :=
  match tier with
  | None => []
  | Some tier =>
      let entries := sort_with primary_first (flat_map (variable_entry tier options) BILLING_PRICING_VARS) in
      let fixedPrice := match pt_fixedPrice tier with
                        | Some x => if n_eqb x n_zero || is_nan x then n_zero else x
                        | None => n_zero
                        end in
      if n_ltb n_zero fixedPrice then
        entries ++ [PriceEntry (js "fixedPrice") (js "fixedPrice") (js "Fixed price") (js "Fixed price") fixedPrice
                      (formatBillingCurrencyFromUSD stored (Some (charged options (n_mul fixedPrice (group_ratio_of options))))
                         (Some (price_digits 4 6))) None E_request None None None None]
      else entries
  end.

Definition getDynamicPriceRange (tiers : list parsed_tier) (variable : billing_var) (options : dynamic_options) :
    option price_range :=
  match bv_field variable with
  | None | Some [] => None
  | Some field =>
      if bool_decide (length tiers < 2) then None
      else
        let values := map (fun tier => tier_price tier field) tiers in
        if existsb (fun value => negb (is_finite value) || n_ltb value n_zero) values then None
        else
          let minValue := min_of values in
          let maxValue := max_of values in
          Some (PriceRange (bv_key variable) field minValue maxValue
                  (formatted_range minValue maxValue (fun x => formatDynamicUnitPrice x options)))
  end.

Definition getDynamicPrimaryPriceRanges (tiers : list parsed_tier) (options : dynamic_options) : list price_range :=
  flat_map (fun variable =>
    if negb (is_primary (default [] (bv_field variable))) then []
    else match getDynamicPriceRange tiers variable options with Some range => [range] | None => [] end)
    BILLING_PRICING_VARS.

(** * Time rules *)

Definition getTimeRuleInterval (condition : request_condition) : option (number * number) :=
  match condition with
  | CParam _ => None
  | CTime c =>
      if bool_decide (rt_mode c = MATCH_EQ) then
        let value := number_of_string (rt_value c) in
        if is_finite value then Some (value, n_add value n_one) else None
      else if bool_decide (rt_mode c = MATCH_RANGE) then
        let start := number_of_string (rt_rangeStart c) in
        let stop := number_of_string (rt_rangeEnd c) in
        if is_finite start && is_finite stop && n_ltb start stop then Some (start, stop) else None
      else None
  end.

Definition same_clock (left right : request_condition) : bool :=
  match left, right with
  | CTime l, CTime r => bool_decide (rt_timeFunc r = rt_timeFunc l) && bool_decide (rt_timezone r = rt_timezone l)
  | _, _ => false
  end.

Definition conditions_disjoint (left right : request_condition) : bool :=
  match getTimeRuleInterval left with
  | None => false
  | Some (l0, l1) =>
      same_clock left right &&
      match getTimeRuleInterval right with
      | None => false
      | Some (r0, r1) => n_leb r1 l0 || n_leb l1 r0
      end
  end.

Definition timeRuleGroupsAreDisjoint (left right : request_rule_group) : bool :=
  existsb (fun l => existsb (conditions_disjoint l) (rg_conditions right)) (rg_conditions left).

(** [groups.every((group, index) => groups.slice(index + 1).every(...))] *)
Fixpoint pairwise_disjoint (groups : list request_rule_group) : bool :=
  match groups with
  | [] => true
  | group :: rest => forallb (timeRuleGroupsAreDisjoint group) rest && pairwise_disjoint rest
  end.

Definition is_time_condition (condition : request_condition) : bool :=
  match condition with CTime _ => true | CParam _ => false end.

(** The multipliers of mutually exclusive time rules with the range they give; [None] when
    the rules are not of this kind. *)
Definition multiplier_range (groups : list request_rule_group) : option (number * number) :=
  let multipliers := map (fun group => number_of_string (rg_multiplier group)) groups in
  if existsb (fun m => negb (is_finite m) || n_ltb m n_zero) multipliers then None
  else if forallb (fun group => forallb is_time_condition (rg_conditions group)) groups && pairwise_disjoint groups
  then Some (min_of (n_one :: multipliers), max_of (n_one :: multipliers))
  else None.

Definition getDynamicCatalogPriceRanges (model : pricing_model) (options : dynamic_options) :
    result exn (option (list price_range)) :=
  if negb (isDynamicPricingModel model) then Ok None
  else
    tiers ← getDynamicPricingTiers model;
    match tiers with
    | [tier] =>
        split ← splitBillingExprAndRequestRules (expression_of model);
        groups ← tryParseRequestRuleExpr (requestRuleExpr split);
        match groups with
        | None | Some [] => Ok None
        | Some groups =>
            match multiplier_range groups with
            | None => Ok None
            | Some (least, greatest) =>
                Ok (Some (flat_map (fun variable =>
                  match bv_field variable with
                  | None | Some [] => []
                  | Some field =>
                      let baseValue := tier_price tier field in
                      if negb (is_primary field) then []
                      else if negb (is_finite baseValue) || n_ltb baseValue n_zero then []
                      else
                        let minValue := n_mul baseValue least in
                        let maxValue := n_mul baseValue greatest in
                        [PriceRange (bv_key variable) field minValue maxValue
                           (formatted_range minValue maxValue (fun x => formatDynamicUnitPrice x options))]
                  end) BILLING_PRICING_VARS))
            end
        end
    | _ => Ok None
    end.

(** * Summary *)

Definition getDynamicRequestPriceRange (tiers : list parsed_tier) (options : dynamic_options) : option str :=
  let values := List.filter positive_price (map (fun tier => default n_nan (pt_fixedPrice tier)) tiers) in
  match values with
  | [] => None
  | _ => Some (formatted_range (min_of values) (max_of values) (fun value =>
           formatBillingCurrencyFromUSD stored (Some (charged options (n_mul value (group_ratio_of options))))
             (Some (price_digits 4 6))))
  end.

Definition getDynamicPricingSummary (labels : usage_labels) (model : pricing_model) (options : dynamic_options) :
    result exn (option pricing_summary) :=
  if negb (isDynamicPricingModel model) then Ok None
  else
    tiers ← getDynamicPricingTiers model;
    let rawExpression := expression_of model in
    taskTiers ← (match pm_usage_schema model with
                 | Some schema =>
                     split ← splitBillingExprAndRequestRules rawExpression;
                     getTaskPricingDisplayTiers (billingExpr split) (Some schema)
                 | None => Ok []
                 end);
    taskEntries ← (match pm_usage_schema model with
                   | Some _ => getTaskPriceEntries labels model options (Some taskTiers)
                   | None => Ok []
                   end);
    let entries := match taskEntries with [] => getDynamicPriceEntries (head tiers) options | _ => taskEntries end in
    hasRequestRules ← hasDynamicRequestRules model;
    Ok (Some (PricingSummary tiers (head tiers)
      (match tiers with [] => length taskTiers | _ => length tiers end) hasRequestRules
      (bool_decide (trim rawExpression <> []) && bool_decide (length tiers = 0) && bool_decide (length taskEntries = 0))
      rawExpression entries
      (List.filter (fun entry => isPrimaryDynamicField (de_field entry)) entries)
      (List.filter (fun entry => negb (isPrimaryDynamicField (de_field entry))) entries)
      (if (hasRequestRules : bool) then [] else getDynamicPrimaryPriceRanges tiers options)
      (getDynamicRequestPriceRange tiers options))).

(** The part of [getCardExamplePrice] after the plugin variants; [clock] is the time of the
    evaluation. *)
Definition example_price_of (clock : date) (model : pricing_model) (options : dynamic_options) :
    result exn (option example_price) :=
  if negb (isTaskUsagePricingModel model) then Ok None
  else
    examples ← evaluateTaskUsageExamples (expression_of model) (pm_usage_schema model)
                 (default [] (pm_usage_examples model)) clock;
    Ok (match examples with
        | (label, total) :: _ =>
            if is_finite total then Some (ExamplePrice label total (formatTaskUnitPrice total None options)) else None
        | [] => None
        end).

Definition getCardExamplePrice (clock : date) (model : pricing_model) (options : dynamic_options) :
    result exn (option example_price) :=
  match pm_plugin_variants model with
  | Some (v :: variants) =>
      match List.find (fun provider => bool_decide (pl_billing_expr provider <> [])) (v :: variants) with
      | Some variant => example_price_of clock (withPluginPricing model variant) options
      | None => Ok None
      end
  | _ => example_price_of clock model options
  end.
End formatted.
