(* ===== verification/PriceDisplay.v ===== *)
(** Prices as the catalogue shows them (features/pricing/lib: the formatters of price.ts,
    tool-price.ts, task-price-display.ts, catalog-task-price.ts; lib/localized-text.ts). *)

From S2P Require Import Prelude JsString JsNumber JsNumberOrder JsValue BillingTypes BillingParser BillingCompile BillingDisplay JsJson BillingExpr TaskMatrixDisplay TaskExpr ConditionDisplay JsPattern PricingModel Currency JsSort DynamicPrice.

(** * price.ts *)

(** [Number.parseFloat] of a text of digits, signs and points. *)
Definition parse_decimal (s : str) : number :=
  let '(negative, rest) := match s with 45%N :: r => (true, r) | _ => (false, s) end in
  let whole := take_while is_digit rest in
  let fraction := match drop_while is_digit rest with 46%N :: r => take_while is_digit r | _ => [] end in
  match whole ++ fraction with
  | [] => n_nan
  | _ =>
      let x := number_of_literal ((match whole with [] => js "0" | _ => whole end) ++
                                  (match fraction with [] => [] | _ => js "." ++ fraction end)) in
      if negative then n_neg x else x
  end.

(** A symbol without digits or signs, digits with commas and a fraction, and a k. *)
Definition formatted_price_pattern : pattern :=
  P_all [P_group 1 (P_star (P_char (fun c => negb (is_digit c || (c =? 45)%N))));
         P_group 2 (P_all [P_plus (P_char (fun c => is_digit c || (c =? 45)%N || (c =? 44)%N)); P_opt (P_one 46%N);
                           P_star (P_char is_digit)]);
         P_group 3 (P_opt (P_one 107%N))].

(** [.replace(/\.?0+$/, '')] *)
Definition drop_zero_end (s : str) : str :=
  let stripped := reverse (drop_while (fun c => c =? 48)%N (reverse s)) in
  if bool_decide (length stripped = length s) then s
  else match reverse stripped with 46%N :: r => reverse r | _ => stripped end.

Definition stripTrailingZeros (formatted : str) : str :=
  match match_whole formatted_price_pattern formatted with
  | None => formatted
  | Some caps =>
      let symbol := default [] (capture 1 caps) in
      let number := default [] (capture 2 caps) in
      let suffix := default [] (capture 3 caps) in
      let parsed := parse_decimal (List.filter (fun c => negb (c =? 44)%N) number) in
      if is_nan parsed then formatted
      else
        let result := string_of_number parsed in
        let result := if includes result (js "e") then drop_zero_end (to_fixed parsed 20) else result in
        symbol ++ result ++ suffix
  end.

Record sora_display_tier := SoraDisplayTier { sd_key : str; sd_label : str; sd_multiplier : number; sd_price : str }.
Record sora_display := SoraDisplay {
  sd_basePrice : str;
  sd_tierPriceRange : str;
  sd_tierCount : nat;
  sd_resolutionTiers : list sora_display_tier;
  sd_audioGenerationSurcharge : option str;
}.

(** [model.model_price || 0] *)
Definition request_price (model : pricing_model) : number :=
  match pm_model_price model with Some x => if is_nan x then n_zero else x | None => n_zero end.

Section prices.
Context {numbers : NumberFormat}.
Variable stored : option currency_config.

Definition display_ratio (model : pricing_model) (selectedGroup : option str) : number :=
  getDisplayGroupRatio (V := unit) model selectedGroup None.

Definition getSoraBasePriceUSD (model : pricing_model) (selectedGroup : option str) : number :=
  n_mul (request_price model) (display_ratio model selectedGroup).

Definition formatSoraPrice (priceInUSD : number) : str :=
  formatCurrencyFromUSD stored (Some priceInUSD) (Some (price_digits 4 4)).

(** The recharge display: whether it is shown and the two rates. *)
Record recharge := Recharge { rc_show : bool; rc_priceRate : number; rc_usdExchangeRate : number }.
Definition recharged (r : recharge) (price : number) : number :=
  applyRechargeRate price (rc_show r) (rc_priceRate r) (rc_usdExchangeRate r).

Definition getSoraPricingDisplay (model : pricing_model) (r : recharge) (selectedGroup : option str) :
    option sora_display :=
  if negb (isSoraPerRequestPricingModel model) then None
  else
    let basePriceInUSD := recharged r (getSoraBasePriceUSD model selectedGroup) in
    let basePrice := formatSoraPrice basePriceInUSD in
    let surcharge :=
      n_mul (default n_nan (pm_sora model ≫= so_audio_generation_surcharge)) (display_ratio model selectedGroup) in
    let hasSurcharge := positive_price surcharge in
    let tiers := normalizeSoraResolutionTiers (pm_sora model ≫= so_resolution_tiers) in
    let resolutionTiers :=
      map (fun tier => SoraDisplayTier (so_value tier) (so_value tier) (so_multiplier tier)
                         (formatSoraPrice (n_mul basePriceInUSD (so_multiplier tier)))) tiers in
    let tierPricesInUSD := map (fun tier => n_mul basePriceInUSD (sd_multiplier tier)) resolutionTiers in
    let tierPriceRange :=
      match tierPricesInUSD with
      | [] => basePrice
      | _ => formatted_range (min_of tierPricesInUSD) (max_of tierPricesInUSD)
               (fun x => stripTrailingZeros (formatSoraPrice x))
      end in
    Some (SoraDisplay basePrice tierPriceRange (length resolutionTiers) resolutionTiers
            (if hasSurcharge then Some (formatSoraPrice (recharged r surcharge)) else None)).

Definition is_request_model (model : pricing_model) : bool := n_eqb (pm_quota_type model) QUOTA_REQUEST.

Definition format_token_price (priceInUSD : number) (tokenUnit : token_unit) : str :=
  formatCurrencyFromUSD stored (Some (n_div priceInUSD (TOKEN_UNIT_DIVISORS tokenUnit))) (Some (price_digits 4 6)).

Definition formatPrice (model : pricing_model) (type : price_type) (tokenUnit : token_unit) (r : recharge)
    (selectedGroup : option str) : str :=
  if is_request_model model then js "-"
  else format_token_price (recharged r (calculateTokenPrice model type (display_ratio model selectedGroup))) tokenUnit.

Definition formatGroupPrice (model : pricing_model) (group : str) (type : price_type) (tokenUnit : token_unit)
    (r : recharge) (groupRatio : list (str * jsval)) : str :=
  if is_request_model model then js "-"
  else format_token_price (recharged r (calculateTokenPrice model type (getConfiguredGroupRatio groupRatio group))) tokenUnit.

Definition formatFixedPrice (model : pricing_model) (group : str) (r : recharge) (groupRatio : list (str * jsval)) : str :=
  if negb (is_request_model model) then js "-"
  else formatCurrencyFromUSD stored
         (Some (recharged r (n_mul (request_price model) (getConfiguredGroupRatio groupRatio group))))
         (Some (price_digits 4 4)).

Definition formatRequestPrice (model : pricing_model) (r : recharge) (selectedGroup : option str) : str :=
  if negb (is_request_model model) then js "-"
  else formatCurrencyFromUSD stored
         (Some (recharged r (n_mul (request_price model) (display_ratio model selectedGroup))))
         (Some (price_digits 4 4)).

(** * tool-price.ts *)

Record tool_price := ToolPrice { tp_name : str; tp_label : str; tp_price_per_1k : number }.

Definition TOOL_PRICE_ORDER : list str :=
  [js "web_search_preview"; js "web_search"; js "file_search"; js "google_search"; js "google_search_grounded_prompt";
   js "image_generation"; js "deepseek_search"; js "deepseek_fetch"].

(** [TOOL_PRICE_ORDER.indexOf(name) + 1 || Number.MAX_SAFE_INTEGER], an integer; the difference
    of two of them is exact. *)
Definition tool_rank (name : str) : Z :=
  match find_index (fun n => bool_decide (n = name)) TOOL_PRICE_ORDER with
  | Some i => (Z.of_nat i + 1)%Z
  | None => max_safe_integer
  end.
Definition tool_after (left right : tool_price) : bool := (0 <? tool_rank (tp_name left) - tool_rank (tp_name right))%Z.

Definition getPricingToolPrices (tools : option (list tool_price)) : list tool_price :=
  sort_with tool_after
    (List.filter (fun tool => is_finite (tp_price_per_1k tool) && n_leb n_zero (tp_price_per_1k tool)) (default [] tools)).

Definition formatToolPrice (pricePerThousand groupRatio : number) (showRechargePrice : option bool)
    (priceRate usdExchangeRate : option number) : str :=
  let ratio := if is_finite groupRatio && n_leb n_zero groupRatio then groupRatio else n_one in
  let rechargeMultiplier :=
    if default false showRechargePrice
    then n_div (default n_one priceRate) (n_max (default n_one usdExchangeRate) (number_of_literal (js "0.001")))
    else n_one in
  let value := n_mul (n_mul pricePerThousand ratio) rechargeMultiplier in
  if negb (is_finite value) || n_ltb value n_zero then js "-"
  else formatBillingCurrencyFromUSD stored (Some value) (Some (price_digits 4 6)).

Definition getToolPriceSummary (tools : option (list tool_price)) (groupRatio : number)
    (showRechargePrice : option bool) (priceRate usdExchangeRate : option number) : list str :=
  map (fun tool => tp_label tool ++ js " " ++
                   formatToolPrice (tp_price_per_1k tool) groupRatio showRechargePrice priceRate usdExchangeRate ++ js "/1K")
    (take 2 (getPricingToolPrices tools)).
End prices.

(** * Localised texts *)

(** [value || undefined]: the empty text is falsy. *)
Definition truthy_entry (texts : list (str * str)) (key : str) : option str :=
  match obj_get key texts with Some [] | None => None | Some s => Some s end.

Definition resolveLocalizedText (value : option localized_text) (language : str) : str :=
  match value with
  | None => []
  | Some (Localized_text s) => s
  | Some (Localized_map texts) =>
      match obj_get language texts with
      | Some s => s
      | None => match obj_get (js "en") texts with
                | Some s => s
                | None => default [] (snd <$> head texts)
                end
      end
  end.

(** [language.replace('_', '-')]: the first occurrence. *)
Fixpoint replace_underscore (s : str) : str :=
  match s with
  | [] => []
  | c :: s' => if (c =? 95)%N then 45%N :: s' else c :: replace_underscore s'
  end.

Definition resolveTaskLocalizedText (value : option localized_text) (language : str) : str :=
  match value with
  | None => []
  | Some (Localized_text s) => s
  | Some (Localized_map texts) =>
      let languageTag := replace_underscore language in
      let normalizedLanguage :=
        if bool_decide (languageTag = js "zhCN") then js "zh"
        else if bool_decide (languageTag = js "zhTW") then js "zh-TW"
        else languageTag in
      match truthy_entry texts normalizedLanguage with
      | Some exact => exact
      | None =>
          match truthy_entry texts (take_while (fun c => negb (c =? 45)%N) normalizedLanguage) with
          | Some base => base
          | None => resolveLocalizedText value normalizedLanguage
          end
      end
  end.

Definition taskPriceLabel (description : option localized_text) (field language : str) : str :=
  let localized :=
    match description with
    | Some (Localized_map texts) =>
        let english := match trim (default [] (obj_get (js "en") texts)) with [] => field | s => s end in
        Some (Localized_map (obj_set (js "en") english texts))
    | _ => description
    end in
  match resolveTaskLocalizedText localized language with [] => field | s => s end.

Definition taskEnumLabel (labels : field_labels) (value language : str) : str :=
  taskPriceLabel (fl_enumLabels labels ≫= obj_get value) value language.

(** The definition of a field is its schema entry and its labels. *)
Definition taskUsageUnitLabel (unit : option usage_unit) (unitLabel : option localized_text) (language fallback : str) :
    str :=
  if negb (bool_decide (unit = Some Unit_count)) then fallback
  else match resolveTaskLocalizedText unitLabel language with [] => fallback | s => s end.

(** * task-price-display.ts *)

Section translated.
Context {display : DisplayHost}.
(** i18next's [t] *)
Variable translation : str -> str.

(** [' · '] *)
Definition middle_dot : str := [32; 183; 32]%N.

Definition taskPricingConditions (conditions : list task_condition) (schema : option usage_schema)
    (labels : usage_labels) (language : str) : str :=
  join middle_dot
    (map (fun c =>
       let texts := labels_of labels (kc_field c) in
       let label := taskPriceLabel (fl_description texts) (kc_field c) language in
       if bool_decide ((schema ≫= obj_get (kc_field c)) ≫= uf_type = Some Usage_boolean) then
         label ++ js ": " ++ (if bool_decide (kc_value c = js "true") then translation (js "Yes") else translation (js "No"))
       else
         let optionLabel := taskEnumLabel texts (kc_value c) language in
         if negb (bool_decide (optionLabel = kc_value c)) then optionLabel else label ++ js ": " ++ optionLabel) conditions).

Definition taskTierConditions (tier : task_tier) (schema : option usage_schema) (labels : usage_labels) (language : str) :
    result exn str :=
  let usage := taskPricingConditions (kt_conditions tier) schema labels language in
  time ← (match kt_conditionText tier with
          | None | Some [] => Ok []
          | Some text =>
              match formatBillingCondition text language with
              | Some described => Ok (default text described)
              | None => Throw OutOfFuel
              end
          end);
  Ok (join middle_dot (List.filter (fun s => bool_decide (s <> [])) [usage; time])).
End translated.

Definition hasSimpleTaskPricing (model : pricing_model) : result exn bool :=
  match pm_usage_schema model, expression_of model with
  | None, _ | _, [] => Ok false
  | Some schema, expression =>
      if negb (bool_decide (pm_billing_mode model = Some (js "tiered_expr"))) then Ok false
      else
        split ← splitBillingExprAndRequestRules expression;
        if negb (bool_decide (trim (requestRuleExpr split) = [])) then Ok false
        else
          tiers ← getTaskPricingDisplayTiers (billingExpr split) (Some schema);
          Ok (match tiers with
              | [tier] => bool_decide (default [] (kt_conditionText tier) = [])
              | _ => false
              end)
  end.

(** The visitor of [pricingDisplayFallbackKey]. *)
Definition metadata_visitor (schema : option usage_schema) (missing : bool) (n : node) : result exn bool :=
  match n with
  | NCall F_u args _ _ =>
      match schema, args with
      | Some fields, NLiteral (LString key) _ _ _ :: _ => Ok (missing || negb (has_own fields key))
      | _, _ => Ok true
      end
  | _ => Ok missing
  end.

Definition pricingDisplayFallbackKey (expression : str) (schema : option usage_schema) : result exn str :=
  missing ← (match compile_source expression with
             | Ready compiled => visitExpression (c_ast compiled) (metadata_visitor schema) false
             | NotReady _ => Ok false
             end);
  Ok (if (missing : bool) then js "Task usage metadata is unavailable. Pricing details cannot be displayed."
      else js "This expression cannot be expanded into a price table. View the original expression below.").

(** * catalog-task-price.ts *)

Record catalog_rows := CatalogRows {
  cr_inputLabel : option str;
  cr_inputValue : str;
  cr_inputUnit : str;
  cr_inputFree : option (number * option number);
  cr_referenceImage : option (str * str * str * option (number * option number));
  cr_referenceVideo : option (str * str * str);
  cr_outputLabel : option str;
  cr_outputValue : str;
  cr_outputUnit : str;
}.

(** U+2013 *)
Definition en_dash : str := [8211%N].

Definition formatCardPriceRange (value : str) : str :=
  match index_of value (js "-") with
  | None => value
  | Some separator =>
      let minimum := take separator value in
      let maximum := drop (separator + 1) value in
      if bool_decide (minimum = maximum) then minimum else minimum ++ en_dash ++ maximum
  end.

(** [freeQuantity] with [freeQuantityMax], when the first is present. *)
Definition free_of (entry : price_entry) : option (number * option number) :=
  match de_freeQuantity entry with Some q => Some (q, de_freeQuantityMax entry) | None => None end.

Definition input_image_entry (entries : list price_entry) : option price_entry :=
  List.find (fun entry => bool_decide (de_field entry ∈ [js "input_images"; js "input_image_count"])) entries.

Definition unit_label_of (schema : usage_schema) (labels : usage_labels) (field language fallback : str) : str :=
  taskUsageUnitLabel (obj_get field schema ≫= uf_unit) (fl_unitLabel (labels_of labels field)) language fallback.

(** The rows of a model with image prices, the lowest and the highest of them. *)
Definition image_rows (schema : usage_schema) (labels : usage_labels) (entries : list price_entry) (language countFallback : str)
    (lowest highest : price_entry) (several : bool) : catalog_rows :=
  let input := input_image_entry entries in
  let lowestFormatted := formatCardPriceRange (de_formatted lowest) in
  let highestFormatted := formatCardPriceRange (de_formatted highest) in
  let outputValue :=
    if several && (negb (n_eqb (de_value lowest) (de_value highest)) || negb (bool_decide (lowestFormatted = highestFormatted)))
    then lowestFormatted ++ en_dash ++ highestFormatted else lowestFormatted in
  let outputUnit := unit_label_of schema labels (de_field lowest) language countFallback in
  CatalogRows
    ((fun entry => taskPriceLabel (fl_description (labels_of labels (de_field entry))) (de_field entry) language) <$> input)
    (match input with Some entry => formatCardPriceRange (de_formatted entry) | None => js "-" end)
    (match input with Some entry => unit_label_of schema labels (de_field entry) language outputUnit | None => [] end)
    (input ≫= free_of) None None None outputValue outputUnit.

Definition video_rows (schema : usage_schema) (labels : usage_labels) (entries : list price_entry)
    (language countFallback secondUnit referenceVideoLabel generatedVideoLabel referenceImageLabel : str)
    (videoPrice : price_entry) : catalog_rows :=
  let inputImage := input_image_entry entries in
  let inputVideo :=
    List.find (fun entry => negb (bool_decide (de_field entry = de_field videoPrice)) &&
                            bool_decide (obj_get (de_field entry) schema ≫= uf_unit = Some Unit_second) &&
                            names_input_video (de_field entry)) entries in
  let referenceVideo :=
    match inputVideo with
    | Some entry => Some entry
    | None => if fl_inputOutputVideo (labels_of labels (de_field videoPrice)) then Some videoPrice else None
    end in
  let referenceField := match inputVideo with Some entry => de_field entry | None => de_field videoPrice end in
  let outputValue := formatCardPriceRange (de_formatted videoPrice) in
  match inputImage, referenceVideo with
  | None, None => CatalogRows None (js "-") [] None None None None outputValue secondUnit
  | _, _ =>
      CatalogRows None [] [] None
        ((fun entry => (referenceImageLabel, formatCardPriceRange (de_formatted entry),
                        unit_label_of schema labels (de_field entry) language countFallback, free_of entry)) <$> inputImage)
        ((fun entry => (referenceVideoLabel, formatCardPriceRange (de_formatted entry),
                        unit_label_of schema labels referenceField language secondUnit)) <$> referenceVideo)
        (Some generatedVideoLabel) outputValue secondUnit
  end.

Definition getCatalogTaskPriceRows (labels : usage_labels) (model : pricing_model) (entries : list price_entry)
    (language countFallback secondUnit referenceVideoLabel generatedVideoLabel referenceImageLabel : str) :
    option catalog_rows :=
  let schema := default [] (pm_usage_schema model) in
  match getTaskImageOutputPriceEntries model entries with
  | lowest :: rest =>
      Some (image_rows schema labels entries language countFallback lowest (default lowest (last rest))
              (bool_decide (rest <> [])))
  | [] =>
      video_rows schema labels entries language countFallback secondUnit referenceVideoLabel generatedVideoLabel
        referenceImageLabel <$> getTaskVideoPriceEntry labels model entries
  end.

Example strip_examples :
  map stripTrailingZeros [js "$1,234.5000"; js "$0.100"; js "1.50k"; js "free"; js "$0.00000010"; js "$-"] =
  [js "$1234.5"; js "$0.1"; js "1.5k"; js "free"; js "$0.0000001"; js "$-"].
Proof. vm_compute. reflexivity. Qed.
