(* ===== verification/CatalogFilters.v ===== *)
(** Searching, filtering and sorting the catalogue (features/pricing/lib/filters.ts).

    A catalogue model is a [pricing_model] with the properties that only the filters read.
    The price of a model for an order can throw, so sorting returns a [result]. *)

From S2P Require Import Prelude JsString JsNumber JsNumberOrder JsValue BillingTypes BillingDisplay BillingExpr TaskExpr JsPattern PricingModel Currency JsSort DynamicPrice.

Record catalog_model := CatalogModel {
  cm_base : pricing_model;
  cm_labels : usage_labels;
  cm_description : option str;
  cm_tags : option str;
  cm_available_vendors : option (list str);    (* their names *)
  cm_supported_endpoint_types : option (list str);
}.

(** * Options *)

Inductive sort_price_kind : Type := Sort_input | Sort_output | Sort_request.

(** [PRICE_SORTS]: the price, and whether low prices come first. *)
Definition PRICE_SORTS : list (str * (sort_price_kind * bool)) :=
  [(js "input-price-low", (Sort_input, true)); (js "input-price-high", (Sort_input, false));
   (js "output-price-low", (Sort_output, true)); (js "output-price-high", (Sort_output, false));
   (js "request-price-low", (Sort_request, true)); (js "request-price-high", (Sort_request, false))].
Definition SORT_NAME : str := js "name".
Definition QUOTA_TYPES_TOKEN : str := js "token".

Record catalog_filters := CatalogFilters {
  cf_search : str;
  cf_vendor : str;
  cf_group : str;
  cf_quotaType : str;
  cf_endpointType : str;
  cf_tag : str;
  cf_sortBy : str;
}.

(** * Filters *)

Section host.
Context {host : Host}.

(** [property?.toLowerCase().includes(lowerQuery)] *)
Definition text_matches (lowerQuery : str) (property : option str) : bool :=
  match property with Some s => includes (to_lower_case s) lowerQuery | None => false end.

Definition matches_query (lowerQuery : str) (m : catalog_model) : bool :=
  text_matches lowerQuery (pm_model_name (cm_base m)) || text_matches lowerQuery (cm_description m) ||
  text_matches lowerQuery (cm_tags m) || text_matches lowerQuery (pm_vendor_name (cm_base m)) ||
  text_matches lowerQuery (pm_developer_name (cm_base m)).

Definition filterBySearch (models : list catalog_model) (query : str) : list catalog_model :=
  match query with
  | [] => models
  | _ => List.filter (matches_query (to_lower_case query)) models
  end.

Definition filterByVendor (models : list catalog_model) (vendor : str) : list catalog_model :=
  if bool_decide (vendor = FILTER_ALL) then models
  else List.filter (fun m => bool_decide (vendor ∈ default [] (cm_available_vendors m)) ||
                             bool_decide (pm_vendor_name (cm_base m) = Some vendor)) models.

Definition filterByGroup (models : list catalog_model) (group : str) : list catalog_model :=
  if bool_decide (group = FILTER_ALL) then models
  else List.filter (fun m => bool_decide (group ∈ enabled_groups (cm_base m)) ||
                             bool_decide (FILTER_ALL ∈ enabled_groups (cm_base m))) models.

Definition filterByQuotaType (models : list catalog_model) (quotaType : str) : list catalog_model :=
  if bool_decide (quotaType = js "all") then models
  else
    let targetType := if bool_decide (quotaType = QUOTA_TYPES_TOKEN) then QUOTA_TOKEN else QUOTA_REQUEST in
    List.filter (fun m => n_eqb (pm_quota_type (cm_base m)) targetType) models.

Definition filterByEndpointType (models : list catalog_model) (endpointType : str) : list catalog_model :=
  if bool_decide (endpointType = js "all") then models
  else List.filter (fun m => bool_decide (endpointType ∈ default [] (cm_supported_endpoint_types m))) models.

(** A comma, a semicolon, a bar or white space. *)
Definition is_tag_separator (c : N) : bool := (c =? 44)%N || (c =? 59)%N || (c =? 124)%N || is_space c.

Definition parseTags (tagsString : option str) : list str :=
  match tagsString with
  | None | Some [] => []
  | Some s => List.filter (fun t => bool_decide (t <> [])) (map trim (split_pattern (P_plus (P_char is_tag_separator)) s))
  end.

Definition has_tag (tagLower : str) (m : catalog_model) : bool :=
  match cm_tags m with
  | None | Some [] => false
  | Some _ => bool_decide (tagLower ∈ map to_lower_case (parseTags (cm_tags m)))
  end.

Definition filterByTag (models : list catalog_model) (tag : str) : list catalog_model :=
  if bool_decide (tag = FILTER_ALL) then models
  else List.filter (has_tag (to_lower_case tag)) models.

Context {collation : Collation}.
Definition collates_after (a b : str) : bool := locale_before b a.

Definition extractAllTags (models : list catalog_model) : list str :=
  sort_with collates_after
    (fold_left (fun tagSet model => fold_left (fun s tag => set_add (to_lower_case tag) s) (parseTags (cm_tags model)) tagSet)
       models []).

(** * Prices *)

Context {numbers : NumberFormat}.
Variable stored : option currency_config.
Variable clock : date.

Definition is_request_field (field : str) : bool :=
  bool_decide (field = js "fixedPrice") || bool_decide (field = js "modelPrice").
Definition kind_field (kind : sort_price_kind) : str :=
  match kind with Sort_input => js "inputPrice" | _ => js "outputPrice" end.
Definition kind_price (kind : sort_price_kind) : price_type :=
  match kind with Sort_input => Price_input | _ => Price_output end.
(** [entry.displayUnit === 'token' || entry.unit === 'token'] *)
Definition is_token_entry (entry : price_entry) : bool :=
  bool_decide (de_displayUnit entry = E_token) || bool_decide (de_unit entry = Some Unit_tokens).

Definition getSortPrice (m : catalog_model) (kind : sort_price_kind) : result exn (option number) :=
  let model := cm_base m in
  example ← (match kind with
             | Sort_request => getCardExamplePrice stored clock model base_options
             | _ => Ok None
             end);
  match example with
  | Some e => Ok (Some (ep_total e))
  | None =>
      summary ← getDynamicPricingSummary stored (cm_labels m) model base_options;
      Ok (match kind, summary with
          | Sort_request, Some s => de_value <$> List.find (fun entry => is_request_field (de_field entry)) (ps_entries s)
          | Sort_request, None => if isTokenBasedModel model then None else pm_model_price model
          | _, Some s =>
              de_value <$> List.find (fun entry => bool_decide (de_field entry = kind_field kind) && is_token_entry entry)
                             (ps_entries s)
          | _, None =>
              if negb (isTokenBasedModel model) || isUnconfiguredTaskUsageModel model then None
              else Some (calculateTokenPrice model (kind_price kind) n_one)
          end)
  end.

(** * Sorting *)

(** The comparator on the prices of two models is positive: prices come before missing
    prices, and the difference of two prices decides. *)
Definition price_after (low_first : bool) (left right : option number) : bool :=
  match left, right with
  | Some l, Some r => n_ltb n_zero (n_mul (if low_first then n_one else n_neg n_one) (n_sub l r))
  | None, Some _ => true
  | _, None => false
  end.

(** The models with the prices that the comparator looks up. *)
Fixpoint with_prices (kind : sort_price_kind) (models : list catalog_model) :
    result exn (list (catalog_model * option number)) :=
  match models with
  | [] => Ok []
  | m :: models' => price ← getSortPrice m kind; rest ← with_prices kind models'; Ok ((m, price) :: rest)
  end.

Definition name_after (a b : catalog_model) : bool :=
  collates_after (default [] (pm_model_name (cm_base a))) (default [] (pm_model_name (cm_base b))).

Definition sortModels (models : list catalog_model) (sortBy : str) : result exn (list catalog_model) :=
  match obj_get sortBy PRICE_SORTS with
  | Some (kind, low_first) =>
      entries ← with_prices kind models;
      Ok (map fst (sort_with (fun a b => price_after low_first a.2 b.2) entries))
  | None => Ok (if bool_decide (sortBy = SORT_NAME) then sort_with name_after models else models)
  end.

Definition filterAndSortModels (models : list catalog_model) (filters : catalog_filters) :
    result exn (list catalog_model) :=
  let result := filterBySearch models (cf_search filters) in
  let result := filterByVendor result (cf_vendor filters) in
  let result := filterByGroup result (cf_group filters) in
  let result := filterByQuotaType result (cf_quotaType filters) in
  let result := filterByEndpointType result (cf_endpointType filters) in
  let result := filterByTag result (cf_tag filters) in
  sortModels result (cf_sortBy filters).
End host.

Example tags_example :
  parseTags (Some (js " Vision, chat;;tools | fast  x,")) = [js "Vision"; js "chat"; js "tools"; js "fast"; js "x"].
Proof. vm_compute. reflexivity. Qed.
