(* ===== verification/PriceRangeProps.v ===== *)
(** Properties of the price ranges of the catalogue: what a shown range promises about the
    tiers and about the time rules behind it. *)

From S2P Require Import Prelude JsString JsNumber JsNumberOrder JsValue BillingTypes BillingRuntime BillingDisplay RequestRules BillingExpr TaskExpr PricingModel Currency DynamicPrice.

(** * Least and greatest *)

Lemma min_spec x y : is_nan x = false -> is_nan y = false ->
  (n_min x y = x \/ n_min x y = y) /\ n_leb (n_min x y) x = true /\ n_leb (n_min x y) y = true.
Proof.
  intros Hx Hy. assert (n_min x y = if n_ltb x y || is_neg_zero x then (if n_ltb y x then y else x) else y) as ->
    by by destruct x, y.
  destruct (n_ltb x y) eqn:E1; cbn [orb].
  - assert (n_ltb y x = false) as ->.
    { destruct (n_ltb y x) eqn:E2; [|done]. apply ltb_rank in E1, E2; [|done..]. unfold rank_lt in *. lia. }
    split; [by left|]. split; [by apply leb_refl|by apply ltb_true_leb].
  - pose proof (ltb_false_leb x y Hx Hy E1) as Hyx. destruct (is_neg_zero x) eqn:Ez.
    + destruct (n_ltb y x) eqn:E2; [split; [by right|]; split; [done|by apply leb_refl]|].
      split; [by left|]. split; [by apply leb_refl|by apply ltb_false_leb].
    + split; [by right|]. split; [done|by apply leb_refl].
Qed.

Lemma max_spec x y : is_nan x = false -> is_nan y = false ->
  (n_max x y = x \/ n_max x y = y) /\ n_leb x (n_max x y) = true /\ n_leb y (n_max x y) = true.
Proof.
  intros Hx Hy. assert (n_max x y = if n_ltb y x || is_neg_zero y then (if n_ltb x y then y else x) else y) as ->
    by by destruct x, y.
  destruct (n_ltb y x) eqn:E1; cbn [orb].
  - assert (n_ltb x y = false) as ->.
    { destruct (n_ltb x y) eqn:E2; [|done]. apply ltb_rank in E1, E2; [|done..]. unfold rank_lt in *. lia. }
    split; [by left|]. split; [by apply leb_refl|by apply ltb_true_leb].
  - pose proof (ltb_false_leb y x Hy Hx E1) as Hyx. destruct (is_neg_zero y) eqn:Ez.
    + destruct (n_ltb x y) eqn:E2; [split; [by right|]; split; [done|by apply leb_refl]|].
      split; [by left|]. split; [by apply leb_refl|by apply ltb_false_leb].
    + split; [by right|]. split; [done|by apply leb_refl].
Qed.

(** A fold with a selection that is below (or above) both of its arguments. *)
Section extremum.
Variables (pick : number -> number -> number) (le : number -> number -> bool).
Hypothesis pick_spec : forall x y, is_nan x = false -> is_nan y = false ->
  (pick x y = x \/ pick x y = y) /\ le (pick x y) x = true /\ le (pick x y) y = true.
Hypothesis le_refl : forall x, is_nan x = false -> le x x = true.
Hypothesis le_trans : forall x y z, is_nan x = false -> is_nan y = false -> is_nan z = false ->
  le x y = true -> le y z = true -> le x z = true.

Lemma extremum_fold l start : is_nan start = false -> Forall (fun x => is_nan x = false) l ->
  let r := fold_left pick l start in
  is_nan r = false /\ (r = start \/ r ∈ l) /\ le r start = true /\ forall x, x ∈ l -> le r x = true.
Proof.
  cbv zeta. revert start. induction l as [|y l IH]; intros start Hs Hl; cbn [fold_left].
  { repeat split; [done|by left|by apply le_refl|]. intros x Hx. by apply not_elem_of_nil in Hx. }
  apply Forall_cons in Hl as [Hy Hl]. destruct (pick_spec start y Hs Hy) as (Hp & H1 & H2).
  assert (is_nan (pick start y) = false) as Hn by (by destruct Hp as [-> | ->]).
  destruct (IH _ Hn Hl) as (I1 & I2 & I3 & I4). split; [done|]. split; [|split].
  - destruct I2 as [-> |I2]; [|right; by right]. destruct Hp as [-> | ->]; [by left|right; left].
  - by apply (le_trans _ (pick start y)).
  - intros x [->|Hx]%elem_of_cons; [by apply (le_trans _ (pick start y))|by apply I4].
Qed.
End extremum.

Lemma finite_list_nan l : Forall (fun x => is_finite x = true) l -> Forall (fun x => is_nan x = false) l.
Proof. intros H. eapply Forall_impl; [exact H|]. intros x. apply finite_not_nan. Qed.

Lemma min_of_spec l : l <> [] -> Forall (fun x => is_finite x = true) l ->
  min_of l ∈ l /\ forall x, x ∈ l -> n_leb (min_of l) x = true.
Proof.
  intros Hne Hf. destruct (extremum_fold n_min n_leb min_spec leb_refl leb_trans l n_infinity eq_refl (finite_list_nan l Hf))
    as (_ & H1 & _ & H3).
  split; [|exact H3]. destruct H1 as [H1|H1]; [|exact H1]. exfalso. destruct l as [|x l]; [done|].
  specialize (H3 x ltac:(left)). rewrite H1 in H3. apply Forall_cons in Hf as [Hx _]. by destruct x as [| | |[]].
Qed.

Lemma max_of_spec l : l <> [] -> Forall (fun x => is_finite x = true) l ->
  max_of l ∈ l /\ forall x, x ∈ l -> n_leb x (max_of l) = true.
Proof.
  intros Hne Hf.
  destruct (extremum_fold n_max (fun a b => n_leb b a) max_spec leb_refl
              (fun x y z Hx Hy Hz H1 H2 => leb_trans z y x Hz Hy Hx H2 H1) l (n_neg n_infinity) eq_refl (finite_list_nan l Hf))
    as (_ & H1 & _ & H3).
  split; [|exact H3]. destruct H1 as [H1|H1]; [|exact H1]. exfalso. destruct l as [|x l]; [done|].
  specialize (H3 x ltac:(left)). rewrite H1 in H3. apply Forall_cons in Hf as [Hx _]. by destruct x as [| | |[]].
Qed.

(** * Ranges over tiers *)

Section ranges.
Context {host : Host} {numbers : NumberFormat}.
Variable stored : option currency_config.
Implicit Types (tiers : list parsed_tier) (options : dynamic_options).

Definition ordinary_price (x : number) : bool := is_finite x && negb (n_ltb x n_zero).

Definition range_of (tiers : list parsed_tier) (field : str) (range : price_range) : Prop :=
  ra_field range = field /\ 2 <= length tiers /\
  (forall tier, tier ∈ tiers -> n_leb (ra_minValue range) (tier_price tier field) = true /\
                                n_leb (tier_price tier field) (ra_maxValue range) = true) /\
  (exists tier, tier ∈ tiers /\ tier_price tier field = ra_minValue range) /\
  (exists tier, tier ∈ tiers /\ tier_price tier field = ra_maxValue range).

Lemma price_range_spec tiers variable options field : bv_field variable = Some field -> field <> [] ->
  match getDynamicPriceRange stored tiers variable options with
  | Some range => range_of tiers field range /\ forall tier, tier ∈ tiers -> ordinary_price (tier_price tier field) = true
  | None => length tiers < 2 \/ exists tier, tier ∈ tiers /\ ordinary_price (tier_price tier field) = false
  end.
Proof.
  intros Hv Hne. unfold getDynamicPriceRange. rewrite Hv. destruct field as [|c field]; [done|]. set (name := c :: field) in *.
  case_bool_decide as Hlen; [by left|]. set (values := map (fun tier => tier_price tier name) tiers).
  destruct (existsb _ values) eqn:E.
  - right. apply existsb_exists in E as (x & Hx & E). apply list_elem_of_In, list_elem_of_fmap in Hx as (tier & -> & Ht).
    exists tier. split; [done|]. unfold ordinary_price. destruct (is_finite _), (n_ltb _ _); done.
  - assert (Forall (fun x => is_finite x = true) values) as Hf.
    { apply Forall_forall. intros x Hx. destruct (is_finite x) eqn:Ef; [done|]. rewrite <- E.
      apply existsb_exists. exists x. split; [by apply list_elem_of_In|]. by rewrite Ef. }
    assert (values <> []) as Hv0 by (unfold values; destruct tiers; cbn in *; [lia|done]).
    destruct (min_of_spec values Hv0 Hf) as [H1 H2]. destruct (max_of_spec values Hv0 Hf) as [H3 H4].
    apply list_elem_of_fmap in H1 as (t1 & E1 & Ht1), H3 as (t2 & E2 & Ht2).
    assert (forall tier, tier ∈ tiers -> tier_price tier name ∈ values) as Hin
      by (intros tier Ht; unfold values; apply list_elem_of_fmap; eauto).
    split.
    + split; [done|]. split; [lia|]. cbn [ra_minValue ra_maxValue]. split; [|split; [by exists t1|by exists t2]].
      intros tier Ht. split; [apply H2|apply H4]; by apply Hin.
    + intros tier Ht. destruct (ordinary_price (tier_price tier name)) eqn:Eo; [done|]. rewrite <- E.
      apply existsb_exists. exists (tier_price tier name). split; [by apply list_elem_of_In, Hin|].
      unfold ordinary_price in Eo. by destruct (is_finite _), (n_ltb _ _).
Qed.

Lemma primary_ranges_in tiers options range : range ∈ getDynamicPrimaryPriceRanges stored tiers options ->
  range_of tiers (ra_field range) range /\
  forall tier, tier ∈ tiers -> ordinary_price (tier_price tier (ra_field range)) = true.
Proof.
  unfold getDynamicPrimaryPriceRanges. rewrite list_elem_of_In, in_flat_map. intros (variable & _ & H).
  destruct (bv_field variable) as [field|] eqn:Ef; [cbn [default from_option id] in H|by vm_compute in H].
  destruct (is_primary field) eqn:Ep; [|done]. cbn [negb] in H. assert (field <> []) as Hne by (by intros ->).
  pose proof (price_range_spec tiers variable options field Ef Hne) as Hs.
  destruct (getDynamicPriceRange _ _ _ _) as [r|]; [|done]. destruct H as [->|[]].
  assert (ra_field range = field) as -> by apply Hs. exact Hs.
Qed.

Lemma primary_ranges_all tiers options field : field ∈ PRIMARY_DYNAMIC_FIELDS -> 2 <= length tiers ->
  (forall tier, tier ∈ tiers -> ordinary_price (tier_price tier field) = true) ->
  exists range, range ∈ getDynamicPrimaryPriceRanges stored tiers options /\ ra_field range = field.
Proof.
  intros Hf Hlen Hall.
  assert (exists variable, variable ∈ BILLING_PRICING_VARS /\ bv_field variable = Some field) as (v & Hv & Ev).
  { assert (field = js "inputPrice" \/ field = js "outputPrice") as [-> | ->] by set_solver;
      [destruct (List.find (fun v => bool_decide (bv_field v = Some (js "inputPrice"))) BILLING_PRICING_VARS) eqn:E
      |destruct (List.find (fun v => bool_decide (bv_field v = Some (js "outputPrice"))) BILLING_PRICING_VARS) eqn:E];
      try (by vm_compute in E); apply find_some in E as [E1 E2]; breflect; eexists; (split; [by apply list_elem_of_In|done]). }
  assert (is_primary field = true) as Hp by by apply bool_decide_eq_true.
  assert (field <> []) as Hne by (by intros ->).
  pose proof (price_range_spec tiers v options field Ev Hne) as Hs.
  destruct (getDynamicPriceRange stored tiers v options) as [r|] eqn:Er.
  - exists r. split; [|apply Hs]. unfold getDynamicPrimaryPriceRanges. apply list_elem_of_In, in_flat_map. exists v.
    split; [by apply list_elem_of_In|]. rewrite Ev. cbn [default from_option id]. rewrite Hp, Er. by left.
  - destruct Hs as [Hs|(tier & Ht & Hs)]; [lia|]. by rewrite Hall in Hs.
Qed.

End ranges.

(** * Time rules *)

(** What a written time condition asks of the readings of the clocks: the tests that
    [buildTimeConditionExpr] writes. *)
Definition condition_met (readings : str -> time_values) (condition : request_condition) : bool :=
  match condition with
  | CParam _ => false
  | CTime c =>
      let x := time_value (readings (rt_timezone c)) (rt_timeFunc c) in
      if bool_decide (rt_mode c = MATCH_RANGE) then
        let start := number_of_string (rt_rangeStart c) in
        let stop := number_of_string (rt_rangeEnd c) in
        if n_ltb stop start then n_leb start x || n_ltb x stop else n_leb start x && n_ltb x stop
      else
        let v := number_of_string (rt_value c) in
        if bool_decide (rt_mode c = MATCH_GTE) then n_leb v x
        else if bool_decide (rt_mode c = MATCH_LT) then n_ltb x v
        else n_eqb x v
  end.
Definition group_met (readings : str -> time_values) (group : request_rule_group) : bool :=
  forallb (condition_met readings) (rg_conditions group).

(** The factor of a list of rules of which at most one holds. *)
Definition applied_multiplier (readings : str -> time_values) (groups : list request_rule_group) : number :=
  match List.filter (group_met readings) groups with
  | [] => n_one
  | group :: _ => number_of_string (rg_multiplier group)
  end.

(** The components of a time are small integers. *)
Definition clock_readings (readings : str -> time_values) : Prop :=
  forall zone f, exists z, (0 <= z <= 59)%Z /\ time_value (readings zone) f = n_of_Z z.

(** An integer of a clock lies strictly below its successor. *)
Lemma reading_below_next z v : (0 <= z <= 59)%Z -> n_eqb (n_of_Z z) v = true -> n_ltb (n_of_Z z) (n_add v n_one) = true.
Proof.
  intros Hz Hv.
  assert (forallb (fun k => n_ltb (n_of_Z k) (n_add (n_of_Z k) n_one)) (map Z.of_nat (seq 0 60)) = true) as Hall
    by (vm_compute; reflexivity).
  rewrite forallb_forall in Hall.
  assert (n_ltb (n_of_Z z) (n_add (n_of_Z z) n_one) = true) as Hn.
  { apply Hall, in_map_iff. exists (Z.to_nat z). rewrite in_seq. lia. }
  assert (is_nan v = false) as Hnv by (by destruct v, (n_of_Z z)).
  assert (is_nan (n_of_Z z) = false) as Hnz by (by destruct (n_of_Z z)).
  apply eqb_rank in Hv; [|done..].
  destruct (n_of_Z z) as [sz|sz| |sz mz ez] eqn:Ez, v as [sv|sv| |sv mv ev]; try done;
    try (by destruct sz); try (by destruct sv); try (by destruct sz, sv).
  destruct sz, sv; cbn in Hv; try done; injection Hv as He Hm; assert (ez = ev) as -> by lia; by rewrite <- Hm.
Qed.

(** A condition with an interval holds only inside it. *)
Lemma interval_met readings condition start stop : clock_readings readings ->
  getTimeRuleInterval condition = Some (start, stop) -> condition_met readings condition = true ->
  exists c, condition = CTime c /\
    let x := time_value (readings (rt_timezone c)) (rt_timeFunc c) in n_leb start x = true /\ n_ltb x stop = true.
Proof.
  intros Hr Hi Hm. destruct condition as [c|c]; [|done]. exists c. split; [done|]. cbv zeta. cbn in Hi, Hm.
  destruct (bool_decide (rt_mode c = MATCH_EQ)) eqn:Ee.
  - destruct (is_finite (number_of_string (rt_value c))) eqn:Ef; [|done]. injection Hi as <- <-.
    apply bool_decide_eq_true in Ee. rewrite Ee in Hm. cbn in Hm.
    destruct (Hr (rt_timezone c) (rt_timeFunc c)) as (z & Hz & Hv). rewrite Hv in Hm |- *.
    split; [|by apply reading_below_next]. unfold n_leb, SFleb, n_eqb, SFeqb in *.
    pose proof (compare_rank (n_of_Z z) (number_of_string (rt_value c))) as Hc.
    apply leb_rank; [by apply finite_not_nan|by destruct (n_of_Z z)|].
    apply eqb_rank in Hm; [|by destruct (n_of_Z z)|by apply finite_not_nan]. rewrite Hm. unfold rank_lt. lia.
  - destruct (bool_decide (rt_mode c = MATCH_RANGE)) eqn:Er; [|done].
    destruct (is_finite _ && is_finite _ && n_ltb _ _) eqn:E; [|done]. injection Hi as <- <-.
    apply andb_true_iff in E as [[F1 F2]%andb_true_iff E].
    assert (n_ltb (number_of_string (rt_rangeEnd c)) (number_of_string (rt_rangeStart c)) = false) as Hlt.
    { destruct (n_ltb (number_of_string (rt_rangeEnd c)) _) eqn:E'; [|done]. apply finite_not_nan in F1, F2.
      apply ltb_rank in E, E'; [|done..]. unfold rank_lt in *. lia. }
    rewrite Hlt in Hm. by apply andb_true_iff in Hm.
Qed.

Lemma disjoint_conditions readings l r : clock_readings readings -> conditions_disjoint l r = true ->
  condition_met readings l = true -> condition_met readings r = true -> False.
Proof.
  intros Hr Hd Hl Hm. unfold conditions_disjoint in Hd.
  destruct (getTimeRuleInterval l) as [[l0 l1]|] eqn:El; [|done]. apply andb_true_iff in Hd as [Hs Hd].
  destruct (getTimeRuleInterval r) as [[r0 r1]|] eqn:Er; [|done].
  destruct (interval_met _ _ _ _ Hr El Hl) as (cl & -> & H1 & H2). destruct (interval_met _ _ _ _ Hr Er Hm) as (cr & -> & H3 & H4).
  cbn in Hs. apply andb_true_iff in Hs as [Hf Hz]. apply bool_decide_eq_true in Hf, Hz. rewrite Hf, Hz in H3, H4.
  destruct (Hr (rt_timezone cl) (rt_timeFunc cl)) as (z & _ & Hx). set (x := time_value _ _) in *.
  assert (is_nan x = false) as Hnx by (by destruct x).
  assert (is_nan l0 = false /\ is_nan l1 = false /\ is_nan r0 = false /\ is_nan r1 = false) as (N0 & N1 & N2 & N3)
    by (destruct l0, l1, r0, r1, x; try done).
  apply leb_rank in H1, H3; [|done..]. apply ltb_rank in H2, H4; [|done..].
  apply orb_true_iff in Hd as [Hd|Hd]; apply leb_rank in Hd; try done; unfold rank_lt in *; lia.
Qed.

Lemma disjoint_groups readings left right : clock_readings readings -> timeRuleGroupsAreDisjoint left right = true ->
  group_met readings left = true -> group_met readings right = true -> False.
Proof.
  intros Hr Hd Hl Hm. unfold timeRuleGroupsAreDisjoint in Hd. unfold group_met in *. rewrite forallb_forall in Hl, Hm.
  apply existsb_exists in Hd as (l & Il & Hd). apply existsb_exists in Hd as (r & Ir & Hd).
  by apply (disjoint_conditions readings l r); auto.
Qed.

Lemma at_most_one readings groups : clock_readings readings -> pairwise_disjoint groups = true ->
  length (List.filter (group_met readings) groups) <= 1.
Proof.
  intros Hr. induction groups as [|g groups IH]; cbn [pairwise_disjoint]; [cbn; lia|].
  intros [Hg Hp]%andb_true_iff. specialize (IH Hp). cbn [List.filter]. destruct (group_met readings g) eqn:Em; [|done].
  destruct (List.filter (group_met readings) groups) as [|g' rest] eqn:Ef; [done|]. exfalso.
  assert (In g' groups /\ group_met readings g' = true) as [Hi Hm] by (apply filter_In; rewrite Ef; by left).
  rewrite forallb_forall in Hg. by apply (disjoint_groups readings g g'); auto.
Qed.

Definition multipliers (groups : list request_rule_group) : list number :=
  n_one :: map (fun group => number_of_string (rg_multiplier group)) groups.

Lemma applied_in readings groups : applied_multiplier readings groups ∈ multipliers groups.
Proof.
  unfold applied_multiplier, multipliers. destruct (List.filter _ groups) as [|g rest] eqn:E; [left|right].
  apply list_elem_of_fmap. exists g. split; [done|]. apply list_elem_of_In.
  apply (filter_In (group_met readings)). rewrite E. by left.
Qed.

Lemma multiplier_range_spec groups least greatest : multiplier_range groups = Some (least, greatest) ->
  pairwise_disjoint groups = true /\ least ∈ multipliers groups /\ greatest ∈ multipliers groups /\
  forall x, x ∈ multipliers groups -> n_leb least x = true /\ n_leb x greatest = true.
Proof.
  unfold multiplier_range. destruct (existsb _ _) eqn:E; [done|]. destruct (forallb _ groups && _) eqn:Ed; [|done].
  intros [= <- <-]. apply andb_true_iff in Ed as [_ Hd]. fold (multipliers groups).
  assert (Forall (fun x => is_finite x = true) (multipliers groups)) as Hf.
  { constructor; [done|]. apply Forall_forall. intros x Hx. destruct (is_finite x) eqn:Ef; [done|]. rewrite <- E.
    apply existsb_exists. exists x. split; [by apply list_elem_of_In|]. by rewrite Ef. }
  destruct (min_of_spec (multipliers groups)) as [H1 H2]; [done..|].
  destruct (max_of_spec (multipliers groups)) as [H3 H4]; [done..|].
  repeat split; auto.
Qed.


(** * Examples *)

Definition priced_model (expression : str) : pricing_model :=
  PricingModel (Some (js "m")) None None n_zero n_one n_one None None None None None None None None
    (Some (js "tiered_expr")) (Some expression) None None None None.

Definition silent_numbers : NumberFormat := fun _ _ => [].

Definition quoted (s : str) : str := [dquote] ++ s ++ [dquote].

Definition two_tiers : str :=
  js "len <= 200000 ? tier(" ++ quoted (js "short") ++ js ", p * 2 + c * 8) : tier(" ++ quoted (js "long") ++
  js ", p * 3 + c * 8)".


Definition night_rule : str :=
  js "tier(" ++ quoted (js "base") ++ js ", p * 2 + c * 8) * (hour(" ++ quoted (js "UTC") ++ js ") >= 0 && hour(" ++
  quoted (js "UTC") ++ js ") < 8 ? 0.5 : 1) * (hour(" ++ quoted (js "UTC") ++ js ") == 12 ? 2 : 1)".

Definition noon : str -> time_values :=
  fun _ => TimeValues (n_of_Z 12) (n_of_Z 0) (n_of_Z 1) (n_of_Z 5) (n_of_Z 20).


(** The range of the night rule: half the price to twice the price. *)
Example night_ranges :
  match getDynamicCatalogPriceRanges (host := sample_host) (numbers := silent_numbers) None
          (priced_model night_rule) base_options with
  | Ok (Some ranges) => map (fun r => (ra_field r, string_of_number (ra_minValue r), string_of_number (ra_maxValue r))) ranges
  | _ => []
  end = [(js "inputPrice", js "1", js "4"); (js "outputPrice", js "4", js "16")].
Proof. vm_compute. reflexivity. Qed.
