(* ===== verification/CatalogProps.v ===== *)
(** Properties of the catalogue: what the filters keep, in which order the models are shown,
    and which tags are offered. *)

From S2P Require Import Prelude JsString JsNumber JsNumberOrder JsValue BillingTypes BillingDisplay BillingExpr TaskExpr JsPattern PricingModel Currency JsSort DynamicPrice CatalogFilters.
From Stdlib Require Import Sorted.

(** * The order of prices *)

(** A price that is missing or a finite double. *)
Definition known_price (p : option number) : bool :=
  match p with Some x => is_double x && is_finite x | None => true end.

(** The order that a reader of the list expects: known prices by their value, then the models
    without a price. *)
Definition price_precedes (low_first : bool) (left right : option number) : Prop :=
  match left, right with
  | Some l, Some r => (if low_first then n_leb l r else n_leb r l) = true
  | None, Some _ => False
  | _, None => True
  end.

Definition same_price (p q : option number) : bool :=
  match p, q with
  | Some x, Some y => n_eqb x y
  | None, None => true
  | _, _ => false
  end.

Lemma price_after_compare low l r : known_price (Some l) = true -> known_price (Some r) = true ->
  price_after low (Some l) (Some r) = if low then n_ltb r l else n_ltb l r.
Proof.
  intros [Dl Fl]%andb_true_iff [Dr Fr]%andb_true_iff. cbn [price_after].
  pose proof (sub_sign l r Dl Dr Fl Fr) as [H1 H2].
  pose proof (mul_unit_sign (negb low) (n_sub l r) (sub_graded l r Dl Dr Fl Fr)) as H.
  destruct low; cbn [negb] in H; rewrite H; [apply H1 | apply H2].
Qed.

Lemma in_order_precedes low l r : known_price l = true -> known_price r = true ->
  price_after low l r = false <-> price_precedes low l r.
Proof.
  intros Hl Hr. destruct l as [l|], r as [r|]; [|done..]. rewrite price_after_compare by done. cbn [price_precedes].
  apply andb_true_iff in Hl as [_ Fl], Hr as [_ Fr]. apply finite_not_nan in Fl, Fr.
  destruct low; rewrite leb_ltb_negb by done; by destruct (n_ltb _ _).
Qed.

Lemma precedes_total low l r : known_price l = true -> known_price r = true ->
  price_after low l r = true -> price_after low r l = false.
Proof.
  intros Hl Hr H. apply in_order_precedes; [done..|]. destruct l as [l|], r as [r|]; [|done..].
  rewrite price_after_compare in H by done. cbn [price_precedes]. destruct low; by apply ltb_true_leb.
Qed.

Lemma precedes_trans low p q r : known_price p = true -> known_price q = true -> known_price r = true ->
  price_precedes low p q -> price_precedes low q r -> price_precedes low p r.
Proof.
  intros Hp Hq Hr. destruct p as [p|], q as [q|], r as [r|]; try done. cbn.
  apply andb_true_iff in Hp as [_ Fp], Hq as [_ Fq], Hr as [_ Fr]. apply finite_not_nan in Fp, Fq, Fr.
  destruct low; intros H1 H2; eapply (leb_trans _ q); done.
Qed.

(** Prices that are the same cannot be told apart. *)
Lemma same_price_precedes low p q r : known_price p = true -> known_price q = true -> known_price r = true ->
  same_price p q = true -> price_after low r p = price_after low r q.
Proof.
  intros Hp Hq Hr Hs. destruct p as [p|], q as [q|]; try done. destruct r as [r|]; [|done].
  rewrite !price_after_compare by done.
  apply andb_true_iff in Hp as [_ Fp], Hq as [_ Fq], Hr as [_ Fr]. apply finite_not_nan in Fp, Fq, Fr.
  apply eqb_rank in Hs; [|done..]. apply eq_true_iff_eq. destruct low; rewrite !ltb_rank by done; by rewrite Hs.
Qed.

Lemma same_price_join p q r : known_price q = true -> known_price r = true ->
  same_price p q = true -> same_price p r = true -> same_price q r = true.
Proof.
  intros Hq Hr. destruct p as [p|], q as [q|], r as [r|]; try done. cbn.
  apply andb_true_iff in Hq as [_ Fq], Hr as [_ Fr]. apply finite_not_nan in Fq, Fr.
  destruct (is_nan p) eqn:Hp; [by destruct p|]. intros H1 H2. apply eqb_rank in H1, H2; [|done..].
  apply rank_eqb; [done..|]. congruence.
Qed.

Lemma same_price_order low p q : known_price p = true -> known_price q = true ->
  same_price p q = true -> price_after low p q = false.
Proof.
  intros Hp Hq Hs. rewrite <- (same_price_precedes low p q p) by done. apply in_order_precedes; [done..|].
  destruct p as [p|]; [|done]. apply andb_true_iff in Hp as [_ Fp]. apply finite_not_nan in Fp.
  cbn. destruct low; by apply leb_refl.
Qed.

(** Sorting entries with their prices. *)
Lemma sort_prices {A} low (entries : list (A * option number)) :
  Forall (fun e => known_price e.2 = true) entries ->
  let sorted := sort_with (fun a b => price_after low a.2 b.2) entries in
  StronglySorted (fun a b => price_precedes low a.2 b.2) sorted /\
  (forall p, List.filter (fun e => same_price p e.2) sorted = List.filter (fun e => same_price p e.2) entries).
Proof.
  intros H. cbv zeta. set (P := fun e : A * option number => known_price e.2 = true) in *.
  assert (forall x y, P x -> P y -> price_after low x.2 y.2 = true -> price_after low y.2 x.2 = false) as Ht
    by (intros x y; apply precedes_total).
  assert (forall x y z, P x -> P y -> P z -> in_order (fun a b : A * option number => price_after low a.2 b.2) x y ->
            in_order (fun a b => price_after low a.2 b.2) y z -> in_order (fun a b => price_after low a.2 b.2) x z) as Htr.
  { intros x y z Hx Hy Hz. unfold in_order. rewrite !in_order_precedes by done. by apply precedes_trans. }
  split.
  - eapply StronglySorted_mono_in; [|by apply (sort_with_sorted _ P)].
    intros x y Hx Hy Hxy. rewrite (sort_with_perm _ entries) in Hx, Hy. rewrite Forall_forall in H.
    apply in_order_precedes; [by apply H..|done].
  - intros p. apply (sort_with_stable _ P); [done..| | |done].
    + intros x y Hx Hy Hkx Hky. apply same_price_order; [done..|]. by apply (same_price_join p).
    + intros x y z Hx Hy Hz Hkx Hky. apply same_price_precedes; [done..|]. by apply (same_price_join p).
Qed.

(** * Tags *)

(** The words of a text between separators. *)
Definition emit (word : str) : list str := match word with [] => [] | _ => [word] end.
Fixpoint tag_words (word s : str) : list str :=
  match s with
  | [] => emit word
  | c :: s' => if is_tag_separator c then emit word ++ tag_words [] s' else tag_words (word ++ [c]) s'
  end.

Lemma words_skip w s : forallb is_tag_separator w = true -> tag_words [] (w ++ s) = tag_words [] s.
Proof. induction w as [|c w IH]; [done|]. cbn. intros [-> Hw]%andb_true_iff. by apply IH. Qed.

Lemma word_trim w : forallb (fun c => negb (is_tag_separator c)) w = true -> trim w = w.
Proof.
  intros H. assert (forall c, c ∈ w -> is_space c = false) as Hs.
  { intros c Hc. rewrite forallb_forall in H. specialize (H c). rewrite <- list_elem_of_In in H.
    specialize (H Hc). unfold is_tag_separator in H. by destruct (is_space c); rewrite ?orb_true_r in H. }
  apply trimmed_trim. split.
  - destruct w as [|c w]; [done|]. cbn. apply Hs. left.
  - destruct w as [|c w _] using rev_ind; [done|]. rewrite reverse_snoc. apply Hs. set_solver.
Qed.

Definition tag_pattern : pattern := P_plus (P_char is_tag_separator).

Lemma split_words fuel prev piece s : length s < fuel ->
  forallb (fun c => negb (is_tag_separator c)) (reverse piece) = true ->
  List.filter (fun t => bool_decide (t <> [])) (map trim (split_from fuel tag_pattern prev piece s)) =
  tag_words (reverse piece) s.
Proof.
  revert prev piece s. induction fuel as [|f IH]; intros prev piece s Hf Hp; [lia|].
  assert (forall rest, List.filter (fun t => bool_decide (t <> [])) (map trim (reverse piece :: rest)) =
            emit (reverse piece) ++ List.filter (fun t => bool_decide (t <> [])) (map trim rest)) as He.
  { intros rest. cbn [map List.filter]. rewrite word_trim by done. by destruct (reverse piece). }
  destruct s as [|c s]; cbn [split_from]; [rewrite He; cbn [map List.filter tag_words]; by rewrite app_nil_r|].
  destruct (is_tag_separator c) eqn:Ec.
  - set (w := take_while is_tag_separator s). set (rest := drop_while is_tag_separator s).
    assert (s = w ++ rest) as Es by (symmetry; apply take_drop_while).
    assert (forallb is_tag_separator w = true) as Hw.
    { apply forallb_forall. intros d Hd. apply list_elem_of_In in Hd. pose proof (take_while_all is_tag_separator s) as Ha.
      rewrite Forall_forall in Ha. by apply Ha. }
    rewrite Es. change (c :: w ++ rest) with ((c :: w) ++ rest).
    rewrite (match_here_takes _ _ []);
      [|apply takes_plus; [done|cbn; by rewrite Ec|apply drop_while_head]].
    rewrite He, IH; [|rewrite Es in Hf; cbn in Hf; rewrite length_app in Hf; lia|done].
    cbn [tag_words app]. by rewrite Ec, words_skip.
  - rewrite match_here_fails by (apply fails_seq, fails_char; done). rewrite IH; [|cbn in Hf; lia|].
    + cbn [tag_words]. by rewrite Ec, reverse_cons.
    + rewrite reverse_cons, forallb_app, Hp. cbn. by rewrite Ec.
Qed.

Lemma parse_tags_words s : parseTags (Some s) = tag_words [] s.
Proof. unfold parseTags. destruct s as [|c s]; [done|]. apply split_words; [lia|done]. Qed.

(** * What the filters keep *)

Section catalogue.
Context {host : Host} {collation : Collation} {numbers : NumberFormat}.
Variable stored : option currency_config.
Variable clock : date.
Implicit Types (m : catalog_model) (models : list catalog_model) (filters : catalog_filters).

(** What a choice of filters asks of a model. *)
Definition mentions (query : str) (property : option str) : Prop :=
  exists text, property = Some text /\ includes (to_lower_case text) (to_lower_case query) = true.

Definition answers_search (query : str) m : Prop :=
  query = [] \/ mentions query (pm_model_name (cm_base m)) \/ mentions query (cm_description m) \/
  mentions query (cm_tags m) \/ mentions query (pm_vendor_name (cm_base m)) \/
  mentions query (pm_developer_name (cm_base m)).

Definition offered_by (vendor : str) m : Prop :=
  vendor = js "all" \/ vendor ∈ default [] (cm_available_vendors m) \/ pm_vendor_name (cm_base m) = Some vendor.

Definition open_to (group : str) m : Prop :=
  group = js "all" \/ group ∈ enabled_groups (cm_base m) \/ js "all" ∈ enabled_groups (cm_base m).

Definition billed_by (quotaType : str) m : Prop :=
  quotaType = js "all" \/
  n_eqb (pm_quota_type (cm_base m)) (if bool_decide (quotaType = js "token") then n_zero else n_one) = true.

Definition served_at (endpoint : str) m : Prop :=
  endpoint = js "all" \/ endpoint ∈ default [] (cm_supported_endpoint_types m).

Definition tagged (tag : str) m : Prop :=
  tag = js "all" \/ exists t, t ∈ parseTags (cm_tags m) /\ to_lower_case t = to_lower_case tag.

Definition admitted filters m : Prop :=
  answers_search (cf_search filters) m /\ offered_by (cf_vendor filters) m /\ open_to (cf_group filters) m /\
  billed_by (cf_quotaType filters) m /\ served_at (cf_endpointType filters) m /\ tagged (cf_tag filters) m.

(** A filter keeps, in their order, the models with a property. *)
Definition keeps (filter : list catalog_model -> list catalog_model) (P : catalog_model -> Prop) : Prop :=
  exists b, (forall models, filter models = List.filter b models) /\ forall m, b m = true <-> P m.

Lemma keeps_unless (all : Prop) `{Decision all} b (P : catalog_model -> Prop) :
  (forall m, b m = true <-> P m) ->
  keeps (fun models => if bool_decide all then models else List.filter b models) (fun m => all \/ P m).
Proof.
  intros Hb. exists (fun m => bool_decide all || b m). split.
  - intros models. case_bool_decide; cbn [orb]; [|done]. induction models as [|m models IH]; [done|]. cbn. by f_equal.
  - intros m. rewrite orb_true_iff, bool_decide_eq_true, Hb. done.
Qed.

Lemma keeps_compose f g P Q : keeps f P -> keeps g Q -> keeps (fun models => g (f models)) (fun m => P m /\ Q m).
Proof.
  intros (b & Hf & Hb) (c & Hg & Hc). exists (fun m => b m && c m). split.
  - intros models. rewrite Hf, Hg. induction models as [|m models IH]; [done|]. cbn.
    destruct (b m); cbn; [|done]. destruct (c m); by rewrite IH.
  - intros m. rewrite andb_true_iff, Hb, Hc. done.
Qed.

Lemma text_matches_mentions query property :
  text_matches (to_lower_case query) property = true <-> mentions query property.
Proof. unfold mentions. destruct property as [s|]; cbn; split; try naive_solver. Qed.

Lemma search_keeps query : keeps (fun models => filterBySearch models query) (answers_search query).
Proof.
  unfold filterBySearch, answers_search. destruct query as [|c q].
  - exists (fun _ => true). split; [|naive_solver]. intros models. symmetry. apply filter_true.
  - exists (matches_query (to_lower_case (c :: q))). split; [done|]. intros m. unfold matches_query.
    rewrite !orb_true_iff, !text_matches_mentions. naive_solver.
Qed.

Lemma has_tag_tagged tag m : has_tag (to_lower_case tag) m = true <-> exists t, t ∈ parseTags (cm_tags m) /\ to_lower_case t = to_lower_case tag.
Proof.
  unfold has_tag. destruct (cm_tags m) as [[|c s]|] eqn:E.
  - split; [done|]. intros (t & Ht & _). by apply not_elem_of_nil in Ht.
  - rewrite bool_decide_eq_true, list_elem_of_fmap. naive_solver.
  - split; [done|]. intros (t & Ht & _). by apply not_elem_of_nil in Ht.
Qed.

Definition filtered models filters : list catalog_model :=
  filterByTag (filterByEndpointType (filterByQuotaType (filterByGroup (filterByVendor (filterBySearch models
    (cf_search filters)) (cf_vendor filters)) (cf_group filters)) (cf_quotaType filters)) (cf_endpointType filters))
    (cf_tag filters).

Lemma filtered_keeps filters : keeps (fun models => filtered models filters) (admitted filters).
Proof.
  pose proof (search_keeps (cf_search filters)) as H1.
  assert (keeps (fun models => filterByVendor models (cf_vendor filters)) (offered_by (cf_vendor filters))) as H2.
  { apply keeps_unless. intros m. by rewrite orb_true_iff, !bool_decide_eq_true. }
  assert (keeps (fun models => filterByGroup models (cf_group filters)) (open_to (cf_group filters))) as H3.
  { apply keeps_unless. intros m. by rewrite orb_true_iff, !bool_decide_eq_true. }
  assert (keeps (fun models => filterByQuotaType models (cf_quotaType filters)) (billed_by (cf_quotaType filters))) as H4.
  { by apply keeps_unless. }
  assert (keeps (fun models => filterByEndpointType models (cf_endpointType filters)) (served_at (cf_endpointType filters))) as H5.
  { apply keeps_unless. intros m. by rewrite bool_decide_eq_true. }
  assert (keeps (fun models => filterByTag models (cf_tag filters)) (tagged (cf_tag filters))) as H6.
  { apply keeps_unless. intros m. apply has_tag_tagged. }
  pose proof (keeps_compose _ _ _ _ (keeps_compose _ _ _ _ (keeps_compose _ _ _ _ (keeps_compose _ _ _ _
    (keeps_compose _ _ _ _ H1 H2) H3) H4) H5) H6) as (b & Hf & Hb).
  exists b. split; [exact Hf|]. intros m. rewrite Hb. unfold admitted. tauto.
Qed.
(** * The set of tags *)

(** Every tag of every model, in lower case. *)
Definition all_tags models : list str := flat_map (fun m => map to_lower_case (parseTags (cm_tags m))) models.

Lemma extract_fold models values :
  fold_left (fun tagSet model => fold_left (fun s tag => set_add (to_lower_case tag) s) (parseTags (cm_tags model)) tagSet)
    models values = fold_left (fun s x => set_add x s) (all_tags models) values.
Proof.
  revert values. induction models as [|m models IH]; intros values; [done|]. cbn [fold_left all_tags flat_map].
  rewrite fold_left_app, IH. unfold all_tags. f_equal. generalize (parseTags (cm_tags m)) values.
  intros l. induction l as [|t l IHl]; intros v; [done|]. apply IHl.
Qed.

Lemma extract_tags models tag : NoDup (extractAllTags models) /\ (tag ∈ extractAllTags models <-> tag ∈ all_tags models).
Proof.
  unfold extractAllTags. rewrite extract_fold, sort_with_perm. fold (distinct (all_tags models)).
  destruct (distinct_spec (all_tags models)) as [H1 H2]. split; [done|apply H2].
Qed.

Lemma elem_of_all_tags models tag :
  tag ∈ all_tags models <-> exists m t, m ∈ models /\ t ∈ parseTags (cm_tags m) /\ tag = to_lower_case t.
Proof.
  unfold all_tags. rewrite list_elem_of_In, in_flat_map. split.
  - intros (m & Hm & Ht). apply list_elem_of_In in Hm, Ht. apply list_elem_of_fmap in Ht as (t & -> & Ht). eauto.
  - intros (m & t & Hm & Ht & ->). exists m. rewrite <- !list_elem_of_In. split; [done|]. apply list_elem_of_fmap. eauto.
Qed.

Lemma tag_keeps tag m models : m ∈ filterByTag models tag <-> m ∈ models /\ tagged tag m.
Proof.
  unfold filterByTag, tagged. fold FILTER_ALL. case_bool_decide; [naive_solver|].
  rewrite list_elem_of_In, filter_In, <- list_elem_of_In, has_tag_tagged. naive_solver.
Qed.

(** * Sorting *)

Lemma with_prices_all kind models prices :
  Forall2 (fun m p => getSortPrice stored clock m kind = Ok p) models prices ->
  with_prices stored clock kind models = Ok (zip models prices).
Proof. induction 1 as [|m p models prices Hm _ IH]; [done|]. cbn [with_prices]. by rewrite Hm, IH. Qed.

Lemma with_prices_inv kind models entries : with_prices stored clock kind models = Ok entries -> map fst entries = models.
Proof.
  revert entries. induction models as [|m models IH]; intros entries H; cbn [with_prices] in H; [by injection H as <-|].
  apply bind_Ok_inv in H as (p & _ & H). apply bind_Ok_inv in H as (rest & Hr & H). injection H as <-.
  cbn. by rewrite (IH rest).
Qed.

Lemma sort_models_perm models sortBy shown : sortModels stored clock models sortBy = Ok shown -> shown ≡ₚ models.
Proof.
  unfold sortModels. destruct (obj_get sortBy PRICE_SORTS) as [[kind low]|].
  - intros (entries & He & H)%bind_Ok_inv. injection H as <-. rewrite sort_with_perm. by erewrite with_prices_inv.
  - intros [= <-]. case_bool_decide; [apply sort_with_perm | done].
Qed.

(** The catalogue shows exactly the models that answer the search and every chosen filter
    (vendor, group, billing, endpoint and tag), each as often as it is in the data: the sorted
    page is an arrangement of the models that satisfy a declarative description of the choice. *)
Theorem catalogue_exact models filters shown (Hs : filterAndSortModels stored clock models filters = Ok shown) :
  exists chosen, (forall m, chosen m = true <-> admitted filters m) /\ shown ≡ₚ List.filter chosen models.
Proof.
  destruct (filtered_keeps filters) as (b & Hf & Hb). exists b. split; [done|].
  apply sort_models_perm in Hs. by rewrite Hs, <- Hf.
Qed.

(** C20: Sorting by a price is correct and never fails once the prices are known: the page
    holds the same models, cheapest or dearest first as asked, the models without a price last,
    and models of the same price in the order in which they came.  The comparator subtracts two
    doubles and multiplies by 1 or -1; rounding never changes its sign. *)
Theorem sort_by_price models sortBy kind low (prices : list (option number))
    (Hsort : obj_get sortBy PRICE_SORTS = Some (kind, low))
    (Hprices : Forall2 (fun m p => getSortPrice stored clock m kind = Ok p) models prices)
    (Hknown : Forall (fun p => known_price p = true) prices) :
  exists sorted, sortModels stored clock models sortBy = Ok (map fst sorted) /\
    sorted ≡ₚ zip models prices /\
    StronglySorted (fun a b => price_precedes low a.2 b.2) sorted /\
    (forall p, List.filter (fun e => same_price p e.2) sorted =
               List.filter (fun e => same_price p e.2) (zip models prices)).
Proof.
  exists (sort_with (fun a b => price_after low a.2 b.2) (zip models prices)). unfold sortModels.
  rewrite Hsort, (with_prices_all kind _ prices) by done. split; [done|]. split; [apply sort_with_perm|].
  apply sort_prices. apply Forall_forall. intros [m p] Hin. apply elem_of_zip_r in Hin.
  rewrite Forall_forall in Hknown. by apply Hknown.
Qed.

(** The tags offered for filtering are the words between separators in the tag texts of the
    models, in lower case and without repetition; each offered tag selects at least one model,
    and every model with a tag is selected by an offered one. *)
Theorem offered_tags_exact models (Hlower : forall s : str, to_lower_case (to_lower_case s) = to_lower_case s) :
  NoDup (extractAllTags models) /\
  (forall tag, tag ∈ extractAllTags models <->
     exists m s word, m ∈ models /\ cm_tags m = Some s /\ word ∈ tag_words [] s /\ tag = to_lower_case word) /\
  (forall tag, tag ∈ extractAllTags models -> exists m, m ∈ filterByTag models tag) /\
  (forall m word, m ∈ models -> word ∈ parseTags (cm_tags m) ->
     exists tag, tag ∈ extractAllTags models /\ m ∈ filterByTag models tag).
Proof.
  assert (forall m t, t ∈ parseTags (cm_tags m) <-> exists s, cm_tags m = Some s /\ t ∈ tag_words [] s) as Hw.
  { intros m t. destruct (cm_tags m) as [s|]; [rewrite parse_tags_words; naive_solver|].
    split; [intros []%not_elem_of_nil|naive_solver]. }
  split; [apply (extract_tags models [])|]. split; [|split].
  - intros tag. destruct (extract_tags models tag) as [_ ->]. rewrite elem_of_all_tags. setoid_rewrite Hw. naive_solver.
  - intros tag Ht. destruct (extract_tags models tag) as [_ E]. apply E, elem_of_all_tags in Ht as (m & t & Hm & Ht & ->).
    exists m. apply tag_keeps. split; [done|]. right. exists t. by rewrite Hlower.
  - intros m t Hm Ht. exists (to_lower_case t). split.
    + apply (extract_tags models), elem_of_all_tags. eauto.
    + apply tag_keeps. split; [done|]. right. exists t. by rewrite Hlower.
Qed.
End catalogue.

(** * Examples *)

Definition plain_numbers : NumberFormat := fun options x => to_fixed x (nf_maximumFractionDigits options).

Definition sample_entry (name tags : str) (quota ratio : Z) : catalog_model :=
  CatalogModel
    (PricingModel (Some name) (Some (js "Acme")) None (n_of_Z quota) (n_of_Z ratio) n_one None None None None None None
       (Some [js "default"]) None None None None None None None)
    [] None (Some tags) None (Some [js "openai"]).

Definition sample_catalog : list catalog_model :=
  [sample_entry (js "large") (js "Chat, tools") 0 9; sample_entry (js "image") (js "vision") 1 0;
   sample_entry (js "small") (js "chat") 0 2; sample_entry (js "twin") (js "chat") 0 2].

Definition sample_filters : catalog_filters :=
  CatalogFilters [] (js "Acme") (js "default") (js "all") (js "openai") (js "CHAT") (js "input-price-low").

Lemma catalogue_exact_witness :
  let shown := [sample_entry (js "small") (js "chat") 0 2; sample_entry (js "twin") (js "chat") 0 2;
                sample_entry (js "large") (js "Chat, tools") 0 9] in
  filterAndSortModels (host := sample_host) (collation := ascii_collation) (numbers := plain_numbers) None (Some 0%Z)
    sample_catalog sample_filters = Ok shown /\
  exists chosen, (forall m, chosen m = true <-> admitted (host := sample_host) sample_filters m) /\
                 shown ≡ₚ List.filter chosen sample_catalog.
Proof.
  cbv zeta. split; [vm_compute; reflexivity|].
  apply (catalogue_exact (host := sample_host) (collation := ascii_collation) (numbers := plain_numbers) None (Some 0%Z)).
  vm_compute. reflexivity.
Defined.

Lemma sort_by_price_witness :
  let prices := [Some (n_of_Z 18); None; Some (n_of_Z 4); Some (n_of_Z 4)] in
  Forall (fun p => known_price p = true) prices /\
  exists sorted,
    sortModels (host := sample_host) (collation := ascii_collation) (numbers := plain_numbers) None (Some 0%Z)
      sample_catalog (js "input-price-high") = Ok (map fst sorted) /\
    sorted ≡ₚ zip sample_catalog prices /\ StronglySorted (fun a b => price_precedes false a.2 b.2) sorted /\
    (forall p, List.filter (fun e => same_price p e.2) sorted =
               List.filter (fun e => same_price p e.2) (zip sample_catalog prices)).
Proof.
  cbv zeta. split; [by repeat constructor|].
  apply (sort_by_price (host := sample_host) (collation := ascii_collation) (numbers := plain_numbers) None (Some 0%Z) _ _
           Sort_input).
  - reflexivity.
  - repeat constructor; vm_compute; reflexivity.
  - by repeat constructor.
Defined.

Lemma lower_ascii_idemp (s : str) : map lower_ascii (map lower_ascii s) = map lower_ascii s.
Proof.
  rewrite map_map. apply map_ext. intros c. unfold lower_ascii. destruct (is_upper c) eqn:E; [|by rewrite E].
  unfold is_upper in *. destruct (in_range 65 90 (c + 32)%N) eqn:E'; [|done]. unfold in_range in *. breflect. lia.
Qed.

Lemma offered_tags_exact_witness :
  (forall s : str, to_lower_case (Host := sample_host) (to_lower_case (Host := sample_host) s) =
                   to_lower_case (Host := sample_host) s) /\
  exists m, m ∈ filterByTag (host := sample_host) sample_catalog (js "tools").
Proof.
  assert (forall s : str, to_lower_case (Host := sample_host) (to_lower_case (Host := sample_host) s) =
                          to_lower_case (Host := sample_host) s) as Hl by apply lower_ascii_idemp.
  split; [exact Hl|].
  destruct (offered_tags_exact (host := sample_host) (collation := ascii_collation) sample_catalog Hl) as (_ & _ & H & _).
  apply H. vm_compute. repeat constructor.
Defined.
