(* ===== verification/StatusCodes.v ===== *)
(** HTTP status code rules (lib/http-status-code-rules.ts): a list of codes and ranges typed
    by an administrator, merged and written in a normal form.

    A code is an integer: [Number.parseInt] of digits is exact below 600, and larger texts give
    larger numbers, which the check of a code refuses. *)

From S2P Require Import Prelude JsString JsNumber JsSort.
From Stdlib Require Import Sorted.

#[local] Open Scope Z_scope.

Record status_range := StatusRange { sr_start : Z; sr_end : Z }.
#[export] Instance status_range_eq_dec : EqDecision status_range.
Proof. solve_decision. Defined.

Record parsed_status_rules := ParsedStatusRules {
  pr_ok : bool;
  pr_ranges : list status_range;
  pr_tokens : list str;
  pr_normalized : str;
  pr_invalidTokens : list str;
}.

Definition comma : N := 44%N.
Definition hyphen : N := 45%N.
(** U+FF0C *)
Definition fullwidth_comma : N := 65292%N.

(** [/^\d+$/.test(s)]; a missing part of a split is [None]. *)
Definition isNumber (s : option str) : bool :=
  match s with Some ((_ :: _) as digits) => forallb is_digit digits | _ => false end.

Definition isValidCode (code : Z) : bool := (100 <=? code) && (code <=? 599).

Definition parseInt (s : option str) : Z := digits_value (default [] s).

Definition without_spaces (s : str) : str := List.filter (fun c => negb (is_space c)) s.

Definition parseToken (token : str) : option status_range :=
  let cleaned := without_spaces (trim token) in
  if bool_decide (cleaned = []) then None
  else if bool_decide (hyphen ∈ cleaned) then
    let parts := split_on hyphen cleaned in
    let a := parts !! 0%nat in
    let b := parts !! 1%nat in
    if negb (isNumber a) || negb (isNumber b) then None
    else
      let start := parseInt a in
      let stop := parseInt b in
      if negb (isValidCode start) || negb (isValidCode stop) || (stop <? start) then None
      else Some (StatusRange start stop)
  else if negb (isNumber (Some cleaned)) then None
  else
    let code := parseInt (Some cleaned) in
    if negb (isValidCode code) then None else Some (StatusRange code code).

(** The comparator of the ranges is positive. *)
Definition range_after (a b : status_range) : bool :=
  if negb (sr_start a =? sr_start b) then 0 <? sr_start a - sr_start b else 0 <? sr_end a - sr_end b.

(** One step of the reduction: the last merged range is extended in place. *)
Definition merge_step (merged : list status_range) (current : status_range) : list status_range :=
  match last merged with
  | None => merged ++ [current]
  | Some l =>
      if sr_end l + 1 <? sr_start current then merged ++ [current]
      else take (length merged - 1) merged ++ [StatusRange (sr_start l) (Z.max (sr_end l) (sr_end current))]
  end.

Definition mergeRanges (ranges : list status_range) : list status_range :=
  match ranges with
  | [] => []
  | _ => fold_left merge_step (sort_with range_after ranges) []
  end.

Definition range_token (r : status_range) : str :=
  if sr_start r =? sr_end r then string_of_Z (sr_start r)
  else string_of_Z (sr_start r) ++ [hyphen] ++ string_of_Z (sr_end r).

Definition rule_segments (raw : str) : list str :=
  let sanitized := map (fun c => if (c =? fullwidth_comma)%N then comma else c) raw in
  List.filter (fun s => bool_decide (s <> [])) (map trim (split_on comma sanitized)).

(** [input] is a text. *)
Definition parseHttpStatusCodeRules (input : str) : parsed_status_rules :=
  let raw := trim input in
  match raw with
  | [] => ParsedStatusRules true [] [] [] []
  | _ =>
      let segments := rule_segments raw in
      let ranges := omap parseToken segments in
      let invalidTokens := List.filter (fun s => match parseToken s with None => true | Some _ => false end) segments in
      match invalidTokens with
      | _ :: _ => ParsedStatusRules false [] [] raw invalidTokens
      | [] =>
          let merged := mergeRanges ranges in
          let tokens := map range_token merged in
          ParsedStatusRules true merged tokens (join [comma] tokens) []
      end
  end.

Example status_examples :
  (pr_normalized (parseHttpStatusCodeRules (js " 500-503, 404,505 ,502-504,401")),
   pr_invalidTokens (parseHttpStatusCodeRules (js "404,99,abc,500-400")),
   pr_normalized (parseHttpStatusCodeRules (js "429-430-600"))) =
  (js "401,404,500-505", [js "99"; js "abc"; js "500-400"], js "429-430").
Proof. vm_compute. reflexivity. Qed.

(** * Properties *)

(** * What a token says *)

Definition solid (s : str) : str := List.filter (fun c => negb (is_space c)) s.

(** The digits of a code. *)
Definition code_text (s : str) (code : Z) : Prop :=
  s <> [] /\ forallb is_digit s = true /\ code = digits_value s /\ 100 <= code <= 599.

(** A code, or two codes with a hyphen; white space does not count, nor does anything after a
    second hyphen. *)
Inductive token_reads (token : str) : Z -> Z -> Prop :=
| reads_code code : code_text (solid token) code -> token_reads token code code
| reads_range a b rest start stop :
    solid token = a ++ hyphen :: b ++ rest -> (rest = [] \/ head rest = Some hyphen) ->
    code_text a start -> code_text b stop -> start <= stop -> token_reads token start stop.

Lemma digits_no_hyphen s : forallb is_digit s = true -> hyphen ∉ s.
Proof. intros H Hin. rewrite forallb_forall in H. apply list_elem_of_In, H in Hin. done. Qed.

Lemma solid_trim s : without_spaces (trim s) = solid s.
Proof.
  unfold without_spaces, solid, trim, trim_end, trim_start.
  assert (forall l : str, List.filter (fun c => negb (is_space c)) (drop_while is_space l) =
                    List.filter (fun c => negb (is_space c)) l) as Hd.
  { induction l as [|c l IH]; [done|]. cbn. destruct (is_space c) eqn:E; cbn; [done|]. by rewrite E. }
  assert (forall l : str, List.filter (fun c => negb (is_space c)) (reverse l) =
                    reverse (List.filter (fun c => negb (is_space c)) l)) as Hr.
  { induction l as [|c l IH]; [done|]. rewrite reverse_cons, List.filter_app, IH. cbn [List.filter].
    destruct (negb (is_space c)); [by rewrite reverse_cons|by rewrite app_nil_r]. }
  by rewrite Hr, Hd, Hr, reverse_involutive, Hd.
Qed.

Lemma valid_code code : isValidCode code = true <-> 100 <= code <= 599.
Proof. unfold isValidCode. lia. Qed.

Lemma number_code s code :
  (isNumber (Some s) = true /\ code = digits_value s /\ isValidCode code = true) <-> code_text s code.
Proof. rewrite valid_code. unfold code_text. destruct s; cbn [isNumber]; naive_solver. Qed.

(** The first two parts of a text with a hyphen. *)
Lemma split_hyphen s : hyphen ∈ s ->
  exists a b rest, s = a ++ hyphen :: b ++ rest /\ (hyphen ∉ a) /\ (hyphen ∉ b) /\ (rest = [] \/ head rest = Some hyphen) /\
    split_on hyphen s !! 0%nat = Some a /\ split_on hyphen s !! 1%nat = Some b.
Proof.
  intros Hs. apply list_elem_of_split_l in Hs as (a & tail & -> & Ha).
  destruct (decide (hyphen ∈ tail)) as [Ht|Ht].
  - apply list_elem_of_split_l in Ht as (b & rest & -> & Hb). exists a, b, (hyphen :: rest).
    rewrite split_on_cons, split_on_cons by done. cbn. by split_and!; auto.
  - exists a, tail, []. rewrite split_on_cons, split_on_whole by done. rewrite app_nil_r. cbn. by split_and!; auto.
Qed.

Lemma hyphen_parts a b rest : hyphen ∉ a -> hyphen ∉ b -> rest = [] \/ head rest = Some hyphen ->
  split_on hyphen (a ++ hyphen :: b ++ rest) !! 0%nat = Some a /\ split_on hyphen (a ++ hyphen :: b ++ rest) !! 1%nat = Some b.
Proof.
  intros Ha Hb [->|Hr]; rewrite split_on_cons by done.
  - by rewrite app_nil_r, split_on_whole.
  - destruct rest as [|c rest]; [done|]. injection Hr as ->. by rewrite split_on_cons.
Qed.

Lemma parse_token_reads token r : parseToken token = Some r <-> token_reads token (sr_start r) (sr_end r).
Proof.
  unfold parseToken. rewrite solid_trim. split.
  - case_bool_decide as Hn; [done|]. case_bool_decide as Hh.
    + apply split_hyphen in Hh as (a & b & rest & E & Ha & Hb & Hr & -> & ->).
      destruct (isNumber (Some a)) eqn:Na, (isNumber (Some b)) eqn:Nb; cbn [negb orb]; try done.
      destruct (isValidCode (parseInt (Some a))) eqn:Va, (isValidCode (parseInt (Some b))) eqn:Vb; cbn [negb orb]; try done.
      destruct (Z.ltb_spec (parseInt (Some b)) (parseInt (Some a))); [done|]. intros [= <-].
      eapply reads_range; [exact E|done|by apply number_code|by apply number_code|done].
    + destruct (isNumber (Some (solid token))) eqn:Nc; cbn [negb]; [|done].
      destruct (isValidCode (parseInt (Some (solid token)))) eqn:Vc; cbn [negb]; [|done]. intros [= <-].
      apply reads_code. by apply number_code.
  - destruct r as [start stop]. cbn [sr_start sr_end]. destruct 1 as [code Hc|a b rest start stop E Hr Ha Hb Hle].
    + pose proof Hc as (Hne & Hd & _). apply number_code in Hc as (N1 & E & V1). rewrite bool_decide_eq_false_2 by done.
      rewrite bool_decide_eq_false_2 by by apply digits_no_hyphen. rewrite N1. cbn [negb].
      change (parseInt (Some (solid token))) with (digits_value (solid token)). rewrite <- E, V1. done.
    + pose proof Ha as (_ & Da & _). pose proof Hb as (_ & Db & _).
      apply digits_no_hyphen in Da, Db. apply number_code in Ha as (N1 & E1 & V1), Hb as (N2 & E2 & V2).
      rewrite E. rewrite bool_decide_eq_false_2 by (by destruct a). rewrite bool_decide_eq_true_2 by set_solver.
      destruct (hyphen_parts a b rest Da Db Hr) as [-> ->]. rewrite N1, N2. cbn [negb orb].
      change (parseInt (Some a)) with (digits_value a). change (parseInt (Some b)) with (digits_value b).
      rewrite <- E1, <- E2, V1, V2. cbn [negb orb]. destruct (Z.ltb_spec stop start); [lia|done].
Qed.

(** * Merging *)

Definition valid_range (r : status_range) : Prop := 100 <= sr_start r <= sr_end r /\ sr_end r <= 599.
Definition in_range (r : status_range) (code : Z) : Prop := sr_start r <= code <= sr_end r.
Definition covered (ranges : list status_range) (code : Z) : Prop := exists r, r ∈ ranges /\ in_range r code.

(** Ranges above [low] in increasing order, with a code between any two of them. *)
Fixpoint canonical (low : Z) (ranges : list status_range) : Prop :=
  match ranges with
  | [] => True
  | r :: rest => low < sr_start r /\ valid_range r /\ canonical (sr_end r + 1) rest
  end.

Lemma token_valid token r : parseToken token = Some r -> valid_range r.
Proof.
  intros H%parse_token_reads. unfold valid_range. destruct H as [code (_ & _ & _ & H)|a b rest s e _ _ (_ & _ & _ & H) (_ & _ & _ & H') Hle]; lia.
Qed.

(** The reduction with the last merged range in hand. *)
Fixpoint merge_from (current : status_range) (ranges : list status_range) : list status_range :=
  match ranges with
  | [] => [current]
  | r :: rest =>
      if sr_end current + 1 <? sr_start r then current :: merge_from r rest
      else merge_from (StatusRange (sr_start current) (Z.max (sr_end current) (sr_end r))) rest
  end.

Lemma merge_fold ranges acc current : fold_left merge_step ranges (acc ++ [current]) = acc ++ merge_from current ranges.
Proof.
  revert acc current. induction ranges as [|r ranges IH]; intros acc current; [done|]. cbn [fold_left merge_from].
  unfold merge_step at 2. rewrite last_snoc. destruct (_ <? _).
  - rewrite IH. by rewrite <- app_assoc.
  - rewrite length_app. cbn [length]. replace (length acc + 1 - 1)%nat with (length acc) by lia. rewrite take_app_length. apply IH.
Qed.

Lemma merge_from_spec ranges current low : low < sr_start current -> valid_range current -> Forall valid_range ranges ->
  Forall (fun r => sr_start current <= sr_start r) ranges -> StronglySorted (fun a b => sr_start a <= sr_start b) ranges ->
  canonical low (merge_from current ranges) /\
  forall code, covered (merge_from current ranges) code <-> in_range current code \/ covered ranges code.
Proof.
  revert current low. induction ranges as [|r ranges IH]; intros current low Hlow Hc Hv Hle Hs.
  { split; [by split_and!|]. intros code. unfold covered. cbn. split; [|set_solver].
    intros (x & ->%list_elem_of_singleton & H). by left. }
  apply Forall_cons in Hv as [Hr Hv], Hle as [Hrs Hle]. apply StronglySorted_inv in Hs as [Hs Hsr]. cbn [merge_from].
  assert (forall code, covered (r :: ranges) code <-> in_range r code \/ covered ranges code) as Hcov
    by (intros code; unfold covered; set_solver).
  destruct (Z.ltb_spec (sr_end current + 1) (sr_start r)) as [Hlt|Hge].
  - destruct (IH r (sr_end current + 1) Hlt Hr Hv Hsr Hs) as [H1 H2]. split; [by split_and!|].
    intros code. rewrite Hcov, <- H2. unfold covered. set_solver.
  - set (next := StatusRange _ _). destruct (IH next low) as [H1 H2]; [done| |done| |done|].
    + unfold valid_range in *. cbn. lia.
    + cbn. done.
    + split; [done|]. intros code. rewrite Hcov, H2.
      assert (in_range next code <-> in_range current code \/ in_range r code) as ->
        by (unfold in_range, valid_range in *; cbn; lia).
      tauto.
Qed.

Lemma merge_from_canonical ranges current : canonical (sr_end current + 1) ranges -> merge_from current ranges = current :: ranges.
Proof.
  revert current. induction ranges as [|r ranges IH]; intros current H; [done|]. destruct H as (H1 & _ & H2). cbn.
  destruct (Z.ltb_spec (sr_end current + 1) (sr_start r)); [|lia]. by rewrite IH.
Qed.

Definition starts_before (a b : status_range) : Prop := sr_start a <= sr_start b.

Lemma range_order_total a b : True -> True -> range_after a b = true -> range_after b a = false.
Proof. unfold range_after. intros _ _. destruct (Z.eqb_spec (sr_start a) (sr_start b)), (Z.eqb_spec (sr_start b) (sr_start a)); cbn; lia. Qed.
Lemma range_order_trans a b c : True -> True -> True -> in_order range_after a b -> in_order range_after b c -> in_order range_after a c.
Proof.
  unfold in_order, range_after. intros _ _ _.
  destruct (Z.eqb_spec (sr_start a) (sr_start b)), (Z.eqb_spec (sr_start b) (sr_start c)), (Z.eqb_spec (sr_start a) (sr_start c)); cbn; lia.
Qed.

Lemma sorted_starts ranges : StronglySorted starts_before (sort_with range_after ranges).
Proof.
  eapply StronglySorted_mono_in; [|apply (sort_with_sorted range_after (fun _ => True) range_order_total range_order_trans)].
  - intros a b _ _. unfold in_order, range_after, starts_before. destruct (Z.eqb_spec (sr_start a) (sr_start b)); cbn; lia.
  - by apply Forall_true.
Qed.

(** Merging keeps the codes and gives the normal form. *)
Lemma merge_ranges_spec ranges : Forall valid_range ranges ->
  canonical 99 (mergeRanges ranges) /\ forall code, covered (mergeRanges ranges) code <-> covered ranges code.
Proof.
  intros Hv. unfold mergeRanges. destruct ranges as [|r0 ranges]; [done|]. set (all := r0 :: ranges) in *.
  pose proof (sorted_starts all) as Hs. pose proof (sort_with_perm range_after all) as Hp.
  assert (Forall valid_range (sort_with range_after all)) as Hv' by by rewrite Hp.
  assert (forall code, covered all code <-> covered (sort_with range_after all) code) as Hc
    by (intros code; unfold covered; by setoid_rewrite Hp).
  destruct (sort_with range_after all) as [|r rest]; [by apply Permutation_nil_l in Hp|].
  cbn [fold_left]. change (merge_step [] r) with ([] ++ [r]). rewrite merge_fold. cbn [app].
  apply Forall_cons in Hv' as [Hr Hv']. apply StronglySorted_inv in Hs as [Hs Hle].
  destruct (merge_from_spec rest r 99) as [H1 H2]; [unfold valid_range in Hr; lia|done..|].
  split; [done|]. intros code. rewrite H2, Hc. unfold covered. set_solver.
Qed.

Lemma canonical_valid low ranges : canonical low ranges -> Forall valid_range ranges /\ Forall (fun r => low < sr_start r) ranges.
Proof.
  revert low. induction ranges as [|r ranges IH]; intros low; [done|]. intros (H1 & H2 & H3).
  apply IH in H3 as [H4 H5]. split; [by constructor|]. constructor; [done|]. eapply Forall_impl; [exact H5|].
  cbn. unfold valid_range in H2. lia.
Qed.

Lemma canonical_in_order low ranges : canonical low ranges -> StronglySorted (in_order range_after) ranges.
Proof.
  revert low. induction ranges as [|r ranges IH]; intros low; [constructor|]. intros (H1 & H2 & H3).
  constructor; [by eapply IH|]. apply canonical_valid in H3 as [_ H3]. eapply Forall_impl; [exact H3|].
  intros r' H. unfold in_order, range_after, valid_range in *. destruct (Z.eqb_spec (sr_start r) (sr_start r')); cbn; lia.
Qed.

(** The normal form is its own merge. *)
Lemma merge_canonical ranges : canonical 99 ranges -> mergeRanges ranges = ranges.
Proof.
  intros H. unfold mergeRanges. destruct ranges as [|r ranges]; [done|].
  rewrite sort_with_id by by eapply canonical_in_order. cbn [fold_left]. change (merge_step [] r) with ([] ++ [r]).
  rewrite merge_fold. cbn [app]. apply merge_from_canonical, H.
Qed.

(** * Writing and reading *)

Definition code_char (c : N) : bool := is_digit c || (c =? hyphen)%N.

Lemma code_char_plain c : code_char c = true -> is_space c = false /\ c <> comma /\ c <> fullwidth_comma.
Proof.
  unfold code_char. intros [H|H]%orb_true_iff.
  - assert (48 <= c <= 57)%N as Hc by (apply andb_true_iff in H as [H1 H2]; apply N.leb_le in H1, H2; lia).
    assert (forallb (fun n => negb (is_space (N.of_nat n))) (seq 48 10) = true) as Hall by (vm_compute; reflexivity).
    rewrite forallb_forall in Hall. specialize (Hall (N.to_nat c)). rewrite in_seq, N2Nat.id in Hall.
    apply negb_true_iff in Hall; [|lia]. unfold comma, fullwidth_comma. split; [done|]. lia.
  - apply N.eqb_eq in H as ->. done.
Qed.

(** A written code is read back. *)
Lemma written_code z : 100 <= z <= 599 -> code_text (string_of_Z z) z.
Proof.
  intros Hz.
  assert (forallb (fun n => let s := string_of_Z (Z.of_nat n) in
            bool_decide (s <> []) && forallb is_digit s && (digits_value s =? Z.of_nat n)) (seq 100 500) = true) as Hall
    by (vm_compute; reflexivity).
  rewrite forallb_forall in Hall. specialize (Hall (Z.to_nat z)). rewrite in_seq, Z2Nat.id in Hall by lia.
  cbv zeta in Hall. assert (100 <= Z.to_nat z < 100 + 500)%nat as Hi by lia. specialize (Hall Hi).
  apply andb_true_iff in Hall as [[H1 H2]%andb_true_iff H3]. apply bool_decide_eq_true in H1. by split_and!; lia || done.
Qed.

Lemma token_chars r : valid_range r -> forallb code_char (range_token r) = true /\ range_token r <> [].
Proof.
  intros Hr. unfold valid_range in Hr. destruct (written_code (sr_start r)) as (N1 & D1 & _); [lia|].
  destruct (written_code (sr_end r)) as (N2 & D2 & _); [lia|].
  assert (forall s, forallb is_digit s = true -> forallb code_char s = true) as Hd.
  { intros s Hs. rewrite forallb_forall in Hs |- *. intros c Hc. unfold code_char. by rewrite (Hs c Hc). }
  unfold range_token. destruct (_ =? _); [by split; [apply Hd|]|].
  rewrite !forallb_app, (Hd _ D1), (Hd _ D2). split; [done|]. by destruct (string_of_Z (sr_start r)).
Qed.

Lemma code_chars_solid s : forallb code_char s = true -> solid s = s.
Proof.
  induction s as [|c s IH]; [done|]. cbn. intros [Hc Hs]%andb_true_iff. destruct (code_char_plain c Hc) as [-> _].
  cbn. f_equal. by apply IH.
Qed.

Lemma read_token r : valid_range r -> parseToken (range_token r) = Some r.
Proof.
  intros Hr. apply parse_token_reads. destruct (token_chars r Hr) as [Hc _]. apply code_chars_solid in Hc.
  unfold valid_range in Hr. unfold range_token in *. destruct (Z.eqb_spec (sr_start r) (sr_end r)) as [E|E].
  - rewrite <- E. apply reads_code. rewrite Hc. apply written_code. lia.
  - apply (reads_range _ (string_of_Z (sr_start r)) (string_of_Z (sr_end r)) []); [|by left|apply written_code; lia|apply written_code; lia|lia].
    rewrite Hc. by rewrite app_nil_r.
Qed.

(** A text of code characters and commas has no white space at its ends. *)
Lemma plain_trim s : Forall (fun c => is_space c = false) s -> trim s = s.
Proof.
  intros H. apply trimmed_trim. split.
  - destruct s as [|c s]; [done|]. by apply Forall_cons in H as [? _].
  - destruct s as [|c s _] using rev_ind; [done|]. rewrite reverse_snoc. apply Forall_app in H as [_ H]. by apply Forall_cons in H as [? _].
Qed.

Lemma join_chars (P : N -> Prop) sep pieces : Forall P sep -> Forall (Forall P) pieces -> Forall P (join sep pieces).
Proof.
  intros Hsep H. induction H as [|p pieces Hp H IH]; [constructor|]. destruct pieces as [|q pieces]; [done|].
  change (join sep (p :: q :: pieces)) with (p ++ sep ++ join sep (q :: pieces)). by repeat (apply Forall_app; split).
Qed.

Lemma keep_all {A} (p : A -> bool) l : (forall x, In x l -> p x = true) -> List.filter p l = l.
Proof. induction l as [|x l IH]; [done|]. intros H. cbn. rewrite H by by left. f_equal. apply IH. intros y Hy. apply H. by right. Qed.

Lemma segments_written ranges : Forall valid_range ranges ->
  let text := join [comma] (map range_token ranges) in trim text = text /\ rule_segments text = map range_token ranges.
Proof.
  intros Hv. cbv zeta.
  assert (Forall (Forall (fun c => code_char c = true)) (map range_token ranges)) as Hc.
  { apply Forall_map. eapply Forall_impl; [exact Hv|]. intros r Hr. apply token_chars in Hr as [Hr _].
    apply Forall_forall. intros c Hc. rewrite forallb_forall in Hr. by apply Hr, list_elem_of_In. }
  assert (Forall (fun c => is_space c = false /\ c <> fullwidth_comma) (join [comma] (map range_token ranges))) as Hj.
  { apply join_chars; [by repeat constructor|]. eapply Forall_impl; [exact Hc|]. intros s Hs. eapply Forall_impl; [exact Hs|].
    intros c (H1 & _ & H2)%code_char_plain. done. }
  split; [apply plain_trim; eapply Forall_impl; [exact Hj|naive_solver]|]. unfold rule_segments.
  assert (map (fun c => if (c =? fullwidth_comma)%N then comma else c) (join [comma] (map range_token ranges)) =
          join [comma] (map range_token ranges)) as ->.
  { rewrite <- (map_id (join _ _)) at 2. apply map_ext_in. intros c Hin. apply list_elem_of_In in Hin.
    rewrite Forall_forall in Hj. destruct (Hj c Hin) as [_ H]. by destruct (N.eqb_spec c fullwidth_comma). }
  destruct ranges as [|r0 ranges]; [done|]. set (all := r0 :: ranges) in *.
  rewrite split_join_inverse; [|done|].
  - assert (map trim (map range_token all) = map range_token all) as ->.
    { rewrite map_map. apply map_ext_in. intros r Hr. apply plain_trim. rewrite Forall_map in Hc. rewrite Forall_forall in Hc.
      eapply Forall_impl; [by apply Hc, list_elem_of_In|]. by intros c [? _]%code_char_plain. }
    apply keep_all. intros s Hs. apply in_map_iff in Hs as (r & <- & Hr). apply bool_decide_eq_true.
    rewrite Forall_forall in Hv. by apply token_chars, Hv, list_elem_of_In.
  - eapply Forall_impl; [exact Hc|]. intros s Hs Hin. rewrite Forall_forall in Hs. by apply Hs, code_char_plain in Hin as (_ & ? & _).
Qed.

(** * The whole text *)

Definition readable (token : str) : Prop := exists a b, token_reads token a b.

Lemma parse_token_none token : parseToken token = None <-> ~ readable token.
Proof.
  unfold readable. split.
  - intros H (a & b & Hr). by rewrite (proj2 (parse_token_reads token (StatusRange a b)) Hr) in H.
  - intros H. destruct (parseToken token) as [r|] eqn:E; [|done]. exfalso. apply H. eexists _, _. by apply parse_token_reads.
Qed.

Definition refused (segments : list str) : list str :=
  List.filter (fun s => match parseToken s with None => true | Some _ => false end) segments.

Lemma elem_of_refused s segments : s ∈ refused segments <-> s ∈ segments /\ ~ readable s.
Proof.
  unfold refused. rewrite list_elem_of_In, filter_In, <- list_elem_of_In, <- parse_token_none. destruct (parseToken s); naive_solver.
Qed.

Lemma parse_rules_segments input :
  let segments := rule_segments (trim input) in
  let merged := mergeRanges (omap parseToken segments) in
  parseHttpStatusCodeRules input =
    match refused segments with
    | [] => ParsedStatusRules true merged (map range_token merged) (join [comma] (map range_token merged)) []
    | invalid => ParsedStatusRules false [] [] (trim input) invalid
    end.
Proof. cbv zeta. unfold parseHttpStatusCodeRules, refused. destruct (trim input) as [|c raw]; [done|]. by destruct (List.filter _ _). Qed.

Lemma parsed_valid segments : Forall valid_range (omap parseToken segments).
Proof. apply Forall_forall. intros r (s & _ & Hs)%list_elem_of_omap. by eapply token_valid. Qed.

Lemma parse_written ranges : canonical 99 ranges ->
  parseHttpStatusCodeRules (join [comma] (map range_token ranges)) =
  ParsedStatusRules true ranges (map range_token ranges) (join [comma] (map range_token ranges)) [].
Proof.
  intros Hc. pose proof (canonical_valid _ _ Hc) as [Hv _]. destruct (segments_written ranges Hv) as [Ht Hs].
  rewrite parse_rules_segments, Ht, Hs. 
  assert (refused (map range_token ranges) = []) as ->.
  { unfold refused. clear -Hv. induction Hv as [|r ranges Hr _ IH]; [done|]. cbn. by rewrite read_token. }
  assert (omap parseToken (map range_token ranges) = ranges) as ->.
  { clear -Hv. induction Hv as [|r ranges Hr _ IH]; [done|]. cbn. rewrite read_token by done. cbn. by rewrite IH. }
  by rewrite merge_canonical.
Qed.

(** Status code rules keep their meaning.  A text is accepted exactly when every
    comma-separated segment reads as a code or a range of codes between 100 and 599.  Then the
    ranges shown are in increasing order with a gap between any two, they hold exactly the codes
    some segment names, and reading the normalised text again gives the same result.  A text
    that is refused lists exactly the segments that cannot be read. *)
Theorem status_rules_exact input :
  let segments := rule_segments (trim input) in
  let parsed := parseHttpStatusCodeRules input in
  (pr_ok parsed = true <-> Forall readable segments) /\
  (pr_ok parsed = true ->
     canonical 99 (pr_ranges parsed) /\
     (forall code, covered (pr_ranges parsed) code <->
        exists s a b, s ∈ segments /\ token_reads s a b /\ a <= code <= b) /\
     parseHttpStatusCodeRules (pr_normalized parsed) = parsed) /\
  (pr_ok parsed = false -> forall s, s ∈ pr_invalidTokens parsed <-> s ∈ segments /\ ~ readable s).
Proof.
  cbv zeta. rewrite parse_rules_segments. set (segments := rule_segments (trim input)).
  pose proof (fun s => elem_of_refused s segments) as He. destruct (refused segments) as [|bad rest]; cbn [pr_ok pr_ranges pr_normalized].
  - assert (Forall readable segments) as Hr.
    { apply Forall_forall. intros s Hs. destruct (parseToken s) as [r|] eqn:E.
      - eexists _, _. by apply parse_token_reads.
      - apply parse_token_none in E. exfalso. by apply (not_elem_of_nil s), He. }
    destruct (merge_ranges_spec _ (parsed_valid segments)) as [H1 H2]. split; [done|]. split; [|done]. intros _.
    split; [done|]. split; [|by apply parse_written]. intros code. rewrite H2. unfold covered, in_range. split.
    + intros (r & (s & Hs & E)%list_elem_of_omap & Hc). exists s, (sr_start r), (sr_end r). by apply parse_token_reads in E.
    + intros (s & a & b & Hs & Hr' & Hc). exists (StatusRange a b). split; [|done]. apply list_elem_of_omap. exists s.
      split; [done|]. by apply parse_token_reads.
  - split; [|by split]. split; [done|]. intros Hr. exfalso. rewrite Forall_forall in Hr.
    destruct (proj1 (He bad)) as [Hs Hn]; [left|]. by apply Hn, Hr.
Qed.

(** A third part of a range is dropped without notice. *)
Example third_part_ignored :
  parseHttpStatusCodeRules (js "429-430-503") = parseHttpStatusCodeRules (js "429-430").
Proof. vm_compute. reflexivity. Qed.
