(* ===== verification/ModelMapping.v ===== *)
(** Model lists and model redirects of a channel (features/channels/lib/model-mapping-validation.ts).

    A redirect is typed as JSON.  The keys of an object are listed in the order of their
    insertion; a key that is an array index would be listed first. *)

From S2P Require Import Prelude JsString JsNumber JsValue BillingTypes JsJson JsSort.

Definition non_blank (s : str) : bool := bool_decide (s <> []).

Definition parseModelsString (modelsStr : str) : list str :=
  match modelsStr with
  | [] => []
  | _ => List.filter non_blank (map trim (split_on 44 modelsStr))
  end.

Definition formatModelsArray (models : list str) : str := join (js ",") (distinct models).

(** The argument is a string. *)
Definition normalizeModelName (model : str) : str := trim model.

(** The entries of a parsed object; [None] when the text is no JSON object. *)
Definition mapping_entries (text : str) : option (list (str * jsval)) :=
  match JSON_parse text with
  | Ok (VObject entries) => Some entries
  | _ => None
  end.

Definition extractMappingSourceModels (modelMapping : str) : list str :=
  match trim modelMapping with
  | [] => []
  | trimmed =>
      match mapping_entries trimmed with
      | Some entries => distinct (List.filter non_blank (map (fun e => trim e.1) entries))
      | None => []
      end
  end.

(** A string value, trimmed. *)
Definition target_text (v : jsval) : str := match v with VString s => trim s | _ => [] end.

Definition extractRedirectModels (modelMapping : str) : list str :=
  match trim modelMapping with
  | [] => []
  | trimmed =>
      match mapping_entries trimmed with
      | Some entries => distinct (List.filter non_blank (map (fun e => target_text e.2) entries))
      | None => []
      end
  end.

Definition hasModelConfigChanged (currentModels : list str) (currentModelMapping : str) (initialModels : list str)
    (initialModelMapping : str) : bool :=
  if bool_decide (initialModels = []) && bool_decide (initialModelMapping = []) then true
  else if negb (bool_decide (currentModels = initialModels)) then true
  else negb (bool_decide (trim currentModelMapping = trim initialModelMapping)).

Definition findMissingModelsInMapping (modelMapping : str) (currentModels : list str) : list str :=
  match trim modelMapping with
  | [] => []
  | _ =>
      match mapping_entries modelMapping with
      | None => []
      | Some entries =>
          let modelSet := map normalizeModelName currentModels in
          distinct (List.filter (fun key => non_blank key && negb (bool_decide (key ∈ modelSet)))
                      (map (fun e => normalizeModelName e.1) entries))
      end
  end.

Inductive mapping_check : Type := Mapping_valid | Mapping_not_object | Mapping_not_strings | Mapping_not_json.

Definition is_string_value (v : jsval) : bool := match v with VString _ => true | _ => false end.

Definition validateModelMappingJson (modelMapping : str) : mapping_check :=
  match trim modelMapping with
  | [] => Mapping_valid
  | _ =>
      match JSON_parse modelMapping with
      | Throw _ => Mapping_not_json
      | Ok (VObject entries) => if existsb (fun e => negb (is_string_value e.2)) entries then Mapping_not_strings else Mapping_valid
      | Ok _ => Mapping_not_object
      end
  end.

Definition findExposedTargetModels (modelMapping : str) (currentModels : list str) : list str :=
  match extractRedirectModels modelMapping with
  | [] => []
  | redirectModels =>
      let modelSet := map normalizeModelName currentModels in
      List.filter (fun model => bool_decide (normalizeModelName model ∈ modelSet)) redirectModels
  end.

Record model_categories := ModelCategories {
  mc_current : list str;
  mc_redirect : list str;
  mc_classification : list str;
  mc_redirectOnly : list str;
}.

Definition categorizeModelsWithRedirect (currentModels redirectModels : list str) : model_categories :=
  let current := distinct (List.filter non_blank (map normalizeModelName currentModels)) in
  let redirect := distinct (List.filter non_blank (map normalizeModelName redirectModels)) in
  ModelCategories current redirect (distinct (current ++ redirect))
    (List.filter (fun m => negb (bool_decide (m ∈ current))) redirect).

(** * Properties *)

(** A model name that a list can hold. *)
Definition listable (model : str) : Prop := trim model = model /\ model <> [] /\ 44%N ∉ model.

Lemma keep_listable models : Forall listable models -> List.filter non_blank (map trim models) = models.
Proof.
  induction 1 as [|m models (Ht & Hn & _) _ IH]; [done|]. cbn. unfold non_blank at 1.
  rewrite Ht, bool_decide_eq_true_2 by done. by rewrite IH.
Qed.

(** The text of a list of model names is read back as the list without repetitions. *)
Theorem models_list_round_trip models (Hm : Forall listable models) :
  parseModelsString (formatModelsArray models) = distinct models.
Proof.
  destruct (distinct_spec models) as [_ Hd]. unfold formatModelsArray.
  assert (Forall listable (distinct models)) as Hl.
  { rewrite Forall_forall in Hm |- *. intros m Hi. by apply Hm, Hd. }
  generalize dependent (distinct models). clear. intros l _ Hl. destruct l as [|m rest]; [done|].
  unfold parseModelsString. assert (join (js ",") (m :: rest) <> []) as Hj.
  { apply Forall_cons in Hl as [(_ & Hn & _) _]. destruct rest; [done|]. destruct m; [done|]. done. }
  destruct (join (js ",") (m :: rest)) as [|c text] eqn:Ej; [done|]. rewrite <- Ej. change (js ",") with [44%N].
  rewrite split_join_inverse; [by apply keep_listable|done|]. eapply Forall_impl; [exact Hl|]. by intros x (_ & _ & ?).
Qed.

Lemma parsed_listable s : Forall listable (parseModelsString s).
Proof.
  unfold parseModelsString. destruct s as [|c s]; [constructor|]. apply Forall_forall. intros m Hm.
  apply list_elem_of_In, filter_In in Hm as [Hm Hn]. apply in_map_iff in Hm as (p & <- & Hp).
  destruct (split_on_pieces 44 (c :: s)) as [_ Hc]. rewrite Forall_forall in Hc. apply list_elem_of_In, Hc in Hp.
  unfold non_blank in Hn. apply bool_decide_eq_true in Hn. split; [apply trim_idemp|]. split; [done|].
  destruct (trim_infix p) as (a & b & E). rewrite E in Hp. set_solver.
Qed.

(** Whatever was typed, saving the list and opening it again gives the saved list. *)
Theorem models_text_stable s :
  parseModelsString (formatModelsArray (parseModelsString s)) = distinct (parseModelsString s).
Proof. apply models_list_round_trip, parsed_listable. Qed.

(** The categories of the model picker: every model of either list is classified once, and the
    models that only a redirect names are those that no list entry names. *)
Theorem categories_partition currentModels redirectModels :
  let c := categorizeModelsWithRedirect currentModels redirectModels in
  NoDup (mc_classification c) /\ NoDup (mc_redirectOnly c) /\
  (forall m, m ∈ mc_classification c <-> m ∈ mc_current c \/ m ∈ mc_redirectOnly c) /\
  (forall m, m ∈ mc_redirectOnly c -> m ∉ mc_current c).
Proof.
  cbv zeta. unfold categorizeModelsWithRedirect. cbn [mc_classification mc_redirectOnly mc_current].
  set (current := distinct (List.filter non_blank (map normalizeModelName currentModels))).
  set (redirect := distinct (List.filter non_blank (map normalizeModelName redirectModels))).
  destruct (distinct_spec (current ++ redirect)) as [H1 H2].
  assert (NoDup redirect) as Hr by apply distinct_spec.
  assert (forall m, m ∈ List.filter (fun m => negb (bool_decide (m ∈ current))) redirect <-> m ∈ redirect /\ m ∉ current) as Hf.
  { intros m. rewrite list_elem_of_In, filter_In, <- list_elem_of_In, negb_true_iff, bool_decide_eq_false. done. }
  split_and!; [done|by apply NoDup_ListNoDup, List.NoDup_filter, NoDup_ListNoDup| |].
  - intros m. rewrite H2, elem_of_app, Hf. destruct (decide (m ∈ current)); naive_solver.
  - intros m Hm. by apply Hf in Hm as [_ Hm].
Qed.
