(* ===== verification/AdvancedCustom.v ===== *)
(** The routes of an advanced custom channel (features/channels/lib/advanced-custom.ts).

    A configuration is typed by the administrator as JSON, so a configuration and its routes are
    values of any shape, and reading them can throw.  Property reads see the own properties of an
    object.  The URL parser of the browser is the class [UrlParser]. *)

From S2P Require Import Prelude JsString JsNumber JsNumberOrder JsValue BillingTypes JsJson JsSort.

(** * Constants *)

Definition ADVANCED_CUSTOM_MODEL_LIST_PATH : str := js "/v1/models".
Definition ADVANCED_CUSTOM_MODEL_LIST_LABEL : str := js "OpenAI Models".
Definition ADVANCED_CUSTOM_BALANCE_PATH : str := js "/v1/dashboard/billing/credit_grants".
Definition ADVANCED_CUSTOM_BALANCE_LABEL : str := js "Balance Query".

(** [AdvancedCustomConverter] *)
Inductive adv_converter : Type :=
| Conv_none
| Conv_anthropic_to_chat
| Conv_chat_to_anthropic
| Conv_chat_to_responses
| Conv_responses_to_chat
| Conv_responses_to_gemini
| Conv_gemini_to_chat
| Conv_chat_to_gemini.
#[export] Instance adv_converter_eq_dec : EqDecision adv_converter.
Proof. solve_decision. Defined.

Definition converter_name (c : adv_converter) : str :=
  match c with
  | Conv_none => js "none"
  | Conv_anthropic_to_chat => js "anthropic_messages_to_openai_chat_completions"
  | Conv_chat_to_anthropic => js "openai_chat_completions_to_anthropic_messages"
  | Conv_chat_to_responses => js "openai_chat_completions_to_openai_responses"
  | Conv_responses_to_chat => js "openai_responses_to_openai_chat_completions"
  | Conv_responses_to_gemini => js "openai_responses_to_gemini_generate_content"
  | Conv_gemini_to_chat => js "gemini_generate_content_to_openai_chat_completions"
  | Conv_chat_to_gemini => js "openai_chat_completions_to_gemini_generate_content"
  end.

Record converter_option := ConverterOption { co_value : adv_converter; co_label : str; co_triggerLabel : str }.

Definition ADVANCED_CUSTOM_CONVERTER_OPTIONS : list converter_option :=
  [ConverterOption Conv_none (js "Native forwarding") (js "Native forwarding");
   ConverterOption Conv_anthropic_to_chat (js "Anthropic Messages to OpenAI Chat") (js "To OpenAI Chat");
   ConverterOption Conv_chat_to_anthropic (js "OpenAI Chat to Anthropic Messages") (js "To Anthropic Messages");
   ConverterOption Conv_chat_to_responses (js "OpenAI Chat to OpenAI Responses") (js "To OpenAI Responses");
   ConverterOption Conv_responses_to_chat (js "OpenAI Responses to OpenAI Chat") (js "To OpenAI Chat");
   ConverterOption Conv_responses_to_gemini (js "OpenAI Responses to Gemini Generate Content") (js "To Gemini Generate Content");
   ConverterOption Conv_gemini_to_chat (js "Gemini Generate Content to OpenAI Chat") (js "To OpenAI Chat");
   ConverterOption Conv_chat_to_gemini (js "OpenAI Chat to Gemini Generate Content") (js "To Gemini Generate Content")].

(** [AdvancedCustomAuthMode] *)
Inductive adv_auth_mode : Type := Auth_default | Auth_none | Auth_header | Auth_query.

Definition ADVANCED_CUSTOM_AUTH_MODE_OPTIONS : list (adv_auth_mode * str) :=
  [(Auth_default, js "Default Bearer"); (Auth_none, js "No Auth"); (Auth_header, js "Header"); (Auth_query, js "Query")].

(** Paths with their labels. *)
Definition ADVANCED_CUSTOM_INCOMING_PATH_OPTIONS : list (str * str) :=
  [(js "/v1/chat/completions", js "OpenAI Chat");
   (js "/v1/responses", js "OpenAI Responses");
   (js "/v1/responses/compact", js "OpenAI Responses Compact");
   (js "/v1/alpha/search", js "Codex Alpha Search");
   (js "/v1/embeddings", js "OpenAI Embeddings");
   (js "/v1/images/generations", js "OpenAI Image Generations");
   (js "/v1/images/edits", js "OpenAI Image Edits");
   (js "/v1/completions", js "OpenAI Completions");
   (js "/v1/audio/speech", js "OpenAI Audio Speech");
   (js "/v1/audio/transcriptions", js "OpenAI Audio Transcriptions");
   (js "/v1/audio/translations", js "OpenAI Audio Translations");
   (js "/v1/rerank", js "Rerank");
   (js "/v1/realtime", js "OpenAI Realtime");
   (js "/v1/messages", js "Claude Messages");
   (js "/v1beta/models/{model}:generateContent", js "Gemini Generate Content");
   (js "/v1beta/models/{model}:embedContent", js "Gemini Embed Content");
   (js "/v1beta/models/{model}:batchEmbedContents", js "Gemini Batch Embed Contents")].

Definition ADVANCED_CUSTOM_ROUTE_SUMMARY_LABELS : list (str * str) :=
  [(js "/v1/chat/completions", js "OpenAI Chat");
   (ADVANCED_CUSTOM_MODEL_LIST_PATH, ADVANCED_CUSTOM_MODEL_LIST_LABEL);
   (ADVANCED_CUSTOM_BALANCE_PATH, ADVANCED_CUSTOM_BALANCE_LABEL)].

Definition ADVANCED_CUSTOM_MODEL_REGEX_PREFIX : str := js "re:".

Definition openAIChatPath : str := js "/v1/chat/completions".
Definition openAIResponsesPath : str := js "/v1/responses".
Definition claudeMessagesPath : str := js "/v1/messages".
Definition geminiGenerateContentPath : str := js "/v1beta/models/{model}:generateContent".

(** * Values *)

Definition auth_value (type name value : str) : jsval :=
  VObject [(js "type", VString type); (js "name", VString name); (js "value", VString value)].
Definition bearerHeaderAuth : jsval := auth_value (js "header") (js "Authorization") (js "Bearer {api_key}").
Definition apiKeyHeaderAuth : jsval := auth_value (js "header") (js "x-api-key") (js "{api_key}").
Definition geminiQueryAuth : jsval := auth_value (js "query") (js "key") (js "{api_key}").

Definition config_value (routes : list jsval) : jsval := VObject [(js "advanced_routes", VArray routes)].

(** A route that forwards a path to itself. *)
Definition native_route (auth : jsval) (path : str) : jsval :=
  VObject [(js "incoming_path", VString path); (js "upstream_path", VString path); (js "converter", VString (js "none"));
           (js "auth", auth)].

Definition createOpenAINativeRoutes : list jsval :=
  map (native_route bearerHeaderAuth)
    [js "/v1/chat/completions"; js "/v1/completions"; js "/v1/responses"; js "/v1/responses/compact"; js "/v1/embeddings";
     js "/v1/images/generations"; js "/v1/images/edits"; js "/v1/audio/speech"; js "/v1/audio/transcriptions";
     js "/v1/audio/translations"; js "/v1/realtime"].
Definition createClaudeNativeRoutes : list jsval := [native_route apiKeyHeaderAuth (js "/v1/messages")].
Definition createGeminiNativeRoutes : list jsval :=
  map (native_route geminiQueryAuth)
    [js "/v1beta/models/{model}:generateContent"; js "/v1beta/models/{model}:embedContent";
     js "/v1beta/models/{model}:batchEmbedContents"].
Definition createGatewayNativeRoutes : list jsval := map (native_route bearerHeaderAuth) [js "/v1/alpha/search"; js "/v1/rerank"].

Record template_option := TemplateOption { to_value : str; to_label : str; to_config : jsval }.

Definition ADVANCED_CUSTOM_TEMPLATE_OPTIONS : list template_option :=
  [TemplateOption (js "all_protocols") (js "All routes")
     (config_value (createOpenAINativeRoutes ++ createClaudeNativeRoutes ++ createGeminiNativeRoutes ++ createGatewayNativeRoutes));
   TemplateOption (js "openai_only") (js "OpenAI only") (config_value createOpenAINativeRoutes);
   TemplateOption (js "claude_only") (js "Claude only") (config_value createClaudeNativeRoutes);
   TemplateOption (js "gemini_only") (js "Gemini only") (config_value createGeminiNativeRoutes)].

(** [structuredClone] of plain data; values have no identity here. *)
Definition cloneAdvancedCustomConfig (config : jsval) : jsval := config.

Definition getAdvancedCustomTemplateConfig (templateKey : str) : jsval :=
  match List.find (fun option => bool_decide (to_value option = templateKey)) ADVANCED_CUSTOM_TEMPLATE_OPTIONS with
  | Some template => cloneAdvancedCustomConfig (to_config template)
  | None => match ADVANCED_CUSTOM_TEMPLATE_OPTIONS with
            | template :: _ => cloneAdvancedCustomConfig (to_config template)
            | [] => VUndefined
            end
  end.

Definition isAdvancedCustomManagementPath (path : str) : bool :=
  bool_decide (path = ADVANCED_CUSTOM_MODEL_LIST_PATH) || bool_decide (path = ADVANCED_CUSTOM_BALANCE_PATH).

(** * Reading values *)

(** [v.trim()] *)
Definition trim_value (v : jsval) : result exn str := match v with VString s => Ok (trim s) | _ => Throw type_error end.
(** [v?.trim() || ''] *)
Definition trimmed_or_empty (v : jsval) : result exn str := if is_nullish v then Ok [] else trim_value v.

(** * Normal form *)

Definition getAdvancedCustomRouteUpstreamPath (route : jsval) : result exn str :=
  path ← get_prop route (js "upstream_path");
  trim_value (or_value path (VString [])).

Definition normalizeAdvancedCustomRouteModels (models : jsval) : result exn (list str) :=
  match models with
  | VArray items => texts ← mapM trim_value items; Ok (List.filter (fun t => bool_decide (t <> [])) texts)
  | _ => Ok []
  end.

Definition normalizeAdvancedCustomRoute (route : jsval) : result exn jsval :=
  incoming ← get_prop route (js "incoming_path");
  upstream ← getAdvancedCustomRouteUpstreamPath route;
  converter ← get_prop route (js "converter");
  raw_models ← get_prop route (js "models");
  models ← normalizeAdvancedCustomRouteModels raw_models;
  auth ← get_prop route (js "auth");
  auth_entries ←
    (if truthy auth then
       type ← get_prop auth (js "type");
       name ← get_prop auth (js "name");
       value ← get_prop auth (js "value");
       Ok [(js "auth", VObject [(js "type", type); (js "name", or_value name (VString [])); (js "value", or_value value (VString []))])]
     else Ok []);
  Ok (VObject ([(js "incoming_path", or_value incoming (VString [])); (js "upstream_path", VString upstream);
                (js "converter", or_value converter (VString (js "none")))] ++
               match models with [] => [] | _ => [(js "models", VArray (map VString models))] end ++ auth_entries)).

(** The normalised routes. *)
Definition normal_routes (config : jsval) : result exn (list jsval) :=
  routes ← get_prop config (js "advanced_routes");
  match routes with
  | VArray items => mapM normalizeAdvancedCustomRoute items
  | _ => Ok []
  end.

Definition normalizeAdvancedCustomConfig (config : jsval) : result exn jsval :=
  routes ← normal_routes config; Ok (config_value routes).

Definition parseAdvancedCustomConfig (value : option str) : option jsval :=
  match value with
  | None => None
  | Some text =>
      match trim text with
      | [] => None
      | _ =>
          match (parsed ← JSON_parse text;
                 match parsed with VObject _ => config ← normalizeAdvancedCustomConfig parsed; Ok (Some config) | _ => Ok None end) with
          | Ok config => config
          | Throw _ => None
          end
      end
  end.

Definition stringifyAdvancedCustomConfig (config : jsval) : result exn str :=
  normalized ← normalizeAdvancedCustomConfig config; Ok (JSON_stringify_indented normalized).

(** * Management routes *)

(** [route.incoming_path?.trim()] with [|| ''] *)
Definition incoming_text (route : jsval) : result exn str :=
  incoming ← get_prop route (js "incoming_path"); trimmed_or_empty incoming.

(** The position of the first route with a path; the normalised routes before it are read. *)
Fixpoint find_path (path : str) (routes : list jsval) : result exn (option nat) :=
  match routes with
  | [] => Ok None
  | route :: rest =>
      incoming ← incoming_text route;
      if bool_decide (incoming = path) then Ok (Some 0)
      else found ← find_path path rest; Ok (option_map S found)
  end.

(** [path] is not empty. *)
Definition getAdvancedCustomManagementRoute (config : jsval) (path : str) : result exn (option jsval) :=
  routes ← normal_routes config;
  index ← find_path path routes;
  Ok (index ≫= fun i => routes !! i).

Definition replaceAdvancedCustomManagementRoute (config : jsval) (path : str) (route : option jsval) : result exn jsval :=
  routes ← normal_routes config;
  index ← find_path path routes;
  match route with
  | None => Ok (config_value match index with Some i => take i routes ++ drop (S i) routes | None => routes end)
  | Some route =>
      upstream ← get_prop route (js "upstream_path");
      auth ← get_prop route (js "auth");
      let managementRoute :=
        VObject [(js "incoming_path", VString path); (js "upstream_path", or_value upstream (VString []));
                 (js "converter", VString (js "none")); (js "models", VArray []); (js "auth", auth)] in
      Ok (config_value match index with Some i => <[i := managementRoute]> routes | None => routes ++ [managementRoute] end)
  end.

Definition is_management_route (route : jsval) : result exn bool :=
  incoming ← incoming_text route; Ok (isAdvancedCustomManagementPath incoming).

(** The routes for which [keep] is true. *)
Definition select_routes (routes : list (jsval * bool)) : list jsval :=
  map fst (List.filter (fun r => r.2) routes).

Definition replaceAdvancedCustomForwardingRoutes (config : jsval) (forwardingRoutes : list jsval) : result exn jsval :=
  routes ← normal_routes config;
  flags ← mapM is_management_route routes;
  let marked := zip routes flags in
  match find_index (fun r : jsval * bool => negb r.2) marked with
  | None => Ok (config_value (select_routes marked ++ forwardingRoutes))
  | Some first =>
      Ok (config_value (select_routes (take first marked) ++ forwardingRoutes ++ select_routes (drop first marked)))
  end.

(** * Converters and paths *)

(** [incomingPath] against one of the registered converters. *)
Definition isConverterPathAllowed (incomingPath : str) (converter : adv_converter) : bool :=
  match converter with
  | Conv_none => true
  | _ =>
      if bool_decide (incomingPath = js "/v1/alpha/search") then false
      else match converter with
           | Conv_anthropic_to_chat => bool_decide (incomingPath = js "/v1/messages")
           | Conv_chat_to_anthropic | Conv_chat_to_responses | Conv_chat_to_gemini =>
               bool_decide (incomingPath = js "/v1/chat/completions")
           | Conv_responses_to_chat | Conv_responses_to_gemini => bool_decide (incomingPath = js "/v1/responses")
           | _ => includes incomingPath (js ":generateContent") || includes incomingPath (js ":streamGenerateContent")
           end
  end.

Definition isAdvancedCustomIncomingPathAllowed := isConverterPathAllowed.

Definition getAdvancedCustomIncomingPathOptions (converter : adv_converter) : list (str * str) :=
  List.filter (fun option : str * str => isConverterPathAllowed option.1 converter) ADVANCED_CUSTOM_INCOMING_PATH_OPTIONS.

Definition getDefaultAdvancedCustomIncomingPath (converter : adv_converter) : str :=
  match getAdvancedCustomIncomingPathOptions converter with
  | (((_ :: _) as value), _) :: _ => value
  | _ => js "/v1/chat/completions"
  end.

Definition getAdvancedCustomConverterOptions (incomingPath : str) : list converter_option :=
  let normalizedIncomingPath := trim incomingPath in
  List.filter (fun option => bool_decide (co_value option = Conv_none) || isConverterPathAllowed normalizedIncomingPath (co_value option))
    ADVANCED_CUSTOM_CONVERTER_OPTIONS.

Definition getAdvancedCustomIncomingPathLabel (value : str) : str :=
  match List.find (fun option : str * str => bool_decide (option.1 = value)) ADVANCED_CUSTOM_INCOMING_PATH_OPTIONS with
  | Some (_, ((_ :: _) as label)) => label
  | _ => value
  end.

Definition getAdvancedCustomNativeAuth (incomingPath : str) : jsval :=
  if bool_decide (incomingPath = claudeMessagesPath) then apiKeyHeaderAuth
  else if includes incomingPath (js ":generateContent") || includes incomingPath (js ":streamGenerateContent") ||
          includes incomingPath (js ":embedContent") || includes incomingPath (js ":batchEmbedContents") then geminiQueryAuth
  else bearerHeaderAuth.

(** The upstream path and the authentication. *)
Definition getAdvancedCustomConverterDefaults (converter : adv_converter) (incomingPath : str) : str * jsval :=
  let normalizedIncomingPath :=
    match trim incomingPath with [] => getDefaultAdvancedCustomIncomingPath converter | path => path end in
  match converter with
  | Conv_none => (normalizedIncomingPath, getAdvancedCustomNativeAuth normalizedIncomingPath)
  | Conv_anthropic_to_chat | Conv_gemini_to_chat | Conv_responses_to_chat => (openAIChatPath, bearerHeaderAuth)
  | Conv_chat_to_responses => (openAIResponsesPath, bearerHeaderAuth)
  | Conv_chat_to_anthropic => (claudeMessagesPath, apiKeyHeaderAuth)
  | Conv_chat_to_gemini | Conv_responses_to_gemini => (geminiGenerateContentPath, geminiQueryAuth)
  end.

Definition getAdvancedCustomUpstreamPathPlaceholder (converter : adv_converter) (incomingPath : option str) : str :=
  (getAdvancedCustomConverterDefaults converter
     (default (getDefaultAdvancedCustomIncomingPath converter) incomingPath)).1.

Definition createAdvancedCustomRoute : jsval :=
  VObject [(js "incoming_path", VString openAIChatPath); (js "upstream_path", VString openAIChatPath);
           (js "converter", VString (js "none"))].
Definition createAdvancedCustomConfig : jsval := config_value [createAdvancedCustomRoute].
Definition createAdvancedCustomManagementRoute (path : str) : jsval :=
  VObject [(js "incoming_path", VString path); (js "upstream_path", VString path); (js "converter", VString (js "none"));
           (js "models", VArray [])].

(** * Authentication *)

(** [route.auth?.type || 'default'] *)
Definition getAdvancedCustomAuthMode (route : jsval) : result exn jsval :=
  auth ← get_prop route (js "auth");
  type ← (if is_nullish auth then Ok VUndefined else get_prop auth (js "type"));
  Ok (or_value type (VString (js "default"))).

(** [previousAuth?.k || fallback] *)
Definition previous_or (previousAuth : jsval) (k fallback : str) : result exn jsval :=
  value ← (if is_nullish previousAuth then Ok VUndefined else get_prop previousAuth k);
  Ok (or_value value (VString fallback)).

Definition buildAdvancedCustomAuth (mode : adv_auth_mode) (previousAuth : jsval) : result exn jsval :=
  match mode with
  | Auth_default => Ok VUndefined
  | Auth_none => Ok (VObject [(js "type", VString (js "none"))])
  | Auth_header =>
      name ← previous_or previousAuth (js "name") (js "Authorization");
      value ← previous_or previousAuth (js "value") (js "Bearer {api_key}");
      Ok (VObject [(js "type", VString (js "header")); (js "name", name); (js "value", value)])
  | Auth_query =>
      name ← previous_or previousAuth (js "name") (js "api_key");
      value ← previous_or previousAuth (js "value") (js "{api_key}");
      Ok (VObject [(js "type", VString (js "query")); (js "name", name); (js "value", value)])
  end.

(** * Models of a route *)

Definition parseAdvancedCustomRouteModels (value : str) : list str :=
  distinct (List.filter (fun model => bool_decide (model <> [])) (map trim (split_on 44 value))).

Inductive model_rule_kind : Type := Rule_exact | Rule_regex.
Definition getAdvancedCustomModelRuleKind (modelRule : str) : model_rule_kind :=
  if starts_with modelRule ADVANCED_CUSTOM_MODEL_REGEX_PREFIX then Rule_regex else Rule_exact.
Definition getAdvancedCustomRegexModelPattern (modelRule : str) : str :=
  drop (length ADVANCED_CUSTOM_MODEL_REGEX_PREFIX) modelRule.

(** * Validation *)

Record validation_error := ValidationError { ve_message : str; ve_routeIndex : option nat }.

(** The host and the protocol of [new URL(value)]; [None] when the constructor throws. *)
Class UrlParser := parse_url : str -> option (str * str).

Section validation.
Context {urls : UrlParser}.

Definition isFullHttpURLOrAbsolutePath (value : str) : bool :=
  if starts_with value (js "/") then negb (starts_with value (js "//"))
  else match parse_url value with
       | Some (host, protocol) =>
           negb (bool_decide (host = [])) && (bool_decide (protocol = js "http:") || bool_decide (protocol = js "https:"))
       | None => false
       end.

(** The registered converter with a name. *)
Definition find_converter (value : jsval) : option adv_converter :=
  match value with
  | VString s => co_value <$> List.find (fun option => bool_decide (converter_name (co_value option) = s)) ADVANCED_CUSTOM_CONVERTER_OPTIONS
  | _ => None
  end.
Definition isAdvancedCustomConverter (value : jsval) : bool :=
  match find_converter value with Some _ => true | None => false end.

Definition equals_text (v : jsval) (s : str) : bool := match v with VString t => bool_decide (t = s) | _ => false end.

Definition validateRouteAuth (auth : jsval) : result exn (option str) :=
  if negb (truthy auth) then Ok None
  else
    type ← get_prop auth (js "type");
    if equals_text type (js "none") then Ok None
    else if negb (equals_text type (js "header")) && negb (equals_text type (js "query")) then Ok (Some (js "Auth type is invalid"))
    else
      raw_name ← get_prop auth (js "name");
      name ← trimmed_or_empty raw_name;
      if bool_decide (name = []) then Ok (Some (js "Auth name is required"))
      else
        raw_value ← get_prop auth (js "value");
        value ← trimmed_or_empty raw_value;
        if bool_decide (value = []) then Ok (Some (js "Auth value is required")) else Ok None.

(** The state kept for an incoming path: the catch-all route and the route of each model. *)
Record path_state := PathState { ps_catchAllIndex : option nat; ps_models : list (str * nat) }.

(** The models of a route are added one by one; an error leaves the loop. *)
Fixpoint add_models (routeIndex : nat) (models seen : list str) (state : list (str * nat)) : str + list (str * nat) :=
  match models with
  | [] => inr state
  | model :: rest =>
      match getAdvancedCustomModelRuleKind model, getAdvancedCustomRegexModelPattern model with
      | Rule_regex, [] => inl (js "Model regex cannot be empty")
      | _, _ =>
          if bool_decide (model ∈ seen) then inl (js "Duplicate model in route models")
          else match obj_get model state with
               | Some _ => inl (js "Route models must be unique for the same incoming path")
               | None => add_models routeIndex rest (seen ++ [model]) (obj_set model routeIndex state)
               end
      end
  end.

(** The state of the path after the route, or the message of the error. *)
Definition validateAdvancedCustomRouteModels (routeIndex : nat) (models : list str) (state : path_state) : str + path_state :=
  match models, ps_catchAllIndex state with
  | [], Some _ => inl (js "Only one catch-all route is allowed for the same incoming path")
  | [], None => inr (PathState (Some routeIndex) (ps_models state))
  | _, Some _ => inl (js "Catch-all route must be last for the same incoming path")
  | _, None =>
      match add_models routeIndex models [] (ps_models state) with
      | inl message => inl message
      | inr states => inr (PathState None states)
      end
  end.

Record validation_state := ValidationState {
  vs_byPath : list (str * path_state);
  vs_modelListIndex : option nat;
  vs_balanceIndex : option nat;
}.

(** The checks of a management route. *)
Definition validate_management (incomingPath upstreamPath : str) (converter : jsval) (models : list str) (st : validation_state) :
    option str :=
  let isModelListRoute := bool_decide (incomingPath = ADVANCED_CUSTOM_MODEL_LIST_PATH) in
  let existingIndex := if isModelListRoute then vs_modelListIndex st else vs_balanceIndex st in
  let routeLabel := if isModelListRoute then js "OpenAI Models" else js "Balance Query" in
  match existingIndex with
  | Some _ => Some (js "Only one " ++ routeLabel ++ js " route is allowed")
  | None =>
      if negb (bool_decide (models = [])) then Some (routeLabel ++ js " route does not support client model rules")
      else if negb (equals_text converter (js "none")) then Some (routeLabel ++ js " route must use native forwarding")
      else if includes upstreamPath (js "{model}") then Some (routeLabel ++ js " upstream path must not contain {model}")
      else None
  end.

Definition mark_management (incomingPath : str) (index : nat) (st : validation_state) : validation_state :=
  if bool_decide (incomingPath = ADVANCED_CUSTOM_MODEL_LIST_PATH)
  then ValidationState (vs_byPath st) (Some index) (vs_balanceIndex st)
  else ValidationState (vs_byPath st) (vs_modelListIndex st) (Some index).

(** One turn of the loop: the message of an error, or the next state. *)
Definition validate_route (index : nat) (route : jsval) (st : validation_state) : result exn (str + validation_state) :=
  incomingPath ← incoming_text route;
  upstreamPath ← getAdvancedCustomRouteUpstreamPath route;
  raw_converter ← get_prop route (js "converter");
  let converter := or_value raw_converter (VString (js "none")) in
  raw_models ← get_prop route (js "models");
  models ← normalizeAdvancedCustomRouteModels raw_models;
  if bool_decide (incomingPath = []) then Ok (inl (js "Incoming path is required"))
  else if negb (starts_with incomingPath (js "/")) then Ok (inl (js "Incoming path must start with /"))
  else if includes incomingPath (js "?") then Ok (inl (js "Incoming path must not include query"))
  else
    let management := isAdvancedCustomManagementPath incomingPath in
    match (if management then validate_management incomingPath upstreamPath converter models st else None) with
    | Some message => Ok (inl message)
    | None =>
        let st := if management then mark_management incomingPath index st else st in
        match validateAdvancedCustomRouteModels index models (default (PathState None []) (obj_get incomingPath (vs_byPath st))) with
        | inl message => Ok (inl message)
        | inr state =>
            let st := ValidationState (obj_set incomingPath state (vs_byPath st)) (vs_modelListIndex st) (vs_balanceIndex st) in
            if bool_decide (upstreamPath = []) then Ok (inl (js "Upstream path is required"))
            else if negb (isFullHttpURLOrAbsolutePath upstreamPath) then
              Ok (inl (js "Upstream path must be a full URL or a path starting with /"))
            else match find_converter converter with
                 | None => Ok (inl (js "Converter is not registered"))
                 | Some known =>
                     if negb (isConverterPathAllowed incomingPath known) then Ok (inl (js "Converter does not match incoming path"))
                     else
                       auth ← get_prop route (js "auth");
                       authError ← validateRouteAuth auth;
                       match authError with Some message => Ok (inl message) | None => Ok (inr st) end
                 end
        end
    end.

Fixpoint validate_routes (index : nat) (routes : list jsval) (st : validation_state) : result exn (option validation_error) :=
  match routes with
  | [] => Ok None
  | route :: rest =>
      checked ← validate_route index route st;
      match checked with
      | inl message => Ok (Some (ValidationError message (Some index)))
      | inr st => validate_routes (S index) rest st
      end
  end.

Definition validateAdvancedCustomConfig (config : option jsval) : result exn (option validation_error) :=
  match config with
  | None => Ok (Some (ValidationError (js "Advanced custom configuration is required") None))
  | Some config =>
      routes ← normal_routes config;
      match routes with
      | [] => Ok (Some (ValidationError (js "Advanced custom configuration requires at least one route") None))
      | _ => validate_routes 0 routes (ValidationState [] None None)
      end
  end.

(** [routes.some(test)] *)
Fixpoint some_route (test : jsval -> result exn bool) (routes : list jsval) : result exn bool :=
  match routes with
  | [] => Ok false
  | route :: rest => found ← test route; if found : bool then Ok true else some_route test rest
  end.

Definition hasValidAdvancedCustomModelListRoute (config : option jsval) : result exn bool :=
  match config with
  | None => Ok false
  | Some c =>
      error ← validateAdvancedCustomConfig config;
      match error with
      | Some _ => Ok false
      | None =>
          routes ← normal_routes c;
          some_route (fun route => incoming ← incoming_text route; Ok (bool_decide (incoming = ADVANCED_CUSTOM_MODEL_LIST_PATH))) routes
      end
  end.

Definition advancedCustomConfigUsesRelativeUpstreamPath (config : option jsval) : result exn bool :=
  match config with
  | None => Ok false
  | Some config =>
      routes ← normal_routes config;
      some_route (fun route => path ← getAdvancedCustomRouteUpstreamPath route; Ok (starts_with path (js "/"))) routes
  end.

(** * Statistics *)

Definition getAdvancedCustomRouteSummaryLabel (route : jsval) : result exn (option str) :=
  incomingPath ← incoming_text route;
  match incomingPath with
  | [] => Ok None
  | _ => Ok (Some match obj_get incomingPath ADVANCED_CUSTOM_ROUTE_SUMMARY_LABELS with
                  | Some label => label
                  | None => getAdvancedCustomIncomingPathLabel incomingPath
                  end)
  end.

Record custom_stats := CustomStats { cs_routeCount : nat; cs_valid : bool; cs_routeTypeLabels : list str }.

Definition getAdvancedCustomStats (value : option str) : result exn custom_stats :=
  match parseAdvancedCustomConfig value with
  | None => Ok (CustomStats 0 false [])
  | Some config =>
      routes ← normal_routes config;
      labels ← mapM getAdvancedCustomRouteSummaryLabel routes;
      error ← validateAdvancedCustomConfig (Some (config_value routes));
      Ok (CustomStats (length routes) (match error with None => true | Some _ => false end)
            (distinct (omap (fun label => match label with Some (_ :: _) => label | _ => None end) labels)))
  end.
End validation.
