(* ===== verification/AdvancedCustomProps.v ===== *)
(** Properties of the routes of an advanced custom channel: validation decides a declarative
    specification, what is offered is valid, saved configurations are read back, and management
    and forwarding routes are edited independently. *)

From S2P Require Import Prelude JsString JsNumber JsNumberOrder JsValue BillingTypes JsJson JsSort AdvancedCustom.

(** * Typed routes *)

(** [AdvancedCustomRouteAuth] and [AdvancedCustomRoute] with texts in their fields. *)
Record route_auth := RouteAuth { ra_type : option str; ra_name : option str; ra_value : option str }.
Record route := Route {
  rt_incoming : option str;
  rt_upstream : option str;
  rt_converter : option str;
  rt_models : option (list str);
  rt_auth : option route_auth;
}.

Definition text_value (o : option str) : jsval := match o with Some s => VString s | None => VUndefined end.
Definition field (entries : list (str * jsval)) (k : str) : jsval := default VUndefined (obj_get k entries).

(** The value is an object with these fields; a missing field is undefined. *)
Definition represents_auth (v : jsval) (a : option route_auth) : Prop :=
  match a with
  | None => v = VUndefined
  | Some a => exists entries, v = VObject entries /\ field entries (js "type") = text_value (ra_type a) /\
                field entries (js "name") = text_value (ra_name a) /\ field entries (js "value") = text_value (ra_value a)
  end.
Definition represents (v : jsval) (r : route) : Prop :=
  exists entries, v = VObject entries /\
    field entries (js "incoming_path") = text_value (rt_incoming r) /\
    field entries (js "upstream_path") = text_value (rt_upstream r) /\
    field entries (js "converter") = text_value (rt_converter r) /\
    field entries (js "models") = match rt_models r with Some l => VArray (map VString l) | None => VUndefined end /\
    represents_auth (field entries (js "auth")) (rt_auth r).
Definition represents_config (v : jsval) (rs : list route) : Prop :=
  exists entries routes, v = VObject entries /\ field entries (js "advanced_routes") = VArray routes /\ Forall2 represents routes rs.

(** ** Normal routes *)

Record normal_auth := NormalAuth { na_type : option str; na_name : str; na_value : str }.
Record normal_route := NormalRoute {
  nr_incoming : str;
  nr_upstream : str;
  nr_converter : str;
  nr_models : list str;
  nr_auth : option normal_auth;
}.

Definition route_text_or (o : option str) (fallback : str) : str := match o with Some ((_ :: _) as s) => s | _ => fallback end.
Definition kept_models (l : list str) : list str := List.filter (fun t => bool_decide (t <> [])) (map trim l).

Definition normal (r : route) : normal_route :=
  NormalRoute (route_text_or (rt_incoming r) []) (trim (route_text_or (rt_upstream r) [])) (route_text_or (rt_converter r) (js "none"))
    (kept_models (default [] (rt_models r)))
    ((fun a => NormalAuth (ra_type a) (route_text_or (ra_name a) []) (route_text_or (ra_value a) [])) <$> rt_auth r).

Definition auth_object (a : normal_auth) : jsval :=
  VObject [(js "type", text_value (na_type a)); (js "name", VString (na_name a)); (js "value", VString (na_value a))].
Definition route_object (n : normal_route) : jsval :=
  VObject ([(js "incoming_path", VString (nr_incoming n)); (js "upstream_path", VString (nr_upstream n));
            (js "converter", VString (nr_converter n))] ++
           match nr_models n with [] => [] | _ => [(js "models", VArray (map VString (nr_models n)))] end ++
           match nr_auth n with Some a => [(js "auth", auth_object a)] | None => [] end).

Lemma get_field entries k : get_prop (VObject entries) k = Ok (field entries k).
Proof. done. Qed.

Lemma or_text_value o s : or_value (text_value o) (VString s) = VString (route_text_or o s).
Proof. by destruct o as [[|c o]|]. Qed.

Lemma trim_values l : mapM trim_value (map VString l) = Ok (map trim l).
Proof. induction l as [|s l IH]; [done|]. cbn [map mapM trim_value]. by rewrite IH. Qed.

Lemma models_normal o : normalizeAdvancedCustomRouteModels match o with Some l => VArray (map VString l) | None => VUndefined end =
  Ok (kept_models (default [] o)).
Proof. destruct o as [l|]; [|done]. cbn [normalizeAdvancedCustomRouteModels]. by rewrite trim_values. Qed.

Lemma normalize_route v r : represents v r -> normalizeAdvancedCustomRoute v = Ok (route_object (normal r)).
Proof.
  intros (entries & -> & Hi & Hu & Hc & Hm & Ha). unfold normalizeAdvancedCustomRoute, getAdvancedCustomRouteUpstreamPath.
  rewrite !get_field, Hi, Hu, Hc, Hm. cbn [mbind result_bind]. rewrite !or_text_value. cbn [trim_value mbind result_bind].
  rewrite models_normal. cbn [mbind result_bind]. destruct r as [i u c m [a|]]; cbn [rt_incoming rt_upstream rt_converter rt_models rt_auth] in *.
  - destruct Ha as (es & -> & Ht & Hn & Hv). cbn [truthy]. rewrite !get_field, Ht, Hn, Hv. cbn [mbind result_bind]. by rewrite !or_text_value.
  - by rewrite Ha.
Qed.

Lemma mapM_Forall2 {A B} (f : A -> result exn B) (g : A -> B) l : Forall (fun x => f x = Ok (g x)) l -> mapM f l = Ok (map g l).
Proof. induction 1 as [|x l Hx _ IH]; [done|]. cbn [mapM map]. by rewrite Hx, IH. Qed.

Lemma normalize_routes vs rs : Forall2 represents vs rs -> mapM normalizeAdvancedCustomRoute vs = Ok (map route_object (map normal rs)).
Proof. induction 1 as [|v r vs rs Hv _ IH]; [done|]. cbn [mapM map]. by rewrite (normalize_route v r Hv), IH. Qed.

Lemma config_normal v rs : represents_config v rs -> normal_routes v = Ok (map route_object (map normal rs)).
Proof.
  intros (entries & routes & -> & Hr & H). unfold normal_routes. rewrite get_field, Hr. cbn [mbind result_bind]. by apply normalize_routes.
Qed.

(** A normal route is typed. *)
Definition as_route (n : normal_route) : route :=
  Route (Some (nr_incoming n)) (Some (nr_upstream n)) (Some (nr_converter n))
    match nr_models n with [] => None | l => Some l end
    ((fun a => RouteAuth (na_type a) (Some (na_name a)) (Some (na_value a))) <$> nr_auth n).

Lemma object_represents n : represents (route_object n) (as_route n).
Proof.
  eexists. split; [reflexivity|]. destruct n as [i u c [|m ms] [[t nm vl]|]]; repeat split; try reflexivity.
  - eexists. split; [reflexivity|]. by repeat split.
  - eexists. split; [reflexivity|]. by repeat split.
Qed.

Lemma objects_represent ns : represents_config (config_value (map route_object ns)) (map as_route ns).
Proof.
  eexists _, _. split; [reflexivity|]. split; [reflexivity|]. induction ns as [|n ns IH]; [constructor|].
  cbn [map]. constructor; [apply object_represents|done].
Qed.

Lemma kept_idemp l : kept_models (kept_models l) = kept_models l.
Proof.
  unfold kept_models. induction l as [|s l IH]; [done|]. cbn [map List.filter]. destruct (bool_decide (trim s <> [])) eqn:E; [|done].
  cbn [map List.filter]. by rewrite trim_idemp, E, IH.
Qed.

Lemma text_or_idemp o s : route_text_or (Some (route_text_or o s)) s = route_text_or o s.
Proof. destruct o as [[|c o]|]; by destruct s. Qed.

Lemma normal_idemp r : normal (as_route (normal r)) = normal r.
Proof.
  unfold normal, as_route. cbn [rt_incoming rt_upstream rt_converter rt_models rt_auth nr_incoming nr_upstream nr_converter nr_models nr_auth].
  f_equal.
  - apply text_or_idemp.
  - rewrite <- (trim_idemp (route_text_or (rt_upstream r) [])) at 2. by destruct (trim (route_text_or (rt_upstream r) [])).
  - apply text_or_idemp.
  - destruct (kept_models (default [] (rt_models r))) eqn:E; [done|]. cbn [default from_option id]. rewrite <- E. apply kept_idemp.
  - destruct (rt_auth r) as [[t [[|c nm]|] [[|d vl]|]]|]; done.
Qed.

(** * Saving and loading *)

Definition utf16_opt (o : option str) : Prop := match o with Some s => utf16 s | None => True end.
Definition utf16_route (r : route) : Prop :=
  utf16_opt (rt_incoming r) /\ utf16_opt (rt_upstream r) /\ utf16_opt (rt_converter r) /\ Forall utf16 (default [] (rt_models r)) /\
  match rt_auth r with Some a => utf16_opt (ra_type a) /\ utf16_opt (ra_name a) /\ utf16_opt (ra_value a) | None => True end.

(** The text of an authentication does not show an undefined type. *)
Definition auth_text_object (a : normal_auth) : jsval :=
  VObject (match na_type a with Some t => [(js "type", VString t)] | None => [] end ++
           [(js "name", VString (na_name a)); (js "value", VString (na_value a))]).
Definition route_text_object (n : normal_route) : jsval :=
  VObject ([(js "incoming_path", VString (nr_incoming n)); (js "upstream_path", VString (nr_upstream n));
            (js "converter", VString (nr_converter n))] ++
           match nr_models n with [] => [] | _ => [(js "models", VArray (map VString (nr_models n)))] end ++
           match nr_auth n with Some a => [(js "auth", auth_text_object a)] | None => [] end).

Lemma route_text gap indent n : JSON_print gap indent (route_object n) = JSON_print gap indent (route_text_object n).
Proof. destruct n as [i u c [|m ms] [[[t|] nm vl]|]]; reflexivity. Qed.

Lemma advanced_config_text ns : JSON_stringify_indented (config_value (map route_object ns)) = JSON_stringify_indented (config_value (map route_text_object ns)).
Proof.
  unfold JSON_stringify_indented, config_value. cbn [JSON_print]. do 5 f_equal. rewrite !map_map. apply map_ext. intros n. apply route_text.
Qed.

Lemma text_object_represents n : represents (route_text_object n) (as_route n).
Proof.
  eexists. split; [reflexivity|]. destruct n as [i u c [|m ms] [[[t|] nm vl]|]]; repeat split; try reflexivity.
  all: eexists; (split; [reflexivity|by repeat split]).
Qed.

Lemma text_objects_represent ns : represents_config (config_value (map route_text_object ns)) (map as_route ns).
Proof.
  eexists _, _. split; [reflexivity|]. split; [reflexivity|]. induction ns as [|n ns IH]; [constructor|].
  cbn [map]. constructor; [apply text_object_represents|done].
Qed.

Lemma utf16_infix a s b : utf16 (a ++ s ++ b) -> utf16 s.
Proof. unfold utf16. by intros (_ & H & _)%Forall_app%(fun x => conj (proj1 x) (proj1 (Forall_app _ _ _) (proj2 x))). Qed.
Lemma utf16_trim s : utf16 s -> utf16 (trim s).
Proof. intros H. destruct (trim_infix s) as (a & b & E). rewrite E in H. by eapply utf16_infix. Qed.
Lemma utf16_or o s : utf16_opt o -> utf16 s -> utf16 (route_text_or o s).
Proof. by destruct o as [[|c o]|]. Qed.
Lemma utf16_js s : forallb (fun c => c <? 65536)%N (js s) = true -> utf16 (js s).
Proof. intros H. apply Forall_forall. intros c Hc. rewrite forallb_forall in H. apply N.ltb_lt, H. by apply list_elem_of_In. Qed.

Lemma route_textual r : utf16_route r -> textual (route_text_object (normal r)).
Proof.
  intros (Hi & Hu & Hc & Hm & Ha). unfold route_text_object, normal. cbn [nr_incoming nr_upstream nr_converter nr_models nr_auth].
  set (models := kept_models _).
  assert (Forall utf16 models) as Hk.
  { unfold models, kept_models. apply Forall_forall. intros m Hm'. apply list_elem_of_In, filter_In in Hm' as [Hm' _].
    apply in_map_iff in Hm' as (x & <- & Hx). rewrite Forall_forall in Hm. apply utf16_trim, Hm. by apply list_elem_of_In. }
  assert (forall o, utf16_opt o -> utf16 (route_text_or o [])) as Ho by (intros o H; apply utf16_or; [done|constructor]).
  assert (textual (VArray (map VString models))) as Ht.
  { apply textual_array, Forall_map. by eapply Forall_impl; [exact Hk|]. }
  apply textual_object. split.
  - destruct models, (rt_auth r); apply (bool_decide_unpack _); vm_compute; exact I.
  - apply Forall_app. split.
    { rewrite !Forall_cons. cbn [fst snd textual]. repeat split; try (apply utf16_js; reflexivity); [by apply Ho|by apply utf16_trim, Ho| |constructor].
      apply utf16_or; [done|by apply utf16_js]. }
    apply Forall_app. split.
    { destruct models; [constructor|]. constructor; [|constructor]. split; [by apply utf16_js|done]. }
    destruct (rt_auth r) as [a|]; cbn [fmap option_fmap option_map]; [|constructor].
    apply Forall_cons; split; [|constructor]. split; [by apply utf16_js|]. cbn [snd].
    destruct Ha as (H1 & H2 & H3). apply textual_object. cbn [na_type na_name na_value]. split.
    { destruct (ra_type a); apply (bool_decide_unpack _); vm_compute; exact I. }
    apply Forall_app. split.
    { destruct (ra_type a); [|constructor]. constructor; [|constructor]. split; [by apply utf16_js|done]. }
    rewrite !Forall_cons. cbn [fst snd textual]. repeat split; try (apply utf16_js; reflexivity); [by apply Ho|by apply Ho|constructor].
Qed.

Lemma drop_while_nil {A} (p : A -> bool) l : drop_while p l = [] -> Forall (fun x => p x = true) l.
Proof. induction l as [|x l IH]; cbn; [constructor|]. destruct (p x) eqn:E; [|done]. intros H. constructor; auto. Qed.

Lemma trim_head c r : is_space c = false -> trim (c :: r) <> [].
Proof.
  intros Hc H. unfold trim, trim_start in H. cbn [drop_while] in H. rewrite Hc in H. unfold trim_end in H.
  apply (f_equal reverse) in H. rewrite reverse_involutive in H. apply drop_while_nil in H.
  rewrite reverse_cons in H. apply Forall_app in H as [_ H]. apply Forall_cons in H as [H _]. congruence.
Qed.

(** C29: A saved configuration is read back. For typed routes normalising succeeds and changes nothing
    the second time; the text that is saved is read as the normal form of the configuration, and so
    is the text of that. *)
Theorem config_round_trip v rs : represents_config v rs -> Forall utf16_route rs ->
  exists config text,
    normalizeAdvancedCustomConfig v = Ok config /\ normalizeAdvancedCustomConfig config = Ok config /\
    stringifyAdvancedCustomConfig v = Ok text /\ stringifyAdvancedCustomConfig config = Ok text /\
    parseAdvancedCustomConfig (Some text) = Some config.
Proof.
  intros Hv Hu. set (ns := map normal rs). pose proof (config_normal v rs Hv) as Hn. fold ns in Hn.
  assert (map normal (map as_route ns) = ns) as Hi.
  { unfold ns. rewrite !map_map. apply map_ext. intros r. apply normal_idemp. }
  pose proof (config_normal _ _ (objects_represent ns)) as Hn2. rewrite Hi in Hn2.
  pose proof (config_normal _ _ (text_objects_represent ns)) as Hn3. rewrite Hi in Hn3.
  exists (config_value (map route_object ns)), (JSON_stringify_indented (config_value (map route_object ns))).
  unfold stringifyAdvancedCustomConfig, normalizeAdvancedCustomConfig. rewrite Hn, Hn2. cbn [mbind result_bind].
  do 4 (split; [done|]). rewrite advanced_config_text.
  assert (textual (config_value (map route_text_object ns))) as Ht.
  { apply textual_object. split; [apply NoDup_singleton|]. rewrite Forall_cons. split; [split; [by apply utf16_js|]|constructor]. cbn [snd].
    apply textual_array. unfold ns. rewrite map_map. apply Forall_map. eapply Forall_impl; [exact Hu|]. apply route_textual. }
  pose proof (indented_round_trip _ Ht) as Hp. unfold parseAdvancedCustomConfig. rewrite Hp. cbn [mbind result_bind config_value].
  change (VObject [(js "advanced_routes", VArray (map route_text_object ns))]) with (config_value (map route_text_object ns)).
  unfold normalizeAdvancedCustomConfig. rewrite Hn3. cbn [mbind result_bind].
  destruct (trim (JSON_stringify_indented (config_value (map route_text_object ns)))) eqn:E; [|done]. exfalso. revert E. apply trim_head. done.
Qed.

(** * Validation *)

Section valid.
Context {urls : UrlParser}.

Definition path_of (n : normal_route) : str := trim (nr_incoming n).

Definition auth_ok (a : option normal_auth) : Prop :=
  match a with
  | None => True
  | Some a => na_type a = Some (js "none") \/
              (na_type a = Some (js "header") \/ na_type a = Some (js "query")) /\ trim (na_name a) <> [] /\ trim (na_value a) <> []
  end.

Definition route_ok (n : normal_route) : Prop :=
  starts_with (path_of n) (js "/") = true /\ includes (path_of n) (js "?") = false /\
  (isAdvancedCustomManagementPath (path_of n) = true ->
     nr_models n = [] /\ nr_converter n = js "none" /\ includes (nr_upstream n) (js "{model}") = false) /\
  NoDup (nr_models n) /\ (ADVANCED_CUSTOM_MODEL_REGEX_PREFIX ∉ nr_models n) /\
  nr_upstream n <> [] /\ isFullHttpURLOrAbsolutePath (nr_upstream n) = true /\
  (exists c, nr_converter n = converter_name c /\ isConverterPathAllowed (path_of n) c = true) /\
  auth_ok (nr_auth n).

(** An earlier route of the same path leaves the later one reachable: it is not the route for all
    models, and they share no model. *)
Definition apart (earlier later : normal_route) : Prop :=
  path_of earlier = path_of later -> nr_models earlier <> [] /\ forall m, m ∈ nr_models earlier -> m ∉ nr_models later.

(** Every route is correct, and apart from the routes before it. *)
Inductive routes_ok : list normal_route -> Prop :=
| Routes_none : routes_ok []
| Routes_snoc ns n : routes_ok ns -> route_ok n -> Forall (fun m => apart m n) ns -> routes_ok (ns ++ [n]).

(** ** Models *)

Lemma regex_empty m : getAdvancedCustomModelRuleKind m = Rule_regex /\ getAdvancedCustomRegexModelPattern m = [] <-> m = ADVANCED_CUSTOM_MODEL_REGEX_PREFIX.
Proof.
  unfold getAdvancedCustomModelRuleKind, getAdvancedCustomRegexModelPattern. split; [|by intros ->].
  unfold ADVANCED_CUSTOM_MODEL_REGEX_PREFIX. change (js "re:") with [114; 101; 58]%N.
  destruct m as [|a [|b [|c m]]]; cbn [starts_with drop length]; rewrite ?andb_false_r; try by intros [? ?].
  intros [H E]. rewrite drop_0 in E. subst m. destruct (N.eqb_spec 114 a) as [<-|]; [|done]. destruct (N.eqb_spec 101 b) as [<-|]; [|done].
  by destruct (N.eqb_spec 58 c) as [->|].
Qed.

Lemma add_models_spec i models seen state : (forall m, m ∈ seen -> is_Some (obj_get m state)) ->
  match add_models i models seen state with
  | inr state' => NoDup models /\ (ADVANCED_CUSTOM_MODEL_REGEX_PREFIX ∉ models) /\ (forall m, m ∈ models -> obj_get m state = None) /\
                  (forall m, is_Some (obj_get m state') <-> is_Some (obj_get m state) \/ m ∈ models)
  | inl _ => ~ (NoDup models /\ (ADVANCED_CUSTOM_MODEL_REGEX_PREFIX ∉ models) /\ (forall m, m ∈ models -> obj_get m state = None))
  end.
Proof.
  revert seen state. induction models as [|m models IH]; intros seen state Hseen; cbn [add_models].
  - split; [constructor|]. split; [by apply not_elem_of_nil|]. split; [by intros m ?%not_elem_of_nil|].
    intros m. split; [by left|]. by intros [H|H%not_elem_of_nil].
  - pose proof (regex_empty m) as Hr.
    assert (forall r, (if bool_decide (m ∈ seen) then inl (js "Duplicate model in route models")
          else match obj_get m state with
               | Some _ => inl (js "Route models must be unique for the same incoming path")
               | None => add_models i models (seen ++ [m]) (obj_set m i state)
               end) = r -> m <> ADVANCED_CUSTOM_MODEL_REGEX_PREFIX ->
        match r with
        | inr state' => NoDup (m :: models) /\ (ADVANCED_CUSTOM_MODEL_REGEX_PREFIX ∉ m :: models) /\
                        (forall m', m' ∈ m :: models -> obj_get m' state = None) /\
                        (forall m', is_Some (obj_get m' state') <-> is_Some (obj_get m' state) \/ m' ∈ m :: models)
        | inl _ => ~ (NoDup (m :: models) /\ (ADVANCED_CUSTOM_MODEL_REGEX_PREFIX ∉ m :: models) /\
                      (forall m', m' ∈ m :: models -> obj_get m' state = None))
        end) as Hrest.
    { intros r <- Hm. case_bool_decide as Hs.
      { intros (_ & _ & H). destruct (Hseen m Hs) as [x Hx]. rewrite H in Hx; [done|left]. }
      destruct (obj_get m state) as [x|] eqn:E.
      { intros (_ & _ & H). rewrite H in E; [done|left]. }
      specialize (IH (seen ++ [m]) (obj_set m i state)).
      assert (forall m', obj_get m' (obj_set m i state) = if bool_decide (m' = m) then Some i else obj_get m' state) as Hg
        by (intros m'; apply obj_get_set).
      destruct (add_models i models (seen ++ [m]) (obj_set m i state)) as [msg|state'].
      - intros (Hn & Hp & Ha). apply NoDup_cons in Hn as [Hnot Hn]. apply IH.
        + intros m' [H|H%list_elem_of_singleton]%elem_of_app; rewrite Hg; case_bool_decide; [by eexists|by apply Hseen|by eexists|done].
        + split; [done|]. split; [set_solver|]. intros m' Hm'. rewrite Hg, bool_decide_eq_false_2; [apply Ha; by right|]. by intros ->.
      - destruct IH as (Hn & Hp & Ha & Hi).
        { intros m' [H|H%list_elem_of_singleton]%elem_of_app; rewrite Hg; case_bool_decide; [by eexists|by apply Hseen|by eexists|done]. }
        assert (m ∉ models) as Hnot.
        { intros H. specialize (Ha m H). rewrite Hg, bool_decide_eq_true_2 in Ha by done. done. }
        split; [by apply NoDup_cons|]. split; [set_solver|]. split.
        + intros m' [->|Hm']%elem_of_cons; [done|]. specialize (Ha m' Hm'). rewrite Hg in Ha. by case_bool_decide.
        + intros m'. rewrite Hi, Hg, elem_of_cons. case_bool_decide; [subst; split; [by right; left|by left; eexists]|]. naive_solver. }
    destruct (getAdvancedCustomModelRuleKind m) eqn:Ek; [|destruct (getAdvancedCustomRegexModelPattern m) eqn:Ep].
    + apply Hrest; [done|]. intros ->. destruct Hr as [_ [H _]]; done.
    + intros (_ & H & _). apply H. rewrite (proj1 Hr) by done. left.
    + apply Hrest; [done|]. intros ->. destruct Hr as [_ [_ H]]; [done|]. congruence.
Qed.

(** ** The state of the loop *)

Definition path_entry (p : str) (st : validation_state) : path_state := default (PathState None []) (obj_get p (vs_byPath st)).

Record tracks (pre : list normal_route) (st : validation_state) : Prop := Tracks {
  tracks_catch : forall p, ps_catchAllIndex (path_entry p st) = None <-> forall a, a ∈ pre -> path_of a = p -> nr_models a <> [];
  tracks_models : forall p m, is_Some (obj_get m (ps_models (path_entry p st))) <-> exists a, a ∈ pre /\ path_of a = p /\ m ∈ nr_models a;
  tracks_list : vs_modelListIndex st = None <-> forall a, a ∈ pre -> path_of a <> ADVANCED_CUSTOM_MODEL_LIST_PATH;
  tracks_balance : vs_balanceIndex st = None <-> forall a, a ∈ pre -> path_of a <> ADVANCED_CUSTOM_BALANCE_PATH;
}.

Lemma tracks_start : tracks [] (ValidationState [] None None).
Proof.
  split.
  - intros p. split; [by intros _ a ?%not_elem_of_nil|done].
  - intros p m. split; [by intros []|by intros (a & ?%not_elem_of_nil & _)].
  - split; [by intros _ a ?%not_elem_of_nil|done].
  - split; [by intros _ a ?%not_elem_of_nil|done].
Qed.

Lemma apart_state pre st n : tracks pre st ->
  Forall (fun a => apart a n) pre <->
  ps_catchAllIndex (path_entry (path_of n) st) = None /\
  forall m, m ∈ nr_models n -> obj_get m (ps_models (path_entry (path_of n) st)) = None.
Proof.
  intros [Hc Hm _ _]. rewrite Forall_forall, Hc. split.
  - intros H. split; [intros a Ha E; by apply (H a Ha E)|]. intros m Hn. apply eq_None_not_Some. rewrite Hm.
    intros (a & Ha & E & Hma). destruct (H a Ha E) as [_ Hd]. by apply (Hd m).
  - intros [H1 H2] a Ha E. split; [by apply H1|]. intros m Hma Hmn. specialize (H2 m Hmn). apply eq_None_not_Some in H2. apply H2, Hm. eauto.
Qed.

Lemma models_step pre st i n : tracks pre st ->
  match validateAdvancedCustomRouteModels i (nr_models n) (path_entry (path_of n) st) with
  | inl _ => ~ (NoDup (nr_models n) /\ (ADVANCED_CUSTOM_MODEL_REGEX_PREFIX ∉ nr_models n) /\ Forall (fun a => apart a n) pre)
  | inr s => NoDup (nr_models n) /\ (ADVANCED_CUSTOM_MODEL_REGEX_PREFIX ∉ nr_models n) /\ Forall (fun a => apart a n) pre /\
      (ps_catchAllIndex s = None <-> ps_catchAllIndex (path_entry (path_of n) st) = None /\ nr_models n <> []) /\
      forall m, is_Some (obj_get m (ps_models s)) <-> is_Some (obj_get m (ps_models (path_entry (path_of n) st))) \/ m ∈ nr_models n
  end.
Proof.
  intros Ht. pose proof (apart_state pre st n Ht) as Hap. set (s := path_entry (path_of n) st) in *. unfold validateAdvancedCustomRouteModels.
  destruct (nr_models n) as [|m ms] eqn:En, (ps_catchAllIndex s) as [c|] eqn:Ec.
  - by intros (_ & _ & [H _]%Hap).
  - cbn [ps_catchAllIndex ps_models]. split; [constructor|]. split; [by apply not_elem_of_nil|]. split.
    { apply Hap. split; [done|]. by intros m ?%not_elem_of_nil. }
    split; [split; [done|by intros []]|]. intros m. split; [by left|]. by intros [H|H%not_elem_of_nil].
  - by intros (_ & _ & [H _]%Hap).
  - pose proof (add_models_spec i (m :: ms) [] (ps_models s)) as Ha.
    destruct (add_models i (m :: ms) [] (ps_models s)) as [msg|states].
    + intros (H1 & H2 & [_ H3]%Hap). apply Ha; [by intros x ?%not_elem_of_nil|done].
    + destruct Ha as (H1 & H2 & H3 & H4); [by intros x ?%not_elem_of_nil|]. cbn [ps_catchAllIndex ps_models].
      split; [done|]. split; [done|]. split; [by apply Hap|]. split; [|done]. split; [done|by intros _].
Qed.

Lemma auth_check a : exists r,
  validateRouteAuth match a with Some a => auth_object a | None => VUndefined end = Ok r /\ (r = None <-> auth_ok a).
Proof.
  destruct a as [[t nm vl]|]; [|by exists None]. unfold validateRouteAuth, auth_object. cbn [truthy negb]. rewrite !get_field.
  change (field _ (js "type")) with (text_value t). change (field _ (js "name")) with (VString nm). change (field _ (js "value")) with (VString vl).
  cbn [mbind result_bind trimmed_or_empty is_nullish trim_value]. unfold auth_ok. cbn [na_type na_name na_value].
  assert (forall s, equals_text (text_value t) s = bool_decide (t = Some s)) as Ht.
  { intros s. destruct t as [u|]; cbn [text_value equals_text]; [apply bool_decide_ext; naive_solver|]. by rewrite bool_decide_eq_false_2. }
  rewrite !Ht. case_bool_decide as E1; [exists None; split; [done|]; split; [by left|done]|].
  destruct (negb (bool_decide (t = Some (js "header"))) && negb (bool_decide (t = Some (js "query")))) eqn:E2.
  { apply andb_true_iff in E2 as [H1 H2]. rewrite negb_true_iff, bool_decide_eq_false in H1, H2.
    eexists. split; [done|]. split; [done|]. intros [?|[[?|?] _]]; tauto. }
  apply andb_false_iff in E2. rewrite !negb_false_iff, !bool_decide_eq_true in E2.
  case_bool_decide as E3; [eexists; split; [done|]; split; [done|]; intros [?|(_ & ? & _)]; done|].
  case_bool_decide as E4; [eexists; split; [done|]; split; [done|]; intros [?|(_ & _ & ?)]; done|].
  exists None. split; [done|]. split; [|done]. intros _. by right.
Qed.

Lemma converter_found s : match find_converter (VString s) with
  | Some c => s = converter_name c
  | None => forall c, s <> converter_name c
  end.
Proof.
  unfold find_converter. destruct (List.find _ _) as [o|] eqn:E; cbn [fmap option_fmap option_map].
  - apply find_some in E as [_ E]. by apply bool_decide_eq_true in E.
  - intros c ->. pose proof (find_none _ _ E) as H. 
    assert (c ∈ map co_value ADVANCED_CUSTOM_CONVERTER_OPTIONS) as (o & -> & Ho)%list_elem_of_fmap
      by (destruct c; apply (bool_decide_unpack _); vm_compute; exact I).
    apply list_elem_of_In in Ho. specialize (H o Ho). by rewrite bool_decide_eq_true_2 in H.
Qed.

Lemma converter_name_inj c c' : converter_name c = converter_name c' -> c = c'.
Proof. destruct c, c'; intros H; try done; vm_compute in H; discriminate. Qed.

(** ** One turn of the loop *)

Definition is_normal (n : normal_route) : Prop := normal (as_route n) = n.

Lemma upstream_of n : is_normal n -> getAdvancedCustomRouteUpstreamPath (route_object n) = Ok (nr_upstream n).
Proof.
  intros Hn. unfold getAdvancedCustomRouteUpstreamPath. change (get_prop (route_object n) (js "upstream_path")) with (@Ok exn _ (VString (nr_upstream n))).
  cbn [mbind result_bind]. change (VString (nr_upstream n)) with (text_value (Some (nr_upstream n))). rewrite or_text_value. cbn [trim_value].
  f_equal. exact (f_equal nr_upstream Hn).
Qed.

Lemma converter_of n : is_normal n -> or_value (VString (nr_converter n)) (VString (js "none")) = VString (nr_converter n).
Proof.
  intros Hn. change (VString (nr_converter n)) with (text_value (Some (nr_converter n))) at 1. rewrite or_text_value. f_equal.
  exact (f_equal nr_converter Hn).
Qed.

Lemma models_of n : is_normal n -> exists v, get_prop (route_object n) (js "models") = Ok v /\ normalizeAdvancedCustomRouteModels v = Ok (nr_models n).
Proof.
  intros Hn. exists match nr_models n with [] => VUndefined | l => VArray (map VString l) end. split.
  - destruct n as [i u c [|m ms] [a|]]; reflexivity.
  - pose proof (f_equal nr_models Hn) as Hm. cbn [normal as_route nr_models rt_models] in Hm.
    destruct (nr_models n) as [|m ms]; [done|]. cbn [normalizeAdvancedCustomRouteModels]. rewrite trim_values.
    cbn [mbind result_bind]. by rewrite <- Hm at 2.
Qed.

Lemma auth_of n : get_prop (route_object n) (js "auth") = Ok match nr_auth n with Some a => auth_object a | None => VUndefined end.
Proof. destruct n as [i u c [|m ms] [a|]]; reflexivity. Qed.

Lemma management_paths p : isAdvancedCustomManagementPath p = true -> p = ADVANCED_CUSTOM_MODEL_LIST_PATH \/ p = ADVANCED_CUSTOM_BALANCE_PATH.
Proof. unfold isAdvancedCustomManagementPath. intros [H|H]%orb_true_iff; breflect; auto. Qed.

Lemma routes_ok_all ns n : routes_ok ns -> n ∈ ns -> route_ok n.
Proof.
  induction 1 as [|ns m Hns IH Hm _]; [by intros ?%not_elem_of_nil|]. intros [H|H%list_elem_of_singleton]%elem_of_app; [auto|by subst].
Qed.

(** The checks of a management route in the state. *)
Lemma management_step pre st n : tracks pre st -> routes_ok pre -> isAdvancedCustomManagementPath (path_of n) = true ->
  match validate_management (path_of n) (nr_upstream n) (VString (nr_converter n)) (nr_models n) st with
  | Some _ => ~ (route_ok n /\ Forall (fun a => apart a n) pre)
  | None => nr_models n = [] /\ nr_converter n = js "none" /\ includes (nr_upstream n) (js "{model}") = false
  end.
Proof.
  intros Ht Hpre Hp. unfold validate_management.
  set (index := if bool_decide (path_of n = ADVANCED_CUSTOM_MODEL_LIST_PATH) then vs_modelListIndex st else vs_balanceIndex st).
  assert (index = None <-> forall a, a ∈ pre -> path_of a <> path_of n) as Hi.
  { unfold index. case_bool_decide as E; [rewrite E; apply (tracks_list _ _ Ht)|].
    destruct (management_paths _ Hp) as [|E2]; [done|]. rewrite E2. apply (tracks_balance _ _ Ht). }
  destruct index as [x|].
  - intros [_ Hap]. assert (Some x = None) as H; [|done]. apply Hi. intros a Ha E. rewrite Forall_forall in Hap.
    destruct (Hap a Ha E) as [Hm _]. apply Hm. destruct (routes_ok_all pre a Hpre Ha) as (_ & _ & Hman & _). rewrite E in Hman.
    by apply Hman.
  - destruct (negb (bool_decide (nr_models n = []))) eqn:E1; [intros [(_ & _ & H & _) _]; breflect; by destruct (H Hp)|].
    destruct (negb (equals_text (VString (nr_converter n)) (js "none"))) eqn:E2.
    { cbn [equals_text] in E2. intros [(_ & _ & H & _) _]. breflect. by destruct (H Hp) as (_ & ? & _). }
    destruct (includes (nr_upstream n) (js "{model}")) eqn:E3.
    { intros [(_ & _ & H & _) _]. destruct (H Hp) as (_ & _ & ?). congruence. }
    cbn [equals_text] in E2. by breflect.
Qed.
Definition marked (i : nat) (n : normal_route) (st : validation_state) : validation_state :=
  if isAdvancedCustomManagementPath (path_of n) then mark_management (path_of n) i st else st.

Lemma marked_byPath i n st : vs_byPath (marked i n st) = vs_byPath st.
Proof. unfold marked, mark_management. destruct (isAdvancedCustomManagementPath _); [|done]. by case_bool_decide. Qed.

Lemma marked_index i n st :
  (vs_modelListIndex (marked i n st) = None <-> vs_modelListIndex st = None /\ path_of n <> ADVANCED_CUSTOM_MODEL_LIST_PATH) /\
  (vs_balanceIndex (marked i n st) = None <-> vs_balanceIndex st = None /\ path_of n <> ADVANCED_CUSTOM_BALANCE_PATH).
Proof.
  unfold marked, mark_management, isAdvancedCustomManagementPath.
  destruct (bool_decide_reflect (path_of n = ADVANCED_CUSTOM_MODEL_LIST_PATH)) as [E|E]; cbn [orb vs_modelListIndex vs_balanceIndex].
  - assert (path_of n <> ADVANCED_CUSTOM_BALANCE_PATH) by (rewrite E; intros H; vm_compute in H; discriminate).
    split; [split; [done|by intros [_ ?]]|tauto].
  - case_bool_decide; cbn [vs_modelListIndex vs_balanceIndex]; [|tauto]. split; [tauto|]. split; [done|by intros [_ ?]].
Qed.

Lemma tracks_step pre st i n s : tracks pre st ->
  (ps_catchAllIndex s = None <-> ps_catchAllIndex (path_entry (path_of n) st) = None /\ nr_models n <> []) ->
  (forall m, is_Some (obj_get m (ps_models s)) <-> is_Some (obj_get m (ps_models (path_entry (path_of n) st))) \/ m ∈ nr_models n) ->
  tracks (pre ++ [n])
    (ValidationState (obj_set (path_of n) s (vs_byPath (marked i n st))) (vs_modelListIndex (marked i n st)) (vs_balanceIndex (marked i n st))).
Proof.
  intros [Hc Hm Hl Hb] Hs1 Hs2. destruct (marked_index i n st) as [Hml Hmb].
  assert (forall p, path_entry p (ValidationState (obj_set (path_of n) s (vs_byPath (marked i n st))) (vs_modelListIndex (marked i n st))
            (vs_balanceIndex (marked i n st))) = if bool_decide (p = path_of n) then s else path_entry p st) as Hp.
  { intros p. unfold path_entry. cbn [vs_byPath]. rewrite marked_byPath, obj_get_set. by case_bool_decide. }
  assert (forall (Q : normal_route -> Prop), (forall a, a ∈ pre ++ [n] -> Q a) <-> (forall a, a ∈ pre -> Q a) /\ Q n) as Hall.
  { intros Q. setoid_rewrite elem_of_app. setoid_rewrite list_elem_of_singleton. naive_solver. }
  split; cbn [vs_modelListIndex vs_balanceIndex].
  - intros p. rewrite Hp, Hall. case_bool_decide as E; [subst p; rewrite Hs1, Hc; naive_solver|]. rewrite Hc. split; [|naive_solver].
    intros H. split; [done|]. intros E'. by subst.
  - intros p m. rewrite Hp. setoid_rewrite elem_of_app. setoid_rewrite list_elem_of_singleton.
    case_bool_decide as E; [subst p; rewrite Hs2, Hm; naive_solver|]. rewrite Hm. naive_solver.
  - rewrite Hml, Hall, Hl. done.
  - rewrite Hmb, Hall, Hb. done.
Qed.

Lemma slash_not_empty p : starts_with p (js "/") = true -> p <> [].
Proof. by destruct p. Qed.

Lemma validate_step pre st i n : tracks pre st -> routes_ok pre -> is_normal n ->
  exists r, validate_route i (route_object n) st = Ok r /\
    match r with
    | inl _ => ~ (route_ok n /\ Forall (fun a => apart a n) pre)
    | inr st' => route_ok n /\ Forall (fun a => apart a n) pre /\ tracks (pre ++ [n]) st'
    end.
Proof.
  intros Ht Hpre Hn. unfold validate_route.
  change (incoming_text (route_object n)) with (@Ok exn _ (path_of n)). rewrite upstream_of by done.
  change (get_prop (route_object n) (js "converter")) with (@Ok exn _ (VString (nr_converter n))).
  destruct (models_of n Hn) as (v & -> & Hv). cbn [mbind result_bind]. rewrite converter_of by done. rewrite Hv. cbn [mbind result_bind].
  destruct (bool_decide (path_of n = [])) eqn:E0; breflect.
  { eexists. split; [done|]. intros [(H & _) _]. by apply slash_not_empty in H. }
  destruct (negb (starts_with (path_of n) (js "/"))) eqn:E1; [eexists; split; [done|]; intros [(H & _) _]; rewrite H in E1; done|].
  apply negb_false_iff in E1.
  destruct (includes (path_of n) (js "?")) eqn:E2; [eexists; split; [done|]; intros [(_ & H & _) _]; congruence|].
  pose proof (management_step pre st n Ht Hpre) as Hman.
  assert (exists r, (if isAdvancedCustomManagementPath (path_of n)
    then validate_management (path_of n) (nr_upstream n) (VString (nr_converter n)) (nr_models n) st else None) = r /\
    match r with
    | Some _ => ~ (route_ok n /\ Forall (fun a => apart a n) pre)
    | None => isAdvancedCustomManagementPath (path_of n) = true ->
                nr_models n = [] /\ nr_converter n = js "none" /\ includes (nr_upstream n) (js "{model}") = false
    end) as (r & -> & Hr).
  { eexists. split; [done|]. destruct (isAdvancedCustomManagementPath (path_of n)); [|done]. specialize (Hman eq_refl).
    by destruct (validate_management _ _ _ _ _). }
  destruct r as [msg|]; [by eexists|]. fold (marked i n st). rewrite marked_byPath. fold (path_entry (path_of n) st).
  pose proof (models_step pre st i n Ht) as Hms.
  destruct (validateAdvancedCustomRouteModels i (nr_models n) (path_entry (path_of n) st)) as [msg|s].
  { eexists. split; [done|]. intros [(_ & _ & _ & H1 & H2 & _) H3]. by apply Hms. }
  destruct Hms as (Hnd & Hpf & Hap & Hs1 & Hs2). rewrite <- (marked_byPath i n st).
  pose proof (tracks_step pre st i n s Ht Hs1 Hs2) as Hst.
  destruct (bool_decide (nr_upstream n = [])) eqn:E3; breflect.
  { eexists. split; [done|]. by intros [(_ & _ & _ & _ & _ & H & _) _]. }
  destruct (negb (isFullHttpURLOrAbsolutePath (nr_upstream n))) eqn:E4.
  { eexists. split; [done|]. intros [(_ & _ & _ & _ & _ & _ & H & _) _]. rewrite H in E4. done. }
  apply negb_false_iff in E4. pose proof (converter_found (nr_converter n)) as Hf.
  destruct (find_converter (VString (nr_converter n))) as [c|].
  2: { eexists. split; [done|]. intros [(_ & _ & _ & _ & _ & _ & _ & (c & H & _) & _) _]. by apply (Hf c). }
  destruct (negb (isConverterPathAllowed (path_of n) c)) eqn:E5.
  { eexists. split; [done|]. intros [(_ & _ & _ & _ & _ & _ & _ & (c' & H & Hc') & _) _]. rewrite Hf in H.
    apply converter_name_inj in H as <-. rewrite Hc' in E5. done. }
  apply negb_false_iff in E5. rewrite auth_of. cbn [mbind result_bind]. destruct (auth_check (nr_auth n)) as (ra & -> & Ha).
  cbn [mbind result_bind]. destruct ra as [msg|].
  { eexists. split; [done|]. intros [(_ & _ & _ & _ & _ & _ & _ & _ & H) _]. by apply Ha in H. }
  eexists. split; [done|]. split; [|done]. repeat split; try done; [by apply Hr..| |by apply Ha]. by exists c.
Qed.

Lemma routes_ok_snoc ns n : routes_ok (ns ++ [n]) <-> routes_ok ns /\ route_ok n /\ Forall (fun a => apart a n) ns.
Proof.
  split; [|intros (? & ? & ?); by constructor]. intros H. inversion H as [E|ms m H1 H2 H3 E]; [by destruct ns|].
  by apply app_inj_tail in E as [-> ->].
Qed.

Lemma routes_ok_prefix ns ms : routes_ok (ns ++ ms) -> routes_ok ns.
Proof.
  induction ms as [|m ms IH] using rev_ind; [by rewrite app_nil_r|]. rewrite app_assoc. intros [H _]%routes_ok_snoc. auto.
Qed.

Lemma validate_loop ns pre st : tracks pre st -> routes_ok pre -> Forall is_normal ns ->
  exists r, validate_routes (length pre) (map route_object ns) st = Ok r /\
    match r with
    | None => routes_ok (pre ++ ns)
    | Some e => exists i, ve_routeIndex e = Some (length pre + i) /\ i < length ns /\
                  routes_ok (pre ++ take i ns) /\ ~ routes_ok (pre ++ take (S i) ns)
    end.
Proof.
  revert pre st. induction ns as [|n ns IH]; intros pre st Ht Hpre Hn; [exists None; by rewrite app_nil_r|].
  apply Forall_cons in Hn as [Hn Hns]. cbn [map validate_routes].
  destruct (validate_step pre st (length pre) n Ht Hpre Hn) as (r & -> & Hr). cbn [mbind result_bind]. destruct r as [msg|st'].
  - eexists. split; [done|]. exists 0. cbn [ve_routeIndex length take]. rewrite Nat.add_0_r, app_nil_r. split; [done|]. split; [lia|]. split; [done|].
    rewrite take_0. by intros (_ & H)%routes_ok_snoc.
  - destruct Hr as (H1 & H2 & H3). destruct (IH (pre ++ [n]) st' H3) as (r & Hv & Hr); [by constructor|done|].
    rewrite length_app in Hv. cbn [length] in Hv. rewrite Nat.add_1_r in Hv. exists r. split; [done|].
    destruct r as [e|]; [|by rewrite <- app_assoc in Hr]. destruct Hr as (i & Ei & Hi & Hok & Hbad). exists (S i).
    rewrite length_app in Ei. cbn [length] in *. rewrite <- !app_assoc in *. split; [rewrite Ei; f_equal; lia|]. split; [lia|]. done.
Qed.
End valid.

(** C28: Validation decides a declarative specification and finds the first fault. For a configuration
    of typed routes, whatever the URL parser, it never throws: it accepts exactly when there are
    routes, each is correct, and none is made unreachable by an earlier one of the same path; and
    otherwise the reported index is that of the first route that breaks this. *)
Theorem validation_exact {urls : UrlParser} v rs : represents_config v rs ->
  exists error, validateAdvancedCustomConfig (Some v) = Ok error /\
    (error = None <-> rs <> [] /\ routes_ok (map normal rs)) /\
    forall e, error = Some e -> rs <> [] ->
      exists i, ve_routeIndex e = Some i /\ i < length rs /\
        routes_ok (map normal (take i rs)) /\ ~ routes_ok (map normal (take (S i) rs)).
Proof.
  intros Hv. unfold validateAdvancedCustomConfig. rewrite (config_normal v rs Hv). cbn [mbind result_bind].
  destruct rs as [|r rs]; [eexists; split; [done|]; split; [split; [done|by intros []]|done]|].
  destruct (validate_loop (map normal (r :: rs)) [] (ValidationState [] None None) tracks_start Routes_none) as (error & Hr & He).
  { apply Forall_map, Forall_forall. intros x _. apply normal_idemp. }
  cbn [length] in Hr. exists error. split; [by cbn [map] in *|]. cbn [app] in He. destruct error as [e|].
  - destruct He as (i & Ei & Hi & Hok & Hbad). rewrite length_map in Hi. rewrite !firstn_map in Hok, Hbad.
    split.
    + split; [done|]. intros [_ H]. destruct Hbad. rewrite <- firstn_map. rewrite <- (take_drop (S i) (map normal (r :: rs))) in H. by eapply routes_ok_prefix.
    + intros e' [= <-] _. by exists i.
  - split; [|done]. split; [|done]. intros _. done.
Qed.

(** * What is offered *)

(** What the editor offers is valid. Every template, a new configuration and a new management route
    pass validation; so does every incoming path offered for a converter with the upstream path and
    the authentication that are filled in; and the converters offered for a path are those that
    validation allows there. *)
Theorem offered_choices_valid {urls : UrlParser} :
  (forall t, t ∈ ADVANCED_CUSTOM_TEMPLATE_OPTIONS -> validateAdvancedCustomConfig (Some (getAdvancedCustomTemplateConfig (to_value t))) = Ok None) /\
  validateAdvancedCustomConfig (Some createAdvancedCustomConfig) = Ok None /\
  (forall path, path ∈ [ADVANCED_CUSTOM_MODEL_LIST_PATH; ADVANCED_CUSTOM_BALANCE_PATH] ->
     validateAdvancedCustomConfig (Some (config_value [createAdvancedCustomManagementRoute path])) = Ok None) /\
  (forall c o, o ∈ getAdvancedCustomIncomingPathOptions c ->
     let defaults := getAdvancedCustomConverterDefaults c o.1 in
     validateAdvancedCustomConfig
       (Some (config_value [VObject [(js "incoming_path", VString o.1); (js "upstream_path", VString defaults.1);
                                     (js "converter", VString (converter_name c)); (js "auth", defaults.2)]])) = Ok None) /\
  (forall path c, c ∈ map co_value (getAdvancedCustomConverterOptions path) <-> isConverterPathAllowed (trim path) c = true).
Proof.
  split; [|split; [|split; [|split]]].
  - intros t Ht. repeat (apply elem_of_cons in Ht as [->|Ht]; [vm_compute; reflexivity|]). by apply not_elem_of_nil in Ht.
  - vm_compute. reflexivity.
  - intros p Hp. repeat (apply elem_of_cons in Hp as [->|Hp]; [vm_compute; reflexivity|]). by apply not_elem_of_nil in Hp.
  - intros c o Ho. cbv zeta. destruct c.
    all: match type of Ho with _ ∈ ?l => let l' := eval vm_compute in l in change (o ∈ l') in Ho end.
    all: repeat (apply elem_of_cons in Ho as [->|Ho]; [vm_compute; reflexivity|]); by apply not_elem_of_nil in Ho.
  - intros path c. unfold getAdvancedCustomConverterOptions. rewrite list_elem_of_fmap. split.
    + intros (o & -> & Ho). apply list_elem_of_In, filter_In in Ho as [_ Ho]. apply orb_true_iff in Ho as [Ho|Ho]; [|done].
      apply bool_decide_eq_true in Ho. by rewrite Ho.
    + intros Hc. assert (c ∈ map co_value ADVANCED_CUSTOM_CONVERTER_OPTIONS) as (o & -> & Ho)%list_elem_of_fmap
        by (destruct c; apply (bool_decide_unpack _); vm_compute; exact I).
      exists o. split; [done|]. apply list_elem_of_In, filter_In. split; [by apply list_elem_of_In|]. by rewrite Hc, orb_true_r.
Qed.

(** * Management routes *)

Definition managed (n : normal_route) : bool := isAdvancedCustomManagementPath (path_of n).
(** The first route of a path. *)
Definition route_for (p : str) (ns : list normal_route) : option normal_route := List.find (fun n => bool_decide (path_of n = p)) ns.

Lemma find_path_normal p ns : find_path p (map route_object ns) = Ok (find_index (fun n => bool_decide (path_of n = p)) ns).
Proof.
  induction ns as [|n ns IH]; [done|]. cbn [map find_path find_index].
  change (incoming_text (route_object n)) with (@Ok exn _ (path_of n)). cbn [mbind result_bind]. case_bool_decide; [done|].
  rewrite IH. by destruct (find_index _ ns).
Qed.

Lemma route_for_index p ns : find_index (fun n => bool_decide (path_of n = p)) ns ≫= (fun i => ns !! i) = route_for p ns.
Proof.
  unfold route_for. induction ns as [|n ns IH]; [done|]. cbn [find_index List.find]. case_bool_decide; [done|].
  rewrite <- IH. by destruct (find_index _ ns).
Qed.

Lemma get_normal v rs p : represents_config v rs ->
  getAdvancedCustomManagementRoute v p = Ok (route_object <$> route_for p (map normal rs)).
Proof.
  intros Hv. unfold getAdvancedCustomManagementRoute. rewrite (config_normal v rs Hv). cbn [mbind result_bind].
  rewrite find_path_normal. cbn [mbind result_bind]. f_equal. rewrite <- route_for_index.
  destruct (find_index _ _) as [i|]; [|done]. cbn. by rewrite list_lookup_fmap.
Qed.

Lemma route_for_app p ns ms : route_for p (ns ++ ms) = match route_for p ns with Some n => Some n | None => route_for p ms end.
Proof. unfold route_for. induction ns as [|n ns IH]; [done|]. cbn. by case_bool_decide. Qed.

Lemma route_for_cons p n ns : route_for p (n :: ns) = if bool_decide (path_of n = p) then Some n else route_for p ns.
Proof. done. Qed.

Lemma config_of_values vs rs : Forall2 represents vs rs -> represents_config (config_value vs) rs.
Proof. intros H. by eexists _, _. Qed.

Lemma objects_typed ns : Forall2 represents (map route_object ns) (map as_route ns).
Proof. induction ns as [|n ns IH]; [constructor|]. cbn [map]. constructor; [apply object_represents|done]. Qed.

Lemma normal_typed rs : map normal (map as_route (map normal rs)) = map normal rs.
Proof. rewrite !map_map. apply map_ext. intros r. apply normal_idemp. Qed.

(** The route that replaces a management route. *)
Definition management_of (path : str) (r : route) : route :=
  Route (Some path) (Some (route_text_or (rt_upstream r) [])) (Some (js "none")) (Some []) (rt_auth r).

Lemma route_for_insert p n ns i q : find_index (fun n => bool_decide (path_of n = p)) ns = Some i -> path_of n = p ->
  route_for q (<[i := n]> ns) = if bool_decide (q = p) then Some n else route_for q ns.
Proof.
  intros Hi Hn. revert i Hi. induction ns as [|m ns IH]; intros i Hi; cbn [find_index] in Hi; [done|].
  destruct (bool_decide_reflect (path_of m = p)) as [E|E].
  - injection Hi as <-. change (<[0 := n]> (m :: ns)) with (n :: ns). rewrite !route_for_cons, Hn, E. repeat case_bool_decide; congruence.
  - destruct (find_index _ ns) as [j|]; [|done]. injection Hi as <-. change (<[S j := n]> (m :: ns)) with (m :: <[j := n]> ns).
    rewrite !route_for_cons, (IH j eq_refl). repeat case_bool_decide; congruence.
Qed.

Lemma route_for_absent p ns : find_index (fun n => bool_decide (path_of n = p)) ns = None <-> route_for p ns = None.
Proof.
  induction ns as [|m ns IH]; [done|]. rewrite route_for_cons. cbn [find_index]. case_bool_decide; [done|].
  rewrite <- IH. by destruct (find_index _ ns).
Qed.

Lemma route_for_delete p ns i q : find_index (fun n => bool_decide (path_of n = p)) ns = Some i -> q <> p ->
  route_for q (take i ns ++ drop (S i) ns) = route_for q ns.
Proof.
  intros Hi Hq. revert i Hi. induction ns as [|m ns IH]; intros i Hi; cbn [find_index] in Hi; [done|].
  destruct (bool_decide_reflect (path_of m = p)) as [E|E].
  - injection Hi as <-. cbn [take drop app]. rewrite drop_0, route_for_cons. case_bool_decide; congruence.
  - destruct (find_index _ ns) as [j|]; [|done]. injection Hi as <-. cbn [take drop app]. rewrite !route_for_cons. by rewrite (IH j eq_refl).
Qed.

Lemma management_represents path route r : represents route r ->
  exists u a, get_prop route (js "upstream_path") = Ok u /\ get_prop route (js "auth") = Ok a /\
    represents (VObject [(js "incoming_path", VString path); (js "upstream_path", or_value u (VString []));
                         (js "converter", VString (js "none")); (js "models", VArray []); (js "auth", a)]) (management_of path r).
Proof.
  intros (entries & -> & _ & Hu & _ & _ & Ha). eexists _, _. rewrite !get_field, Hu. split; [done|]. split; [done|].
  eexists. split; [done|]. rewrite or_text_value. repeat split. exact Ha.
Qed.

Lemma path_of_management path r : isAdvancedCustomManagementPath path = true -> path_of (normal (management_of path r)) = path.
Proof. intros [E|E]%orb_true_iff; breflect; subst; by vm_compute. Qed.

(** The first route of the path is replaced, or the route is added. *)
Lemma replace_represents v rs path route r : represents_config v rs -> represents route r ->
  isAdvancedCustomManagementPath path = true ->
  exists v' rs', replaceAdvancedCustomManagementRoute v path (Some route) = Ok v' /\ represents_config v' rs' /\
    forall p, route_for p (map normal rs') = if bool_decide (p = path) then Some (normal (management_of path r)) else route_for p (map normal rs).
Proof.
  intros Hv Hr Hp. set (ns := map normal rs). unfold replaceAdvancedCustomManagementRoute.
  rewrite (config_normal v rs Hv). cbn [mbind result_bind]. rewrite find_path_normal. cbn [mbind result_bind]. fold ns.
  destruct (management_represents path route r Hr) as (u & a & -> & -> & Hm). cbn [mbind result_bind].
  pose proof (path_of_management path r Hp) as Ho. destruct (find_index _ ns) as [i|] eqn:E.
  - eexists _, (<[i := management_of path r]> (map as_route ns)). split; [done|]. split.
    + apply config_of_values, Forall2_insert; [apply objects_typed|exact Hm].
    + intros p. change (map normal (<[i:=management_of path r]> (map as_route ns))) with (normal <$> <[i:=management_of path r]> (map as_route ns)).
      rewrite list_fmap_insert. change (normal <$> map as_route ns) with (map normal (map as_route (map normal rs))).
      rewrite normal_typed. by apply route_for_insert.
  - eexists _, (map as_route ns ++ [management_of path r]). split; [done|]. split.
    + apply config_of_values, Forall2_app; [apply objects_typed|by repeat constructor].
    + intros p. rewrite map_app. unfold ns at 1. rewrite normal_typed. fold ns. rewrite route_for_app. cbn [map]. rewrite route_for_cons, Ho.
      apply route_for_absent in E. repeat case_bool_decide; subst; try congruence; [by rewrite E|by destruct (route_for p ns)].
Qed.

Lemma remove_represents v rs path : represents_config v rs ->
  exists v' rs', replaceAdvancedCustomManagementRoute v path None = Ok v' /\ represents_config v' rs' /\
    (forall p, p <> path -> route_for p (map normal rs') = route_for p (map normal rs)) /\
    map normal rs' = match find_index (fun n => bool_decide (path_of n = path)) (map normal rs) with
                     | Some i => take i (map normal rs) ++ drop (S i) (map normal rs)
                     | None => map normal rs
                     end.
Proof.
  intros Hv. set (ns := map normal rs). unfold replaceAdvancedCustomManagementRoute.
  rewrite (config_normal v rs Hv). cbn [mbind result_bind]. rewrite find_path_normal. cbn [mbind result_bind]. fold ns.
  destruct (find_index _ ns) as [i|] eqn:E.
  - eexists _, (map as_route (take i ns ++ drop (S i) ns)). split; [done|]. split.
    + rewrite firstn_map, skipn_map, <- map_app. apply config_of_values, objects_typed.
    + assert (map normal (map as_route (take i ns ++ drop (S i) ns)) = take i ns ++ drop (S i) ns) as ->.
      { rewrite !map_app, <- !firstn_map, <- !skipn_map. unfold ns. by rewrite normal_typed. }
      split; [|done]. intros p Hp. by apply (route_for_delete path).
  - eexists _, (map as_route ns). split; [done|]. split; [apply config_of_values, objects_typed|]. unfold ns. by rewrite normal_typed.
Qed.

(** A valid configuration has one route of a management path, so removing it leaves none. *)
Lemma removed_path {urls : UrlParser} path ns : routes_ok ns -> isAdvancedCustomManagementPath path = true ->
  route_for path match find_index (fun n => bool_decide (path_of n = path)) ns with Some i => take i ns ++ drop (S i) ns | None => ns end = None.
Proof.
  intros H Hp. destruct (find_index _ ns) as [i|] eqn:E; [|by apply route_for_absent].
  assert (exists before n after, ns = before ++ n :: after /\ length before = i /\ path_of n = path /\ route_for path before = None)
    as (before & n & after & -> & <- & <- & Hb).
  { clear H. revert i E. induction ns as [|n ns IH]; intros i; cbn [find_index]; [done|]. case_bool_decide as E.
    - intros [= <-]. by exists [], n, ns.
    - destruct (find_index _ ns) as [j|]; [|done]. intros [= <-]. destruct (IH j eq_refl) as (b & m & a & -> & <- & Hm & Hb).
      exists (n :: b), m, a. rewrite route_for_cons, bool_decide_eq_false_2 by done. done. }
  rewrite take_app_length. change (n :: after) with ([n] ++ after). rewrite app_assoc, <- (Nat.add_1_r (length before)).
  change 1 with (length [n]). rewrite <- length_app, drop_app_length, route_for_app, Hb.
  clear E. revert H. induction after as [|m after IH] using rev_ind; intros H; [done|].
  rewrite app_comm_cons, app_assoc in H. apply routes_ok_snoc in H as (H & _ & Ha). rewrite route_for_app, IH by done.
  rewrite route_for_cons. case_bool_decide as Em; [|done]. rewrite Forall_app in Ha. destruct Ha as [_ [Ha _]%Forall_cons].
  destruct (Ha (eq_sym Em)) as [Hn _]. change (before ++ n :: after) with (before ++ [n] ++ after) in H. rewrite app_assoc in H.
  apply routes_ok_prefix, routes_ok_snoc in H as (_ & (_ & _ & Hm & _) & _). by destruct (Hm Hp).
Qed.

(** ** Forwarding routes *)

Lemma management_flags ns : mapM is_management_route (map route_object ns) = Ok (map managed ns).
Proof. induction ns as [|n ns IH]; [done|]. cbn [map mapM]. change (is_management_route (route_object n)) with (@Ok exn _ (managed n)). by rewrite IH. Qed.

Lemma select_managed ns : select_routes (zip (map route_object ns) (map managed ns)) = map route_object (List.filter managed ns).
Proof.
  unfold select_routes. induction ns as [|n ns IH]; [done|]. cbn [map zip zip_with List.filter snd].
  destruct (managed n); cbn [map fst]; by rewrite IH.
Qed.

Lemma zip_take {A B} (l : list A) (k : list B) i : take i (zip l k) = zip (take i l) (take i k).
Proof. revert k i. induction l as [|a l IH]; intros [|b k] [|i]; try done. cbn. f_equal. apply IH. Qed.
Lemma zip_drop {A B} (l : list A) (k : list B) i : drop i (zip l k) = zip (drop i l) (drop i k).
Proof. revert k i. induction l as [|a l IH]; intros [|b k] [|i]; try done; cbn; [by destruct (drop i l)|apply IH]. Qed.

Lemma forwarding_shape v rs forwarding : represents_config v rs ->
  exists before after, before ++ after = List.filter managed (map normal rs) /\
    replaceAdvancedCustomForwardingRoutes v forwarding = Ok (config_value (map route_object before ++ forwarding ++ map route_object after)).
Proof.
  intros Hv. set (ns := map normal rs). unfold replaceAdvancedCustomForwardingRoutes. rewrite (config_normal v rs Hv).
  cbn [mbind result_bind]. rewrite management_flags. cbn [mbind result_bind]. fold ns. destruct (find_index _ _) as [i|].
  - exists (List.filter managed (take i ns)), (List.filter managed (drop i ns)).
    rewrite <- List.filter_app, take_drop, zip_take, zip_drop, !firstn_map, !skipn_map, !select_managed. done.
  - exists (List.filter managed ns), []. by rewrite !app_nil_r, select_managed.
Qed.

Lemma route_for_managed p ns : isAdvancedCustomManagementPath p = true -> route_for p (List.filter managed ns) = route_for p ns.
Proof.
  intros Hp. induction ns as [|n ns IH]; [done|]. cbn [List.filter]. destruct (managed n) eqn:E; rewrite !route_for_cons.
  - by rewrite IH.
  - rewrite bool_decide_eq_false_2; [done|]. intros En. unfold managed in E. congruence.
Qed.

Lemma filter_none {A} (f : A -> bool) l : Forall (fun x => f x = false) l -> List.filter f l = [].
Proof. induction 1 as [|x l Hx _ IH]; [done|]. cbn. by rewrite Hx. Qed.
Lemma filter_every {A} (f : A -> bool) l : Forall (fun x => f x = true) l -> List.filter f l = l.
Proof. induction 1 as [|x l Hx _ IH]; [done|]. cbn. by rewrite Hx, IH. Qed.

Lemma forwarding_represents v rs forwarding fs : represents_config v rs -> Forall2 represents forwarding fs ->
  Forall (fun f => managed (normal f) = false) fs ->
  exists v' rs', replaceAdvancedCustomForwardingRoutes v forwarding = Ok v' /\ represents_config v' rs' /\
    List.filter managed (map normal rs') = List.filter managed (map normal rs) /\
    List.filter (fun n => negb (managed n)) (map normal rs') = map normal fs.
Proof.
  intros Hv Hf Hm. destruct (forwarding_shape v rs forwarding Hv) as (before & after & Hba & ->).
  eexists _, (map as_route before ++ fs ++ map as_route after). split; [done|]. split.
  { apply config_of_values. repeat apply Forall2_app; [apply objects_typed|done|apply objects_typed]. }
  assert (forall ns, incl ns (List.filter managed (map normal rs)) -> map normal (map as_route ns) = ns /\ Forall (fun n => managed n = true) ns) as Hns.
  { intros ns Hi. split.
    - rewrite <- (map_id ns) at 2. rewrite map_map. apply map_ext_in. intros n Hn. apply Hi, filter_In in Hn as [(r & <- & _)%in_map_iff _].
      apply normal_idemp.
    - apply Forall_forall. intros n Hn. apply list_elem_of_In in Hn. by apply Hi, filter_In in Hn as []. }
  destruct (Hns before) as [Eb Hb]; [rewrite <- Hba; apply incl_appl, incl_refl|].
  destruct (Hns after) as [Ea Ha]; [rewrite <- Hba; apply incl_appr, incl_refl|].
  assert (Forall (fun n => managed n = false) (map normal fs)) as Hfs by by apply Forall_map.
  rewrite !map_app, Eb, Ea, !List.filter_app, (filter_every managed before), (filter_every managed after), (filter_none managed (map normal fs)) by done.
  split; [exact Hba|]. rewrite (filter_none _ before), (filter_none _ after), (filter_every _ (map normal fs)), app_nil_r; [done|..].
  all: eapply Forall_impl; [eassumption|]; intros n E; cbn in E |- *; by rewrite E.
Qed.

(** C34: Management and forwarding routes are edited independently. Setting the route of a management
    path succeeds; reading the path back gives the normal form of that route, and the other paths
    read as before. Removing it leaves the other paths alone, and the path empty when the
    configuration was valid. Replacing the forwarding routes keeps what every management path reads,
    and makes the forwarding routes exactly the ones given, in their order. *)
Theorem management_edits {urls : UrlParser} v rs path : represents_config v rs -> isAdvancedCustomManagementPath path = true ->
  (forall route r, represents route r -> exists v',
     replaceAdvancedCustomManagementRoute v path (Some route) = Ok v' /\
     forall p, getAdvancedCustomManagementRoute v' p =
       if bool_decide (p = path) then Ok (Some (route_object (normal (management_of path r)))) else getAdvancedCustomManagementRoute v p) /\
  (exists v', replaceAdvancedCustomManagementRoute v path None = Ok v' /\
     (forall p, p <> path -> getAdvancedCustomManagementRoute v' p = getAdvancedCustomManagementRoute v p) /\
     (routes_ok (map normal rs) -> getAdvancedCustomManagementRoute v' path = Ok None)) /\
  (forall forwarding fs, Forall2 represents forwarding fs -> Forall (fun f => managed (normal f) = false) fs -> exists v' rs',
     replaceAdvancedCustomForwardingRoutes v forwarding = Ok v' /\ represents_config v' rs' /\
     getAdvancedCustomManagementRoute v' path = getAdvancedCustomManagementRoute v path /\
     List.filter (fun n => negb (managed n)) (map normal rs') = map normal fs).
Proof.
  intros Hv Hp. split; [|split].
  - intros route r Hr. destruct (replace_represents v rs path route r Hv Hr Hp) as (v' & rs' & E & Hv' & H). exists v'. split; [done|].
    intros p. rewrite (get_normal v' rs' p Hv'), (get_normal v rs p Hv), H. by case_bool_decide.
  - destruct (remove_represents v rs path Hv) as (v' & rs' & E & Hv' & H & Hns). exists v'. split; [done|]. split.
    + intros p Hne. by rewrite (get_normal v' rs' p Hv'), (get_normal v rs p Hv), H.
    + intros Hok. by rewrite (get_normal v' rs' path Hv'), Hns, removed_path.
  - intros forwarding fs Hf Hm. destruct (forwarding_represents v rs forwarding fs Hv Hf Hm) as (v' & rs' & E & Hv' & H1 & H2).
    exists v', rs'. do 2 (split; [done|]). split; [|done].
    by rewrite (get_normal v' rs' path Hv'), (get_normal v rs path Hv), <- (route_for_managed path (map normal rs')), H1, route_for_managed.
Qed.

(** * Witnesses *)

Definition sample_routes : list route :=
  [Route (Some (js "/v1/chat/completions")) (Some (js " /chat ")) None (Some [js " gpt-4 "; js "re:^o1"]) (Some (RouteAuth (Some (js "header")) (Some (js "X-Key")) (Some (js "{api_key}"))));
   Route (Some (js "/v1/chat/completions")) (Some (js "/other")) (Some (js "none")) None None;
   Route (Some (js "/v1/models")) (Some (js "/models")) None None None].
Definition sample_config : jsval :=
  config_value
    [VObject [(js "incoming_path", VString (js "/v1/chat/completions")); (js "upstream_path", VString (js " /chat "));
              (js "models", VArray [VString (js " gpt-4 "); VString (js "re:^o1")]);
              (js "auth", VObject [(js "type", VString (js "header")); (js "name", VString (js "X-Key")); (js "value", VString (js "{api_key}"))])];
     VObject [(js "incoming_path", VString (js "/v1/chat/completions")); (js "upstream_path", VString (js "/other")); (js "converter", VString (js "none"))];
     VObject [(js "upstream_path", VString (js "/models")); (js "incoming_path", VString (js "/v1/models"))]].
Definition no_urls : UrlParser := fun _ => None.

Lemma sample_represents : represents_config sample_config sample_routes.
Proof.
  eexists _, _. split; [reflexivity|]. split; [vm_compute; reflexivity|]. repeat (apply Forall2_cons; split); [| | |constructor].
  all: eexists; split; [reflexivity|]; do 4 (split; [vm_compute; reflexivity|]); cbn [rt_auth represents_auth]; try (vm_compute; reflexivity).
  eexists. split; [vm_compute; reflexivity|]. do 2 (split; [vm_compute; reflexivity|]). vm_compute. reflexivity.
Qed.

Lemma sample_utf16 : Forall utf16_route sample_routes.
Proof.
  unfold sample_routes. rewrite !Forall_cons. unfold utf16_route. cbn [rt_incoming rt_upstream rt_converter rt_models rt_auth default utf16_opt from_option id].
  rewrite ?Forall_cons. cbn [ra_type ra_name ra_value utf16_opt].
  repeat split; try apply utf16_js; try reflexivity; try constructor.
Qed.

Lemma config_round_trip_witness : exists config text,
  normalizeAdvancedCustomConfig sample_config = Ok config /\ normalizeAdvancedCustomConfig config = Ok config /\
  stringifyAdvancedCustomConfig sample_config = Ok text /\ stringifyAdvancedCustomConfig config = Ok text /\
  parseAdvancedCustomConfig (Some text) = Some config.
Proof. exact (config_round_trip sample_config sample_routes sample_represents sample_utf16). Defined.

Lemma validation_exact_witness : exists error, @validateAdvancedCustomConfig no_urls (Some sample_config) = Ok error /\
  (error = None <-> sample_routes <> [] /\ @routes_ok no_urls (map normal sample_routes)) /\
  forall e, error = Some e -> sample_routes <> [] ->
    exists i, ve_routeIndex e = Some i /\ i < length sample_routes /\
      @routes_ok no_urls (map normal (take i sample_routes)) /\ ~ @routes_ok no_urls (map normal (take (S i) sample_routes)).
Proof. exact (@validation_exact no_urls sample_config sample_routes sample_represents). Defined.

Example sample_validates : @validateAdvancedCustomConfig no_urls (Some sample_config) = Ok None.
Proof. vm_compute. reflexivity. Qed.

(** The path of the balance query gets a route, and the forwarding routes are replaced by one. *)
Lemma management_edits_witness :
  (exists v', replaceAdvancedCustomManagementRoute sample_config ADVANCED_CUSTOM_BALANCE_PATH
                (Some (createAdvancedCustomManagementRoute ADVANCED_CUSTOM_BALANCE_PATH)) = Ok v' /\
     getAdvancedCustomManagementRoute v' ADVANCED_CUSTOM_MODEL_LIST_PATH = getAdvancedCustomManagementRoute sample_config ADVANCED_CUSTOM_MODEL_LIST_PATH) /\
  (exists v' rs', replaceAdvancedCustomForwardingRoutes sample_config [createAdvancedCustomRoute] = Ok v' /\ represents_config v' rs' /\
     getAdvancedCustomManagementRoute v' ADVANCED_CUSTOM_MODEL_LIST_PATH = getAdvancedCustomManagementRoute sample_config ADVANCED_CUSTOM_MODEL_LIST_PATH).
Proof.
  split.
  - destruct (proj1 (@management_edits no_urls sample_config sample_routes ADVANCED_CUSTOM_BALANCE_PATH sample_represents eq_refl)
                (createAdvancedCustomManagementRoute ADVANCED_CUSTOM_BALANCE_PATH) (Route (Some ADVANCED_CUSTOM_BALANCE_PATH) (Some ADVANCED_CUSTOM_BALANCE_PATH) (Some (js "none")) (Some []) None))
      as (v' & E & H).
    + eexists. split; [reflexivity|]. do 4 (split; [vm_compute; reflexivity|]). vm_compute. reflexivity.
    + exists v'. split; [exact E|]. exact (H ADVANCED_CUSTOM_MODEL_LIST_PATH).
  - destruct (proj2 (proj2 (@management_edits no_urls sample_config sample_routes ADVANCED_CUSTOM_MODEL_LIST_PATH sample_represents eq_refl))
                [createAdvancedCustomRoute] [Route (Some openAIChatPath) (Some openAIChatPath) (Some (js "none")) None None])
      as (v' & rs' & E & Hv & H & _).
    + constructor; [|constructor]. eexists. split; [reflexivity|]. do 4 (split; [vm_compute; reflexivity|]). vm_compute. reflexivity.
    + repeat constructor.
    + by exists v', rs'.
Defined.
