(* ===== verification/RatioSync.v ===== *)
(** Synchronising prices with upstream channels
    (features/system-settings/models/upstream-ratio-sync-helpers.ts, and the state of
    upstream-ratio-sync.tsx and upstream-ratio-sync-table.tsx).

    A price field is its name, an object the list of its entries in order; property reads see the
    own properties.  The names of price fields are ASCII.  Translation is an argument. *)

From S2P Require Import Prelude JsString JsNumber JsNumberOrder JsValue BillingTypes JsJson JsSort.

(** * Data *)

Record difference := Difference {
  df_current : jsval;
  df_upstreams : list (str * jsval);
  df_confidence : list (str * bool);
}.
(** The differences of a model, by price field, and those of all models. *)
Definition ratio_types : Type := list (str * difference).
Definition differences_map : Type := list (str * ratio_types).

Record sync_row := SyncRow { sr_key : str; sr_model : str; sr_ratioTypes : ratio_types; sr_billingConflict : bool }.

(** The chosen values, by model and price field. *)
Definition model_resolution : Type := list (str * jsval).
Definition resolutions_map : Type := list (str * model_resolution).

Record selection := Selection { se_model : str; se_ratioType : str; se_value : jsval; se_sourceName : str }.
Record removal := Removal { rm_model : str; rm_ratioType : str }.
Definition removal_plan : Type := list (str * list str).

Definition RATIO_SYNC_FIELDS : list str :=
  [js "model_ratio"; js "completion_ratio"; js "cache_ratio"; js "create_cache_ratio"; js "image_ratio"; js "audio_ratio";
   js "audio_completion_ratio"].
Definition SYNC_FIELD_ORDER : list str := RATIO_SYNC_FIELDS ++ [js "model_price"; js "billing_mode"; js "billing_expr"].
Definition NUMERIC_SYNC_FIELDS : list str := RATIO_SYNC_FIELDS ++ [js "model_price"].

(** Values and labels. *)
Definition RATIO_TYPE_OPTIONS : list (str * str) :=
  [(js "model_ratio", js "Model ratio"); (js "completion_ratio", js "Completion ratio"); (js "cache_ratio", js "Cache ratio");
   (js "create_cache_ratio", js "Create cache ratio"); (js "image_ratio", js "Image ratio"); (js "audio_ratio", js "Audio ratio");
   (js "audio_completion_ratio", js "Audio completion ratio"); (js "model_price", js "Fixed price");
   (js "billing_expr", js "Expression billing")].

Definition OFFICIAL_CHANNEL_ID : Z := -100.
Definition OFFICIAL_CHANNEL_NAME : str := [23448; 26041; 20493; 29575; 39044; 35774]%N.
Definition MODELS_DEV_PRESET_ID : Z := -101.
Definition MODELS_DEV_PRESET_NAME : str := js "models.dev " ++ [20215; 26684; 39044; 35774]%N.
Definition DEFAULT_ENDPOINT : str := js "/api/pricing".
Definition OFFICIAL_CHANNEL_ENDPOINT : str := js "/llm-metadata/api/newapi/ratio_config-v1-base.json".
Definition MODELS_DEV_PRESET_ENDPOINT : str := js "https://models.dev/api.json".
Definition OPENROUTER_ENDPOINT : str := js "openrouter".
Definition OPENROUTER_CHANNEL_TYPE : Z := 20.

(** * Fields *)

Definition getSyncFieldLabel (ratioType : str) (t : str -> str) : str :=
  match List.find (fun o : str * str => bool_decide (o.1 = ratioType)) RATIO_TYPE_OPTIONS with
  | Some o => t o.2
  | None => ratioType
  end.

Definition keep_fields (p : str -> bool) (fields : list str) : list str := List.filter p fields.

Definition getOrderedRatioTypes (ratioTypes : ratio_types) (filter : str) : list str :=
  let keys := map fst ratioTypes in
  let ordered := keep_fields (fun f => bool_decide (f ∈ keys)) SYNC_FIELD_ORDER ++
                 keep_fields (fun f => negb (bool_decide (f ∈ SYNC_FIELD_ORDER))) keys in
  if bool_decide (filter = []) || bool_decide (filter = js "__all__") then ordered
  else keep_fields (fun f => bool_decide (f = filter)) ordered.

(** [ratioTypes[field]?.upstreams?.[sourceName]] *)
Definition upstream_value (ratioTypes : ratio_types) (field sourceName : str) : jsval :=
  match obj_get field ratioTypes with
  | Some d => default VUndefined (obj_get sourceName (df_upstreams d))
  | None => VUndefined
  end.

Definition isSelectableUpstreamValue (value : jsval) : bool :=
  negb (is_nullish value) && negb (strict_equal value (VString (js "same"))).

Definition getPreferredSyncField (ratioTypes : ratio_types) (ratioType sourceName : str) : str :=
  let exprValue := upstream_value ratioTypes (js "billing_expr") sourceName in
  if negb (bool_decide (ratioType = js "billing_expr")) && isSelectableUpstreamValue exprValue then js "billing_expr"
  else ratioType.

Definition getVisibleRatioTypesForSource (ratioTypes : ratio_types) (sourceName filter : str) : list str :=
  keep_fields (fun ratioType => bool_decide (getPreferredSyncField ratioTypes ratioType sourceName = ratioType))
    (getOrderedRatioTypes ratioTypes filter).

Definition getAlignedRatioTypes (ratioTypes : ratio_types) (sourceNames : list str) (filter : str) : list str :=
  let ordered := getOrderedRatioTypes ratioTypes filter in
  match sourceNames with
  | [] => ordered
  | _ =>
      let visible := flat_map (fun sourceName => getVisibleRatioTypesForSource ratioTypes sourceName filter) sourceNames in
      keep_fields (fun ratioType => bool_decide (ratioType ∈ visible)) ordered
  end.

Inductive billing_category : Type := Cat_price | Cat_ratio | Cat_tiered.
#[export] Instance billing_category_eq_dec : EqDecision billing_category.
Proof. solve_decision. Defined.

Definition getBillingCategory (ratioType : str) : billing_category :=
  if bool_decide (ratioType = js "model_price") then Cat_price
  else if bool_decide (ratioType = js "billing_mode") || bool_decide (ratioType = js "billing_expr") then Cat_tiered
  else Cat_ratio.

Definition getUpstreamDisplayName (sourceName : str) : str :=
  let synthesizedPresets := [(OFFICIAL_CHANNEL_NAME, OFFICIAL_CHANNEL_ID); (MODELS_DEV_PRESET_NAME, MODELS_DEV_PRESET_ID)] in
  match List.find (fun preset : str * Z => bool_decide (sourceName = preset.1 ++ js "(" ++ string_of_Z preset.2 ++ js ")"))
          synthesizedPresets with
  | Some preset => preset.1
  | None => sourceName
  end.

(** * Resolutions *)

(** [Number(value)] of a number or a text. *)
Definition sync_number (value : jsval) : number :=
  match value with VNumber n => n | VString s => number_of_string s | _ => n_nan end.

Definition isSelectedResolutionValue (resolutions : resolutions_map) (model ratioType : str) (upstreamValue : jsval) : bool :=
  if negb (isSelectableUpstreamValue upstreamValue) then false
  else match obj_get model resolutions ≫= obj_get ratioType with
       | None => false
       | Some selectedValue =>
           if bool_decide (ratioType ∈ NUMERIC_SYNC_FIELDS) then
             is_finite (sync_number selectedValue) && is_finite (sync_number upstreamValue) &&
             n_eqb (sync_number selectedValue) (sync_number upstreamValue)
           else strict_equal selectedValue upstreamValue
       end.

Definition getDraftModelResolution (drafts resolutions : resolutions_map) (model : str) : model_resolution :=
  match obj_get model drafts with
  | Some existingDraft => existingDraft
  | None => default [] (obj_get model resolutions)
  end.

(** The preferred field of a selection, with its value. *)
Definition preferred (modelDiffs : option ratio_types) (sel : selection) : str * jsval :=
  let preferredType := getPreferredSyncField (default [] modelDiffs) (se_ratioType sel) (se_sourceName sel) in
  (preferredType,
   if bool_decide (preferredType = se_ratioType sel) then se_value sel
   else let value := upstream_value (default [] modelDiffs) preferredType (se_sourceName sel) in
        if is_nullish value then se_value sel else value).

(** The fields of the other of price and ratios are deleted. *)
Definition keep_category (category : billing_category) (draft : model_resolution) : model_resolution :=
  List.filter (fun e : str * jsval =>
    negb (negb (bool_decide (category = Cat_tiered)) && negb (bool_decide (getBillingCategory e.1 = Cat_tiered)) &&
          negb (bool_decide (getBillingCategory e.1 = category)))) draft.

Definition select_draft (modelDiffs : option ratio_types) (sel : selection) (draft : model_resolution) : model_resolution :=
  let '(finalType, finalValue) := preferred modelDiffs sel in
  let category := getBillingCategory finalType in
  let draft := obj_set finalType finalValue (keep_category category draft) in
  match category, modelDiffs with
  | Cat_tiered, Some modelDiffs =>
      let modeVal := upstream_value modelDiffs (js "billing_mode") (se_sourceName sel) in
      let exprVal := upstream_value modelDiffs (js "billing_expr") (se_sourceName sel) in
      let draft :=
        if isSelectableUpstreamValue modeVal then obj_set (js "billing_mode") modeVal draft
        else if bool_decide (finalType = js "billing_expr") then obj_set (js "billing_mode") (VString (js "tiered_expr")) draft
        else draft in
      if isSelectableUpstreamValue exprVal then obj_set (js "billing_expr") exprVal draft else draft
  | _, _ => draft
  end.

Definition applyResolutionSelectionToDraft (resolutions : resolutions_map) (differences : differences_map)
    (drafts : resolutions_map) (sel : selection) : resolutions_map :=
  obj_set (se_model sel)
    (select_draft (obj_get (se_model sel) differences) sel (getDraftModelResolution drafts resolutions (se_model sel))) drafts.

(** A draft replaces the model; an empty one deletes it. *)
Definition put_draft (next : resolutions_map) (draft : str * model_resolution) : resolutions_map :=
  match draft.2 with [] => obj_delete draft.1 next | _ => obj_set draft.1 draft.2 next end.

Definition applyResolutionSelections (resolutions : resolutions_map) (differences : differences_map) (selections : list selection) :
    resolutions_map :=
  match selections with
  | [] => resolutions
  | _ => fold_left put_draft (fold_left (applyResolutionSelectionToDraft resolutions differences) selections []) resolutions
  end.

Definition applyResolutionSelection (resolutions : resolutions_map) (differences : differences_map) (sel : selection) :
    resolutions_map := applyResolutionSelections resolutions differences [sel].

Definition resolveResolutionSelection (differences : differences_map) (sel : selection) : selection :=
  let '(preferredType, preferredValue) := preferred (obj_get (se_model sel) differences) sel in
  Selection (se_model sel) preferredType preferredValue (se_sourceName sel).

Definition effective_key (sel : selection) : str := se_model sel ++ [0%N] ++ se_ratioType sel.

Definition add_effective (differences : differences_map) (effectiveByKey : list (str * selection)) (sel : selection) :
    list (str * selection) :=
  let resolved := resolveResolutionSelection differences sel in
  let category := getBillingCategory (se_ratioType resolved) in
  let effectiveByKey :=
    match category with
    | Cat_tiered => effectiveByKey
    | _ => List.filter (fun e : str * selection =>
             negb (bool_decide (se_model e.2 = se_model resolved) &&
                   negb (bool_decide (getBillingCategory (se_ratioType e.2) = Cat_tiered)) &&
                   negb (bool_decide (getBillingCategory (se_ratioType e.2) = category)))) effectiveByKey
    end in
  obj_set (effective_key resolved) resolved effectiveByKey.

Definition getEffectiveResolutionSelections (differences : differences_map) (selections : list selection) : list selection :=
  map snd (fold_left (add_effective differences) selections []).

(** * Removals *)

Definition plan_add (plan : removal_plan) (model ratioType : str) : removal_plan :=
  match obj_get model plan with
  | Some ratioTypes => obj_set model (set_add ratioType ratioTypes) plan
  | None => obj_set model [ratioType] plan
  end.

Definition remove_field (draft : model_resolution) (ratioType : str) : model_resolution :=
  let draft := obj_delete ratioType draft in
  let draft := if bool_decide (ratioType = js "billing_expr") then obj_delete (js "billing_mode") draft else draft in
  if bool_decide (ratioType = js "billing_mode") then obj_delete (js "billing_expr") draft else draft.

Definition remove_model (resolutions next : resolutions_map) (planned : str * list str) : resolutions_map :=
  match obj_get planned.1 resolutions with
  | None => next
  | Some current => put_draft next (planned.1, fold_left remove_field planned.2 current)
  end.

Definition applyResolutionRemovalPlan (resolutions : resolutions_map) (plan : removal_plan) : resolutions_map :=
  fold_left (remove_model resolutions) plan resolutions.

Definition applyResolutionRemovals (resolutions : resolutions_map) (removals : list removal) : resolutions_map :=
  match removals with
  | [] => resolutions
  | _ => applyResolutionRemovalPlan resolutions (fold_left (fun plan r => plan_add plan (rm_model r) (rm_ratioType r)) removals [])
  end.

Definition deleteResolutionField (resolutions : resolutions_map) (model ratioType : str) : resolutions_map :=
  applyResolutionRemovals resolutions [Removal model ratioType].

(** * The table *)

Definition dataSource (differences : differences_map) : list sync_row :=
  map (fun e : str * ratio_types =>
         SyncRow e.1 e.1 e.2 (has_own e.2 (js "model_price") && existsb (has_own e.2) RATIO_SYNC_FIELDS)) differences.

Section table.
Context {host : Host}.

Definition filteredData (search ratioTypeFilter : str) (rows : list sync_row) : list sync_row :=
  let rows :=
    match trim search with
    | [] => rows
    | _ => List.filter (fun row => includes (to_lower_case (sr_model row)) (to_lower_case search)) rows
    end in
  if bool_decide (ratioTypeFilter = []) || bool_decide (ratioTypeFilter = js "__all__") then rows
  else List.filter (fun row => has_own (sr_ratioTypes row) ratioTypeFilter) rows.
End table.

Definition upstreamNames (ratioTypeFilter : str) (rows : list sync_row) : list str :=
  distinct (flat_map (fun row =>
    flat_map (fun ratioType => match obj_get ratioType (sr_ratioTypes row) with Some d => map fst (df_upstreams d) | None => [] end)
      (getOrderedRatioTypes (sr_ratioTypes row) ratioTypeFilter)) rows).

Record bulk_state := BulkState {
  bs_displayName : str;
  bs_selections : list selection;
  bs_removalPlan : removal_plan;
  bs_selectableCount : nat;
  bs_selectedCount : nat;
}.

(** The selectable values of a column. *)
Definition column_selections (ratioTypeFilter upstreamName : str) (rows : list sync_row) : list selection :=
  flat_map (fun row =>
    omap (fun ratioType =>
            let upstreamVal := upstream_value (sr_ratioTypes row) ratioType upstreamName in
            if isSelectableUpstreamValue upstreamVal then Some (Selection (sr_model row) ratioType upstreamVal upstreamName) else None)
      (getAlignedRatioTypes (sr_ratioTypes row) [upstreamName] ratioTypeFilter)) rows.

Definition bulkSelectState (differences : differences_map) (resolutions : resolutions_map) (ratioTypeFilter : str) (rows : list sync_row)
    (upstreamName : str) : bulk_state :=
  let selections := column_selections ratioTypeFilter upstreamName rows in
  let removalPlan := fold_left (fun plan sel => plan_add plan (se_model sel) (se_ratioType sel)) selections [] in
  let effectiveSelections := getEffectiveResolutionSelections differences selections in
  BulkState (getUpstreamDisplayName upstreamName) effectiveSelections removalPlan (length effectiveSelections)
    (length (List.filter (fun sel => isSelectedResolutionValue resolutions (se_model sel) (se_ratioType sel) (se_value sel))
               effectiveSelections)).

(** * Saving *)

(** An upstream channel, with its type when known. *)
Record upstream_channel := UpstreamChannel { uc_id : Z; uc_type : option Z }.

Definition getDefaultEndpointForChannel (channel : upstream_channel) : str :=
  if bool_decide (uc_id channel = MODELS_DEV_PRESET_ID) then MODELS_DEV_PRESET_ENDPOINT
  else if bool_decide (uc_id channel = OFFICIAL_CHANNEL_ID) then OFFICIAL_CHANNEL_ENDPOINT
  else if bool_decide (uc_type channel = Some OPENROUTER_CHANNEL_TYPE) then OPENROUTER_ENDPOINT
  else DEFAULT_ENDPOINT.

Definition upper_unit (c : N) : N := if in_range 97 122 c then (c - 32)%N else c.
Definition capitalize (word : str) : str := match word with [] => [] | c :: rest => upper_unit c :: rest end.

Definition optionKeyBySyncField (ratioType : str) : str :=
  match obj_get ratioType [(js "billing_mode", js "billing_setting.billing_mode"); (js "billing_expr", js "billing_setting.billing_expr")] with
  | Some key => key
  | None => concat (map capitalize (split_on 95 ratioType))
  end.

Definition parseJsonRecord (raw : str) : jsval :=
  match JSON_parse (match raw with [] => js "{}" | _ => raw end) with Ok value => value | Throw _ => VObject [] end.

(** The options of the prices. *)
Definition OPTION_KEYS : list str :=
  [js "ModelRatio"; js "CompletionRatio"; js "CacheRatio"; js "CreateCacheRatio"; js "ImageRatio"; js "AudioRatio";
   js "AudioCompletionRatio"; js "ModelPrice"; js "billing_setting.billing_mode"; js "billing_setting.billing_expr"].
Definition RATIO_OPTION_KEYS : list str := take 7 OPTION_KEYS.

(** [parsedRatios] of the texts of the options. *)
Definition parsed_ratios (modelRatios : list (str * str)) : list (str * jsval) :=
  map (fun key => (key, parseJsonRecord (default [] (obj_get key modelRatios)))) OPTION_KEYS.

Definition current_option (currentRatios : list (str * jsval)) (key : str) : jsval := default VUndefined (obj_get key currentRatios).

(** [option[model] !== undefined] *)
Definition is_set (currentRatios : list (str * jsval)) (model key : str) : result exn bool :=
  value ← get_prop (current_option currentRatios key) model; Ok (negb (strict_equal value VUndefined)).

(** [tests.some(test)] *)
Fixpoint any_set (currentRatios : list (str * jsval)) (model : str) (keys : list str) : result exn bool :=
  match keys with
  | [] => Ok false
  | key :: rest => found ← is_set currentRatios model key; if found : bool then Ok true else any_set currentRatios model rest
  end.

Definition getLocalBillingCategory (model : str) (currentRatios : list (str * jsval)) : result exn (option billing_category) :=
  price ← is_set currentRatios model (js "ModelPrice");
  if price : bool then Ok (Some Cat_price)
  else
    ratio ← any_set currentRatios model RATIO_OPTION_KEYS;
    Ok (if ratio : bool then Some Cat_ratio else None).

(** [{ ...value }] *)
Definition spread (value : jsval) : list (str * jsval) :=
  let indexed {A} (f : A -> jsval) (items : list A) := imap (fun i x => (string_of_Z (Z.of_nat i), f x)) items in
  match value with
  | VObject entries => entries
  | VArray items => indexed (fun x => x) items
  | VString s => indexed (fun c => VString [c]) s
  | _ => []
  end.

Definition final_ratios (currentRatios : list (str * jsval)) : list (str * list (str * jsval)) :=
  map (fun key => (key, spread (current_option currentRatios key))) OPTION_KEYS.

(** [delete finalRatios[key][model]] for one of the known keys. *)
Definition delete_in (model : str) (final : list (str * list (str * jsval))) (key : str) : list (str * list (str * jsval)) :=
  match obj_get key final with Some entries => obj_set key (obj_delete model entries) final | None => final end.

Definition resolve_field (model : str) (final : list (str * list (str * jsval))) (resolved : str * jsval) :
    result exn (list (str * list (str * jsval))) :=
  let '(ratioType, value) := resolved in
  let optionKey := optionKeyBySyncField ratioType in
  match obj_get optionKey final with
  | Some entries =>
      Ok (obj_set optionKey
            (obj_set model (if bool_decide (ratioType ∈ NUMERIC_SYNC_FIELDS) then VNumber (sync_number value) else value) entries) final)
  | None => Throw type_error
  end.

(** The resolution of a model is written into the options. *)
Definition resolve_model (final : list (str * list (str * jsval))) (resolution : str * model_resolution) :
    result exn (list (str * list (str * jsval))) :=
  let '(model, ratios) := resolution in
  let selectedTypes := map fst ratios in
  let hasPrice := bool_decide (js "model_price" ∈ selectedTypes) in
  let hasRatio := existsb (fun rt => bool_decide (rt ∈ RATIO_SYNC_FIELDS)) selectedTypes in
  let final := if hasPrice then fold_left (delete_in model) RATIO_OPTION_KEYS final else final in
  let final := if hasRatio then delete_in model final (js "ModelPrice") else final in
  fold_result (resolve_field model) ratios final.

Definition synced_ratios (resolutions : resolutions_map) (currentRatios : list (str * jsval)) :
    result exn (list (str * list (str * jsval))) := fold_result resolve_model resolutions (final_ratios currentRatios).

(** The updates that [performSync] sends. *)
Definition performSync (resolutions : resolutions_map) (currentRatios : list (str * jsval)) : result exn (list (str * str)) :=
  final ← synced_ratios resolutions currentRatios;
  Ok (map (fun e : str * list (str * jsval) => (e.1, JSON_stringify_indented (VObject e.2))) final).

Record conflict_item := ConflictItem { ci_channel : str; ci_model : str; ci_current : str; ci_newVal : str }.

Definition findSourceChannel (differences : differences_map) (model ratioType : str) (value : jsval) : str :=
  match obj_get model differences ≫= obj_get ratioType with
  | None => js "Unknown"
  | Some d =>
      match List.find (fun e : str * jsval => strict_equal e.2 value) (df_upstreams d) with
      | Some e => e.1
      | None => js "Unknown"
      end
  end.

(** [`${value ?? '-'}`] *)
Definition text_or_dash (value : jsval) : result exn str := if is_nullish value then Ok (js "-") else to_string value.

Section conflicts.
Context (t : str -> str) (differences : differences_map) (currentRatios : list (str * jsval)).

Definition new_category (ratios : model_resolution) : billing_category :=
  if has_own ratios (js "model_price") then Cat_price
  else if existsb (fun rt => bool_decide (rt ∈ map fst ratios)) RATIO_SYNC_FIELDS then Cat_ratio
  else Cat_tiered.

Definition ratio_description (modelRatio completionRatio : jsval) : result exn str :=
  m ← text_or_dash modelRatio; c ← text_or_dash completionRatio;
  Ok (t (js "Model ratio") ++ js ": " ++ m ++ newline :: t (js "Completion ratio") ++ js ": " ++ c).

(** The conflict of a model, when its kind of price changes. *)
Definition model_conflict (resolution : str * model_resolution) : result exn (option conflict_item) :=
  let '(model, ratios) := resolution in
  localCat ← getLocalBillingCategory model currentRatios;
  let newCat := new_category ratios in
  match localCat with
  | Some category =>
      if negb (bool_decide (newCat = Cat_tiered)) && negb (bool_decide (category = newCat)) then
        currentDesc ←
          match category with
          | Cat_price =>
              price ← get_prop (current_option currentRatios (js "ModelPrice")) model; text ← to_string price;
              Ok (t (js "Fixed price") ++ js ": " ++ text)
          | _ =>
              modelRatio ← get_prop (current_option currentRatios (js "ModelRatio")) model;
              completionRatio ← get_prop (current_option currentRatios (js "CompletionRatio")) model;
              ratio_description modelRatio completionRatio
          end;
        newDesc ←
          match newCat with
          | Cat_price => text ← to_string (default VUndefined (obj_get (js "model_price") ratios)); Ok (t (js "Fixed price") ++ js ": " ++ text)
          | _ => ratio_description (default VUndefined (obj_get (js "model_ratio") ratios))
                   (default VUndefined (obj_get (js "completion_ratio") ratios))
          end;
        let channelNames := distinct (map (fun e : str * jsval => findSourceChannel differences model e.1 e.2) ratios) in
        Ok (Some (ConflictItem (join (js ", ") channelNames) model currentDesc newDesc))
      else Ok None
  | None => Ok None
  end.

Definition sync_conflicts (resolutions : resolutions_map) : result exn (list conflict_item) :=
  found ← mapM model_conflict resolutions; Ok (omap (fun c => c) found).
End conflicts.

(** * The state *)

(** The differences fetched, the values chosen, the texts of the options, the conflicts of the open
    dialog, and the updates being sent. *)
Record sync_state := SyncState {
  ss_differences : differences_map;
  ss_resolutions : resolutions_map;
  ss_modelRatios : list (str * str);
  ss_conflicts : option (list conflict_item);
  ss_pending : option (list (str * str));
}.

Inductive sync_event : Type :=
| Ev_fetched (differences : differences_map)
| Ev_select (sel : selection)
| Ev_select_all (selections : list selection)
| Ev_unselect (model ratioType : str)
| Ev_unselect_all (plan : removal_plan)
| Ev_apply
| Ev_confirm
| Ev_dismiss
| Ev_synced
| Ev_sync_failed
| Ev_settings (modelRatios : list (str * str)).

(** The fields that were resolved leave the differences. *)
Definition settle_field (model : str) (differences : differences_map) (ratioType : str) : differences_map :=
  match obj_get model differences with
  | None => differences
  | Some diffs =>
      if has_own diffs ratioType then
        let diffs := obj_delete ratioType diffs in
        match diffs with [] => obj_delete model differences | _ => obj_set model diffs differences end
      else differences
  end.
Definition settle (differences : differences_map) (resolutions : resolutions_map) : differences_map :=
  fold_left (fun differences (e : str * model_resolution) => fold_left (settle_field e.1) (map fst e.2) differences) resolutions differences.

Definition set_resolutions (st : sync_state) (resolutions : resolutions_map) : sync_state :=
  SyncState (ss_differences st) resolutions (ss_modelRatios st) (ss_conflicts st) (ss_pending st).

Definition start_sync (st : sync_state) : result exn sync_state :=
  updates ← performSync (ss_resolutions st) (parsed_ratios (ss_modelRatios st));
  Ok (SyncState (ss_differences st) (ss_resolutions st) (ss_modelRatios st) (ss_conflicts st) (Some updates)).

(** While updates are being sent the controls are disabled. *)
Definition sync_step (t : str -> str) (st : sync_state) (ev : sync_event) : result exn sync_state :=
  match ss_pending st, ev with
  | None, Ev_fetched differences => Ok (SyncState differences [] (ss_modelRatios st) (ss_conflicts st) None)
  | None, Ev_select sel => Ok (set_resolutions st (applyResolutionSelection (ss_resolutions st) (ss_differences st) sel))
  | None, Ev_select_all selections =>
      Ok (match selections with
          | [] => st
          | _ => set_resolutions st (applyResolutionSelections (ss_resolutions st) (ss_differences st) selections)
          end)
  | None, Ev_unselect model ratioType => Ok (set_resolutions st (deleteResolutionField (ss_resolutions st) model ratioType))
  | None, Ev_unselect_all plan =>
      Ok (match plan with [] => st | _ => set_resolutions st (applyResolutionRemovalPlan (ss_resolutions st) plan) end)
  | None, Ev_apply =>
      match ss_resolutions st with
      | [] => Ok st
      | _ =>
          conflicts ← sync_conflicts t (ss_differences st) (parsed_ratios (ss_modelRatios st)) (ss_resolutions st);
          match conflicts with
          | [] => start_sync st
          | _ => Ok (SyncState (ss_differences st) (ss_resolutions st) (ss_modelRatios st) (Some conflicts) None)
          end
      end
  | None, Ev_confirm => match ss_conflicts st with Some _ => start_sync st | None => Ok st end
  | None, Ev_dismiss => Ok (SyncState (ss_differences st) (ss_resolutions st) (ss_modelRatios st) None None)
  | Some _, Ev_synced => Ok (SyncState (settle (ss_differences st) (ss_resolutions st)) [] (ss_modelRatios st) None None)
  | Some _, Ev_sync_failed => Ok (SyncState (ss_differences st) (ss_resolutions st) (ss_modelRatios st) (ss_conflicts st) None)
  | pending, Ev_settings modelRatios =>
      Ok (SyncState (ss_differences st) (ss_resolutions st) modelRatios (ss_conflicts st) pending)
  | _, _ => Ok st
  end.

Definition sync_start (modelRatios : list (str * str)) : sync_state := SyncState [] [] modelRatios None None.
Definition sync_run (t : str -> str) (st : sync_state) (events : list sync_event) : result exn sync_state :=
  fold_result (sync_step t) events st.
