(* ===== verification/RatioSyncProps.v ===== *)
(** Properties of the synchronisation of prices: the chosen values stay consistent, saving writes
    exactly the chosen values and clears the kind of price they replace, conflicts are reported
    exactly when something is cleared, and the check box of a column selects the whole column. *)

From S2P Require Import Prelude JsString JsNumber JsNumberOrder JsValue BillingTypes JsJson JsSort RatioSync.

(** * Consistent resolutions *)

(** The draft of a model: the fields are known and distinct, a fixed price excludes the ratios, and
    an expression comes with its mode. *)
Record draft_ok (d : model_resolution) : Prop := DraftOk {
  do_keys : NoDup (map fst d);
  do_known : forall k, k ∈ map fst d -> k ∈ SYNC_FIELD_ORDER;
  do_exclusive : js "model_price" ∈ map fst d -> forall k, k ∈ RATIO_SYNC_FIELDS -> k ∉ map fst d;
  do_mode : js "billing_expr" ∈ map fst d -> js "billing_mode" ∈ map fst d;
}.
Definition resolutions_ok (r : resolutions_map) : Prop :=
  NoDup (map fst r) /\ forall m d, (m, d) ∈ r -> d <> [] /\ draft_ok d.

Definition known_field (p : str -> bool) : bool := forallb p SYNC_FIELD_ORDER.
Lemma for_known (p : str -> bool) k : known_field p = true -> k ∈ SYNC_FIELD_ORDER -> p k = true.
Proof. unfold known_field. rewrite forallb_forall. intros H Hk. apply H. by apply list_elem_of_In. Qed.

Lemma ratio_category k : k ∈ SYNC_FIELD_ORDER -> (getBillingCategory k = Cat_ratio <-> k ∈ RATIO_SYNC_FIELDS).
Proof.
  intros Hk. apply (for_known (fun k => bool_decide (bool_decide (getBillingCategory k = Cat_ratio) = bool_decide (k ∈ RATIO_SYNC_FIELDS)))) in Hk;
    [|by vm_compute]. apply bool_decide_eq_true in Hk. rewrite <- (bool_decide_eq_true (getBillingCategory k = Cat_ratio)), Hk.
  apply bool_decide_eq_true.
Qed.

Lemma price_category k : getBillingCategory k = Cat_price <-> k = js "model_price".
Proof. unfold getBillingCategory. repeat case_bool_decide; try done; cbn; naive_solver. Qed.

Lemma tiered_category k : getBillingCategory k = Cat_tiered <-> k = js "billing_mode" \/ k = js "billing_expr".
Proof.
  unfold getBillingCategory. case_bool_decide as E; [subst; split; [done|]; intros [H|H]; vm_compute in H; done|].
  destruct (bool_decide_reflect (k = js "billing_mode")), (bool_decide_reflect (k = js "billing_expr")); cbn; naive_solver.
Qed.

Lemma ratio_known k : k ∈ RATIO_SYNC_FIELDS -> k ∈ SYNC_FIELD_ORDER.
Proof. intros H. unfold SYNC_FIELD_ORDER. apply elem_of_app. by left. Qed.

(** Two fields of a draft that are no tiers are of one category. *)
Lemma exclusive_categories (keys : list str) : (forall k, k ∈ keys -> k ∈ SYNC_FIELD_ORDER) ->
  (js "model_price" ∈ keys -> forall k, k ∈ RATIO_SYNC_FIELDS -> k ∉ keys) <->
  (forall k k', k ∈ keys -> k' ∈ keys -> getBillingCategory k <> Cat_tiered -> getBillingCategory k' <> Cat_tiered ->
     getBillingCategory k = getBillingCategory k').
Proof.
  intros Hkn. split.
  - intros H k k' Hk Hk' Ht Ht'. destruct (getBillingCategory k) eqn:E, (getBillingCategory k') eqn:E'; try done.
    + apply price_category in E as ->. apply (ratio_category k' (Hkn k' Hk')) in E'. by destruct (H Hk k' E').
    + apply price_category in E' as ->. apply (ratio_category k (Hkn k Hk)) in E. by destruct (H Hk' k E).
  - intros H Hp k Hr Hk. apply (ratio_category k (Hkn k Hk)) in Hr as Hc. specialize (H k (js "model_price") Hk Hp). rewrite Hc in H.
    assert (getBillingCategory (js "model_price") = Cat_price) as E by by apply price_category. rewrite E in H. by specialize (H ltac:(done) ltac:(done)).
Qed.

(** ** Selecting *)

(** A value the table offers. *)
Definition offered (differences : differences_map) (sel : selection) : Prop :=
  exists diffs, obj_get (se_model sel) differences = Some diffs /\ se_ratioType sel ∈ SYNC_FIELD_ORDER /\
    se_value sel = upstream_value diffs (se_ratioType sel) (se_sourceName sel) /\ isSelectableUpstreamValue (se_value sel) = true.

Lemma kept_keys c d k : k ∈ map fst (keep_category c d) <->
  k ∈ map fst d /\ (c = Cat_tiered \/ getBillingCategory k = Cat_tiered \/ getBillingCategory k = c).
Proof.
  unfold keep_category. rewrite !list_elem_of_fmap. split.
  - intros ([k' v] & -> & Hin). apply list_elem_of_In, filter_In in Hin as [Hin Hp]. apply list_elem_of_In in Hin. split; [by eexists|].
    cbn [fst] in *. repeat case_bool_decide; cbn in Hp; naive_solver.
  - intros [([k' v] & -> & Hin) Hc]. exists (k', v). split; [done|]. apply list_elem_of_In, filter_In. split; [by apply list_elem_of_In|].
    cbn [fst] in *. repeat case_bool_decide; cbn; naive_solver.
Qed.

Lemma preferred_type diffs sel : (preferred diffs sel).1 = se_ratioType sel \/ (preferred diffs sel).1 = js "billing_expr".
Proof. unfold preferred, getPreferredSyncField. cbn [fst]. destruct (_ && _); tauto. Qed.

Lemma select_draft_keys diffs sel d k : let final := (preferred (Some diffs) sel).1 in
  k ∈ map fst (select_draft (Some diffs) sel d) ->
  k = final \/ (k ∈ map fst d /\ (getBillingCategory k = Cat_tiered \/ getBillingCategory final = Cat_tiered \/ getBillingCategory k = getBillingCategory final)) \/
  (getBillingCategory final = Cat_tiered /\ getBillingCategory k = Cat_tiered).
Proof.
  cbn zeta. unfold select_draft. destruct (preferred (Some diffs) sel) as [ft fv]. cbn [fst].
  assert (forall k, k ∈ map fst (obj_set ft fv (keep_category (getBillingCategory ft) d)) -> k = ft \/
    (k ∈ map fst d /\ (getBillingCategory k = Cat_tiered \/ getBillingCategory ft = Cat_tiered \/ getBillingCategory k = getBillingCategory ft))) as H0.
  { intros k0. rewrite elem_of_obj_set, kept_keys. naive_solver. }
  destruct (getBillingCategory ft) eqn:E; [by intros H%H0; naive_solver..|].
  assert (getBillingCategory (js "billing_mode") = Cat_tiered /\ getBillingCategory (js "billing_expr") = Cat_tiered) as [Hm He]
    by (split; apply tiered_category; [by left|by right]).
  set (d1 := obj_set ft fv _) in *. clearbody d1. intros H. assert (k = ft \/ (k ∈ map fst d /\ True) \/ getBillingCategory k = Cat_tiered) as Hk; [|naive_solver].
  revert H. repeat case_match; rewrite ?elem_of_obj_set; naive_solver.
Qed.

(** The final field is chosen, and an expression has its mode. *)
Lemma select_draft_final diffs sel d : let final := (preferred (Some diffs) sel).1 in
  final ∈ map fst (select_draft (Some diffs) sel d) /\
  (getBillingCategory final = Cat_tiered -> js "billing_mode" ∈ map fst (select_draft (Some diffs) sel d)) /\
  forall k, getBillingCategory final <> Cat_tiered -> getBillingCategory k = Cat_tiered -> k ∈ map fst d ->
    k ∈ map fst (select_draft (Some diffs) sel d).
Proof.
  cbn zeta. unfold select_draft. destruct (preferred (Some diffs) sel) as [ft fv]. cbn [fst].
  destruct (getBillingCategory ft) eqn:E.
  1, 2: (split; [rewrite elem_of_obj_set; tauto|]; split; [done|]; intros k _ Hk Hd; rewrite elem_of_obj_set, kept_keys; tauto).
  apply tiered_category in E as E'. split; [|split; [|done]].
  - repeat case_match; rewrite ?elem_of_obj_set; tauto.
  - intros _. destruct E' as [->| ->].
    + repeat case_match; rewrite ?elem_of_obj_set; tauto.
    + rewrite (bool_decide_eq_true_2 (js "billing_expr" = js "billing_expr")) by done. repeat case_match; rewrite ?elem_of_obj_set; tauto.
Qed.

Lemma select_draft_nodup diffs sel d : NoDup (map fst d) -> NoDup (map fst (select_draft diffs sel d)).
Proof.
  intros Hd. unfold select_draft. destruct (preferred diffs sel) as [ft fv].
  repeat case_match; repeat apply obj_set_keys; by apply filter_keys.
Qed.

Lemma select_draft_ok diffs sel d : se_ratioType sel ∈ SYNC_FIELD_ORDER -> draft_ok d -> draft_ok (select_draft (Some diffs) sel d).
Proof.
  intros Hs [Hn Hkn Hex Hm]. pose proof (preferred_type (Some diffs) sel) as Hp.
  assert ((preferred (Some diffs) sel).1 ∈ SYNC_FIELD_ORDER) as Hf by (destruct Hp as [-> | ->]; [done|apply (bool_decide_unpack _); vm_compute; exact I]).
  assert (forall k, k ∈ map fst (select_draft (Some diffs) sel d) -> k ∈ SYNC_FIELD_ORDER) as Hkn'.
  { intros k [->|[[H _]|[_ H%tiered_category]]]%select_draft_keys; [done|by apply Hkn|].
    destruct H as [-> | ->]; apply (bool_decide_unpack _); vm_compute; exact I. }
  destruct (select_draft_final diffs sel d) as (_ & Hmode & Hkeep). split; [by apply select_draft_nodup|done| |].
  - apply (exclusive_categories _ Hkn'). rewrite (exclusive_categories _ Hkn) in Hex. intros k k' Hk Hk' Ht Ht'.
    apply select_draft_keys in Hk, Hk'. destruct Hk as [->|[[Hk Hc]|[_ Hk]]], Hk' as [->|[[Hk' Hc']|[_ Hk']]]; try done; try (by apply Hex); intuition congruence.
  - intros He. destruct (decide (getBillingCategory (preferred (Some diffs) sel).1 = Cat_tiered)) as [E|E]; [by apply Hmode|].
    apply Hkeep; [done|apply tiered_category; tauto|]. apply Hm. apply select_draft_keys in He as [He|[[He _]|[He _]]]; [|done..].
    rewrite <- He in E. by destruct E; apply tiered_category; right.
Qed.

(** ** Drafts *)

Lemma obj_set_nonempty {V} (k : str) (v : V) o : obj_set k v o <> [].
Proof. destruct o as [|[k' v'] o]; cbn; [done|]. by case_bool_decide. Qed.

Lemma select_draft_nonempty diffs sel d : select_draft diffs sel d <> [].
Proof. unfold select_draft. destruct (preferred diffs sel). repeat case_match; apply obj_set_nonempty. Qed.

Lemma obj_set_set {V} (k : str) (a b : V) o : obj_set k a (obj_set k b o) = obj_set k a o.
Proof.
  induction o as [|[k' v'] o IH]; cbn [obj_set]; [by rewrite bool_decide_eq_true_2|].
  case_bool_decide as E; cbn [obj_set]; [by rewrite bool_decide_eq_true_2|]. by rewrite bool_decide_eq_false_2, IH.
Qed.

Lemma obj_set_comm {V} (k k' : str) (a b : V) o : k ∈ map fst o -> k <> k' ->
  obj_set k a (obj_set k' b o) = obj_set k' b (obj_set k a o).
Proof.
  intros Hk Hne. induction o as [|[k0 v0] o IH]; [by apply not_elem_of_nil in Hk|]. cbn [obj_set map fst] in *.
  destruct (bool_decide_reflect (k' = k0)) as [->|E'], (bool_decide_reflect (k = k0)) as [->|E]; cbn [obj_set]; try done.
  - by rewrite (bool_decide_eq_false_2 (k = k0)), (bool_decide_eq_true_2 (k0 = k0)).
  - by rewrite (bool_decide_eq_true_2 (k0 = k0)), (bool_decide_eq_false_2 (k' = k0)).
  - rewrite (bool_decide_eq_false_2 (k = k0)), (bool_decide_eq_false_2 (k' = k0)) by done. f_equal. apply IH. by apply elem_of_cons in Hk as [|].
Qed.

Definition put_all (drafts next : resolutions_map) : resolutions_map :=
  fold_left (fun next (e : str * model_resolution) => obj_set e.1 e.2 next) drafts next.

Lemma put_all_out drafts m d next : m ∉ map fst drafts -> m ∈ map fst next ->
  put_all drafts (obj_set m d next) = obj_set m d (put_all drafts next).
Proof.
  unfold put_all. revert next. induction drafts as [|[m' d'] drafts IH]; intros next Hm Hn; [done|]. cbn [map fst] in Hm.
  apply not_elem_of_cons in Hm as [Hne Hm]. cbn [fold_left fst snd]. rewrite <- IH; [|done|by rewrite elem_of_obj_set; right].
  f_equal. symmetry. by apply obj_set_comm.
Qed.

Lemma put_all_set drafts m d next : NoDup (map fst drafts) -> put_all (obj_set m d drafts) next = obj_set m d (put_all drafts next).
Proof.
  revert next. induction drafts as [|[m' d'] drafts IH]; intros next Hn; [done|]. cbn [map fst obj_set] in *.
  apply NoDup_cons in Hn as [Hm Hn]. case_bool_decide as E.
  - subst m'. change (put_all drafts (obj_set m d next) = obj_set m d (put_all drafts (obj_set m d' next))).
    rewrite <- put_all_out; [|done|by rewrite elem_of_obj_set; left]. by rewrite obj_set_set.
  - change (put_all (obj_set m d drafts) (obj_set m' d' next) = obj_set m d (put_all drafts (obj_set m' d' next))). by apply IH.
Qed.

Lemma put_all_get drafts m next : NoDup (map fst drafts) ->
  obj_get m (put_all drafts next) = match obj_get m drafts with Some d => Some d | None => obj_get m next end.
Proof.
  unfold put_all. revert next. induction drafts as [|[m' d'] drafts IH]; intros next Hn; [done|]. cbn [map fst fold_left snd obj_get] in *.
  apply NoDup_cons in Hn as [Hm Hn]. rewrite (IH _ Hn), obj_get_set. case_bool_decide as E; [|done]. subst m'.
  destruct (obj_get m drafts) eqn:E; [|done]. exfalso. apply Hm, obj_get_fst. by eexists.
Qed.

Lemma obj_set_in {V} (k k' : str) (v v' : V) o : (k, v) ∈ obj_set k' v' o -> (k, v) = (k', v') \/ ((k, v) ∈ o).
Proof. induction o as [|[k0 v0] o IH]; cbn [obj_set]; [set_solver|]. case_bool_decide; set_solver. Qed.

(** One selection, without the drafts. *)
Definition select_step (differences : differences_map) (r : resolutions_map) (sel : selection) : resolutions_map :=
  obj_set (se_model sel) (select_draft (obj_get (se_model sel) differences) sel (default [] (obj_get (se_model sel) r))) r.

Lemma drafts_fold r differences sels drafts : NoDup (map fst drafts) -> Forall (fun e => e.2 <> []) drafts ->
  let drafts' := fold_left (applyResolutionSelectionToDraft r differences) sels drafts in
  NoDup (map fst drafts') /\ Forall (fun e => e.2 <> []) drafts' /\
  put_all drafts' r = fold_left (select_step differences) sels (put_all drafts r).
Proof.
  cbn zeta. revert drafts. induction sels as [|sel sels IH]; intros drafts Hn Hd; [done|]. cbn [fold_left].
  assert (Forall (fun e : str * model_resolution => e.2 <> []) (applyResolutionSelectionToDraft r differences drafts sel)) as Hd'.
  { unfold applyResolutionSelectionToDraft. rewrite Forall_forall in Hd |- *. intros [m d] Hin.
    apply obj_set_in in Hin as [[= -> ->]|Hin]; [apply select_draft_nonempty|by apply (Hd _ Hin)]. }
  destruct (IH (applyResolutionSelectionToDraft r differences drafts sel)) as (H1 & H2 & ->); [by apply obj_set_keys|done|].
  split; [done|]. split; [done|]. f_equal. unfold applyResolutionSelectionToDraft, select_step, getDraftModelResolution.
  rewrite put_all_set, put_all_get by done. unfold model_resolution, resolutions_map in *. by destruct (obj_get (se_model sel) drafts).
Qed.

Lemma put_draft_all drafts next : Forall (fun e => e.2 <> []) drafts -> fold_left put_draft drafts next = put_all drafts next.
Proof.
  unfold put_all. intros H. revert next. induction H as [|[m d] drafts Hd _ IH]; intros next; [done|]. cbn [fold_left fst snd] in *.
  rewrite IH. unfold put_draft. by destruct d.
Qed.

(** Selections are applied one after the other. *)
Lemma selections_fold r differences sels : applyResolutionSelections r differences sels = fold_left (select_step differences) sels r.
Proof.
  destruct sels as [|sel sels]; [done|]. unfold applyResolutionSelections.
  destruct (drafts_fold r differences (sel :: sels) [] ltac:(constructor) ltac:(constructor)) as (_ & Hd & H).
  rewrite put_draft_all by done. exact H.
Qed.

(** ** The invariant *)

Lemma set_resolution_ok r m d : resolutions_ok r -> d <> [] -> draft_ok d -> resolutions_ok (obj_set m d r).
Proof. intros [Hn Hr] Hd Hok. split; [by apply obj_set_keys|]. intros m' d' [[= -> ->]|H]%obj_set_in; [done|by apply (Hr m')]. Qed.

Lemma delete_resolution_ok r m : resolutions_ok r -> resolutions_ok (obj_delete m r).
Proof.
  intros [Hn Hr]. split; [by apply obj_delete_nodup|]. intros m' d' H. apply list_elem_of_In, filter_In in H as [H _].
  apply (Hr m'). by apply list_elem_of_In.
Qed.

Lemma draft_empty : draft_ok [].
Proof. split; cbn; [constructor|by intros ? ?%not_elem_of_nil|by intros ?%not_elem_of_nil..]. Qed.

Lemma resolution_draft r m : resolutions_ok r -> draft_ok (default [] (obj_get m r)).
Proof.
  intros [Hn Hr]. destruct (obj_get m r) as [d|] eqn:E; [|apply draft_empty]. apply (Hr m). by apply obj_get_value in E.
Qed.

Lemma select_step_ok differences r sel : resolutions_ok r -> offered differences sel -> resolutions_ok (select_step differences r sel).
Proof.
  intros Hr (diffs & Hd & Hs & _). unfold select_step. rewrite Hd. apply set_resolution_ok; [done|apply select_draft_nonempty|].
  apply select_draft_ok; [done|]. by apply resolution_draft.
Qed.

Lemma selections_ok differences r sels : resolutions_ok r -> Forall (offered differences) sels ->
  resolutions_ok (applyResolutionSelections r differences sels).
Proof.
  rewrite selections_fold. intros Hr Hs. revert r Hr. induction Hs as [|sel sels Hsel _ IH]; intros r Hr; [done|].
  cbn [fold_left]. by apply IH, select_step_ok.
Qed.

Lemma remove_field_keys d f k : k ∈ map fst (remove_field d f) <->
  k ∈ map fst d /\ k <> f /\ (f = js "billing_expr" -> k <> js "billing_mode") /\ (f = js "billing_mode" -> k <> js "billing_expr").
Proof. unfold remove_field. repeat case_bool_decide; rewrite ?elem_of_obj_delete; naive_solver. Qed.

Lemma remove_field_ok d f : draft_ok d -> draft_ok (remove_field d f).
Proof.
  intros [Hn Hkn Hex Hm]. split.
  - unfold remove_field. repeat case_bool_decide; repeat apply obj_delete_nodup; done.
  - intros k [Hk _]%remove_field_keys. by apply Hkn.
  - intros [Hp _]%remove_field_keys k Hk [Hk' _]%remove_field_keys. by apply (Hex Hp k).
  - intros (He & Hne & _ & H2)%remove_field_keys. apply remove_field_keys. split; [by apply Hm|]. split; [|by split].
    intros <-. by apply H2.
Qed.

Lemma remove_fields_ok fields d : draft_ok d -> draft_ok (fold_left remove_field fields d).
Proof. revert d. induction fields as [|f fields IH]; intros d Hd; [done|]. by apply IH, remove_field_ok. Qed.

Lemma removal_plan_ok r plan : resolutions_ok r -> resolutions_ok (applyResolutionRemovalPlan r plan).
Proof.
  intros Hr. unfold applyResolutionRemovalPlan. assert (forall next, resolutions_ok next -> resolutions_ok (fold_left (remove_model r) plan next)) as H; [|by apply H].
  induction plan as [|[m fields] plan IH]; intros next Hnext; [done|]. cbn [fold_left]. apply IH. unfold remove_model. cbn [fst snd].
  pose proof (resolution_draft r m Hr) as Hd. destruct (obj_get m r) as [d|]; [|done]. cbn in Hd. apply (remove_fields_ok fields) in Hd.
  unfold put_draft. cbn [fst snd]. destruct (fold_left remove_field fields d) eqn:E; [by apply delete_resolution_ok|].
  by apply set_resolution_ok.
Qed.

Lemma removals_ok r removals : resolutions_ok r -> resolutions_ok (applyResolutionRemovals r removals).
Proof. intros Hr. destruct removals; [done|]. by apply removal_plan_ok. Qed.

(** Selections come from the table. *)
Definition admissible (st : sync_state) (ev : sync_event) : Prop :=
  match ev with
  | Ev_select sel => offered (ss_differences st) sel
  | Ev_select_all selections => Forall (offered (ss_differences st)) selections
  | _ => True
  end.

Inductive reachable (t : str -> str) : sync_state -> Prop :=
| Reach_start modelRatios : reachable t (sync_start modelRatios)
| Reach_step st ev st' : reachable t st -> admissible st ev -> sync_step t st ev = Ok st' -> reachable t st'.

Definition models_within (r : resolutions_map) (differences : differences_map) : Prop :=
  forall m, m ∈ map fst r -> m ∈ map fst differences.

Lemma selections_within differences r sels : models_within r differences -> Forall (offered differences) sels ->
  models_within (applyResolutionSelections r differences sels) differences.
Proof.
  rewrite selections_fold. intros Hr Hs. revert r Hr. induction Hs as [|sel sels (diffs & Hd & _) _ IH]; intros r Hr; [done|].
  apply IH. intros m. unfold select_step. rewrite elem_of_obj_set. intros [->|Hm]; [|by apply Hr]. apply obj_get_fst. by eexists.
Qed.

Lemma removal_within r plan differences : models_within r differences -> models_within (applyResolutionRemovalPlan r plan) differences.
Proof.
  intros Hr. unfold applyResolutionRemovalPlan.
  assert (forall next, models_within next differences -> models_within (fold_left (remove_model r) plan next) differences) as H; [|by apply H].
  induction plan as [|[m fields] plan IH]; intros next Hnext; [done|]. apply IH. unfold remove_model. cbn [fst snd].
  destruct (obj_get m r) as [d|] eqn:E; [|done]. assert (m ∈ map fst differences) by (apply Hr, obj_get_fst; by eexists).
  intros m'. unfold put_draft. cbn [fst snd]. destruct (fold_left _ _ _); [rewrite elem_of_obj_delete|rewrite elem_of_obj_set]; naive_solver.
Qed.

Lemma start_sync_state st st' : start_sync st = Ok st' ->
  ss_resolutions st' = ss_resolutions st /\ ss_differences st' = ss_differences st.
Proof. unfold start_sync. destruct (performSync _ _); cbn; [|done]. by intros [= <-]. Qed.

(** C25: The chosen values stay consistent. Whatever values of the table are selected and unselected,
    one by one or a column at a time, and whenever prices are fetched, saved or reloaded: every
    chosen model has differences and at least one chosen field, its fields are known and distinct, a
    fixed price is never chosen together with a ratio, and an expression always comes with a billing
    mode. *)
Theorem selections_consistent t st : reachable t st ->
  resolutions_ok (ss_resolutions st) /\ models_within (ss_resolutions st) (ss_differences st).
Proof.
  assert (resolutions_ok []) as H0 by (split; [constructor|by intros ? ? ?%not_elem_of_nil]).
  assert (forall d, models_within [] d) as H1 by (by intros d m ?%not_elem_of_nil).
  induction 1 as [modelRatios|st ev st' Hst [Hok Hw] Ha Hstep]; [by split|]. unfold sync_step in Hstep.
  destruct (ss_pending st), ev; simplify_eq; try done; cbn [ss_resolutions ss_differences set_resolutions]; cbn [admissible] in Ha.
  - split; [by apply selections_ok; [|constructor; [|constructor]]|by apply selections_within; [|constructor; [|constructor]]].
  - destruct selections; [done|]. cbn [ss_resolutions ss_differences set_resolutions]. split; [by apply selections_ok|by apply selections_within].
  - split; [by apply removals_ok|by apply removal_within].
  - destruct plan; [done|]. cbn [ss_resolutions ss_differences set_resolutions]. split; [by apply removal_plan_ok|by apply removal_within].
  - destruct (ss_resolutions st) eqn:E; [by simplify_eq; rewrite E|]. destruct (sync_conflicts _ _ _ _) as [conflicts|]; [|done].
    cbn [mbind result_bind] in Hstep. destruct conflicts; simplify_eq; [|done].
    apply start_sync_state in Hstep as [-> ->]. by rewrite E.
  - destruct (ss_conflicts st); [|by simplify_eq]. by apply start_sync_state in Hstep as [-> ->].
Qed.

(** * Saving *)

(** The option of a field is an object. *)
Definition settings_ok (currentRatios : list (str * jsval)) : Prop :=
  forall key, key ∈ OPTION_KEYS -> exists entries, current_option currentRatios key = VObject entries.

(** The value of a field for a model, in the settings and in the options to save. *)
Definition local_value (currentRatios : list (str * jsval)) (field model : str) : option jsval :=
  obj_get model (spread (current_option currentRatios (optionKeyBySyncField field))).
Definition saved_value (final : list (str * list (str * jsval))) (field model : str) : option jsval :=
  obj_get (optionKeyBySyncField field) final ≫= obj_get model.

Definition saved_form (field : str) (value : jsval) : jsval :=
  if bool_decide (field ∈ NUMERIC_SYNC_FIELDS) then VNumber (sync_number value) else value.

(** A chosen price of the other kind displaces the field. *)
Definition displaced (field : str) (chosen : model_resolution) : bool :=
  (bool_decide (field ∈ RATIO_SYNC_FIELDS) && has_own chosen (js "model_price")) ||
  (bool_decide (field = js "model_price") && existsb (fun rt => bool_decide (rt ∈ RATIO_SYNC_FIELDS)) (map fst chosen)).

(** What a model should have after saving. *)
Definition synced_value (r : resolutions_map) (currentRatios : list (str * jsval)) (field model : str) : option jsval :=
  match obj_get model r with
  | None => local_value currentRatios field model
  | Some chosen =>
      match obj_get field chosen with
      | Some value => Some (saved_form field value)
      | None => if displaced field chosen then None else local_value currentRatios field model
      end
  end.

Lemma option_keys_fields : map optionKeyBySyncField SYNC_FIELD_ORDER = OPTION_KEYS.
Proof. vm_compute. reflexivity. Qed.

Lemma option_keys_nodup : NoDup OPTION_KEYS.
Proof. apply (bool_decide_unpack _). vm_compute. exact I. Qed.

Lemma field_key f : f ∈ SYNC_FIELD_ORDER -> optionKeyBySyncField f ∈ OPTION_KEYS.
Proof. intros H. rewrite <- option_keys_fields. apply list_elem_of_fmap. by exists f. Qed.

Lemma field_key_inj f g : f ∈ SYNC_FIELD_ORDER -> g ∈ SYNC_FIELD_ORDER -> optionKeyBySyncField f = optionKeyBySyncField g -> f = g.
Proof.
  intros Hf Hg E. pose proof option_keys_nodup as Hn. rewrite <- option_keys_fields in Hn.
  apply list_elem_of_lookup in Hf as [i Hi]. apply list_elem_of_lookup in Hg as [j Hj].
  assert (i = j) as ->; [|congruence]. eapply NoDup_lookup; [exact Hn| |].
  - by rewrite list_lookup_fmap, Hi.
  - rewrite list_lookup_fmap, Hj. cbn. by rewrite E.
Qed.

(** The value of an option for a model. *)
Definition entry (final : list (str * list (str * jsval))) (key model : str) : option jsval := obj_get key final ≫= obj_get model.

Lemma delete_in_entry m final key : map fst (delete_in m final key) = map fst final /\
  forall key' m', entry (delete_in m final key) key' m' = if bool_decide (key' = key) && bool_decide (m' = m) then None else entry final key' m'.
Proof.
  unfold delete_in, entry. destruct (obj_get key final) as [entries|] eqn:E.
  - split; [rewrite obj_set_fst, bool_decide_eq_true_2; [done|apply obj_get_fst; by eexists]|]. intros key' m'. rewrite obj_get_set.
    destruct (bool_decide_reflect (key' = key)) as [->|]; cbn [andb mbind option_bind]; [|done]. rewrite obj_get_delete, E. by case_bool_decide.
  - split; [done|]. intros key' m'. destruct (bool_decide_reflect (key' = key)) as [->|]; cbn [andb]; [|done]. rewrite E. by case_bool_decide.
Qed.

Lemma delete_all_entry m keys final : map fst (fold_left (delete_in m) keys final) = map fst final /\
  forall key' m', entry (fold_left (delete_in m) keys final) key' m' =
    if bool_decide (key' ∈ keys) && bool_decide (m' = m) then None else entry final key' m'.
Proof.
  revert final. induction keys as [|key keys IH]; intros final; [done|]. cbn [fold_left].
  destruct (IH (delete_in m final key)) as [H1 H2]. destruct (delete_in_entry m final key) as [H3 H4]. split; [by rewrite H1|].
  intros key' m'. rewrite H2, H4. repeat case_bool_decide; cbn; set_solver.
Qed.

Lemma resolve_field_entry m final f v : map fst final = OPTION_KEYS -> f ∈ SYNC_FIELD_ORDER ->
  exists final', resolve_field m final (f, v) = Ok final' /\ map fst final' = OPTION_KEYS /\
    forall key' m', entry final' key' m' =
      if bool_decide (key' = optionKeyBySyncField f) && bool_decide (m' = m) then Some (saved_form f v) else entry final key' m'.
Proof.
  intros Hk Hf. unfold resolve_field. pose proof (field_key f Hf) as Hin. rewrite <- Hk in Hin.
  apply obj_get_fst in Hin as H'. destruct H' as [entries E]. rewrite E. eexists. split; [done|].
  split; [by rewrite obj_set_fst, bool_decide_eq_true_2|]. intros key' m'. unfold entry. rewrite obj_get_set.
  destruct (bool_decide_reflect (key' = optionKeyBySyncField f)) as [->|]; cbn [andb mbind option_bind]; [|done].
  rewrite obj_get_set, E. by case_bool_decide.
Qed.

Lemma saved_entry final f m : saved_value final f m = entry final (optionKeyBySyncField f) m.
Proof. done. Qed.

Lemma resolve_fields m ratios final : map fst final = OPTION_KEYS -> NoDup (map fst ratios) ->
  (forall k, k ∈ map fst ratios -> k ∈ SYNC_FIELD_ORDER) ->
  exists final', fold_result (resolve_field m) ratios final = Ok final' /\ map fst final' = OPTION_KEYS /\
    forall f m', f ∈ SYNC_FIELD_ORDER -> saved_value final' f m' =
      if bool_decide (m' = m) then match obj_get f ratios with Some v => Some (saved_form f v) | None => saved_value final f m' end
      else saved_value final f m'.
Proof.
  revert final. induction ratios as [|[k v] ratios IH]; intros final Hk Hn Hkn.
  - exists final. split; [done|]. split; [done|]. intros f m' _. by case_bool_decide.
  - cbn [map fst] in Hn, Hkn. apply NoDup_cons in Hn as [Hnk Hn].
    destruct (resolve_field_entry m final k v Hk) as (final1 & E1 & Hk1 & H1); [apply Hkn; left|].
    destruct (IH final1 Hk1 Hn) as (final2 & E2 & Hk2 & H2); [intros k' Hk'; apply Hkn; by right|].
    exists final2. cbn [fold_result]. rewrite E1. cbn [mbind result_bind]. split; [done|]. split; [done|]. intros f m' Hf.
    rewrite (H2 f m' Hf), !saved_entry, H1. cbn [obj_get]. destruct (bool_decide_reflect (m' = m)) as [->|]; [|by rewrite andb_false_r].
    rewrite andb_true_r. destruct (bool_decide_reflect (f = k)) as [->|Hne].
    + rewrite (bool_decide_eq_true_2 (optionKeyBySyncField k = _)) by done. destruct (obj_get k ratios) eqn:E; [|done].
      destruct Hnk. apply obj_get_fst. by eexists.
    + rewrite (bool_decide_eq_false_2 (optionKeyBySyncField f = _)); [done|]. intros E. apply Hne. apply field_key_inj; [done|apply Hkn; left|done].
Qed.

Lemma ratio_key f : f ∈ SYNC_FIELD_ORDER -> bool_decide (optionKeyBySyncField f ∈ RATIO_OPTION_KEYS) = bool_decide (f ∈ RATIO_SYNC_FIELDS).
Proof.
  intros Hf. apply (for_known (fun f => Bool.eqb (bool_decide (optionKeyBySyncField f ∈ RATIO_OPTION_KEYS)) (bool_decide (f ∈ RATIO_SYNC_FIELDS)))) in Hf;
    [by apply eqb_prop|by vm_compute].
Qed.

Lemma price_key f : f ∈ SYNC_FIELD_ORDER -> bool_decide (optionKeyBySyncField f = js "ModelPrice") = bool_decide (f = js "model_price").
Proof.
  intros Hf. apply (for_known (fun f => Bool.eqb (bool_decide (optionKeyBySyncField f = js "ModelPrice")) (bool_decide (f = js "model_price")))) in Hf;
    [by apply eqb_prop|by vm_compute].
Qed.

Lemma resolve_model_values m chosen final : map fst final = OPTION_KEYS -> draft_ok chosen ->
  exists final', resolve_model final (m, chosen) = Ok final' /\ map fst final' = OPTION_KEYS /\
    forall f m', f ∈ SYNC_FIELD_ORDER -> saved_value final' f m' =
      if bool_decide (m' = m) then
        match obj_get f chosen with Some v => Some (saved_form f v) | None => if displaced f chosen then None else saved_value final f m' end
      else saved_value final f m'.
Proof.
  intros Hk [Hn Hkn _ _]. unfold resolve_model.
  set (hasPrice := bool_decide (js "model_price" ∈ map fst chosen)). set (hasRatio := existsb _ (map fst chosen)).
  set (final1 := if hasPrice then fold_left (delete_in m) RATIO_OPTION_KEYS final else final).
  set (final2 := if hasRatio then delete_in m final1 (js "ModelPrice") else final1).
  assert (map fst final1 = OPTION_KEYS /\ forall key' m', entry final1 key' m' =
            if hasPrice && bool_decide (key' ∈ RATIO_OPTION_KEYS) && bool_decide (m' = m) then None else entry final key' m') as [Hk1 H1].
  { unfold final1. destruct hasPrice; [|done]. destruct (delete_all_entry m RATIO_OPTION_KEYS final) as [H1 H2]. split; [by rewrite H1|]. intros. apply H2. }
  assert (map fst final2 = OPTION_KEYS /\ forall key' m', entry final2 key' m' =
            if hasRatio && bool_decide (key' = js "ModelPrice") && bool_decide (m' = m) then None else entry final1 key' m') as [Hk2 H2].
  { unfold final2. destruct hasRatio; [|done]. destruct (delete_in_entry m final1 (js "ModelPrice")) as [H3 H4]. split; [by rewrite H3|]. intros. apply H4. }
  destruct (resolve_fields m chosen final2 Hk2 Hn Hkn) as (final' & E & Hk' & H'). exists final'. split; [done|]. split; [done|].
  intros f m' Hf. rewrite (H' f m' Hf), !saved_entry, H2, H1, (ratio_key f Hf), (price_key f Hf).
  assert (has_own chosen (js "model_price") = hasPrice) as Hp.
  { unfold hasPrice, has_own. destruct (obj_get _ chosen) eqn:Ep; symmetry; [apply bool_decide_eq_true, obj_get_fst; by eexists|].
    apply bool_decide_eq_false. intros H%obj_get_fst. rewrite Ep in H. by destruct H. }
  unfold displaced. rewrite Hp. fold hasRatio. destruct (bool_decide (m' = m)); [|by rewrite !andb_false_r]. rewrite !andb_true_r.
  destruct (obj_get f chosen); [done|]. rewrite (andb_comm hasPrice), (andb_comm hasRatio). by destruct (_ && hasRatio), (_ && hasPrice).
Qed.

Lemma resolve_models r final : map fst final = OPTION_KEYS -> resolutions_ok r ->
  exists final', fold_result resolve_model r final = Ok final' /\ map fst final' = OPTION_KEYS /\
    forall f m, f ∈ SYNC_FIELD_ORDER -> saved_value final' f m =
      match obj_get m r with
      | None => saved_value final f m
      | Some chosen => match obj_get f chosen with Some v => Some (saved_form f v) | None => if displaced f chosen then None else saved_value final f m end
      end.
Proof.
  revert final. induction r as [|[m chosen] r IH]; intros final Hk [Hn Hr]; [by exists final|]. cbn [map fst] in Hn. apply NoDup_cons in Hn as [Hm Hn].
  destruct (resolve_model_values m chosen final Hk) as (final1 & E1 & Hk1 & H1); [apply (Hr m); left|].
  destruct (IH final1 Hk1) as (final2 & E2 & Hk2 & H2); [split; [done|]; intros m' d' H; apply (Hr m'); by right|].
  exists final2. cbn [fold_result]. rewrite E1. cbn [mbind result_bind]. split; [done|]. split; [done|]. intros f m' Hf.
  rewrite (H2 f m' Hf), (H1 f m' Hf). cbn [obj_get]. destruct (bool_decide_reflect (m' = m)) as [->|]; [|done].
  destruct (obj_get m r) eqn:E; [|done]. destruct Hm. apply obj_get_fst. by eexists.
Qed.

Lemma final_start currentRatios f m : f ∈ SYNC_FIELD_ORDER ->
  map fst (final_ratios currentRatios) = OPTION_KEYS /\ saved_value (final_ratios currentRatios) f m = local_value currentRatios f m.
Proof.
  intros Hf. split; [unfold final_ratios; rewrite map_map; by apply map_id|]. unfold saved_value, local_value, final_ratios.
  apply field_key in Hf. revert Hf. generalize (optionKeyBySyncField f). intros key. generalize OPTION_KEYS. intros keys Hin.
  induction keys as [|key' keys IH]; [by apply not_elem_of_nil in Hin|]. cbn [map obj_get]. case_bool_decide as E; [by subst|].
  apply IH. by apply elem_of_cons in Hin as [|].
Qed.

Lemma synced_values r currentRatios : resolutions_ok r ->
  exists final, synced_ratios r currentRatios = Ok final /\ map fst final = OPTION_KEYS /\
    forall f m, f ∈ SYNC_FIELD_ORDER -> saved_value final f m = synced_value r currentRatios f m.
Proof.
  intros Hr. assert (js "model_price" ∈ SYNC_FIELD_ORDER) as Hp by (apply (bool_decide_unpack _); vm_compute; exact I).
  destruct (resolve_models r (final_ratios currentRatios)) as (final & E & Hk & H); [by apply (final_start currentRatios _ [] Hp)|done|].
  exists final. split; [done|]. split; [done|]. intros f m Hf. rewrite (H f m Hf). unfold synced_value.
  by rewrite (proj2 (final_start currentRatios f m Hf)).
Qed.

(** A model has both a fixed price and a ratio. *)
Definition both (value : str -> str -> option jsval) (m : str) : Prop :=
  is_Some (value (js "model_price") m) /\ exists f, f ∈ RATIO_SYNC_FIELDS /\ is_Some (value f m).

Lemma price_known : js "model_price" ∈ SYNC_FIELD_ORDER.
Proof. apply (bool_decide_unpack _). vm_compute. exact I. Qed.

Lemma price_not_ratio f : f ∈ RATIO_SYNC_FIELDS -> bool_decide (f = js "model_price") = false.
Proof. intros H. apply bool_decide_eq_false. intros ->. revert H. apply (bool_decide_unpack _). vm_compute. exact I. Qed.

Lemma chosen_field (chosen : model_resolution) f : is_Some (obj_get f chosen) <-> f ∈ map fst chosen.
Proof. apply obj_get_fst. Qed.

Lemma has_ratio (chosen : model_resolution) : existsb (fun rt => bool_decide (rt ∈ RATIO_SYNC_FIELDS)) (map fst chosen) = true <->
  exists f, f ∈ RATIO_SYNC_FIELDS /\ f ∈ map fst chosen.
Proof.
  rewrite existsb_exists. split.
  - intros (f & Hin & Hf). apply bool_decide_eq_true in Hf. exists f. split; [done|]. by apply list_elem_of_In.
  - intros (f & Hf & Hin). exists f. split; [by apply list_elem_of_In|]. by apply bool_decide_eq_true.
Qed.

Lemma has_price (chosen : model_resolution) : has_own chosen (js "model_price") = true <-> js "model_price" ∈ map fst chosen.
Proof. unfold has_own. rewrite <- chosen_field. destruct (obj_get _ chosen); split; [eauto|done|done|by intros []]. Qed.

Lemma displaced_ratio f chosen : f ∈ RATIO_SYNC_FIELDS -> displaced f chosen = has_own chosen (js "model_price").
Proof. intros H. unfold displaced. rewrite bool_decide_eq_true_2, price_not_ratio by done. cbn. by rewrite orb_false_r. Qed.

Lemma displaced_price chosen : displaced (js "model_price") chosen = existsb (fun rt => bool_decide (rt ∈ RATIO_SYNC_FIELDS)) (map fst chosen).
Proof.
  unfold displaced. rewrite (bool_decide_eq_true_2 (js "model_price" = _)) by done. rewrite (bool_decide_eq_false_2 (js "model_price" ∈ RATIO_SYNC_FIELDS)); [done|].
  apply (bool_decide_unpack _). vm_compute. exact I.
Qed.

(** C26: Saving writes exactly what was chosen. For consistent choices the updates are computed without
    an error and cover every price option; a chosen field gets its value, as a number where prices are
    numbers; a field of the kind that a choice replaces is removed; everything else keeps its value.
    A model has both a fixed price and a ratio afterwards only when it had both and neither was chosen. *)
Theorem sync_exact r currentRatios : resolutions_ok r ->
  exists final, performSync r currentRatios = Ok (map (fun e : str * list (str * jsval) => (e.1, JSON_stringify_indented (VObject e.2))) final) /\
    map fst final = OPTION_KEYS /\
    (forall f m, f ∈ SYNC_FIELD_ORDER -> saved_value final f m = synced_value r currentRatios f m) /\
    forall m, both (saved_value final) m ->
      both (local_value currentRatios) m /\ forall f, f ∈ NUMERIC_SYNC_FIELDS -> obj_get m r ≫= obj_get f = None.
Proof.
  intros Hr. destruct (synced_values r currentRatios Hr) as (final & E & Hk & H). exists final. unfold performSync. rewrite E. cbn [mbind result_bind].
  split; [done|]. split; [done|]. split; [done|]. intros m [Hp (f & Hf & Hv)]. rewrite (H _ m price_known) in Hp.
  rewrite (H f m (ratio_known f Hf)) in Hv. unfold synced_value in Hp, Hv. destruct (obj_get m r) as [chosen|] eqn:Em.
  2: { split; [|done]. split; [done|]. by exists f. }
  assert (draft_ok chosen) as [_ _ Hex _] by (pose proof (resolution_draft r m Hr) as Hd; by rewrite Em in Hd).
  rewrite displaced_price in Hp. rewrite (displaced_ratio f chosen Hf) in Hv.
  assert (existsb (fun rt => bool_decide (rt ∈ RATIO_SYNC_FIELDS)) (map fst chosen) = false) as Ex.
  { apply not_true_is_false. intros Ex. rewrite Ex in Hp. destruct (obj_get (js "model_price") chosen) eqn:Ep; [|by destruct Hp].
    apply has_ratio in Ex as (f' & Hf' & Hin). apply (Hex (proj1 (chosen_field chosen _) (mk_is_Some _ _ Ep)) f' Hf' Hin). }
  assert (forall f', f' ∈ RATIO_SYNC_FIELDS -> obj_get f' chosen = None) as Hnone.
  { intros f' Hf'. destruct (obj_get f' chosen) eqn:E'; [|done]. exfalso. rewrite <- not_true_iff_false in Ex. apply Ex, has_ratio.
    exists f'. split; [done|]. apply chosen_field. by eexists. }
  rewrite (Hnone f Hf) in Hv. destruct (has_own chosen (js "model_price")) eqn:Ep; [by destruct Hv|].
  assert (obj_get (js "model_price") chosen = None) as Hpn by (unfold has_own in Ep; by destruct (obj_get _ chosen)).
  rewrite Hpn, Ex in Hp. split; [split; [done|by exists f]|]. intros f' [Hf'|Hf'%list_elem_of_singleton]%elem_of_app; [by apply Hnone|by subst].
Qed.

(** ** Conflicts *)

Definition plain (v : jsval) : Prop := match v with VNumber _ | VString _ => True | _ => False end.

(** The price options are objects of numbers and texts, and no model has both a fixed price and a ratio. *)
Record settings_plain (currentRatios : list (str * jsval)) : Prop := SettingsPlain {
  sp_objects : settings_ok currentRatios;
  sp_values : forall f m v, f ∈ SYNC_FIELD_ORDER -> local_value currentRatios f m = Some v -> plain v;
  sp_single : forall m, ~ both (local_value currentRatios) m;
}.

(** Something the model has is removed by saving. *)
Definition cleared (r : resolutions_map) (currentRatios : list (str * jsval)) (m : str) : Prop :=
  exists f, f ∈ SYNC_FIELD_ORDER /\ is_Some (local_value currentRatios f m) /\ synced_value r currentRatios f m = None.

Section conflicts.
Context (t : str -> str) (differences : differences_map) (currentRatios : list (str * jsval)).
Hypothesis Hs : settings_plain currentRatios.

Lemma read_option f m : f ∈ SYNC_FIELD_ORDER ->
  get_prop (current_option currentRatios (optionKeyBySyncField f)) m = Ok (default VUndefined (local_value currentRatios f m)).
Proof.
  intros Hf. destruct (sp_objects _ Hs (optionKeyBySyncField f) (field_key f Hf)) as [entries E]. unfold local_value. by rewrite E.
Qed.

Lemma read_set f m : f ∈ SYNC_FIELD_ORDER ->
  is_set currentRatios m (optionKeyBySyncField f) = Ok (bool_decide (is_Some (local_value currentRatios f m))).
Proof.
  intros Hf. unfold is_set. rewrite read_option by done. cbn [mbind result_bind]. f_equal.
  destruct (local_value currentRatios f m) as [v|] eqn:E; [|done]. apply (sp_values _ Hs) in E; [|done]. by destruct v.
Qed.

Lemma read_any m fields : (forall f, f ∈ fields -> f ∈ SYNC_FIELD_ORDER) ->
  any_set currentRatios m (map optionKeyBySyncField fields) = Ok (existsb (fun f => bool_decide (is_Some (local_value currentRatios f m))) fields).
Proof.
  induction fields as [|f fields IH]; intros Hf; [done|]. cbn [map any_set existsb]. rewrite read_set by (apply Hf; left). cbn [mbind result_bind].
  case_bool_decide; [done|]. rewrite IH; [done|]. intros f' H'. apply Hf. by right.
Qed.

Lemma local_category m : getLocalBillingCategory m currentRatios =
  Ok (if bool_decide (is_Some (local_value currentRatios (js "model_price") m)) then Some Cat_price
      else if existsb (fun f => bool_decide (is_Some (local_value currentRatios f m))) RATIO_SYNC_FIELDS then Some Cat_ratio else None).
Proof.
  unfold getLocalBillingCategory. change (js "ModelPrice") with (optionKeyBySyncField (js "model_price")).
  rewrite read_set by apply price_known. cbn [mbind result_bind]. case_bool_decide; [done|].
  assert (RATIO_OPTION_KEYS = map optionKeyBySyncField RATIO_SYNC_FIELDS) as -> by by vm_compute.
  rewrite read_any by apply ratio_known. done.
Qed.

Lemma plain_text v : plain v -> exists s, to_string v = Ok s.
Proof. by destruct v; try done; intros _; eexists. Qed.

Lemma ratio_text a b : (forall v, a = Some v -> plain v) -> (forall v, b = Some v -> plain v) ->
  exists s, ratio_description t (default VUndefined a) (default VUndefined b) = Ok s.
Proof.
  assert (forall o, (forall v, o = Some v -> plain v) -> exists s, text_or_dash (default VUndefined o) = Ok s) as Hd.
  { intros [v|] Ho; [|by eexists]. specialize (Ho v eq_refl). cbn. destruct v; try done; by eexists. }
  intros Ha Hb. unfold ratio_description. destruct (Hd a Ha) as [x ->], (Hd b Hb) as [y ->]. by eexists.
Qed.

Definition local_price (m : str) : bool := bool_decide (is_Some (local_value currentRatios (js "model_price") m)).
Definition local_ratio (m : str) : bool := existsb (fun f => bool_decide (is_Some (local_value currentRatios f m))) RATIO_SYNC_FIELDS.
Definition chosen_price (chosen : model_resolution) : bool := has_own chosen (js "model_price").
Definition chosen_ratio (chosen : model_resolution) : bool := existsb (fun rt => bool_decide (rt ∈ RATIO_SYNC_FIELDS)) (map fst chosen).
Definition changes_kind (m : str) (chosen : model_resolution) : bool :=
  local_price m && chosen_ratio chosen || local_ratio m && chosen_price chosen.

Lemma local_ratio_spec m : local_ratio m = true <-> exists f, f ∈ RATIO_SYNC_FIELDS /\ is_Some (local_value currentRatios f m).
Proof.
  unfold local_ratio. rewrite existsb_exists. split.
  - intros (f & Hf & Hl). apply bool_decide_eq_true in Hl. exists f. split; [by apply list_elem_of_In|done].
  - intros (f & Hf & Hl). exists f. split; [by apply list_elem_of_In|]. by apply bool_decide_eq_true.
Qed.

Lemma local_single m : local_price m && local_ratio m = false.
Proof.
  apply not_true_is_false. intros [Hp Hr%local_ratio_spec]%andb_true_iff. apply bool_decide_eq_true in Hp. by apply (sp_single _ Hs m).
Qed.

Lemma chosen_single chosen : draft_ok chosen -> chosen_price chosen && chosen_ratio chosen = false.
Proof.
  intros [_ _ Hex _]. apply not_true_is_false. intros [Hp%has_price (f & Hf & Hin)%has_ratio]%andb_true_iff. by apply (Hex Hp f Hf).
Qed.

(** Something is removed exactly when the kind of price changes. *)
Lemma changes_spec m chosen : draft_ok chosen ->
  changes_kind m chosen = true <->
  exists f, f ∈ SYNC_FIELD_ORDER /\ is_Some (local_value currentRatios f m) /\ obj_get f chosen = None /\ displaced f chosen = true.
Proof.
  intros Hd. pose proof (chosen_single chosen Hd) as Hc. destruct Hd as [_ _ Hex _]. unfold changes_kind. rewrite orb_true_iff, !andb_true_iff. split.
  - intros [[Hp Hr]|[Hr Hp]].
    + apply bool_decide_eq_true in Hp. exists (js "model_price"). split; [apply price_known|]. split; [done|]. rewrite Hr, andb_true_r in Hc.
      split; [|by rewrite displaced_price]. unfold chosen_price, has_own in Hc. by destruct (obj_get _ chosen).
    + apply local_ratio_spec in Hr as (f & Hf & Hl). exists f. split; [by apply ratio_known|]. split; [done|]. split; [|by rewrite displaced_ratio].
      destruct (obj_get f chosen) eqn:Ef; [|done]. apply has_price in Hp. destruct (Hex Hp f Hf). apply chosen_field. by eexists.
  - intros (f & Hf & Hl & Hn & [[Hr Hp]%andb_true_iff|[Hr Hp]%andb_true_iff]%orb_true_iff); apply bool_decide_eq_true in Hr.
    + right. split; [|done]. apply local_ratio_spec. by exists f.
    + subst f. left. split; [by apply bool_decide_eq_true|done].
Qed.

Lemma new_category_spec chosen : new_category chosen = if chosen_price chosen then Cat_price else if chosen_ratio chosen then Cat_ratio else Cat_tiered.
Proof.
  unfold new_category, chosen_price, chosen_ratio. destruct (has_own _ _); [done|].
  assert (existsb (fun rt => bool_decide (rt ∈ map fst chosen)) RATIO_SYNC_FIELDS = existsb (fun rt => bool_decide (rt ∈ RATIO_SYNC_FIELDS)) (map fst chosen)) as ->; [|done].
  apply eq_true_iff_eq. rewrite has_ratio, existsb_exists. split.
  - intros (f & Hf & Hin). apply bool_decide_eq_true in Hin. exists f. split; [by apply list_elem_of_In|done].
  - intros (f & Hf & Hin). exists f. split; [by apply list_elem_of_In|]. by apply bool_decide_eq_true.
Qed.

Lemma current_texts m : exists s, (modelRatio ← get_prop (current_option currentRatios (js "ModelRatio")) m;
  completionRatio ← get_prop (current_option currentRatios (js "CompletionRatio")) m;
  ratio_description t modelRatio completionRatio) = Ok s.
Proof.
  change (js "ModelRatio") with (optionKeyBySyncField (js "model_ratio")). change (js "CompletionRatio") with (optionKeyBySyncField (js "completion_ratio")).
  assert (js "model_ratio" ∈ SYNC_FIELD_ORDER /\ js "completion_ratio" ∈ SYNC_FIELD_ORDER) as [H1 H2]
    by (split; apply (bool_decide_unpack _); vm_compute; exact I).
  rewrite !read_option by done. cbn [mbind result_bind]. apply ratio_text; intros v; by apply (sp_values _ Hs).
Qed.

(** A model is in conflict when its kind of price changes. *)
Lemma model_conflict_spec m chosen : (forall f v, obj_get f chosen = Some v -> plain v) -> draft_ok chosen ->
  exists item, model_conflict t differences currentRatios (m, chosen) = Ok item /\
    if changes_kind m chosen then exists c, item = Some c /\ ci_model c = m else item = None.
Proof.
  intros Hp Hd. pose proof (chosen_single chosen Hd) as Hc. pose proof (local_single m) as Hl.
  unfold model_conflict, changes_kind. rewrite local_category, new_category_spec. fold (local_price m) (local_ratio m). cbn [mbind result_bind].
  destruct (local_price m) eqn:Elp, (local_ratio m) eqn:Elr; try done.
  - destruct (chosen_price chosen) eqn:Ecp, (chosen_ratio chosen) eqn:Ecr; try done; cbn [andb orb]; [by eexists| |by eexists].
    apply bool_decide_eq_true in Elp as [pv Ev]. change (js "ModelPrice") with (optionKeyBySyncField (js "model_price")).
    rewrite read_option, Ev by apply price_known. cbn [mbind result_bind default from_option id].
    destruct (plain_text pv) as [s ->]; [apply (sp_values _ Hs _ _ _ price_known Ev)|]. cbn [mbind result_bind].
    destruct (ratio_text (obj_get (js "model_ratio") chosen) (obj_get (js "completion_ratio") chosen)) as [s2 ->]; [by intros v; apply Hp..|].
    eexists. split; [done|]. by eexists.
  - destruct (chosen_price chosen) eqn:Ecp, (chosen_ratio chosen) eqn:Ecr; try done; cbn [andb orb]; [|by eexists..].
    destruct (current_texts m) as [s E]. cbn [negb bool_decide decide_rel decide]. unfold mbind, result_bind in E |- *.
    assert (is_Some (obj_get (js "model_price") chosen)) as [pv Ev] by by apply chosen_field, has_price.
    destruct (plain_text pv) as [s2 E2]; [by apply (Hp (js "model_price"))|].
    repeat (rewrite bool_decide_eq_false_2 by done). cbn [negb andb]. rewrite E, Ev. cbn [default from_option id]. rewrite E2.
    eexists. split; [done|]. by eexists.
  - destruct (chosen_price chosen), (chosen_ratio chosen); try done; cbn [andb orb]; by eexists.
Qed.
End conflicts.

(** C31: The administrator is asked exactly when saving removes something. For settings of numbers and
    texts in which no model has both a fixed price and a ratio, and consistent choices, computing the
    conflicts never throws; a model is in conflict exactly when it is among the chosen ones and saving
    removes one of its prices; so without a conflict everything the models had is kept or replaced by
    a chosen value. *)
Theorem conflicts_exact t differences r currentRatios : settings_plain currentRatios -> resolutions_ok r ->
  (forall m chosen f v, obj_get m r = Some chosen -> obj_get f chosen = Some v -> plain v) ->
  exists items, sync_conflicts t differences currentRatios r = Ok items /\
    (forall m, m ∈ map ci_model items <-> cleared r currentRatios m) /\
    (items = [] <-> forall f m, f ∈ SYNC_FIELD_ORDER -> is_Some (local_value currentRatios f m) -> is_Some (synced_value r currentRatios f m)).
Proof.
  intros Hs [Hn Hr] Hp.
  assert (forall m chosen, (m, chosen) ∈ r -> obj_get m r = Some chosen) as Hget by (intros; by apply obj_get_value).
  assert (exists items, sync_conflicts t differences currentRatios r = Ok items /\
    forall m, m ∈ map ci_model items <-> exists chosen, (m, chosen) ∈ r /\ changes_kind currentRatios m chosen = true) as (items & E & Hi).
  { unfold sync_conflicts. assert (forall e, e ∈ r -> e ∈ r) as Hin by done. revert Hin. generalize r at 1 3 4. intros l.
    induction l as [|[m chosen] l IH]; intros Hin.
    - exists []. split; [done|]. intros m. split; [by intros ?%not_elem_of_nil|by intros (? & ?%not_elem_of_nil & _)].
    - assert ((m, chosen) ∈ r) as Hm by (apply Hin; left).
      destruct (model_conflict_spec t differences currentRatios Hs m chosen) as (item & E & Hc); [by intros f v; apply (Hp m); auto|by apply (Hr m)|].
      destruct IH as (items & Es & Hi); [intros e He; apply Hin; by right|]. cbn [mapM]. unfold model_resolution, resolutions_map in *. rewrite E. destruct (mapM _ l) as [found|]; [|done].
      cbn [mbind result_bind] in Es |- *. injection Es as Es. eexists. split; [done|]. intros m'. cbn [omap list_omap].
      setoid_rewrite elem_of_cons. destruct (changes_kind currentRatios m chosen) eqn:Ec.
      + destruct Hc as (c & -> & Hc). cbn [map]. rewrite Es, elem_of_cons, Hi, Hc. split.
        * intros [->|(ch & Hch & Hk)]; [exists chosen; by split; [left|]|exists ch; by split; [right|]].
        * intros (ch & [[= -> ->]|Hch] & Hk); [by left|right; by exists ch].
      + subst item. rewrite Es, Hi. split; [intros (ch & Hch & Hk); exists ch; by split; [right|]|].
        intros (ch & [[= -> ->]|Hch] & Hk); [congruence|by exists ch]. }
  assert (forall m, m ∈ map ci_model items <-> cleared r currentRatios m) as Hcl.
  { intros m. rewrite Hi. unfold cleared, synced_value. split.
    - intros (chosen & Hm & Hc). apply changes_spec in Hc as (f & Hf & Hl & Hnone & Hd); [|by apply (Hr m)].
      exists f. rewrite (Hget m chosen Hm), Hnone, Hd. done.
    - intros (f & Hf & [v Hl] & Hnone). destruct (obj_get m r) as [chosen|] eqn:Em; [|congruence]. apply obj_get_value in Em as Hin; [|done].
      exists chosen. split; [done|]. apply changes_spec; [by apply (Hr m)|]. exists f. destruct (obj_get f chosen); [done|].
      destruct (displaced f chosen); [|congruence]. split; [done|]. by split. }
  exists items. split; [done|]. split; [done|]. split.
  - intros -> f m Hf Hl. destruct (synced_value r currentRatios f m) eqn:Ev; [by eexists|]. exfalso.
    apply (not_elem_of_nil m), (proj2 (Hcl m)). by exists f.
  - intros H. destruct items as [|c items]; [done|]. exfalso. destruct (proj1 (Hcl (ci_model c))) as (f & Hf & Hl & Hnone); [left|].
    specialize (H f _ Hf Hl). rewrite Hnone in H. by destruct H.
Qed.

(** * The check box of a column *)

(** A value that the column of a source offers for selection. *)
Definition visible_value (differences : differences_map) (source : str) (sel : selection) : Prop :=
  exists diffs, obj_get (se_model sel) differences = Some diffs /\ se_sourceName sel = source /\
    se_value sel = upstream_value diffs (se_ratioType sel) source /\ isSelectableUpstreamValue (se_value sel) = true /\
    getPreferredSyncField diffs (se_ratioType sel) source = se_ratioType sel.

Lemma visible_preferred differences source sel diffs : visible_value differences source sel -> obj_get (se_model sel) differences = Some diffs ->
  preferred (Some diffs) sel = (se_ratioType sel, se_value sel).
Proof.
  intros (d & Hd & Hs & Hv & Hsel & Hp) E. rewrite E in Hd. injection Hd as <-. unfold preferred. cbn [default from_option id].
  rewrite Hs, Hp. by rewrite bool_decide_eq_true_2.
Qed.

Lemma visible_resolved differences source sel : visible_value differences source sel -> resolveResolutionSelection differences sel = sel.
Proof.
  intros Hv. pose proof Hv as (d & Hd & _). unfold resolveResolutionSelection. rewrite Hd, (visible_preferred _ _ _ _ Hv Hd). by destruct sel.
Qed.

(** A source with an expression for the model offers only that. *)
Lemma visible_expression differences source sel diffs : visible_value differences source sel -> obj_get (se_model sel) differences = Some diffs ->
  isSelectableUpstreamValue (upstream_value diffs (js "billing_expr") source) = true -> se_ratioType sel = js "billing_expr".
Proof.
  intros (d & Hd & _ & _ & _ & Hp) E Hx. rewrite E in Hd. injection Hd as <-. unfold getPreferredSyncField in Hp. rewrite Hx, andb_true_r in Hp.
  case_bool_decide as En; [done|]. by cbn in Hp.
Qed.

(** The selection is stored, and the others of the column stay. *)
Lemma select_draft_value differences source sel diffs d : visible_value differences source sel ->
  obj_get (se_model sel) differences = Some diffs -> obj_get (se_ratioType sel) (select_draft (Some diffs) sel d) = Some (se_value sel).
Proof.
  intros Hv Hd. unfold select_draft. rewrite (visible_preferred _ _ _ _ Hv Hd).
  assert (obj_get (se_ratioType sel) (obj_set (se_ratioType sel) (se_value sel) (keep_category (getBillingCategory (se_ratioType sel)) d)) = Some (se_value sel)) as H0
    by by rewrite obj_get_set, bool_decide_eq_true_2.
  destruct (getBillingCategory (se_ratioType sel)) eqn:Ec; [done..|].
  pose proof Hv as (d' & Hd' & Hs & Hval & Hsel & Hp). rewrite Hd in Hd'. injection Hd' as <-. rewrite Hs.
  apply tiered_category in Ec as [E|E].
  - rewrite E in *. rewrite <- Hval, Hsel. rewrite obj_set_set.
    destruct (isSelectableUpstreamValue (upstream_value diffs (js "billing_expr") source)) eqn:Ex.
    + pose proof (visible_expression _ _ _ _ Hv Hd Ex) as H. rewrite E in H. vm_compute in H. done.
    + done.
  - rewrite E in *. rewrite <- Hval, Hsel. by rewrite obj_get_set, bool_decide_eq_true_2.
Qed.

Definition kinds_agree (a b : str) : Prop :=
  getBillingCategory a <> Cat_tiered -> getBillingCategory b <> Cat_tiered -> getBillingCategory a = getBillingCategory b.

Lemma kept_value c d k : (c = Cat_tiered \/ getBillingCategory k = Cat_tiered \/ getBillingCategory k = c) ->
  obj_get k (keep_category c d) = obj_get k d.
Proof.
  intros Hc. unfold keep_category. induction d as [|[k' v] d IH]; [done|]. cbn [List.filter fst obj_get]. destruct (bool_decide_reflect (k = k')) as [E|E].
  - subst k'. assert (negb (negb (bool_decide (c = Cat_tiered)) && negb (bool_decide (getBillingCategory k = Cat_tiered)) &&
      negb (bool_decide (getBillingCategory k = c))) = true) as ->.
    { repeat case_bool_decide; try done. naive_solver. }
    cbn [obj_get]. by rewrite bool_decide_eq_true_2.
  - match goal with |- context [if ?b then (k', v) :: _ else _] => destruct b end; cbn [obj_get].
    + by rewrite (bool_decide_eq_false_2 (k = k')).
    + done.
Qed.

Lemma select_draft_other differences source sel diffs d k : visible_value differences source sel ->
  obj_get (se_model sel) differences = Some diffs -> k <> se_ratioType sel -> kinds_agree k (se_ratioType sel) ->
  (isSelectableUpstreamValue (upstream_value diffs (js "billing_expr") source) = true -> k = js "billing_expr") ->
  obj_get k (select_draft (Some diffs) sel d) = obj_get k d.
Proof.
  intros Hv Hd Hne Hk Hx. unfold select_draft. rewrite (visible_preferred _ _ _ _ Hv Hd).
  assert (obj_get k (obj_set (se_ratioType sel) (se_value sel) (keep_category (getBillingCategory (se_ratioType sel)) d)) = obj_get k d) as H0.
  { rewrite obj_get_set, bool_decide_eq_false_2 by done. apply kept_value. unfold kinds_agree in Hk.
    destruct (decide (getBillingCategory (se_ratioType sel) = Cat_tiered)); [by left|].
    destruct (decide (getBillingCategory k = Cat_tiered)); [by right; left|]. right; right; auto. }
  destruct (getBillingCategory (se_ratioType sel)) eqn:Ec; [done..|]. pose proof Hv as (d' & Hd' & Hs & Hval & Hsel & Hp). rewrite Hs.
  destruct (isSelectableUpstreamValue (upstream_value diffs (js "billing_expr") source)) eqn:Ex.
  - exfalso. apply Hne. rewrite (Hx eq_refl). symmetry. exact (visible_expression _ _ _ _ Hv Hd Ex).
  - assert (se_ratioType sel = js "billing_mode") as Em.
    { apply tiered_category in Ec as [E|E]; [done|]. rewrite Hd in Hd'. injection Hd' as <-. rewrite E in Hval. rewrite Hval in Hsel. congruence. }
    rewrite Em in *. rewrite Hd in Hd'. injection Hd' as <-. rewrite <- Hval, Hsel, obj_set_set. done.
Qed.

(** Differences as the server sends them: known fields, finite numbers for prices, texts for the rest. *)
Definition typed_differences (differences : differences_map) : Prop :=
  NoDup (map fst differences) /\
  forall m diffs field source, obj_get m differences = Some diffs ->
    isSelectableUpstreamValue (upstream_value diffs field source) = true ->
    field ∈ SYNC_FIELD_ORDER /\
    if bool_decide (field ∈ NUMERIC_SYNC_FIELDS) then is_finite (sync_number (upstream_value diffs field source)) = true
    else exists s, upstream_value diffs field source = VString s.

Lemma effective_key_model a b : (0%N ∉ se_ratioType a) -> (0%N ∉ se_ratioType b) -> effective_key a = effective_key b -> se_model a = se_model b.
Proof.
  unfold effective_key. generalize (se_model a) (se_model b) (se_ratioType a) (se_ratioType b). intros m n f g Hf Hg E.
  assert (forall (x y f g : str), (0%N ∉ f) -> (0%N ∉ g) -> f ++ 0%N :: x = g ++ 0%N :: y -> x = y) as H.
  { clear. intros x y f. induction f as [|c f IH]; intros [|d g] Hf Hg E; cbn [app] in E; simplify_eq; [done|set_solver|set_solver|].
    apply (IH g); [set_solver|set_solver|done]. }
  apply (f_equal reverse) in E. rewrite !reverse_app, !reverse_cons, <- !app_assoc in E. cbn [reverse rev_append app] in E.
  apply H in E; [|by rewrite elem_of_reverse..]. by apply (f_equal reverse) in E; rewrite !reverse_involutive in E.
Qed.

Lemma known_no_zero f : f ∈ SYNC_FIELD_ORDER -> 0%N ∉ f.
Proof.
  intros Hf. apply (for_known (fun f => negb (bool_decide (0%N ∈ f)))) in Hf; [|by vm_compute]. by apply negb_true_iff, bool_decide_eq_false in Hf.
Qed.

Section column.
Context (differences : differences_map) (source : str).
Hypothesis Ht : typed_differences differences.

Lemma visible_known sel : visible_value differences source sel -> se_ratioType sel ∈ SYNC_FIELD_ORDER.
Proof. intros (diffs & Hd & _ & Hv & Hs & _). rewrite Hv in Hs. exact (proj1 (proj2 Ht _ _ _ _ Hd Hs)). Qed.

(** The selections that count, of the values seen so far. *)
Record effective_of (seen : list selection) (eff : list (str * selection)) : Prop := EffectiveOf {
  eo_keys : NoDup (map fst eff);
  eo_key : forall k sel, (k, sel) ∈ eff -> k = effective_key sel;
  eo_seen : forall k sel, (k, sel) ∈ eff -> sel ∈ seen;
  eo_kinds : forall k a k' b, (k, a) ∈ eff -> (k', b) ∈ eff -> se_model a = se_model b -> kinds_agree (se_ratioType a) (se_ratioType b);
  eo_models : forall a, a ∈ seen -> exists k b, (k, b) ∈ eff /\ se_model b = se_model a;
}.

Lemma add_effective_of seen eff sel : Forall (visible_value differences source) seen -> visible_value differences source sel ->
  effective_of seen eff -> effective_of (seen ++ [sel]) (add_effective differences eff sel).
Proof.
  intros Hseen Hv [Hk Hkey Hin Hkinds Hmodels]. unfold add_effective. rewrite (visible_resolved _ _ _ Hv).
  set (kept := match getBillingCategory (se_ratioType sel) with Cat_tiered => eff | _ => _ end).
  assert (forall k a, (k, a) ∈ kept <-> (k, a) ∈ eff /\ (se_model a = se_model sel -> kinds_agree (se_ratioType a) (se_ratioType sel))) as Hkept.
  { intros k a. assert (forall c, getBillingCategory (se_ratioType sel) = c -> c <> Cat_tiered ->
      ((k, a) ∈ List.filter (fun e : str * selection => negb (bool_decide (se_model e.2 = se_model sel) &&
         negb (bool_decide (getBillingCategory (se_ratioType e.2) = Cat_tiered)) && negb (bool_decide (getBillingCategory (se_ratioType e.2) = c)))) eff <->
       (k, a) ∈ eff /\ (se_model a = se_model sel -> kinds_agree (se_ratioType a) (se_ratioType sel)))) as Hf.
    { intros c Hc Hne. rewrite !list_elem_of_In, filter_In. cbn [snd]. unfold kinds_agree. rewrite Hc.
      repeat case_bool_decide; cbn; naive_solver. }
    unfold kept. destruct (getBillingCategory (se_ratioType sel)) eqn:Ec; [by apply Hf..|]. unfold kinds_agree. rewrite Ec. naive_solver. }
  assert (forall k a, (k, a) ∈ obj_set (effective_key sel) sel kept -> (k, a) = (effective_key sel, sel) \/ ((k, a) ∈ kept)) as Hset by (intros; by apply obj_set_in).
  assert ((effective_key sel, sel) ∈ obj_set (effective_key sel) sel kept) as Hself.
  { apply obj_get_value; [apply obj_set_keys; unfold kept; destruct (getBillingCategory _); try apply filter_keys; done|].
    by rewrite obj_get_set, bool_decide_eq_true_2. }
  split.
  - apply obj_set_keys. unfold kept. destruct (getBillingCategory _); try apply filter_keys; done.
  - intros k a [[= -> ->]|[H _]%Hkept]%Hset; [done|by apply Hkey].
  - intros k a [[= -> ->]|[H _]%Hkept]%Hset; [set_solver|]. apply elem_of_app. left. by eapply Hin.
  - intros k a k' b Ha Hb E. apply Hset in Ha, Hb. destruct Ha as [[= -> ->]|[Ha Ha']%Hkept], Hb as [[= -> ->]|[Hb Hb']%Hkept].
    + done.
    + intros H1 H2. symmetry. by apply Hb'.
    + by apply Ha'.
    + by apply (Hkinds k a k' b).
  - intros a [Ha| ->%list_elem_of_singleton]%elem_of_app; [|by eexists _, _]. destruct (Hmodels a Ha) as (k & b & Hb & Em).
    destruct (decide (se_model b = se_model sel)) as [E|E]; [exists (effective_key sel), sel; split; [done|congruence]|].
    exists k, b. split; [|done]. assert ((k, b) ∈ kept) as Hbk by (apply Hkept; by split).
    assert (k <> effective_key sel) as Hne.
    { rewrite (Hkey k b Hb). intros E'. apply E. apply effective_key_model; [| |done]; apply known_no_zero, visible_known; [|done].
      rewrite Forall_forall in Hseen. eapply Hseen, Hin, Hb. }
    assert (NoDup (map fst kept)) as Hn by (unfold kept; destruct (getBillingCategory _); try apply filter_keys; done).
    apply obj_get_value; [by apply obj_set_keys|]. rewrite obj_get_set, bool_decide_eq_false_2 by done. by apply obj_get_value.
Qed.

Lemma effective_selections sels : Forall (visible_value differences source) sels ->
  exists eff, getEffectiveResolutionSelections differences sels = map snd eff /\ effective_of sels eff.
Proof.
  intros Hs. eexists. split; [done|]. induction sels as [|sel sels IH] using rev_ind.
  - split; cbn [fold_left]; [by apply NoDup_nil_2|..]; intros; exfalso; by eapply not_elem_of_nil.
  - apply Forall_app in Hs as [Hs [Hsel _]%Forall_cons]. rewrite fold_left_app. cbn [fold_left]. apply add_effective_of; [done|done|by apply IH].
Qed.

(** Applied one after the other, they are all stored. *)
Lemma effective_stored (sels : list selection) r : Forall (visible_value differences source) sels -> NoDup (map effective_key sels) ->
  (forall a b, a ∈ sels -> b ∈ sels -> se_model a = se_model b -> kinds_agree (se_ratioType a) (se_ratioType b)) ->
  forall a, a ∈ sels -> obj_get (se_model a) (fold_left (select_step differences) sels r) ≫= obj_get (se_ratioType a) = Some (se_value a).
Proof.
  induction sels as [|x sels IH] using rev_ind; intros Hv Hn Hk a Ha; [by apply not_elem_of_nil in Ha|].
  apply Forall_app in Hv as [Hv [Hx _]%Forall_cons]. rewrite map_app in Hn. apply NoDup_app in Hn as (Hn & Hd & _).
  rewrite fold_left_app. cbn [fold_left]. unfold select_step at 1. rewrite obj_get_set. pose proof Hx as (diffs & Ed & _). rewrite Ed.
  apply elem_of_app in Ha as [Ha| ->%list_elem_of_singleton].
  - specialize (IH Hv Hn). assert (forall a b, a ∈ sels -> b ∈ sels -> se_model a = se_model b -> kinds_agree (se_ratioType a) (se_ratioType b)) as Hk'
      by (intros; apply Hk; set_solver). specialize (IH Hk' a Ha). case_bool_decide as E; [|done]. cbn [mbind option_bind].
    rewrite <- E. destruct (obj_get (se_model a) (fold_left (select_step differences) sels r)) as [d|]; [|done]. cbn [mbind option_bind default from_option id] in *.
    rewrite Forall_forall in Hv. rewrite (select_draft_other differences source x diffs d); [done|done|done| | |].
    + intros E'. apply (Hd (effective_key a)); [apply list_elem_of_fmap; by exists a|]. apply list_elem_of_singleton. unfold effective_key. by rewrite E, E'.
    + apply Hk; [set_solver|set_solver|done].
    + intros Hxe. rewrite <- E in Ed. exact (visible_expression _ _ _ _ (Hv a Ha) Ed Hxe).
  - rewrite bool_decide_eq_true_2 by done. cbn [mbind option_bind]. by apply (select_draft_value differences source).
Qed.

Lemma stored_elsewhere sels r m : (forall a, a ∈ sels -> se_model a <> m) -> obj_get m (fold_left (select_step differences) sels r) = obj_get m r.
Proof.
  revert r. induction sels as [|x sels IH]; intros r Hm; [done|]. cbn [fold_left]. rewrite IH by (intros; apply Hm; by right).
  unfold select_step. rewrite obj_get_set, bool_decide_eq_false_2; [done|]. intros E. apply (Hm x); [left|done].
Qed.
End column.

(** ** Unselecting *)

Lemma set_add_in (x y : str) (l : list str) : x ∈ set_add y l <-> x = y \/ x ∈ l.
Proof. unfold set_add. case_bool_decide; [|rewrite elem_of_app, list_elem_of_singleton]; set_solver. Qed.

Lemma plan_of sels plan : NoDup (map fst plan) ->
  let plan' := fold_left (fun plan sel => plan_add plan (se_model sel) (se_ratioType sel)) sels plan in
  NoDup (map fst plan') /\
  forall m f, f ∈ default [] (obj_get m plan') <-> f ∈ default [] (obj_get m plan) \/ exists a, a ∈ sels /\ se_model a = m /\ se_ratioType a = f.
Proof.
  cbn zeta. revert plan. induction sels as [|x sels IH]; intros plan Hn.
  - split; [done|]. intros m f. split; [by left|]. intros [H|(a & Ha & _)]; [done|by apply not_elem_of_nil in Ha].
  - cbn [fold_left]. assert (NoDup (map fst (plan_add plan (se_model x) (se_ratioType x)))) as Hn'
      by (unfold plan_add; destruct (obj_get _ plan); by apply obj_set_keys).
    destruct (IH _ Hn') as [H1 H2]. split; [done|]. intros m f. rewrite H2.
    assert (f ∈ default [] (obj_get m (plan_add plan (se_model x) (se_ratioType x))) <-> f ∈ default [] (obj_get m plan) \/ (se_model x = m /\ se_ratioType x = f)) as ->.
    { unfold plan_add. destruct (obj_get (se_model x) plan) as [l|] eqn:E; rewrite obj_get_set; case_bool_decide as Em; cbn [default from_option id].
      - subst m. rewrite E. cbn [default from_option id]. rewrite set_add_in. naive_solver.
      - naive_solver.
      - subst m. rewrite E, list_elem_of_singleton. cbn [default from_option id]. set_solver.
      - naive_solver. }
    split; [intros [[H|H]|(a & Ha & H)]; [by left|right; exists x; by split; [left|]|right; exists a; by split; [right|]]|].
    intros [H|(a & [->|Ha]%elem_of_cons & H)]; [by left; left|by left; right|right; by exists a].
Qed.

Lemma removed_fields fields d f : f ∈ fields -> f ∉ map fst (fold_left remove_field fields d).
Proof.
  assert (forall fields d f, f ∉ map fst d -> f ∉ map fst (fold_left remove_field fields d)) as Hout.
  { clear. induction fields as [|g fields IH]; intros d f Hd; [done|]. apply IH. rewrite remove_field_keys. tauto. }
  revert d. induction fields as [|g fields IH]; intros d; [by intros ?%not_elem_of_nil|]. intros [->|H]%elem_of_cons; cbn [fold_left].
  - apply Hout. rewrite remove_field_keys. naive_solver.
  - by apply IH.
Qed.

Lemma removed_value r plan m f : NoDup (map fst plan) -> f ∈ default [] (obj_get m plan) ->
  obj_get m (applyResolutionRemovalPlan r plan) ≫= obj_get f = None.
Proof.
  unfold applyResolutionRemovalPlan. intros Hn Hf.
  assert (forall plan next, m ∉ map fst plan -> obj_get m (fold_left (remove_model r) plan next) = obj_get m next) as Hout.
  { clear. induction plan as [|[m' fields] plan IH]; intros next Hm; [done|]. cbn [map fst] in Hm. apply not_elem_of_cons in Hm as [Hne Hm].
    cbn [fold_left]. rewrite IH by done. unfold remove_model. cbn [fst snd]. destruct (obj_get m' r); [|done]. unfold put_draft. cbn [fst snd].
    destruct (fold_left remove_field fields _); [rewrite obj_get_delete|rewrite obj_get_set]; by rewrite bool_decide_eq_false_2. }
  assert (forall next, (obj_get m r = None -> obj_get m next = None) -> obj_get m (fold_left (remove_model r) plan next) ≫= obj_get f = None) as H; [|by apply H].
  revert Hn Hf. induction plan as [|[m' fields] plan IH]; intros Hn Hf next Hnext; [by apply not_elem_of_nil in Hf|].
  cbn [map fst] in Hn. apply NoDup_cons in Hn as [Hm Hn]. cbn [fold_left obj_get] in *. case_bool_decide as E.
  - subst m'. cbn [default from_option id] in Hf. rewrite Hout by done. unfold remove_model. cbn [fst snd].
    destruct (obj_get m r) as [d|]; [|by rewrite Hnext]. unfold put_draft. cbn [fst snd].
    pose proof (removed_fields fields d f Hf) as Hd. destruct (fold_left remove_field fields d) as [|e d'] eqn:Ed; [by rewrite obj_get_delete, bool_decide_eq_true_2|].
    rewrite obj_get_set, bool_decide_eq_true_2 by done. cbn [mbind option_bind]. destruct (obj_get f (e :: d')) eqn:Ef; [|done].
    exfalso. apply Hd, obj_get_fst. by eexists.
  - apply IH; [done|done|]. intros Hr. unfold remove_model. cbn [fst snd]. destruct (obj_get m' r); [|by apply Hnext].
    unfold put_draft. cbn [fst snd]. destruct (fold_left remove_field fields _); [rewrite obj_get_delete|rewrite obj_get_set];
      rewrite bool_decide_eq_false_2 by done; by apply Hnext.
Qed.

(** ** The column *)

Lemma column_visible {host : Host} differences search filter source sel : NoDup (map fst differences) ->
  sel ∈ column_selections filter source (filteredData search filter (dataSource differences)) -> visible_value differences source sel.
Proof.
  intros Hn Hin. unfold column_selections in Hin. apply list_elem_of_In, in_flat_map in Hin as (row & Hrow & Hin).
  assert (In row (dataSource differences)) as Hsrc.
  { revert Hrow. unfold filteredData. destruct (trim search); destruct (_ || _); rewrite ?filter_In; tauto. }
  unfold dataSource in Hsrc. apply in_map_iff in Hsrc as ([m diffs] & <- & Hd). cbn [fst snd sr_ratioTypes sr_model] in Hin.
  apply list_elem_of_In in Hin. apply list_elem_of_omap in Hin as (f & Hf & E).
  destruct (isSelectableUpstreamValue (upstream_value diffs f source)) eqn:Es; [|done]. injection E as <-.
  exists diffs. cbn [se_model se_ratioType se_value se_sourceName]. split; [by apply obj_get_value; [|by apply list_elem_of_In]|].
  do 3 (split; [done|]). unfold getAlignedRatioTypes, keep_fields in Hf. apply list_elem_of_In, filter_In in Hf as [_ Hf].
  apply bool_decide_eq_true in Hf. cbn [flat_map] in Hf. rewrite app_nil_r in Hf. unfold getVisibleRatioTypesForSource, keep_fields in Hf.
  apply list_elem_of_In, filter_In in Hf as [_ Hf]. by apply bool_decide_eq_true in Hf.
Qed.

Lemma n_eqb_finite x : is_finite x = true -> n_eqb x x = true.
Proof.
  intros Hx. unfold n_eqb, SFeqb. destruct x as [s|s| |s m e]; try done; cbn; try (by destruct s).
  destruct s; by rewrite Z.compare_refl, Pos.compare_cont_refl.
Qed.

Lemma filter_length_all {A} (p : A -> bool) l : Forall (fun x => p x = true) l -> length (List.filter p l) = length l.
Proof. induction 1 as [|x l Hx _ IH]; [done|]. cbn. rewrite Hx. cbn. by rewrite IH. Qed.
Lemma filter_length_none {A} (p : A -> bool) l : Forall (fun x => p x = false) l -> length (List.filter p l) = 0.
Proof. induction 1 as [|x l Hx _ IH]; [done|]. cbn. by rewrite Hx. Qed.

Lemma selected_value differences source r sel : typed_differences differences -> visible_value differences source sel ->
  obj_get (se_model sel) r ≫= obj_get (se_ratioType sel) = Some (se_value sel) ->
  isSelectedResolutionValue r (se_model sel) (se_ratioType sel) (se_value sel) = true.
Proof.
  intros [_ Ht] (diffs & Hd & _ & Hv & Hs & _) E. unfold isSelectedResolutionValue. rewrite Hs. cbn [negb]. unfold model_resolution, resolutions_map in *. rewrite E.
  rewrite Hv in Hs |- *. destruct (Ht _ _ _ _ Hd Hs) as [_ Hf]. case_bool_decide.
  - rewrite Hf. cbn [andb]. by apply n_eqb_finite.
  - destruct Hf as [s ->]. cbn. by apply bool_decide_eq_true.
Qed.

(** C33: The check box of a column does what it says. For differences as the server sends them and
    whatever search and field filter are set: selecting the column makes every counted value of it
    selected, with one for each model that has a value to select, and leaves the other models alone;
    unselecting the column leaves none of them selected. *)
Theorem column_checkbox {host : Host} differences r search filter source : typed_differences differences ->
  let rows := filteredData search filter (dataSource differences) in
  let state r := bulkSelectState differences r filter rows source in
  let selected := applyResolutionSelections r differences (bs_selections (state r)) in
  let unselected := applyResolutionRemovalPlan r (bs_removalPlan (state r)) in
  bs_selectedCount (state selected) = bs_selectableCount (state selected) /\
  bs_selectedCount (state unselected) = 0 /\
  (forall sel, sel ∈ column_selections filter source rows -> se_model sel ∈ map se_model (bs_selections (state r))) /\
  forall m, m ∉ map se_model (column_selections filter source rows) -> obj_get m selected = obj_get m r.
Proof.
  intros Ht rows state selected unselected. set (column := column_selections filter source rows).
  assert (Forall (visible_value differences source) column) as Hv by (apply Forall_forall; intros sel; apply column_visible, Ht).
  destruct (effective_selections differences source Ht column Hv) as (eff & Ee & [Hk Hkey Hseen Hkinds Hmodels]).
  assert (forall a, a ∈ map snd eff -> exists k, (k, a) ∈ eff) as Hval.
  { intros a Ha. apply list_elem_of_fmap in Ha as ([k b] & -> & Hb). by exists k. }
  assert (Forall (visible_value differences source) (map snd eff)) as Hve.
  { apply Forall_forall. intros a [k Ha]%Hval. rewrite Forall_forall in Hv. apply Hv. by eapply Hseen. }
  split; [|split; [|split]].
  - unfold state, bulkSelectState. cbn [bs_selectedCount bs_selectableCount]. fold column. rewrite Ee. apply filter_length_all.
    apply Forall_forall. intros a Ha. rewrite Forall_forall in Hve. apply (selected_value differences source); [done|by apply Hve|].
    unfold selected, state, bulkSelectState. cbn [bs_selections]. fold column. rewrite Ee, selections_fold.
    apply (effective_stored differences source Ht); [by apply Forall_forall| | |done].
    + assert (map effective_key (map snd eff) = map fst eff) as ->; [|done]. rewrite map_map. apply map_ext_in. intros [k b] Hb.
      symmetry. apply Hkey. by apply list_elem_of_In.
    + intros b c [k Hb]%Hval [k' Hc]%Hval. by eapply Hkinds.
  - unfold state, bulkSelectState. cbn [bs_selectedCount]. fold column. rewrite Ee. apply filter_length_none.
    apply Forall_forall. intros a [k Ha]%Hval. unfold isSelectedResolutionValue. destruct (negb _); [done|].
    unfold unselected, state, bulkSelectState. cbn [bs_removalPlan]. fold column.
    destruct (plan_of column [] ltac:(constructor)) as [Hn Hp]. rewrite removed_value; [done|done|]. apply Hp. right. exists a.
    split; [by eapply Hseen|done].
  - intros a Ha. unfold state, bulkSelectState. cbn [bs_selections]. fold column. rewrite Ee. destruct (Hmodels a Ha) as (k & b & Hb & <-).
    apply list_elem_of_fmap. exists b. split; [done|]. apply list_elem_of_fmap. by exists (k, b).
  - intros m Hm. unfold selected, state, bulkSelectState. cbn [bs_selections]. fold column. rewrite Ee, selections_fold. apply stored_elsewhere.
    intros a [k Ha]%Hval E. apply Hm. apply list_elem_of_fmap. exists a. split; [done|]. by eapply Hseen.
Qed.

(** * Witnesses *)

Definition gpt : str := js "gpt-4".
Definition two : jsval := VNumber (n_of_Z 2).

(** The upstream [up] has a ratio for one model and an expression for another. *)
Definition sample_differences : differences_map :=
  [(gpt, [(js "model_price", Difference VNull [(js "up", two)] [])]);
   (js "o1", [(js "model_ratio", Difference two [(js "up", VString (js "same"))] []);
              (js "billing_expr", Difference VNull [(js "up", VString (js "p * 2"))] [])])].
Definition sample_resolutions : resolutions_map := [(gpt, [(js "model_price", two)])].
Definition sample_settings : list (str * jsval) :=
  map (fun key => (key, VObject (if bool_decide (key = js "ModelRatio") then [(gpt, two)] else []))) OPTION_KEYS.

Lemma sample_resolutions_ok : resolutions_ok sample_resolutions.
Proof.
  split; [apply NoDup_singleton|]. intros m d [= -> ->]%list_elem_of_singleton. split; [done|].
  assert (forall k, k ∈ map fst [(js "model_price", two)] -> k = js "model_price") as Hk by (intros k H; by apply list_elem_of_singleton in H).
  split; [apply NoDup_singleton|intros k ->%Hk; apply price_known| |].
  - intros _ k Hr ->%Hk. apply price_not_ratio in Hr. by rewrite bool_decide_eq_true_2 in Hr.
  - intros H%Hk. vm_compute in H. done.
Qed.

Ltac each_field H := unfold SYNC_FIELD_ORDER, RATIO_SYNC_FIELDS, OPTION_KEYS in H; cbn [app] in H;
  repeat (apply elem_of_cons in H as [->|H]); [..|by apply not_elem_of_nil in H].

Lemma sample_local f m : f ∈ SYNC_FIELD_ORDER ->
  local_value sample_settings f m = if bool_decide (f = js "model_ratio") && bool_decide (m = gpt) then Some two else None.
Proof.
  intros H. each_field H.
  all: unfold local_value; match goal with |- context [spread ?o] => let v := eval vm_compute in (spread o) in change (spread o) with v end.
  all: match goal with |- context [bool_decide (?f = ?g) && _] => let v := eval vm_compute in (bool_decide (f = g)) in change (bool_decide (f = g)) with v end.
  all: done.
Qed.

Lemma sample_settings_plain : settings_plain sample_settings.
Proof.
  split.
  - intros key H. each_field H; eexists; vm_compute; reflexivity.
  - intros f m v Hf. rewrite sample_local by done. destruct (_ && _); [|done]. by intros [= <-].
  - intros m [[v Hv] _]. by rewrite sample_local in Hv by apply price_known.
Qed.

Lemma sample_differences_typed : typed_differences sample_differences.
Proof.
  split; [apply (bool_decide_unpack _); vm_compute; exact I|]. intros m diffs field source Hd Hs.
  unfold sample_differences in Hd. cbn [obj_get] in Hd. repeat case_bool_decide; simplify_eq.
  all: unfold upstream_value in *; cbn [obj_get] in *; repeat (case_bool_decide; simplify_eq); cbn [df_upstreams obj_get] in *.
  all: repeat (case_bool_decide; simplify_eq); try done; cbn [default from_option id] in *; try done.
  all: split; [apply (bool_decide_unpack _); vm_compute; exact I|].
  all: try (by eexists); try (vm_compute; reflexivity).
  all: exfalso; match goal with H : context [NUMERIC_SYNC_FIELDS] |- _ => revert H end; apply (bool_decide_unpack _); vm_compute; exact I.
Qed.

(** Prices are fetched and a value is chosen. *)
Lemma selections_consistent_witness : exists st, reachable (fun s => s) st /\ ss_resolutions st = sample_resolutions /\
  resolutions_ok (ss_resolutions st) /\ models_within (ss_resolutions st) (ss_differences st).
Proof.
  set (st := SyncState sample_differences sample_resolutions [] None None).
  assert (reachable (fun s => s) st) as H.
  { apply (Reach_step _ (SyncState sample_differences [] [] None None) (Ev_select (Selection gpt (js "model_price") two (js "up")))).
    - by apply (Reach_step _ (sync_start []) (Ev_fetched sample_differences)); [constructor| |].
    - eexists. split; [vm_compute; reflexivity|]. split; [apply price_known|]. by split; vm_compute.
    - vm_compute. reflexivity. }
  exists st. split; [exact H|]. split; [done|]. exact (selections_consistent (fun s => s) st H).
Defined.

Lemma sync_exact_witness : exists final,
  performSync sample_resolutions sample_settings = Ok (map (fun e : str * list (str * jsval) => (e.1, JSON_stringify_indented (VObject e.2))) final) /\
  saved_value final (js "model_price") gpt = Some two /\ saved_value final (js "model_ratio") gpt = None.
Proof.
  destruct (sync_exact sample_resolutions sample_settings sample_resolutions_ok) as (final & E & _ & H & _). exists final.
  split; [exact E|]. rewrite !H by (apply (bool_decide_unpack _); vm_compute; exact I). by split; vm_compute.
Defined.

Lemma conflicts_exact_witness : exists items,
  sync_conflicts (fun s => s) sample_differences sample_settings sample_resolutions = Ok items /\ gpt ∈ map ci_model items.
Proof.
  destruct (conflicts_exact (fun s => s) sample_differences sample_resolutions sample_settings sample_settings_plain sample_resolutions_ok)
    as (items & E & H & _).
  - intros m chosen f v Em Ef. unfold sample_resolutions in Em. cbn [obj_get] in Em. case_bool_decide; simplify_eq. cbn [obj_get] in Ef.
    by case_bool_decide; simplify_eq.
  - exists items. split; [exact E|]. apply H. exists (js "model_ratio"). split; [apply (bool_decide_unpack _); vm_compute; exact I|].
    split; [|by vm_compute]. eexists. vm_compute. reflexivity.
Defined.

Lemma column_checkbox_witness :
  let rows := @filteredData sample_host [] [] (dataSource sample_differences) in
  let state r := bulkSelectState sample_differences r [] rows (js "up") in
  bs_selectableCount (state []) = 2 /\
  bs_selectedCount (state (applyResolutionSelections [] sample_differences (bs_selections (state [])))) =
  bs_selectableCount (state (applyResolutionSelections [] sample_differences (bs_selections (state [])))).
Proof.
  split; [by vm_compute|].
  exact (proj1 (@column_checkbox sample_host sample_differences [] [] [] (js "up") sample_differences_typed)).
Defined.
