(* ===== verification/PricingSettings.v ===== *)
(** The prices of models in the system settings (features/system-settings/models: the snapshots of
    model-pricing-snapshots.ts, the number format of pricing-format.ts, the Sora tiers of utils.ts,
    model-pricing-adapter.ts, and the options that model-ratio-visual-editor.tsx reads and writes;
    safeJsonParse of utils/json-parser.ts).

    The options are JSON texts of objects by model name.  Of other JSON only null, which makes
    reading throw, is told apart; a value that is no object has no entry for a model.  Property reads
    see own properties.  Translation is an argument; the collation of names is the class
    [Collation]. *)

From S2P Require Import Prelude JsString JsNumber JsNumberOrder JsValue BillingTypes JsJson BillingExpr TaskExpr Currency JsSort.

(** * Values *)

(** [parseFloat(s)] *)
Definition parse_float (s : str) : number :=
  let t := trim_start s in
  let '(negative, rest) := match t with 45%N :: r => (true, r) | 43%N :: r => (false, r) | _ => (false, t) end in
  let x :=
    if starts_with rest (js "Infinity") then S754_infinity false
    else match match_number rest with Some n => number_of_literal (take n rest) | None => n_nan end in
  if negative then n_neg x else x.

(** [safeJsonParse(value, { fallback: {} })] *)
Definition safeJsonParse (value : str) : jsval :=
  match trim value with
  | [] => VObject []
  | trimmedValue => match JSON_parse trimmedValue with Ok v => v | Throw _ => VObject [] end
  end.

Definition record_entries (v : jsval) : result exn (list (str * jsval)) :=
  match v with VUndefined | VNull => Throw type_error | VObject entries => Ok entries | _ => Ok [] end.

(** [value?.toString() || ''] *)
Definition option_text (v : jsval) : result exn str := if is_nullish v then Ok [] else to_string v.
(** [value?.k] *)
Definition optional_prop (v : jsval) (k : str) : result exn jsval := if is_nullish v then Ok VUndefined else get_prop v k.

Definition formatJsonForTextarea (value : str) : str :=
  match trim value with
  | [] => []
  | _ => match JSON_parse value with Ok parsed => JSON_stringify_indented parsed | Throw _ => value end
  end.
Definition normalizeJsonString (value : str) : str :=
  match trim value with
  | [] => []
  | trimmed => match JSON_parse trimmed with Ok parsed => JSON_stringify_value parsed | Throw _ => trimmed end
  end.

(** * Numbers *)

Definition DISPLAY_DECIMALS : Z := 12.
Definition SNAP_DECIMALS : nat := 8.
Definition SNAP_EPSILON : number := number_of_literal (js "1e-12").
(** [Number.EPSILON] *)
Definition number_epsilon : number := number_of_literal (js "2.220446049250313e-16").

(** [Math.round(x)]: the integer part and the exact remainder of a finite number. *)
Definition math_round (x : number) : number :=
  if is_integer x || negb (is_finite x) then x
  else let low := n_floor x in
       let r := if n_leb (n_div n_one (n_of_Z 2)) (n_sub x low) then n_add low n_one else low in
       if n_eqb r n_zero && n_ltb x n_zero then n_neg_zero else r.

Definition roundToDecimals (value : number) (decimals : nat) : number :=
  let factor := n_of_Z (10 ^ Z.of_nat decimals) in
  n_div (math_round (n_mul value factor)) factor.

Fixpoint snap_from (value tolerance : number) (decimals rounds : nat) : number :=
  match rounds with
  | O => value
  | S rounds =>
      let rounded := roundToDecimals value decimals in
      if n_leb (n_abs (n_sub value rounded)) tolerance then rounded else snap_from value tolerance (S decimals) rounds
  end.
Definition snapFloatDrift (value : number) : number :=
  let tolerance := n_max SNAP_EPSILON (n_mul (n_mul (n_abs value) number_epsilon) (n_of_Z 8)) in
  snap_from value tolerance 0 (S SNAP_DECIMALS).

(** Of a finite number; the callers have checked it. *)
Definition formatPricingNumber (num : number) : str :=
  if is_finite num then string_of_number (parse_float (to_fixed (snapFloatDrift num) DISPLAY_DECIMALS)) else [].

(** [toNumberOrNull] of a text *)
Definition toNumberOrNull (value : str) : option number :=
  match value with
  | [] => None
  | _ => let num := number_of_string value in if is_finite num then Some num else None
  end.

(** A denominator that is not given is 2. *)
Definition ratioToPrice (ratio : str) (denominator : option str) : str :=
  let denominatorNumber :=
    match denominator with Some ((_ :: _) as d) => toNumberOrNull d | _ => Some (n_of_Z 2) end in
  match toNumberOrNull ratio, denominatorNumber with
  | Some r, Some d => formatPricingNumber (n_mul r d)
  | _, _ => []
  end.

(** * Sora tiers *)

(** A tier draft is its resolution and its multiplier, as texts. *)
Definition tier_draft : Type := str * str.

(** [String(value ?? '')] *)
Definition text_or_empty (v : jsval) : result exn str := if is_nullish v then Ok [] else to_string v.

Definition clone_tier (tier : jsval) : result exn tier_draft :=
  value ← optional_prop tier (js "value"); valueText ← text_or_empty value;
  multiplier ← optional_prop tier (js "multiplier"); multiplierText ← text_or_empty multiplier;
  Ok (valueText, multiplierText).
Definition cloneSoraResolutionTiers (tiers : jsval) : result exn (list tier_draft) :=
  match tiers with VArray items => mapM clone_tier items | _ => Ok [] end.

Definition normalizeSoraDrafts (tiers : list tier_draft) : list tier_draft :=
  List.filter (fun tier : tier_draft => negb (bool_decide (tier = ([], [])))) (map (fun tier : tier_draft => (trim tier.1, trim tier.2)) tiers).

Definition parseOptionalSoraSurcharge (value : str) : result exn (option number) :=
  match trim value with
  | [] => Ok None
  | trimmed =>
      let surcharge := number_of_string trimmed in
      if negb (is_finite surcharge) || n_ltb surcharge n_zero
      then Throw (NativeError (js "Sora audio generation surcharge must be greater than or equal to 0"))
      else Ok (Some surcharge)
  end.

Definition parse_tier (tier : tier_draft) : result exn jsval :=
  let multiplier := number_of_string tier.2 in
  if negb (is_finite multiplier) || n_leb multiplier n_zero then Throw (NativeError (js "Sora tier multiplier must be greater than 0"))
  else Ok (VObject [(js "value", VString tier.1); (js "multiplier", VNumber multiplier)]).

(** The stored Sora prices; nothing when they are off and empty. *)
Definition serializeSoraPerRequestPricing (enabled : bool) (tiers : list tier_draft) (audioGenerationSurcharge : str) :
    result exn (option jsval) :=
  let normalized := normalizeSoraDrafts tiers in
  surcharge ← parseOptionalSoraSurcharge audioGenerationSurcharge;
  if negb enabled && bool_decide (normalized = []) && bool_decide (surcharge = None) then Ok None
  else if negb (bool_decide (NoDup (map fst normalized))) then Throw (NativeError (js "Sora resolution tiers must be unique"))
  else
    parsedTiers ← mapM parse_tier normalized;
    Ok (Some (VObject ([(js "enabled", VBool enabled); (js "resolution_tiers", VArray parsedTiers)] ++
                       match surcharge with Some x => [(js "audio_generation_surcharge", VNumber x)] | None => [] end))).

(** * Data *)

(** The numeric fields of a model with their options. *)
Definition NUMERIC_FIELDS : list (str * str) :=
  [(js "price", js "ModelPrice"); (js "ratio", js "ModelRatio"); (js "cacheRatio", js "CacheRatio");
   (js "createCacheRatio", js "CreateCacheRatio"); (js "completionRatio", js "CompletionRatio"); (js "imageRatio", js "ImageRatio");
   (js "audioRatio", js "AudioRatio"); (js "audioCompletionRatio", js "AudioCompletionRatio")].
Definition PRICE_FIELD : str := js "price".
Definition RATIO_FIELDS : list str := tail (map fst NUMERIC_FIELDS).
Definition MODE_KEY : str := js "billing_setting.billing_mode".
Definition EXPR_KEY : str := js "billing_setting.billing_expr".
Definition SORA_KEY : str := js "billing_setting.sora_per_request_pricing".
Definition PLUGIN_KEY : str := js "billing_setting.plugin_billing_expr".

(** [ModelRatioData]: the texts of the numeric fields by name, a missing one reads as empty. *)
Record model_pricing := ModelPricing {
  mp_name : str;
  mp_values : list (str * str);
  mp_billingMode : str;
  mp_billingExpr : option str;
  mp_requestRuleExpr : option str;
  mp_pluginBillingExpressions : list (str * str);
  mp_soraEnabled : bool;
  mp_soraTiers : list tier_draft;
  mp_soraSurcharge : str;
}.
#[export] Instance model_pricing_eq_dec : EqDecision model_pricing.
Proof. solve_decision. Defined.
(** [ModelPricingSnapshot] *)
Record snapshot := Snapshot { sn_pricing : model_pricing; sn_hasConflict : bool }.

Definition field_text (p : model_pricing) (field : str) : str := default [] (obj_get field (mp_values p)).

(** The options, read: an object by model name each. *)
Record setting_maps := SettingMaps {
  sm_numeric : list (str * list (str * jsval));
  sm_mode : list (str * jsval);
  sm_expr : list (str * jsval);
  sm_sora : list (str * jsval);
  sm_plugin : list (str * jsval);
}.

Definition read_option (options : list (str * str)) (key : str) : result exn (list (str * jsval)) :=
  record_entries (safeJsonParse (default [] (obj_get key options))).

Definition read_settings (options : list (str * str)) : result exn setting_maps :=
  numeric ← mapM (fun f : str * str => entries ← read_option options f.2; Ok (f.1, entries)) NUMERIC_FIELDS;
  mode ← read_option options MODE_KEY;
  expr ← read_option options EXPR_KEY;
  sora ← read_option options SORA_KEY;
  plugin ← read_option options PLUGIN_KEY;
  Ok (SettingMaps numeric mode expr sora plugin).

(** * Snapshots *)

(** The model of a plugin key: the text after the first double colon. *)
Definition plugin_model (key : str) : option str :=
  (fun separator => drop (separator + 2) key) <$> index_of key (js "::").

Definition model_names (maps : setting_maps) : list str :=
  distinct (flat_map (fun m : str * list (str * jsval) => map fst m.2) (sm_numeric maps) ++
            map fst (sm_mode maps) ++ map fst (sm_expr maps) ++ map fst (sm_sora maps) ++ omap plugin_model (map fst (sm_plugin maps))).

Definition plugin_suffix (name : str) : str := js "::" ++ name.

(** The texts among the plugin expressions of a model, by plugin. *)
Definition plugin_expressions (plugin : list (str * jsval)) (name : str) : list (str * str) :=
  fold_left (fun o (e : str * str) => obj_set e.1 e.2 o)
    (omap (fun e : str * jsval =>
             match e.2 with
             | VString text => if ends_with e.1 (plugin_suffix name) then Some (take (length e.1 - (length name + 2)) e.1, text) else None
             | _ => None
             end) plugin) [].

Definition numeric_text (maps : setting_maps) (field name : str) : result exn str :=
  option_text (default VUndefined (obj_get name (default [] (obj_get field (sm_numeric maps))))).

Definition is_exactly (v : jsval) (s : str) : bool := match v with VString t => bool_decide (t = s) | _ => false end.

Definition model_snapshot (maps : setting_maps) (name : str) : result exn snapshot :=
  values ← mapM (fun f : str * str => text ← numeric_text maps f.1 name; Ok (f.1, text)) NUMERIC_FIELDS;
  let soraPricing := default VUndefined (obj_get name (sm_sora maps)) in
  enabled ← optional_prop soraPricing (js "enabled");
  rawTiers ← optional_prop soraPricing (js "resolution_tiers");
  tiers ← cloneSoraResolutionTiers rawTiers;
  rawSurcharge ← optional_prop soraPricing (js "audio_generation_surcharge");
  surcharge ← text_or_empty rawSurcharge;
  let plugins := plugin_expressions (sm_plugin maps) name in
  let text field := default [] (obj_get field values) in
  if is_exactly (default VUndefined (obj_get name (sm_mode maps))) (js "tiered_expr") then
    let fullExpr := or_value (default VUndefined (obj_get name (sm_expr maps))) (VString []) in
    split ← match fullExpr with VString s => splitBillingExprAndRequestRules s | _ => Throw type_error end;
    Ok (Snapshot (ModelPricing name values (js "tiered_expr") (Some (billingExpr split)) (Some (requestRuleExpr split)) plugins
                    (truthy enabled) tiers surcharge) false)
  else
    let hasPrice := negb (bool_decide (text PRICE_FIELD = [])) in
    Ok (Snapshot (ModelPricing name values (if hasPrice || truthy enabled then js "per-request" else js "per-token") None None plugins
                    (truthy enabled) tiers surcharge)
          (hasPrice && existsb (fun field => negb (bool_decide (text field = []))) RATIO_FIELDS)).

Definition snapshots_of (maps : setting_maps) : result exn (list snapshot) := mapM (model_snapshot maps) (model_names maps).

Definition buildModelSnapshots (options : list (str * str)) : result exn (list snapshot) :=
  maps ← read_settings options; snapshots_of maps.

Definition isBasePricingUnset (s : option snapshot) : bool :=
  match s with
  | None => true
  | Some s =>
      negb (bool_decide (mp_billingMode (sn_pricing s) = js "tiered_expr")) &&
      bool_decide (field_text (sn_pricing s) PRICE_FIELD = []) && bool_decide (field_text (sn_pricing s) (js "ratio") = [])
  end.

Definition object_of_texts (entries : list (str * str)) : jsval := VObject (map (fun e : str * str => (e.1, VString e.2)) entries).

Definition text_or_default (s fallback : str) : str := match s with [] => fallback | _ => s end.

(** The object whose text is the signature. *)
Definition signature_value (p : model_pricing) : jsval :=
  VObject (map (fun field => (field, VString (field_text p field)))
             [js "price"; js "ratio"; js "cacheRatio"; js "createCacheRatio"; js "completionRatio"; js "imageRatio"; js "audioRatio";
              js "audioCompletionRatio"] ++
           [(js "billingMode", VString (text_or_default (mp_billingMode p) (js "per-token")));
            (js "billingExpr", VString (default [] (mp_billingExpr p)));
            (js "requestRuleExpr", VString (default [] (mp_requestRuleExpr p)));
            (js "pluginBillingExpressions", object_of_texts (mp_pluginBillingExpressions p));
            (js "soraPerRequestPricingEnabled", VBool (mp_soraEnabled p));
            (js "soraResolutionTiers", VArray (map (fun tier : tier_draft => object_of_texts [(js "value", tier.1); (js "multiplier", tier.2)]) (mp_soraTiers p)));
            (js "soraAudioGenerationSurcharge", VString (mp_soraSurcharge p))]).
Definition getSnapshotSignature (s : option snapshot) : str :=
  match s with None => [] | Some s => JSON_stringify_value (signature_value (sn_pricing s)) end.

(** * Summaries *)

Section summaries.
Context (t : str -> str).
Let middle_dot : str := [32; 183; 32]%N.

(** The number of matches of [tier(]; two of them never overlap. *)
Fixpoint count_tiers (text : str) : nat :=
  match text with
  | [] => 0
  | _ :: rest => (if starts_with text (js "tier(") then 1 else 0) + count_tiers rest
  end.

Definition getModeLabel (mode : str) : str :=
  if bool_decide (mode = js "per-request") then js "Per-request"
  else if bool_decide (mode = js "tiered_expr") then js "Expression" else js "Per-token".
Definition getModeVariant (mode : str) : str :=
  if bool_decide (mode = js "per-request") then js "warning"
  else if bool_decide (mode = js "tiered_expr") then js "info" else js "success".

Definition nat_text (n : nat) : str := string_of_Z (Z.of_nat n).

Definition getExpressionSummary (p : model_pricing) : str :=
  let tierCount := count_tiers (default [] (mp_billingExpr p)) in
  if bool_decide (0 < tierCount) then t (js "Tiered pricing") ++ middle_dot ++ nat_text tierCount ++ js " " ++ t (js "tiers")
  else t (js "Expression pricing").

Definition getSoraPriceSummary (p : model_pricing) : str :=
  let tierCount := length (normalizeSoraDrafts (mp_soraTiers p)) in
  match field_text p PRICE_FIELD with
  | [] => t (js "Unset price")
  | price =>
      t (js "Fixed price") ++ js " $" ++ price ++ js " / s" ++
      (if bool_decide (0 < tierCount) then middle_dot ++ nat_text tierCount ++ js " " ++ t (js "tiers") else [])
  end.

Definition getSoraPriceDetail (p : model_pricing) : str :=
  let details := map (fun tier : tier_draft => tier.1 ++ js " (x" ++ tier.2 ++ js ")") (normalizeSoraDrafts (mp_soraTiers p)) ++
    match mp_soraSurcharge p with
    | [] => []
    | surcharge => [t (js "Audio generation") ++ js " ($" ++ surcharge ++ js " / " ++ t (js "request") ++ js ")"]
    end in
  match details with [] => t (js "Resolution tiers not configured") | _ => join (js ", ") details end.

Definition getPriceSummary (p : model_pricing) : str :=
  if bool_decide (mp_billingMode p = js "tiered_expr") then getExpressionSummary p
  else if bool_decide (mp_billingMode p = js "per-request") && mp_soraEnabled p then getSoraPriceSummary p
  else if bool_decide (mp_billingMode p = js "per-request") then
    match field_text p PRICE_FIELD with [] => t (js "Unset price") | price => js "$" ++ price ++ js " / " ++ t (js "request") end
  else match ratioToPrice (field_text p (js "ratio")) None with
       | [] => t (js "Unset price")
       | inputPrice =>
           let extraCount := length (List.filter (fun field => negb (bool_decide (field_text p field = []))) (tail RATIO_FIELDS)) in
           t (js "Input") ++ js " $" ++ inputPrice ++
           (if bool_decide (0 < extraCount) then middle_dot ++ nat_text extraCount ++ js " " ++ t (js "extras") else [])
       end.

Definition getPriceDetail (p : model_pricing) : str :=
  if bool_decide (mp_billingMode p = js "tiered_expr") then
    match default [] (mp_requestRuleExpr p) with [] => t (js "Expression based") | _ => t (js "Includes request rules") end
  else if bool_decide (mp_billingMode p = js "per-request") && mp_soraEnabled p then getSoraPriceDetail p
  else if bool_decide (mp_billingMode p = js "per-request") then t (js "Fixed request price")
  else match ratioToPrice (field_text p (js "ratio")) None with
       | [] => t (js "No base input price")
       | inputPrice =>
           let details := omap (fun part : str * str =>
             match field_text p part.2 with
             | [] => None
             | ratio => Some (t part.1 ++ js " $" ++ ratioToPrice ratio (Some inputPrice))
             end) [(js "Output", js "completionRatio"); (js "Cache", js "cacheRatio"); (js "Cache write", js "createCacheRatio")] in
           match take 2 details with [] => t (js "Base input price only") | shown => join middle_dot shown end
       end.
End summaries.

(** * The editor *)

(** [setIfPresent]: the number of a text, when it is one. *)
Definition present_number (value : str) : option jsval :=
  match value with
  | [] => None
  | _ => let parsed := parse_float value in if is_finite parsed then Some (VNumber parsed) else None
  end.

(** The option of a field without the model, then with the number of the text. *)
Definition write_number (p : model_pricing) (written : list str) (name field : str) (entries : list (str * jsval)) : list (str * jsval) :=
  let entries := obj_delete name entries in
  if bool_decide (field ∈ written) then
    match present_number (field_text p field) with Some v => obj_set name v entries | None => entries end
  else entries.

Definition drop_plugins (name : str) (plugin : list (str * jsval)) : list (str * jsval) :=
  List.filter (fun e : str * jsval => negb (ends_with e.1 (plugin_suffix name))) plugin.
Definition add_plugins (name : str) (expressions : list (str * str)) (plugin : list (str * jsval)) : list (str * jsval) :=
  fold_left (fun plugin (e : str * str) =>
    match trim e.2 with [] => plugin | trimmed => obj_set (e.1 ++ plugin_suffix name) (VString trimmed) plugin end) expressions plugin.

Definition is_tiered (p : model_pricing) : bool := bool_decide (mp_billingMode p = js "tiered_expr").
Definition has_price_text (p : model_pricing) : bool := negb (bool_decide (field_text p PRICE_FIELD = [])).

(** The fields that are written in the branch taken. *)
Definition written_fields (p : model_pricing) : list str :=
  if is_tiered p then map fst NUMERIC_FIELDS else if has_price_text p then [PRICE_FIELD] else RATIO_FIELDS.

Definition combined_expression (p : model_pricing) : str :=
  combineBillingExpr (default [] (mp_billingExpr p)) (default [] (mp_requestRuleExpr p)).

(** The Sora prices that are written. *)
Definition written_sora (p : model_pricing) : result exn (option jsval) :=
  if is_tiered p then Ok None
  else if has_price_text p && bool_decide (mp_billingMode p = js "per-request") then
    serializeSoraPerRequestPricing (mp_soraEnabled p) (mp_soraTiers p) (mp_soraSurcharge p)
  else Ok None.

(** One target of [persistPricingData]. *)
Definition persist_model (p : model_pricing) (maps : setting_maps) (name : str) : result exn setting_maps :=
  let numeric := map (fun m : str * list (str * jsval) => (m.1, write_number p (written_fields p) name m.1 m.2)) (sm_numeric maps) in
  let mode := obj_delete name (sm_mode maps) in
  let expr := obj_delete name (sm_expr maps) in
  let sora := obj_delete name (sm_sora maps) in
  let plugin := add_plugins name (mp_pluginBillingExpressions p) (drop_plugins name (sm_plugin maps)) in
  let combined := combined_expression p in
  let tiered := is_tiered p && negb (bool_decide (combined = [])) in
  soraPricing ← written_sora p;
  Ok (SettingMaps numeric
        (if tiered then obj_set name (VString (js "tiered_expr")) mode else mode)
        (if tiered then obj_set name (VString combined) expr else expr)
        (match soraPricing with Some v => obj_set name v sora | None => sora end)
        plugin).

Definition persist_maps (p : model_pricing) (targetNames : list str) (maps : setting_maps) : result exn setting_maps :=
  fold_result (persist_model p) targetNames maps.

Definition delete_model (name : str) (maps : setting_maps) : setting_maps :=
  SettingMaps (map (fun m : str * list (str * jsval) => (m.1, obj_delete name m.2)) (sm_numeric maps))
    (obj_delete name (sm_mode maps)) (obj_delete name (sm_expr maps)) (obj_delete name (sm_sora maps)) (drop_plugins name (sm_plugin maps)).

(** The texts handed to [onChange]. *)
Definition write_settings (maps : setting_maps) (options : list (str * str)) : list (str * str) :=
  let entries :=
    map (fun f : str * str => (f.2, default [] (obj_get f.1 (sm_numeric maps)))) NUMERIC_FIELDS ++
    [(MODE_KEY, sm_mode maps); (EXPR_KEY, sm_expr maps); (SORA_KEY, sm_sora maps); (PLUGIN_KEY, sm_plugin maps)] in
  fold_left (fun options (e : str * list (str * jsval)) => obj_set e.1 (JSON_stringify_indented (VObject e.2)) options) entries options.

Definition persistPricingData (p : model_pricing) (targetNames : list str) (options : list (str * str)) : result exn (list (str * str)) :=
  maps ← read_settings options;
  maps ← persist_maps p targetNames maps;
  Ok (write_settings maps options).

Definition handleDelete (name : str) (options : list (str * str)) : result exn (list (str * str)) :=
  maps ← read_settings options; Ok (write_settings (delete_model name maps) options).

(** The raw plugin expressions of a model, or of all. *)
Definition getPluginBillingExpressions (raw modelName : str) : result exn (list (str * str)) :=
  values ← record_entries (safeJsonParse raw);
  Ok match modelName with
     | [] => fold_left (fun o (e : str * str) => obj_set e.1 e.2 o)
               (omap (fun e : str * jsval => match e.2 with VString text => Some (e.1, text) | _ => None end) values) []
     | _ => plugin_expressions values modelName
     end.

Definition buildLegacyConversionPricing (p : model_pricing) : list (str * number) :=
  omap (fun f : str * str =>
    match field_text p f.1 with
    | [] => None
    | text => let value := number_of_string text in if is_finite value then Some (f.2, value) else None
    end) NUMERIC_FIELDS.

(** ** Rows *)

Record model_row := ModelRow {
  mr_displayed : snapshot;
  mr_saved : option snapshot;
  mr_draft : option snapshot;
  mr_isDraftChanged : bool;
  mr_isDraftDeleted : bool;
  mr_isDraftNew : bool;
}.
Definition row_name (row : model_row) : str := mp_name (sn_pricing (mr_displayed row)).
Definition blank_snapshot (name : str) : snapshot := Snapshot (ModelPricing name [] (js "per-token") None None [] false [] []) false.

Definition by_name (name : str) (rows : list snapshot) : option snapshot :=
  List.find (fun s => bool_decide (mp_name (sn_pricing s) = name)) rows.

Definition model_row_of (saved draft : list snapshot) (name : str) : model_row :=
  let s := by_name name saved in
  let d := by_name name draft in
  let displayed := match s, d with Some s, _ => s | None, Some d => d | None, None => blank_snapshot name end in
  ModelRow displayed s d (negb (bool_decide (getSnapshotSignature s = getSnapshotSignature d)))
    (match s, d with Some _, None => true | _, _ => false end) (match s, d with None, Some _ => true | _, _ => false end).

Section rows.
Context {collation : Collation}.

(** The rows of the table; [candidates] when only models without a base price are listed. *)
Definition model_rows (savedRows draftRows : list snapshot) (candidates : option (list str)) : list model_row :=
  let names := match candidates with
    | Some names => distinct names
    | None => distinct (map (fun s => mp_name (sn_pricing s)) savedRows ++ map (fun s => mp_name (sn_pricing s)) draftRows)
    end in
  let rows := List.filter (fun row => negb (mr_isDraftDeleted row)) (map (model_row_of savedRows draftRows) names) in
  let rows := match candidates with Some _ => List.filter (fun row => isBasePricingUnset (mr_saved row)) rows | None => rows end in
  sort_with (fun a b => locale_before (row_name b) (row_name a)) rows.
End rows.

Definition row_mode (row : model_row) : str :=
  let mode := mp_billingMode (sn_pricing (mr_displayed row)) in
  if bool_decide (mode = js "per-request") || bool_decide (mode = js "tiered_expr") then mode else js "per-token".
Definition modeCounts (rows : list model_row) : list (str * nat) :=
  map (fun mode => (mode, length (List.filter (fun row => bool_decide (row_mode row = mode)) rows)))
    [js "per-token"; js "per-request"; js "tiered_expr"].

Definition editable_snapshot (row : model_row) : snapshot :=
  match mr_draft row, mr_saved row with Some d, _ => d | None, Some s => s | None, None => mr_displayed row end.

(** [handleEdit] *)
Definition edit_data (options : list (str * str)) (row : model_row) : result exn model_pricing :=
  let p := sn_pricing (editable_snapshot row) in
  plugins ← getPluginBillingExpressions (default [] (obj_get PLUGIN_KEY options)) (mp_name p);
  Ok (ModelPricing (mp_name p) (mp_values p)
        (if is_tiered p then js "tiered_expr" else if has_price_text p || mp_soraEnabled p then js "per-request" else js "per-token")
        (mp_billingExpr p) (mp_requestRuleExpr p) plugins (mp_soraEnabled p) (mp_soraTiers p) (mp_soraSurcharge p)).

Definition conversionCandidates (rows : list model_row) : list model_row :=
  List.filter (fun row => negb (is_tiered (sn_pricing (editable_snapshot row))) && negb (isBasePricingUnset (Some (editable_snapshot row)))) rows.

(** ** Lane prices *)

Record lane_state := LaneState { ls_promptPrice : str; ls_prices : list (str * str); ls_enabled : list (str * bool) }.
Definition LANES : list (str * str) :=
  [(js "completion", js "completionRatio"); (js "cache", js "cacheRatio"); (js "createCache", js "createCacheRatio");
   (js "image", js "imageRatio"); (js "audioInput", js "audioRatio"); (js "audioOutput", js "audioCompletionRatio")].

(** [deriveLanePrice] without a fallback *)
Definition deriveLanePrice (ratio denominator : str) : str :=
  match toNumberOrNull ratio, toNumberOrNull denominator with
  | Some r, Some d => formatPricingNumber (n_mul r d)
  | _, _ => []
  end.
Definition createInitialLaneState (data : option model_pricing) : lane_state :=
  match data with
  | None => LaneState [] (map (fun l : str * str => (l.1, [])) LANES) (map (fun l : str * str => (l.1, false)) LANES)
  | Some p =>
      let promptPrice := match toNumberOrNull (field_text p (js "ratio")) with Some x => formatPricingNumber (n_mul x (n_of_Z 2)) | None => [] end in
      let audioInputPrice := deriveLanePrice (field_text p (js "audioRatio")) promptPrice in
      LaneState promptPrice
        (map (fun l : str * str =>
                (l.1, deriveLanePrice (field_text p l.2) (if bool_decide (l.1 = js "audioOutput") then audioInputPrice else promptPrice))) LANES)
        (map (fun l : str * str => (l.1, negb (bool_decide (field_text p l.2 = [])))) LANES)
  end.

(** ** Reading the server *)

Definition optionKeys : list (str * str) :=
  [(js "ModelPrice", js "ModelPrice"); (js "ModelRatio", js "ModelRatio"); (js "CacheRatio", js "CacheRatio");
   (js "CreateCacheRatio", js "CreateCacheRatio"); (js "CompletionRatio", js "CompletionRatio"); (js "ImageRatio", js "ImageRatio");
   (js "AudioRatio", js "AudioRatio"); (js "AudioCompletionRatio", js "AudioCompletionRatio"); (js "BillingMode", MODE_KEY);
   (js "BillingExpr", EXPR_KEY); (js "PluginBillingExpr", PLUGIN_KEY); (js "SoraPerRequestPricing", SORA_KEY)].

(** The options of a successful answer override the fallback. *)
Definition adaptModelPricingSnapshot (options : option (list (str * jsval))) (fallback : list (str * str)) : list (str * str) :=
  match options with
  | None => fallback
  | Some options =>
      fold_left (fun result (k : str * str) =>
        match obj_get k.2 options with
        | Some (VString value) => if bool_decide (trim value = []) then result else obj_set k.1 value result
        | _ => result
        end) optionKeys fallback
  end.
