(* ===== verification/PricingSettingsProps.v ===== *)
(** Properties of the price settings: saving writes exactly the edited prices to exactly the chosen
    models, saving an unchanged model changes nothing, the signature tells changed drafts from
    unchanged ones, and the table lists every model once. *)

From S2P Require Import Prelude JsString JsNumber JsNumberOrder JsValue BillingTypes JsJson BillingExpr TaskExpr Currency JsSort PricingSettings.

(** * Plugin keys *)

(** A model name that a plugin key separates from its plugin in one way only. *)
Definition separate (name : str) : Prop := includes (58%N :: name) (js "::") = false.

Lemma suffix_unique key m n : separate m -> separate n ->
  ends_with key (plugin_suffix m) = true -> ends_with key (plugin_suffix n) = true -> m = n.
Proof.
  assert (forall a b m n : str, separate m -> length a < length b -> a ++ plugin_suffix m = b ++ plugin_suffix n -> False) as Hlong.
  { clear. intros a b m n Hm Hl E. unfold plugin_suffix in E. change (js "::") with [58%N; 58%N] in E.
    assert (exists c, b = a ++ c) as [c ->].
    { exists (drop (length a) b). rewrite <- (take_drop (length a) b) at 1. f_equal. apply (f_equal (take (length a))) in E.
      rewrite take_app_length, take_app_le in E by lia. done. }
    rewrite <- app_assoc in E. apply app_inv_head in E. destruct c as [|d c]; [rewrite length_app in Hl; cbn in Hl; lia|].
    cbn [app] in E. injection E as <- E. assert (includes (58%N :: m) (js "::") = true) as H; [|unfold separate in Hm; congruence].
    apply includes_spec. exists c, n. exact E. }
  intros Hm Hn (a & Ea)%ends_with_spec (b & Eb)%ends_with_spec. subst key.
  destruct (Nat.lt_trichotomy (length a) (length b)) as [H|[H|H]].
  - by destruct (Hlong a b m n).
  - apply app_inj_1 in Eb as [_ E]; [|done]. unfold plugin_suffix in E. by apply app_inv_head in E.
  - by destruct (Hlong b a n m).
Qed.

Lemma plugin_key_suffix k name : ends_with (k ++ plugin_suffix name) (plugin_suffix name) = true.
Proof. apply ends_with_spec. by exists k. Qed.

Lemma plugin_key_plugin k name : take (length (k ++ plugin_suffix name) - (length name + 2)) (k ++ plugin_suffix name) = k.
Proof.
  unfold plugin_suffix. rewrite !length_app. change (length (js "::")) with 2.
  replace (length k + (2 + length name) - (length name + 2)) with (length k) by lia. apply take_app_length.
Qed.

(** The entries of a model among the plugin expressions. *)
Definition plugin_entries (plugin : list (str * jsval)) (name : str) : list (str * str) :=
  omap (fun e : str * jsval =>
    match e.2 with
    | VString text => if ends_with e.1 (plugin_suffix name) then Some (take (length e.1 - (length name + 2)) e.1, text) else None
    | _ => None
    end) plugin.

Lemma entries_keep plugin m n : separate m -> separate n -> m <> n -> plugin_entries (drop_plugins n plugin) m = plugin_entries plugin m.
Proof.
  intros Hm Hn Hne. unfold drop_plugins, plugin_entries. induction plugin as [|[k v] plugin IH]; [done|]. cbn [List.filter fst].
  destruct (ends_with k (plugin_suffix n)) eqn:E; cbn [negb omap list_omap fst snd]; rewrite IH.
  - destruct (ends_with k (plugin_suffix m)) eqn:Em; [by destruct Hne; apply (suffix_unique k)|]. by destruct v.
  - done.
Qed.

Lemma entries_dropped plugin n : plugin_entries (drop_plugins n plugin) n = [].
Proof.
  unfold drop_plugins, plugin_entries. induction plugin as [|[k v] plugin IH]; [done|]. cbn [List.filter fst].
  destruct (ends_with k (plugin_suffix n)) eqn:E; cbn [negb omap list_omap fst snd]; [done|]. rewrite E, IH. by destruct v.
Qed.

Lemma entries_set_other plugin m n k v : separate m -> separate n -> m <> n ->
  plugin_entries (obj_set (k ++ plugin_suffix n) v plugin) m = plugin_entries plugin m.
Proof.
  intros Hm Hn Hne. unfold plugin_entries.
  assert (ends_with (k ++ plugin_suffix n) (plugin_suffix m) = false) as E.
  { apply not_true_is_false. intros E. apply Hne. apply (suffix_unique (k ++ plugin_suffix n)); [done|done|done|apply plugin_key_suffix]. }
  induction plugin as [|[k' v'] plugin IH]; cbn [obj_set omap list_omap fst snd].
  - rewrite E. by destruct v.
  - destruct (bool_decide_reflect (k ++ plugin_suffix n = k')) as [<-|Hk]; cbn [omap list_omap fst snd].
    + rewrite E. by destruct v, v'.
    + by rewrite IH.
Qed.

Lemma entries_add plugin k text n : k ++ plugin_suffix n ∉ map fst plugin ->
  plugin_entries (obj_set (k ++ plugin_suffix n) (VString text) plugin) n = plugin_entries plugin n ++ [(k, text)].
Proof.
  intros Hk. rewrite obj_set_fresh by done. unfold plugin_entries. rewrite omap_app. f_equal. cbn [omap list_omap fst snd].
  by rewrite plugin_key_suffix, plugin_key_plugin.
Qed.

(** What is written of the plugin expressions. *)
Definition written_plugins (p : model_pricing) : list (str * str) :=
  omap (fun e : str * str => match trim e.2 with [] => None | trimmed => Some (e.1, trimmed) end) (mp_pluginBillingExpressions p).

Lemma add_plugins_other expressions plugin m n : separate m -> separate n -> m <> n ->
  plugin_entries (add_plugins n expressions plugin) m = plugin_entries plugin m.
Proof.
  intros Hm Hn Hne. unfold add_plugins. revert plugin. induction expressions as [|[k e] expressions IH]; intros plugin; [done|].
  cbn [fold_left fst snd]. rewrite IH. destruct (trim e); [done|]. by apply entries_set_other.
Qed.

Lemma add_plugins_own expressions plugin n : NoDup (map fst expressions) -> (forall k, k ∈ map fst expressions -> k ++ plugin_suffix n ∉ map fst plugin) ->
  plugin_entries (add_plugins n expressions plugin) n = plugin_entries plugin n ++
    omap (fun e : str * str => match trim e.2 with [] => None | trimmed => Some (e.1, trimmed) end) expressions.
Proof.
  unfold add_plugins. revert plugin. induction expressions as [|[k e] expressions IH]; intros plugin Hn Hk; [by rewrite app_nil_r|].
  cbn [map fst] in Hn, Hk. apply NoDup_cons in Hn as [Hnot Hn]. cbn [fold_left omap list_omap fst snd].
  destruct (trim e) as [|c s]; [apply IH; [done|]; intros k' H; apply Hk; by right|].
  rewrite IH, entries_add; [by rewrite <- app_assoc|apply Hk; left|done|]. intros k' H. rewrite elem_of_obj_set. intros [E|E].
  - apply app_inv_tail in E. by subst k'.
  - by apply (Hk k'); [right|].
Qed.

Lemma dropped_keys n plugin k : k ++ plugin_suffix n ∉ map fst (drop_plugins n plugin).
Proof.
  intros H. apply list_elem_of_In, in_map_iff in H as ([k' v] & E & H). apply filter_In in H as [_ H]. cbn [fst] in *. subst k'.
  by rewrite plugin_key_suffix in H.
Qed.

Lemma from_entries_id (l : list (str * str)) : NoDup (map fst l) -> fold_left (fun o (e : str * str) => obj_set e.1 e.2 o) l [] = l.
Proof.
  assert (forall acc, NoDup (map fst (acc ++ l)) -> fold_left (fun o (e : str * str) => obj_set e.1 e.2 o) l acc = acc ++ l) as H; [|by apply (H [])].
  induction l as [|[k v] l IH]; intros acc Hn; [by rewrite app_nil_r|]. cbn [fold_left fst snd]. rewrite obj_set_fresh.
  - rewrite IH; [by rewrite <- app_assoc|by rewrite <- app_assoc].
  - rewrite map_app in Hn. apply NoDup_app in Hn as (_ & H & _). intros Hin. apply (H k Hin). left.
Qed.

Lemma written_plugins_nodup p : NoDup (map fst (mp_pluginBillingExpressions p)) -> NoDup (map fst (written_plugins p)).
Proof.
  unfold written_plugins. generalize (mp_pluginBillingExpressions p). intros l. induction l as [|[k e] l IH]; [done|]. cbn [map fst omap list_omap snd].
  intros [Hk Hn]%NoDup_cons. destruct (trim e); [by apply IH|]. cbn [map fst]. apply NoDup_cons. split; [|by apply IH].
  intros Hin. apply Hk. apply list_elem_of_fmap in Hin as ([k' t] & -> & Hin). apply list_elem_of_omap in Hin as ([k2 e2] & Hin & E).
  cbn [fst snd] in E. destruct (trim e2); [done|]. injection E as -> _. apply list_elem_of_fmap. by exists (k', e2).
Qed.

(** * Reading and writing a model *)

Definition settings_shape (maps : setting_maps) : Prop := map fst (sm_numeric maps) = map fst NUMERIC_FIELDS.

(** The stored number of a field of a model. *)
Definition stored (maps : setting_maps) (field name : str) : option jsval := obj_get name (default [] (obj_get field (sm_numeric maps))).

(** Two settings agree on a model. *)
Record agree (name : str) (a b : setting_maps) : Prop := Agree {
  ag_numeric : forall f, f ∈ map fst NUMERIC_FIELDS -> stored a f name = stored b f name;
  ag_mode : obj_get name (sm_mode a) = obj_get name (sm_mode b);
  ag_expr : obj_get name (sm_expr a) = obj_get name (sm_expr b);
  ag_sora : obj_get name (sm_sora a) = obj_get name (sm_sora b);
  ag_plugin : plugin_entries (sm_plugin a) name = plugin_entries (sm_plugin b) name;
}.

Lemma mapM_ext_in {A B} (f g : A -> result exn B) l : (forall x, x ∈ l -> f x = g x) -> mapM f l = mapM g l.
Proof.
  induction l as [|x l IH]; intros H; [done|]. cbn [mapM]. rewrite (H x) by left. rewrite IH; [done|]. intros y Hy. apply H. by right.
Qed.

Lemma agree_snapshot name a b : agree name a b -> model_snapshot a name = model_snapshot b name.
Proof.
  intros [Hn Hm He Hs Hp]. unfold model_snapshot.
  rewrite (mapM_ext_in (fun f : str * str => text ← numeric_text a f.1 name; Ok (f.1, text)) (fun f => text ← numeric_text b f.1 name; Ok (f.1, text))).
  - rewrite Hs, Hm, He. unfold plugin_expressions. unfold plugin_entries in Hp. by rewrite Hp.
  - intros f Hf. unfold numeric_text. fold (stored a f.1 name) (stored b f.1 name). rewrite Hn; [done|]. apply list_elem_of_fmap. by exists f.
Qed.

Lemma agree_trans name a b c : agree name a b -> agree name b c -> agree name a c.
Proof. intros [H1 H2 H3 H4 H5] [K1 K2 K3 K4 K5]. split; [intros f Hf; by rewrite H1, K1|congruence..]. Qed.

Lemma map_get {V W} (g : str -> V -> W) (l : list (str * V)) f : obj_get f (map (fun m : str * V => (m.1, g m.1 m.2)) l) = g f <$> obj_get f l.
Proof. induction l as [|[k v] l IH]; [done|]. cbn [map obj_get fst snd]. case_bool_decide; [by subst|]. done. Qed.

Lemma shape_get maps f : settings_shape maps -> f ∈ map fst NUMERIC_FIELDS -> exists entries, obj_get f (sm_numeric maps) = Some entries.
Proof. intros Hs Hf. rewrite <- Hs in Hf. by apply obj_get_fst in Hf as [entries E]; exists entries. Qed.

(** What is stored after a model was written, for a field. *)
Definition written_number (p : model_pricing) (f : str) : option jsval :=
  if bool_decide (f ∈ written_fields p) then present_number (field_text p f) else None.

Lemma write_number_get p name f entries m : obj_get m (write_number p (written_fields p) name f entries) =
  if bool_decide (m = name) then written_number p f else obj_get m entries.
Proof.
  unfold write_number, written_number. destruct (bool_decide (f ∈ written_fields p)); [|by rewrite obj_get_delete].
  destruct (present_number (field_text p f)); [rewrite obj_get_set|]; rewrite ?obj_get_delete; by case_bool_decide.
Qed.

Lemma persist_shape p maps name maps' : persist_model p maps name = Ok maps' -> settings_shape maps -> settings_shape maps'.
Proof.
  unfold persist_model, settings_shape. destruct (written_sora p); [|done]. cbn [mbind result_bind]. intros [= <-] Hs. cbn [sm_numeric].
  rewrite map_map. cbn [fst]. by rewrite <- Hs.
Qed.

Lemma persist_other p maps name maps' m : settings_shape maps -> persist_model p maps name = Ok maps' -> separate m -> separate name -> m <> name ->
  agree m maps' maps.
Proof.
  intros Hs. unfold persist_model. destruct (written_sora p) as [sora|]; [|done]. cbn [mbind result_bind]. intros [= <-] Hm Hn Hne.
  split; cbn [sm_mode sm_expr sm_sora sm_plugin].
  - intros f Hf. unfold stored. cbn [sm_numeric]. rewrite map_get. destruct (shape_get maps f Hs Hf) as [entries ->]. cbn [fmap option_fmap option_map default from_option id].
    by rewrite write_number_get, bool_decide_eq_false_2.
  - destruct (_ && _); rewrite ?obj_get_set, obj_get_delete, ?bool_decide_eq_false_2; done.
  - destruct (_ && _); rewrite ?obj_get_set, obj_get_delete, ?bool_decide_eq_false_2; done.
  - destruct sora; rewrite ?obj_get_set, obj_get_delete, ?bool_decide_eq_false_2; done.
  - by rewrite add_plugins_other, entries_keep.
Qed.

(** The model as it is after writing. *)
Definition canonical (v : option jsval) : str := match v with Some (VNumber x) => string_of_number x | _ => [] end.

Definition canonical_surcharge (s : str) : str := match trim s with [] => [] | text => string_of_number (number_of_string text) end.
Definition canonical_tiers (tiers : list tier_draft) : list tier_draft :=
  map (fun tier : tier_draft => (tier.1, string_of_number (number_of_string tier.2))) (normalizeSoraDrafts tiers).

(** The Sora part of what is written: nothing, or the given one with its numbers in normal form. *)
Definition expected_sora (p : model_pricing) : result exn (bool * list tier_draft * str) :=
  written ← written_sora p;
  Ok match written with
     | None => (false, [], [])
     | Some _ => (mp_soraEnabled p, canonical_tiers (mp_soraTiers p), canonical_surcharge (mp_soraSurcharge p))
     end.

Definition expected (p : model_pricing) (name : str) : result exn snapshot :=
  let values := map (fun f : str * str => (f.1, canonical (written_number p f.1))) NUMERIC_FIELDS in
  let text field := default [] (obj_get field values) in
  sora ← expected_sora p;
  let '(enabled, tiers, surcharge) := sora in
  if is_tiered p && negb (bool_decide (combined_expression p = [])) then
    split ← splitBillingExprAndRequestRules (combined_expression p);
    Ok (Snapshot (ModelPricing name values (js "tiered_expr") (Some (billingExpr split)) (Some (requestRuleExpr split)) (written_plugins p)
                    enabled tiers surcharge) false)
  else
    let hasPrice := negb (bool_decide (text PRICE_FIELD = [])) in
    Ok (Snapshot (ModelPricing name values (if hasPrice || enabled then js "per-request" else js "per-token") None None (written_plugins p)
                    enabled tiers surcharge)
          (hasPrice && existsb (fun field => negb (bool_decide (text field = []))) RATIO_FIELDS)).

Lemma present_number_shape v : present_number v = None \/ exists x, present_number v = Some (VNumber x).
Proof. unfold present_number. destruct v; [by left|]. destruct (is_finite _); [right; by eexists|by left]. Qed.

Lemma written_text p f : option_text (default VUndefined (written_number p f)) = Ok (canonical (written_number p f)).
Proof.
  unfold written_number. destruct (bool_decide _); [|done]. by destruct (present_number_shape (field_text p f)) as [->|[x ->]].
Qed.

Lemma parsed_tiers tiers items : mapM parse_tier tiers = Ok items ->
  cloneSoraResolutionTiers (VArray items) = Ok (map (fun tier : tier_draft => (tier.1, string_of_number (number_of_string tier.2))) tiers).
Proof.
  revert items. induction tiers as [|tier tiers IH]; intros items; cbn [mapM map]; [by intros [= <-]|].
  destruct (parse_tier tier) as [v|] eqn:E; [|discriminate]. unfold parse_tier in E.
  destruct (_ || _) in E; [done|]. injection E as <-.
  cbn [mbind result_bind]. destruct (mapM parse_tier tiers) as [rest|]; [|done]. cbn [mbind result_bind]. intros [= <-].
  cbn [cloneSoraResolutionTiers mapM]. specialize (IH rest eq_refl). cbn [cloneSoraResolutionTiers] in IH. rewrite IH. done.
Qed.

Lemma written_sora_reads p written : written_sora p = Ok (Some written) ->
  optional_prop written (js "enabled") = Ok (VBool (mp_soraEnabled p)) /\
  (exists rawTiers, optional_prop written (js "resolution_tiers") = Ok rawTiers /\ cloneSoraResolutionTiers rawTiers = Ok (canonical_tiers (mp_soraTiers p))) /\
  exists rawSurcharge, optional_prop written (js "audio_generation_surcharge") = Ok rawSurcharge /\
    text_or_empty rawSurcharge = Ok (canonical_surcharge (mp_soraSurcharge p)).
Proof.
  unfold written_sora. destruct (is_tiered p); [done|]. destruct (_ && _); [|done].
  unfold serializeSoraPerRequestPricing, canonical_surcharge, canonical_tiers.
  destruct (parseOptionalSoraSurcharge (mp_soraSurcharge p)) as [surcharge|] eqn:Es; [|done]. cbn [mbind result_bind].
  destruct (_ && _); [done|]. destruct (negb _); [done|]. destruct (mapM parse_tier _) as [items|] eqn:Ei; [|done]. cbn [mbind result_bind].
  intros [= <-]. apply parsed_tiers in Ei. unfold parseOptionalSoraSurcharge in Es.
  destruct (trim (mp_soraSurcharge p)) as [|c s] eqn:Et.
  all: try (destruct (_ || _) in Es; [done|]); injection Es as <-; split; [reflexivity|]; split; [eexists; split; [reflexivity|exact Ei]|].
  all: eexists; split; [reflexivity|]; reflexivity.
Qed.

Lemma persist_own p maps name maps' : settings_shape maps -> NoDup (map fst (mp_pluginBillingExpressions p)) ->
  persist_model p maps name = Ok maps' -> model_snapshot maps' name = expected p name.
Proof.
  intros Hs Hp. unfold persist_model. destruct (written_sora p) as [sora|] eqn:Ew; [|done]. cbn [mbind result_bind]. intros [= <-].
  unfold model_snapshot, expected, expected_sora. rewrite Ew. cbn [mbind result_bind sm_sora sm_mode sm_expr sm_plugin].
  match goal with |- context [mapM ?g NUMERIC_FIELDS] =>
    assert (mapM g NUMERIC_FIELDS = Ok (map (fun f : str * str => (f.1, canonical (written_number p f.1))) NUMERIC_FIELDS)) as -> end.
  { rewrite <- (mapM_ext_in (fun f : str * str => Ok (f.1, canonical (written_number p f.1)))).
    - generalize NUMERIC_FIELDS. intros l. induction l as [|f l IH]; [done|]. cbn [mapM map]. by rewrite IH.
    - intros f Hf. assert (f.1 ∈ map fst NUMERIC_FIELDS) as Hin by (apply list_elem_of_fmap; by exists f).
      unfold numeric_text. cbn [sm_numeric]. rewrite map_get. destruct (shape_get maps f.1 Hs Hin) as [entries ->].
      cbn [fmap option_fmap option_map default from_option id]. rewrite write_number_get, bool_decide_eq_true_2 by done. by rewrite written_text. }
  cbn [mbind result_bind].
  assert (plugin_expressions (add_plugins name (mp_pluginBillingExpressions p) (drop_plugins name (sm_plugin maps))) name = written_plugins p) as Hpl.
  { unfold plugin_expressions. fold (plugin_entries (add_plugins name (mp_pluginBillingExpressions p) (drop_plugins name (sm_plugin maps))) name).
    rewrite add_plugins_own, entries_dropped; [|done|by intros; apply dropped_keys]. cbn [app]. apply from_entries_id. by apply written_plugins_nodup. }
  rewrite Hpl.
  set (sora' := match sora with Some v => obj_set name v (obj_delete name (sm_sora maps)) | None => _ end).
  assert (default VUndefined (obj_get name sora') = default VUndefined sora) as ->.
  { unfold sora'. destruct sora; rewrite ?obj_get_set, ?obj_get_delete, bool_decide_eq_true_2; done. }
  set (tiered := is_tiered p && _). 
  assert (is_exactly (default VUndefined (obj_get name (if tiered then obj_set name (VString (js "tiered_expr")) (obj_delete name (sm_mode maps)) else obj_delete name (sm_mode maps)))) (js "tiered_expr") = tiered) as ->.
  { destruct tiered; rewrite ?obj_get_set, ?obj_get_delete, (bool_decide_eq_true_2 (name = name)) by done; [|done]. cbn [default from_option id is_exactly]. by apply bool_decide_eq_true. }
  assert (exists e t s u v, optional_prop (default VUndefined sora) (js "enabled") = Ok e /\ optional_prop (default VUndefined sora) (js "resolution_tiers") = Ok t /\
    optional_prop (default VUndefined sora) (js "audio_generation_surcharge") = Ok s /\ cloneSoraResolutionTiers t = Ok u /\ text_or_empty s = Ok v /\
    match sora with None => (false, [], []) | Some _ => (mp_soraEnabled p, canonical_tiers (mp_soraTiers p), canonical_surcharge (mp_soraSurcharge p)) end = (truthy e, u, v))
    as (e & t & s & u & v & -> & -> & -> & Hu & Hv & ->).
  { destruct sora as [written|]; [|by eexists _, _, _, _, _]. destruct (written_sora_reads p written Ew) as (He & (t & Ht & Hu) & (s & Hs' & Hv)).
    by eexists _, _, _, _, _. }
  cbn [mbind result_bind]. rewrite Hu. cbn [mbind result_bind]. rewrite Hv. cbn [mbind result_bind].
  destruct tiered eqn:Et; [|done]. rewrite obj_get_set, bool_decide_eq_true_2 by done. cbn [default from_option id].
  assert (combined_expression p <> []) as Hc by (unfold tiered in Et; apply andb_true_iff in Et as [_ Et]; by apply negb_true_iff, bool_decide_eq_false in Et).
  assert (or_value (VString (combined_expression p)) (VString []) = VString (combined_expression p)) as ->.
  { unfold or_value, truthy. by rewrite bool_decide_eq_false_2. }
  done.
Qed.

Lemma settings_read options maps : read_settings options = Ok maps -> settings_shape maps.
Proof.
  unfold read_settings, settings_shape.
  assert (forall l numeric, mapM (fun f : str * str => entries ← read_option options f.2; Ok (f.1, entries)) l = Ok numeric -> map fst numeric = map fst l) as H.
  { induction l as [|f l IH]; intros numeric; cbn [mapM]; [by intros [= <-]|]. destruct (read_option options f.2) as [entries|]; [|discriminate].
    cbn [mbind result_bind]. destruct (mapM _ l) as [rest|]; [|discriminate]. cbn [mbind result_bind]. intros [= <-]. cbn [map fst]. f_equal. by apply IH. }
  destruct (mapM _ NUMERIC_FIELDS) as [numeric|] eqn:E; [|discriminate]. cbn [mbind result_bind].
  destruct (read_option options MODE_KEY), (read_option options EXPR_KEY), (read_option options SORA_KEY), (read_option options PLUGIN_KEY); try discriminate.
  intros [= <-]. by apply H in E.
Qed.

Lemma persist_models p names maps maps' : settings_shape maps -> NoDup (map fst (mp_pluginBillingExpressions p)) -> Forall separate names ->
  persist_maps p names maps = Ok maps' ->
  settings_shape maps' /\ (forall m, separate m -> m ∉ names -> agree m maps' maps) /\
  forall target, target ∈ names -> model_snapshot maps' target = expected p target.
Proof.
  unfold persist_maps. intros Hs Hp Hn. revert maps Hs. induction Hn as [|name names Hname Hn IH]; intros maps Hs; cbn [fold_result].
  - intros [= <-]. split; [done|]. split; [by intros m _ _; split|]. by intros t ?%not_elem_of_nil.
  - destruct (persist_model p maps name) as [maps1|] eqn:E; [|discriminate]. cbn [mbind result_bind]. intros H.
    destruct (IH maps1 (persist_shape _ _ _ _ E Hs) H) as (Hs' & Hother & Hown). split; [done|]. split.
    + intros m Hm [Hne Hin]%not_elem_of_cons. apply (agree_trans m maps' maps1 maps); [by apply Hother|by apply (persist_other p maps name)].
    + intros t [->|Ht]%elem_of_cons; [|by apply Hown]. destruct (decide (name ∈ names)) as [Hin|Hin]; [by apply Hown|].
      rewrite (agree_snapshot _ _ _ (Hother name Hname Hin)). by apply (persist_own p maps).
Qed.

Lemma persist_outcome p names maps :
  match written_sora p with
  | Ok _ => exists maps', persist_maps p names maps = Ok maps'
  | Throw e => names <> [] -> persist_maps p names maps = Throw e
  end.
Proof.
  assert (forall maps name, match written_sora p with Ok _ => exists maps', persist_model p maps name = Ok maps' | Throw e => persist_model p maps name = Throw e end) as Hstep.
  { intros m name. unfold persist_model. destruct (written_sora p); [by eexists|done]. }
  unfold persist_maps. destruct (written_sora p) as [sora|e].
  - revert maps. induction names as [|name names IH]; intros maps; [by eexists|]. cbn [fold_result]. destruct (Hstep maps name) as [maps1 ->].
    apply IH.
  - destruct names as [|name names]; [done|]. intros _. cbn [fold_result]. by rewrite Hstep.
Qed.


(** * Saving an unchanged model *)

(** The numbers of the model are finite and read back from their texts, and its plugin expressions are
    trimmed and not empty. *)
Definition plain_number (v : jsval) : Prop :=
  exists x, v = VNumber x /\ is_finite x = true /\ parse_float (string_of_number x) = x /\ string_of_number x <> [].
Record plain_model (maps : setting_maps) (name : str) : Prop := PlainModel {
  pl_numbers : forall f v, f ∈ map fst NUMERIC_FIELDS -> stored maps f name = Some v -> plain_number v;
  pl_sora : obj_get name (sm_sora maps) = None;
  pl_plugins : Forall (fun e : str * str => trim e.2 = e.2 /\ e.2 <> []) (plugin_expressions (sm_plugin maps) name);
}.

(** A tiered model whose expression survives separating and combining, or one without conflicting prices. *)
Definition stable (s : snapshot) : Prop :=
  if is_tiered (sn_pricing s)
  then combined_expression (sn_pricing s) <> [] /\
       splitBillingExprAndRequestRules (combined_expression (sn_pricing s)) =
         Ok (Separated (default [] (mp_billingExpr (sn_pricing s))) (default [] (mp_requestRuleExpr (sn_pricing s))))
  else sn_hasConflict s = false.

Lemma plain_numeric_text maps name f : plain_model maps name -> f ∈ map fst NUMERIC_FIELDS ->
  exists text, numeric_text maps f name = Ok text /\ canonical (present_number text) = text.
Proof.
  intros [Hn _ _] Hf. unfold numeric_text. fold (stored maps f name). destruct (stored maps f name) as [v|] eqn:E; [|by exists []].
  destruct (Hn f v Hf E) as (x & -> & Hx & Hp & Hne). exists (string_of_number x). split; [done|]. unfold present_number. rewrite Hp, Hx.
  by destruct (string_of_number x) eqn:Et.
Qed.

Lemma plain_texts maps name : plain_model maps name -> exists texts, mapM (fun f : str * str => text ← numeric_text maps f.1 name; Ok (f.1, text)) NUMERIC_FIELDS = Ok texts /\
  map fst texts = map fst NUMERIC_FIELDS /\ Forall (fun e : str * str => canonical (present_number e.2) = e.2) texts.
Proof.
  intros Hm. assert (forall l, (forall f : str * str, f ∈ l -> f.1 ∈ map fst NUMERIC_FIELDS) -> exists texts,
    mapM (fun f : str * str => text ← numeric_text maps f.1 name; Ok (f.1, text)) l = Ok texts /\
    map fst texts = map fst l /\ Forall (fun e : str * str => canonical (present_number e.2) = e.2) texts) as H.
  { intros l. induction l as [|f l IH]; intros Hin; [by exists []|]. cbn [mapM].
    destruct (plain_numeric_text maps name f.1 Hm) as (text & -> & Ht); [apply Hin; left|]. destruct IH as (texts & E & Hk & Hf); [intros g Hg; apply Hin; by right|].
    cbn [mbind result_bind]. rewrite E. cbn [mbind result_bind]. eexists. split; [done|]. cbn [map fst]. rewrite Hk. split; [done|]. by constructor. }
  apply H. intros f Hf. apply list_elem_of_fmap. by exists f.
Qed.

Lemma tabulated (texts : list (str * str)) (keys : list str) : NoDup keys -> map fst texts = keys ->
  map (fun k => (k, default [] (obj_get k texts))) keys = texts.
Proof.
  intros Hn <-. induction texts as [|[k v] texts IH]; [done|]. cbn [map fst] in Hn |- *. apply NoDup_cons in Hn as [Hk Hn].
  cbn [obj_get]. rewrite bool_decide_eq_true_2 by done. cbn [default from_option id]. f_equal. rewrite <- (IH Hn) at 2. apply map_ext_in.
  intros k' Hk'. rewrite bool_decide_eq_false_2; [done|]. intros ->. by apply Hk, list_elem_of_In.
Qed.

Lemma numeric_fields_nodup : NoDup (map fst NUMERIC_FIELDS).
Proof. apply (bool_decide_unpack _). vm_compute. exact I. Qed.

Lemma written_plugins_id p : Forall (fun e : str * str => trim e.2 = e.2 /\ e.2 <> []) (mp_pluginBillingExpressions p) ->
  written_plugins p = mp_pluginBillingExpressions p.
Proof.
  unfold written_plugins. induction 1 as [|[k e] l [He Hne] _ IH]; [done|]. cbn [omap list_omap fst snd] in *. rewrite He, IH. by destruct e.
Qed.

(** The values of a stable model are written as they are. *)
Lemma written_values p texts : map fst texts = map fst NUMERIC_FIELDS -> mp_values p = texts ->
  Forall (fun e : str * str => canonical (present_number e.2) = e.2) texts ->
  (is_tiered p = false -> has_price_text p = true -> forall f, f ∈ RATIO_FIELDS -> field_text p f = []) ->
  map (fun f : str * str => (f.1, canonical (written_number p f.1))) NUMERIC_FIELDS = texts.
Proof.
  intros Hk Hv Hc Hex. rewrite <- (tabulated texts (map fst NUMERIC_FIELDS) numeric_fields_nodup Hk), map_map. apply map_ext_in.
  intros f Hf. f_equal. assert (f.1 ∈ map fst NUMERIC_FIELDS) as Hin by (apply list_elem_of_fmap; exists f; by split; [|apply list_elem_of_In]).
  assert (field_text p f.1 = default [] (obj_get f.1 texts)) as Et by (unfold field_text; by rewrite Hv). rewrite <- Et.
  assert (canonical (present_number (field_text p f.1)) = field_text p f.1) as Hcan.
  { rewrite Et. destruct (obj_get f.1 texts) as [text|] eqn:E; [|done]. apply obj_get_value in E; [|rewrite Hk; apply numeric_fields_nodup].
    rewrite Forall_forall in Hc. by apply (Hc _ E). }
  unfold written_number. case_bool_decide as Hw; [done|]. unfold written_fields in Hw. destruct (is_tiered p); [done|].
  change (map fst NUMERIC_FIELDS) with (PRICE_FIELD :: RATIO_FIELDS) in Hin. cbn [canonical]. destruct (has_price_text p) eqn:Ep.
  - apply elem_of_cons in Hin as [E|Hin]; [destruct Hw; rewrite E; left|]. symmetry. by apply Hex.
  - apply elem_of_cons in Hin as [->|Hin]; [|done]. unfold has_price_text in Ep. apply negb_false_iff, bool_decide_eq_true in Ep. by symmetry.
Qed.

Lemma resave_expected maps name s : plain_model maps name -> model_snapshot maps name = Ok s -> stable s ->
  expected (sn_pricing s) name = Ok s /\ written_sora (sn_pricing s) = Ok None.
Proof.
  intros Hm. destruct (plain_texts maps name Hm) as (texts & Et & Hk & Hc). destruct Hm as [_ Hsora Hpl].
  unfold model_snapshot. rewrite Et, Hsora. cbn [mbind result_bind default from_option id optional_prop is_nullish cloneSoraResolutionTiers text_or_empty truthy].
  destruct (is_exactly _ _) eqn:Em.
  - destruct (match or_value _ _ with VString s => splitBillingExprAndRequestRules s | _ => Throw type_error end) as [split|]; [|discriminate].
    cbn [mbind result_bind]. intros [= <-] Hst. unfold stable in Hst. cbn [sn_pricing sn_hasConflict mp_billingExpr mp_requestRuleExpr default from_option id] in *.
    set (p := ModelPricing _ _ _ _ _ _ _ _ _) in *. change (is_tiered p) with true in Hst. destruct Hst as [Hne Hsp].
    split; [|done]. unfold expected, expected_sora. change (written_sora p) with (@Ok exn (option jsval) None). cbn [mbind result_bind].
    change (is_tiered p) with true. cbn [andb]. rewrite bool_decide_eq_false_2 by done. cbn [negb]. rewrite Hsp. cbn [mbind result_bind].
    rewrite (written_values p texts Hk eq_refl Hc) by done. by rewrite written_plugins_id.
  - intros [= <-] Hst. unfold stable in Hst. cbn [sn_pricing sn_hasConflict] in *.
    set (hasPrice := negb (bool_decide (default [] (obj_get PRICE_FIELD texts) = []))) in *. set (p := ModelPricing _ _ _ _ _ _ _ _ _) in *.
    assert (is_tiered p = false) as Ht by (unfold is_tiered, p; cbn [mp_billingMode]; destruct hasPrice; by vm_compute). rewrite Ht in Hst.
    assert (written_sora p = Ok None) as Hw by (unfold written_sora; rewrite Ht; destruct (has_price_text p && bool_decide (mp_billingMode p = js "per-request")); [change (serializeSoraPerRequestPricing false [] [] = Ok None); by vm_compute|done]).
    split; [|done]. unfold expected, expected_sora. rewrite Hw, Ht. cbn [mbind result_bind andb].
    rewrite (written_values p texts Hk eq_refl Hc).
    + rewrite written_plugins_id by done. cbn [mp_pluginBillingExpressions p]. fold hasPrice. reflexivity.
    + intros _ Hp f Hf. change (has_price_text p) with hasPrice in Hp. rewrite Hp in Hst. cbn [andb] in Hst.
      rewrite <- not_true_iff_false in Hst. change (existsb (fun field => negb (bool_decide (field_text p field = []))) RATIO_FIELDS <> true) in Hst.
      destruct (decide (field_text p f = [])) as [E|E]; [done|]. exfalso. apply Hst, existsb_exists.
      exists f. split; [by apply list_elem_of_In|]. apply negb_true_iff, bool_decide_eq_false. exact E.
Qed.


(** * Signatures *)

(** The same prices, a missing text being empty and a missing mode per token. *)
Record same_pricing (p q : model_pricing) : Prop := SamePricing {
  sp_fields : forall f, f ∈ map fst NUMERIC_FIELDS -> field_text p f = field_text q f;
  sp_mode : text_or_default (mp_billingMode p) (js "per-token") = text_or_default (mp_billingMode q) (js "per-token");
  sp_expr : default [] (mp_billingExpr p) = default [] (mp_billingExpr q);
  sp_rule : default [] (mp_requestRuleExpr p) = default [] (mp_requestRuleExpr q);
  sp_plugins : mp_pluginBillingExpressions p = mp_pluginBillingExpressions q;
  sp_enabled : mp_soraEnabled p = mp_soraEnabled q;
  sp_tiers : mp_soraTiers p = mp_soraTiers q;
  sp_surcharge : mp_soraSurcharge p = mp_soraSurcharge q;
}.

Record utf16_pricing (p : model_pricing) : Prop := Utf16Pricing {
  up_fields : forall f, utf16 (field_text p f);
  up_mode : utf16 (mp_billingMode p);
  up_expr : utf16 (default [] (mp_billingExpr p));
  up_rule : utf16 (default [] (mp_requestRuleExpr p));
  up_plugins : Forall (fun e : str * str => utf16 e.1 /\ utf16 e.2) (mp_pluginBillingExpressions p);
  up_distinct : NoDup (map fst (mp_pluginBillingExpressions p));
  up_tiers : Forall (fun e : str * str => utf16 e.1 /\ utf16 e.2) (mp_soraTiers p);
  up_surcharge : utf16 (mp_soraSurcharge p);
}.

Lemma utf16_name (s : str) : forallb (fun c => c <? 65536)%N s = true -> utf16 s.
Proof. intros H. apply Forall_forall. intros c Hc. rewrite forallb_forall in H. apply N.ltb_lt, H. by apply list_elem_of_In. Qed.

Lemma texts_textual l : NoDup (map fst l) -> Forall (fun e : str * str => utf16 e.1 /\ utf16 e.2) l -> textual (object_of_texts l).
Proof.
  intros Hn H. apply textual_object. split; [rewrite map_map; exact Hn|]. apply Forall_map. eapply Forall_impl; [exact H|]. by intros [k v].
Qed.

Lemma tier_textual (tier : tier_draft) : utf16 tier.1 -> utf16 tier.2 -> textual (object_of_texts [(js "value", tier.1); (js "multiplier", tier.2)]).
Proof.
  intros H1 H2. apply texts_textual; [apply (bool_decide_unpack _); vm_compute; exact I|].
  rewrite !Forall_cons. cbn [fst snd]. repeat (split; [split; [by apply utf16_name|done]|]). constructor.
Qed.

Lemma signature_textual p : utf16_pricing p -> textual (signature_value p).
Proof.
  intros [Hf Hm He Hr Hp Hd Ht Hs]. unfold signature_value. apply textual_object. split; [apply (bool_decide_unpack _); vm_compute; exact I|].
  assert (utf16 (text_or_default (mp_billingMode p) (js "per-token"))) as Hm' by (destruct (mp_billingMode p); [by apply utf16_name|done]).
  cbn [map app]. rewrite !Forall_cons. cbn [fst snd]. repeat (split; [split; [by apply utf16_name|]|]); try done; try apply Hf.
  - by apply texts_textual.
  - apply textual_array, Forall_map. eapply Forall_impl; [exact Ht|]. intros [v m] []. by apply tier_textual.
Qed.

Lemma object_of_texts_inj l k : object_of_texts l = object_of_texts k -> l = k.
Proof.
  unfold object_of_texts. intros [= H]. revert k H. induction l as [|[a b] l IH]; intros [|[c d] k] H; try done. cbn in H. injection H as -> -> H.
  f_equal. by apply IH.
Qed.

Lemma signature_inj p q : signature_value p = signature_value q -> same_pricing p q.
Proof.
  unfold signature_value. cbn [map app]. intros H. 
  injection H as H1 H2 H3 H4 H5 H6 H7 H8 H9 H10 H11 H12 H13 H14 H15.
  split; try done.
  - intros f Hf. cbn [NUMERIC_FIELDS map fst] in Hf. repeat (apply elem_of_cons in Hf as [->|Hf]; [done|]). by apply not_elem_of_nil in Hf.
  - apply object_of_texts_inj. unfold object_of_texts. by f_equal.
  - revert H14. generalize (mp_soraTiers p) (mp_soraTiers q). intros l. induction l as [|[a b] l IH]; intros [|[c d] k] H; try done.
    cbn in H. injection H as -> -> H. f_equal. by apply IH.
Qed.

Lemma signature_same p q : same_pricing p q -> signature_value p = signature_value q.
Proof.
  intros [Hf Hm He Hr Hp Hd Ht Hs]. unfold signature_value. rewrite Hm, He, Hr, Hp, Hd, Ht, Hs. do 2 f_equal. apply map_ext_in.
  intros f Hin. f_equal. f_equal. apply Hf. by apply list_elem_of_In.
Qed.

Definition same_snapshots (a b : option snapshot) : Prop :=
  match a, b with
  | Some a, Some b => same_pricing (sn_pricing a) (sn_pricing b)
  | None, None => True
  | _, _ => False
  end.

Lemma signature_exact a b : (forall s, a = Some s \/ b = Some s -> utf16_pricing (sn_pricing s)) ->
  getSnapshotSignature a = getSnapshotSignature b <-> same_snapshots a b.
Proof.
  intros Hu. destruct a as [a|], b as [b|]; cbn [getSnapshotSignature same_snapshots]; [|by split|by split|done].
  assert (textual (signature_value (sn_pricing a))) as Ha by (apply signature_textual, Hu; by left).
  assert (textual (signature_value (sn_pricing b))) as Hb by (apply signature_textual, Hu; by right).
  split; [|intros H; by rewrite (signature_same _ _ H)]. intros E. apply signature_inj.
  apply stringify_round_trip in Ha, Hb. rewrite E in Ha. congruence.
Qed.

(** * The rows of the table *)

Lemma snapshot_name maps name s : model_snapshot maps name = Ok s -> mp_name (sn_pricing s) = name.
Proof.
  unfold model_snapshot. destruct (mapM _ NUMERIC_FIELDS); [|discriminate]. cbn [mbind result_bind].
  destruct (optional_prop _ (js "enabled")); [|discriminate]. cbn [mbind result_bind].
  destruct (optional_prop _ (js "resolution_tiers")) as [rt|]; [|discriminate]. cbn [mbind result_bind].
  destruct (cloneSoraResolutionTiers rt); [|discriminate]. cbn [mbind result_bind].
  destruct (optional_prop _ (js "audio_generation_surcharge")) as [su|]; [|discriminate]. cbn [mbind result_bind].
  destruct (text_or_empty su); [|discriminate]. cbn [mbind result_bind]. destruct (is_exactly _ _); [|by intros [= <-]].
  destruct (match or_value _ _ with VString _ => _ | _ => _ end); [|discriminate]. by intros [= <-].
Qed.

(** The rows read: one for every name, in order. *)
Lemma snapshots_find maps names rows : mapM (model_snapshot maps) names = Ok rows ->
  map (fun s => mp_name (sn_pricing s)) rows = names /\
  forall n, match by_name n rows with Some s => n ∈ names /\ model_snapshot maps n = Ok s | None => n ∉ names end.
Proof.
  revert rows. induction names as [|name names IH]; intros rows; cbn [mapM]; [intros [= <-]; split; [done|]; intros n; apply not_elem_of_nil|].
  destruct (model_snapshot maps name) as [s|] eqn:E; [|discriminate]. cbn [mbind result_bind].
  destruct (mapM (model_snapshot maps) names) as [rest|]; [|discriminate]. cbn [mbind result_bind]. intros [= <-].
  destruct (IH rest eq_refl) as [Hn Hf]. pose proof (snapshot_name _ _ _ E) as Hs. split; [cbn [map]; by rewrite Hs, Hn|].
  intros n. unfold by_name. cbn [List.find]. rewrite Hs. case_bool_decide as Hne; [subst; split; [left|done]|].
  specialize (Hf n). unfold by_name in Hf. destruct (List.find _ rest) as [s'|]; [destruct Hf; split; [by right|done]|].
  intros [->|?]%elem_of_cons; done.
Qed.

Lemma snapshots_read options rows : buildModelSnapshots options = Ok rows ->
  exists maps, read_settings options = Ok maps /\ mapM (model_snapshot maps) (model_names maps) = Ok rows.
Proof.
  unfold buildModelSnapshots. destruct (read_settings options) as [maps|]; [|discriminate]. cbn [mbind result_bind]. intros H. by exists maps.
Qed.

Lemma row_of_name saved draft maps maps0 name : mapM (model_snapshot maps0) (model_names maps0) = Ok saved ->
  mapM (model_snapshot maps) (model_names maps) = Ok draft -> row_name (model_row_of saved draft name) = name.
Proof.
  intros Hs Hd. destruct (snapshots_find _ _ _ Hs) as [_ Fs]. destruct (snapshots_find _ _ _ Hd) as [_ Fd].
  unfold row_name, model_row_of. cbn [mr_displayed]. specialize (Fs name). specialize (Fd name).
  destruct (by_name name saved); [by destruct Fs as [_ ?%snapshot_name]|]. destruct (by_name name draft); [by destruct Fd as [_ ?%snapshot_name]|]. done.
Qed.

(** C32: The table lists the drafted models exactly. For saved and drafted settings that can be read, in
    every collation: there is one row for each model of the draft and for no other; a row holds the
    drafted prices of its model and the saved ones, if it is saved; it is marked new exactly when the
    model is not saved, and changed exactly when the two differ. *)
Theorem table_rows_exact {collation : Collation} savedOptions draftOptions saved draft savedMaps maps :
  buildModelSnapshots savedOptions = Ok saved -> buildModelSnapshots draftOptions = Ok draft ->
  read_settings savedOptions = Ok savedMaps -> read_settings draftOptions = Ok maps ->
  Forall (fun s => utf16_pricing (sn_pricing s)) (saved ++ draft) ->
  let rows := model_rows saved draft None in
  NoDup (map row_name rows) /\ (forall n, n ∈ map row_name rows <-> n ∈ model_names maps) /\
  forall row, row ∈ rows ->
    (exists d, mr_draft row = Some d /\ model_snapshot maps (row_name row) = Ok d) /\
    match mr_saved row with
    | Some s => model_snapshot savedMaps (row_name row) = Ok s
    | None => row_name row ∉ model_names savedMaps
    end /\
    mr_isDraftNew row = bool_decide (mr_saved row = None) /\
    (mr_isDraftChanged row = false <-> same_snapshots (mr_saved row) (mr_draft row)).
Proof.
  intros (savedMaps' & Hrs & Hs)%snapshots_read (maps' & Hrd & Hd)%snapshots_read Es Ed Hu. rewrite Es in Hrs. rewrite Ed in Hrd.
  injection Hrs as <-. injection Hrd as <-. intros rows.
  destruct (snapshots_find _ _ _ Hs) as [Ns Fs]. destruct (snapshots_find _ _ _ Hd) as [Nd Fd].
  assert (forall name, row_name (model_row_of saved draft name) = name) as Hrow by (intros name; by eapply row_of_name).
  set (names := distinct (model_names savedMaps ++ model_names maps)).
  destruct (distinct_spec (model_names savedMaps ++ model_names maps)) as [Hnd Hin]. fold names in Hnd, Hin.
  assert (rows ≡ₚ List.filter (fun row => negb (mr_isDraftDeleted row)) (map (model_row_of saved draft) names)) as Hp.
  { unfold rows, model_rows. rewrite Ns, Nd. apply sort_with_perm. }
  assert (forall n, mr_isDraftDeleted (model_row_of saved draft n) = bool_decide (n ∈ model_names savedMaps /\ n ∉ model_names maps)) as Hdel.
  { intros n. unfold model_row_of. cbn [mr_isDraftDeleted]. specialize (Fs n). specialize (Fd n).
    destruct (by_name n saved), (by_name n draft); symmetry; (apply bool_decide_eq_true_2 || apply bool_decide_eq_false_2); naive_solver. }
  assert (map row_name (List.filter (fun row => negb (mr_isDraftDeleted row)) (map (model_row_of saved draft) names)) =
          List.filter (fun n => negb (bool_decide (n ∈ model_names savedMaps /\ n ∉ model_names maps))) names) as En.
  { generalize names. intros l. induction l as [|n l IH]; [done|]. cbn [map List.filter]. rewrite Hdel. destruct (negb _); [|done].
    cbn [map]. by rewrite Hrow, IH. }
  split; [|split].
  - rewrite Hp, En. by apply (NoDup_ListNoDup _), List.NoDup_filter, NoDup_ListNoDup.
  - intros n. rewrite Hp, En, list_elem_of_In, filter_In, <- list_elem_of_In, (Hin n), elem_of_app, negb_true_iff, bool_decide_eq_false.
    destruct (decide (n ∈ model_names maps)); naive_solver.
  - intros row Hr. rewrite Hp in Hr. apply list_elem_of_In, filter_In in Hr as [(n & <- & Hn)%in_map_iff Hk].
    rewrite Hrow. apply list_elem_of_In, Hin, elem_of_app in Hn. rewrite Hdel in Hk. apply negb_true_iff, bool_decide_eq_false in Hk.
    unfold model_row_of. cbn [mr_draft mr_saved mr_isDraftNew mr_isDraftChanged]. pose proof (Fs n) as Fsn. pose proof (Fd n) as Fdn.
    destruct (by_name n draft) as [d|] eqn:Bd; [|by destruct Hn; [destruct Hk|]]. destruct Fdn as [_ Esnap]. split; [by exists d|].
    split; [destruct (by_name n saved); [by destruct Fsn|done]|]. split; [by destruct (by_name n saved)|].
    rewrite negb_false_iff, bool_decide_eq_true. apply signature_exact. intros s H. rewrite Forall_app, !Forall_forall in Hu. destruct Hu as [Hus Hud].
    destruct H as [H|[= <-]].
    + apply Hus. apply find_some in H as [H _]. by apply list_elem_of_In.
    + apply Hud. apply find_some in Bd as [H' _]. by apply list_elem_of_In.
Qed.

(** * Witnesses *)

Definition json_text (entries : list (str * jsval)) : str := JSON_stringify_value (VObject entries).

Definition sample_options : list (str * str) :=
  [(js "ModelRatio", json_text [(js "gpt", VNumber (n_of_Z 2)); (js "old", VNumber n_one)]);
   (js "CompletionRatio", json_text [(js "gpt", VNumber (n_of_Z 4))]);
   (PLUGIN_KEY, json_text [(js "search::gpt", VString (js "p * 2"))])].
Definition sample_drafts : list (str * str) :=
  [(js "ModelRatio", json_text [(js "gpt", VNumber (n_of_Z 2))]); (js "ModelPrice", json_text [(js "new", VNumber n_one)])].

(** A video model with a price per second. *)
Definition sample_video : model_pricing :=
  ModelPricing (js "gpt") [(js "price", js "0.50"); (js "ratio", js "2")] (js "per-request") None None [(js "search", js " p * 3 ")] true
    [(js "720p", js "1.50")] (js "0.1").



Lemma sample_pricing_texts p : Forall (fun e : str * str => utf16 e.2) (mp_values p) ->
  Forall utf16 [mp_billingMode p; default [] (mp_billingExpr p); default [] (mp_requestRuleExpr p); mp_soraSurcharge p] ->
  mp_pluginBillingExpressions p = [] \/ mp_pluginBillingExpressions p = [(js "search", js "p * 2")] -> mp_soraTiers p = [] -> utf16_pricing p.
Proof.
  rewrite !Forall_cons. intros Hv (Hm & He & Hr & Hs & _) Hp Ht. split; try done.
  - intros f. unfold field_text. induction Hv as [|[k t] l Hk _ IH]; [constructor|]. cbn [obj_get]. by case_bool_decide.
  - destruct Hp as [->| ->]; repeat constructor; by apply utf16_name.
  - destruct Hp as [->| ->]; apply (bool_decide_unpack _); vm_compute; exact I.
  - rewrite Ht. constructor.
Qed.

Lemma table_rows_exact_witness : exists saved draft savedMaps maps,
  buildModelSnapshots sample_options = Ok saved /\ buildModelSnapshots sample_drafts = Ok draft /\
  read_settings sample_options = Ok savedMaps /\ read_settings sample_drafts = Ok maps /\
  let rows := @model_rows (fun _ _ => false) saved draft None in
  NoDup (map row_name rows) /\ (forall n, n ∈ map row_name rows <-> n ∈ model_names maps) /\ js "new" ∈ model_names maps.
Proof.
  destruct (buildModelSnapshots sample_options) as [saved|] eqn:Es; [|by vm_compute in Es].
  destruct (buildModelSnapshots sample_drafts) as [draft|] eqn:Ed; [|by vm_compute in Ed].
  destruct (read_settings sample_options) as [savedMaps|] eqn:Ms; [|by vm_compute in Ms].
  destruct (read_settings sample_drafts) as [maps|] eqn:Md; [|by vm_compute in Md].
  destruct (@table_rows_exact (fun _ _ => false) sample_options sample_drafts saved draft savedMaps maps) as (H1 & H2 & _); [assumption..| |].
  - clear Ms Md. vm_compute in Es. injection Es as <-. vm_compute in Ed. injection Ed as <-.
    repeat (apply Forall_cons; split; [apply sample_pricing_texts; cbn [sn_pricing mp_values mp_billingMode mp_billingExpr mp_requestRuleExpr mp_soraSurcharge default from_option id mp_pluginBillingExpressions mp_soraTiers]; [repeat (apply Forall_cons; split; [by apply utf16_name|]); constructor|repeat (apply Forall_cons; split; [by apply utf16_name|]); constructor|(by left) || (by right)|done]|]).
    constructor.
  - exists saved, draft, savedMaps, maps. repeat (split; [done|]).
    vm_compute in Md. injection Md as <-. apply (bool_decide_unpack _). vm_compute. exact I.
Defined.

(** A plugin key with two double colons names one model in the list and prices another. *)
Example plugin_key_misread :
  let plugin := [(js "search::b::c", VString (js "p"))] in
  omap plugin_model (map fst plugin) = [js "b::c"] /\ plugin_expressions plugin (js "c") = [(js "search::b", js "p")] /\
  drop_plugins (js "c") plugin = [].
Proof. by vm_compute. Qed.
