(* ===== verification/PlaygroundMessage.v ===== *)
(** Messages of the playground conversation
    (features/playground/lib/message: message-utils.ts, message-reasoning-utils.ts,
    message-timing-utils.ts, message-streaming-utils.ts, message-update-utils.ts,
    message-error-utils.ts, message-content-utils.ts, message-action-utils.ts,
    message-editor-utils.ts, conversation-message-utils.ts).

    What the environment decides is an argument: the identifiers that nanoid draws, the
    translation of a text, and the readings of [Date.now()].  A call that leaves its time
    argument out reads the clock; the readings a function may take are the fields of
    [clock], one for each call it makes. *)

From S2P Require Import Prelude JsString JsNumber JsNumberOrder JsValue BillingTypes JsJson.

(** * Data (types.ts, constants.ts) *)

Inductive message_role : Type := R_user | R_assistant | R_system.
#[export] Instance message_role_eq_dec : EqDecision message_role.
Proof. solve_decision. Defined.

Inductive message_status : Type := S_loading | S_streaming | S_complete | S_error.
#[export] Instance message_status_eq_dec : EqDecision message_status.
Proof. solve_decision. Defined.

Record message_version := MessageVersion { mv_id : str; mv_content : str }.

Record message_reasoning := Reasoning {
  re_content : str;
  re_duration : number;
  re_startedAt : option number;
  re_completedAt : option number;
  re_durationMs : option number;
}.

(** An absent optional field is [None].  The error code comes out of a parsed response and
    is any value; [VUndefined] when absent. *)
Record message := Message {
  m_key : str;
  m_from : message_role;
  m_versions : list message_version;
  m_createdAt : option number;
  m_startedAt : option number;
  m_completedAt : option number;
  m_durationMs : option number;
  m_sources : option (list (str * str));
  m_reasoning : option message_reasoning;
  m_isReasoningStreaming : option bool;
  m_isReasoningComplete : option bool;
  m_isContentComplete : option bool;
  m_status : option message_status;
  m_errorCode : jsval;
}.

(** The object spreads [{ ...message, field: value }] of the code. *)
Definition with_versions (v : list message_version) (m : message) : message :=
  Message (m_key m) (m_from m) v (m_createdAt m) (m_startedAt m) (m_completedAt m) (m_durationMs m)
    (m_sources m) (m_reasoning m) (m_isReasoningStreaming m) (m_isReasoningComplete m)
    (m_isContentComplete m) (m_status m) (m_errorCode m).
Definition with_createdAt (t : option number) (m : message) : message :=
  Message (m_key m) (m_from m) (m_versions m) t (m_startedAt m) (m_completedAt m) (m_durationMs m)
    (m_sources m) (m_reasoning m) (m_isReasoningStreaming m) (m_isReasoningComplete m)
    (m_isContentComplete m) (m_status m) (m_errorCode m).
Definition with_timing (started completed duration : number) (m : message) : message :=
  Message (m_key m) (m_from m) (m_versions m) (m_createdAt m) (Some started) (Some completed) (Some duration)
    (m_sources m) (m_reasoning m) (m_isReasoningStreaming m) (m_isReasoningComplete m)
    (m_isContentComplete m) (m_status m) (m_errorCode m).
Definition with_reasoning (r : option message_reasoning) (m : message) : message :=
  Message (m_key m) (m_from m) (m_versions m) (m_createdAt m) (m_startedAt m) (m_completedAt m) (m_durationMs m)
    (m_sources m) r (m_isReasoningStreaming m) (m_isReasoningComplete m)
    (m_isContentComplete m) (m_status m) (m_errorCode m).
Definition with_isReasoningStreaming (b : bool) (m : message) : message :=
  Message (m_key m) (m_from m) (m_versions m) (m_createdAt m) (m_startedAt m) (m_completedAt m) (m_durationMs m)
    (m_sources m) (m_reasoning m) (Some b) (m_isReasoningComplete m)
    (m_isContentComplete m) (m_status m) (m_errorCode m).
Definition with_status (s : message_status) (m : message) : message :=
  Message (m_key m) (m_from m) (m_versions m) (m_createdAt m) (m_startedAt m) (m_completedAt m) (m_durationMs m)
    (m_sources m) (m_reasoning m) (m_isReasoningStreaming m) (m_isReasoningComplete m)
    (m_isContentComplete m) (Some s) (m_errorCode m).
Definition with_errorCode (c : jsval) (m : message) : message :=
  Message (m_key m) (m_from m) (m_versions m) (m_createdAt m) (m_startedAt m) (m_completedAt m) (m_durationMs m)
    (m_sources m) (m_reasoning m) (m_isReasoningStreaming m) (m_isReasoningComplete m)
    (m_isContentComplete m) (m_status m) c.

(** [a || b] of texts: the empty text is falsy. *)
Definition or_text (a b : str) : str := if bool_decide (a = []) then b else a.

(** ERROR_MESSAGES *)
Module ERROR_MESSAGES.
Definition API_REQUEST_ERROR : str := js "Request error occurred".
Definition NETWORK_ERROR : str := js "Network connection failed or server not responding".
Definition PARSE_ERROR : str := js "Error parsing response data".
Definition STREAM_START_ERROR : str := js "Error establishing connection".
Definition CONNECTION_CLOSED : str := js "Connection closed".
Definition INTERRUPTED : str := js "Generation was interrupted".
End ERROR_MESSAGES.

(** * message-utils.ts *)

Definition createMessageVersion (id : str) (content : str) : message_version := MessageVersion id content.

Definition getCurrentVersion (m : message) : message_version :=
  match m_versions m with
  | v :: _ => v
  | [] => MessageVersion (js "default") []
  end.

Definition getMessageContent (m : message) : str := mv_content (getCurrentVersion m).

Definition hasMessageContent (m : message) : bool := negb (bool_decide (trim (getMessageContent m) = [])).

Definition updateCurrentVersionContent (m : message) (content : str) : message :=
  with_versions [MessageVersion (mv_id (getCurrentVersion m)) content] m.

(** [key] and [id] are the two identifiers drawn by nanoid. *)
Definition createUserMessage (key id : str) (content : str) (createdAt : number) : message :=
  Message key R_user [createMessageVersion id content] (Some createdAt) None None None None None None None None
    None VUndefined.

Definition createLoadingAssistantMessage (key id : str) (startedAt : number) : message :=
  Message key R_assistant [createMessageVersion id []] (Some startedAt) (Some startedAt) None None None None
    (Some false) (Some false) (Some false) (Some S_loading) VUndefined.

Inductive content_part : Type :=
| PartText (text : str)
| PartImage (url : str).

(** [string | ContentPart[]] *)
Inductive api_content : Type :=
| ContentText (text : str)
| ContentParts (parts : list content_part).

Definition buildMessageContent (text : str) (imageUrls : list str) : api_content :=
  match filter (fun url => trim url <> []) imageUrls with
  | [] => ContentText text
  | validImages => ContentParts (PartText text :: map (fun url => PartImage (trim url)) validImages)
  end.

Fixpoint first_text_part (parts : list content_part) : option str :=
  match parts with
  | [] => None
  | PartText text :: _ => Some text
  | PartImage _ :: parts' => first_text_part parts'
  end.
Definition getTextContent (content : api_content) : str :=
  match content with
  | ContentText text => text
  | ContentParts parts => default [] (first_text_part parts)
  end.

Record api_message := ApiMessage { am_role : message_role; am_content : api_content }.

Definition formatMessageForAPI (m : message) : api_message :=
  ApiMessage (m_from m) (ContentText (mv_content (getCurrentVersion m))).

(** The roles are non-empty texts and the message exists, so the first guard is about
    its versions. *)
Definition isValidMessage (m : message) : bool :=
  match m_versions m with
  | [] => false
  | _ => negb (bool_decide (m_from m = R_assistant) && negb (hasMessageContent m))
  end.

(** * message-reasoning-utils.ts *)

Definition think_open : str := js "<think>".
Definition think_close : str := js "</think>".

Record parsed_think_tags := ParsedThinkTags {
  pt_visibleContent : str;
  pt_reasoning : str;
  pt_hasUnclosedTag : bool;
}.

(** The [while (true)] loop of [parseThinkTags] from [currentPos] on: the parts it pushes
    and the flag.  Each round moves past a closing tag. *)
Fixpoint think_loop (fuel : nat) (content : str) (currentPos : nat) (visibleParts reasoningParts : list str) :
    list str * list str * bool :=
  match fuel with
  | O => (visibleParts, reasoningParts, false)
  | S fuel' =>
      match index_of_from content think_open currentPos with
      | None =>
          (if bool_decide (currentPos < length content)
           then visibleParts ++ [drop currentPos content] else visibleParts, reasoningParts, false)
      | Some openPos =>
          let visibleParts' :=
            if bool_decide (currentPos < openPos)
            then visibleParts ++ [slice content currentPos openPos] else visibleParts in
          match index_of_from content think_close (openPos + 7) with
          | None => (visibleParts', reasoningParts ++ [drop (openPos + 7) content], true)
          | Some closePos =>
              think_loop fuel' content (closePos + 8) visibleParts'
                (reasoningParts ++ [slice content (openPos + 7) closePos])
          end
      end
  end.

Definition parseThinkTags (content : str) : parsed_think_tags :=
  if negb (includes content think_open) then ParsedThinkTags content [] false
  else
    let '(visibleParts, reasoningParts, hasUnclosedTag) := think_loop (S (length content)) content 0 [] [] in
    ParsedThinkTags (trim (join [] visibleParts)) (trim (join [newline; newline] reasoningParts)) hasUnclosedTag.

(** * message-timing-utils.ts *)

Definition elapsed (completedAt startedAt : number) : number := n_max n_zero (n_sub completedAt startedAt).

Definition first_time (times : list (option number)) (fallback : number) : number :=
  default fallback (fold_right (fun t rest => match t with Some x => Some x | None => rest end) None times).

Definition completeAssistantTiming (m : message) (completedAt : number) : message :=
  if bool_decide (m_from m = R_assistant) then
    let startedAt := first_time [m_startedAt m; m_createdAt m] completedAt in
    with_timing startedAt completedAt (elapsed completedAt startedAt) m
  else m.

Definition startReasoningTiming (m : message) (startedAt : number) : message_reasoning :=
  match m_reasoning m with
  | Some r => Reasoning (re_content r) (re_duration r) (Some (default startedAt (re_startedAt r)))
                (re_completedAt r) (re_durationMs r)
  | None => Reasoning [] n_zero (Some startedAt) None None
  end.

Definition completeReasoningTiming (m : message) (completedAt : number) : message :=
  match m_reasoning m with
  | Some (Reasoning content _ started _ None) =>
      let startedAt := first_time [started; m_startedAt m] completedAt in
      let durationMs := elapsed completedAt startedAt in
      with_reasoning (Some (Reasoning content (n_ceil (n_div durationMs (n_of_Z 1000))) (Some startedAt)
                              (Some completedAt) (Some durationMs))) m
  | _ => m
  end.

(** * message-streaming-utils.ts *)

(** The clock as one call of an operation reads it: when it starts to time the reasoning,
    when it completes the reasoning, and when it completes the answer. *)
Record clock := Clock { now_start : number; now_reasoning : number; now_answer : number }.

Definition with_content (content : str) (r : message_reasoning) : message_reasoning :=
  Reasoning content (re_duration r) (re_startedAt r) (re_completedAt r) (re_durationMs r).

Definition processStreamingContent (now : clock) (m : message) (contentChunk : option str) : message :=
  let current := mv_content (getCurrentVersion m) in
  let fullContent := match contentChunk with Some chunk => current ++ chunk | None => current end in
  match m_reasoning m with
  | None =>
      if negb (includes fullContent think_open) then
        with_isReasoningStreaming false (updateCurrentVersionContent m fullContent)
      else
        let parsed := parseThinkTags fullContent in
        with_isReasoningStreaming (pt_hasUnclosedTag parsed)
          (with_reasoning
             (if bool_decide (pt_reasoning parsed = []) then None
              else Some (with_content (pt_reasoning parsed) (startReasoningTiming m (now_start now))))
             (updateCurrentVersionContent m fullContent))
  | Some r =>
      let parsed := parseThinkTags fullContent in
      with_isReasoningStreaming (pt_hasUnclosedTag parsed)
        (with_reasoning
           (if bool_decide (pt_reasoning parsed = []) then Some r
            else Some (with_content (pt_reasoning parsed) (startReasoningTiming m (now_start now))))
           (updateCurrentVersionContent m fullContent))
  end.

Inductive stream_chunk_type : Type := C_reasoning | C_content.
#[export] Instance stream_chunk_type_eq_dec : EqDecision stream_chunk_type.
Proof. solve_decision. Defined.

Definition getAppendableChunk (currentContent chunk : str) : str :=
  if bool_decide (currentContent = []) || negb (starts_with chunk currentContent) then chunk
  else drop (length currentContent) chunk.

Definition applyStreamingChunk (now : clock) (m : message) (type : stream_chunk_type) (chunk : str) : message :=
  if bool_decide (m_status m = Some S_error) then m
  else match type with
  | C_reasoning =>
      let reasoning := startReasoningTiming m (now_start now) in
      let appendableChunk := getAppendableChunk (re_content reasoning) chunk in
      with_status S_streaming
        (with_isReasoningStreaming true
           (with_reasoning (Some (with_content (re_content reasoning ++ appendableChunk) reasoning)) m))
  | C_content =>
      let appendableChunk := getAppendableChunk (mv_content (getCurrentVersion m)) chunk in
      let contentMessage := processStreamingContent now m (Some appendableChunk) in
      with_status S_streaming
        (match m_isReasoningStreaming contentMessage with
         | Some true => contentMessage
         | _ => completeReasoningTiming contentMessage (now_reasoning now)
         end)
  end.

(** [apiReasoningContent] absent or null is [None]. *)
Definition finalizeMessage (now : clock) (m : message) (apiReasoningContent : option str) : message :=
  let content := mv_content (getCurrentVersion m) in
  let parsedThinkTags := if includes content think_open then Some (parseThinkTags content) else None in
  let visibleContent := default content (pt_visibleContent <$> parsedThinkTags) in
  let finalReasoning :=
    or_text (default [] apiReasoningContent)
      (or_text (default [] (re_content <$> m_reasoning m)) (default [] (pt_reasoning <$> parsedThinkTags))) in
  completeReasoningTiming
    (with_isReasoningStreaming false
       (with_reasoning
          (if bool_decide (finalReasoning = []) then None
           else Some (with_content finalReasoning (startReasoningTiming m (now_start now))))
          (updateCurrentVersionContent m visibleContent)))
    (now_reasoning now).

Definition completeAssistantMessage (now : clock) (m : message) : message :=
  completeAssistantTiming (with_status S_complete (finalizeMessage now m None)) (now_answer now).

Definition isAssistantMessageFinal (m : message) : bool :=
  match m_status m with Some S_complete | Some S_error => true | _ => false end.
Definition isAssistantMessagePending (m : message) : bool :=
  match m_status m with Some S_loading | Some S_streaming => true | _ => false end.
Definition isPendingAssistantMessage (m : message) : bool :=
  bool_decide (m_from m = R_assistant) && isAssistantMessagePending m.

(** [choice.message] with its content and the two reasoning fields. *)
Record chat_choice := ChatChoice {
  cc_content : option str;
  cc_reasoning_content : option str;
  cc_reasoning : option str;
}.
(** [response.choices] *)
Definition chat_response : Type := option (list chat_choice).

Definition first_choice (response : chat_response) : option chat_choice :=
  match response with Some (choice :: _) => Some choice | _ => None end.

Definition hasChatCompletionChoice (response : chat_response) : bool :=
  match first_choice response with Some _ => true | None => false end.

Definition applyChatCompletionChoice (now : clock) (m : message) (choice : chat_choice) : message :=
  completeAssistantTiming
    (with_status S_complete
       (finalizeMessage now (updateCurrentVersionContent m (default [] (cc_content choice)))
          (match cc_reasoning_content choice with Some r => Some r | None => cc_reasoning choice end)))
    (now_answer now).

Definition applyChatCompletionResponse (now : clock) (m : message) (response : chat_response) : option message :=
  applyChatCompletionChoice now m <$> first_choice response.

(** The scan of [sanitizeMessagesOnLoad] from the end. *)
Fixpoint last_pending (messages : list message) : option nat :=
  match messages with
  | [] => None
  | m :: messages' =>
      match last_pending messages' with
      | Some i => Some (S i)
      | None => if isPendingAssistantMessage m then Some 0 else None
      end
  end.

Section translated.
(** i18next's [t] *)
Variable t : str -> str.

Definition interrupted_text : str :=
  t ERROR_MESSAGES.API_REQUEST_ERROR ++ js ": " ++ t ERROR_MESSAGES.INTERRUPTED.

Definition sanitize_message (now : clock) (m : message) : message :=
  let finalized := finalizeMessage now m None in
  let hasContent := hasMessageContent finalized in
  let hasReasoning :=
    match m_reasoning finalized with Some r => negb (bool_decide (trim (re_content r) = [])) | None => false end in
  if hasContent || hasReasoning then
    completeAssistantTiming (with_isReasoningStreaming false (with_status S_complete finalized)) (now_answer now)
  else
    completeAssistantTiming
      (with_isReasoningStreaming false
         (with_status S_error (updateCurrentVersionContent finalized interrupted_text))) (now_answer now).

Definition sanitizeMessagesOnLoad (now : clock) (messages : list message) : list message :=
  match last_pending messages with
  | None => messages
  | Some targetIndex => alter (sanitize_message now) targetIndex messages
  end.
End translated.

(** * message-update-utils.ts *)

Fixpoint updateLastAssistantMessage (messages : list message) (updater : message -> message) : list message :=
  match messages with
  | [] => []
  | [last] => if bool_decide (m_from last = R_assistant) then [updater last] else [last]
  | m :: messages' => m :: updateLastAssistantMessage messages' updater
  end.

Definition error_update (now : clock) (errorMessage : str) (errorCode : jsval) (title : str) (m : message) :
    message :=
  completeAssistantTiming
    (with_errorCode (or_value errorCode VNull)
       (with_isReasoningStreaming false
          (with_status S_error (updateCurrentVersionContent m (title ++ js ": " ++ errorMessage)))))
    (now_answer now).

Definition updateAssistantMessageWithError (now : clock) (messages : list message) (errorMessage : str)
    (errorCode : jsval) (title : str) : list message :=
  updateLastAssistantMessage messages (error_update now errorMessage errorCode title).

(** * Facts about thinking tags *)

(** The part that is pushed for a visible text: nothing when it is empty. *)
Definition visible_part (v : str) : list str := if bool_decide (v = []) then [] else [v].

(** [think_text content visible reasoning unclosed]: [content] is visible texts without an
    opening tag, between them thoughts without a closing tag in their tags; the last thought
    may be unclosed. *)
Inductive think_text : str -> list str -> list str -> bool -> Prop :=
| think_plain v : includes v think_open = false -> think_text v (visible_part v) [] false
| think_unclosed v r : includes v think_open = false -> includes r think_close = false ->
    think_text (v ++ think_open ++ r) (visible_part v) [r] true
| think_closed v r rest vs rs u : includes v think_open = false -> includes r think_close = false ->
    think_text rest vs rs u ->
    think_text (v ++ think_open ++ r ++ think_close ++ rest) (visible_part v ++ vs) (r :: rs) u.

Lemma open_length : length think_open = 7.
Proof. done. Qed.
Lemma close_length : length think_close = 8.
Proof. done. Qed.

Lemma open_first v after : includes v think_open = false -> index_of (v ++ think_open ++ after) think_open = Some (length v).
Proof.
  intros H. unfold think_open, js in *. cbn [units_of] in *. apply index_of_app; [|done].
  by apply (bool_decide_unpack _).
Qed.
Lemma close_first r after : includes r think_close = false -> index_of (r ++ think_close ++ after) think_close = Some (length r).
Proof.
  intros H. unfold think_close, js in *. cbn [units_of] in *. apply index_of_app; [|done].
  by apply (bool_decide_unpack _).
Qed.

Lemma index_of_from_app pre rest w : index_of_from (pre ++ rest) w (length pre) = (Nat.add (length pre)) <$> index_of rest w.
Proof. unfold index_of_from. by rewrite drop_app_length. Qed.

Lemma index_first text w i : index_of text w = Some i ->
  exists before after, text = before ++ w ++ after /\ length before = i /\ includes before w = false \/ w = [].
Proof.
  intros H. destruct w as [|c w]; [exists [], []; by right|].
  revert i H. induction text as [|d text IH]; intros i; cbn [index_of].
  - done.
  - destruct (starts_with (d :: text) (c :: w)) eqn:E.
    + intros [= <-]. apply starts_with_spec in E as [r ->]. exists [], r. by left.
    + destruct (index_of text (c :: w)) as [j|]; [|done]. intros [= <-].
      destruct (IH j eq_refl) as (b & a & [(-> & <- & Hb)|?]); [|done].
      exists (d :: b), a. left. split_and!; [done|done|]. cbn [includes].
      rewrite Hb, orb_false_r. apply not_true_iff_false. intros [r Hr]%starts_with_spec.
      apply not_true_iff_false in E. apply E. apply starts_with_spec. exists (r ++ (c :: w) ++ a).
      rewrite (app_comm_cons b _ d), Hr. by rewrite <- app_assoc.
Qed.

(** Every text has a reading. *)
Lemma think_text_total n content : length content <= n -> exists vs rs u, think_text content vs rs u.
Proof.
  revert content. induction n as [|n IH]; intros content Hn.
  - destruct content; [|cbn in Hn; lia]. eexists _, _, _. by apply (think_plain []).
  - destruct (index_of content think_open) as [i|] eqn:Eo.
    + apply index_first in Eo as (v & after & [(-> & _ & Hv)|?]); [|done].
      destruct (index_of after think_close) as [j|] eqn:Ec.
      * apply index_first in Ec as (r & rest & [(-> & _ & Hr)|?]); [|done].
        destruct (IH rest) as (vs & rs & u & Ht); [rewrite !length_app, open_length in Hn; lia|].
        eexists _, _, _. by apply think_closed.
      * apply index_of_None in Ec. eexists _, _, _. by apply think_unclosed.
    + apply index_of_None in Eo. eexists _, _, _. by apply think_plain.
Qed.

Lemma push_visible (vs : list str) pre v after :
  (if bool_decide (length pre < length pre + length v)
   then vs ++ [slice (pre ++ v ++ after) (length pre) (length pre + length v)] else vs) = vs ++ visible_part v.
Proof.
  unfold visible_part. destruct v as [|c v].
  - rewrite bool_decide_eq_false_2 by (cbn; lia). by rewrite app_nil_r.
  - rewrite bool_decide_eq_true_2 by (cbn; lia). cbn [bool_decide]. f_equal. f_equal.
    unfold slice. rewrite drop_app_length. replace (_ - _) with (length (c :: v)) by lia. by rewrite take_app_length.
Qed.

Lemma think_loop_exact fuel pre rest vs' rs' u vs rs : think_text rest vs' rs' u -> length rest < fuel ->
  think_loop fuel (pre ++ rest) (length pre) vs rs = (vs ++ vs', rs ++ rs', u).
Proof.
  intros Ht. revert fuel pre vs rs.
  induction Ht as [v Hv|v r Hv Hr|v r rest vs' rs' u Hv Hr Ht IH]; intros fuel pre vs rs Hf;
    (destruct fuel as [|fuel]; [lia|]); cbn [think_loop]; rewrite index_of_from_app.
  - rewrite (proj2 (index_of_None v think_open) Hv). cbn. rewrite drop_app_length, app_nil_r. unfold visible_part.
    rewrite length_app. destruct v as [|c v].
    + rewrite bool_decide_eq_false_2 by (cbn; lia). by rewrite app_nil_r.
    + by rewrite bool_decide_eq_true_2 by (cbn; lia).
  - rewrite open_first by done. cbn [fmap option_fmap option_map]. rewrite push_visible.
    assert (length pre + length v + 7 = length (pre ++ v ++ think_open)) as -> by (rewrite !length_app, ?open_length, ?close_length; lia).
    replace (pre ++ v ++ think_open ++ r) with ((pre ++ v ++ think_open) ++ r) by by rewrite <- !app_assoc.
    rewrite index_of_from_app, (proj2 (index_of_None r think_close) Hr). cbn [fmap option_fmap option_map].
    by rewrite drop_app_length.
  - rewrite open_first by done. cbn [fmap option_fmap option_map]. rewrite push_visible.
    assert (length pre + length v + 7 = length (pre ++ v ++ think_open)) as -> by (rewrite !length_app, ?open_length, ?close_length; lia).
    replace (pre ++ v ++ think_open ++ r ++ think_close ++ rest) with ((pre ++ v ++ think_open) ++ r ++ think_close ++ rest)
      by by rewrite <- !app_assoc.
    rewrite index_of_from_app, close_first by done. cbn [fmap option_fmap option_map].
    assert (slice ((pre ++ v ++ think_open) ++ r ++ think_close ++ rest) (length (pre ++ v ++ think_open))
              (length (pre ++ v ++ think_open) + length r) = r) as ->.
    { unfold slice. rewrite drop_app_length. replace (_ - _) with (length r) by lia. by rewrite take_app_length. }
    assert (length (pre ++ v ++ think_open) + length r + 8 = length (((pre ++ v ++ think_open) ++ r) ++ think_close)) as ->
      by (rewrite !length_app, ?open_length, ?close_length; lia).
    replace ((pre ++ v ++ think_open) ++ r ++ think_close ++ rest) with ((((pre ++ v ++ think_open) ++ r) ++ think_close) ++ rest)
      by by rewrite <- !app_assoc.
    rewrite IH by (rewrite !length_app, open_length in Hf; lia). by rewrite <- !app_assoc.
Qed.
