(* ===== verification/PlaygroundConversation.v ===== *)
(** The playground conversation: its edits, what is shown of a message, and the request
    that is sent (features/playground/lib: message/conversation-message-utils.ts,
    message/message-error-utils.ts, message/message-content-utils.ts,
    message/message-action-utils.ts, message/message-editor-utils.ts,
    message/message-layout-utils.ts, input/input-control-utils.ts,
    options/playground-option-utils.ts, streaming/payload-builder.ts and the pure part of
    state/playground-state-utils.ts). *)

From S2P Require Import Prelude JsString JsNumber JsNumberOrder JsValue BillingTypes JsJson PlaygroundMessage.

(** * conversation-message-utils.ts *)

(** The identifiers nanoid draws while messages are created: key and version id of the user
    message, key and version id of the assistant message. *)
Record fresh_ids := FreshIds { id_user_key : str; id_user_version : str; id_reply_key : str; id_reply_version : str }.

Definition loading_reply (ids : fresh_ids) (startedAt : number) : message :=
  createLoadingAssistantMessage (id_reply_key ids) (id_reply_version ids) startedAt.

Definition appendUserMessagePair (ids : fresh_ids) (submittedAt : number) (messages : list message) (content : str) :
    list message :=
  messages ++ [createUserMessage (id_user_key ids) (id_user_version ids) content submittedAt;
               loading_reply ids submittedAt].

Definition has_key (key : str) (m : message) : bool := bool_decide (m_key m = key).

Definition createRegeneratedMessages (ids : fresh_ids) (now : number) (messages : list message) (messageKey : str) :
    option (list message) :=
  match find_index (has_key messageKey) messages with
  | None => None
  | Some messageIndex =>
      match messages !! messageIndex with
      | Some m =>
          if bool_decide (m_from m = R_user)
          then Some (take (S messageIndex) messages ++ [loading_reply ids now])
          else Some (take messageIndex messages ++ [loading_reply ids now])
      | None => None
      end
  end.

Definition removeMessageByKey (messages : list message) (messageKey : str) : list message :=
  filter (fun m => m_key m <> messageKey) messages.

(** The loop of [getPreviousUserMessage] downwards from [beforeIndex - 1]; reading the role of
    a message that does not exist throws. *)
Fixpoint getPreviousUserMessage (messages : list message) (beforeIndex : nat) : result exn (option message) :=
  match beforeIndex with
  | O => Ok None
  | S index =>
      match messages !! index with
      | Some m => if bool_decide (m_from m = R_user) then Ok (Some m) else getPreviousUserMessage messages index
      | None => Throw type_error
      end
  end.

Record edit_result := EditResult { er_messages : list message; er_shouldSend : bool }.

Definition edit_message (messageKey content : str) (shouldSubmit : bool) (submittedAt : number) (m : message) :
    message :=
  if has_key messageKey m then
    with_createdAt (if shouldSubmit then Some submittedAt else m_createdAt m) (updateCurrentVersionContent m content)
  else m.

Definition applyMessageEdit (ids : fresh_ids) (submittedAt : number) (messages : list message)
    (messageKey content : str) (shouldSubmit : bool) : option edit_result :=
  match find_index (has_key messageKey) messages with
  | None => None
  | Some messageIndex =>
      let updatedMessages := map (edit_message messageKey content shouldSubmit submittedAt) messages in
      match updatedMessages !! messageIndex with
      | Some m =>
          if negb shouldSubmit || negb (bool_decide (m_from m = R_user))
          then Some (EditResult updatedMessages false)
          else Some (EditResult (take (S messageIndex) updatedMessages ++ [loading_reply ids submittedAt]) true)
      | None => None
      end
  end.

Definition getEditingMessageContent (messages : list message) (editingKey : option str) : str :=
  match editingKey with
  | None | Some [] => []
  | Some key => match head (filter (fun m => m_key m = key) messages) with
                | Some m => getMessageContent m
                | None => []
                end
  end.

Record render_state := RenderState { rs_alwaysShowActions : bool; rs_content : str; rs_isEditing : bool }.

Definition getChatMessageRenderState (messages : list message) (m : message) (messageIndex : nat)
    (editingKey : option str) : render_state :=
  RenderState (bool_decide (Z.of_nat messageIndex = (Z.of_nat (length messages) - 1)%Z) &&
               bool_decide (m_from m = R_assistant))
    (getMessageContent m) (bool_decide (editingKey = Some (m_key m))).

(** * message-error-utils.ts *)

Definition MODEL_PRICE_ERROR_CODE : str := js "model_price_error".
Definition FALLBACK_ERROR_CONTENT : str := js "An unknown error occurred".

Inductive error_kind : Type := EK_generic | EK_model_price.
Record message_error_state := ErrorState { es_content : str; es_kind : error_kind; es_showSettingsLink : bool }.

Definition isAdminRole (role : option number) : bool :=
  match role with Some r => n_leb (n_of_Z 10) r | None => false end.

Definition isErrorMessage (m : message) : bool := bool_decide (m_status m = Some S_error).

Definition getMessageErrorState (m : message) (isAdmin : bool) : option message_error_state :=
  if negb (isErrorMessage m) then None
  else
    let isModelPriceError := strict_equal (m_errorCode m) (VString MODEL_PRICE_ERROR_CODE) in
    Some (ErrorState (or_text (getMessageContent m) FALLBACK_ERROR_CONTENT)
            (if isModelPriceError then EK_model_price else EK_generic) (isModelPriceError && isAdmin)).

(** * message-content-utils.ts *)

Definition reasoning_streams (m : message) : bool :=
  match m_isReasoningStreaming m with Some b => b | None => false end.

Definition shouldShowMessageLoader (m : message) (isAssistant : bool) (versionContent : str) : bool :=
  isAssistant && negb (reasoning_streams m) &&
  (bool_decide (m_status m = Some S_loading) ||
   (bool_decide (m_status m = Some S_streaming) && bool_decide (versionContent = []))).

Definition shouldShowMessageContent (m : message) (versionContent : str) : bool :=
  (bool_decide (m_from m = R_user) || negb (reasoning_streams m)) && bool_decide (0 < length versionContent).

Definition getDisplayContent (m : message) (versionContent : str) : str :=
  if negb (bool_decide (m_from m = R_assistant)) then versionContent
  else if negb (includes versionContent think_open) then versionContent
  else pt_visibleContent (parseThinkTags versionContent).

(** [hasReasoning] is whether [reasoningContent] is present. *)
Record content_state := ContentState {
  cs_displayContent : str;
  cs_hasSources : bool;
  cs_isAssistant : bool;
  cs_showLoader : bool;
  cs_showMessageContent : bool;
  cs_sources : list (str * str);
  cs_reasoningContent : option str;
}.

Definition getMessageContentState (m : message) (versionContent : str) : content_state :=
  let isAssistant := bool_decide (m_from m = R_assistant) in
  let sources := default [] (m_sources m) in
  ContentState (getDisplayContent m versionContent) (bool_decide (0 < length sources)) isAssistant
    (shouldShowMessageLoader m isAssistant versionContent) (shouldShowMessageContent m versionContent) sources
    (if isAssistant then
       match m_reasoning m with
       | Some r => if bool_decide (re_content r = []) then None else Some (re_content r)
       | None => None
       end
     else None).

(** * message-action-utils.ts, message-editor-utils.ts, message-layout-utils.ts *)

Record action_state := ActionState {
  as_content : str; as_hasContent : bool; as_isAssistant : bool; as_isLoading : bool; as_isUser : bool
}.
Definition getMessageActionState (m : message) : action_state :=
  ActionState (getMessageContent m) (hasMessageContent m) (bool_decide (m_from m = R_assistant))
    (bool_decide (m_status m = Some S_loading) || bool_decide (m_status m = Some S_streaming))
    (bool_decide (m_from m = R_user)).

Record editor_state := EditorState { ed_canSave : bool; ed_hasChanged : bool; ed_showSaveAndSubmit : bool }.
Definition getMessageEditorState (m : message) (editText originalText : str) : editor_state :=
  let hasText := bool_decide (0 < length (trim editText)) in
  let hasChanged := negb (bool_decide (editText = originalText)) in
  EditorState (hasText && hasChanged) hasChanged (bool_decide (m_from m = R_user)).

Inductive layout_mode : Type := L_alternating | L_left.
Inductive alignment : Type := A_left | A_right.
Definition getMessageAlignment (m : message) (layoutMode : layout_mode) : alignment :=
  match layoutMode with
  | L_left => A_left
  | L_alternating => if bool_decide (m_from m = R_user) then A_right else A_left
  end.

(** * input-control-utils.ts *)

Definition truthy_flag (b : option bool) : bool := match b with Some b => b | None => false end.

Definition getSubmittableInputText (text : option str) (disabled : option bool) : option str :=
  match text with
  | Some s => if truthy_flag disabled || bool_decide (trim s = []) then None else Some s
  | None => None
  end.

Record model_option := ModelOption { mo_label : str; mo_value : str }.
Record group_option := GroupOption { go_label : str; go_value : str; go_ratio : number; go_desc : option str }.

Record input_control_state := InputControlState {
  ic_canSubmit : bool; ic_isSelectorDisabled : bool; ic_shouldShowStop : bool
}.
Definition getInputControlState (disabled : option bool) (groups : list group_option) (hasStopHandler : bool)
    (isGenerating isModelLoading : option bool) (models : list model_option) (text : str) : input_control_state :=
  InputControlState
    (negb (truthy_flag disabled) && bool_decide (0 < length models) && bool_decide (0 < length (trim text)))
    (truthy_flag disabled || truthy_flag isModelLoading || bool_decide (length groups = 0))
    (truthy_flag isGenerating && hasStopHandler).

(** * playground-option-utils.ts *)

Definition offers_model (models : list model_option) (model : str) : bool :=
  existsb (fun o => bool_decide (mo_value o = model)) models.

Definition getModelFallback (models : list model_option) (currentModel : str) : option str :=
  match models with
  | [] => None
  | first :: _ => if offers_model models currentModel then None else Some (mo_value first)
  end.

Definition shouldClearModelForGroup (models : list model_option) (currentModel : str) : bool :=
  if bool_decide (currentModel = []) then false else negb (offers_model models currentModel).

Definition offers_group (groups : list group_option) (group : str) : bool :=
  existsb (fun o => bool_decide (go_value o = group)) groups.

Definition getGroupFallback (groups : list group_option) (currentGroup : str) : option str :=
  match groups with
  | [] => None
  | first :: _ =>
      if offers_group groups currentGroup then None
      else Some (if offers_group groups (js "default") then js "default" else go_value first)
  end.

(** * payload-builder.ts *)

Record playground_config := PlaygroundConfig {
  pc_model : str;
  pc_group : str;
  pc_temperature : number;
  pc_top_p : number;
  pc_max_tokens : number;
  pc_frequency_penalty : number;
  pc_presence_penalty : number;
  pc_seed : option number;
  pc_stream : bool;
}.

Record parameter_enabled := ParameterEnabled {
  pe_temperature : bool;
  pe_top_p : bool;
  pe_max_tokens : bool;
  pe_frequency_penalty : bool;
  pe_presence_penalty : bool;
  pe_seed : bool;
}.

Record chat_request := ChatRequest {
  rq_model : str;
  rq_group : str;
  rq_messages : list api_message;
  rq_stream : bool;
  rq_temperature : option number;
  rq_top_p : option number;
  rq_max_tokens : option number;
  rq_frequency_penalty : option number;
  rq_presence_penalty : option number;
  rq_seed : option number;
}.

Definition when_enabled {A} (enabled : bool) (value : A) : option A := if enabled then Some value else None.

Definition buildChatCompletionPayload (messages : list message) (config : playground_config)
    (enabled : parameter_enabled) : chat_request :=
  ChatRequest (pc_model config) (pc_group config)
    (map formatMessageForAPI (filter (fun m => isValidMessage m = true) messages)) (pc_stream config)
    (when_enabled (pe_temperature enabled) (pc_temperature config))
    (when_enabled (pe_top_p enabled) (pc_top_p config))
    (when_enabled (pe_max_tokens enabled) (pc_max_tokens config))
    (when_enabled (pe_frequency_penalty enabled) (pc_frequency_penalty config))
    (when_enabled (pe_presence_penalty enabled) (pc_presence_penalty config))
    (if pe_seed enabled then pc_seed config else None).

(** * playground-state-utils.ts *)

Definition DEFAULT_PARAMETER_ENABLED : parameter_enabled := ParameterEnabled true true false true true false.

Definition isClaudeLikePlaygroundModel `{Host} (model : str) : bool :=
  let normalized := to_lower_case (trim model) in
  includes normalized (js "claude") || includes normalized (js "anthropic").

Definition getDefaultParameterEnabledForModel `{Host} (model : str) : parameter_enabled :=
  if isClaudeLikePlaygroundModel model then ParameterEnabled false false false true true false
  else DEFAULT_PARAMETER_ENABLED.

(** [Partial<ParameterEnabled>]: spreading it over the defaults keeps the default of every
    absent field. *)
Record partial_enabled := PartialEnabled {
  pp_temperature : option bool;
  pp_top_p : option bool;
  pp_max_tokens : option bool;
  pp_frequency_penalty : option bool;
  pp_presence_penalty : option bool;
  pp_seed : option bool;
}.

Definition spread_enabled (base : parameter_enabled) (over : partial_enabled) : parameter_enabled :=
  ParameterEnabled (default (pe_temperature base) (pp_temperature over)) (default (pe_top_p base) (pp_top_p over))
    (default (pe_max_tokens base) (pp_max_tokens over))
    (default (pe_frequency_penalty base) (pp_frequency_penalty over))
    (default (pe_presence_penalty base) (pp_presence_penalty over)) (default (pe_seed base) (pp_seed over)).

Definition resolveParameterEnabledForModel `{Host} (model : str) (saved : option partial_enabled) : parameter_enabled :=
  match saved with
  | Some over => spread_enabled (getDefaultParameterEnabledForModel model) over
  | None => getDefaultParameterEnabledForModel model
  end.
