(* ===== verification/PlaygroundSession.v ===== *)
(** The playground session: the stream and the requests it runs
    (features/playground/lib/streaming: stream-utils.ts, request-error-utils.ts;
    features/playground/hooks: use-chat-handler.ts, use-stream-request.ts,
    use-playground-conversation.ts).

    The references and states of the hooks are one record, [session]; a callback is a
    function on it.  A run is a sequence of [event]s: actions of the user, the timer,
    events of the server-sent event source and settled requests.  The event source and the
    HTTP client are libraries: what they deliver, the readings of the clock and the drawn
    identifiers come with the event.  A source or request is its number.  An event that a
    library dispatches while it is being closed is an event of its own.  Notifications and
    console output are not recorded. *)

From S2P Require Import Prelude JsString JsNumber JsNumberOrder JsValue BillingTypes JsJson PlaygroundMessage PlaygroundConversation.

(** * stream-utils.ts *)

(** [value.key] on JSON data; none of the keys read here is inherited. *)
Definition property (v : jsval) (key : str) : result exn jsval :=
  match v with
  | VUndefined | VNull => Throw type_error
  | VObject entries => Ok (default VUndefined (obj_get key entries))
  | _ => Ok VUndefined
  end.
(** [value?.key] *)
Definition optional_property (v : jsval) (key : str) : jsval :=
  match property v key with Ok x => x | Throw _ => VUndefined end.
(** [value?.[0]] *)
Definition optional_first (v : jsval) : jsval :=
  match v with
  | VArray (x :: _) => x
  | VObject entries => default VUndefined (obj_get (js "0") entries)
  | VString (c :: _) => VString [c]
  | _ => VUndefined
  end.
(** [a ?? b] *)
Definition coalesce (a b : jsval) : jsval := if is_nullish a then b else a.

Record error_details := ErrorDetails { ed_errorCode : jsval; ed_errorMessage : jsval }.

Definition parseStreamErrorDetails (data : option str) : error_details :=
  let fallbackMessage := VString (or_text (default [] data) ERROR_MESSAGES.API_REQUEST_ERROR) in
  match data with
  | None | Some [] => ErrorDetails VUndefined fallbackMessage
  | Some text =>
      match JSON_parse text with
      | Throw _ => ErrorDetails VUndefined fallbackMessage
      | Ok parsed =>
          let error := optional_property parsed (js "error") in
          if negb (truthy error) then ErrorDetails VUndefined fallbackMessage
          else ErrorDetails (or_value (optional_property error (js "code")) VUndefined)
                 (or_value (optional_property error (js "message")) fallbackMessage)
      end
  end.

Record stream_update := StreamUpdate { su_type : stream_chunk_type; su_chunk : jsval }.

Definition parseStreamMessageUpdates (data : str) : result exn (list stream_update) :=
  chunk ← JSON_parse data;
  choices ← property chunk (js "choices");
  let delta := optional_property (optional_first choices) (js "delta") in
  if negb (truthy delta) then Ok []
  else
    let reasoning := coalesce (optional_property delta (js "reasoning_content"))
                              (optional_property delta (js "reasoning")) in
    let content := optional_property delta (js "content") in
    Ok ((if truthy reasoning then [StreamUpdate C_reasoning reasoning] else []) ++
        (if truthy content then [StreamUpdate C_content content] else [])).

Definition isStreamDoneMessage (data : str) : bool := bool_decide (data = js "[DONE]").

Definition STREAM_CLOSED_READY_STATE : number := n_of_Z 2.
Definition isStreamClosedReadyState (readyState : option number) : bool :=
  match readyState with Some r => n_eqb r STREAM_CLOSED_READY_STATE | None => false end.

(** [status] is the [status] property of the event source. *)
Definition getStreamReadyStateError (eventReadyState status : option number) : option str :=
  match eventReadyState, status with
  | Some ready, Some code =>
      if n_leb STREAM_CLOSED_READY_STATE ready && negb (n_eqb code (n_of_Z 200))
      then Some (js "HTTP " ++ string_of_number code ++ js ": " ++ ERROR_MESSAGES.CONNECTION_CLOSED) else None
  | _, _ => None
  end.

(** * request-error-utils.ts *)

Definition parseRequestErrorDetails (error : jsval) : error_details :=
  let data := optional_property (optional_property error (js "response")) (js "data") in
  ErrorDetails (or_value (optional_property (optional_property data (js "error")) (js "code")) VUndefined)
    (or_value (optional_property data (js "message"))
       (or_value (optional_property error (js "message")) (VString ERROR_MESSAGES.API_REQUEST_ERROR))).

(** * State of the hooks *)

(** [pendingStreamChunksRef] and whether [streamFlushTimerRef] holds a timer. *)
Record stream_buffer := StreamBuffer { sb_content : str; sb_reasoning : str; sb_timer : bool }.

(** use-stream-request.ts: the current source, the flag of a completed stream and the
    [isStreaming] state; how many sources were created and which of them were closed. *)
Record stream_state := StreamState {
  st_source : option nat;
  st_complete : bool;
  st_streaming : bool;
  st_created : nat;
  st_closed : list nat;
}.

(** The request part of use-chat-handler.ts; an abort controller has the number of its
    request.  [rq_running] are the requests whose promise is not settled. *)
Record request_state := RequestState {
  rs_requesting : bool;
  rs_requestId : nat;
  rs_controller : option nat;
  rs_aborted : list nat;
  rs_running : list nat;
}.

Record session := Session {
  s_messages : list message;
  s_buffer : stream_buffer;
  s_stream : stream_state;
  s_request : request_state;
  s_sent : list chat_request;
}.

Definition with_messages (ms : list message) (s : session) : session :=
  Session ms (s_buffer s) (s_stream s) (s_request s) (s_sent s).
Definition with_buffer (b : stream_buffer) (s : session) : session :=
  Session (s_messages s) b (s_stream s) (s_request s) (s_sent s).
Definition with_stream (st : stream_state) (s : session) : session :=
  Session (s_messages s) (s_buffer s) st (s_request s) (s_sent s).
Definition with_request (r : request_state) (s : session) : session :=
  Session (s_messages s) (s_buffer s) (s_stream s) r (s_sent s).
Definition with_sent (p : chat_request) (s : session) : session :=
  Session (s_messages s) (s_buffer s) (s_stream s) (s_request s) (s_sent s ++ [p]).
Definition update_last (updater : message -> message) (s : session) : session :=
  with_messages (updateLastAssistantMessage (s_messages s) updater) s.
Definition setIsRequesting (b : bool) (s : session) : session :=
  let r := s_request s in
  with_request (RequestState b (rs_requestId r) (rs_controller r) (rs_aborted r) (rs_running r)) s.

Definition isGenerating (s : session) : bool := st_streaming (s_stream s) || rs_requesting (s_request s).

(** * use-chat-handler.ts *)

Section handlers.
(** i18next's [t] *)
Variable t : str -> str.
Implicit Types (s : session) (now : clock).

(** [nextChunk] is the value of a delta: only a text has a [startsWith] method. *)
Definition mergePendingStreamChunk (currentChunk : str) (nextChunk : jsval) : result exn str :=
  match currentChunk with
  | [] => to_string nextChunk
  | _ => match nextChunk with
         | VString next => Ok (if negb (starts_with next currentChunk) then currentChunk ++ next else next)
         | _ => Throw type_error
         end
  end.

(** The updater of [flushStreamUpdates]. *)
Definition flush_update now (b : stream_buffer) (m : message) : message :=
  let m := if bool_decide (sb_reasoning b = []) then m else applyStreamingChunk now m C_reasoning (sb_reasoning b) in
  if bool_decide (sb_content b = []) then m else applyStreamingChunk now m C_content (sb_content b).

Definition flushStreamUpdates now s : session :=
  let b := s_buffer s in
  if bool_decide (sb_reasoning b = []) && bool_decide (sb_content b = []) then with_buffer (StreamBuffer [] [] false) s
  else update_last (flush_update now b) (with_buffer (StreamBuffer [] [] false) s).

(** Merging into the chosen buffer and [scheduleStreamFlush]; a merge that throws leaves the
    buffers as they were. *)
Definition handleStreamUpdate (u : stream_update) s : result exn session :=
  let b := s_buffer s in
  match su_type u with
  | C_content => merged ← mergePendingStreamChunk (sb_content b) (su_chunk u);
                 Ok (with_buffer (StreamBuffer merged (sb_reasoning b) true) s)
  | C_reasoning => merged ← mergePendingStreamChunk (sb_reasoning b) (su_chunk u);
                   Ok (with_buffer (StreamBuffer (sb_content b) merged true) s)
  end.

Definition KNOWN_ERROR_MESSAGES : list str :=
  [ERROR_MESSAGES.API_REQUEST_ERROR; ERROR_MESSAGES.NETWORK_ERROR; ERROR_MESSAGES.PARSE_ERROR;
   ERROR_MESSAGES.STREAM_START_ERROR; ERROR_MESSAGES.CONNECTION_CLOSED; ERROR_MESSAGES.INTERRUPTED].

(** Only a text has an [endsWith] method. *)
Definition getDisplayError (error : jsval) : result exn str :=
  match error with
  | VString text =>
      if bool_decide (text ∈ KNOWN_ERROR_MESSAGES) then Ok (t text)
      else if ends_with text (js ": " ++ ERROR_MESSAGES.CONNECTION_CLOSED) then
        Ok (take (length text - length ERROR_MESSAGES.CONNECTION_CLOSED) text ++ t ERROR_MESSAGES.CONNECTION_CLOSED)
      else Ok text
  | _ => Throw type_error
  end.

Definition handleStreamComplete now s : session :=
  update_last (fun m => if isAssistantMessageFinal m then m else completeAssistantMessage now m)
    (setIsRequesting false (flushStreamUpdates now s)).

(** The state after the handler, and whether it returned: an exception leaves the state
    reached so far. *)
Definition handleStreamError now (error errorCode : jsval) s : session * bool :=
  let s := setIsRequesting false (flushStreamUpdates now s) in
  match getDisplayError error with
  | Ok displayError =>
      (with_messages (updateAssistantMessageWithError now (s_messages s) displayError errorCode
                        (t ERROR_MESSAGES.API_REQUEST_ERROR)) s, true)
  | Throw _ => (s, false)
  end.

(** * use-stream-request.ts *)

(** [source.close()] *)
Definition close_source (source : nat) s : session :=
  let st := s_stream s in
  with_stream (StreamState (st_source st) (st_complete st) (st_streaming st) (st_created st) (source :: st_closed st)) s.

Definition closeActiveStream (source : option nat) s : session :=
  let s := match source with
           | Some src => close_source src s
           | None => match st_source (s_stream s) with Some src => close_source src s | None => s end
           end in
  let st := s_stream s in
  let current := match source with None => true | Some src => bool_decide (st_source st = Some src) end in
  if current then with_stream (StreamState None (st_complete st) false (st_created st) (st_closed st)) s else s.

Definition stream_handleError now (source : nat) (error errorCode : jsval) s : session :=
  if st_complete (s_stream s) then s
  else let '(s, returned) := handleStreamError now error errorCode s in
       if returned then closeActiveStream (Some source) s else s.

Fixpoint apply_updates (updates : list stream_update) s : session * bool :=
  match updates with
  | [] => (s, true)
  | u :: updates' => match handleStreamUpdate u s with
                     | Ok s' => apply_updates updates' s'
                     | Throw _ => (s, false)
                     end
  end.

(** The listener of message events. *)
Definition on_message now (source : nat) (data : str) s : session :=
  if isStreamDoneMessage data then
    let st := s_stream s in
    handleStreamComplete now
      (closeActiveStream (Some source)
         (with_stream (StreamState (st_source st) true (st_streaming st) (st_created st) (st_closed st)) s))
  else
    match parseStreamMessageUpdates data with
    | Throw _ => stream_handleError now source (VString ERROR_MESSAGES.PARSE_ERROR) VUndefined s
    | Ok updates =>
        let '(s', returned) := apply_updates updates s in
        if returned then s' else stream_handleError now source (VString ERROR_MESSAGES.PARSE_ERROR) VUndefined s'
    end.

(** The listener of error events; [readyState] is that of the source. *)
Definition on_error now (source : nat) (readyState : option number) (data : option str) s : session :=
  if isStreamClosedReadyState readyState then s
  else let details := parseStreamErrorDetails data in
       stream_handleError now source (ed_errorMessage details) (ed_errorCode details) s.

(** The listener of readystatechange events. *)
Definition on_ready_state now (source : nat) (readyState status : option number) s : session :=
  match getStreamReadyStateError readyState status with
  | Some error => stream_handleError now source (VString error) VUndefined s
  | None => s
  end.

(** [starts] says whether [source.stream()] returned. *)
Definition sendStreamRequest now (starts : bool) s : session :=
  let s := match st_source (s_stream s) with Some src => close_source src s | None => s end in
  let st := s_stream s in
  let source := st_created st in
  let s := with_stream (StreamState (Some source) false true (S source) (st_closed st)) s in
  if starts then s
  else closeActiveStream (Some source)
         (handleStreamError now (VString ERROR_MESSAGES.STREAM_START_ERROR) VUndefined s).1.

(** * Requests *)

(** What an action of the user finds when it sends a request: the configuration, the drawn
    identifiers, the time of submission, the clock, and whether [source.stream()] returns. *)
Record send_context := SendContext {
  sc_config : playground_config;
  sc_enabled : parameter_enabled;
  sc_ids : fresh_ids;
  sc_submittedAt : number;
  sc_now : clock;
  sc_starts : bool;
}.
Implicit Types (c : send_context).

Definition sendStreamingChat c (messages : list message) s : session :=
  sendStreamRequest (sc_now c) (sc_starts c)
    (with_sent (buildChatCompletionPayload messages (sc_config c) (sc_enabled c)) (setIsRequesting true s)).

Definition sendNonStreamingChat c (messages : list message) s : session :=
  let r := s_request s in
  let requestId := S (rs_requestId r) in
  setIsRequesting true
    (with_request (RequestState (rs_requesting r) requestId (Some requestId) (rs_aborted r) (requestId :: rs_running r))
       (with_sent (buildChatCompletionPayload messages (sc_config c) (sc_enabled c)) s)).

Definition sendChat c (messages : list message) s : session :=
  if pc_stream (sc_config c) then sendStreamingChat c messages s else sendNonStreamingChat c messages s.

(** How the promise of a request settles. *)
Inductive request_outcome : Type :=
| Fulfilled (response : chat_response)
| Rejected (error : jsval).

(** [sendNonStreamingChat] after its [await], with its [finally] block. *)
Definition settle_request now (requestId : nat) (o : request_outcome) s : session :=
  let s :=
    if bool_decide (requestId ∈ rs_aborted (s_request s)) then s
    else match o with
    | Fulfilled response =>
        if negb (hasChatCompletionChoice response) then
          (handleStreamError now (VString ERROR_MESSAGES.API_REQUEST_ERROR) VUndefined s).1
        else update_last (fun m => default m (applyChatCompletionResponse now m response)) s
    | Rejected error =>
        let details := parseRequestErrorDetails error in
        (handleStreamError now (ed_errorMessage details) (ed_errorCode details) s).1
    end in
  let r := s_request s in
  let running := filter (fun i => i <> requestId) (rs_running r) in
  if bool_decide (rs_requestId r = requestId)
  then with_request (RequestState false (rs_requestId r) None (rs_aborted r) running) s
  else with_request (RequestState (rs_requesting r) (rs_requestId r) (rs_controller r) (rs_aborted r) running) s.

Definition stopGeneration now s : session :=
  let s := flushStreamUpdates now (closeActiveStream None s) in
  let r := s_request s in
  let aborted := match rs_controller r with Some c => c :: rs_aborted r | None => rs_aborted r end in
  update_last (fun m => if isAssistantMessagePending m then completeAssistantMessage now m else m)
    (with_request (RequestState false (rs_requestId r) None aborted (rs_running r)) s).

(** * use-playground-conversation.ts *)

Definition handleSendMessage c (text : str) s : session :=
  let nextMessages := appendUserMessagePair (sc_ids c) (sc_submittedAt c) (s_messages s) text in
  sendChat c nextMessages (with_messages nextMessages s).

Definition handleRegenerateMessage c (key : str) s : session :=
  match createRegeneratedMessages (sc_ids c) (sc_submittedAt c) (s_messages s) key with
  | None => s
  | Some nextMessages => sendChat c nextMessages (with_messages nextMessages s)
  end.

(** [applyEdit] of the message that is being edited. *)
Definition applyEdit c (key content : str) (shouldSubmit : bool) s : session :=
  match applyMessageEdit (sc_ids c) (sc_submittedAt c) (s_messages s) key content shouldSubmit with
  | None => s
  | Some (EditResult messages shouldSend) =>
      let s := with_messages messages s in
      if shouldSend then sendChat c messages s else s
  end.

Definition handleDeleteMessage (key : str) s : session :=
  with_messages (removeMessageByKey (s_messages s) key) s.

(** * Runs *)

Inductive event : Type :=
| E_send (c : send_context) (text : str)
| E_regenerate (c : send_context) (key : str)
| E_edit (c : send_context) (key content : str) (shouldSubmit : bool)
| E_delete (key : str)
| E_clear
| E_stop (now : clock)
| E_timer (now : clock)
| E_message (now : clock) (source : nat) (data : str)
| E_error (now : clock) (source : nat) (readyState : option number) (data : option str)
| E_ready_state (now : clock) (source : nat) (readyState status : option number)
| E_settled (now : clock) (requestId : nat) (o : request_outcome).

Definition handle (e : event) s : session :=
  match e with
  | E_send c text => handleSendMessage c text s
  | E_regenerate c key => handleRegenerateMessage c key s
  | E_edit c key content submit => applyEdit c key content submit s
  | E_delete key => handleDeleteMessage key s
  | E_clear => with_messages [] s
  | E_stop now => stopGeneration now s
  | E_timer now => flushStreamUpdates now s
  | E_message now source data => on_message now source data s
  | E_error now source ready data => on_error now source ready data s
  | E_ready_state now source ready status => on_ready_state now source ready status s
  | E_settled now requestId o => settle_request now requestId o s
  end.

(** [source] was created and not closed. *)
Definition open_source (source : nat) s : bool :=
  bool_decide (source < st_created (s_stream s)) && negb (bool_decide (source ∈ st_closed (s_stream s))).

Definition text_value (v : jsval) : bool := match v with VString _ => true | _ => false end.

(** What the environment may deliver.  The input is disabled and the message actions are
    guarded while an answer is generated (playground-input.tsx, use-message-action-guard.ts);
    only the editor stays usable.  A closed event source delivers no events, a promise
    settles once, and an error report of the server carries a text. *)
Definition allowed (e : event) s : bool :=
  match e with
  | E_send _ _ | E_regenerate _ _ | E_delete _ | E_clear => negb (isGenerating s)
  | E_edit _ _ _ _ | E_stop _ => true
  | E_timer _ => sb_timer (s_buffer s)
  | E_message _ source _ | E_ready_state _ source _ _ => open_source source s
  | E_error _ source _ data => open_source source s && text_value (ed_errorMessage (parseStreamErrorDetails data))
  | E_settled _ requestId o =>
      bool_decide (requestId ∈ rs_running (s_request s)) &&
      match o with Rejected error => text_value (ed_errorMessage (parseRequestErrorDetails error)) | _ => true end
  end.

Definition initial_session (messages : list message) : session :=
  Session messages (StreamBuffer [] [] false) (StreamState None false false 0 []) (RequestState false 0 None [] []) [].

(** The sessions a run reaches from the messages that were loaded. *)
Inductive reachable (messages : list message) : session -> Prop :=
| reach_init : reachable messages (initial_session messages)
| reach_step e s : reachable messages s -> allowed e s = true -> reachable messages (handle e s).
End handlers.
