(* ===== verification/PlaygroundSessionFacts.v ===== *)
(** Invariants of the playground session: which messages can still be pending, and how the
    buffers, the event source and the requests relate to them. *)

From S2P Require Import Prelude JsString JsNumber JsNumberOrder JsValue BillingTypes JsJson PlaygroundMessage PlaygroundConversation PlaygroundSession.

(** * Pending messages *)

Definition no_pending (ms : list message) : Prop := Forall (fun m => isPendingAssistantMessage m = false) ms.

(** Only the last message may be pending. *)
Fixpoint only_last_pending (ms : list message) : Prop :=
  match ms with
  | [] | [_] => True
  | m :: ms' => isPendingAssistantMessage m = false /\ only_last_pending ms'
  end.

Lemma no_pending_only_last ms : no_pending ms -> only_last_pending ms.
Proof. intros H. induction H as [|m ms Hm H IH]; [done|]. destruct ms; done. Qed.

Lemma only_last_snoc ms m : only_last_pending (ms ++ [m]) <-> no_pending ms.
Proof.
  induction ms as [|a ms IH]; [split; [constructor|done]|].
  unfold no_pending in *. rewrite Forall_cons, <- IH. destruct ms; simpl; done.
Qed.

Lemma only_last_take ms i : only_last_pending ms -> i < length ms -> no_pending (take i ms).
Proof.
  revert i. induction ms as [|m ms IH]; intros i H Hi; [simpl in Hi; lia|].
  destruct i as [|i]; [constructor|]. destruct ms as [|m' ms]; [simpl in Hi; lia|].
  destruct H as [Hm H]. cbn [take]. constructor; [done|]. apply (IH i H). simpl in *. lia.
Qed.

Lemma only_last_lookup ms i m : only_last_pending ms -> ms !! i = Some m ->
  isPendingAssistantMessage m = false -> no_pending (take (S i) ms).
Proof.
  intros H Hi Hm. erewrite take_S_r by done. apply Forall_app. split; [|by repeat constructor].
  apply only_last_take; [done|]. by eapply lookup_lt_Some.
Qed.

Lemma only_last_filter (P : message -> Prop) `{forall m, Decision (P m)} ms :
  only_last_pending ms -> only_last_pending (filter P ms).
Proof.
  induction ms as [|m ms IH] using rev_ind; [done|]. intros Hs%only_last_snoc.
  rewrite filter_app. assert (no_pending (filter P ms)) as Hf.
  { apply Forall_forall. intros x [_ Hx]%list_elem_of_filter. by apply (proj1 (Forall_forall _ _) Hs). }
  rewrite filter_cons, filter_nil. destruct (decide (P m)).
  - by apply only_last_snoc.
  - rewrite app_nil_r. by apply no_pending_only_last.
Qed.

Lemma only_last_map f ms : (forall m, isPendingAssistantMessage (f m) = isPendingAssistantMessage m) ->
  only_last_pending (map f ms) <-> only_last_pending ms.
Proof.
  intros Hf. induction ms as [|m ms IH]; [done|]. destruct ms as [|m' ms]; [done|].
  change (map f (m :: m' :: ms)) with (f m :: map f (m' :: ms)).
  change (isPendingAssistantMessage (f m) = false /\ only_last_pending (map f (m' :: ms)) <->
          isPendingAssistantMessage m = false /\ only_last_pending (m' :: ms)).
  by rewrite IH, Hf.
Qed.

Lemma no_pending_map f ms : (forall m, isPendingAssistantMessage (f m) = isPendingAssistantMessage m) ->
  no_pending (map f ms) <-> no_pending ms.
Proof.
  intros Hf. induction ms as [|m ms IH]; [done|]. cbn [map]. unfold no_pending in *.
  by rewrite !Forall_cons, IH, Hf.
Qed.

(** * Updating the last message *)

Lemma update_last_snoc ms m f :
  updateLastAssistantMessage (ms ++ [m]) f = ms ++ [if bool_decide (m_from m = R_assistant) then f m else m].
Proof.
  induction ms as [|a ms IH]; [simpl; by case_bool_decide|].
  destruct ms as [|b ms]; [simpl; by case_bool_decide|]. change ((a :: b :: ms) ++ [m]) with (a :: (b :: ms) ++ [m]).
  cbn [app] in *. cbn [updateLastAssistantMessage]. f_equal. by rewrite <- IH.
Qed.

Lemma update_last_only ms f : only_last_pending ms -> only_last_pending (updateLastAssistantMessage ms f).
Proof.
  destruct ms as [|m ms _] using rev_ind; [done|]. rewrite update_last_snoc. by rewrite !only_last_snoc.
Qed.

Lemma update_last_settles ms f : only_last_pending ms ->
  (forall m, m_from m = R_assistant -> isPendingAssistantMessage (f m) = false) ->
  no_pending (updateLastAssistantMessage ms f).
Proof.
  intros H Hf. destruct ms as [|m ms _] using rev_ind; [constructor|]. rewrite update_last_snoc.
  apply only_last_snoc in H. apply Forall_app. split; [done|]. constructor; [|done].
  case_bool_decide as Hr; [auto|]. unfold isPendingAssistantMessage. by rewrite bool_decide_eq_false_2.
Qed.

(** * What the operations do to role and status *)

Lemma timing_status m t : m_status (completeAssistantTiming m t) = m_status m.
Proof. unfold completeAssistantTiming. by case_bool_decide. Qed.
Lemma timing_role m t : m_from (completeAssistantTiming m t) = m_from m.
Proof. unfold completeAssistantTiming. by case_bool_decide. Qed.
Lemma timing_content m t : getMessageContent (completeAssistantTiming m t) = getMessageContent m.
Proof. unfold completeAssistantTiming. by case_bool_decide. Qed.
Lemma reasoning_timing_status m t : m_status (completeReasoningTiming m t) = m_status m.
Proof. unfold completeReasoningTiming. by destruct (m_reasoning m) as [[? ? ? ? []]|]. Qed.
Lemma reasoning_timing_role m t : m_from (completeReasoningTiming m t) = m_from m.
Proof. unfold completeReasoningTiming. by destruct (m_reasoning m) as [[? ? ? ? []]|]. Qed.
Lemma reasoning_timing_content m t : getMessageContent (completeReasoningTiming m t) = getMessageContent m.
Proof. unfold completeReasoningTiming. by destruct (m_reasoning m) as [[? ? ? ? []]|]. Qed.

Lemma finalize_role now m r : m_from (finalizeMessage now m r) = m_from m.
Proof. unfold finalizeMessage. by rewrite reasoning_timing_role. Qed.

Lemma complete_status now m : m_status (completeAssistantMessage now m) = Some S_complete.
Proof. unfold completeAssistantMessage. by rewrite timing_status. Qed.
Lemma complete_role now m : m_from (completeAssistantMessage now m) = m_from m.
Proof. unfold completeAssistantMessage. rewrite timing_role. apply finalize_role. Qed.
Lemma choice_status now m c : m_status (applyChatCompletionChoice now m c) = Some S_complete.
Proof. unfold applyChatCompletionChoice. by rewrite timing_status. Qed.
Lemma error_status now e c title m : m_status (error_update now e c title m) = Some S_error.
Proof. unfold error_update. by rewrite timing_status. Qed.

Lemma final_not_pending m : isAssistantMessageFinal m = true -> isPendingAssistantMessage m = false.
Proof.
  unfold isAssistantMessageFinal, isPendingAssistantMessage, isAssistantMessagePending.
  destruct (m_status m) as [[]|]; try done; intros _; apply andb_false_r.
Qed.
Lemma status_final m s : m_status m = Some s -> s = S_complete \/ s = S_error -> isAssistantMessageFinal m = true.
Proof. unfold isAssistantMessageFinal. by intros -> [->| ->]. Qed.

Lemma edit_pending key content submit at_ m :
  isPendingAssistantMessage (edit_message key content submit at_ m) = isPendingAssistantMessage m.
Proof. unfold edit_message. by destruct (has_key key m). Qed.
Lemma edit_role key content submit at_ m : m_from (edit_message key content submit at_ m) = m_from m.
Proof. unfold edit_message. by destruct (has_key key m). Qed.

Create Rewrite HintDb message.
#[export] Hint Rewrite timing_status timing_role timing_content reasoning_timing_status reasoning_timing_role
  reasoning_timing_content finalize_role complete_status complete_role choice_status error_status : message.

(** * Conversation edits keep pending messages last *)

Lemma user_not_pending m : m_from m = R_user -> isPendingAssistantMessage m = false.
Proof. intros H. unfold isPendingAssistantMessage. by rewrite bool_decide_eq_false_2 by congruence. Qed.

Lemma regenerated_only_last ids now ms key ms' : only_last_pending ms ->
  createRegeneratedMessages ids now ms key = Some ms' -> exists init, ms' = init ++ [loading_reply ids now] /\ no_pending init.
Proof.
  intros H. unfold createRegeneratedMessages. destruct (find_index _ ms) as [i|] eqn:Hi; [|done].
  apply find_index_Some in Hi as (m & Hm & _). rewrite Hm. case_bool_decide as Hr; intros [= <-].
  - eexists. split; [done|]. eapply only_last_lookup; [done..|]. by apply user_not_pending.
  - eexists. split; [done|]. apply only_last_take; [done|]. by eapply lookup_lt_Some.
Qed.

Lemma edited_only_last ids now ms key content submit r : only_last_pending ms ->
  applyMessageEdit ids now ms key content submit = Some r ->
  (er_shouldSend r = false /\ only_last_pending (er_messages r) /\ (no_pending ms -> no_pending (er_messages r))) \/
  (er_shouldSend r = true /\ exists init, er_messages r = init ++ [loading_reply ids now] /\ no_pending init).
Proof.
  intros H. unfold applyMessageEdit. destruct (find_index _ ms) as [i|] eqn:Hi; [|done].
  set (f := edit_message key content submit now).
  destruct (map f ms !! i) as [m|] eqn:Hm; [|done].
  assert (only_last_pending (map f ms)) as Ho by by apply only_last_map; [intros; apply edit_pending|].
  destruct submit; cbn [negb orb]; [case_bool_decide as Hr; cbn [negb]|]; intros [= <-]; cbn.
  - right. split; [done|]. eexists. split; [done|].
    change (no_pending (take (S i) (map f ms))). eapply only_last_lookup; [done..|]. by apply user_not_pending.
  - left. split_and!; [done..|]. apply no_pending_map. intros; apply edit_pending.
  - left. split_and!; [done..|]. apply no_pending_map. intros; apply edit_pending.
Qed.

(** * The invariant *)

Definition no_buffer : stream_buffer := StreamBuffer [] [] false.

Definition source_open (source : nat) (st : stream_state) : bool :=
  bool_decide (source < st_created st) && negb (bool_decide (source ∈ st_closed st)).

(** The current source is the only open one, and [isStreaming] tells whether there is one. *)
Record stream_ok (st : stream_state) : Prop := {
  so_streaming : st_streaming st = bool_decide (is_Some (st_source st));
  so_open source : source_open source st = true <-> st_source st = Some source;
  so_complete : is_Some (st_source st) -> st_complete st = false;
  so_closed : Forall (fun source => source < st_created st) (st_closed st);
}.

(** Buffered text has a timer that will show it, and a timer has an open stream. *)
Record buffer_ok (b : stream_buffer) (st : stream_state) : Prop := {
  bo_timer : sb_content b <> [] \/ sb_reasoning b <> [] -> sb_timer b = true;
  bo_source : sb_timer b = true -> is_Some (st_source st);
}.

Record request_ok (r : request_state) : Prop := {
  ro_controller c : rs_controller r = Some c -> c <= rs_requestId r;
  ro_aborted : Forall (fun i => i <= rs_requestId r) (rs_aborted r);
}.

(** A pending message has a stream, or a request that will settle it. *)
Definition answer_expected (s : session) : Prop :=
  is_Some (st_source (s_stream s)) \/
  (rs_requesting (s_request s) = true /\ rs_requestId (s_request s) ∉ rs_aborted (s_request s)).

Record session_ok (s : session) : Prop := {
  ok_stream : stream_ok (s_stream s);
  ok_request : request_ok (s_request s);
  ok_buffer : buffer_ok (s_buffer s) (s_stream s);
  ok_last : only_last_pending (s_messages s);
  ok_pending : no_pending (s_messages s) \/ answer_expected s;
}.

Lemma no_buffer_ok st : buffer_ok no_buffer st.
Proof. split; [by intros [?|?]|done]. Qed.

(** Nothing left to show, nothing pending. *)
Definition settled (s : session) : Prop := s_buffer s = no_buffer /\ no_pending (s_messages s).

Lemma settled_ok s : stream_ok (s_stream s) -> request_ok (s_request s) -> settled s -> session_ok s.
Proof.
  intros Hs Hr [Hb Hp]. split; [done..| | |by left].
  - rewrite Hb. apply no_buffer_ok.
  - by apply no_pending_only_last.
Qed.

(** ** Handlers, by what they keep *)

Lemma flush_keeps now s : let s' := flushStreamUpdates now s in
  s_stream s' = s_stream s /\ s_request s' = s_request s /\ s_buffer s' = no_buffer /\ s_sent s' = s_sent s.
Proof. unfold flushStreamUpdates. by destruct (_ && _). Qed.

Lemma flush_only_last now s : only_last_pending (s_messages s) -> only_last_pending (s_messages (flushStreamUpdates now s)).
Proof. unfold flushStreamUpdates. destruct (_ && _); [done|]. apply update_last_only. Qed.

Definition idle (r : request_state) : request_state :=
  RequestState false (rs_requestId r) (rs_controller r) (rs_aborted r) (rs_running r).
Lemma idle_ok r : request_ok r -> request_ok (idle r).
Proof. intros [H1 H2]. by split. Qed.

Lemma error_settles t now e code s : text_value e = true -> only_last_pending (s_messages s) ->
  let r := handleStreamError t now e code s in
  r.2 = true /\ settled r.1 /\ s_stream r.1 = s_stream s /\ s_request r.1 = idle (s_request s).
Proof.
  intros He Ho. destruct e as [| | | |text| |]; try done. unfold handleStreamError.
  assert (exists d, getDisplayError t (VString text) = Ok d) as [d Hd].
  { unfold getDisplayError. case_bool_decide; [by eexists|]. destruct (ends_with _ _); by eexists. }
  rewrite Hd. cbn [fst snd]. destruct (flush_keeps now s) as (H1 & H2 & H3 & _).
  split_and!; [done| |done|by cbn; rewrite H2]. split; [done|].
  cbn. unfold updateAssistantMessageWithError. apply update_last_settles.
  - by apply flush_only_last.
  - intros m _. apply final_not_pending. eapply status_final; [apply error_status|auto].
Qed.

Lemma complete_settles now s : only_last_pending (s_messages s) ->
  let s' := handleStreamComplete now s in
  settled s' /\ s_stream s' = s_stream s /\ s_request s' = idle (s_request s).
Proof.
  intros Ho. destruct (flush_keeps now s) as (H1 & H2 & H3 & _). unfold handleStreamComplete.
  split_and!; [|done|by cbn; rewrite H2]. split; [done|]. cbn. apply update_last_settles.
  - by apply flush_only_last.
  - intros m _. destruct (isAssistantMessageFinal m) eqn:E; [by apply final_not_pending|].
    apply final_not_pending. eapply status_final; [apply complete_status|auto].
Qed.

(** ** Streams *)

Lemma close_keeps o s : let s' := closeActiveStream o s in
  s_messages s' = s_messages s /\ s_buffer s' = s_buffer s /\ s_request s' = s_request s /\ s_sent s' = s_sent s.
Proof.
  unfold closeActiveStream. destruct o as [src|]; [case_bool_decide; done|].
  by destruct (st_source (s_stream s)).
Qed.

(** Closing the current source, or whatever is open, leaves no stream. *)
Lemma close_stream o s : stream_ok (s_stream s) ->
  (o = None \/ exists src, o = Some src /\ st_source (s_stream s) = Some src) ->
  stream_ok (s_stream (closeActiveStream o s)) /\ st_source (s_stream (closeActiveStream o s)) = None.
Proof.
  intros [H1 H2 H3 H4] Ho. destruct s as [ms b [src0 complete streaming created closed] r sent]; cbn in *.
  assert (forall l, (forall source, source_open source (StreamState src0 complete streaming created closed) = true ->
            source ∈ l) -> (forall x, x ∈ closed -> x ∈ l) -> Forall (fun source => source < created) l ->
            stream_ok (StreamState None complete false created l)) as Hk.
  { intros l Hl Hc Hf. split; [done| |by intros []|done]. intros source. split; [|done]. intros Hs. exfalso.
    unfold source_open in Hs; cbn in Hs. apply andb_true_iff in Hs as [Hs1 Hs2]. apply negb_true_iff in Hs2.
    apply bool_decide_eq_false in Hs2. apply Hs2. destruct (decide (source ∈ closed)); [by apply Hc|]. apply Hl.
    unfold source_open; cbn. rewrite Hs1. by rewrite bool_decide_eq_false_2. }
  assert (forall src, src0 = Some src -> stream_ok (StreamState None complete false created (src :: closed))) as Hs.
  { intros src ->. assert (src < created) as Hlt.
    { specialize (proj2 (H2 src) eq_refl). unfold source_open; cbn. intros [Hlt _]%andb_true_iff.
      by apply bool_decide_eq_true in Hlt. }
    apply Hk; [|by right|by constructor]. intros source Hs%H2. injection Hs as ->. left. }
  destruct Ho as [->|(src & -> & ->)].
  - destruct src0 as [src|]; cbn; (split; [|done]); [by apply Hs|]. apply Hk; [|done..]. by intros source Hs'%H2.
  - unfold closeActiveStream. cbn. rewrite bool_decide_eq_true_2 by done. split; [|done]. by apply Hs.
Qed.

Lemma new_stream st : stream_ok st ->
  stream_ok (StreamState (Some (st_created st)) false true (S (st_created st))
    (match st_source st with Some src => src :: st_closed st | None => st_closed st end)).
Proof.
  intros [H1 H2 H3 H4]. assert (forall x, x < st_created st -> x ∉ st_closed st -> st_source st = Some x) as Ho.
  { intros x Hx Hc. apply H2. unfold source_open. by rewrite bool_decide_eq_true_2, bool_decide_eq_false_2. }
  assert (Forall (fun x => x < st_created st)
            (match st_source st with Some src => src :: st_closed st | None => st_closed st end)) as Hf.
  { destruct (st_source st) as [src|]; [|done]. constructor; [|done]. specialize (proj2 (H2 src) eq_refl).
    unfold source_open. intros [Hlt _]%andb_true_iff. by apply bool_decide_eq_true in Hlt. }
  split; [done| |done|].
  - intros source. unfold source_open. cbn [st_created st_closed st_source]. split.
    + intros [Hs1%bool_decide_eq_true Hs2%negb_true_iff%bool_decide_eq_false]%andb_true_iff.
      destruct (decide (source = st_created st)) as [->|Hne]; [done|]. exfalso. apply Hs2.
      destruct (decide (source ∈ st_closed st)) as [Hc|Hc].
      * destruct (st_source st); [by right|done].
      * rewrite (Ho source) by (done || lia). left.
    + intros [= <-]. rewrite bool_decide_eq_true_2 by lia. cbn. apply negb_true_iff, bool_decide_eq_false.
      intros Hin. apply (proj1 (Forall_forall _ _) Hf) in Hin. lia.
  - cbn. eapply Forall_impl; [done|]. intros x Hx. cbn in *. lia.
Qed.

(** ** Events keep the invariant *)

Lemma stream_error_ok t now source e code s : text_value e = true -> session_ok s -> open_source source s = true ->
  let s' := stream_handleError t now source e code s in
  settled s' /\ session_ok s' /\ isGenerating s' = false.
Proof.
  intros He Hs Ho. destruct Hs as [H1 H2 H3 H4 H5].
  assert (st_source (s_stream s) = Some source) as Hsrc by by apply (so_open _ H1).
  unfold stream_handleError. rewrite (so_complete _ H1) by by eexists.
  destruct (error_settles t now e code s He H4) as (E1 & E2 & E3 & E4).
  destruct (handleStreamError t now e code s) as [s1 ret]. cbn in E1, E2, E3, E4. subst ret.
  destruct (close_keeps (Some source) s1) as (K1 & K2 & K3 & _).
  destruct (close_stream (Some source) s1) as [C1 C2].
  { by rewrite E3. }
  { right. exists source. by rewrite E3. }
  assert (settled (closeActiveStream (Some source) s1)) as Hset.
  { destruct E2 as [Eb Em]. unfold settled. by rewrite K1, K2. }
  cbv zeta. split_and!; [done| |].
  - apply settled_ok; [done| |done]. rewrite K3, E4. by apply idle_ok.
  - unfold isGenerating. rewrite (so_streaming _ C1), C2, K3, E4. done.
Qed.

Lemma done_ok t now source s : session_ok s -> open_source source s = true ->
  let s' := on_message t now source (js "[DONE]") s in
  settled s' /\ session_ok s' /\ isGenerating s' = false.
Proof.
  intros [H1 H2 H3 H4 H5] Ho. assert (st_source (s_stream s) = Some source) as Hsrc by by apply (so_open _ H1).
  unfold on_message. change (isStreamDoneMessage (js "[DONE]")) with true. cbv iota zeta.
  set (s0 := with_stream _ s). set (s1 := closeActiveStream (Some source) s0).
  destruct (close_keeps (Some source) s0) as (K1 & K2 & K3 & _).
  assert (stream_ok (s_stream s1) /\ st_source (s_stream s1) = None) as [C1 C2].
  { subst s1 s0. destruct s as [ms b [src complete streaming created closed] r sent]; cbn in *. subst src.
    unfold closeActiveStream; cbn. rewrite bool_decide_eq_true_2 by done. cbn. split; [|done].
    destruct (close_stream (Some source) (Session ms b (StreamState (Some source) complete streaming created closed) r sent))
      as [[C1 C2 C3 C4] _]; [done|by right; eexists|].
    revert C1 C2 C3 C4. unfold closeActiveStream; cbn. rewrite bool_decide_eq_true_2 by done. cbn. intros C1 C2 C3 C4.
    split; [done|exact C2|by intros []|done]. }
  destruct (complete_settles now s1) as (E1 & E2 & E3); [unfold s1; by rewrite K1|].
  split_and!; [done| |].
  - apply settled_ok; [by rewrite E2| |done]. rewrite E3. apply idle_ok. unfold s1. by rewrite K3.
  - unfold isGenerating. rewrite E2, E3, (so_streaming _ C1), C2. done.
Qed.

(** Chunks only change the buffers, and set the timer. *)
Lemma updates_spec updates s s' ret : apply_updates updates s = (s', ret) ->
  s_messages s' = s_messages s /\ s_stream s' = s_stream s /\ s_request s' = s_request s /\ s_sent s' = s_sent s /\
  (s_buffer s' = s_buffer s \/ sb_timer (s_buffer s') = true).
Proof.
  revert s. induction updates as [|u updates IH]; intros s; cbn [apply_updates].
  - intros [= <- <-]. split_and!; try done. by left.
  - destruct (handleStreamUpdate u s) as [s1|e] eqn:E.
    + intros (H1 & H2 & H3 & H4 & H5)%IH. unfold handleStreamUpdate in E.
      destruct (su_type u); apply bind_Ok_inv in E as (x & _ & [= <-]); cbn in *; split_and!; try done;
        (right; destruct H5 as [-> | ?]; done).
    + intros [= <- <-]. split_and!; try done. by left.
Qed.

Lemma updates_ok updates s s' ret : session_ok s -> is_Some (st_source (s_stream s)) ->
  apply_updates updates s = (s', ret) -> session_ok s'.
Proof.
  intros [H1 H2 H3 H4 H5] Hsrc Hu. apply updates_spec in Hu as (U1 & U2 & U3 & U4 & U5).
  split; rewrite ?U1, ?U2, ?U3; try done.
  - destruct U5 as [-> | Ht]; [done|]. by split.
  - destruct H5 as [?|?]; [by left|]. right. unfold answer_expected in *. by rewrite U2, U3.
Qed.

Lemma message_ok t now source data s : session_ok s -> open_source source s = true ->
  session_ok (on_message t now source data s).
Proof.
  intros Hs Ho. unfold on_message. destruct (isStreamDoneMessage data) eqn:Ed.
  - apply bool_decide_eq_true in Ed. subst data. pose proof (done_ok t now source s Hs Ho) as (_ & H & _).
    unfold on_message in H. change (isStreamDoneMessage (js "[DONE]")) with true in H. exact H.
  - assert (st_source (s_stream s) = Some source) as Hsrc by by apply (so_open _ (ok_stream _ Hs)).
    destruct (parseStreamMessageUpdates data) as [updates|]; [|by apply stream_error_ok].
    destruct (apply_updates updates s) as [s' ret] eqn:Eu.
    assert (session_ok s') as Hs' by by eapply updates_ok; [..|done]; [done|eexists].
    destruct ret; [done|]. apply stream_error_ok; [done..|].
    apply updates_spec in Eu as (_ & U2 & _). unfold open_source. by rewrite U2.
Qed.

Lemma flush_ok now s : session_ok s -> is_Some (st_source (s_stream s)) -> session_ok (flushStreamUpdates now s).
Proof.
  intros [H1 H2 H3 H4 H5] Hsrc. destruct (flush_keeps now s) as (F1 & F2 & F3 & _).
  split; rewrite ?F1, ?F2; try done.
  - rewrite F3. apply no_buffer_ok.
  - by apply flush_only_last.
  - right. left. by rewrite F1.
Qed.

Lemma stop_ok now s : session_ok s ->
  let s' := stopGeneration now s in settled s' /\ session_ok s' /\ isGenerating s' = false.
Proof.
  intros [H1 H2 H3 H4 H5]. unfold stopGeneration.
  destruct (close_keeps None s) as (K1 & K2 & K3 & _).
  destruct (close_stream None s) as [C1 C2]; [done|by left|].
  set (s1 := closeActiveStream None s) in *.
  destruct (flush_keeps now s1) as (F1 & F2 & F3 & _). set (s2 := flushStreamUpdates now s1) in *.
  assert (only_last_pending (s_messages s2)) as Ho by (apply flush_only_last; by rewrite K1).
  cbv zeta. set (s' := update_last _ _).
  assert (settled s') as Hset.
  { split; [done|]. cbn. apply update_last_settles; [done|]. intros m Hm.
    destruct (isAssistantMessagePending m) eqn:E.
    - apply final_not_pending. eapply status_final; [apply complete_status|auto].
    - unfold isPendingAssistantMessage. by rewrite E, andb_false_r. }
  split_and!; [done| |].
  - apply settled_ok; [cbn; by rewrite F1| |done]. cbn. rewrite F2, K3. destruct H2 as [R1 R2].
    split; cbn; [done|]. destruct (rs_controller (s_request s)) as [c|]; [|done]. constructor; [by apply R1|done].
  - unfold isGenerating. cbn. rewrite F1, (so_streaming _ C1), C2. done.
Qed.

Lemma start_stream now t s : stream_ok (s_stream s) -> request_ok (s_request s) -> only_last_pending (s_messages s) ->
  buffer_ok (s_buffer s) (s_stream s) -> forall starts, session_ok (sendStreamRequest t now starts s).
Proof.
  intros H1 H2 H4 H3 starts. unfold sendStreamRequest.
  set (s0 := match st_source (s_stream s) with Some src => _ | None => _ end).
  assert (s_messages s0 = s_messages s /\ s_buffer s0 = s_buffer s /\ s_request s0 = s_request s /\
          st_created (s_stream s0) = st_created (s_stream s) /\
          st_closed (s_stream s0) = match st_source (s_stream s) with
                                    | Some src => src :: st_closed (s_stream s) | None => st_closed (s_stream s) end)
    as (E1 & E2 & E3 & E4 & E5) by (subst s0; by destruct (st_source (s_stream s))).
  set (s1 := with_stream _ s0).
  assert (stream_ok (s_stream s1)) as Hn by (subst s1; cbn; rewrite E4, E5; by apply new_stream).
  assert (s_messages s1 = s_messages s /\ s_buffer s1 = s_buffer s /\ s_request s1 = s_request s) as (F1 & F2 & F3) by done.
  destruct starts.
  - split; rewrite ?F1, ?F2, ?F3; try done.
    + split; [apply H3|]. intros _. subst s1. cbn. by eexists.
    + right. left. subst s1. cbn. by eexists.
  - destruct (error_settles t now (VString ERROR_MESSAGES.STREAM_START_ERROR) VUndefined s1 eq_refl)
      as (_ & G1 & G2 & G3); [by rewrite F1|].
    set (s2 := (handleStreamError t now _ _ s1).1) in *.
    destruct (close_keeps (Some (st_created (s_stream s0))) s2) as (K1 & K2 & K3 & _).
    destruct (close_stream (Some (st_created (s_stream s0))) s2) as [C1 C2];
      [by rewrite G2|right; eexists; by rewrite G2|].
    apply settled_ok; [done| |].
    + rewrite K3, G3, F3. by apply idle_ok.
    + destruct G1. unfold settled. by rewrite K1, K2.
Qed.

Lemma send_ok t c init s : session_ok s -> no_pending init ->
  let ms := init ++ [loading_reply (sc_ids c) (sc_submittedAt c)] in
  session_ok (sendChat t c ms (with_messages ms s)).
Proof.
  intros [H1 H2 H3 H4 H5] Hi ms. unfold sendChat. destruct (pc_stream (sc_config c)).
  - unfold sendStreamingChat. apply start_stream; cbn; [done| |by apply only_last_snoc|done].
    destruct H2; by split.
  - unfold sendNonStreamingChat. destruct H2 as [R1 R2]. split; cbn; try done.
    + split; cbn.
      * intros c' [= <-]. done.
      * eapply Forall_impl; [done|]. intros x Hx. cbn in *. lia.
    + by apply only_last_snoc.
    + right. right. cbn. split; [done|]. intros Hin. apply (proj1 (Forall_forall _ _) R2) in Hin. cbn in Hin. lia.
Qed.

Lemma settle_ok t now requestId o s : session_ok s ->
  (match o with Rejected error => text_value (ed_errorMessage (parseRequestErrorDetails error)) | _ => true end) = true ->
  session_ok (settle_request t now requestId o s).
Proof.
  intros Hs Ht. unfold settle_request. set (s1 := if bool_decide (requestId ∈ _) then s else _).
  assert (session_ok s1 /\ rs_requestId (s_request s1) = rs_requestId (s_request s) /\
          rs_aborted (s_request s1) = rs_aborted (s_request s) /\
          (no_pending (s_messages s1) \/ requestId ∈ rs_aborted (s_request s))) as (Hs1 & E1 & E2 & E3).
  { subst s1. case_bool_decide as Ha; [split_and!; try done; by right|].
    assert (forall e code, text_value e = true -> let s' := (handleStreamError t now e code s).1 in
      session_ok s' /\ rs_requestId (s_request s') = rs_requestId (s_request s) /\
      rs_aborted (s_request s') = rs_aborted (s_request s) /\
      (no_pending (s_messages s') \/ requestId ∈ rs_aborted (s_request s))) as He.
    { intros e code He. destruct (error_settles t now e code s He (ok_last _ Hs)) as (_ & G1 & G2 & G3).
      cbv zeta. rewrite G3. split_and!; [|done|done|left; by destruct G1].
      apply settled_ok; [rewrite G2; apply Hs|rewrite G3; apply idle_ok, Hs|done]. }
    destruct o as [response|error]; [|by apply He].
    destruct (negb (hasChatCompletionChoice response)) eqn:Ec; [by apply He|].
    assert (no_pending (s_messages (update_last (fun m => default m (applyChatCompletionResponse now m response)) s))) as Hn.
    { apply update_last_settles; [apply Hs|]. intros m _. unfold applyChatCompletionResponse.
      unfold hasChatCompletionChoice in Ec. destruct (first_choice response) as [choice|]; [|done]. cbn.
      apply final_not_pending. eapply status_final; [apply choice_status|auto]. }
    split_and!; [|done|done|by left]. destruct Hs as [H1 H2 H3 H4 H5].
    split; [done..|by apply update_last_only|by left]. }
  destruct Hs1 as [H1 [R1 R2] H3 H4 H5]. case_bool_decide as Hid; (split; cbn; [done|by split|done|done|]).
  - destruct E3 as [E3|E3]; [by left|]. destruct H5 as [?|[?|[_ Hn]]]; [by left|by right; left|].
    rewrite E2, Hid in Hn. done.
  - destruct H5 as [?|[?|[? ?]]]; [by left|by right; left|]. right. right. done.
Qed.

Lemma handle_ok t e s : session_ok s -> allowed e s = true -> session_ok (handle t e s).
Proof.
  intros Hs Ha. destruct e; cbn [handle allowed] in *.
  - apply negb_true_iff, orb_false_iff in Ha as [Hst Hrq].
    assert (no_pending (s_messages s)) as Hn.
    { destruct Hs as [H1 _ _ _ [?|[[src Hsrc]|[Hr _]]]]; [done| |congruence].
      rewrite (so_streaming _ H1), Hsrc in Hst. done. }
    unfold handleSendMessage. cbv zeta.
    assert (forall ids at_ text, appendUserMessagePair ids at_ (s_messages s) text =
      (s_messages s ++ [createUserMessage (id_user_key ids) (id_user_version ids) text at_]) ++ [loading_reply ids at_])
      as -> by (intros; unfold appendUserMessagePair; by rewrite <- app_assoc).
    apply send_ok; [done|].
    apply Forall_app. split; [done|]. by constructor.
  - unfold handleRegenerateMessage. destruct (createRegeneratedMessages _ _ _ _) as [ms|] eqn:E; [|done].
    apply regenerated_only_last in E as (init & -> & Hi); [|apply Hs]. by apply send_ok.
  - unfold applyEdit. destruct (applyMessageEdit _ _ _ _ _ _) as [[ms send]|] eqn:E; [|done].
    apply edited_only_last in E as [(E1 & E2 & E3)|(E1 & init & E2 & E3)]; cbn in *; [| |apply Hs]; subst send.
    + destruct Hs as [H1 H2 H3 H4 H5]. split; try done; cbn. destruct H5 as [?|?]; [left; cbn; auto|by right].
    + subst ms. by apply send_ok.
  - destruct Hs as [H1 H2 H3 H4 H5]. unfold handleDeleteMessage. split; try done.
    + cbn. by apply only_last_filter.
    + destruct H5 as [H5|?]; [|by right]. left. cbn. apply Forall_forall.
      intros x [_ Hx]%list_elem_of_filter. by apply (proj1 (Forall_forall _ _) H5).
  - destruct Hs as [H1 H2 H3 H4 H5]. split; try done. left. constructor.
  - by apply stop_ok.
  - apply flush_ok; [done|]. by apply (bo_source _ _ (ok_buffer _ Hs)).
  - by apply message_ok.
  - apply andb_true_iff in Ha as [Ho Ht]. unfold on_error. destruct (isStreamClosedReadyState _); [done|].
    by apply stream_error_ok.
  - unfold on_ready_state. destruct (getStreamReadyStateError _ _); [|done]. by apply stream_error_ok.
  - apply andb_true_iff in Ha as [Ho Ht]. by apply settle_ok.
Qed.

Lemma reachable_ok t ms s : no_pending ms -> reachable t ms s -> session_ok s.
Proof.
  intros Hms Hr. induction Hr as [|e s Hr IH Ha]; [|by apply handle_ok].
  apply settled_ok.
  - split; [done| |by intros []|constructor]. intros source. split; [|done]. unfold source_open; cbn.
    by rewrite bool_decide_eq_false_2 by lia.
  - by split.
  - done.
Qed.
