(* ===== verification/PlaygroundStreamFacts.v ===== *)
(** The text a stream leaves in a message: the buffers of the session refine a two-variable
    machine, the shown content and the buffered text, whose result is computed for streams
    of deltas and for streams of snapshots. *)

From S2P Require Import Prelude JsString JsNumber JsNumberOrder JsValue BillingTypes JsJson PlaygroundMessage PlaygroundConversation PlaygroundSession PlaygroundSessionFacts.

(** * The abstract machine *)

Definition merge_text (pending next : str) : str :=
  if bool_decide (pending = []) then next else if starts_with next pending then next else pending ++ next.

Definition append_text (content chunk : str) : str := content ++ getAppendableChunk content chunk.

Definition flush_text (v : str * str) : str * str :=
  if bool_decide (v.2 = []) then v else (append_text v.1 v.2, []).

(** Chunks arrive and the timer fires in any order. *)
Inductive text_run : list str -> str * str -> Prop :=
| text_nil : text_run [] ([], [])
| text_flush cs v : text_run cs v -> text_run cs (flush_text v)
| text_chunk cs v x : text_run cs v -> text_run (cs ++ [x]) (v.1, merge_text v.2 x).

(** The text once everything is flushed. *)
Definition shown_text (v : str * str) : str := (flush_text v).1.

(** Deltas that cannot be taken for snapshots: no group of consecutive chunks starts with
    the text of the group before it. *)
Definition unambiguous (cs : list str) : Prop := forall a b c d,
  cs = a ++ b ++ c ++ d -> b <> [] -> c <> [] -> starts_with (concat c) (concat b) = false.

(** Snapshots: every chunk extends the one before it. *)
Fixpoint snapshots (previous : str) (cs : list str) : Prop :=
  match cs with
  | [] => True
  | x :: cs' => starts_with x previous = true /\ snapshots x cs'
  end.

Lemma concat_nil_nonempty (cs : list str) : Forall (fun x => x <> []) cs -> concat cs = [] -> cs = [].
Proof. destruct cs as [|x cs]; [done|]. intros [Hx _]%Forall_cons. cbn. by intros [? _]%app_eq_nil. Qed.

Lemma concat_snoc (cs : list str) x : concat (cs ++ [x]) = concat cs ++ x.
Proof. rewrite concat_app. cbn. by rewrite app_nil_r. Qed.

Lemma unambiguous_prefix cs ds : unambiguous (cs ++ ds) -> unambiguous cs.
Proof. intros H a b c d ->. apply (H a b c (d ++ ds)). by rewrite <- !app_assoc. Qed.

Lemma delta_groups cs v : Forall (fun x => x <> []) cs -> unambiguous cs -> text_run cs v ->
  exists pre grp, cs = pre ++ grp /\ v = (concat pre, concat grp).
Proof.
  intros Hne Hu Hr. induction Hr as [|cs v Hr IH|cs v x Hr IH].
  - by exists [], [].
  - destruct (IH Hne Hu) as (pre & grp & -> & ->). unfold flush_text. cbn. case_bool_decide as Hg; [by exists pre, grp|].
    exists (pre ++ grp), []. rewrite app_nil_r. split; [done|]. f_equal. rewrite concat_app. unfold append_text. f_equal.
    unfold getAppendableChunk. case_bool_decide as Hp; [done|]. cbn.
    rewrite (Hu [] pre grp []); [done|by rewrite app_nil_r|by intros ->|by intros ->].
  - apply Forall_app in Hne as [Hne Hx]. destruct (IH Hne (unambiguous_prefix _ _ Hu)) as (pre & grp & -> & ->).
    exists pre, (grp ++ [x]). rewrite <- app_assoc. split; [done|]. cbn [fst snd]. f_equal. rewrite concat_snoc.
    unfold merge_text. case_bool_decide as Hg; [by rewrite Hg|].
    assert (starts_with (concat [x]) (concat grp) = false) as Hc.
    { apply (Hu pre grp [x] []); [by rewrite app_nil_r, <- app_assoc|by intros ->|done]. }
    cbn in Hc. rewrite app_nil_r in Hc. by rewrite Hc.
Qed.

Lemma delta_text cs v : Forall (fun x => x <> []) cs -> unambiguous cs -> text_run cs v -> shown_text v = concat cs.
Proof.
  intros Hne Hu Hr. destruct (delta_groups cs (flush_text v) Hne Hu) as (pre & grp & E & Hv); [by apply text_flush|].
  unfold shown_text. rewrite Hv, E. cbn.
  assert (grp = []) as ->; [|by rewrite app_nil_r]. subst cs. apply Forall_app in Hne as [_ Hne].
  apply concat_nil_nonempty; [done|]. destruct v as [c p]. unfold flush_text in Hv. cbn in Hv.
  case_bool_decide; congruence.
Qed.

Lemma snapshots_snoc p cs x : snapshots p (cs ++ [x]) <-> snapshots p cs /\ starts_with x (default p (last cs)) = true.
Proof.
  revert p. induction cs as [|y cs IH]; intros p; cbn [app snapshots].
  - cbn. tauto.
  - rewrite IH. rewrite last_cons. destruct (last cs); cbn; tauto.
Qed.

Lemma starts_with_trans a b c : starts_with a b = true -> starts_with b c = true -> starts_with a c = true.
Proof.
  rewrite !starts_with_spec. intros [x ->] [y ->]. exists (y ++ x). by rewrite app_assoc.
Qed.

Lemma append_snapshot content chunk : starts_with chunk content = true -> append_text content chunk = chunk.
Proof.
  intros H. unfold append_text, getAppendableChunk. case_bool_decide as Hc; [by rewrite Hc|]. rewrite H. cbn.
  apply starts_with_spec in H as [r ->]. by rewrite drop_app_length.
Qed.

(** Buffered and shown text are snapshots of the stream, the shown one the older. *)
Lemma snapshot_views cs v : snapshots [] cs -> text_run cs v ->
  starts_with (default [] (last cs)) v.1 = true /\ default [] (last cs) = (if bool_decide (v.2 = []) then v.1 else v.2).
Proof.
  intros Hs Hr. induction Hr as [|cs v Hr IH|cs v x Hr IH].
  - done.
  - destruct (IH Hs) as [H1 H2]. unfold flush_text. case_bool_decide as Hp; cbn [fst snd].
    + rewrite Hp. split; [done|]. rewrite H2. by rewrite bool_decide_eq_true_2.
    + rewrite bool_decide_eq_true_2 by done. rewrite append_snapshot by (by rewrite <- H2). rewrite H2.
      split; [|done]. rewrite <- (app_nil_r v.2) at 1. apply starts_with_app.
  - apply snapshots_snoc in Hs as [Hs Hx]. destruct (IH Hs) as [H1 H2]. rewrite last_snoc. cbn [default fst snd].
    split; [by eapply starts_with_trans|]. unfold merge_text. case_bool_decide as Hp.
    + case_bool_decide as Hx0; [|done]. subst x.
      assert (v.1 = []) as ->; [|done]. rewrite <- H2. by destruct (default [] (last cs)).
    + rewrite H2 in Hx. rewrite Hx. case_bool_decide as Hx0; [|done]. subst x. by destruct v.2.
Qed.

Lemma snapshot_text cs v : snapshots [] cs -> text_run cs v -> shown_text v = default [] (last cs).
Proof.
  intros Hs Hr. destruct (snapshot_views cs (flush_text v) Hs) as [_ ->]; [by apply text_flush|].
  unfold shown_text, flush_text. case_bool_decide as Hp; [|done]. by rewrite Hp.
Qed.

(** * Messages *)

Lemma process_spec now m x : let m' := processStreamingContent now m (Some x) in
  getMessageContent m' = getMessageContent m ++ x /\ m_from m' = m_from m.
Proof.
  unfold processStreamingContent. destruct (m_reasoning m); [done|]. by destruct (negb _).
Qed.

Lemma content_chunk now m x : m_status m <> Some S_error ->
  let m' := applyStreamingChunk now m C_content x in
  getMessageContent m' = append_text (getMessageContent m) x /\ m_from m' = m_from m /\ m_status m' = Some S_streaming.
Proof.
  intros Hs. unfold applyStreamingChunk. rewrite bool_decide_eq_false_2 by done. cbv zeta.
  set (chunk := getAppendableChunk _ x). destruct (process_spec now m chunk) as [P1 P2].
  set (m1 := processStreamingContent now m (Some chunk)) in *.
  assert (forall m2, m_from (with_status S_streaming m2) = m_from m2 /\
            getMessageContent (with_status S_streaming m2) = getMessageContent m2) as Hw by done.
  destruct (m_isReasoningStreaming m1) as [[]|]; rewrite (proj1 (Hw _)), (proj2 (Hw _)), ?reasoning_timing_content,
    ?reasoning_timing_role; split_and!; try done; by rewrite P1.
Qed.

Lemma reasoning_chunk now m x : m_status m <> Some S_error ->
  let m' := applyStreamingChunk now m C_reasoning x in
  getMessageContent m' = getMessageContent m /\ m_from m' = m_from m /\ m_status m' = Some S_streaming.
Proof. intros Hs. unfold applyStreamingChunk. by rewrite bool_decide_eq_false_2 by done. Qed.

Lemma not_final_not_error m : isAssistantMessageFinal m = false -> m_status m <> Some S_error.
Proof. unfold isAssistantMessageFinal. by destruct (m_status m) as [[]|]. Qed.
Lemma streaming_not_final m : m_status m = Some S_streaming -> isAssistantMessageFinal m = false.
Proof. unfold isAssistantMessageFinal. by intros ->. Qed.
#[local] Hint Resolve not_final_not_error streaming_not_final : core.

Lemma flush_update_spec now b m : isAssistantMessageFinal m = false ->
  let m' := flush_update now b m in
  getMessageContent m' = (flush_text (getMessageContent m, sb_content b)).1 /\ m_from m' = m_from m /\
  isAssistantMessageFinal m' = false.
Proof.
  intros Hs. unfold flush_update, flush_text. cbn [fst snd].
  set (m1 := if bool_decide (sb_reasoning b = []) then m else _).
  assert (getMessageContent m1 = getMessageContent m /\ m_from m1 = m_from m /\ isAssistantMessageFinal m1 = false)
    as (E1 & E2 & E3).
  { subst m1. case_bool_decide; [done|]. destruct (reasoning_chunk now m (sb_reasoning b)) as (? & ? & ?); auto. }
  destruct (bool_decide (sb_content b = [])); cbn [fst]; [done|].
  destruct (content_chunk now m1 (sb_content b)) as (-> & -> & ?); [auto|]. rewrite E1, E2. auto.
Qed.

(** The content after completion is what the tags leave visible of it. *)
Lemma finalize_content now m r : getMessageContent (finalizeMessage now m r) = pt_visibleContent (parseThinkTags (getMessageContent m)).
Proof.
  unfold finalizeMessage. rewrite reasoning_timing_content. cbn. unfold getMessageContent, parseThinkTags.
  by destruct (includes _ think_open).
Qed.

Lemma complete_content now m : getMessageContent (completeAssistantMessage now m) =
  pt_visibleContent (parseThinkTags (getMessageContent m)).
Proof. unfold completeAssistantMessage. rewrite timing_content. exact (finalize_content now m None). Qed.

(** * The session refines the machine *)

Definition update_text (u : stream_update) : option str :=
  match su_type u, su_chunk u with C_content, VString x => Some x | _, _ => None end.

(** The events of one stream between its start and its end: data that parses to updates
    with texts, and the timer.  [cs] are the content chunks delivered so far. *)
Inductive stream_run (t : str -> str) (source : nat) (s : session) : list str -> session -> Prop :=
| run_start : stream_run t source s [] s
| run_timer cs s' now : stream_run t source s cs s' -> allowed (E_timer now) s' = true ->
    stream_run t source s cs (handle t (E_timer now) s')
| run_data cs s' now data updates : stream_run t source s cs s' ->
    isStreamDoneMessage data = false -> parseStreamMessageUpdates data = Ok updates ->
    forallb (fun u => text_value (su_chunk u)) updates = true ->
    stream_run t source s (cs ++ omap update_text updates) (handle t (E_message now source data) s').

(** The parsed updates are never empty. *)
Lemma parsed_chunks data updates : parseStreamMessageUpdates data = Ok updates ->
  Forall (fun x => x <> []) (omap update_text updates).
Proof.
  intros Hp. assert (Forall (fun u => truthy (su_chunk u) = true) updates) as Ht.
  { unfold parseStreamMessageUpdates in Hp. apply bind_Ok_inv in Hp as (chunk & _ & Hp).
    apply bind_Ok_inv in Hp as (choices & _ & Hp). cbv zeta in Hp. destruct (negb _); [by injection Hp as <-|].
    injection Hp as <-. apply Forall_app. split; destruct (truthy _) eqn:E; by repeat constructor. }
  clear Hp. induction Ht as [|u updates Hu Ht IH]; [constructor|]. cbn. destruct (update_text u) as [x|] eqn:E; [|done].
  constructor; [|done]. unfold update_text in E. destruct u as [[] []]; try done. injection E as ->.
  intros ->. done.
Qed.

Lemma run_chunks t source s cs s' : stream_run t source s cs s' -> Forall (fun x => x <> []) cs.
Proof.
  intros Hr. induction Hr as [| |cs s' now data updates Hr IH Hd Hp Ht]; [constructor|done|].
  apply Forall_app. split; [done|]. by eapply parsed_chunks.
Qed.

Record stream_view (source : nat) (init : list message) (s : session) (v : str * str) : Prop := {
  sv_message : exists m, s_messages s = init ++ [m] /\ m_from m = R_assistant /\ isAssistantMessageFinal m = false /\ getMessageContent m = v.1;
  sv_pending : sb_content (s_buffer s) = v.2;
  sv_source : st_source (s_stream s) = Some source;
}.

Lemma flush_view now source init s v : stream_view source init s v ->
  stream_view source init (flushStreamUpdates now s) (flush_text v).
Proof.
  intros [(m & H1 & H2 & H4 & H5) Hp Hs]. destruct v as [c p]. cbn in H5, Hp.
  unfold flushStreamUpdates. destruct (bool_decide (sb_reasoning _ = []) && _) eqn:E.
  - apply andb_true_iff in E as [_ E%bool_decide_eq_true]. rewrite Hp in E. rewrite E.
    split; cbn; [by exists m|done|done].
  - clear E. destruct (flush_update_spec now (s_buffer s) m H4) as (F1 & F2 & F3).
    split; [|unfold flush_text; cbn; case_bool_decide as Hq; [by rewrite Hq|done]|done].
    exists (flush_update now (s_buffer s) m). cbn. rewrite H1, update_last_snoc, bool_decide_eq_true_2 by done.
    split_and!; [done|congruence|done|by rewrite F1, H5, Hp].
Qed.

Lemma merge_text_spec p x : mergePendingStreamChunk p (VString x) = Ok (merge_text p x).
Proof.
  unfold mergePendingStreamChunk, merge_text. destruct p as [|c p]; [done|].
  rewrite bool_decide_eq_false_2 by done. by destruct (starts_with x (c :: p)).
Qed.

(** Updates with texts never throw, and merge their content chunks. *)
Lemma updates_text source init updates s v : stream_view source init s v ->
  forallb (fun u => text_value (su_chunk u)) updates = true ->
  exists s', apply_updates updates s = (s', true) /\
    stream_view source init s' (v.1, fold_left merge_text (omap update_text updates) v.2).
Proof.
  revert s v. induction updates as [|u updates IH]; intros s v Hv.
  - intros _. exists s. split; [done|]. by destruct v.
  - cbn [forallb]. intros [Hu Hus]%andb_true_iff. destruct u as [type chunk]. cbn in Hu.
    destruct chunk as [| | | |x| |]; try done. cbn [apply_updates]. unfold handleStreamUpdate. cbn [su_type su_chunk].
    destruct type; rewrite merge_text_spec; cbn [mbind result_bind].
    + destruct (IH (with_buffer (StreamBuffer (sb_content (s_buffer s)) (merge_text (sb_reasoning (s_buffer s)) x) true) s) v)
        as (s' & E & Hs'); [|done|by exists s'].
      destruct Hv as [Hm Hp Hsrc]. by split.
    + destruct (IH (with_buffer (StreamBuffer (merge_text (sb_content (s_buffer s)) x) (sb_reasoning (s_buffer s)) true) s)
                  (v.1, merge_text v.2 x)) as (s' & E & Hs'); [|done|by exists s'].
      destruct Hv as [Hm Hp Hsrc]. split; [done|cbn; by rewrite Hp|done].
Qed.

Lemma text_run_chunks cs v xs : text_run cs v -> text_run (cs ++ xs) (v.1, fold_left merge_text xs v.2).
Proof.
  revert cs v. induction xs as [|x xs IH]; intros cs v Hv; [rewrite app_nil_r; by destruct v|].
  cbn [fold_left]. replace (cs ++ x :: xs) with ((cs ++ [x]) ++ xs) by by rewrite <- app_assoc.
  exact (IH _ _ (text_chunk _ _ x Hv)).
Qed.

Lemma run_refines t source init s cs s' : stream_view source init s ([], []) -> stream_run t source s cs s' ->
  exists v, text_run cs v /\ stream_view source init s' v.
Proof.
  intros Hv Hr. induction Hr as [|cs s' now Hr IH Ha|cs s' now data updates Hr IH Hd Hp Ht].
  - exists ([], []). split; [constructor|done].
  - destruct IH as (v & H1 & H2). exists (flush_text v). split; [by constructor|]. by apply flush_view.
  - destruct IH as (v & H1 & H2). eexists. split; [by apply text_run_chunks|].
    cbn [handle]. unfold on_message. rewrite Hd, Hp.
    destruct (updates_text source init updates s' v H2 Ht) as (s'' & -> & Hs''). done.
Qed.

(** The end of the stream completes the message with the visible part of the text. *)
Lemma done_view t now source init s v : stream_view source init s v ->
  exists m, s_messages (on_message t now source (js "[DONE]") s) = init ++ [m] /\ m_status m = Some S_complete /\
    getMessageContent m = pt_visibleContent (parseThinkTags (shown_text v)).
Proof.
  intros Hv. unfold on_message. change (isStreamDoneMessage (js "[DONE]")) with true. cbv iota zeta.
  set (s0 := with_stream _ s).
  destruct (close_keeps (Some source) s0) as (K1 & K2 & _). set (s1 := closeActiveStream (Some source) s0) in *.
  unfold handleStreamComplete. cbn.
  assert (exists m, s_messages (flushStreamUpdates now s1) = init ++ [m] /\ m_from m = R_assistant /\
            isAssistantMessageFinal m = false /\ getMessageContent m = shown_text v) as (m & M1 & M2 & M3 & M4).
  { pose proof (flush_view now source init s v Hv) as [Hm _ _].
    assert (s_messages (flushStreamUpdates now s1) = s_messages (flushStreamUpdates now s)) as ->; [|exact Hm].
    unfold flushStreamUpdates. rewrite K2. destruct (_ && _); cbn; by rewrite K1. }
  rewrite M1, update_last_snoc, bool_decide_eq_true_2, M3 by done. eexists. split; [done|].
  split; [apply complete_status|]. by rewrite complete_content, M4.
Qed.
