(* ===== verification/PlaygroundProps.v ===== *)
(** Correctness of the playground session: thinking tags, the life of an answer, the text a
    stream leaves, and the requests that are sent. *)

From S2P Require Import Prelude JsString JsNumber JsNumberOrder JsValue BillingTypes JsJson PlaygroundMessage PlaygroundConversation PlaygroundSession PlaygroundSessionFacts PlaygroundStreamFacts.

(** C11: thinking tags are read exactly.  Every text has a reading as visible texts and thoughts
    in tags, and [parseThinkTags] returns it: the visible texts joined and trimmed, the
    thoughts joined by blank lines and trimmed, and whether the last thought is open; a text
    without a tag is returned unchanged.  In particular no text is lost but the tags and outer
    white space, and the scanning loop ends. *)
Theorem think_tags_exact content :
  (exists vs rs u, think_text content vs rs u) /\
  forall vs rs u, think_text content vs rs u ->
    parseThinkTags content =
      if bool_decide (rs = []) then ParsedThinkTags content [] false
      else ParsedThinkTags (trim (join [] vs)) (trim (join [newline; newline] rs)) u.
Proof.
  split; [by eapply think_text_total|]. intros vs rs u Ht. unfold parseThinkTags.
  pose proof (think_loop_exact (S (length content)) [] content vs rs u [] [] Ht) as Hl.
  cbn [app length] in Hl. rewrite Hl by lia. clear Hl.
  assert (rs = [] <-> includes content think_open = false) as Hn.
  { destruct Ht as [v Hv|v r Hv Hr|v r rest vs rs u Hv Hr Ht]; [done| |]; (split; [done|]); intros H;
      apply not_true_iff_false in H; exfalso; apply H; apply includes_spec; eauto. }
  destruct (includes content think_open) eqn:E; cbn.
  - rewrite bool_decide_eq_false_2; [done|]. intros Hr%Hn. done.
  - by rewrite bool_decide_eq_true_2 by by apply Hn.
Qed.

(** * The life of an answer *)

(** C8: no answer is left waiting.  In every session a run can reach from messages that are
    not pending: while nothing is generated no message is loading or streaming; text that has
    been received and not yet shown has a timer that will show it; at most one event source
    is open, and [isStreaming] is set exactly while there is one. *)
Theorem session_never_stuck t messages s :
  no_pending messages -> reachable t messages s ->
  (isGenerating s = false -> no_pending (s_messages s)) /\
  (sb_content (s_buffer s) <> [] \/ sb_reasoning (s_buffer s) <> [] -> sb_timer (s_buffer s) = true) /\
  (st_streaming (s_stream s) = true <-> exists source, open_source source s = true) /\
  (forall a b, open_source a s = true -> open_source b s = true -> a = b).
Proof.
  intros Hm Hr. destruct (reachable_ok t messages s Hm Hr) as [H1 H2 H3 H4 H5].
  assert (forall src, open_source src s = true <-> st_source (s_stream s) = Some src) as Ho by apply (so_open _ H1).
  split_and!.
  - intros [Hst Hrq]%orb_false_iff. destruct H5 as [?|[[src Hs]|[Hq _]]]; [done| |congruence].
    rewrite (so_streaming _ H1), Hs in Hst. done.
  - apply H3.
  - rewrite (so_streaming _ H1), bool_decide_eq_true. split.
    + intros [src Hs]. exists src. by apply Ho.
    + intros [src Hs]. exists src. by apply Ho.
  - intros a b Ha%Ho Hb%Ho. congruence.
Qed.

(** The events that end an answer. *)
Definition ends_answer (e : event) (s : session) : bool :=
  match e with
  | E_stop _ => true
  | E_message _ _ data => isStreamDoneMessage data
  | E_error _ _ readyState _ => negb (isStreamClosedReadyState readyState)
  | E_ready_state _ _ readyState status =>
      match getStreamReadyStateError readyState status with Some _ => true | None => false end
  | _ => false
  end.

(** C9: an answer comes to an end.  In every reachable session the user can stop the
    generation; and a stop, the end of the stream, a reported error and a refused connection
    each leave nothing generating, no message loading or streaming and no text unshown,
    whatever was buffered when they arrived. *)
Theorem answer_settles t messages s :
  no_pending messages -> reachable t messages s ->
  (forall now, allowed (E_stop now) s = true) /\
  forall e, allowed e s = true -> ends_answer e s = true ->
    isGenerating (handle t e s) = false /\ no_pending (s_messages (handle t e s)) /\
    s_buffer (handle t e s) = StreamBuffer [] [] false.
Proof.
  intros Hm Hr. pose proof (reachable_ok t messages s Hm Hr) as Hs. split; [done|]. intros e Ha He.
  assert (settled (handle t e s) /\ session_ok (handle t e s) /\ isGenerating (handle t e s) = false) as ([Hb Hn] & _ & Hg).
  { destruct e; try done; cbn [handle allowed ends_answer] in *.
    - by apply stop_ok.
    - apply bool_decide_eq_true in He. subst data. by apply done_ok.
    - apply andb_true_iff in Ha as [Ho Ht]. unfold on_error. apply negb_true_iff in He. rewrite He.
      by apply stream_error_ok.
    - unfold on_ready_state. destruct (getStreamReadyStateError _ _); [|done]. by apply stream_error_ok. }
  by split_and!.
Qed.

(** * The text of a stream *)

(** C10: the text of a stream is complete.  A user sends a message while nothing is generated and
    the stream starts; its data arrives and the flush timer fires in any order, then the
    stream ends.  If the content chunks are deltas that cannot be taken for snapshots, the
    completed answer is what the tags leave visible of their concatenation; if each chunk
    extends the one before it, of the last chunk.  The moments at which the timer fires make
    no difference. *)
Theorem stream_text_exact t messages s c text now cs s' :
  no_pending messages -> reachable t messages s -> isGenerating s = false ->
  pc_stream (sc_config c) = true -> sc_starts c = true ->
  stream_run t (st_created (s_stream s)) (handle t (E_send c text) s) cs s' ->
  exists init answer, s_messages (handle t (E_message now (st_created (s_stream s)) (js "[DONE]")) s') = init ++ [answer] /\
    m_status answer = Some S_complete /\
    (unambiguous cs -> getMessageContent answer = pt_visibleContent (parseThinkTags (concat cs))) /\
    (snapshots [] cs -> getMessageContent answer = pt_visibleContent (parseThinkTags (default [] (last cs)))).
Proof.
  intros Hm Hr Hg Hc Hst Hrun. pose proof (run_chunks _ _ _ _ _ Hrun) as Hne.
  destruct (reachable_ok t messages s Hm Hr) as [H1 H2 H3 H4 H5].
  apply orb_false_iff in Hg as [Hg _]. rewrite (so_streaming _ H1) in Hg. apply bool_decide_eq_false in Hg.
  assert (sb_content (s_buffer s) = []) as Hb.
  { destruct (decide (sb_content (s_buffer s) = [])); [done|]. exfalso. apply Hg, H3, H3. by left. }
  set (init := s_messages s ++ [createUserMessage (id_user_key (sc_ids c)) (id_user_version (sc_ids c)) text (sc_submittedAt c)]).
  assert (stream_view (st_created (s_stream s)) init (handle t (E_send c text) s) ([], [])) as Hv.
  { cbn [handle]. unfold handleSendMessage, sendChat, sendStreamingChat, sendStreamRequest. rewrite Hc, Hst. cbv zeta.
    unfold appendUserMessagePair. cbn. destruct (st_source (s_stream s)) as [src|] eqn:Es; [by destruct Hg|].
    split; cbn; [|done|done]. exists (loading_reply (sc_ids c) (sc_submittedAt c)).
    split_and!; [|done..]. unfold init. by rewrite <- app_assoc. }
  destruct (run_refines t _ init _ cs s' Hv Hrun) as (v & Ht & Hv').
  destruct (done_view t now _ init s' v Hv') as (m & M1 & M2 & M3).
  exists init, m. split_and!; [done|done| |]; intros Hx; rewrite M3.
  - by rewrite (delta_text cs v).
  - by rewrite (snapshot_text cs v).
Qed.

(** * Requests *)

Lemma send_sent t c messages s : s_sent (sendChat t c messages s) =
  s_sent s ++ [buildChatCompletionPayload messages (sc_config c) (sc_enabled c)].
Proof.
  unfold sendChat. destruct (pc_stream (sc_config c)); [|done].
  unfold sendStreamingChat, sendStreamRequest. cbn.
  assert (forall now e code x, s_sent (handleStreamError t now e code x).1 = s_sent x) as He.
  { intros now e code x. unfold handleStreamError. destruct (flush_keeps now x) as (_ & _ & _ & F).
    destruct (getDisplayError t e); cbn; exact F. }
  destruct (st_source (s_stream s)); destruct (sc_starts c); try done;
    match goal with |- s_sent (closeActiveStream ?o ?x) = _ => rewrite (proj2 (proj2 (proj2 (close_keeps o x)))) end;
    by rewrite He.
Qed.


(** * Examples *)

Definition sample_clock : clock := Clock (n_of_Z 1000) (n_of_Z 2000) (n_of_Z 3000).
Definition sample_context (streamed : bool) (n : Z) : send_context :=
  SendContext (PlaygroundConfig (js "gpt-4o") (js "default") n_one n_one (n_of_Z 4096) n_zero n_zero None streamed)
    DEFAULT_PARAMETER_ENABLED
    (FreshIds (js "u" ++ string_of_Z n) (js "v" ++ string_of_Z n) (js "r" ++ string_of_Z n) (js "w" ++ string_of_Z n))
    n_zero sample_clock true.

(** The data of a chunk with one content delta. *)
Definition delta_data (x : str) : str :=
  js "{" ++ JSON_stringify (js "choices") ++ js ":[{" ++ JSON_stringify (js "delta") ++ js ":{" ++
  JSON_stringify (js "content") ++ js ":" ++ JSON_stringify x ++ js "}}]}".

Definition play (events : list event) (s : session) : session := fold_left (fun s e => handle id e s) events s.
Definition answer_text (s : session) : option str := getMessageContent <$> last (s_messages s).

Definition timer : event := E_timer sample_clock.
Definition data_event (x : str) : event := E_message sample_clock 0 (delta_data x).
Definition done_event : event := E_message sample_clock 0 (js "[DONE]").
Definition first_send : event := E_send (sample_context true 1) (js "hi").

Lemma session_never_stuck_witness : no_pending [] /\
  reachable id [] (handle id (data_event (js "Hi")) (handle id first_send (initial_session []))) /\
  (let s := handle id (data_event (js "Hi")) (handle id first_send (initial_session [])) in
   sb_timer (s_buffer s) = true).
Proof.
  assert (no_pending []) as Hn by constructor.
  assert (reachable id [] (handle id (data_event (js "Hi")) (handle id first_send (initial_session [])))) as Hr.
  { apply reach_step; [apply reach_step; [constructor|]|]; vm_compute; reflexivity. }
  split_and!; [done|done|].
  destruct (session_never_stuck id [] _ Hn Hr) as (_ & H & _). apply H. left. vm_compute. discriminate.
Defined.

Lemma answer_settles_witness : no_pending [] /\
  (let s := handle id (data_event (js "Hi")) (handle id first_send (initial_session [])) in
   reachable id [] s /\ allowed done_event s = true /\ ends_answer done_event s = true /\
   isGenerating (handle id done_event s) = false).
Proof.
  assert (no_pending []) as Hn by constructor.
  assert (reachable id [] (handle id (data_event (js "Hi")) (handle id first_send (initial_session [])))) as Hr.
  { apply reach_step; [apply reach_step; [constructor|]|]; vm_compute; reflexivity. }
  split; [done|]. cbv zeta. split; [done|]. split; [vm_compute; reflexivity|]. split; [vm_compute; reflexivity|].
  destruct (answer_settles id [] _ Hn Hr) as [_ H].
  destruct (H done_event) as [Hg _]; [vm_compute; reflexivity..|exact Hg].
Defined.

Lemma stream_text_exact_witness :
  let s0 := handle id first_send (initial_session []) in
  let s2 := handle id timer (handle id (data_event (js "Hello")) s0) in
  let s3 := handle id (data_event (js ", world")) s2 in
  stream_run id 0 s0 ([] ++ [js "Hello"] ++ [js ", world"]) s3 /\
  exists init answer, s_messages (handle id done_event s3) = init ++ [answer] /\
    m_status answer = Some S_complete.
Proof.
  intros s0 s2 s3.
  assert (stream_run id 0 s0 (([] ++ [js "Hello"]) ++ [js ", world"]) s3) as Hr.
  { eapply (run_data id 0 s0 _ s2 sample_clock (delta_data (js ", world")) [StreamUpdate C_content (VString (js ", world"))]);
      [apply run_timer|..]; [|vm_compute; reflexivity..].
    eapply (run_data id 0 s0 [] s0 sample_clock (delta_data (js "Hello")) [StreamUpdate C_content (VString (js "Hello"))]);
      [constructor|vm_compute; reflexivity..]. }
  split; [exact Hr|].
  destruct (stream_text_exact id [] (initial_session []) (sample_context true 1) (js "hi") sample_clock
              (([] ++ [js "Hello"]) ++ [js ", world"]) s3) as (init & answer & H1 & H2 & _).
  - constructor.
  - constructor.
  - reflexivity.
  - reflexivity.
  - reflexivity.
  - exact Hr.
  - exists init, answer. split; [exact H1|exact H2].
Defined.

(** Deltas that repeat are lost, depending on the timer.  The same deltas give two texts:
    when the flush timer fires after the first of them, the second of two equal deltas is
    taken for a repetition of the buffered one and dropped. *)
Theorem repeated_delta_lost :
  let deltas := map data_event [js "very"; js " good"; js " good"] in
  answer_text (play (first_send :: deltas ++ [done_event]) (initial_session [])) = Some (js "very good good") /\
  answer_text (play (first_send :: take 1 deltas ++ [timer] ++ drop 1 deltas ++ [done_event]) (initial_session [])) =
    Some (js "very good").
Proof. vm_compute. split; reflexivity. Qed.

(** Text of an abandoned stream reaches the next answer.  The editor stays usable while an
    answer is generated; submitting an edit closes the stream but keeps the buffered text,
    and the timer then writes it into the new answer. *)
Theorem stale_chunks_leak :
  let s := play [first_send; data_event (js "old answer"); E_edit (sample_context true 2) (js "u1") (js "new question") true]
             (initial_session []) in
  answer_text s = Some [] /\ open_source 0 s = false /\ allowed timer s = true /\
  answer_text (handle id timer s) = Some (js "old answer").
Proof. vm_compute. split_and!; reflexivity. Qed.

(** The response of an abandoned request overwrites the newer answer. *)
Example stale_response_overwrites :
  let reply x := Fulfilled (Some [ChatChoice (Some x) None None]) in
  let s := play [E_send (sample_context false 1) (js "old question");
                 E_edit (sample_context false 2) (js "u1") (js "new question") true;
                 E_settled sample_clock 2 (reply (js "new answer"))] (initial_session []) in
  answer_text s = Some (js "new answer") /\ allowed (E_settled sample_clock 1 (reply (js "old answer"))) s = true /\
  answer_text (handle id (E_settled sample_clock 1 (reply (js "old answer"))) s) = Some (js "old answer").
Proof. vm_compute. split_and!; reflexivity. Qed.

(** Data after the end of a stream would reopen the completed answer: only the error status
    is guarded. *)
Example late_data_reopens :
  last (s_messages (play [first_send; data_event (js "a"); done_event; data_event (js "b"); timer]
          (initial_session []))) ≫= m_status = Some S_streaming.
Proof. vm_compute. reflexivity. Qed.

(** An error report whose message is not a text leaves the answer loading. *)
Example non_text_error_stuck :
  let s := play [E_send (sample_context false 1) (js "q");
                 E_settled sample_clock 1 (Rejected (VObject [(js "message", VNumber n_one)]))] (initial_session []) in
  isGenerating s = false /\ last (s_messages s) ≫= m_status = Some S_loading.
Proof. vm_compute. split; reflexivity. Qed.
