(* ===== verification/PlaygroundStorage.v ===== *)
(** What the playground keeps in the browser's local storage
    (features/playground/lib/storage: storage.ts, the limits of storage-schema.ts).

    The storage is a map from keys to texts.  [JSON.parse] is modelled ([JsJson]); the zod
    schemas, which turn parsed data into messages and reject what does not fit, are a library:
    [messagesSchema] and the other schemas are parameters, and so is whether the browser
    accepts a text (its quota).  Array and object identity matters in one place only:
    [trimMessagesByContentSize] always builds a new array, so [loadMessages] always writes the
    loaded messages back. *)

From S2P Require Import Prelude JsString JsNumber JsNumberOrder JsValue BillingTypes JsJson JsRegExp JsPattern PlaygroundMessage.

Definition storage : Type := gmap str str.

Definition STORAGE_VERSION : number := n_one.
Definition MAX_STORED_MESSAGES : nat := 100.
Definition MAX_STORED_MESSAGES_BYTES : Z := 1048576.
Definition MAX_LOADED_MESSAGES_CHARS : Z := 120000.
Definition MAX_LOADED_MESSAGE_CHARS : Z := 40000.

Module STORAGE_KEYS.
Definition CONFIG : str := js "playground_config".
Definition MESSAGES : str := js "playground_messages".
Definition PARAMETER_ENABLED : str := js "playground_parameter_enabled".
Definition MODEL_PARAMETER_SETTINGS : str := js "playground_model_parameter_settings".
End STORAGE_KEYS.

Definition text_size (s : str) : Z := Z.of_nat (length s).

(** * Reading and writing values *)

(** The first two functions can throw; an absent or empty entry is null. *)
Definition readStoredValue (st : storage) (key : str) : result exn (option jsval) :=
  match st !! key with
  | None | Some [] => Ok None
  | Some saved => v ← JSON_parse saved; Ok (Some v)
  end.

Definition readStoredMessagesValue (st : storage) : result exn (option jsval) * storage :=
  match st !! STORAGE_KEYS.MESSAGES with
  | None | Some [] => (Ok None, st)
  | Some saved =>
      if bool_decide (MAX_STORED_MESSAGES_BYTES < text_size saved)%Z then (Ok None, delete STORAGE_KEYS.MESSAGES st)
      else (match JSON_parse saved with Ok v => Ok (Some v) | Throw e => Throw e end, st)
  end.

Definition unwrapStoredValue (value : jsval) : jsval :=
  match value with
  | VObject entries =>
      match obj_get (js "version") entries, obj_get (js "data") entries with
      | Some _, Some data => data
      | _, _ => value
      end
  | _ => value
  end.

(** * Fitting messages *)

Definition trimMessages (messages : list message) : list message :=
  if bool_decide (length messages <= MAX_STORED_MESSAGES) then messages
  else drop (length messages - MAX_STORED_MESSAGES) messages.

Definition getMessageSize (m : message) : Z :=
  (fold_left (fun total v => total + text_size (mv_content v)) (m_versions m) 0 +
   match m_reasoning m with Some r => text_size (re_content r) | None => 0 end)%Z.

Definition TRUNCATED_CONTENT_SUFFIX : str := newline :: newline :: js "[...]".

Definition truncateText (text : str) (maxLength : Z) : str :=
  if bool_decide (text_size text <= maxLength)%Z then text
  else if bool_decide (maxLength <= text_size TRUNCATED_CONTENT_SUFFIX)%Z then take (Z.to_nat maxLength) text
  else take (Z.to_nat (maxLength - text_size TRUNCATED_CONTENT_SUFFIX)) text ++ TRUNCATED_CONTENT_SUFFIX.

(** ** Repeated sections *)

Definition MIN_PREFIX_COLLAPSE_LENGTH : Z := 2000.
Definition MIN_REPEATED_SECTION_COUNT : nat := 3.

(** [/^#{2,6}\s+\d+\.\s+.+$/gm]; in multiline mode the anchors are line borders. *)
Definition heading_pattern : pattern :=
  let hash := P_one 35%N in
  P_all [hash; hash; P_opt hash; P_opt hash; P_opt hash; P_opt hash; P_plus (P_char is_space);
         P_plus (P_char is_digit); P_one 46%N; P_plus (P_char is_space); P_plus (P_char not_line_end)].

Definition at_line_border (c : option N) : bool := match c with None => true | Some c => negb (not_line_end c) end.

(** A heading at the start of [s]: the text after it. *)
Definition heading_here (prev : option N) (s : str) : option str :=
  if at_line_border prev then
    run heading_pattern (fun _ s' _ => if at_line_border (head s') then Some s' else None) prev s []
  else None.

Record section_occurrence := SectionOccurrence { so_heading : str; so_index : nat }.

(** [text.matchAll(SECTION_HEADING_LINE_PATTERN)] from [index] on; a match takes at least one
    character.  [skip] characters are inside the last match. *)
Fixpoint occurrences_from (prev : option N) (index skip : nat) (s : str) : list section_occurrence :=
  match s with
  | [] => []
  | c :: s' =>
      match skip with
      | S skip' => occurrences_from (Some c) (S index) skip' s'
      | O => match heading_here prev s with
             | Some rest =>
                 let size := length s - length rest in
                 SectionOccurrence (take size s) index :: occurrences_from (Some c) (S index) (size - 1) s'
             | None => occurrences_from (Some c) (S index) 0 s'
             end
      end
  end.
Definition getSectionOccurrences (text : str) : list section_occurrence := occurrences_from None 0 0 text.

Definition getHeadingCounts (occurrences : list section_occurrence) : gmap str nat :=
  fold_left (fun counts o => <[so_heading o := S (default 0 (counts !! so_heading o))]> counts) occurrences ∅.

(** The loop of [findLastRepeatedSectionRunStart] from the last occurrence to the first. *)
Fixpoint repeated_indexes (counts : gmap str nat) (reversed : list section_occurrence) (seen : gset str) : list nat :=
  match reversed with
  | [] => []
  | o :: rest =>
      if bool_decide (default 0 (counts !! so_heading o) < MIN_REPEATED_SECTION_COUNT) ||
         bool_decide (so_heading o ∈ seen)
      then repeated_indexes counts rest seen
      else so_index o :: repeated_indexes counts rest ({[so_heading o]} ∪ seen)
  end.

(** [None] is -1. *)
Definition findLastRepeatedSectionRunStart (text : str) : option nat :=
  let occurrences := getSectionOccurrences text in
  match repeated_indexes (getHeadingCounts occurrences) (reverse occurrences) ∅ with
  | [] => None
  | i :: indexes => Some (fold_left Nat.min indexes i)
  end.

Definition collapseRepeatedSectionSnapshots (text : str) : str :=
  if bool_decide (text_size text < MIN_PREFIX_COLLAPSE_LENGTH)%Z then text
  else match findLastRepeatedSectionRunStart text with
       | None => text
       | Some start => drop start text
       end.

(** ** Loading *)

Definition fit_version (v : message_version) : message_version :=
  MessageVersion (mv_id v) (truncateText (collapseRepeatedSectionSnapshots (mv_content v)) MAX_LOADED_MESSAGE_CHARS).
Definition fit_reasoning (r : message_reasoning) : message_reasoning :=
  with_content (truncateText (re_content r) MAX_LOADED_MESSAGE_CHARS) r.

(** The message is rebuilt only when a text changes; rebuilding it unchanged gives an equal
    message. *)
Definition fit_message (m : message) : message :=
  with_reasoning (fit_reasoning <$> m_reasoning m) (with_versions (map fit_version (m_versions m)) m).

Definition has_reasoning_text (m : message) : bool :=
  match m_reasoning m with Some r => negb (bool_decide (trim (re_content r) = [])) | None => false end.

Definition normalizeStoredMessageForLoad (now : clock) (m : message) : message :=
  let normalized := fit_message m in
  if negb (isAssistantMessagePending normalized) then normalized
  else if negb (hasMessageContent normalized) && negb (has_reasoning_text normalized) then normalized
  else
    let completedAt := first_time [m_completedAt normalized; m_reasoning normalized ≫= re_completedAt;
                                   m_startedAt normalized; m_createdAt normalized] (now_answer now) in
    completeAssistantTiming
      (with_isReasoningStreaming false (with_status S_complete (finalizeMessage now normalized None))) completedAt.

(** The loop of [trimMessagesByContentSize] over the messages from the last one: the messages
    kept, last first.  [first] is whether none was kept yet. *)
Fixpoint keep_fitting (first : bool) (totalSize : Z) (reversed : list message) : list message :=
  match reversed with
  | [] => []
  | m :: rest =>
      if negb first && bool_decide (MAX_LOADED_MESSAGES_CHARS < totalSize + getMessageSize m)%Z then []
      else m :: keep_fitting false (totalSize + getMessageSize m) rest
  end.
Definition trimMessagesByContentSize (messages : list message) : list message :=
  reverse (keep_fitting true 0 (reverse messages)).

(** What [loadMessages] makes of the parsed messages. *)
Definition restore_messages (t : str -> str) (now : clock) (parsed : list message) : list message :=
  sanitizeMessagesOnLoad t now
    (trimMessagesByContentSize (trimMessages (map (normalizeStoredMessageForLoad now) parsed))).

Section stored.
Variable t : str -> str.
(** [schema.parse]: the value it returns, or a rejection. *)
Variable messagesSchema : jsval -> option (list message).
(** The data of messages as it is written. *)
Variable messages_value : list message -> jsval.
(** Whether [setItem] returns. *)
Variable accepts : str -> str -> bool.

Definition writeStoredValue (key : str) (data : jsval) (st : storage) : storage :=
  let text := JSON_stringify_value (VObject [(js "version", VNumber STORAGE_VERSION); (js "data", data)]) in
  if accepts key text then <[key := text]> st else st.

(** An exception is caught and leaves the storage as it was. *)
Definition saveMessages (messages : list message) (st : storage) : storage :=
  match messagesSchema (messages_value (trimMessages messages)) with
  | Some parsed => writeStoredValue STORAGE_KEYS.MESSAGES (messages_value parsed) st
  | None => st
  end.

Definition loadMessages (now : clock) (st : storage) : option (list message) * storage :=
  match readStoredMessagesValue st with
  | (Ok (Some saved), st') =>
      match (if truthy saved then messagesSchema (unwrapStoredValue saved) else None) with
      | Some parsed =>
          let restored := restore_messages t now parsed in
          (Some restored, saveMessages restored st')
      | None => (None, st')
      end
  | (_, st') => (None, st')
  end.

(** [readStoredValue] with [!saved]: null and the other falsy values count as absent. *)
Definition load_value {A} (schema : jsval -> option A) (key : str) (st : storage) : option A :=
  match readStoredValue st key with
  | Ok (Some saved) => if truthy saved then schema (unwrapStoredValue saved) else None
  | _ => None
  end.
Definition save_value {A} (schema : jsval -> option A) (value : A -> jsval) (key : str) (data : A) (st : storage) : storage :=
  match schema (value data) with
  | Some parsed => writeStoredValue key (value parsed) st
  | None => st
  end.

Definition clearPlaygroundData (st : storage) : storage :=
  delete STORAGE_KEYS.MESSAGES (delete STORAGE_KEYS.MODEL_PARAMETER_SETTINGS
    (delete STORAGE_KEYS.PARAMETER_ENABLED (delete STORAGE_KEYS.CONFIG st))).
End stored.
