(* ===== verification/PlaygroundStorageProps.v ===== *)
(** Correctness of the stored playground conversation: what is loaded fits the limits, and a
    session that is loaded again starts without a pending message. *)

From S2P Require Import Prelude JsString JsNumber JsNumberOrder JsValue BillingTypes JsJson PlaygroundMessage PlaygroundConversation PlaygroundSession PlaygroundSessionFacts PlaygroundStorage.

(** * Sizes *)

Lemma truncate_size text n : (0 <= n)%Z -> (text_size (truncateText text n) <= n)%Z.
Proof.
  intros Hn. unfold truncateText, text_size. case_bool_decide; [done|]. case_bool_decide as Hs.
  - rewrite length_take. lia.
  - rewrite length_app, length_take. cbn in *. lia.
Qed.

Lemma visible_part_length v : length (join [] (visible_part v)) = length v.
Proof. unfold visible_part. by case_bool_decide as E; [subst|]. Qed.

Lemma join_nil_app vs ws : join [] (vs ++ ws) = join [] vs ++ join [] ws.
Proof.
  induction vs as [|v vs IH]; [done|]. destruct vs as [|v' vs].
  - cbn [app]. destruct ws; [cbn; by rewrite app_nil_r|done].
  - change (join [] ((v :: v' :: vs) ++ ws)) with (v ++ join [] ((v' :: vs) ++ ws)). rewrite IH.
    change (join [] (v :: v' :: vs)) with (v ++ join [] (v' :: vs)). by rewrite app_assoc.
Qed.

Lemma think_text_size content vs rs u : think_text content vs rs u ->
  length (join [] vs) <= length content /\ length (join [newline; newline] rs) <= length content.
Proof.
  intros Ht. induction Ht as [v Hv|v r Hv Hr|v r rest vs rs u Hv Hr Ht [IH1 IH2]].
  - rewrite visible_part_length. cbn. lia.
  - rewrite visible_part_length, !length_app. cbn [join]. lia.
  - rewrite join_nil_app, !length_app, visible_part_length, open_length, close_length.
    destruct rs as [|r' rs]; [cbn [join]; lia|].
    change (join [newline; newline] (r :: r' :: rs)) with (r ++ [newline; newline] ++ join [newline; newline] (r' :: rs)).
    rewrite !length_app. cbn [length] in *. lia.
Qed.

Lemma parsed_size content : length (pt_visibleContent (parseThinkTags content)) <= length content /\
  length (pt_reasoning (parseThinkTags content)) <= length content.
Proof.
  unfold parseThinkTags. destruct (negb _); [cbn; lia|].
  destruct (think_text_total (length content) content) as (vs & rs & u & Ht); [done|].
  pose proof (think_loop_exact (S (length content)) [] content vs rs u [] [] Ht) as Hl.
  cbn [app length] in Hl. rewrite Hl by lia. cbn. apply think_text_size in Ht as [H1 H2].
  split; (etrans; [apply trim_length|done]).
Qed.

(** Every text of the message is at most [n] units long. *)
Definition texts_within (n : Z) (m : message) : Prop :=
  Forall (fun v => (text_size (mv_content v) <= n)%Z) (m_versions m) /\
  (forall r, m_reasoning m = Some r -> (text_size (re_content r) <= n)%Z).

Lemma fit_within m : texts_within MAX_LOADED_MESSAGE_CHARS (fit_message m).
Proof.
  split; cbn.
  - apply Forall_forall. intros v (v' & -> & _)%list_elem_of_fmap. by apply truncate_size.
  - destruct (m_reasoning m) as [r0|]; [|done]. intros r [= <-]. by apply truncate_size.
Qed.

Lemma current_within n m : (0 <= n)%Z -> texts_within n m -> (text_size (getMessageContent m) <= n)%Z.
Proof.
  intros Hn [H _]. unfold getMessageContent, getCurrentVersion. destruct (m_versions m) as [|v vs]; [done|].
  by apply Forall_cons in H as [H _].
Qed.

Lemma reasoning_timing_texts n m time : texts_within n m -> texts_within n (completeReasoningTiming m time).
Proof.
  intros H. unfold completeReasoningTiming. destruct (m_reasoning m) as [[c d s e [ms|]]|] eqn:E; [done| |done].
  destruct H as [H1 H2]. split; [done|]. cbn. intros r [= <-]. exact (H2 _ E).
Qed.
Lemma timing_texts n m time : texts_within n m -> texts_within n (completeAssistantTiming m time).
Proof. intros [H1 H2]. unfold completeAssistantTiming. case_bool_decide; by split. Qed.

Lemma or_text_size n a b : (text_size a <= n)%Z -> (text_size b <= n)%Z -> (text_size (or_text a b) <= n)%Z.
Proof. unfold or_text. by case_bool_decide. Qed.

Lemma finalize_within n now m : (0 <= n)%Z -> texts_within n m -> texts_within n (finalizeMessage now m None).
Proof.
  intros Hn Hm. pose proof (current_within n m Hn Hm) as Hc. unfold getMessageContent in Hc.
  destruct (parsed_size (mv_content (getCurrentVersion m))) as [P1 P2]. destruct Hm as [H1 H2].
  unfold finalizeMessage. cbv zeta. apply reasoning_timing_texts. unfold text_size in *. split.
  - cbn. constructor; [|done]. cbn. destruct (includes _ think_open); cbn; unfold text_size in *; lia.
  - cbn. case_bool_decide as E; [done|]. intros r [= <-]. cbn [with_content re_content].
    apply or_text_size.
    + destruct (m_reasoning m) as [r0|]; [exact (H2 r0 eq_refl)|exact Hn].
    + destruct (includes _ think_open); cbn [fmap option_fmap option_map default]; unfold text_size in *; cbn; lia.
Qed.

Lemma normalize_within now m : texts_within MAX_LOADED_MESSAGE_CHARS (normalizeStoredMessageForLoad now m).
Proof.
  unfold normalizeStoredMessageForLoad. destruct (negb (isAssistantMessagePending _)); [apply fit_within|].
  destruct (_ && _); [apply fit_within|]. apply timing_texts.
  assert (forall x, texts_within MAX_LOADED_MESSAGE_CHARS x ->
            texts_within MAX_LOADED_MESSAGE_CHARS (with_isReasoningStreaming false (with_status S_complete x))) as Hw by by intros x [? ?].
  apply Hw, finalize_within; [done|]. apply fit_within.
Qed.

(** * Lengths *)

Lemma trim_suffix ms : trimMessages ms `suffix_of` ms.
Proof.
  unfold trimMessages. case_bool_decide; [done|]. eexists. symmetry. apply take_drop.
Qed.
Lemma trim_messages_length ms : length (trimMessages ms) <= MAX_STORED_MESSAGES.
Proof. unfold trimMessages. case_bool_decide; [done|]. rewrite length_drop. lia. Qed.
Lemma trim_nonempty ms : ms <> [] -> trimMessages ms <> [].
Proof.
  intros H. unfold trimMessages. case_bool_decide as E; [done|]. intros Hd%(f_equal length).
  rewrite length_drop in Hd. cbn in Hd. unfold MAX_STORED_MESSAGES in *. lia.
Qed.

Definition total_size (ms : list message) : Z := fold_right (fun m n => (getMessageSize m + n)%Z) 0%Z ms.

Lemma message_size_nonneg m : (0 <= getMessageSize m)%Z.
Proof.
  unfold getMessageSize. assert (forall l n, (0 <= n)%Z ->
    (0 <= fold_left (fun total v => total + text_size (mv_content v)) l n)%Z) as H.
  { intros l. induction l as [|v l IH]; intros n Hn; [done|]. apply IH. unfold text_size. lia. }
  specialize (H (m_versions m) 0%Z ltac:(done)). unfold text_size in *. destruct (m_reasoning m); lia.
Qed.

Lemma total_size_app a b : total_size (a ++ b) = (total_size a + total_size b)%Z.
Proof. induction a as [|m a IH]; cbn; [done|]. fold (total_size (a ++ b)). rewrite IH. unfold total_size. lia. Qed.

Lemma keep_prefix first total l : keep_fitting first total l `prefix_of` l.
Proof.
  revert first total. induction l as [|m l IH]; intros first total; [done|]. cbn.
  destruct (_ && _); [apply prefix_nil|]. apply prefix_cons, IH.
Qed.
Lemma keep_total total l : (total <= MAX_LOADED_MESSAGES_CHARS)%Z ->
  (total + total_size (keep_fitting false total l) <= MAX_LOADED_MESSAGES_CHARS)%Z.
Proof.
  revert total. induction l as [|m l IH]; intros total Ht; [cbn; lia|]. cbn [keep_fitting negb andb].
  case_bool_decide as E; [cbn; lia|]. specialize (IH (total + getMessageSize m)%Z ltac:(lia)).
  cbn. fold (total_size (keep_fitting false (total + getMessageSize m) l)). lia.
Qed.
Lemma keep_overfull total l : (MAX_LOADED_MESSAGES_CHARS < total)%Z -> keep_fitting false total l = [].
Proof.
  intros H. destruct l as [|m l]; [done|]. cbn. pose proof (message_size_nonneg m).
  by rewrite bool_decide_eq_true_2 by lia.
Qed.

Lemma size_trim_spec ms : let kept := trimMessagesByContentSize ms in
  kept `suffix_of` ms /\ (ms <> [] -> kept <> []) /\
  ((total_size kept <= MAX_LOADED_MESSAGES_CHARS)%Z \/ length kept = 1).
Proof.
  unfold trimMessagesByContentSize. assert (total_size (reverse (keep_fitting true 0 (reverse ms))) =
    total_size (keep_fitting true 0 (reverse ms))) as Hrev.
  { generalize (keep_fitting true 0 (reverse ms)). intros l. induction l as [|m l IH]; [done|].
    rewrite reverse_cons, total_size_app. rewrite IH. cbn. fold (total_size l). lia. }
  cbv zeta. rewrite Hrev. split_and!.
  - destruct (keep_prefix true 0 (reverse ms)) as [k Hk]. exists (reverse k).
    by rewrite <- reverse_app, <- Hk, reverse_involutive.
  - intros Hne. destruct (reverse ms) as [|m l] eqn:E.
    + exfalso. apply Hne. rewrite <- (reverse_involutive ms), E. done.
    + cbn [keep_fitting negb andb]. rewrite reverse_cons. by intros [_ ?]%app_eq_nil.
  - destruct (reverse ms) as [|m l]; [left; done|]. cbn [keep_fitting negb andb]. rewrite Z.add_0_l.
    destruct (decide (getMessageSize m <= MAX_LOADED_MESSAGES_CHARS)%Z) as [Hm|Hm].
    + left. cbn. pose proof (keep_total (getMessageSize m) l Hm). unfold total_size in *. lia.
    + right. rewrite keep_overfull by lia. done.
Qed.

(** * Pending messages *)

Lemma only_last_suffix ms ms' : ms' `suffix_of` ms -> only_last_pending ms -> only_last_pending ms'.
Proof.
  intros [k ->]. induction k as [|m k IH]; [done|]. intros H. apply IH. cbn [app] in H.
  destruct (k ++ ms') as [|a l]; [done|]. by destruct H.
Qed.

Lemma only_last_map_impl f ms : (forall m, isPendingAssistantMessage (f m) = true -> isPendingAssistantMessage m = true) ->
  only_last_pending ms -> only_last_pending (map f ms).
Proof.
  intros Hf. induction ms as [|m ms IH]; [done|]. destruct ms as [|m' ms]; [done|].
  intros [Hm H]. split; [|by apply IH]. apply not_true_iff_false. intros Hp%Hf. congruence.
Qed.

Lemma pending_status a b : m_status a = m_status b -> m_from a = m_from b ->
  isPendingAssistantMessage a = isPendingAssistantMessage b.
Proof. unfold isPendingAssistantMessage, isAssistantMessagePending. by intros -> ->. Qed.

Lemma normalize_pending now m :
  isPendingAssistantMessage (normalizeStoredMessageForLoad now m) = true -> isPendingAssistantMessage m = true.
Proof.
  unfold normalizeStoredMessageForLoad. destruct (negb (isAssistantMessagePending _)); [done|].
  destruct (_ && _); [done|]. rewrite final_not_pending; [done|].
  eapply status_final; [by rewrite timing_status|auto].
Qed.

Lemma sanitize_final t now m : isPendingAssistantMessage (sanitize_message t now m) = false.
Proof.
  apply final_not_pending. unfold sanitize_message.
  destruct (_ || _); (eapply status_final; [by rewrite timing_status|auto]).
Qed.

Lemma last_pending_None ms : last_pending ms = None <-> no_pending ms.
Proof.
  induction ms as [|m ms IH]; [split; [constructor|done]|]. cbn. unfold no_pending in *. rewrite Forall_cons, <- IH.
  destruct (last_pending ms); [split; [done|by intros [_ ?]]|].
  destruct (isPendingAssistantMessage m); split; try done. by intros [? _].
Qed.

Lemma sanitize_only_last t now ms : only_last_pending ms -> no_pending (sanitizeMessagesOnLoad t now ms).
Proof.
  intros H. unfold sanitizeMessagesOnLoad. destruct (last_pending ms) as [i|] eqn:E; [|by apply last_pending_None].
  destruct ms as [|m ms _] using rev_ind; [done|]. apply only_last_snoc in H.
  assert (i = length ms) as ->.
  { clear -E H. revert i E. induction H as [|a ms Ha H IH]; intros i; cbn.
    - destruct (isPendingAssistantMessage m); [|done]. by intros [= <-].
    - destruct (last_pending (ms ++ [m])) as [j|] eqn:Ej; [|by rewrite Ha].
      intros [= <-]. f_equal. by apply IH. }
  rewrite alter_app_r_alt by done. rewrite Nat.sub_diag. apply Forall_app. split; [done|].
  cbn. repeat constructor. apply sanitize_final.
Qed.

Lemma Forall_suffix {A} (P : A -> Prop) l k : l `suffix_of` k -> Forall P k -> Forall P l.
Proof. intros [p ->]. by intros [_ ?]%Forall_app. Qed.

Lemma restore_settled t now parsed : only_last_pending parsed -> no_pending (restore_messages t now parsed).
Proof.
  intros H. apply sanitize_only_last. eapply only_last_suffix; [apply size_trim_spec|].
  eapply only_last_suffix; [apply trim_suffix|]. apply only_last_map_impl; [apply normalize_pending|done].
Qed.

(** C38: a reloaded session starts settled.  The messages of any session a run can reach, cut to
    what is stored and loaded again, hold no loading or streaming message; so the next
    session starts as [session_never_stuck] and [answer_settles] ask. *)
Theorem reload_settled t t' now messages s :
  no_pending messages -> reachable t messages s ->
  no_pending (restore_messages t' now (trimMessages (s_messages s))).
Proof.
  intros Hm Hr. apply restore_settled. eapply only_last_suffix; [apply trim_suffix|].
  apply (ok_last _ (reachable_ok t messages s Hm Hr)).
Qed.

(** what is loaded is bounded.  Loading keeps the latest messages, in order, at least one of
    them and at most a hundred; their texts are at most 40000 units each, and 120000 in all
    unless a single message is left; sanitizing changes at most one of them, and the length
    of the list not at all. *)
Theorem load_bounded t now parsed :
  exists kept, kept `suffix_of` map (normalizeStoredMessageForLoad now) parsed /\
    restore_messages t now parsed = sanitizeMessagesOnLoad t now kept /\
    length (restore_messages t now parsed) = length kept /\
    length kept <= 100 /\ (parsed <> [] -> kept <> []) /\
    Forall (texts_within 40000) kept /\
    ((total_size kept <= 120000)%Z \/ length kept = 1).
Proof.
  set (normalized := map (normalizeStoredMessageForLoad now) parsed).
  exists (trimMessagesByContentSize (trimMessages normalized)).
  destruct (size_trim_spec (trimMessages normalized)) as (S1 & S2 & S3).
  pose proof (trim_suffix normalized) as T1. pose proof (trim_messages_length normalized) as T2.
  split_and!.
  - by etrans.
  - done.
  - unfold restore_messages, sanitizeMessagesOnLoad. fold normalized. destruct (last_pending _); [|done].
    apply length_alter.
  - etrans; [by apply suffix_length|done].
  - intros Hp. apply S2, trim_nonempty. unfold normalized. by destruct parsed.
  - eapply Forall_suffix; [exact S1|]. eapply Forall_suffix; [exact T1|].
    apply Forall_forall. intros m (m0 & -> & _)%list_elem_of_fmap. apply normalize_within.
  - exact S3.
Qed.

(** A session stopped by a reload while its answer is loading. *)
Definition interrupted_session : session :=
  handle id (E_send (SendContext
    (PlaygroundConfig (js "gpt-4o") (js "default") n_one n_one (n_of_Z 4096) n_zero n_zero None true)
    DEFAULT_PARAMETER_ENABLED (FreshIds (js "a") (js "b") (js "c") (js "d")) n_zero (Clock n_zero n_zero n_zero) true)
    (js "hi")) (initial_session []).

Lemma reload_settled_witness : no_pending [] /\ reachable id [] interrupted_session /\
  no_pending (restore_messages id (Clock n_one n_one n_one) (trimMessages (s_messages interrupted_session))).
Proof.
  assert (no_pending []) as Hn by constructor.
  assert (reachable id [] interrupted_session) as Hr by (apply reach_step; [constructor|vm_compute; reflexivity]).
  split; [exact Hn|]. split; [exact Hr|]. exact (reload_settled id id _ [] _ Hn Hr).
Defined.

Example interrupted_reload :
  map (fun m => (m_status m, getMessageContent m))
    (restore_messages id (Clock n_one n_one n_one) (s_messages interrupted_session)) =
  [(None, js "hi"); (Some S_error, js "Request error occurred: Generation was interrupted")].
Proof. vm_compute. reflexivity. Qed.
