(* ===== verification/DashboardFlow.v ===== *)
(** The flow chart of the dashboard (features/dashboard/lib/flow.ts, up to the chart
    description): rows of usage data become paths through the visible stages, and the paths a
    graph of nodes and links with their totals.

    A [Map] is the list of its entries in the order of their insertion.  The colour schemes of
    the chart library are the class [ChartColors]. *)

From S2P Require Import Prelude JsString JsNumber JsNumberOrder JsValue BillingTypes JsJson TaskExpr Currency JsSort.

(** * Data *)

(** [FlowQuotaDataItem] *)
Record flow_row := FlowRow {
  fr_user_id : option number;
  fr_username : option str;
  fr_node_name : option str;
  fr_use_group : option str;
  fr_token_id : option number;
  fr_token_name : option str;
  fr_channel_id : option number;
  fr_channel_name : option str;
  fr_model_name : option str;
  fr_token_used : option number;
  fr_count : option number;
  fr_quota : option number;
}.

Inductive flow_metric : Type := M_quota | M_tokens | M_requests.
Inductive flow_overflow : Type := Overflow_aggregate | Overflow_hide.
Inductive flow_role : Type := Role_user | Role_admin | Role_root.
Inductive flow_kind : Type := K_user | K_node | K_token | K_group | K_model | K_channel.
#[export] Instance flow_kind_eq_dec : EqDecision flow_kind.
Proof. solve_decision. Defined.

Record flow_metrics := FlowMetrics { fm_quota : number; fm_tokens : number; fm_requests : number }.
Record path_node := PathNode { pn_id : str; pn_label : str; pn_kind : flow_kind }.
Record prepared_path := PreparedPath { pp_path : list path_node; pp_metrics : flow_metrics }.

Record node_filter := NodeFilter { nf_kind : flow_kind; nf_id : str }.
Record link_selection := LinkSelection { ls_source : str; ls_target : str }.

Record flow_node := FlowNode {
  fn_id : str;
  fn_label : str;
  fn_kind : flow_kind;
  fn_value : number;
  fn_metrics : flow_metrics;
  fn_color : str;
  fn_colorKey : str;
  fn_highlighted : option bool;
  fn_dimmed : option bool;
}.

Record flow_link := FlowLink {
  fl_source : str;
  fl_target : str;
  fl_value : number;
  fl_metrics : flow_metrics;
  fl_sourceLabel : str;
  fl_targetLabel : str;
  fl_color : str;
  fl_linkColor : str;
  fl_linkAlpha : number;
  fl_hoverColor : str;
  fl_colorKey : str;
  fl_share : number;
  fl_highlighted : option bool;
  fl_dimmed : option bool;
}.

(** * Rows *)

(** [Number(value)], 0 when it is not finite; a missing value is NaN. *)
Definition numberValue (value : option number) : number :=
  match value with Some x => if is_finite x then x else n_zero | None => n_zero end.

(** [text || fallback] *)
Definition text_or (text : option str) (fallback : str) : str :=
  match text with Some ((_ :: _) as s) => s | _ => fallback end.

Definition rowMetrics (row : flow_row) : flow_metrics :=
  FlowMetrics (numberValue (fr_quota row)) (numberValue (fr_token_used row)) (numberValue (fr_count row)).

Definition metricValue (metrics : flow_metrics) (metric : flow_metric) : number :=
  match metric with
  | M_requests => fm_requests metrics
  | M_tokens => fm_tokens metrics
  | M_quota => fm_quota metrics
  end.

(** [`${prefix}${id}`] when there is an id, the name otherwise. *)
Definition id_or_name (prefix : str) (id : number) (name : option str) : str :=
  prefix ++ (if n_ltb n_zero id then string_of_number id else text_or name (js "unknown")).

Definition userNode (row : flow_row) : path_node :=
  let userID := numberValue (fr_user_id row) in
  PathNode (id_or_name (js "user:") userID (fr_username row))
    (text_or (fr_username row)
       (if n_ltb n_zero userID then js "user-" ++ string_of_number userID else js "Unknown User")) K_user.

Definition nodeNameNode (row : flow_row) : path_node :=
  let nodeName := text_or (fr_node_name row) (js "default-node") in
  PathNode (js "node:" ++ nodeName) nodeName K_node.

(** [ctx] is [ctx.deletedTokenLabel]. *)
Definition deletedTokenLabel (tokenID : number) (ctx : option (number -> str)) : str :=
  if n_leb tokenID n_zero then js "Unknown Token"
  else match ctx with Some label => label tokenID | None => js "token-" ++ string_of_number tokenID end.

Definition tokenNode (row : flow_row) (ctx : option (number -> str)) : path_node :=
  let tokenID := numberValue (fr_token_id row) in
  PathNode (id_or_name (js "token:") tokenID (fr_token_name row))
    (text_or (fr_token_name row) (deletedTokenLabel tokenID ctx)) K_token.

Definition groupNode (row : flow_row) : path_node :=
  let useGroup := text_or (fr_use_group row) (js "unknown") in
  PathNode (js "group:" ++ useGroup) useGroup K_group.

Definition modelNode (row : flow_row) : path_node :=
  PathNode (js "model:" ++ text_or (fr_model_name row) (js "unknown")) (text_or (fr_model_name row) (js "Unknown Model")) K_model.

Definition channelNode (row : flow_row) : path_node :=
  let channelID := numberValue (fr_channel_id row) in
  PathNode (id_or_name (js "channel:") channelID (fr_channel_name row))
    (text_or (fr_channel_name row)
       (if n_ltb n_zero channelID then js "channel-" ++ string_of_number channelID else js "Unknown")) K_channel.

Definition NODE_BUILDERS (kind : flow_kind) (row : flow_row) (ctx : option (number -> str)) : path_node :=
  match kind with
  | K_user => userNode row
  | K_node => nodeNameNode row
  | K_token => tokenNode row ctx
  | K_group => groupNode row
  | K_model => modelNode row
  | K_channel => channelNode row
  end.

(** * Stages *)

Definition getFlowStages (role : flow_role) : list flow_kind :=
  match role with
  | Role_root => [K_user; K_node; K_token; K_group; K_model; K_channel]
  | Role_admin => [K_user; K_group; K_model; K_channel]
  | Role_user => [K_token; K_group; K_model]
  end.

Definition MIN_FLOW_STAGES : nat := 2.

Definition resolveVisibleStages (role : flow_role) (visibleStages : option (list flow_kind)) : list flow_kind :=
  let stages := getFlowStages role in
  match visibleStages with
  | None => stages
  | Some visible =>
      let filtered := List.filter (fun stage => bool_decide (stage ∈ visible)) stages in
      if bool_decide (MIN_FLOW_STAGES <= length filtered) then filtered else stages
  end.

Definition flowPathForStages (row : flow_row) (stages : list flow_kind) (ctx : option (number -> str)) : list path_node :=
  map (fun stage => NODE_BUILDERS stage row ctx) stages.

(** * Filters *)

Definition filterRows (rows : list flow_row) (selectedUsers : list str) : list flow_row :=
  match selectedUsers with
  | [] => rows
  | _ => List.filter (fun row => bool_decide (pn_id (userNode row) ∈ selectedUsers)) rows
  end.

(** The selected ids of each visible kind. *)
Fixpoint add_filter (kind : flow_kind) (id : str) (filters : list (flow_kind * list str)) : list (flow_kind * list str) :=
  match filters with
  | [] => [(kind, [id])]
  | (k, ids) :: rest => if bool_decide (k = kind) then (k, set_add id ids) :: rest else (k, ids) :: add_filter kind id rest
  end.

Definition normalizeSelectedNodeFilters (selectedNodes : list node_filter) (stages : list flow_kind) :
    list (flow_kind * list str) :=
  fold_left (fun filters filter => if bool_decide (nf_kind filter ∈ stages) then add_filter (nf_kind filter) (nf_id filter) filters
                                   else filters) selectedNodes [].

Definition pathMatchesNodeFilters (path : list path_node) (filters : list (flow_kind * list str)) : bool :=
  forallb (fun filter => existsb (fun node => bool_decide (pn_kind node = filter.1) && bool_decide (pn_id node ∈ filter.2)) path)
    filters.

Definition filterRowsByNodes (rows : list flow_row) (selectedNodes : list node_filter) (stages : list flow_kind)
    (ctx : option (number -> str)) : list flow_row :=
  let filters := normalizeSelectedNodeFilters selectedNodes stages in
  match filters with
  | [] => rows
  | _ => List.filter (fun row => pathMatchesNodeFilters (flowPathForStages row stages ctx) filters) rows
  end.

Definition selectedNodeFiltersExceptKind (selectedNodes : list node_filter) (kind : flow_kind) : list node_filter :=
  List.filter (fun filter => negb (bool_decide (nf_kind filter = kind))) selectedNodes.

(** * Totals *)

Definition add_metrics (a b : flow_metrics) : flow_metrics :=
  FlowMetrics (n_add (fm_quota a) (fm_quota b)) (n_add (fm_tokens a) (fm_tokens b)) (n_add (fm_requests a) (fm_requests b)).
Definition no_metrics : flow_metrics := FlowMetrics n_zero n_zero n_zero.

Definition buildSummary (rows : list flow_row) : flow_metrics :=
  fold_left (fun summary row => add_metrics summary (rowMetrics row)) rows no_metrics.

Definition addNode (nodes : list (str * flow_node)) (node : path_node) (metrics : flow_metrics) (metric : flow_metric)
    (color colorKey : str) : list (str * flow_node) :=
  let previous := default (FlowNode (pn_id node) (pn_label node) (pn_kind node) n_zero no_metrics color colorKey None None)
                    (obj_get (pn_id node) nodes) in
  obj_set (pn_id node)
    (FlowNode (fn_id previous) (fn_label previous) (fn_kind previous) (n_add (fn_value previous) (metricValue metrics metric))
       (add_metrics (fn_metrics previous) metrics) (fn_color previous) (fn_colorKey previous) (fn_highlighted previous)
       (fn_dimmed previous)) nodes.

(** [`${source}\u0000${target}`] *)
Definition link_key (source target : str) : str := source ++ 0%N :: target.
Definition pathLinkKey (source target : path_node) : str := link_key (pn_id source) (pn_id target).
Definition linkStableKey (link : flow_link) : str := link_key (fl_source link) (fl_target link).

Definition addLink (links : list (str * flow_link)) (source target : path_node) (metrics : flow_metrics)
    (metric : flow_metric) (color colorKey : str) : list (str * flow_link) :=
  let key := pathLinkKey source target in
  let previous := default (FlowLink (pn_id source) (pn_id target) n_zero no_metrics (pn_label source) (pn_label target) color
                             color n_one color colorKey n_zero None None) (obj_get key links) in
  obj_set key
    (FlowLink (fl_source previous) (fl_target previous) (n_add (fl_value previous) (metricValue metrics metric))
       (add_metrics (fl_metrics previous) metrics) (fl_sourceLabel previous) (fl_targetLabel previous) (fl_color previous)
       (fl_linkColor previous) (fl_linkAlpha previous) (fl_hoverColor previous) (fl_colorKey previous) (fl_share previous)
       (fl_highlighted previous) (fl_dimmed previous)) links.

(** The links of a path: [for (let i = 0; i < path.length - 1; i++)]. *)
Fixpoint path_links (path : list path_node) : list (path_node * path_node) :=
  match path with
  | source :: ((target :: _) as rest) => (source, target) :: path_links rest
  | _ => []
  end.

(** * Colours *)

(** [getDashboardChartColors] over the schemes of the chart library: the colours for a number
    of series. *)
Class ChartColors := chart_colors : nat -> list str.

Definition DEFAULT_FLOW_CHART_COLOR : str := js "#1664FF".

Definition is_hex_digit (c : N) : bool :=
  is_digit c || JsString.in_range 97 102 c || JsString.in_range 65 70 c.
Definition hex_digit_value (c : N) : Z :=
  (if is_digit c then Z.of_N c - 48 else if JsString.in_range 97 102 c then Z.of_N c - 87 else Z.of_N c - 55)%Z.

(** The colour with an alpha channel, and the opacity that is left to apply. *)
Definition alphaColor (color : str) (alpha : number) : str * number :=
  let normalized := trim color in
  let hex := match normalized with 35%N :: r => r | _ => normalized end in
  if bool_decide (length hex = 6) && forallb is_hex_digit hex then
    let value := fold_left (fun v c => (16 * v + hex_digit_value c)%Z) hex 0%Z in
    let channel shift := string_of_Z (Z.land (Z.shiftr value shift) 255) in
    (js "rgba(" ++ channel 16%Z ++ js ", " ++ channel 8%Z ++ js ", " ++ channel 0%Z ++ js ", " ++ to_fixed alpha 2 ++ js ")", n_one)
  else (normalized, alpha).

Section colours.
Context {colours : ChartColors} {collation : Collation}.

Definition colorAt (index : nat) (palette : option (list str)) : str :=
  let colors := match palette with Some ((_ :: _) as p) => p | _ => chart_colors (index + 1) end in
  match colors with
  | [] => DEFAULT_FLOW_CHART_COLOR
  | _ => default DEFAULT_FLOW_CHART_COLOR (colors !! (index mod length colors))
  end.

Definition colorPalette (colorCount : nat) (palette : option (list str)) : list str :=
  match palette with
  | Some ((_ :: _) as p) => p
  | _ => match chart_colors colorCount with [] => [DEFAULT_FLOW_CHART_COLOR] | colors => colors end
  end.

Definition stableColorMap (keys : list str) (palette : option (list str)) : list (str * str) :=
  let uniqueKeys := distinct keys in
  let colors := colorPalette (length uniqueKeys) palette in
  imap (fun index key => (key, colorAt index (Some colors))) uniqueKeys.

(** * Comparators *)

(** The sign of a difference; NaN and zero are falsy. *)
Definition number_order (a b : number) : comparison :=
  let d := n_sub a b in if n_ltb d n_zero then Lt else if n_ltb n_zero d then Gt else Eq.
(** [a.localeCompare(b)] *)
Definition text_order (a b : str) : comparison :=
  if locale_before a b then Lt else if locale_before b a then Gt else Eq.
(** [first || second] *)
Definition then_by (first second : comparison) : comparison := match first with Eq => second | _ => first end.
Definition positive_order (c : comparison) : bool := match c with Gt => true | _ => false end.

Definition sort_texts (texts : list str) : list str := sort_with (fun a b => positive_order (text_order a b)) texts.

Definition byValueThenLabel (a b : flow_node) : bool :=
  positive_order (then_by (number_order (fn_value b) (fn_value a)) (text_order (fn_label a) (fn_label b))).

Definition link_strength (a b : flow_link) : bool :=
  positive_order (then_by (number_order (fl_value b) (fl_value a)) (text_order (linkStableKey a) (linkStableKey b))).

Definition link_position (a b : flow_link) : bool :=
  positive_order (then_by (text_order (fl_source a) (fl_source b)) (text_order (fl_target a) (fl_target b))).

(** The links of a source get a shade each, by their strength. *)
Definition link_display (links : list flow_link) (link : flow_link) : flow_link :=
  let sortedLinks := sort_with link_strength (List.filter (fun l => bool_decide (fl_source l = fl_source link)) links) in
  let count := length sortedLinks in
  let denominator := n_of_Z (Z.max (Z.of_nat count - 1) 1) in
  let index := default 0%nat (find_index (fun l => bool_decide (linkStableKey l = linkStableKey link)) sortedLinks) in
  let alpha :=
    if bool_decide (count = 1) then number_of_literal (js "0.34")
    else n_add (number_of_literal (js "0.24"))
           (n_mul (n_div (n_of_Z (Z.of_nat index)) denominator) (number_of_literal (js "0.2"))) in
  let '(color, opacity) := alphaColor (fl_color link) alpha in
  FlowLink (fl_source link) (fl_target link) (fl_value link) (fl_metrics link) (fl_sourceLabel link) (fl_targetLabel link)
    (fl_color link) color opacity (fl_color link) (fl_colorKey link) (fl_share link) (fl_highlighted link) (fl_dimmed link).

(** No two links of the list have the same key, so the position of a link in the sorted list
    is that of its key. *)
Definition assignLinkDisplayColors (links : list flow_link) : list flow_link := map (link_display links) links.

(** * The most used nodes *)

(** The limit as an integer. *)
Definition normalizeTopNodeLimit (limit : option number) : option Z :=
  match limit with
  | None => None
  | Some x => let parsed := n_floor x in
              if is_finite parsed && n_ltb n_zero parsed then Some (trunc_Z parsed) else None
  end.

Definition kind_name (kind : flow_kind) : str :=
  match kind with
  | K_user => js "user" | K_node => js "node" | K_token => js "token"
  | K_group => js "group" | K_model => js "model" | K_channel => js "channel"
  end.
Definition OTHER_FLOW_NODE_IDS (kind : flow_kind) : str := kind_name kind ++ js ":__other__".
Definition DEFAULT_OTHER_FLOW_NODE_LABELS (kind : flow_kind) : str := js "Other " ++ kind_name kind ++ js "s".

Definition otherFlowNode (kind : flow_kind) (labeler : option (flow_kind -> str)) : path_node :=
  PathNode (OTHER_FLOW_NODE_IDS kind)
    (match labeler with Some label => label kind | None => DEFAULT_OTHER_FLOW_NODE_LABELS kind end) kind.

(** [slice(0, limit)] *)
Definition slice_to {A} (limit : Z) (l : list A) : list A := take (Z.to_nat (Z.min limit (Z.of_nat (length l)))) l.

Definition add_rank (value : number) (node : path_node) (totals : list (str * (path_node * number))) :
    list (str * (path_node * number)) :=
  let current := default (node, n_zero) (obj_get (pn_id node) totals) in
  obj_set (pn_id node) (current.1, n_add current.2 value) totals.

Definition rank_after (a b : path_node * number) : bool :=
  positive_order (then_by (number_order b.2 a.2)
                    (then_by (text_order (pn_label a.1) (pn_label b.1)) (text_order (pn_id a.1) (pn_id b.1)))).

(** The totals of one stage: a path has one node of each stage. *)
Definition stage_totals (rows : list flow_row) (metric : flow_metric) (ctx : option (number -> str)) (stage : flow_kind) :
    list (str * (path_node * number)) :=
  fold_left (fun totals row => add_rank (metricValue (rowMetrics row) metric) (NODE_BUILDERS stage row ctx) totals) rows [].

Definition buildTopNodeSets (rows : list flow_row) (metric : flow_metric) (stages : list flow_kind) (limit : option Z)
    (ctx : option (number -> str)) : option (list (flow_kind * list str)) :=
  match limit with
  | None => None
  | Some limit =>
      Some (map (fun stage =>
              (stage, map (fun rank => pn_id rank.1)
                        (slice_to limit (sort_with rank_after (map snd (stage_totals rows metric ctx stage)))))) stages)
  end.

Definition isTopFlowNode (node : path_node) (topNodeSets : list (flow_kind * list str)) : bool :=
  match obj_get (pn_kind node) topNodeSets with
  | Some topNodes => bool_decide (pn_id node ∈ topNodes)
  | None => true
  end.

Definition applyTopNodeLimit (path : list path_node) (topNodeSets : option (list (flow_kind * list str)))
    (mode : flow_overflow) (labeler : option (flow_kind -> str)) : option (list path_node) :=
  match topNodeSets with
  | None => Some path
  | Some sets =>
      if negb (existsb (fun node => negb (isTopFlowNode node sets)) path) then Some path
      else match mode with
           | Overflow_hide => None
           | Overflow_aggregate =>
               Some (map (fun node => if isTopFlowNode node sets then node else otherFlowNode (pn_kind node) labeler) path)
           end
  end.

(** * Highlighting *)

Definition pathContainsFlowNode (path : list path_node) (filter : node_filter) : bool :=
  existsb (fun node => bool_decide (pn_kind node = nf_kind filter) && bool_decide (pn_id node = nf_id filter)) path.

Definition pathContainsFlowLink (path : list path_node) (link : link_selection) : bool :=
  existsb (fun l => bool_decide (pn_id l.1 = ls_source link) && bool_decide (pn_id l.2 = ls_target link)) (path_links path).

Definition matches_active (activeNode : option node_filter) (activeLink : option link_selection) (path : list path_node) : bool :=
  match activeLink, activeNode with
  | Some link, _ => pathContainsFlowLink path link
  | None, Some node => pathContainsFlowNode path node
  | None, None => false
  end.

(** The ids of the highlighted nodes and the keys of the highlighted links. *)
Definition buildFlowHighlightSets (preparedPaths : list prepared_path) (activeNode : option node_filter)
    (activeLink : option link_selection) (stages : list flow_kind) : option (list str * list str) :=
  let nodeActive := match activeNode with Some node => bool_decide (nf_kind node ∈ stages) | None => false end in
  match nodeActive, activeLink with
  | false, None => None
  | _, _ =>
      let matching := List.filter (fun p => matches_active activeNode activeLink (pp_path p)) preparedPaths in
      let nodes := distinct (flat_map (fun p => map pn_id (pp_path p)) matching) in
      let links := distinct (flat_map (fun p => map (fun l => pathLinkKey l.1 l.2) (path_links (pp_path p))) matching) in
      match nodes with [] => None | _ => Some (nodes, links) end
  end.

Definition highlight_node (sets : list str * list str) (node : flow_node) : flow_node :=
  let highlighted := bool_decide (fn_id node ∈ sets.1) in
  FlowNode (fn_id node) (fn_label node) (fn_kind node) (fn_value node) (fn_metrics node) (fn_color node) (fn_colorKey node)
    (Some highlighted) (Some (negb highlighted)).

Definition highlight_link (sets : list str * list str) (link : flow_link) : flow_link :=
  let highlighted := bool_decide (linkStableKey link ∈ sets.2) in
  FlowLink (fl_source link) (fl_target link) (fl_value link) (fl_metrics link) (fl_sourceLabel link) (fl_targetLabel link)
    (fl_color link) (fl_linkColor link) (fl_linkAlpha link) (fl_hoverColor link) (fl_colorKey link) (fl_share link)
    (Some highlighted) (Some (negb highlighted)).

Definition applyFlowHighlights (nodes : list (str * flow_node)) (links : list (str * flow_link))
    (sets : option (list str * list str)) : list (str * flow_node) * list (str * flow_link) :=
  match sets with
  | None => (nodes, links)
  | Some sets => (map (fun e => (e.1, highlight_node sets e.2)) nodes, map (fun e => (e.1, highlight_link sets e.2)) links)
  end.

(** * Masking *)

(** Four bullets *)
Definition FLOW_MASK_TEXT : str := [8226; 8226; 8226; 8226]%N.
Definition maskFlowLabel (label : str) : str := match label with [] => [] | _ => FLOW_MASK_TEXT end.

Definition SENSITIVE_FLOW_KINDS (kind : flow_kind) : bool := match kind with K_model => false | _ => true end.
Definition OTHER_FLOW_NODE_ID_SET : list str :=
  map OTHER_FLOW_NODE_IDS [K_user; K_node; K_token; K_group; K_model; K_channel].

Definition is_masked (node : flow_node) : bool :=
  SENSITIVE_FLOW_KINDS (fn_kind node) && negb (bool_decide (fn_id node ∈ OTHER_FLOW_NODE_ID_SET)).

Definition mask_node (node : flow_node) : flow_node :=
  if is_masked node then
    FlowNode (fn_id node) (maskFlowLabel (fn_label node)) (fn_kind node) (fn_value node) (fn_metrics node) (fn_color node)
      (fn_colorKey node) (fn_highlighted node) (fn_dimmed node)
  else node.

(** [maskedById]: a node replaces an earlier one with its id. *)
Definition masked_labels (nodes : list (str * flow_node)) : list (str * str) :=
  fold_left (fun masked e => if is_masked e.2 then obj_set (fn_id e.2) (maskFlowLabel (fn_label e.2)) masked else masked) nodes [].

Definition mask_link (masked : list (str * str)) (link : flow_link) : flow_link :=
  FlowLink (fl_source link) (fl_target link) (fl_value link) (fl_metrics link)
    (default (fl_sourceLabel link) (obj_get (fl_source link) masked)) (default (fl_targetLabel link) (obj_get (fl_target link) masked))
    (fl_color link) (fl_linkColor link) (fl_linkAlpha link) (fl_hoverColor link) (fl_colorKey link) (fl_share link)
    (fl_highlighted link) (fl_dimmed link).

Definition maskFlowGraphLabels (nodes : list (str * flow_node)) (links : list (str * flow_link)) :
    list (str * flow_node) * list (str * flow_link) :=
  let masked := masked_labels nodes in
  (map (fun e => (e.1, mask_node e.2)) nodes, map (fun e => (e.1, mask_link masked e.2)) links).

(** * The graph *)

Record graph_options := GraphOptions {
  go_topNodeLimit : option number;
  go_overflowMode : option flow_overflow;
  go_otherNodeLabel : option (flow_kind -> str);
  go_activeNode : option node_filter;
  go_activeLink : option link_selection;
  go_maskSensitive : bool;
}.

Definition preparePaths (rows : list flow_row) (metric : flow_metric) (stages : list flow_kind) (ctx : option (number -> str))
    (options : graph_options) : list prepared_path :=
  let topNodeSets := buildTopNodeSets rows metric stages (normalizeTopNodeLimit (go_topNodeLimit options)) ctx in
  let overflowMode := default Overflow_aggregate (go_overflowMode options) in
  omap (fun row => match applyTopNodeLimit (flowPathForStages row stages ctx) topNodeSets overflowMode (go_otherNodeLabel options) with
                   | Some path => Some (PreparedPath path (rowMetrics row))
                   | None => None
                   end) rows.

Definition root_ids (paths : list prepared_path) : list str :=
  List.filter (fun id => bool_decide (id <> [])) (omap (fun p => pn_id <$> head (pp_path p)) paths).

(** One prepared path is added to the graph. *)
Definition add_path (metric : flow_metric) (colors : list (str * str)) (palette : option (list str))
    (graph : list (str * flow_node) * list (str * flow_link)) (p : prepared_path) :
    list (str * flow_node) * list (str * flow_link) :=
  match pp_path p with
  | [] => graph
  | root :: _ =>
      let color := default (colorAt 0 palette) (obj_get (pn_id root) colors) in
      (fold_left (fun nodes node => addNode nodes node (pp_metrics p) metric color (pn_id root)) (pp_path p) graph.1,
       fold_left (fun links l => addLink links l.1 l.2 (pp_metrics p) metric color (pn_id root)) (path_links (pp_path p)) graph.2)
  end.

Definition with_share (total : number) (link : flow_link) : flow_link :=
  FlowLink (fl_source link) (fl_target link) (fl_value link) (fl_metrics link) (fl_sourceLabel link) (fl_targetLabel link)
    (fl_color link) (fl_linkColor link) (fl_linkAlpha link) (fl_hoverColor link) (fl_colorKey link)
    (if n_ltb n_zero total then n_div (fl_value link) total else n_zero) (fl_highlighted link) (fl_dimmed link).

Definition flow_total (roots : list str) (links : list flow_link) : number :=
  fold_left (fun sum link => n_add sum (fl_value link)) (List.filter (fun link => bool_decide (fl_source link ∈ roots)) links) n_zero.

Definition buildFlowGraph (rows : list flow_row) (metric : flow_metric) (role : flow_role) (palette : option (list str))
    (visibleStages : option (list flow_kind)) (ctx : option (number -> str)) (options : graph_options) :
    list flow_node * list flow_link :=
  let stages := resolveVisibleStages role visibleStages in
  let preparedPaths := preparePaths rows metric stages ctx options in
  let colors := stableColorMap (sort_texts (root_ids preparedPaths)) palette in
  let graph := fold_left (add_path metric colors palette) preparedPaths ([], []) in
  let graph := if go_maskSensitive options then maskFlowGraphLabels graph.1 graph.2 else graph in
  let graph := applyFlowHighlights graph.1 graph.2
                 (buildFlowHighlightSets preparedPaths (go_activeNode options) (go_activeLink options) stages) in
  let flowLinks := sort_with link_position (map snd graph.2) in
  let total := flow_total (root_ids preparedPaths) flowLinks in
  (sort_with byValueThenLabel (map snd graph.1), assignLinkDisplayColors (map (with_share total) flowLinks)).

(** * Filter options *)

Context {numbers : NumberFormat}.

(** [Intl.NumberFormat(undefined, { maximumFractionDigits: 0 }).format(value)] *)
Definition formatFlowNumber (value : number) : str := format_number (IntlNumberOptions None None false None 0) value.

Record filter_option := FilterOption {
  op_kind : option flow_kind;      (* missing for users *)
  op_value : str;
  op_label : str;
  op_valueLabel : str;
  op_valueRaw : number;
  op_color : str;
}.

Definition truthy_number (x : option number) : bool :=
  match x with Some x => negb (n_eqb x n_zero || is_nan x) | None => false end.
Definition truthy_name (s : option str) : bool := match s with Some (_ :: _) => true | _ => false end.

Definition option_value_label (a b : filter_option) : comparison :=
  then_by (number_order (op_valueRaw b) (op_valueRaw a)) (text_order (op_label a) (op_label b)).

Definition buildUserFilterOptions (rows : list flow_row) (metric : flow_metric) (palette : option (list str)) :
    list filter_option :=
  let colors := stableColorMap (sort_texts (map (fun row => pn_id (userNode row)) rows)) palette in
  let known := List.filter (fun row => truthy_number (fr_user_id row) || truthy_name (fr_username row)) rows in
  let users := fold_left (fun users row => add_rank (metricValue (rowMetrics row) metric) (userNode row) users) known [] in
  sort_with (fun a b => positive_order (option_value_label a b))
    (map (fun e => FilterOption None e.1 (pn_label e.2.1) (formatFlowNumber e.2.2) e.2.2
                     (default (colorAt 0 palette) (obj_get e.1 colors))) users).

(** The position of a stage, 0 when it is not visible. *)
Definition stage_order (stages : list flow_kind) (kind : option flow_kind) : Z :=
  match kind with
  | Some k => Z.of_nat (default 0%nat (find_index (fun s => bool_decide (s = k)) stages))
  | None => 0%Z
  end.

Definition node_option_after (stages : list flow_kind) (a b : filter_option) : bool :=
  positive_order (then_by (stage_order stages (op_kind a) ?= stage_order stages (op_kind b))%Z
                    (then_by (option_value_label a b) (text_order (op_value a) (op_value b)))).

(** The key of a total holds the kind of the node, which is the stage, beside its id. *)
Definition stage_options (rows : list flow_row) (metric : flow_metric) (stages : list flow_kind) (palette : option (list str))
    (colors : list (str * str)) (ctx : option (number -> str)) (selectedNodes : list node_filter) (stage : flow_kind) :
    list filter_option :=
  let candidateRows := filterRowsByNodes rows (selectedNodeFiltersExceptKind selectedNodes stage) stages ctx in
  map (fun rank => FilterOption (Some (pn_kind rank.1)) (pn_id rank.1) (pn_label rank.1) (formatFlowNumber rank.2) rank.2
                     (default (colorAt 0 palette) (obj_get (pn_id rank.1) colors)))
    (map snd (stage_totals candidateRows metric ctx stage)).

Definition buildNodeFilterOptions (rows : list flow_row) (metric : flow_metric) (role : flow_role)
    (visibleStages : option (list flow_kind)) (palette : option (list str)) (ctx : option (number -> str))
    (selectedNodes : list node_filter) : list filter_option :=
  let stages := resolveVisibleStages role visibleStages in
  let colorIds := distinct (flat_map (fun row => map pn_id (flowPathForStages row stages ctx)) rows) in
  let colors := stableColorMap (sort_texts colorIds) palette in
  sort_with (node_option_after stages)
    (flat_map (stage_options rows metric stages palette colors ctx selectedNodes) stages).

Definition buildFlowFilterOptions (rows : list flow_row) (metric : flow_metric) (palette : option (list str))
    (role : flow_role) (visibleStages : option (list flow_kind)) (selectedNodes : list node_filter) :
    list filter_option * list filter_option :=
  (buildUserFilterOptions rows metric palette,
   buildNodeFilterOptions rows metric role visibleStages palette None selectedNodes).

Record flow_options := FlowOptions {
  op_role : option flow_role;
  op_selectedUsers : list str;
  op_selectedNodes : list node_filter;
  op_colorPalette : option (list str);
  op_visibleStages : option (list flow_kind);
  op_deletedTokenLabel : option (number -> str);
  op_graph : graph_options;
}.

Record processed_flow := ProcessedFlow {
  pf_summary : flow_metrics;
  pf_flow : list flow_node * list flow_link;
  pf_users : list filter_option;
  pf_nodes : list filter_option;
}.

Definition buildDashboardFlowData (rows : list flow_row) (metric : flow_metric) (options : flow_options) : processed_flow :=
  let role := default Role_user (op_role options) in
  let palette := op_colorPalette options in
  let ctx := op_deletedTokenLabel options in
  let stages := resolveVisibleStages role (op_visibleStages options) in
  let userFilteredRows := filterRows rows (op_selectedUsers options) in
  let filteredRows := filterRowsByNodes userFilteredRows (op_selectedNodes options) stages ctx in
  ProcessedFlow (buildSummary filteredRows)
    (buildFlowGraph filteredRows metric role palette (op_visibleStages options) ctx (op_graph options))
    (buildUserFilterOptions rows metric palette)
    (buildNodeFilterOptions userFilteredRows metric role (op_visibleStages options) palette ctx (op_selectedNodes options)).
End colours.

(** * An example *)

(** The requests of a token, in a group, for a model. *)
Definition token_row (token group model : str) (requests : Z) : flow_row :=
  FlowRow None None None (Some group) None (Some token) None None (Some model) None (Some (n_of_Z requests)) None.

Definition sample_flow_rows : list flow_row :=
  [token_row (js "ci") (js "default") (js "gpt-4o") 5; token_row (js "web") (js "default") (js "gpt-4o") 7; token_row (js "web") (js "vip") (js "claude") 2;
   token_row (js "bot") (js "vip") (js "claude") 1].

Definition sample_graph_options (limit : Z) (overflow : flow_overflow) (mask : bool) : graph_options :=
  GraphOptions (Some (n_of_Z limit)) (Some overflow) None None None mask.

Definition one_color : ChartColors := fun _ => [js "#1664FF"].

Definition sample_graph (limit : Z) (overflow : flow_overflow) (mask : bool) : list flow_node * list flow_link :=
  buildFlowGraph (colours := one_color) (collation := ascii_collation) sample_flow_rows M_requests Role_user None None None
    (sample_graph_options limit overflow mask).
