(* ===== verification/DashboardFlowFacts.v ===== *)
(** Facts about the flow chart: totals in a map, paths through the stages, and sums of natural
    numbers. *)

From S2P Require Import Prelude JsString JsNumber JsNumberOrder JsValue BillingTypes JsJson TaskExpr Currency JsSort DashboardFlow.

(** * Maps of totals *)

(** A fold that makes an entry for the first item of a key and updates it for the others. *)
Section upsert.
Context {I V : Type} (key : I -> str) (init : I -> V) (bump : I -> V -> V).

Definition upsert (m : list (str * V)) (i : I) : list (str * V) :=
  obj_set (key i) (bump i (default (init i) (obj_get (key i) m))) m.

Definition of_key (k : str) (items : list I) : list I := List.filter (fun i => bool_decide (key i = k)) items.

Lemma upsert_get items k :
  obj_get k (fold_left upsert items []) =
  match of_key k items with
  | [] => None
  | first :: _ => Some (fold_left (fun v i => bump i v) (of_key k items) (init first))
  end.
Proof.
  induction items as [|i items IH] using rev_ind; [done|]. rewrite fold_left_app. cbn [fold_left]. unfold upsert at 1.
  rewrite obj_get_set. unfold of_key in *. rewrite List.filter_app. cbn [List.filter].
  case_bool_decide as E.
  - subst k. rewrite bool_decide_eq_true_2 by done. rewrite IH.
    destruct (List.filter _ items) as [|first rest]; [done|]. cbn [app]. rewrite app_comm_cons, fold_left_app. done.
  - rewrite bool_decide_eq_false_2 by done. rewrite IH. by rewrite app_nil_r.
Qed.

Lemma upsert_keys items : NoDup (map fst (fold_left upsert items [])).
Proof.
  induction items as [|i items IH] using rev_ind; [constructor|]. rewrite fold_left_app. cbn [fold_left]. unfold upsert at 1.
  rewrite obj_set_fst. case_bool_decide; [done|]. apply NoDup_app. split; [done|]. split; [set_solver|apply NoDup_singleton].
Qed.

Lemma of_key_in k items i : i ∈ of_key k items <-> i ∈ items /\ key i = k.
Proof. unfold of_key. by rewrite list_elem_of_In, filter_In, <- list_elem_of_In, bool_decide_eq_true. Qed.

Lemma upsert_entry items k v : (k, v) ∈ fold_left upsert items [] <->
  exists first rest, of_key k items = first :: rest /\ v = fold_left (fun v i => bump i v) (first :: rest) (init first).
Proof.
  rewrite <- obj_get_value by apply upsert_keys. rewrite upsert_get. destruct (of_key k items) as [|first rest]; [naive_solver|].
  split; [intros [= <-]; eauto|]. by intros (f & r & [= <- <-] & ->).
Qed.
End upsert.

(** * Sums of natural numbers *)

Section sums.
#[local] Open Scope Z_scope.

Definition natural (x : number) : Prop := 0 <= trunc_Z x /\ n_of_Z (trunc_Z x) = x.
Fixpoint sum_Z (xs : list Z) : Z := match xs with [] => 0 | x :: xs' => x + sum_Z xs' end.

Lemma sum_Z_app xs ys : sum_Z (xs ++ ys) = sum_Z xs + sum_Z ys.
Proof. induction xs as [|x xs IH]; cbn; lia. Qed.

Lemma sum_Z_nonneg xs : Forall (fun x => 0 <= x) xs -> 0 <= sum_Z xs.
Proof. induction 1; cbn; lia. Qed.

Lemma sum_Z_perm xs ys : xs ≡ₚ ys -> sum_Z xs = sum_Z ys.
Proof. induction 1; cbn; lia. Qed.

Lemma sum_exact (xs : list number) : Forall natural xs -> sum_Z (map trunc_Z xs) < 2 ^ 53 ->
  fold_left n_add xs n_zero = n_of_Z (sum_Z (map trunc_Z xs)).
Proof.
  assert (forall xs acc, 0 <= acc -> Forall natural xs -> acc + sum_Z (map trunc_Z xs) < 2 ^ 53 ->
            fold_left n_add xs (n_of_Z acc) = n_of_Z (acc + sum_Z (map trunc_Z xs))) as H.
  { clear xs. intros xs. induction xs as [|x xs IH]; intros acc Ha Hn Hs; cbn [fold_left map sum_Z] in *; [by rewrite Z.add_0_r|].
    apply Forall_cons in Hn as [[Hx Ex] Hn].
    assert (0 <= sum_Z (map trunc_Z xs)) by (apply sum_Z_nonneg, Forall_map; eapply Forall_impl; [exact Hn|by intros y [? _]]).
    rewrite <- Ex at 1. rewrite add_exact by lia. rewrite IH by (done || lia). f_equal. lia. }
  intros Hn Hs. apply (H xs 0); [lia|done|done].
Qed.

(** Exchanging two sums: each path counts as often as it has a link. *)
Lemma sum_exchange {A B} (R : A -> B -> bool) (w : B -> Z) (ls : list A) (ps : list B) :
  sum_Z (map (fun l => sum_Z (map w (List.filter (R l) ps))) ls) =
  sum_Z (map (fun p => w p * Z.of_nat (length (List.filter (fun l => R l p) ls))) ps).
Proof.
  induction ps as [|p ps IH]; cbn [map sum_Z List.filter].
  - induction ls as [|l ls IH]; [done|]. cbn. done.
  - rewrite <- IH. clear IH. induction ls as [|l ls IH]; cbn [map sum_Z List.filter length]; [lia|].
    destruct (R l p); cbn [map sum_Z length]; rewrite ?Nat2Z.inj_succ, ?Z.mul_succ_r; lia.
Qed.

Lemma sum_filter {B} (Q : B -> bool) (w : B -> Z) (ps : list B) :
  sum_Z (map (fun p => w p * (if Q p then 1 else 0)) ps) = sum_Z (map w (List.filter Q ps)).
Proof. induction ps as [|p ps IH]; [done|]. cbn. destruct (Q p); cbn; lia. Qed.

Lemma trunc_of_Z z : 0 <= z < 2 ^ 53 -> trunc_Z (n_of_Z z) = z.
Proof.
  intros Hz. destruct z as [|a|a]; [done| |lia]. rewrite of_Z_value by lia. pose proof (digits_small a ltac:(lia)).
  set (d := Zpos (digits2_pos a)) in *. unfold trunc_Z. destruct (Z.leb_spec 0 (d - 53)) as [E|E].
  - replace (53 - d) with 0 by lia. replace (d - 53) with 0 by lia. cbn [shifted]. lia.
  - rewrite shifted_value by lia. replace (- (d - 53)) with (53 - d) by lia. apply Z.div_mul. apply Z.pow_nonzero; lia.
Qed.
End sums.

(** * Lists *)

Lemma filter_key_length {A} (f : A -> str) l k : NoDup (map f l) ->
  length (List.filter (fun x => bool_decide (f x = k)) l) = if bool_decide (k ∈ map f l) then 1 else 0.
Proof.
  induction l as [|x l IH]; [done|]. cbn [map List.filter]. intros [Hx Hn]%NoDup_cons. specialize (IH Hn).
  destruct (bool_decide (f x = k)) eqn:E; breflect.
  - subst k. rewrite (bool_decide_eq_true_2 (f x ∈ f x :: map f l)) by left.
    rewrite bool_decide_eq_false_2 in IH by done. cbn. lia.
  - rewrite IH. repeat case_bool_decide; try done; set_solver.
Qed.

(** Items of a list of lists with a key, when a list has at most one of them. *)
Lemma flat_map_keyed {A B} (items : A -> list B) (K : B -> bool) (val : B -> number) (v : A -> number) (Q : A -> bool) ps :
  (forall p, p ∈ ps -> map val (List.filter K (items p)) = if Q p then [v p] else []) ->
  map val (List.filter K (flat_map items ps)) = map v (List.filter Q ps).
Proof.
  induction ps as [|p ps IH]; intros H; [done|]. cbn [flat_map List.filter]. rewrite List.filter_app, map_app, H by left.
  rewrite IH by (intros q Hq; apply H; by right). by destruct (Q p).
Qed.

Lemma singleton_length {A} (l : list A) x : NoDup l -> (forall y, y ∈ l <-> y = x) -> length l = 1.
Proof.
  intros Hn Hx. assert (l ≡ₚ [x]) as ->; [|done]. apply NoDup_Permutation; [done|apply NoDup_singleton|]. intros y.
  rewrite Hx. by rewrite list_elem_of_singleton.
Qed.

Lemma filter_sublist_list {A} (Q : A -> bool) (l : list A) : List.filter Q l `sublist_of` l.
Proof. induction l as [|x l IH]; [done|]. cbn. destruct (Q x); by constructor. Qed.

Lemma fmap_sublist {A B} (f : A -> B) (l k : list A) : l `sublist_of` k -> map f l `sublist_of` map f k.
Proof. induction 1; by constructor. Qed.

Lemma filter_map_list {A B} (f : A -> B) (Q : B -> bool) (l : list A) :
  List.filter Q (map f l) = map f (List.filter (fun x => Q (f x)) l).
Proof. induction l as [|x l IH]; [done|]. cbn. rewrite IH. by destruct (Q (f x)). Qed.

Lemma filter_perm {A} (Q : A -> bool) (l k : list A) : l ≡ₚ k -> List.filter Q l ≡ₚ List.filter Q k.
Proof.
  induction 1 as [|x l k _ IH|x y l|l k m _ IH1 _ IH2]; cbn; [done| | |by etrans].
  - by destruct (Q x); rewrite IH.
  - destruct (Q x), (Q y); try done. constructor.
Qed.

(** * Paths *)

Definition kind_prefix (kind : flow_kind) : str := kind_name kind ++ js ":".

Lemma kind_prefix_inj k k' r r' : kind_prefix k ++ r = kind_prefix k' ++ r' -> k = k'.
Proof. destruct k, k'; try done; intros H; vm_compute in H; discriminate. Qed.

(** A path has a node for each stage, in order, whose id starts with the name of its kind. *)
Definition named (n : path_node) : Prop := exists r, pn_id n = kind_prefix (pn_kind n) ++ r.
Definition staged (stages : list flow_kind) (path : list path_node) : Prop := map pn_kind path = stages /\ Forall named path.

Lemma builder_kind kind row ctx : pn_kind (NODE_BUILDERS kind row ctx) = kind.
Proof. by destruct kind. Qed.
Lemma builder_named kind row ctx : named (NODE_BUILDERS kind row ctx).
Proof. destruct kind; by eexists. Qed.
Lemma other_named kind labeler : named (otherFlowNode kind labeler).
Proof. exists (js "__other__"). destruct kind; reflexivity. Qed.

Lemma path_staged row stages ctx : staged stages (flowPathForStages row stages ctx).
Proof.
  unfold flowPathForStages. split.
  - rewrite map_map. rewrite <- map_id. apply map_ext. intros k. apply builder_kind.
  - apply Forall_map, Forall_forall. intros k _. apply builder_named.
Qed.

Lemma limited_staged stages path sets mode labeler path' : staged stages path ->
  applyTopNodeLimit path sets mode labeler = Some path' -> staged stages path'.
Proof.
  intros [Hk Hn] H. unfold applyTopNodeLimit in H. destruct sets as [sets|]; [|by simplify_eq].
  destruct (negb _); [by simplify_eq|]. destruct mode; [|done]. injection H as <-. split.
  - rewrite map_map, <- Hk. apply map_ext. intros n. by destruct (isTopFlowNode n sets).
  - apply Forall_map. eapply Forall_impl; [exact Hn|]. intros n H. cbn. destruct (isTopFlowNode n sets); [done|apply other_named].
Qed.

Lemma prepared_staged {collation : Collation} rows metric stages ctx options :
  Forall (fun p => staged stages (pp_path p)) (preparePaths rows metric stages ctx options).
Proof.
  apply Forall_forall. intros p (row & _ & H)%list_elem_of_omap. destruct (applyTopNodeLimit _ _ _ _) as [path|] eqn:E; [|done].
  injection H as <-. cbn. eapply limited_staged; [apply path_staged|done].
Qed.

Lemma stages_ok role visible : NoDup (resolveVisibleStages role visible) /\ 2 <= length (resolveVisibleStages role visible).
Proof.
  assert (NoDup (getFlowStages role) /\ 2 <= length (getFlowStages role)) as [H1 H2].
  { destruct role; (split; [apply (bool_decide_unpack _); vm_compute; exact I|cbn; lia]). }
  unfold resolveVisibleStages. destruct visible as [visible|]; [|done]. case_bool_decide as E; [|done].
  split; [|exact E]. by apply NoDup_ListNoDup, List.NoDup_filter, NoDup_ListNoDup.
Qed.

(** In a staged path an id stands for its kind. *)
Lemma named_kind n n' : named n -> named n' -> pn_id n = pn_id n' -> pn_kind n = pn_kind n'.
Proof. intros [r E] [r' E'] H. rewrite E, E' in H. by apply kind_prefix_inj in H. Qed.

Lemma staged_ids stages path : NoDup stages -> staged stages path -> NoDup (map pn_id path).
Proof.
  intros Hs [Hk Hn]. rewrite <- Hk in Hs. clear Hk. induction Hn as [|n path Hn Hp IH]; [constructor|].
  cbn [map] in *. apply NoDup_cons in Hs as [Hnk Hs]. apply NoDup_cons. split; [|by apply IH].
  intros (n' & E & Hin)%list_elem_of_fmap. apply Hnk. rewrite Forall_forall in Hp.
  rewrite (named_kind n n') by auto. by apply list_elem_of_fmap_2.
Qed.

(** The id pairs of the links of a path. *)
Definition id_pairs (path : list path_node) : list (str * str) := map (fun l => (pn_id l.1, pn_id l.2)) (path_links path).

Lemma pairs_sources path : map fst (id_pairs path) = removelast (map pn_id path).
Proof.
  unfold id_pairs. rewrite map_map. cbn [fst]. induction path as [|n [|n' path] IH]; [done|done|].
  cbn [path_links map] in *. rewrite IH. done.
Qed.
Lemma pairs_targets path : map snd (id_pairs path) = tail (map pn_id path).
Proof.
  unfold id_pairs. rewrite map_map. cbn [snd]. induction path as [|n [|n' path] IH]; [done|done|].
  cbn [path_links map tail] in *. by rewrite IH.
Qed.

Lemma link_key_inj s t s' t' : (0%N ∉ s) -> (0%N ∉ s') -> link_key s t = link_key s' t' -> s = s' /\ t = t'.
Proof.
  revert s'. induction s as [|c s IH]; intros s' Hs Hs' H; destruct s' as [|c' s']; cbn in H.
  - by injection H as ->.
  - injection H as <- _. exfalso. apply Hs'. left.
  - injection H as -> _. exfalso. apply Hs. left.
  - injection H as <- H. destruct (IH s') as [-> ->]; set_solver.
Qed.

(** * The graph *)

Section graph.
Context {colours : ChartColors} {collation : Collation}.
Variables (metric : flow_metric) (colors : list (str * str)) (palette : option (list str)).
Implicit Types (p : prepared_path) (ps : list prepared_path).

Definition root_id p : str := default [] (pn_id <$> head (pp_path p)).
Definition path_color p : str := default (colorAt 0 palette) (obj_get (root_id p) colors).

Definition node_item : Type := prepared_path * path_node.
Definition node_init (i : node_item) : flow_node :=
  FlowNode (pn_id i.2) (pn_label i.2) (pn_kind i.2) n_zero no_metrics (path_color i.1) (root_id i.1) None None.
Definition node_bump (i : node_item) (v : flow_node) : flow_node :=
  FlowNode (fn_id v) (fn_label v) (fn_kind v) (n_add (fn_value v) (metricValue (pp_metrics i.1) metric))
    (add_metrics (fn_metrics v) (pp_metrics i.1)) (fn_color v) (fn_colorKey v) (fn_highlighted v) (fn_dimmed v).
Definition node_items p : list node_item := map (fun n => (p, n)) (pp_path p).

Definition link_item : Type := prepared_path * (path_node * path_node).
Definition link_item_key (i : link_item) : str := pathLinkKey i.2.1 i.2.2.
Definition link_init (i : link_item) : flow_link :=
  FlowLink (pn_id i.2.1) (pn_id i.2.2) n_zero no_metrics (pn_label i.2.1) (pn_label i.2.2) (path_color i.1) (path_color i.1)
    n_one (path_color i.1) (root_id i.1) n_zero None None.
Definition link_bump (i : link_item) (v : flow_link) : flow_link :=
  FlowLink (fl_source v) (fl_target v) (n_add (fl_value v) (metricValue (pp_metrics i.1) metric))
    (add_metrics (fl_metrics v) (pp_metrics i.1)) (fl_sourceLabel v) (fl_targetLabel v) (fl_color v) (fl_linkColor v)
    (fl_linkAlpha v) (fl_hoverColor v) (fl_colorKey v) (fl_share v) (fl_highlighted v) (fl_dimmed v).
Definition link_items p : list link_item := map (fun l => (p, l)) (path_links (pp_path p)).

Definition node_key (i : node_item) : str := pn_id i.2.
Definition add_node : list (str * flow_node) -> node_item -> list (str * flow_node) := upsert node_key node_init node_bump.
Definition add_link : list (str * flow_link) -> link_item -> list (str * flow_link) := upsert link_item_key link_init link_bump.

(** The two maps are folds over all nodes and all links of the paths. *)
Lemma graph_folds ps :
  fold_left (add_path metric colors palette) ps ([], []) =
  (fold_left add_node (flat_map node_items ps) [], fold_left add_link (flat_map link_items ps) []).
Proof.
  induction ps as [|p ps IH] using rev_ind; [done|].
  rewrite fold_left_app, !flat_map_app, !fold_left_app, IH. cbn [fold_left flat_map]. rewrite !app_nil_r.
  set (ns := fold_left add_node _ _). set (ls := fold_left add_link _ _). unfold add_path, node_items, link_items.
  destruct p as [path metrics]. cbn [pp_path pp_metrics]. destruct path as [|root path]; [done|]. cbn [fst snd].
  set (p := PreparedPath (root :: path) metrics). set (whole := root :: path).
  assert (forall ns l, fold_left (fun nodes node => addNode nodes node metrics metric
      (default (colorAt 0 palette) (obj_get (pn_id root) colors)) (pn_id root)) l ns =
    fold_left add_node (map (fun n => (p, n)) l) ns) as ->.
  { clear. intros ns l. revert ns. induction l as [|n l IH]; intros ns; [done|]. apply IH. }
  assert (forall ls l, fold_left (fun links l => addLink links l.1 l.2 metrics metric
      (default (colorAt 0 palette) (obj_get (pn_id root) colors)) (pn_id root)) l ls =
    fold_left add_link (map (fun l => (p, l)) l) ls) as ->; [|done].
  clear. intros ls l. revert ls. induction l as [|n l IH]; intros ls; [done|]. apply IH.
Qed.

Definition path_value p : number := metricValue (pp_metrics p) metric.
Definition visits (id : str) p : bool := bool_decide (id ∈ map pn_id (pp_path p)).
Definition follows (s t : str) p : bool := bool_decide ((s, t) ∈ id_pairs (pp_path p)).

Lemma node_bump_fold items v :
  fold_left (fun v i => node_bump i v) items v =
  FlowNode (fn_id v) (fn_label v) (fn_kind v) (fold_left n_add (map (fun i => path_value i.1) items) (fn_value v))
    (fold_left add_metrics (map (fun i => pp_metrics i.1) items) (fn_metrics v)) (fn_color v) (fn_colorKey v)
    (fn_highlighted v) (fn_dimmed v).
Proof. revert v. induction items as [|i items IH]; intros v; [by destruct v|]. cbn [fold_left map]. by rewrite IH. Qed.

Lemma link_bump_fold items v :
  fold_left (fun v i => link_bump i v) items v =
  FlowLink (fl_source v) (fl_target v) (fold_left n_add (map (fun i => path_value i.1) items) (fl_value v))
    (fold_left add_metrics (map (fun i => pp_metrics i.1) items) (fl_metrics v)) (fl_sourceLabel v) (fl_targetLabel v)
    (fl_color v) (fl_linkColor v) (fl_linkAlpha v) (fl_hoverColor v) (fl_colorKey v) (fl_share v) (fl_highlighted v) (fl_dimmed v).
Proof. revert v. induction items as [|i items IH]; intros v; [by destruct v|]. cbn [fold_left map]. by rewrite IH. Qed.

(** Every path goes through the stages, and no id holds the separator of link keys. *)
Definition plain p : Prop := Forall (fun n => 0%N ∉ pn_id n) (pp_path p).

Lemma link_ends p l : l ∈ path_links (pp_path p) -> l.1 ∈ pp_path p /\ l.2 ∈ pp_path p.
Proof.
  generalize (pp_path p). intros path. induction path as [|n [|n' path] IH]; cbn [path_links];
    [by intros ?%not_elem_of_nil|by intros ?%not_elem_of_nil|].
  intros [->|H]%elem_of_cons; [cbn; set_solver|]. apply IH in H as [H1 H2]. set_solver.
Qed.

Section entries.
Variables (stages : list flow_kind) (ps : list prepared_path).
Hypothesis stages_distinct : NoDup stages.
Hypothesis paths_staged : Forall (fun p => staged stages (pp_path p)) ps.
Hypothesis paths_plain : Forall plain ps.

Definition graph_nodes : list (str * flow_node) := fold_left add_node (flat_map node_items ps) [].
Definition graph_links : list (str * flow_link) := fold_left add_link (flat_map link_items ps) [].

Lemma node_values k :
  map (fun i => path_value i.1) (of_key node_key k (flat_map node_items ps)) = map path_value (List.filter (visits k) ps).
Proof.
  unfold of_key. apply flat_map_keyed. intros p Hp. rewrite Forall_forall in paths_staged.
  pose proof (staged_ids stages _ stages_distinct (paths_staged p Hp)) as Hn. unfold node_items, visits.
  pose proof (filter_key_length pn_id (pp_path p) k Hn) as Hl.
  transitivity (replicate (length (List.filter (fun n => bool_decide (pn_id n = k)) (pp_path p))) (path_value p)).
  { clear. generalize (pp_path p). intros l. induction l as [|n l IH]; [done|]. cbn [map List.filter node_key snd].
    change (node_key (p, n)) with (pn_id n). case_bool_decide; cbn [map length replicate fst]; by rewrite IH. }
  rewrite Hl. by case_bool_decide.
Qed.

Lemma pair_key_length p s t : p ∈ ps -> 0%N ∉ s ->
  length (List.filter (fun l => bool_decide (pathLinkKey l.1 l.2 = link_key s t)) (path_links (pp_path p))) =
  if follows s t p then 1 else 0.
Proof.
  intros Hp Hs. rewrite Forall_forall in paths_staged, paths_plain. pose proof (paths_plain p Hp) as Hpl.
  pose proof (staged_ids stages _ stages_distinct (paths_staged p Hp)) as Hn. unfold follows.
  assert (NoDup (map fst (id_pairs (pp_path p)))) as Hnp.
  { rewrite pairs_sources. clear -Hn. revert Hn. generalize (map pn_id (pp_path p)). intros l Hn.
    destruct l as [|x l _] using rev_ind; [constructor|]. rewrite removelast_last. by apply NoDup_app in Hn as [Hn _]. }
  assert (forall l, l ∈ path_links (pp_path p) -> (pathLinkKey l.1 l.2 = link_key s t <-> (pn_id l.1, pn_id l.2) = (s, t))) as Hk.
  { intros l Hl. unfold pathLinkKey. split; [|by intros [= -> ->]]. intros H. apply link_key_inj in H as [-> ->]; [done| |done].
    unfold plain in Hpl. rewrite Forall_forall in Hpl. apply Hpl. clear -Hl. revert Hl. generalize (pp_path p).
    intros path. induction path as [|n [|n' path] IH]; cbn [path_links]; [by intros ?%not_elem_of_nil|by intros ?%not_elem_of_nil|].
    intros [->|H]%elem_of_cons; [left|right]. by apply IH. }
  revert Hnp Hk. unfold id_pairs. generalize (path_links (pp_path p)). clear. intros ls.
  induction ls as [|l ls IH]; intros Hn Hk; [done|]. cbn [map] in Hn |- *. cbn [List.filter].
  apply NoDup_cons in Hn as [Hl Hn]. specialize (IH Hn ltac:(intros l' Hl'; apply Hk; by right)).
  destruct (bool_decide (pathLinkKey l.1 l.2 = link_key s t)) eqn:E.
  - apply bool_decide_eq_true, Hk in E; [|left]. rewrite E. rewrite bool_decide_eq_true_2 by left.
    cbn [length]. rewrite IH, bool_decide_eq_false_2; [done|]. intros Hin. apply Hl. injection E as -> ->.
    apply (list_elem_of_fmap_2 fst) in Hin. done.
  - apply bool_decide_eq_false in E. rewrite IH. rewrite Hk in E by left.
    repeat case_bool_decide; try done; set_solver.
Qed.

Lemma link_values s t : 0%N ∉ s ->
  map (fun i => path_value i.1) (of_key link_item_key (link_key s t) (flat_map link_items ps)) =
  map path_value (List.filter (follows s t) ps).
Proof.
  intros Hs. unfold of_key. apply flat_map_keyed. intros p Hp. pose proof (pair_key_length p s t Hp Hs) as Hl. unfold link_items.
  transitivity (replicate (length (List.filter (fun l => bool_decide (pathLinkKey l.1 l.2 = link_key s t)) (path_links (pp_path p))))
                  (path_value p)).
  { clear. generalize (path_links (pp_path p)). intros l. induction l as [|x l IH]; [done|]. cbn [map List.filter].
    change (link_item_key (p, x)) with (pathLinkKey x.1 x.2). case_bool_decide; cbn [map length replicate fst]; by rewrite IH. }
  rewrite Hl. by destruct (follows s t p).
Qed.

Definition total_of (Q : prepared_path -> bool) : number := fold_left n_add (map path_value (List.filter Q ps)) n_zero.

Lemma in_node_items i : i ∈ flat_map node_items ps <-> i.1 ∈ ps /\ i.2 ∈ pp_path i.1.
Proof.
  split.
  - intros H. apply list_elem_of_In, in_flat_map in H as (p & Hp & Hi). apply list_elem_of_In in Hp, Hi.
    by apply list_elem_of_fmap in Hi as (n & -> & Hn).
  - intros [Hp Hn]. apply list_elem_of_In, in_flat_map. exists i.1. split; [by apply list_elem_of_In|].
    apply list_elem_of_In, list_elem_of_fmap. exists i.2. by destruct i.
Qed.

Lemma in_link_items i : i ∈ flat_map link_items ps <-> i.1 ∈ ps /\ i.2 ∈ path_links (pp_path i.1).
Proof.
  split.
  - intros H. apply list_elem_of_In, in_flat_map in H as (p & Hp & Hi). apply list_elem_of_In in Hp, Hi.
    by apply list_elem_of_fmap in Hi as (n & -> & Hn).
  - intros [Hp Hn]. apply list_elem_of_In, in_flat_map. exists i.1. split; [by apply list_elem_of_In|].
    apply list_elem_of_In, list_elem_of_fmap. exists i.2. by destruct i.
Qed.

Lemma node_entry k n : (k, n) ∈ graph_nodes ->
  fn_id n = k /\ fn_value n = total_of (visits k) /\
  exists p m, p ∈ ps /\ m ∈ pp_path p /\ pn_id m = k /\ pn_kind m = fn_kind n /\ pn_label m = fn_label n.
Proof.
  intros (first & rest & Hk & ->)%upsert_entry. rewrite node_bump_fold. cbn [fn_id fn_value fn_kind fn_label node_init].
  assert (first ∈ of_key node_key k (flat_map node_items ps)) as Hf by (rewrite Hk; left).
  apply of_key_in in Hf as [Hf Ek]. apply in_node_items in Hf as [Hp Hm]. rewrite <- Hk. split; [done|].
  split; [unfold total_of; by rewrite <- node_values|]. by exists first.1, first.2.
Qed.

Lemma node_present p m : p ∈ ps -> m ∈ pp_path p -> exists n, (pn_id m, n) ∈ graph_nodes.
Proof.
  intros Hp Hm. unfold graph_nodes. setoid_rewrite upsert_entry.
  assert ((p, m) ∈ of_key node_key (pn_id m) (flat_map node_items ps)) as Hi by (apply of_key_in; split; [by apply in_node_items|done]).
  destruct (of_key _ _ _) as [|first rest]; [by apply not_elem_of_nil in Hi|]. eauto.
Qed.

Lemma pair_plain p s t : p ∈ ps -> (s, t) ∈ id_pairs (pp_path p) -> 0%N ∉ s.
Proof.
  intros Hp (l & E & Hl)%list_elem_of_fmap. injection E as -> _. apply link_ends in Hl as [Hl _].
  rewrite Forall_forall in paths_plain. pose proof (paths_plain p Hp) as H. unfold plain in H. rewrite Forall_forall in H. by apply H.
Qed.

Lemma link_entry k l : (k, l) ∈ graph_links ->
  k = link_key (fl_source l) (fl_target l) /\ (0%N ∉ fl_source l) /\ fl_value l = total_of (follows (fl_source l) (fl_target l)) /\
  exists p, p ∈ ps /\ (fl_source l, fl_target l) ∈ id_pairs (pp_path p).
Proof.
  intros (first & rest & Hk & ->)%upsert_entry. rewrite link_bump_fold. cbn [fl_source fl_target fl_value link_init].
  assert (first ∈ of_key link_item_key k (flat_map link_items ps)) as Hf by (rewrite Hk; left).
  apply of_key_in in Hf as [Hf Ek]. apply in_link_items in Hf as [Hp Hm].
  assert ((pn_id first.2.1, pn_id first.2.2) ∈ id_pairs (pp_path first.1)) as Hpair by (apply list_elem_of_fmap; eauto).
  pose proof (pair_plain _ _ _ Hp Hpair) as H0. split; [done|]. split; [done|]. split; [|eauto].
  rewrite <- Hk, <- Ek. unfold total_of. by rewrite <- link_values.
Qed.

Lemma link_present p s t : p ∈ ps -> (s, t) ∈ id_pairs (pp_path p) ->
  exists l, (link_key s t, l) ∈ graph_links /\ fl_source l = s /\ fl_target l = t.
Proof.
  intros Hp Hst. pose proof (pair_plain _ _ _ Hp Hst) as Hs. pose proof Hst as (x & E & Hx)%list_elem_of_fmap. injection E as -> ->.
  assert ((p, x) ∈ of_key link_item_key (link_key (pn_id x.1) (pn_id x.2)) (flat_map link_items ps)) as Hi
    by (apply of_key_in; split; [by apply in_link_items|done]).
  destruct (of_key _ _ _) as [|first rest] eqn:Ef; [by apply not_elem_of_nil in Hi|].
  eexists. split; [apply upsert_entry; by exists first, rest|].
  rewrite link_bump_fold. cbn [fl_source fl_target link_init].
  assert (first ∈ of_key link_item_key (link_key (pn_id x.1) (pn_id x.2)) (flat_map link_items ps)) as Hf by (rewrite Ef; left).
  apply of_key_in in Hf as [Hf Ek]. apply in_link_items in Hf as [Hp' Hm].
  apply link_key_inj in Ek; [done| |done]. eapply pair_plain; [exact Hp'|]. apply list_elem_of_fmap. eauto.
Qed.

(** * Conservation *)

#[local] Open Scope Z_scope.

Definition weight (p : prepared_path) : Z := trunc_Z (path_value p).
Hypothesis values_natural : Forall (fun p => natural (path_value p)) ps.
Hypothesis values_small : sum_Z (map weight ps) < 2 ^ 53.

Lemma weight_nonneg qs : Forall (fun p => natural (path_value p)) qs -> 0 <= sum_Z (map weight qs).
Proof. intros H. apply sum_Z_nonneg, Forall_map. eapply Forall_impl; [exact H|]. by intros p [? _]. Qed.

Lemma part_small (Q : prepared_path -> bool) : 0 <= sum_Z (map weight (List.filter Q ps)) <= sum_Z (map weight ps).
Proof.
  clear -values_natural. induction values_natural as [|p qs Hp Hq IH]; [cbn; lia|]. destruct Hp as [Hp _].
  specialize (IH Hq). pose proof (weight_nonneg qs Hq). cbn [List.filter map sum_Z]. fold (weight p) in Hp. destruct (Q p); cbn [map sum_Z]; lia.
Qed.

Lemma total_exact (Q : prepared_path -> bool) : total_of Q = n_of_Z (sum_Z (map weight (List.filter Q ps))).
Proof.
  unfold total_of. pose proof (part_small Q). pose proof (map_map path_value trunc_Z (List.filter Q ps)) as Hm.
  change (fun x => trunc_Z (path_value x)) with weight in Hm. rewrite sum_exact; rewrite ?Hm; [done| |lia].
  apply Forall_map, Forall_forall. intros p Hp. apply list_elem_of_In, filter_In in Hp as [Hp _].
  rewrite Forall_forall in values_natural. by apply values_natural, list_elem_of_In.
Qed.

Lemma total_trunc (Q : prepared_path -> bool) : trunc_Z (total_of Q) = sum_Z (map weight (List.filter Q ps)).
Proof. rewrite total_exact. apply trunc_of_Z. pose proof (part_small Q). lia. Qed.

Definition link_pair (l : flow_link) : str * str := (fl_source l, fl_target l).

Lemma links_distinct : NoDup (map link_pair (map snd graph_links)).
Proof.
  pose proof (upsert_keys link_item_key link_init link_bump (flat_map link_items ps)) as Hn. fold add_link graph_links in Hn.
  rewrite map_map. 
  assert (map fst graph_links = map (fun e => link_key (link_pair e.2).1 (link_pair e.2).2) graph_links) as Hk.
  { apply map_ext_in. intros [k l] He. apply list_elem_of_In, link_entry in He as (-> & _). done. }
  rewrite Hk in Hn. clear Hk. revert Hn. generalize graph_links. intros ls. induction ls as [|e ls IH]; intros Hn; [constructor|].
  cbn [map] in *. apply NoDup_cons in Hn as [He Hn]. apply NoDup_cons. split; [|by apply IH]. intros Hin. apply He.
  apply list_elem_of_fmap in Hin as (e' & E & Hin). apply list_elem_of_fmap. exists e'. by rewrite E.
Qed.

(** The links at one side of a node carry what the node carries, when every path through the
    node has exactly one such link. *)
Lemma side_conserved (side : str * str -> str) id :
  (forall p, p ∈ ps -> visits id p = true -> exists x, x ∈ id_pairs (pp_path p) /\ side x = id) ->
  (forall p x, p ∈ ps -> x ∈ id_pairs (pp_path p) -> side x = id -> visits id p = true) ->
  (forall p, p ∈ ps -> NoDup (map side (id_pairs (pp_path p)))) ->
  sum_Z (map (fun l => trunc_Z (fl_value l)) (List.filter (fun l => bool_decide (side (link_pair l) = id)) (map snd graph_links))) =
  sum_Z (map weight (List.filter (visits id) ps)).
Proof.
  intros Hex Hin Hnd. set (L := List.filter _ _).
  assert (forall l, l ∈ L -> (link_key (fl_source l) (fl_target l), l) ∈ graph_links /\ side (link_pair l) = id) as HL.
  { intros l Hl. apply list_elem_of_In, filter_In in Hl as [Hl Hs]. apply bool_decide_eq_true in Hs. split; [|done].
    apply list_elem_of_In, list_elem_of_fmap in Hl as ([k l'] & E & Hl). cbn in E. subst l'. by destruct (link_entry k l Hl) as (-> & _). }
  assert (map (fun l => trunc_Z (fl_value l)) L =
          map (fun l => sum_Z (map weight (List.filter (follows (fl_source l) (fl_target l)) ps))) L) as ->.
  { apply map_ext_in. intros l Hl. apply list_elem_of_In, HL in Hl as [Hl _]. apply link_entry in Hl as (_ & _ & -> & _).
    apply total_trunc. }
  rewrite (sum_exchange (fun l => follows (fl_source l) (fl_target l))), <- sum_filter. f_equal. apply map_ext_in.
  intros p Hp. apply list_elem_of_In in Hp. f_equal.
  set (F := List.filter (fun l => follows (fl_source l) (fl_target l) p) L).
  assert (NoDup (map link_pair F)) as HF.
  { subst F L. apply NoDup_ListNoDup. pose proof links_distinct as Hd. apply NoDup_ListNoDup in Hd. revert Hd. clear.
    generalize (map snd graph_links). intros ls Hd. apply NoDup_ListNoDup in Hd. apply NoDup_ListNoDup.
    induction ls as [|l ls IH]; [constructor|]. cbn [map] in Hd. apply NoDup_cons in Hd as [Hl Hd]. specialize (IH Hd).
    assert (forall x, x ∈ map link_pair (List.filter (fun l => follows (fl_source l) (fl_target l) p)
              (List.filter (fun l => bool_decide (side (link_pair l) = id)) ls)) -> x ∈ map link_pair ls) as Hs.
    { intros x (y & -> & Hy)%list_elem_of_fmap. apply list_elem_of_In, filter_In in Hy as [Hy _].
      apply filter_In in Hy as [Hy _]. apply list_elem_of_fmap. exists y. split; [done|]. by apply list_elem_of_In. }
    cbn [List.filter]. destruct (bool_decide _); [|done]. cbn [List.filter]. destruct (follows _ _ p); [|done].
    cbn [map]. apply NoDup_cons. split; [|done]. intros Hx. by apply Hl, Hs. }
  assert (forall x, x ∈ map link_pair F <-> x ∈ id_pairs (pp_path p) /\ side x = id) as Hx.
  { intros x. split.
    - intros (l & -> & Hl)%list_elem_of_fmap. apply list_elem_of_In, filter_In in Hl as [Hl Hf].
      apply list_elem_of_In, HL in Hl as [_ Hs]. by apply bool_decide_eq_true in Hf.
    - destruct x as [s t]. intros [Hst Hs]. destruct (link_present p s t Hp Hst) as (l & Hl & <- & <-).
      apply list_elem_of_fmap. exists l. split; [done|]. apply list_elem_of_In, filter_In. split; [|by apply bool_decide_eq_true].
      apply filter_In. split; [|by apply bool_decide_eq_true]. apply list_elem_of_In, list_elem_of_fmap. by exists (link_key (fl_source l) (fl_target l), l). }
  rewrite <- (length_map link_pair F). destruct (visits id p) eqn:Ev.
  - destruct (Hex p Hp Ev) as (x & Hxp & Hxs). rewrite (singleton_length _ x HF); [done|]. intros y. rewrite Hx. split.
    + intros [Hy Hys]. pose proof (Hnd p Hp) as Hn. revert Hn Hy Hxp. clear -Hys Hxs. generalize (id_pairs (pp_path p)). intros l Hn Hy Hxp.
      apply list_elem_of_lookup in Hy as [i Hi], Hxp as [j Hj]. assert (i = j) as ->; [|congruence].
      eapply NoDup_lookup; [exact Hn|..]; rewrite list_lookup_fmap; [by rewrite Hi|]. rewrite Hj. cbn. by rewrite Hys, Hxs.
    + by intros ->.
  - destruct (map link_pair F) as [|x r]; [done|]. exfalso. destruct (proj1 (Hx x)) as [H1 H2]; [left|].
    rewrite (Hin p x Hp H1 H2) in Ev. done.
Qed.
Lemma total_natural (Q : prepared_path -> bool) : natural (total_of Q).
Proof. split; rewrite total_trunc; [apply part_small|]. by rewrite total_exact. Qed.

Lemma nodes_distinct : NoDup (map fn_id (map snd graph_nodes)).
Proof.
  pose proof (upsert_keys node_key node_init node_bump (flat_map node_items ps)) as Hn. fold add_node graph_nodes in Hn.
  rewrite map_map. assert (map (fun e => fn_id e.2) graph_nodes = map fst graph_nodes) as ->; [|done].
  apply map_ext_in. intros [k n] He. by apply list_elem_of_In, node_entry in He as [He _].
Qed.

(** A path has one node of a stage, and its id stands for no node of another stage. *)
Lemma stage_node p stage : p ∈ ps -> stage ∈ stages -> exists m, m ∈ pp_path p /\ pn_kind m = stage /\
  forall m', m' ∈ pp_path p -> pn_kind m' = stage -> m' = m.
Proof.
  intros Hp Hs. rewrite Forall_forall in paths_staged. destruct (paths_staged p Hp) as [Hk _]. revert Hs Hk stages_distinct. clear.
  intros Hs <- Hn. apply list_elem_of_fmap in Hs as (m & -> & Hm). exists m. split; [done|]. split; [done|].
  intros m' Hm' E. apply list_elem_of_lookup in Hm as [i Hi], Hm' as [j Hj]. assert (i = j) as ->; [|congruence].
  eapply NoDup_lookup; [exact Hn|..]; rewrite list_lookup_fmap; [by rewrite Hi|]. rewrite Hj. cbn. by rewrite E.
Qed.

Lemma path_named p m : p ∈ ps -> m ∈ pp_path p -> named m.
Proof.
  intros Hp Hm. rewrite Forall_forall in paths_staged. destruct (paths_staged p Hp) as [_ Hn].
  rewrite Forall_forall in Hn. by apply Hn.
Qed.

(** The nodes of a stage carry all paths. *)
Lemma stage_conserved stage : stage ∈ stages ->
  sum_Z (map (fun n => trunc_Z (fn_value n)) (List.filter (fun n => bool_decide (fn_kind n = stage)) (map snd graph_nodes))) =
  sum_Z (map weight ps).
Proof.
  intros Hs. set (N := List.filter _ _).
  assert (forall n, n ∈ N <-> (fn_id n, n) ∈ graph_nodes /\ fn_kind n = stage) as HN.
  { intros n. unfold N. rewrite list_elem_of_In, filter_In, <- list_elem_of_In, bool_decide_eq_true. split; intros [H1 H2].
    - apply list_elem_of_fmap in H1 as ([k n'] & -> & H1). cbn. by destruct (node_entry k n' H1) as (-> & _).
    - split; [|done]. apply list_elem_of_fmap. by exists (fn_id n, n). }
  assert (map (fun n => trunc_Z (fn_value n)) N = map (fun n => sum_Z (map weight (List.filter (visits (fn_id n)) ps))) N) as ->.
  { apply map_ext_in. intros n Hn. apply list_elem_of_In, HN in Hn as [Hn _]. apply node_entry in Hn as (_ & -> & _).
    apply total_trunc. }
  rewrite (sum_exchange (fun n => visits (fn_id n))). f_equal. apply map_ext_in. intros p Hp. apply list_elem_of_In in Hp.
  destruct (stage_node p stage Hp Hs) as (m & Hm & Ek & Hu).
  set (F := List.filter (fun n => visits (fn_id n) p) N).
  assert (NoDup (map fn_id F)) as HF.
  { apply (sublist_NoDup _ (map fn_id (map snd graph_nodes))); [apply nodes_distinct|].
    apply fmap_sublist. unfold F, N. etrans; apply filter_sublist_list. }
  rewrite <- (length_map fn_id F), (singleton_length _ (pn_id m) HF); [lia|]. intros y. split.
  - intros (n & -> & Hn)%list_elem_of_fmap. apply list_elem_of_In, filter_In in Hn as [Hn Hv].
    apply list_elem_of_In, HN in Hn as [Hn Hk]. apply bool_decide_eq_true, list_elem_of_fmap in Hv as (m' & E & Hm').
    apply node_entry in Hn as (_ & _ & q & m2 & Hq & Hm2 & E2 & Ek2 & _). rewrite E. f_equal. apply Hu; [done|].
    rewrite <- Hk, <- Ek2. apply named_kind; [by apply (path_named p)|by apply (path_named q)|]. by rewrite <- E, E2.
  - intros ->. destruct (node_present p m Hp Hm) as [n Hn]. pose proof (node_entry _ n Hn) as (Hi & _ & q & m2 & Hq & Hm2 & E2 & Ek2 & _).
    apply list_elem_of_fmap. exists n. split; [done|]. apply list_elem_of_In, filter_In. split.
    + apply list_elem_of_In, HN. rewrite Hi. split; [done|]. rewrite <- Ek2, <- Ek.
      apply named_kind; [by apply (path_named q)|by apply (path_named p)|done].
    + apply bool_decide_eq_true. rewrite Hi. by apply list_elem_of_fmap_2.
Qed.
End entries.
End graph.
