(* ===== verification/DashboardFlowProps.v ===== *)
(** Properties of the flow chart: what flows into a node flows out of it, nothing is lost, the
    number of nodes is limited, and masked charts show no names. *)

From S2P Require Import Prelude JsString JsNumber JsNumberOrder JsValue BillingTypes JsJson TaskExpr Currency JsSort DashboardFlow DashboardFlowFacts.

#[local] Open Scope Z_scope.

(** * The shown graph and the totals *)

Definition node_core (n : flow_node) : str * flow_kind * number := (fn_id n, fn_kind n, fn_value n).
Definition link_core (l : flow_link) : str * str * number := (fl_source l, fl_target l, fl_value l).

Lemma metric_zero metric : metricValue no_metrics metric = n_zero.
Proof. by destruct metric. Qed.
Lemma metric_add a b metric : metricValue (add_metrics a b) metric = n_add (metricValue a metric) (metricValue b metric).
Proof. by destruct metric. Qed.

Lemma filter_core_perm {A C D} (core : A -> C) (Q : C -> bool) (f : C -> D) (l k : list A) : map core l ≡ₚ map core k ->
  map (fun x => f (core x)) (List.filter (fun x => Q (core x)) l) ≡ₚ map (fun x => f (core x)) (List.filter (fun x => Q (core x)) k).
Proof. intros H%(filter_perm Q). rewrite !filter_map_list in H. apply (Permutation_map f) in H. by rewrite !map_map in H. Qed.

Section shown.
Context {colours : ChartColors} {collation : Collation}.

Lemma display_core links l : link_core (link_display links l) = link_core l.
Proof. unfold link_display. by destruct (alphaColor _ _). Qed.

Lemma map_snd {A B C} (f : B -> C) (l : list (A * B)) : map snd (map (fun e => (e.1, f e.2)) l) = map f (map snd l).
Proof. by rewrite !map_map. Qed.

Lemma mask_cores nodes links :
  map node_core (map snd (maskFlowGraphLabels nodes links).1) = map node_core (map snd nodes) /\
  map link_core (map snd (maskFlowGraphLabels nodes links).2) = map link_core (map snd links).
Proof.
  unfold maskFlowGraphLabels. cbn [fst snd]. rewrite !map_snd, !map_map. split; apply map_ext; intros e; [|done].
  unfold mask_node. by destruct (is_masked e.2).
Qed.

Lemma highlight_cores nodes links sets :
  map node_core (map snd (applyFlowHighlights nodes links sets).1) = map node_core (map snd nodes) /\
  map link_core (map snd (applyFlowHighlights nodes links sets).2) = map link_core (map snd links).
Proof. destruct sets as [sets|]; [|done]. unfold applyFlowHighlights. cbn [fst snd]. by rewrite !map_snd, !map_map. Qed.

Variables (rows : list flow_row) (metric : flow_metric) (role : flow_role) (palette : option (list str))
  (visible : option (list flow_kind)) (ctx : option (number -> str)) (options : graph_options).

Let stages := resolveVisibleStages role visible.
Let paths := preparePaths rows metric stages ctx options.
Let colors := stableColorMap (sort_texts (root_ids paths)) palette.
Let graph := buildFlowGraph rows metric role palette visible ctx options.

Lemma shown_cores :
  map node_core graph.1 ≡ₚ map node_core (map snd (graph_nodes metric colors palette paths)) /\
  map link_core graph.2 ≡ₚ map link_core (map snd (graph_links metric colors palette paths)).
Proof.
  unfold graph, buildFlowGraph. fold stages paths colors. cbv zeta. rewrite graph_folds. cbn [fst snd].
  fold (graph_nodes metric colors palette paths) (graph_links metric colors palette paths).
  set (N := graph_nodes _ _ _ _). set (L := graph_links _ _ _ _).
  set (masked := if go_maskSensitive options then maskFlowGraphLabels N L else (N, L)).
  assert (map node_core (map snd masked.1) = map node_core (map snd N) /\ map link_core (map snd masked.2) = map link_core (map snd L)) as [M1 M2].
  { unfold masked. destruct (go_maskSensitive options); [apply mask_cores|done]. }
  set (sets := buildFlowHighlightSets _ _ _ _). destruct (highlight_cores masked.1 masked.2 sets) as [H1 H2].
  split.
  - by rewrite sort_with_perm, H1, M1.
  - unfold assignLinkDisplayColors. set (sorted := sort_with _ _). set (total := flow_total _ _).
    assert (map link_core (map (link_display (map (with_share total) sorted)) (map (with_share total) sorted)) =
            map link_core sorted) as ->.
    { rewrite map_map. rewrite map_map. apply map_ext. intros l. by rewrite display_core. }
    subst sorted. by rewrite sort_with_perm, H2, M2.
Qed.

Lemma shown_node n : n ∈ graph.1 -> exists n0, (fn_id n, n0) ∈ graph_nodes metric colors palette paths /\ node_core n = node_core n0.
Proof.
  intros Hn. destruct shown_cores as [H _]. apply (list_elem_of_fmap_2 node_core) in Hn. rewrite H in Hn.
  apply list_elem_of_fmap in Hn as (n0 & E & Hn). apply list_elem_of_fmap in Hn as ([k n1] & -> & Hn). cbn in *.
  exists n1. split; [|done]. pose proof Hn as Hk. injection E as E1 E2 E3. rewrite E1.
  destruct (upsert_entry node_key (node_init colors palette) (node_bump metric) (flat_map node_items paths) k n1) as [Hu _].
  destruct (Hu Hn) as (first & rest & Hf & ->). rewrite node_bump_fold. cbn.
  assert (first ∈ of_key node_key k (flat_map node_items paths)) as Hi by (rewrite Hf; left). apply of_key_in in Hi as [_ <-].
  rewrite node_bump_fold in Hk. exact Hk.
Qed.

(** ** Prepared paths of rows *)

Definition row_value (row : flow_row) : number := metricValue (rowMetrics row) metric.
(** No id holds the separator of link keys. *)
Definition row_plain (row : flow_row) : Prop := Forall (fun n => 0%N ∉ pn_id n) (flowPathForStages row stages ctx).

Lemma prepared_of_row p : p ∈ paths -> exists row, row ∈ rows /\ pp_metrics p = rowMetrics row /\
  applyTopNodeLimit (flowPathForStages row stages ctx)
    (buildTopNodeSets rows metric stages (normalizeTopNodeLimit (go_topNodeLimit options)) ctx)
    (default Overflow_aggregate (go_overflowMode options)) (go_otherNodeLabel options) = Some (pp_path p).
Proof.
  intros (row & Hr & H)%list_elem_of_omap. exists row. split; [done|]. destruct (applyTopNodeLimit _ _ _ _) as [path|]; [|done].
  by injection H as <-.
Qed.

Lemma other_plain kind labeler : 0%N ∉ pn_id (otherFlowNode kind labeler).
Proof. apply (bool_decide_unpack _). by destruct kind. Qed.

Lemma prepared_plain : Forall row_plain rows -> Forall plain paths.
Proof.
  intros H. apply Forall_forall. intros p Hp. apply prepared_of_row in Hp as (row & Hr & _ & E). rewrite Forall_forall in H.
  specialize (H row Hr). unfold applyTopNodeLimit in E. unfold plain. destruct (buildTopNodeSets _ _ _ _ _) as [sets|]; [|by injection E as <-].
  destruct (negb _); [by injection E as <-|]. destruct (default _ _); [|done]. injection E as <-.
  apply Forall_map. eapply Forall_impl; [exact H|]. intros n Hn. cbn. destruct (isTopFlowNode n sets); [done|apply other_plain].
Qed.

Lemma prepared_natural : Forall (fun row => natural (row_value row)) rows -> Forall (fun p => natural (path_value metric p)) paths.
Proof.
  intros H. apply Forall_forall. intros p Hp. apply prepared_of_row in Hp as (row & Hr & E & _). unfold path_value. rewrite E.
  rewrite Forall_forall in H. by apply H.
Qed.

Lemma prepared_weight : Forall (fun row => natural (row_value row)) rows ->
  sum_Z (map (weight metric) paths) <= sum_Z (map (fun row => trunc_Z (row_value row)) rows).
Proof.
  unfold paths, preparePaths. set (sets := buildTopNodeSets _ _ _ _ _). clearbody sets. clear.
  induction 1 as [|row l [Hr _] _ IH]; [cbn; lia|]. cbn [omap list_omap map sum_Z]. destruct (applyTopNodeLimit _ _ _ _); cbn [map sum_Z].
  - change (weight metric _) with (trunc_Z (row_value row)). lia.
  - lia.
Qed.

Lemma prepared_all : go_overflowMode options <> Some Overflow_hide \/ normalizeTopNodeLimit (go_topNodeLimit options) = None ->
  sum_Z (map (weight metric) paths) = sum_Z (map (fun row => trunc_Z (row_value row)) rows).
Proof.
  intros H. unfold paths, preparePaths. set (sets := buildTopNodeSets _ _ _ _ _).
  assert (default Overflow_aggregate (go_overflowMode options) = Overflow_aggregate \/ sets = None) as Hm.
  { destruct H as [H|H]; [left; by destruct (go_overflowMode options) as [[]|]|right]. unfold sets. by rewrite H. }
  clearbody sets. clear -Hm. induction rows as [|row l IH]; [done|]. cbn [omap list_omap map sum_Z].
  destruct (applyTopNodeLimit _ _ _ _) eqn:E; cbn [map sum_Z].
  - change (weight metric _) with (trunc_Z (row_value row)). by rewrite IH.
  - exfalso. unfold applyTopNodeLimit in E. destruct sets; [|done]. destruct Hm as [Hm|]; [|done]. rewrite Hm in E. by destruct (negb _).
Qed.

Lemma summary_value : metricValue (buildSummary rows) metric = fold_left n_add (map row_value rows) n_zero.
Proof.
  unfold buildSummary. rewrite <- (metric_zero metric). generalize no_metrics. unfold row_value. clear.
  induction rows as [|row l IH]; intros m; [done|]. cbn [fold_left map]. by rewrite IH, metric_add.
Qed.

(** ** Conservation *)

Hypothesis rows_plain : Forall row_plain rows.
Hypothesis rows_natural : Forall (fun row => natural (row_value row)) rows.
Hypothesis rows_small : sum_Z (map (fun row => trunc_Z (row_value row)) rows) < 2 ^ 53.

Let staged_paths := prepared_staged rows metric stages ctx options.
Let stages_nodup : NoDup stages := proj1 (stages_ok role visible).
Let plain_paths := prepared_plain rows_plain.
Let natural_paths := prepared_natural rows_natural.

Lemma small_paths : sum_Z (map (weight metric) paths) < 2 ^ 53.
Proof. pose proof (prepared_weight rows_natural). lia. Qed.

Lemma shown_links_sum (Q : str * str -> bool) :
  let part := List.filter (fun l => Q (link_pair l)) (map snd (graph_links metric colors palette paths)) in
  sum_Z (map (fun l => trunc_Z (fl_value l)) part) < 2 ^ 53 ->
  fold_left n_add (map fl_value (List.filter (fun l => Q (link_pair l)) graph.2)) n_zero =
  n_of_Z (sum_Z (map (fun l => trunc_Z (fl_value l)) part)).
Proof.
  intros part Hs. destruct shown_cores as [_ HL].
  assert (map fl_value (List.filter (fun l => Q (link_pair l)) graph.2) ≡ₚ map fl_value part) as Hp.
  { exact (filter_core_perm link_core (fun c => Q c.1) snd _ _ HL). }
  pose proof (sum_Z_perm _ _ (Permutation_map trunc_Z Hp)) as Hsum. rewrite <- (map_map fl_value trunc_Z), <- Hsum in *.
  apply sum_exact; [|done]. rewrite Hp. apply Forall_map, Forall_forall. intros l Hl.
  apply list_elem_of_In, filter_In in Hl as [Hl _]. apply list_elem_of_In, list_elem_of_fmap in Hl as ([k l'] & -> & Hl).
  cbn [snd]. destruct (link_entry metric colors palette stages paths stages_nodup staged_paths plain_paths k l' Hl) as (_ & _ & -> & _).
  apply total_natural; [apply natural_paths|apply small_paths].
Qed.

Lemma shown_nodes_sum (Q : flow_kind -> bool) :
  let part := List.filter (fun n => Q (fn_kind n)) (map snd (graph_nodes metric colors palette paths)) in
  sum_Z (map (fun n => trunc_Z (fn_value n)) part) < 2 ^ 53 ->
  fold_left n_add (map fn_value (List.filter (fun n => Q (fn_kind n)) graph.1)) n_zero =
  n_of_Z (sum_Z (map (fun n => trunc_Z (fn_value n)) part)).
Proof.
  intros part Hs. destruct shown_cores as [HN _].
  assert (map fn_value (List.filter (fun n => Q (fn_kind n)) graph.1) ≡ₚ map fn_value part) as Hp.
  { exact (filter_core_perm node_core (fun c => Q c.1.2) snd _ _ HN). }
  pose proof (sum_Z_perm _ _ (Permutation_map trunc_Z Hp)) as Hsum. rewrite <- (map_map fn_value trunc_Z), <- Hsum in *.
  apply sum_exact; [|done]. rewrite Hp. apply Forall_map, Forall_forall. intros n Hn.
  apply list_elem_of_In, filter_In in Hn as [Hn _]. apply list_elem_of_In, list_elem_of_fmap in Hn as ([k n'] & -> & Hn).
  cbn [snd]. destruct (node_entry metric colors palette stages paths stages_nodup staged_paths k n' Hn) as (_ & -> & _).
  apply total_natural; [apply natural_paths|apply small_paths].
Qed.

Lemma node_on_path id kind p : p ∈ paths -> visits id p = true ->
  (exists q m, q ∈ paths /\ m ∈ pp_path q /\ pn_id m = id /\ pn_kind m = kind) -> exists m, m ∈ pp_path p /\ pn_id m = id /\ pn_kind m = kind.
Proof.
  intros Hp Hv (q & m & Hq & Hm & E & Ek). apply bool_decide_eq_true, list_elem_of_fmap in Hv as (m' & E' & Hm').
  exists m'. split; [done|]. split; [done|]. rewrite <- Ek. apply named_kind; [| |congruence].
  - by apply (path_named stages paths staged_paths p).
  - by apply (path_named stages paths staged_paths q).
Qed.

(** The value of a node is the sum over the links at one of its sides, when each path through
    the node has a link there. *)
Lemma shown_side (side : str * str -> str) n : n ∈ graph.1 ->
  (forall p m, p ∈ paths -> m ∈ pp_path p -> pn_kind m = fn_kind n -> pn_id m ∈ map side (id_pairs (pp_path p))) ->
  (forall p x, p ∈ paths -> x ∈ map side (id_pairs (pp_path p)) -> x ∈ map pn_id (pp_path p)) ->
  (forall p, p ∈ paths -> NoDup (map side (id_pairs (pp_path p)))) ->
  fn_value n = fold_left n_add (map fl_value (List.filter (fun l => bool_decide (side (link_pair l) = fn_id n)) graph.2)) n_zero.
Proof.
  intros Hn Hex Hin Hnd. destruct (shown_node n Hn) as (n0 & Hn0 & Ec). injection Ec as Ei Ek Ev.
  destruct (node_entry metric colors palette stages paths stages_nodup staged_paths _ _ Hn0) as (_ & E & q & m & Hq & Hm & Em & Emk & _).
  assert (sum_Z (map (fun l => trunc_Z (fl_value l)) (List.filter (fun l => bool_decide (side (link_pair l) = fn_id n))
            (map snd (graph_links metric colors palette paths)))) = sum_Z (map (weight metric) (List.filter (visits (fn_id n)) paths))) as Hc.
  { apply (side_conserved metric colors palette stages paths stages_nodup staged_paths plain_paths natural_paths small_paths).
    - intros p Hp Hv. destruct (node_on_path (fn_id n) (fn_kind n) p Hp Hv) as (m' & Hm' & E' & Ek').
      { exists q, m. by rewrite Emk. }
      specialize (Hex p m' Hp Hm' Ek'). apply list_elem_of_fmap in Hex as (x & Ex & Hx). exists x. by rewrite <- Ex.
    - intros p x Hp Hx Hs. apply bool_decide_eq_true, (Hin p); [done|]. rewrite <- Hs. by apply list_elem_of_fmap_2.
    - done. }
  pose proof (part_small metric paths natural_paths (visits (fn_id n))) as Hp. pose proof small_paths.
  transitivity (n_of_Z (sum_Z (map (weight metric) (List.filter (visits (fn_id n)) paths)))).
  - rewrite Ev, E. apply total_exact; [apply natural_paths|apply small_paths].
  - pose proof (shown_links_sum (fun x => bool_decide (side x = fn_id n))) as Hs. cbv beta zeta in Hs. rewrite Hc in Hs. symmetry.
    apply Hs. lia.
Qed.

Lemma in_removelast {A} (x : A) l : x ∈ l -> last l <> Some x -> x ∈ removelast l.
Proof.
  destruct l as [|y l _] using rev_ind; [done|]. rewrite removelast_last, last_snoc, elem_of_app, list_elem_of_singleton. naive_solver.
Qed.
Lemma in_tail {A} (x : A) l : x ∈ l -> head l <> Some x -> x ∈ tail l.
Proof. destruct l as [|y l]; [done|]. rewrite elem_of_cons. naive_solver. Qed.
Lemma removelast_sublist {A} (l : list A) : removelast l `sublist_of` l.
Proof. destruct l as [|y l _] using rev_ind; [done|]. rewrite removelast_last. by apply sublist_inserts_r. Qed.
Lemma tail_sublist {A} (l : list A) : tail l `sublist_of` l.
Proof. destruct l; [done|]. by apply sublist_cons. Qed.

(** A node at an end of its path has the kind of that end of the stages. *)
Lemma end_kind (pick : forall A, list A -> option A) p m :
  (forall A B (f : A -> B) l, pick B (map f l) = f <$> pick A l) -> (forall A l (x : A), pick A l = Some x -> x ∈ l) ->
  p ∈ paths -> m ∈ pp_path p -> pick _ (map pn_id (pp_path p)) = Some (pn_id m) -> pick _ stages = Some (pn_kind m).
Proof.
  intros Hmap Hin Hp Hm H. pose proof staged_paths as Hs. rewrite Forall_forall in Hs. destruct (Hs p Hp) as [Hk _]. rewrite <- Hk.
  rewrite Hmap in H |- *. destruct (pick _ (pp_path p)) as [m'|] eqn:E; [|done]. injection H as H. cbn. f_equal.
  apply named_kind; [| |done]; apply (path_named stages paths staged_paths p); try done. by apply (Hin _ _ m').
Qed.

Lemma ids_distinct p : p ∈ paths -> NoDup (map pn_id (pp_path p)).
Proof. intros Hp. pose proof staged_paths as Hs. rewrite Forall_forall in Hs. by apply (staged_ids stages), Hs. Qed.

Lemma outflow n : n ∈ graph.1 -> last stages <> Some (fn_kind n) ->
  fn_value n = fold_left n_add (map fl_value (List.filter (fun l => bool_decide (fl_source l = fn_id n)) graph.2)) n_zero.
Proof.
  intros Hn Hk. apply (shown_side fst n Hn).
  - intros p m Hp Hm E. rewrite pairs_sources. apply in_removelast; [by apply list_elem_of_fmap_2|]. intros H. apply Hk. rewrite <- E.
    apply (end_kind (fun A => @last A) p m); [intros; apply fmap_last|intros A l x; apply last_Some_elem_of|done..].
  - intros p x _. rewrite pairs_sources. apply sublist_subseteq, removelast_sublist.
  - intros p Hp. rewrite pairs_sources. eapply sublist_NoDup; [by apply ids_distinct|apply removelast_sublist].
Qed.

Lemma inflow n : n ∈ graph.1 -> head stages <> Some (fn_kind n) ->
  fn_value n = fold_left n_add (map fl_value (List.filter (fun l => bool_decide (fl_target l = fn_id n)) graph.2)) n_zero.
Proof.
  intros Hn Hk. apply (shown_side snd n Hn).
  - intros p m Hp Hm E. rewrite pairs_targets. apply in_tail; [by apply list_elem_of_fmap_2|]. intros H. apply Hk. rewrite <- E.
    apply (end_kind (fun A => @head A) p m); [by intros A B f [] |intros A [|y l] x; [done|]; intros [= ->]; left|done..].
  - intros p x _. rewrite pairs_targets. apply sublist_subseteq, tail_sublist.
  - intros p Hp. rewrite pairs_targets. eapply sublist_NoDup; [by apply ids_distinct|apply tail_sublist].
Qed.

Lemma stage_sum stage : stage ∈ stages ->
  fold_left n_add (map fn_value (List.filter (fun n => bool_decide (fn_kind n = stage)) graph.1)) n_zero =
  n_of_Z (sum_Z (map (weight metric) paths)).
Proof.
  intros Hs. pose proof (shown_nodes_sum (fun k => bool_decide (k = stage))) as H. cbv beta zeta in H.
  rewrite (stage_conserved metric colors palette stages paths stages_nodup staged_paths natural_paths small_paths stage Hs) in H.
  apply H, small_paths.
Qed.

Lemma rows_sum : metricValue (buildSummary rows) metric = n_of_Z (sum_Z (map (fun row => trunc_Z (row_value row)) rows)).
Proof. rewrite summary_value, <- (map_map row_value trunc_Z). apply sum_exact; [by apply Forall_map|]. by rewrite map_map. Qed.
End shown.

(** C35: The flow chart conserves its metric. When the rows hold natural numbers whose sum is a
    safe integer and no id holds the separator of link keys, the value of every shown node is the
    sum of its outgoing links, unless it is of the last visible stage, and of its incoming links,
    unless it is of the first; the nodes of all stages sum to the same value, which is the summary
    of the rows when no row is hidden. *)
Theorem flow_conserved {colours : ChartColors} {collation : Collation} rows metric role palette visible ctx options :
  Forall (row_plain role visible ctx) rows ->
  Forall (fun row => natural (row_value metric row)) rows ->
  sum_Z (map (fun row => trunc_Z (row_value metric row)) rows) < 2 ^ 53 ->
  let stages := resolveVisibleStages role visible in
  let graph := buildFlowGraph rows metric role palette visible ctx options in
  let stage_value stage := fold_left n_add (map fn_value (List.filter (fun n => bool_decide (fn_kind n = stage)) graph.1)) n_zero in
  (forall n, n ∈ graph.1 -> last stages <> Some (fn_kind n) ->
     fn_value n = fold_left n_add (map fl_value (List.filter (fun l => bool_decide (fl_source l = fn_id n)) graph.2)) n_zero) /\
  (forall n, n ∈ graph.1 -> head stages <> Some (fn_kind n) ->
     fn_value n = fold_left n_add (map fl_value (List.filter (fun l => bool_decide (fl_target l = fn_id n)) graph.2)) n_zero) /\
  (forall stage stage', stage ∈ stages -> stage' ∈ stages -> stage_value stage = stage_value stage') /\
  (go_overflowMode options <> Some Overflow_hide \/ normalizeTopNodeLimit (go_topNodeLimit options) = None ->
   forall stage, stage ∈ stages -> stage_value stage = metricValue (buildSummary rows) metric).
Proof.
  intros Hp Hn Hs stages graph stage_value. split; [by apply outflow|]. split; [by apply inflow|].
  split.
  - intros stage stage' H H'. unfold stage_value, graph. by rewrite !stage_sum.
  - intros Hm stage H. unfold stage_value, graph. rewrite stage_sum, rows_sum by done. by rewrite prepared_all.
Qed.

Lemma flow_conserved_witness :
  fold_left n_add (map fn_value (List.filter (fun n => bool_decide (fn_kind n = K_token)) (sample_graph 1 Overflow_aggregate false).1)) n_zero =
    n_of_Z 15 /\
  metricValue (buildSummary sample_flow_rows) M_requests = n_of_Z 15.
Proof.
  destruct (flow_conserved (colours := one_color) (collation := ascii_collation) sample_flow_rows M_requests Role_user None None None
              (sample_graph_options 1 Overflow_aggregate false)) as (_ & _ & _ & H).
  - repeat constructor; apply (bool_decide_unpack _); vm_compute; exact I.
  - repeat constructor; vm_compute; congruence.
  - vm_compute. reflexivity.
  - assert (metricValue (buildSummary sample_flow_rows) M_requests = n_of_Z 15) as Hs by (vm_compute; reflexivity).
    split; [|exact Hs]. rewrite <- Hs. apply H; [left; discriminate|]. left.
Defined.

(** A user without an id whose name is the id of another user is counted as that user. *)
Example user_ids_collide :
  let row id name := FlowRow id (Some name) None None None None None None None None None None in
  userNode (row (Some (n_of_Z 5)) (js "ann")) = PathNode (js "user:5") (js "ann") K_user /\
  userNode (row None (js "5")) = PathNode (js "user:5") (js "5") K_user.
Proof. split; vm_compute; reflexivity. Qed.
