(* ===== verification/DashboardFlowMask.v ===== *)
(** Masked flow charts: the names are gone, and nothing but the names. *)

From S2P Require Import Prelude JsString JsNumber JsNumberOrder JsValue BillingTypes JsJson TaskExpr Currency JsSort DashboardFlow DashboardFlowFacts DashboardFlowProps.

#[local] Open Scope nat_scope.

(** * Erasing labels *)

Definition erase_node (n : flow_node) : flow_node :=
  FlowNode (fn_id n) [] (fn_kind n) (fn_value n) (fn_metrics n) (fn_color n) (fn_colorKey n) (fn_highlighted n) (fn_dimmed n).
Definition erase_link (l : flow_link) : flow_link :=
  FlowLink (fl_source l) (fl_target l) (fl_value l) (fl_metrics l) [] [] (fl_color l) (fl_linkColor l) (fl_linkAlpha l)
    (fl_hoverColor l) (fl_colorKey l) (fl_share l) (fl_highlighted l) (fl_dimmed l).

(** Sorting commutes with a map that the comparator does not see. *)
Section sort_map.
Context {A : Type} (after : A -> A -> bool) (f : A -> A).
Hypothesis blind : forall x y, after (f x) (f y) = after x y.

Lemma sort_insert_map x l : sort_insert after (f x) (map f l) = map f (sort_insert after x l).
Proof. induction l as [|y l IH]; [done|]. cbn. rewrite blind, IH. by destruct (after y x). Qed.

Lemma sort_with_map l : sort_with after (map f l) = map f (sort_with after l).
Proof.
  unfold sort_with. change (@nil A) with (map f []) at 1. generalize (@nil A). induction l as [|x l IH]; intros acc; [done|].
  cbn [map fold_left]. by rewrite sort_insert_map, IH.
Qed.
End sort_map.

Section mask.
Context {colours : ChartColors} {collation : Collation}.

Lemma erase_display links l : link_display (map erase_link links) (erase_link l) = erase_link (link_display links l).
Proof.
  unfold link_display. rewrite filter_map_list, sort_with_map by done. rewrite !length_map. cbn [fl_source erase_link fl_color].
  assert (forall ls, find_index (fun l' => bool_decide (linkStableKey l' = linkStableKey (erase_link l))) (map erase_link ls) =
            find_index (fun l' => bool_decide (linkStableKey l' = linkStableKey l)) ls) as ->.
  { intros ls. induction ls as [|x ls IH]; [done|]. cbn [find_index map]. rewrite IH. done. }
  cbv zeta. by destruct (alphaColor _ _).
Qed.

(** The drawing of links sees no labels. *)
Definition drawn (roots : list str) (links : list flow_link) : list flow_link :=
  let sorted := sort_with link_position links in assignLinkDisplayColors (map (with_share (flow_total roots sorted)) sorted).

Lemma erase_drawn roots links : drawn roots (map erase_link links) = map erase_link (drawn roots links).
Proof.
  unfold drawn, assignLinkDisplayColors. cbv zeta. rewrite sort_with_map by done. set (ls := sort_with _ _).
  assert (flow_total roots (map erase_link ls) = flow_total roots ls) as ->.
  { unfold flow_total. rewrite filter_map_list. cbn [fl_source erase_link]. generalize n_zero.
    generalize (List.filter (fun l => bool_decide (fl_source l ∈ roots)) ls).
    intros l. induction l as [|x l IH]; intros z; [done|]. cbn [map fold_left]. by rewrite IH. }
  set (total := flow_total _ _).
  assert (map (with_share total) (map erase_link ls) = map erase_link (map (with_share total) ls)) as -> by by rewrite !map_map.
  generalize (map (with_share total) ls). intros shared. rewrite !map_map. apply map_ext. intros l. by rewrite erase_display.
Qed.

Lemma erase_mask nodes links :
  map erase_node (map snd (maskFlowGraphLabels nodes links).1) = map erase_node (map snd nodes) /\
  map erase_link (map snd (maskFlowGraphLabels nodes links).2) = map erase_link (map snd links).
Proof.
  unfold maskFlowGraphLabels. cbn [fst snd]. rewrite !map_snd, !map_map. split; apply map_ext; intros e; [|done].
  unfold mask_node. by destruct (is_masked e.2).
Qed.

Lemma erase_highlight nodes links sets nodes' links' :
  map erase_node (map snd nodes) = map erase_node (map snd nodes') -> map erase_link (map snd links) = map erase_link (map snd links') ->
  map erase_node (map snd (applyFlowHighlights nodes links sets).1) = map erase_node (map snd (applyFlowHighlights nodes' links' sets).1) /\
  map erase_link (map snd (applyFlowHighlights nodes links sets).2) = map erase_link (map snd (applyFlowHighlights nodes' links' sets).2).
Proof.
  destruct sets as [sets|]; [|done]. intros H1 H2. unfold applyFlowHighlights. cbn [fst snd]. rewrite !map_snd.
  assert (forall l, map erase_node (map (highlight_node sets) l) = map (highlight_node sets) (map erase_node l)) as En
    by (intros l; by rewrite !map_map).
  assert (forall l, map erase_link (map (highlight_link sets) l) = map (highlight_link sets) (map erase_link l)) as El
    by (intros l; by rewrite !map_map).
  by rewrite !En, !El, H1, H2.
Qed.

Section shown.
Variables (rows : list flow_row) (metric : flow_metric) (role : flow_role) (palette : option (list str))
  (visible : option (list flow_kind)) (ctx : option (number -> str)) (options : graph_options).

Let stages := resolveVisibleStages role visible.
Let paths := preparePaths rows metric stages ctx options.
Let colors := stableColorMap (sort_texts (root_ids paths)) palette.
Let N := graph_nodes metric colors palette paths.
Let L := graph_links metric colors palette paths.

Definition unmasked (options : graph_options) : graph_options :=
  GraphOptions (go_topNodeLimit options) (go_overflowMode options) (go_otherNodeLabel options) (go_activeNode options)
    (go_activeLink options) false.

Definition final_graph (graph : list (str * flow_node) * list (str * flow_link)) : list flow_node * list flow_link :=
  let graph := applyFlowHighlights graph.1 graph.2 (buildFlowHighlightSets paths (go_activeNode options) (go_activeLink options) stages) in
  (sort_with byValueThenLabel (map snd graph.1), drawn (root_ids paths) (map snd graph.2)).

Lemma graph_final : buildFlowGraph rows metric role palette visible ctx options =
  final_graph (if go_maskSensitive options then maskFlowGraphLabels N L else (N, L)).
Proof. unfold buildFlowGraph. fold stages paths colors. cbv zeta. by rewrite graph_folds. Qed.

Lemma unmasked_final : buildFlowGraph rows metric role palette visible ctx (unmasked options) = final_graph (N, L).
Proof. unfold buildFlowGraph. fold stages paths colors. cbv zeta. by rewrite graph_folds. Qed.

Lemma masked_same : go_maskSensitive options = true ->
  let masked := buildFlowGraph rows metric role palette visible ctx options in
  let plain := buildFlowGraph rows metric role palette visible ctx (unmasked options) in
  map erase_node masked.1 ≡ₚ map erase_node plain.1 /\ map erase_link masked.2 = map erase_link plain.2.
Proof.
  intros Hm. cbv zeta. rewrite graph_final, unmasked_final, Hm. unfold final_graph. cbv zeta. cbn [fst snd].
  destruct (erase_mask N L) as [E1 E2]. set (sets := buildFlowHighlightSets _ _ _ _).
  destruct (erase_highlight _ _ sets N L E1 E2) as [H1 H2]. split.
  - by rewrite !sort_with_perm, H1.
  - by rewrite <- !erase_drawn, H2.
Qed.

(** ** Labels *)

Definition node_text (n : flow_node) : str * flow_kind * str := (fn_id n, fn_kind n, fn_label n).
Definition link_text (l : flow_link) : str * str * str * str := (fl_source l, fl_target l, fl_sourceLabel l, fl_targetLabel l).

Lemma final_node_text graph n : n ∈ (final_graph graph).1 -> exists n0, n0 ∈ map snd graph.1 /\ node_text n = node_text n0.
Proof.
  unfold final_graph. cbn [fst]. rewrite sort_with_perm. destruct (buildFlowHighlightSets _ _ _ _) as [sets|]; [|by exists n].
  cbn [applyFlowHighlights fst]. rewrite map_snd. intros (n0 & -> & Hn)%list_elem_of_fmap. by exists n0.
Qed.

Lemma display_text links l : link_text (link_display links l) = link_text l.
Proof. unfold link_display. by destruct (alphaColor _ _). Qed.

Lemma final_link_text graph l : l ∈ (final_graph graph).2 -> exists l0, l0 ∈ map snd graph.2 /\ link_text l = link_text l0.
Proof.
  unfold final_graph. cbn [snd]. unfold drawn, assignLinkDisplayColors. cbv zeta.
  intros (l1 & -> & H1)%list_elem_of_fmap. apply list_elem_of_fmap in H1 as (l2 & -> & H2). rewrite sort_with_perm in H2.
  rewrite display_text. destruct (buildFlowHighlightSets _ _ _ _) as [sets|]; [|by exists l2].
  cbn [applyFlowHighlights snd] in H2. rewrite map_snd in H2. apply list_elem_of_fmap in H2 as (l0 & -> & H0). by exists l0.
Qed.

Lemma masked_labels_get nodes n : NoDup (map fn_id (map snd nodes)) -> n ∈ map snd nodes ->
  obj_get (fn_id n) (masked_labels nodes) = if is_masked n then Some (maskFlowLabel (fn_label n)) else None.
Proof.
  unfold masked_labels. induction nodes as [|[k m] nodes IH] using rev_ind; [by intros _ ?%not_elem_of_nil|].
  rewrite !map_app, NoDup_app, fold_left_app. intros (Hd & Hnot & _) [Hn|Hn]%elem_of_app; cbn [fold_left map snd] in *.
  - assert (fn_id n <> fn_id m) as Hne.
    { intros E. apply (Hnot (fn_id n)); [by apply list_elem_of_fmap_2|]. rewrite E. left. }
    destruct (is_masked m); [rewrite obj_get_set, bool_decide_eq_false_2 by done|]; by apply IH.
  - apply list_elem_of_singleton in Hn as ->.
    assert (fn_id m ∉ map fn_id (map snd nodes)) as Hm.
    { intros H. apply (Hnot _ H). left. }
    destruct (is_masked m); [by rewrite obj_get_set, bool_decide_eq_true_2|]. clear -Hm.
    induction nodes as [|[k m'] nodes IH] using rev_ind; [done|]. rewrite !map_app, not_elem_of_app in Hm. destruct Hm as [H1 H2].
    rewrite fold_left_app. cbn [fold_left map snd] in *. destruct (is_masked m'); [|by apply IH].
    rewrite obj_get_set, bool_decide_eq_false_2; [by apply IH|]. set_solver.
Qed.

Lemma shown_nodes_distinct : NoDup (map fn_id (map snd N)).
Proof. apply (nodes_distinct metric colors palette stages); [apply (stages_ok role visible)|apply prepared_staged]. Qed.

(** The ends of a link are nodes of the graph. *)
Lemma link_nodes l : l ∈ map snd L -> exists a b, a ∈ map snd N /\ b ∈ map snd N /\ fn_id a = fl_source l /\ fn_id b = fl_target l.
Proof.
  intros ([k l0] & -> & Hl)%list_elem_of_fmap. cbn [snd].
  apply upsert_entry in Hl as (first & rest & Hf & ->). rewrite link_bump_fold. cbn [fl_source fl_target link_init].
  assert (first ∈ of_key link_item_key k (flat_map link_items paths)) as Hi by (rewrite Hf; left).
  apply of_key_in in Hi as [Hi _]. apply in_link_items in Hi as [Hp Hx]. apply link_ends in Hx as [Ha Hb].
  destruct (node_present metric colors palette paths _ _ Hp Ha) as [a Hna]. destruct (node_present metric colors palette paths _ _ Hp Hb) as [b Hnb].
  exists a, b. repeat split.
  - apply list_elem_of_fmap. by eexists (_, a).
  - apply list_elem_of_fmap. by eexists (_, b).
  - apply (node_entry metric colors palette stages paths) in Hna as [-> _]; [done|apply (stages_ok role visible)|apply prepared_staged].
  - apply (node_entry metric colors palette stages paths) in Hnb as [-> _]; [done|apply (stages_ok role visible)|apply prepared_staged].
Qed.

Lemma masked_text n : is_masked n = true -> fn_label (mask_node n) = maskFlowLabel (fn_label n).
Proof. intros H. unfold mask_node. by rewrite H. Qed.

Lemma mask_keeps n : fn_id (mask_node n) = fn_id n /\ fn_kind (mask_node n) = fn_kind n /\ is_masked (mask_node n) = is_masked n.
Proof. unfold mask_node. by destruct (is_masked n) eqn:E. Qed.

Lemma final_node_shown graph n0 : n0 ∈ map snd graph.1 -> exists n, n ∈ (final_graph graph).1 /\ node_text n = node_text n0.
Proof.
  intros Hn. unfold final_graph. cbn [fst]. setoid_rewrite sort_with_perm.
  destruct (buildFlowHighlightSets _ _ _ _) as [sets|]; [|by exists n0]. cbn [applyFlowHighlights fst]. rewrite map_snd.
  exists (highlight_node sets n0). split; [|done]. by apply list_elem_of_fmap_2.
Qed.

(** A node of the graph is shown, and its mask text is what its links show. *)
Lemma masked_end n0 : n0 ∈ map snd N -> exists n, n ∈ (final_graph (maskFlowGraphLabels N L)).1 /\ fn_id n = fn_id n0 /\
  forall text, is_masked n = true -> default text (obj_get (fn_id n0) (masked_labels N)) = fn_label n.
Proof.
  intros Hn. destruct (final_node_shown (maskFlowGraphLabels N L) (mask_node n0)) as (n & Hs & E).
  { unfold maskFlowGraphLabels. cbn [fst]. rewrite map_snd. by apply list_elem_of_fmap_2. }
  destruct (mask_keeps n0) as (Ei & Ek & Em). injection E as Fi Fk Fl. exists n. split; [done|]. split; [by rewrite Fi|].
  intros text Hm. assert (is_masked n0 = true) as H0. { rewrite <- Em. unfold is_masked in *. by rewrite <- Fi, <- Fk. }
  rewrite masked_labels_get by (done || apply shown_nodes_distinct). rewrite H0, Fl, masked_text by done. done.
Qed.
End shown.
End mask.

(** C37: A masked flow chart shows no names and changes nothing else. Compared with the chart of the
    same data without the mask, the nodes are the same up to their labels and their order, and the
    links the same up to their labels; every node that is not a model or the rest of a stage is
    shown as the mask text, or empty where it had no name; and both ends of every link are shown
    nodes, whose mask text is what the link shows for them. *)
Theorem masked_chart {colours : ChartColors} {collation : Collation} rows metric role palette visible ctx options :
  go_maskSensitive options = true ->
  let masked := buildFlowGraph rows metric role palette visible ctx options in
  let plain := buildFlowGraph rows metric role palette visible ctx (unmasked options) in
  (map erase_node masked.1 ≡ₚ map erase_node plain.1 /\ map erase_link masked.2 = map erase_link plain.2) /\
  (forall n, n ∈ masked.1 -> is_masked n = true -> fn_label n = FLOW_MASK_TEXT \/ fn_label n = []) /\
  (forall l, l ∈ masked.2 -> exists a b, a ∈ masked.1 /\ b ∈ masked.1 /\ fn_id a = fl_source l /\ fn_id b = fl_target l /\
     (is_masked a = true -> fl_sourceLabel l = fn_label a) /\ (is_masked b = true -> fl_targetLabel l = fn_label b)).
Proof.
  intros Hm masked plain. split; [by apply masked_same|]. subst masked plain. rewrite graph_final, Hm.
  set (N := graph_nodes _ _ _ _). set (L := graph_links _ _ _ _). split.
  - intros n Hn Hs. apply final_node_text in Hn as (n0 & Hn & E). unfold maskFlowGraphLabels in Hn. cbn [fst] in Hn.
    rewrite map_snd in Hn. apply list_elem_of_fmap in Hn as (n1 & -> & _). injection E as Ei Ek El.
    destruct (mask_keeps n1) as (_ & _ & Em). unfold is_masked in Hs, Em. rewrite Ei, Ek, Em in Hs. rewrite El, masked_text by done.
    destruct (fn_label n1); [by right|by left].
  - intros l Hl. apply final_link_text in Hl as (l0 & Hl & E). unfold maskFlowGraphLabels in Hl. cbn [snd] in Hl.
    rewrite map_snd in Hl. apply list_elem_of_fmap in Hl as (l1 & -> & Hl). apply link_nodes in Hl as (a & b & Ha & Hb & Ea & Eb).
    destruct (masked_end _ _ _ _ _ _ _ _ Ha) as (a' & Ha' & Ia & Ta). destruct (masked_end _ _ _ _ _ _ _ _ Hb) as (b' & Hb' & Ib & Tb).
    injection E as Es Et Esl Etl. exists a', b'. split; [done|]. split; [done|]. rewrite Es, Et, Esl, Etl. cbn [mask_link fl_source fl_target fl_sourceLabel fl_targetLabel].
    rewrite <- Ea, <- Eb. split; [done|]. split; [done|]. split; [apply Ta|apply Tb].
Qed.

Lemma masked_chart_witness :
  map erase_link (sample_graph 1 Overflow_aggregate true).2 = map erase_link (sample_graph 1 Overflow_aggregate false).2 /\
  map (fun l => (fl_sourceLabel l, fl_targetLabel l)) (sample_graph 3 Overflow_aggregate true).2 =
    [(FLOW_MASK_TEXT, js "gpt-4o"); (FLOW_MASK_TEXT, js "claude"); (FLOW_MASK_TEXT, FLOW_MASK_TEXT);
     (FLOW_MASK_TEXT, FLOW_MASK_TEXT); (FLOW_MASK_TEXT, FLOW_MASK_TEXT); (FLOW_MASK_TEXT, FLOW_MASK_TEXT)].
Proof.
  split; [|vm_compute; reflexivity].
  destruct (masked_chart (colours := one_color) (collation := ascii_collation) sample_flow_rows M_requests Role_user None None None
              (sample_graph_options 1 Overflow_aggregate true)) as ([_ H] & _); [reflexivity|exact H].
Defined.

(** Nodes of equal value are ordered by their labels, so the mask moves them. *)
Example masked_order_changes :
  let graph mask := buildFlowGraph (colours := one_color) (collation := ascii_collation)
                      [token_row (js "web") (js "vip") (js "gpt-4o") 1; token_row (js "bot") (js "vip") (js "gpt-4o") 1]
                      M_requests Role_user None (Some [K_token; K_model]) None (GraphOptions None None None None None mask) in
  map fn_id (graph false).1 = [js "model:gpt-4o"; js "token:bot"; js "token:web"] /\
  map fn_id (graph true).1 = [js "model:gpt-4o"; js "token:web"; js "token:bot"].
Proof. split; vm_compute; reflexivity. Qed.
