(* ===== verification/DashboardFlowLimit.v ===== *)
(** What a flow chart is limited to: the limit on the nodes of a stage, which keeps the nodes
    with the largest totals, and the filters: what a selection keeps, and what an offered option
    leads to. *)

From S2P Require Import Prelude JsString JsNumber JsNumberOrder JsValue BillingTypes JsJson TaskExpr Currency JsSort DashboardFlow DashboardFlowFacts DashboardFlowProps.
From Stdlib Require Import Sorted.

#[local] Open Scope nat_scope.

(** Sorting is in order for every preorder that the comparator respects. *)
Section coarse.
Context {A : Type} (after : A -> A -> bool) (R : A -> A -> Prop) (P : A -> Prop).
Hypothesis R_trans : forall x y z, P x -> P y -> P z -> R x y -> R y z -> R x z.
Hypothesis after_R : forall x y, P x -> P y -> after x y = true -> R y x.
Hypothesis not_after_R : forall x y, P x -> P y -> after x y = false -> R x y.

Lemma sort_insert_coarse x l : P x -> Forall P l -> StronglySorted R l -> StronglySorted R (sort_insert after x l).
Proof.
  intros Hx Hl Hs. induction Hs as [|y l Hs IH Hy]; [by repeat constructor|]. apply Forall_cons in Hl as [HPy Hl].
  cbn [sort_insert]. destruct (after y x) eqn:E.
  - constructor; [by constructor|]. constructor; [by apply after_R|]. rewrite Forall_forall in Hy, Hl |- *. intros z Hz.
    apply (R_trans x y z); auto.
  - constructor; [by apply IH|]. rewrite sort_insert_perm. constructor; [by apply not_after_R|done].
Qed.

Lemma sort_with_coarse l : Forall P l -> StronglySorted R (sort_with after l).
Proof.
  unfold sort_with. assert (Forall P (@nil A) /\ StronglySorted R []) as [Ha Hs] by (split; constructor). revert Ha Hs. generalize (@nil A).
  induction l as [|x l IH]; intros acc Ha Hs Hl; [done|]. apply Forall_cons in Hl as [Hx Hl]. cbn [fold_left]. apply IH; [| |done].
  - rewrite sort_insert_perm. by constructor.
  - by apply sort_insert_coarse.
Qed.
End coarse.

Lemma sorted_split {A} (R : A -> A -> Prop) n l x y : StronglySorted R l -> x ∈ take n l -> y ∈ drop n l -> R x y.
Proof.
  revert n. induction l as [|z l IH]; intros n Hs; [destruct n; by intros ?%not_elem_of_nil|].
  apply StronglySorted_inv in Hs as [Hs Hz]. destruct n as [|n]; [by intros ?%not_elem_of_nil|]. cbn [take drop].
  intros [->|Hx]%elem_of_cons Hy; [|by eapply IH]. rewrite Forall_forall in Hz. apply Hz.
  rewrite <- (take_drop n l). set_solver.
Qed.

Section limit.
Context {colours : ChartColors} {collation : Collation}.

Definition finite_double (x : number) : Prop := is_double x = true /\ is_finite x = true.

Lemma rank_after_value a b : finite_double a.2 -> finite_double b.2 ->
  (rank_after a b = true -> n_leb a.2 b.2 = true) /\ (rank_after a b = false -> n_leb b.2 a.2 = true).
Proof.
  intros [Da Fa] [Db Fb]. pose proof (finite_not_nan _ Fa) as Na. pose proof (finite_not_nan _ Fb) as Nb.
  unfold rank_after, number_order. destruct (sub_sign b.2 a.2 Db Da Fb Fa) as [-> ->].
  rewrite !leb_ltb_negb by done. destruct (n_ltb b.2 a.2) eqn:E1, (n_ltb a.2 b.2) eqn:E2; cbn; try done.
  exfalso. apply ltb_rank in E1, E2; [|done..]. unfold rank_lt in E1, E2. lia.
Qed.

Section stage.
Variables (rows : list flow_row) (metric : flow_metric) (ctx : option (number -> str)) (stage : flow_kind).

Definition stage_id (row : flow_row) : str := pn_id (NODE_BUILDERS stage row ctx).
(** The total of an id over the rows. *)
Definition id_total (id : str) : number :=
  fold_left n_add (map (row_value metric) (List.filter (fun row => bool_decide (stage_id row = id)) rows)) n_zero.

Let totals := stage_totals rows metric ctx stage.

Lemma totals_upsert : totals = fold_left (upsert stage_id (fun row => (NODE_BUILDERS stage row ctx, n_zero))
                                            (fun row v => (v.1, n_add v.2 (row_value metric row)))) rows [].
Proof. done. Qed.

Lemma total_entry id r : (id, r) ∈ totals <-> id ∈ map stage_id rows /\ obj_get id totals = Some r.
Proof.
  rewrite totals_upsert, <- obj_get_value by apply upsert_keys. split; [|tauto]. intros H. split; [|done]. rewrite upsert_get in H.
  destruct (of_key stage_id id rows) as [|row rest] eqn:E; [done|].
  assert (row ∈ of_key stage_id id rows) as Hr by (rewrite E; left). apply of_key_in in Hr as [Hr <-]. by apply list_elem_of_fmap_2.
Qed.

Lemma total_get id r : obj_get id totals = Some r -> pn_id r.1 = id /\ r.2 = id_total id.
Proof.
  rewrite totals_upsert, upsert_get. unfold id_total. fold (of_key stage_id id rows).
  destruct (of_key stage_id id rows) as [|row rest] eqn:E; [done|]. intros [= <-].
  assert (row ∈ of_key stage_id id rows) as Hr by (rewrite E; left). apply of_key_in in Hr as [_ Hi].
  assert (forall l v, fold_left (fun v row => (v.1, n_add v.2 (row_value metric row))) l v =
            (v.1, fold_left n_add (map (row_value metric) l) v.2) :> path_node * number) as ->.
  { clear. intros l. induction l as [|x l IH]; intros v; [by destruct v|]. cbn [fold_left map]. by rewrite IH. }
  done.
Qed.

Lemma total_keys : map fst totals ≡ₚ distinct (map stage_id rows).
Proof.
  destruct (distinct_spec (map stage_id rows)) as [Hd Hi]. apply NoDup_Permutation; [rewrite totals_upsert; apply upsert_keys|done|].
  intros id. rewrite Hi, <- obj_get_fst, totals_upsert, upsert_get. split.
  - destruct (of_key stage_id id rows) as [|row rest] eqn:E; [by intros []|intros _].
    assert (row ∈ of_key stage_id id rows) as Hr by (rewrite E; left). apply of_key_in in Hr as [Hr <-]. by apply list_elem_of_fmap_2.
  - intros (row & -> & Hr)%list_elem_of_fmap.
    assert (row ∈ of_key stage_id (stage_id row) rows) as Ho by by apply of_key_in.
    destruct (of_key _ _ _); [by apply not_elem_of_nil in Ho|by eexists].
Qed.

Lemma rank_ids : map (fun r => pn_id r.1) (map snd totals) = map fst totals.
Proof.
  rewrite map_map. apply map_ext_in. intros [id r] H. apply list_elem_of_In, total_entry in H as [_ H]. by apply total_get in H as [? _].
Qed.

(** The ids that a limit keeps. *)
Definition top_ids (limit : Z) : list str := map (fun r => pn_id r.1) (slice_to limit (sort_with rank_after (map snd totals))).

Lemma top_all : map (fun r => pn_id r.1) (sort_with rank_after (map snd totals)) ≡ₚ distinct (map stage_id rows).
Proof. by rewrite sort_with_perm, rank_ids, total_keys. Qed.

Lemma top_sublist limit : top_ids limit `sublist_of` map (fun r => pn_id r.1) (sort_with rank_after (map snd totals)).
Proof. apply fmap_sublist, sublist_take. Qed.

Lemma top_distinct limit : NoDup (top_ids limit).
Proof. eapply sublist_NoDup; [|apply top_sublist]. rewrite top_all. apply distinct_spec. Qed.

Lemma top_known limit id : id ∈ top_ids limit -> id ∈ map stage_id rows.
Proof.
  intros H. apply distinct_spec. rewrite <- top_all. eapply elem_of_sublist; [exact H|apply top_sublist].
Qed.

Lemma top_length limit : length (top_ids limit) = Nat.min (Z.to_nat limit) (length (distinct (map stage_id rows))).
Proof.
  rewrite <- (Permutation_length top_all). unfold top_ids, slice_to. rewrite !length_map, length_take. lia.
Qed.

Hypothesis finite_totals : Forall (fun row => finite_double (id_total (stage_id row))) rows.

Lemma top_largest limit id id' : id ∈ top_ids limit -> id' ∈ map stage_id rows -> id' ∉ top_ids limit ->
  n_leb (id_total id') (id_total id) = true.
Proof.
  intros Hi Hi' Hn. set (sorted := sort_with rank_after (map snd totals)).
  assert (Forall (fun r => finite_double r.2 /\ r.2 = id_total (pn_id r.1)) (map snd totals)) as Hf.
  { apply Forall_forall. intros r ([k r'] & -> & H)%list_elem_of_fmap. apply total_entry in H as [Hk H]. cbn [snd].
    apply total_get in H as [E1 E2]. rewrite E1, E2. split; [|done]. apply list_elem_of_fmap in Hk as (row & -> & Hr).
    rewrite Forall_forall in finite_totals. by apply finite_totals. }
  assert (StronglySorted (fun a b => n_leb b.2 a.2 = true) sorted) as Hs.
  { apply (sort_with_coarse rank_after _ (fun r => finite_double r.2)).
    - intros x y z [_ Fx] [_ Fy] [_ Fz] H1 H2. apply (leb_trans _ y.2); by try apply finite_not_nan.
    - intros x y Hx Hy. by apply rank_after_value.
    - intros x y Hx Hy. by apply rank_after_value.
    - eapply Forall_impl; [exact Hf|]. by intros r [? _]. }
  rewrite <- (sort_with_perm rank_after) in Hf. fold sorted in Hf. rewrite Forall_forall in Hf.
  unfold top_ids, slice_to in Hi, Hn. fold sorted in Hi, Hn. set (n := Z.to_nat _) in *.
  apply list_elem_of_fmap in Hi as (r & -> & Hr).
  assert (id' ∈ map (fun r => pn_id r.1) sorted) as Hin. { unfold sorted. rewrite top_all. by apply distinct_spec. }
  apply list_elem_of_fmap in Hin as (r' & -> & Hr'). rewrite <- (take_drop n sorted) in Hr'.
  apply elem_of_app in Hr' as [Hr'|Hr']; [exfalso; apply Hn; by apply (list_elem_of_fmap_2 (fun r => pn_id r.1))|].
  assert (r ∈ sorted /\ r' ∈ sorted) as [Hrs Hrs'] by (rewrite <- (take_drop n sorted); set_solver).
  destruct (Hf r Hrs) as [_ <-]. destruct (Hf r' Hrs') as [_ <-]. exact (sorted_split _ n sorted r r' Hs Hr Hr').
Qed.
End stage.

(** ** Shown nodes *)

Lemma kind_entry {K V} `{EqDecision K} (f : K -> V) k l : k ∈ l -> obj_get k (map (fun x => (x, f x)) l) = Some (f k).
Proof.
  induction l as [|x l IH]; [by intros ?%not_elem_of_nil|]. cbn. case_bool_decide; [by subst|]. intros [->|Hk]%elem_of_cons; [done|by apply IH].
Qed.

Lemma prepared_top rows metric role visible ctx options limit p m :
  let stages := resolveVisibleStages role visible in
  normalizeTopNodeLimit (go_topNodeLimit options) = Some limit -> p ∈ preparePaths rows metric stages ctx options -> m ∈ pp_path p ->
  pn_id m ∈ top_ids rows metric ctx (pn_kind m) limit \/
  go_overflowMode options <> Some Overflow_hide /\ pn_id m = OTHER_FLOW_NODE_IDS (pn_kind m).
Proof.
  intros stages Hl Hp Hm.
  destruct (prepared_of_row rows metric role visible ctx options p Hp) as (row & _ & _ & E). fold stages in E. rewrite Hl in E. cbn [buildTopNodeSets] in E.
  set (sets := map _ stages) in E.
  assert (forall n, n ∈ flowPathForStages row stages ctx -> isTopFlowNode n sets = true -> pn_id n ∈ top_ids rows metric ctx (pn_kind n) limit) as Htop.
  { intros n Hn H. unfold isTopFlowNode, sets in H. rewrite kind_entry in H.
    - by apply bool_decide_eq_true in H.
    - apply list_elem_of_fmap in Hn as (k & -> & Hk). by rewrite builder_kind. }
  unfold applyTopNodeLimit in E. destruct (existsb _ _) eqn:Ex; cbn [negb] in E.
  - destruct (go_overflowMode options) as [[]|] eqn:Em; cbn in E; [|done|].
    all: injection E as E; rewrite <- E in Hm; apply list_elem_of_fmap in Hm as (n & -> & Hn).
    all: destruct (isTopFlowNode n sets) eqn:Et; [left; by apply Htop|by right].
  - injection E as E. rewrite <- E in Hm. left. apply Htop; [done|]. destruct (isTopFlowNode m sets) eqn:Et; [done|]. exfalso.
    assert (existsb (fun node => negb (isTopFlowNode node sets)) (flowPathForStages row stages ctx) = true); [|congruence].
    apply existsb_exists. exists m. split; [by apply list_elem_of_In|]. by rewrite Et.
Qed.

Lemma shown_ids rows metric role palette visible ctx options :
  NoDup (map fn_id (buildFlowGraph rows metric role palette visible ctx options).1).
Proof.
  destruct (shown_cores rows metric role palette visible ctx options) as [H _]. apply (Permutation_map (fun c => c.1.1)) in H.
  rewrite map_map, (map_map node_core) in H. cbn [node_core fst] in H. rewrite H.
  apply (nodes_distinct metric _ palette (resolveVisibleStages role visible)); [apply (stages_ok role visible)|apply prepared_staged].
Qed.

Lemma NoDup_bound {A} (l k : list A) : NoDup l -> (forall x, x ∈ l -> x ∈ k) -> length l <= length k.
Proof. intros Hl Hk. apply (submseteq_length l k), NoDup_submseteq; [done|exact Hk]. Qed.
End limit.



(** * Filters *)

(** * What a selection keeps *)

(** A row is kept when each visible kind with selected nodes has the node of the row among them. *)
Definition selected (ctx : option (number -> str)) (sel : list node_filter) (row : flow_row) (kind : flow_kind) : bool :=
  existsb (fun f => bool_decide (nf_kind f = kind) && bool_decide (nf_id f = stage_id ctx kind row)) sel.
Definition keeps (stages : list flow_kind) (ctx : option (number -> str)) (sel : list node_filter) (row : flow_row) : bool :=
  forallb (fun f => negb (bool_decide (nf_kind f ∈ stages)) || selected ctx sel row (nf_kind f)) sel.

Definition kind_ids (kind : flow_kind) (filters : list (flow_kind * list str)) : list str := default [] (obj_get kind filters).

Lemma selected_elem (x y : str) s : x ∈ set_add y s <-> x = y \/ x ∈ s.
Proof.
  unfold set_add. case_bool_decide; set_solver.
Qed.

Lemma add_filter_get kind nid filters k :
  obj_get k (add_filter kind nid filters) = if bool_decide (k = kind) then Some (set_add nid (kind_ids kind filters)) else obj_get k filters.
Proof.
  unfold kind_ids. induction filters as [|[k' ids] filters IH]; cbn [add_filter obj_get].
  - cbn [default from_option id]. unfold set_add. rewrite (bool_decide_eq_false_2 (nid ∈ [])) by by apply not_elem_of_nil. by case_bool_decide.
  - destruct (bool_decide (k' = kind)) eqn:E; breflect; cbn [obj_get].
    + subst k'. rewrite (bool_decide_eq_true_2 (kind = kind)) by done. by case_bool_decide.
    + rewrite IH, (bool_decide_eq_false_2 (kind = k')) by congruence. repeat case_bool_decide; congruence.
Qed.

Lemma add_filter_kinds kind id filters :
  map fst (add_filter kind id filters) = if bool_decide (kind ∈ map fst filters) then map fst filters else map fst filters ++ [kind].
Proof.
  induction filters as [|[k ids] filters IH]; [done|]. cbn [add_filter map fst]. destruct (bool_decide (k = kind)) eqn:E; breflect.
  - subst. by rewrite bool_decide_eq_true_2 by left.
  - cbn [map fst]. rewrite IH. repeat case_bool_decide; try done; set_solver.
Qed.

Section selection.
Variables (stages : list flow_kind) (ctx : option (number -> str)).

Definition visible_kind (k : flow_kind) : bool := bool_decide (k ∈ stages).

Lemma filters_spec sel :
  let filters := normalizeSelectedNodeFilters sel stages in
  NoDup (map fst filters) /\
  forall k, (k ∈ map fst filters <-> k ∈ stages /\ exists f, f ∈ sel /\ nf_kind f = k) /\
            (forall id, id ∈ kind_ids k filters <-> k ∈ stages /\ exists f, f ∈ sel /\ nf_kind f = k /\ nf_id f = id).
Proof.
  unfold normalizeSelectedNodeFilters. induction sel as [|f sel IH] using rev_ind.
  - split; [constructor|]. intros k. unfold kind_ids. cbn. set_solver.
  - rewrite fold_left_app. cbn [fold_left]. set (filters := fold_left _ sel []) in *. cbv zeta in IH. destruct IH as [Hn Hk].
    destruct (bool_decide (nf_kind f ∈ stages)) eqn:E; breflect.
    + split.
      { rewrite add_filter_kinds. case_bool_decide; [done|]. apply NoDup_app. split; [done|]. split; [set_solver|apply NoDup_singleton]. }
      intros k. destruct (Hk k) as [H1 H2]. split.
      * rewrite add_filter_kinds. setoid_rewrite elem_of_app. setoid_rewrite list_elem_of_singleton.
        destruct (Hk (nf_kind f)) as [H3 _]. case_bool_decide; [|rewrite elem_of_app, list_elem_of_singleton]; rewrite H1; naive_solver.
      * intros nid. unfold kind_ids at 1. rewrite add_filter_get. setoid_rewrite elem_of_app. setoid_rewrite list_elem_of_singleton.
        case_bool_decide as Ek; [|fold (kind_ids k filters); rewrite H2; naive_solver]. subst k. cbn [default from_option id].
        change (nid ∈ set_add (nf_id f) (kind_ids (nf_kind f) filters) <-> nf_kind f ∈ stages /\
          exists f0, (f0 ∈ sel \/ f0 = f) /\ nf_kind f0 = nf_kind f /\ nf_id f0 = nid).
        rewrite selected_elem, H2. naive_solver.
    + split; [done|]. intros k. destruct (Hk k) as [H1 H2]. split; [rewrite H1|intros id; rewrite H2];
        setoid_rewrite elem_of_app; setoid_rewrite list_elem_of_singleton; naive_solver.
Qed.

Lemma matches_keeps sel row :
  pathMatchesNodeFilters (flowPathForStages row stages ctx) (normalizeSelectedNodeFilters sel stages) = keeps stages ctx sel row.
Proof.
  destruct (filters_spec sel) as [Hn Hs]. set (filters := normalizeSelectedNodeFilters sel stages) in *. apply eq_iff_eq_true.
  unfold pathMatchesNodeFilters, keeps, selected. rewrite !forallb_forall. setoid_rewrite <- list_elem_of_In. split.
  - intros H f Hf. case_bool_decide as Ek; [|done]. cbn [negb orb]. destruct (Hs (nf_kind f)) as [Hk Hi].
    assert (nf_kind f ∈ map fst filters) as ([k ids] & E & Hin)%list_elem_of_fmap by (apply Hk; eauto). cbn in E. subst k.
    specialize (H _ Hin). apply existsb_exists in H as (n & Hp & [E1 E2]%andb_true_iff). cbn [fst snd] in E1, E2. breflect.
    apply list_elem_of_In, list_elem_of_fmap in Hp as (k & -> & Hp). rewrite builder_kind in E1. subst k.
    assert (stage_id ctx (nf_kind f) row ∈ kind_ids (nf_kind f) filters) as Hid.
    { unfold kind_ids. by rewrite (proj2 (obj_get_value (nf_kind f) ids filters Hn)). }
    apply Hi in Hid as (_ & g & Hg & Gk & Gi). apply existsb_exists. exists g. split; [by apply list_elem_of_In|].
    by rewrite !bool_decide_eq_true_2.
  - intros H [k ids] Hin. cbn [fst snd]. destruct (Hs k) as [Hk Hi].
    assert (k ∈ map fst filters) as Hkf by (apply list_elem_of_fmap; by exists (k, ids)). apply Hk in Hkf as (Hst & f & Hf & <-).
    specialize (H f Hf). rewrite bool_decide_eq_true_2 in H by done. cbn [negb orb] in H.
    apply existsb_exists in H as (g & Hg & [E1 E2]%andb_true_iff). breflect. apply list_elem_of_In in Hg.
    apply existsb_exists. exists (NODE_BUILDERS (nf_kind f) row ctx). split.
    { apply list_elem_of_In. by apply (list_elem_of_fmap_2 (fun stage => NODE_BUILDERS stage row ctx)). }
    rewrite builder_kind, bool_decide_eq_true_2 by done. cbn [andb]. apply bool_decide_eq_true.
    assert (pn_id (NODE_BUILDERS (nf_kind f) row ctx) ∈ kind_ids (nf_kind f) filters) as Hid by (apply Hi; eauto).
    unfold kind_ids in Hid. by rewrite (proj2 (obj_get_value (nf_kind f) ids filters Hn)) in Hid.
Qed.

Lemma filter_rows rows sel : filterRowsByNodes rows sel stages ctx = List.filter (keeps stages ctx sel) rows.
Proof.
  unfold filterRowsByNodes.
  transitivity (List.filter (fun row => pathMatchesNodeFilters (flowPathForStages row stages ctx) (normalizeSelectedNodeFilters sel stages)) rows);
    [|apply List.filter_ext; intros row; apply matches_keeps].
  destruct (normalizeSelectedNodeFilters sel stages); [|done]. clear. induction rows as [|r rows IH]; [done|]. cbn. by f_equal.
Qed.

Lemma forallb_agree {A} (f g : A -> bool) l : (forall x, x ∈ l -> f x = g x) -> forallb f l = forallb g l.
Proof.
  induction l as [|x l IH]; intros H; [done|]. cbn. rewrite H by left. f_equal. apply IH. intros y Hy. apply H. by right.
Qed.

(** ** Selecting one node of a stage *)

Definition select_only (sel : list node_filter) (kind : flow_kind) (id : str) : list node_filter :=
  selectedNodeFiltersExceptKind sel kind ++ [NodeFilter kind id].

Lemma keeps_only sel kind nid row : kind ∈ stages ->
  keeps stages ctx (select_only sel kind nid) row =
  keeps stages ctx (selectedNodeFiltersExceptKind sel kind) row && bool_decide (stage_id ctx kind row = nid).
Proof.
  intros Hk. unfold keeps, select_only. rewrite forallb_app. cbn [forallb nf_kind]. rewrite bool_decide_eq_true_2 by done. cbn [negb orb].
  rewrite andb_true_r. set (rest := selectedNodeFiltersExceptKind sel kind).
  assert (forall f, f ∈ rest -> nf_kind f <> kind) as Hr.
  { intros f Hf. apply list_elem_of_In, filter_In in Hf as [_ Hf]. by destruct (bool_decide_reflect (nf_kind f = kind)). }
  f_equal.
  - apply forallb_agree. intros f Hf. f_equal. unfold selected. rewrite existsb_app. cbn [existsb nf_kind].
    rewrite bool_decide_eq_false_2; [by rewrite orb_false_r|]. intros E. by apply (Hr f).
  - unfold selected. rewrite existsb_app. cbn [existsb nf_kind nf_id]. rewrite orb_false_r, bool_decide_eq_true_2 by done. cbn [andb].
    assert (existsb (fun f => bool_decide (nf_kind f = kind) && bool_decide (nf_id f = stage_id ctx kind row)) rest = false) as ->.
    { apply not_true_iff_false. intros (f & Hf & [E _]%andb_true_iff)%existsb_exists. breflect. by apply (Hr f); [apply list_elem_of_In|]. }
    cbn [orb]. apply bool_decide_ext. naive_solver.
Qed.
End selection.

(** * Offered options *)

Definition with_selection (options : flow_options) (sel : list node_filter) : flow_options :=
  FlowOptions (op_role options) (op_selectedUsers options) sel (op_colorPalette options) (op_visibleStages options)
    (op_deletedTokenLabel options) (op_graph options).

Definition option_stages (options : flow_options) : list flow_kind :=
  resolveVisibleStages (default Role_user (op_role options)) (op_visibleStages options).

Lemma filter_filter {A} (P Q : A -> bool) l : List.filter (fun x => P x && Q x) l = List.filter Q (List.filter P l).
Proof. induction l as [|x l IH]; [done|]. cbn. destruct (P x); cbn; [destruct (Q x); by rewrite IH|done]. Qed.

Lemma only_rows stages ctx rows sel kind nid : kind ∈ stages ->
  filterRowsByNodes rows (select_only sel kind nid) stages ctx =
  of_key (stage_id ctx kind) nid (filterRowsByNodes rows (selectedNodeFiltersExceptKind sel kind) stages ctx).
Proof.
  intros Hk. rewrite !filter_rows. unfold of_key. rewrite <- filter_filter. apply List.filter_ext. intros row. by apply keeps_only.
Qed.

Section offered.
Context {colours : ChartColors} {collation : Collation} {numbers : NumberFormat}.

Lemma stage_option rows metric stages palette colors ctx sel stage o :
  o ∈ stage_options rows metric stages palette colors ctx sel stage <->
  exists r, obj_get (op_value o) (stage_totals (filterRowsByNodes rows (selectedNodeFiltersExceptKind sel stage) stages ctx) metric ctx stage) = Some r /\
    o = FilterOption (Some (pn_kind r.1)) (pn_id r.1) (pn_label r.1) (formatFlowNumber r.2) r.2
          (default (colorAt 0 palette) (obj_get (pn_id r.1) colors)).
Proof.
  unfold stage_options. set (kept := filterRowsByNodes _ _ _ _). rewrite map_map. split.
  - intros ([id r] & -> & H)%list_elem_of_fmap. apply total_entry in H as [_ H]. cbn [snd op_value].
    pose proof H as [E _]%total_get. exists r. by rewrite E.
  - intros (r & H & ->). cbn [op_value] in H. apply list_elem_of_fmap. exists (pn_id r.1, r). split; [done|].
    apply total_entry. split; [|done].
    assert (is_Some (obj_get (pn_id r.1) (stage_totals kept metric ctx stage))) as Hs by by eexists.
    apply obj_get_fst in Hs. rewrite total_keys in Hs. by apply distinct_spec.
Qed.

Lemma total_kind rows metric ctx stage id r : obj_get id (stage_totals rows metric ctx stage) = Some r -> pn_kind r.1 = stage.
Proof.
  rewrite totals_upsert, upsert_get. destruct (of_key _ _ _) as [|row rest]; [done|]. intros [= <-].
  assert (forall l v, pn_kind v.1 = stage ->
    pn_kind (fold_left (fun v row => (v.1, n_add v.2 (row_value metric row))) l v).1 = stage) as H.
  { clear. intros l. induction l as [|x l IH]; intros v Hv; [done|]. by apply IH. }
  apply H. apply builder_kind.
Qed.

Section data.
Variables (rows : list flow_row) (metric : flow_metric) (options : flow_options).

Let stages := option_stages options.
Let ctx := op_deletedTokenLabel options.
Let rest stage := selectedNodeFiltersExceptKind (op_selectedNodes options) stage.
(** The rows that the filters of the other stages keep. *)
Definition candidate_rows (stage : flow_kind) : list flow_row :=
  filterRowsByNodes (filterRows rows (op_selectedUsers options)) (rest stage) stages ctx.

Lemma offered_sound o : o ∈ pf_nodes (buildDashboardFlowData rows metric options) ->
  exists stage, stage ∈ stages /\ op_kind o = Some stage /\ op_value o ∈ map (stage_id ctx stage) (candidate_rows stage) /\
    op_valueRaw o = id_total (candidate_rows stage) metric ctx stage (op_value o).
Proof.
  cbn [pf_nodes buildDashboardFlowData]. unfold buildNodeFilterOptions. fold (option_stages options) stages. rewrite sort_with_perm.
  rewrite list_elem_of_In, in_flat_map. intros (stage & Hs & Ho). apply list_elem_of_In in Hs, Ho.
  apply stage_option in Ho as (r & H & E). exists stage. pose proof (total_kind _ _ _ _ _ _ H) as Hk.
  pose proof (total_get _ _ _ _ _ _ H) as [Ei Ev]. split; [done|]. split; [by rewrite E, <- Hk|]. split; [|by rewrite E in Ev |- *].
  apply distinct_spec. rewrite <- total_keys. apply obj_get_fst. by eexists.
Qed.

Lemma offered_complete stage row : stage ∈ stages -> row ∈ candidate_rows stage ->
  exists o, o ∈ pf_nodes (buildDashboardFlowData rows metric options) /\ op_kind o = Some stage /\ op_value o = stage_id ctx stage row.
Proof.
  intros Hs Hr. cbn [pf_nodes buildDashboardFlowData]. unfold buildNodeFilterOptions. fold (option_stages options) stages.
  setoid_rewrite sort_with_perm. setoid_rewrite list_elem_of_In. setoid_rewrite in_flat_map.
  assert (stage_id ctx stage row ∈ map fst (stage_totals (candidate_rows stage) metric ctx stage)) as [r H]%obj_get_fst.
  { rewrite total_keys. apply distinct_spec. by apply list_elem_of_fmap_2. }
  pose proof (total_get _ _ _ _ _ _ H) as [Ei _]. pose proof (total_kind _ _ _ _ _ _ H) as Hk.
  eexists. split.
  - exists stage. split; [by apply list_elem_of_In|]. apply list_elem_of_In, stage_option. exists r. split; [|done]. cbn [op_value]. by rewrite Ei.
  - cbn [op_kind op_value]. by rewrite Hk, Ei.
Qed.
End data.

Lemma chosen_rows rows options stage nid : stage ∈ option_stages options ->
  filterRowsByNodes (filterRows rows (op_selectedUsers options)) (select_only (op_selectedNodes options) stage nid)
    (option_stages options) (op_deletedTokenLabel options) =
  of_key (stage_id (op_deletedTokenLabel options) stage) nid (candidate_rows rows options stage).
Proof. intros Hs. unfold candidate_rows. by rewrite <- only_rows. Qed.

(** Without a limit every kept row has its nodes in the chart. *)
Lemma chart_node rows metric role palette visible ctx options row stage : normalizeTopNodeLimit (go_topNodeLimit options) = None ->
  row ∈ rows -> stage ∈ resolveVisibleStages role visible ->
  exists n, n ∈ (buildFlowGraph rows metric role palette visible ctx options).1 /\ fn_id n = stage_id ctx stage row.
Proof.
  intros Hl Hr Hs. destruct (shown_cores rows metric role palette visible ctx options) as [H _].
  set (paths := preparePaths rows metric (resolveVisibleStages role visible) ctx options) in H.
  set (p := PreparedPath (flowPathForStages row (resolveVisibleStages role visible) ctx) (rowMetrics row)).
  assert (p ∈ paths) as Hp.
  { apply list_elem_of_omap. exists row. split; [done|]. rewrite Hl. done. }
  set (colors := stableColorMap _ _) in H.
  destruct (node_present metric colors palette paths p (NODE_BUILDERS stage row ctx) Hp) as [n0 Hn].
  { by apply (list_elem_of_fmap_2 (fun stage => NODE_BUILDERS stage row ctx)). }
  assert (node_core n0 ∈ map node_core (map snd (graph_nodes metric colors palette paths))) as Hc.
  { apply list_elem_of_fmap_2. apply list_elem_of_fmap. by eexists (_, n0). }
  rewrite <- H in Hc. apply list_elem_of_fmap in Hc as (n & E & Hn'). exists n. split; [done|]. injection E as <- _ _.
  by apply (node_entry metric colors palette (resolveVisibleStages role visible)) in Hn as [-> _];
    [|apply (stages_ok role visible)|apply prepared_staged].
Qed.
End offered.

(** The number beside an offered filter is what the chart shows once the filter is chosen.
    Every node that the rows kept by the filters of the other stages reach is offered; and when an
    offered node replaces the selection of its stage, the summary of the chart is exactly the
    number that was shown beside it, and without a limit the chart holds that node, so that no
    offered choice leads to an empty chart. *)
Theorem offered_filters_exact {colours : ChartColors} {collation : Collation} {numbers : NumberFormat} rows metric options :
  let data := buildDashboardFlowData rows metric options in
  (forall o, o ∈ pf_nodes data -> exists stage, stage ∈ option_stages options /\ op_kind o = Some stage /\
     let chosen := buildDashboardFlowData rows metric
                     (with_selection options (select_only (op_selectedNodes options) stage (op_value o))) in
     metricValue (pf_summary chosen) metric = op_valueRaw o /\
     (normalizeTopNodeLimit (go_topNodeLimit (op_graph options)) = None ->
      exists n, n ∈ (pf_flow chosen).1 /\ fn_id n = op_value o)) /\
  (forall stage row, stage ∈ option_stages options -> row ∈ candidate_rows rows options stage ->
     exists o, o ∈ pf_nodes data /\ op_kind o = Some stage /\ op_value o = stage_id (op_deletedTokenLabel options) stage row).
Proof.
  intros data. split; [|apply offered_complete]. intros o (stage & Hs & Hk & Hv & E)%offered_sound. exists stage.
  split; [done|]. split; [done|]. cbv zeta. cbn [buildDashboardFlowData pf_summary pf_flow op_role op_selectedUsers op_selectedNodes
    op_colorPalette op_visibleStages op_deletedTokenLabel op_graph with_selection]. fold (option_stages options). rewrite chosen_rows by done.
  split; [by rewrite summary_value, E|]. intros Hl. apply list_elem_of_fmap in Hv as (row & Ev & Hr). rewrite Ev.
  apply chart_node; [done| |done]. apply of_key_in. done.
Qed.
